(* ===== verification/_CoqProject ===== *)
-Q . S2P
Prelude.v
Triple.v
Text.v
Regex.v
Identifier.v
Types.v
Instances.v
Literals.v
LiteralFacts.v
Values.v
ValueFacts.v
IntervalFacts.v
ValueTyping.v
Entities.v
CatalogColumns.v
Catalog.v
CatalogFacts.v
TableStats.v
Differences.v
CommitState.v
Ids.v
Change.v
AppliedChange.v
Dialect.v
TransactionChanges.v
Executors.v
Database.v
PostgresCopy.v
Metadata.v
MetadataFacts.v
Load.v
Transactions.v
TransactionTable.v
TransactionFacts.v
Batches.v
Persist.v
Stamps.v
History.v
Commit.v
Demo.v
CommitFacts.v
StatsKey.v
DataCommit.v
Retry.v
Expire.v
ExpireFacts.v
Cleanup.v
Cache.v
CacheFacts.v
CacheContract.v
LoadedColumns.v
LoadFacts.v
Connection.v
ConnectionFacts.v
Scan.v
ScanFacts.v
Upgrades.v
Lake.v
LakeFacts.v
Transfer.v
TransferFacts.v
Arrow.v
ArrowFacts.v
Physical.v
Arrays.v
ArraysFacts.v
Inlined.v
InlinedFacts.v
Matching.v
MatchingFacts.v
Paths.v
Parquet.v
