(* ===== verification/Prelude.v ===== *)
(** * A verification development for the DuckLake SDK (crate [ducklake])

    DuckLake keeps the catalog of a lake - schemas, tables, columns, files, their
    statistics, options and snapshots - in a SQL database, and the data in Parquet
    files of an object store; small batches of rows may be stored ("inlined") in the
    database itself. The crate under [src/crates/ducklake/src] is the client: it
    loads a snapshot into an in-memory catalog, lets a transaction change a copy of
    it, and commits the changes as the next snapshot, while other clients do the
    same. All paths below are relative to that directory.

    ** The parts and the files that model them

    Foundations. [Prelude] has outcomes ([Ok], [Err], [Panic]), state-passing
    methods, record update, wrapping 64-bit integers, insertion-ordered maps;
    [Triple] the invariants of state-passing methods; [Text] and [Regex] the
    string methods and regular expressions the sources use; [Identifier] quoting
    and parsing of names ([utils/identifier.rs], [typedefs/name.rs]); [Types] the
    public data types and errors ([typedefs/], [error.rs], the catalog's paths of
    [io/path.rs]); [Instances] a concrete choice of the third-party types.

    Text of values. [Literals], [Values] define what [spec/literals/] and
    [typedefs/value/] write and read; [LiteralFacts], [ValueFacts],
    [IntervalFacts] and [ValueTyping] show what is read back, and at which type.

    The catalog in memory. [CatalogColumns] is the arena of the columns of a
    table, [Catalog] the arenas of schemas, tables, views and macros with every
    operation on them ([catalog/]); [CatalogFacts] shows that the catalog stays well
    formed and that tables behave as a finite map of qualified names.

    The catalog in the database. [Entities] are the rows ([spec/entities.rs]),
    [Dialect] the limits of the databases, [Database] the statements with their
    documented effect and the batching ([db/]), [Batches] the equivalence of batched
    and single statements, [PostgresCopy] the COPY stream, [Load], [LoadedColumns] and
    [LoadFacts] the way from the rows of a snapshot to a catalog ([catalog/load.rs]).

    Transactions. [Transactions] and [TransactionTable] are the operations
    ([transaction/{table,schema,view,macro_}.rs]); [TransactionFacts] shows what
    each keeps and that failures leave no trace. [Change] is the queue and the
    change set, [AppliedChange] the stored record of a snapshot and the conflicts
    between two ([transaction/changes/]); [CommitState], [Ids], [TableStats] the
    IDs and statistics of a commit; [Executors] what each change writes
    ([transaction/executors/]); [TransactionChanges] and [Persist] the rows and
    their statements; [Differences] the joins of keyed collections.

    Commits. [Commit] is one attempt and the retry loop ([transaction/mod.rs]);
    [Stamps], [History], [CommitFacts], [StatsKey], [DataCommit] and [Retry] are
    the theorems on it, [Demo] a small database for their witnesses.

    Caches. [Cache] is the process-wide cache of snapshots, catalogs and statistics
    ([caches/], [primitives/]); [CacheFacts] reads through it while others write;
    [CacheContract] shows that commits provide what it relies on; [Metadata] and
    [MetadataFacts] are the cache of options ([caches/metadata.rs]).

    Using a lake. [Connection] has connections, handles and their methods
    ([ducklake.rs], [table.rs]), [Scan] the scan of a table and the totals of a
    listing ([scan/], [table_statistics.rs]), [Lake] creating and connecting
    ([spec/init.rs], [options.rs]), [Upgrades] the older formats
    ([spec/upgrades/]), [Expire] and [Cleanup] maintenance ([maintenance/]),
    [Transfer] copying and moving tables between lakes ([transfer.rs]); each has its
    theorems in the file itself or in the one named [...Facts] after it.

    Data. [Arrow] is the translation of schemas ([typedefs/schema/arrow.rs]),
    [Physical] and [Arrays] the physical values and the statistics of arrays
    ([io/arrow/]), [Inlined] the rows that are stored in the database ([db/arrow/]),
    [Matching] the matching of batches to a schema ([io/arrow/schema.rs],
    [typedefs/value/arrow.rs]), [Paths] the paths of files and the cache of object
    stores ([io/path.rs]), [Parquet] the statistics of Parquet files
    ([io/parquet/]).

    ** How definitions correspond to the code

    A definition has the name of the function it translates, in a Module named
    after its type or file. A [&mut self] method is a [method S A]: a function from
    the state to an outcome and the state after it, so that what an error or a panic
    leaves behind is visible. [?] is the bind, [unwrap] on [None], an index out of
    range and [unreachable!] are [Panic]. Integers are [Z]; arithmetic that can
    leave 64 bits wraps, as in a release build. The database is a record of tables
    ([Db]); a statement is a value with an effect on it. Other clients are
    functions applied to the database between the interactions of the client
    ([Surroundings]), arbitrary but for the rules they have to respect, which the
    theorems name: others only append snapshots, and so on.

    Interfaces are type classes. [RegexEngine], [SqlEngine], [MaintenanceEngine],
    [UpgradeEngine], [ValueText], [TypeEncoder], [TypeDecoder], [Kernels],
    [ArrowArith], [ParquetLibrary], [StoreEnvironment] and their like state what one part relies
    on; third-party code is only ever a field of such a class, with its documented
    behaviour as a law where a theorem needs it, and a [demo_...] instance shows that
    the laws can hold. [ValueText] is discharged by [Values], [RegexEngine] by an
    executable matcher. The classes [DataFormats] (reading Parquet footers, matching
    batches, their statistics) and [ScanFormats] (decoding rows) keep transactions
    and scans independent of arrays; [Parquet], [Matching], [Arrays] and [Inlined]
    define what they stand for.

    ** What the theorems show

    - Commits: a successful commit is one attempt on a database that only others
      wrote to, the last of a chain: each retry starts from the newest snapshot,
      cleared of conflicts with everything committed since the transaction began
      under the IDs of the attempt before ([commit_is_one_cleared_attempt]); it
      appends one snapshot with the number after its base; earlier
      snapshots keep seeing the same rows (both for change sets without inlined
      writes and detached files); a failed one writes nothing. IDs follow the
      sequences of the base snapshot and are fresh, change sets have the last of each change, conflicts are exactly those of
      a declarative relation, the stored record reads back.
    - Caches: whatever happens around the process, a cached catalog is the one its
      snapshot sees, the head never moves back, cached options are the stored ones;
      when statistics are shared between snapshots ([statistics_key_advances]).
    - Transactions and the catalog: invariants of every operation, failed operations
      without a trace, a refinement to finite maps, termination of updates of
      nested data types, a loaded catalog with exactly the tables, columns, views and
      macros of its rows.
    - Data: values, intervals, schemas, physical values, inlined rows and the COPY
      stream read back; bounds of arrays, files and tables are bounds; the batches
      of a write or a read match the schema at every level of nesting, constructors
      of arrays never refuse, and missing columns hold their defaults.
    - Operations on a lake: expiring and cleaning up delete exactly what is asked
      for, upgrades resume, a new lake is initial, transfers are ordered and complete,
      a pinned connection is stable and writes nothing, handles lead back to their
      names, listings agree with scans.
    - Where the code does less than it means to, a theorem shows it on an input:
      [moves_can_lose_files], [array_bounds_can_be_wrong], [inlined_maps_cannot_be_read],
      [groups_without_bounds_are_ignored], [failed_store_poisons],
      [interrupted_mysql_upgrade_is_stuck], the intervals of
      [IntervalFacts], the statistics key of [StatsKey].

    ** Bounds of recursion

    Recursion that is not structural carries a number of steps, and a step too few
    is a [Panic] or visible in the result, never a silent success. Walks of an arena
    of columns take one step more than it has columns ([fuel_of]); a column lies above
    its children. The update of a nested data type takes the depth of the existing
    one, and what happens when they run out does not matter
    ([dtype_update_terminates]). Batches and
    chunks take as many steps as there are items, each consuming at least one; the
    halving search for a batch size takes as many as the size
    ([batches_cover_items] shows both are enough). Builders of nested arrays take the
    depth of the field ([field_depth]); a round trip that ran out of it could not be
    proved ([inlined_rows_read_back]). Global matches of a regular expression take the
    length of the text. The retry loop counts down the retries of the source.

    ** What is not modelled, and why

    - Third-party code: the SQL text of statements and the engines (their effect is
      an interface), connection pools and I/O errors of mere existence checks, the
      parser of view definitions ([view/sql.rs] works on its syntax tree), the
      Parquet format, the compute kernels and checking constructors of [arrow]
      (parameters with laws in [Arrays] and [MatchingFacts]), the text of floats, decimals, dates and UUIDs.
    - The Python bindings and the procedural macros but for the tables they derive;
      [delete.rs], which only calls the database and the object store; accessors,
      builders and conversions between owned and borrowed types.
    - Simplifications. The pattern [\d] is the ASCII digits. The queries that load a
      catalog see one state of the database in [Cache]; in [Commit] every query has
      its own moment. A session of [Connection] sees a commit of its own as one step
      and takes the caches around it as given. NOT NULL constraints of the tables are
      left out. MySQL commits implicitly at a statement that changes the schema: what a
      failed run leaves is then that of [left_behind], in upgrades, creation and
      maintenance; a commit of a transaction, which there executes such a statement only
      for the inlined deletions of transferred files (tables with inlined rows are
      not supported on MySQL), is rolled back as a whole in the model. A cell
      that is read from the database is the cell that was bound. Signs of NaN are
      not distinguished. Nested arrays of [Inlined] are not checked for nullability on
      construction; those of [Matching] are. Arrays have the layouts the SDK converts;
      other ones occur only as data types. Handles of a transfer read through the
      caches of the source. All providers of object stores are compiled in. *)

From stdpp Require Export strings gmap sets list.
From stdpp Require Export prelude.
From Stdlib Require Export Ascii ZArith.
From Stdlib Require Export Sorted DecimalString DecimalPos DecimalZ Lia.


#[export] Set Default Goal Selector "!".

Create HintDb ducklake.
Declare Scope ducklake_scope.
Delimit Scope ducklake_scope with ducklake.

(** ** Outcomes

    A Rust function returns a value, returns [Err], or panics ([unwrap] on
    [None], an index out of range, [unreachable!], [todo!], ...). *)

Inductive outcome (E A : Type) : Type :=
  | Ok (a : A)
  | Err (e : E)
  | Panic.
Arguments Ok {E A} a.
Arguments Err {E A} e.
Arguments Panic {E A}.

#[export] Instance outcome_ret {E} : MRet (outcome E) := fun _ a => Ok a.
#[export] Instance outcome_bind {E} : MBind (outcome E) := fun _ _ f m =>
  match m with Ok a => f a | Err e => Err e | Panic => Panic end.
#[export] Instance outcome_fmap {E} : FMap (outcome E) := fun _ _ f m =>
  match m with Ok a => Ok (f a) | Err e => Err e | Panic => Panic end.

Definition is_ok {E A} (m : outcome E A) : bool :=
  match m with Ok _ => true | _ => false end.

Definition is_err {E A} (m : outcome E A) : bool :=
  match m with Err _ => true | _ => false end.

(** [Option::ok_or] and [Option::unwrap] *)
Definition ok_or {E A} (e : E) (o : option A) : outcome E A :=
  match o with Some a => Ok a | None => Err e end.
Definition unwrap {E A} (o : option A) : outcome E A :=
  match o with Some a => Ok a | None => Panic end.

(** ** State-passing with outcomes

    [&mut self] methods: the state is returned on every path, because an error
    leaves whatever the method had already written. *)

Definition stateful (S E A : Type) : Type := S -> outcome E A * S.

#[export] Instance stateful_ret {S E} : MRet (stateful S E) :=
  fun _ a s => (Ok a, s).
#[export] Instance stateful_bind {S E} : MBind (stateful S E) := fun _ _ f m s =>
  match m s with
  | (Ok a, s') => f a s'
  | (Err e, s') => (Err e, s')
  | (Panic, s') => (Panic, s')
  end.

Definition st_get {S E} : stateful S E S := fun s => (Ok s, s).
Definition st_gets {S E A} (f : S -> A) : stateful S E A := fun s => (Ok (f s), s).
Definition st_modify {S E} (f : S -> S) : stateful S E unit := fun s => (Ok tt, f s).
Definition st_lift {S E A} (m : outcome E A) : stateful S E A := fun s => (m, s).
Definition st_panic {S E A} : stateful S E A := fun s => (Panic, s).
Definition st_throw {S E A} (e : E) : stateful S E A := fun s => (Err e, s).

Lemma bind_Ok {S E A B} (m : stateful S E A) (f : A -> stateful S E B) s b s' :
  (m ≫= f) s = (Ok b, s') -> exists a s1, m s = (Ok a, s1) /\ f a s1 = (Ok b, s').
Proof.
  unfold mbind, stateful_bind. destruct (m s) as [[a| |] s1]; [|done..]. eauto.
Qed.

(** Run a method of a component on the field that holds it. *)
Definition st_zoom {S T E A} (get : S -> T) (put : T -> S -> S)
    (m : stateful T E A) : stateful S E A :=
  fun s => let '(r, t) := m (get s) in (r, put t s).

(** [for x in l { body(x)?; }] *)
Fixpoint st_for {S E A} (body : A -> stateful S E unit) (l : list A) : stateful S E unit :=
  match l with
  | [] => mret tt
  | x :: l => body x ;; st_for body l
  end.

(** [l.iter().map(f).collect()] for an [f] that mutates captured state *)
Fixpoint st_map {S E A B} (f : A -> stateful S E B) (l : list A) : stateful S E (list B) :=
  match l with
  | [] => mret []
  | x :: l => y ← f x; ys ← st_map f l; mret (y :: ys)
  end.

(** [for x in l { acc = f(acc, x)?; }] *)
Fixpoint fold_outcome {E A B} (f : B -> A -> outcome E B) (acc : B) (l : list A) : outcome E B :=
  match l with
  | [] => Ok acc
  | x :: l => acc ← f acc x; fold_outcome f acc l
  end.

(** [iter.map(f).collect::<Result<Vec<_>, _>>()] *)
Fixpoint map_outcome {E A B} (f : A -> outcome E B) (l : list A) : outcome E (list B) :=
  match l with
  | [] => Ok []
  | x :: l => y ← f x; ys ← map_outcome f l; mret (y :: ys)
  end.

Lemma map_outcome_Forall2 {E A B} (f : A -> outcome E B) l ys :
  map_outcome f l = Ok ys -> Forall2 (fun x y => f x = Ok y) l ys.
Proof.
  revert ys. induction l as [|x l IH]; intros ys; cbn; [intros [= <-]; constructor|].
  unfold mbind, outcome_bind. destruct (f x) eqn:Hx; [|done..].
  destruct (map_outcome f l); [|done..]. intros [= <-]. constructor; auto.
Qed.

(** [option.map(f).transpose()] *)
Definition option_outcome {E A B} (f : A -> outcome E B) (o : option A) : outcome E (option B) :=
  match o with Some a => b ← f a; mret (Some b) | None => mret None end.

(** Run a [&mut self] method that cannot fail on a copy of the error type. *)
Definition infallible {E F A} (m : outcome E A) : outcome F A :=
  match m with Ok a => Ok a | _ => Panic end.

(** [if let Some(x) = o { body(x)?; }] *)
Definition st_when_some {S E A} (body : A -> stateful S E unit) (o : option A) : stateful S E unit :=
  match o with Some a => body a | None => mret tt end.

(** ** Functional record update: [x <| field ::= f |>] and [x <| field := v |>]. *)

Class Setter {R T : Type} (proj : R -> T) : Type := update_field : (T -> T) -> R -> R.
Arguments update_field {R T} proj {_} f r.

Notation "x <| proj ::= f |>" := (update_field proj f x)
  (at level 1, f at level 200, left associativity).
Notation "x <| proj := v |>" := (update_field proj (fun _ => v) x)
  (at level 1, v at level 200, left associativity).

(** [mk_setter eta proj]: abstract one projection out of an eta-expanded record. *)
Ltac mk_setter eta proj :=
  let e := eval red in eta in
  match eval pattern proj in e with
  | ?g _ => let t := eval cbv beta in (fun f r => g (fun r' => f (proj r')) r) in exact t
  end.

(** ** 64-bit signed arithmetic (release profile: wraps around) *)

Definition i64_min : Z := (- 2 ^ 63)%Z.
Definition i64_max : Z := (2 ^ 63 - 1)%Z.
Definition wrap64 (z : Z) : Z := ((z + 2 ^ 63) mod 2 ^ 64 - 2 ^ 63)%Z.
Definition i64_add (a b : Z) : Z := wrap64 (a + b).
Definition in_i64 (z : Z) : Prop := (i64_min <= z <= i64_max)%Z.


(** The values of the range [a..b]. *)
Definition i64_range (a b : Z) : list Z :=
  (fun k => (a + Z.of_nat k)%Z) <$> seq 0 (Z.to_nat (b - a)).

Lemma wrap64_id z : in_i64 z -> wrap64 z = z.
Proof.
  unfold in_i64, i64_min, i64_max, wrap64. intros ?. rewrite Z.mod_small; lia.
Qed.

Lemma wrap64_range z : in_i64 (wrap64 z).
Proof.
  unfold in_i64, i64_min, i64_max, wrap64.
  pose proof (Z.mod_pos_bound (z + 2 ^ 63) (2 ^ 64)). lia.
Qed.

Lemma i64_add_exact a b : in_i64 (a + b) -> i64_add a b = (a + b)%Z.
Proof. apply wrap64_id. Qed.

(** ** Insertion-ordered maps ([indexmap::IndexMap])

    An [IndexMap] is its list of entries in iteration order; keys are unique. *)

Module IndexMap.
Section IndexMap.
Context {K V : Type} `{!EqDecision K}.
Implicit Types m : list (K * V).

Fixpoint get (k : K) (m : list (K * V)) : option V :=
  match m with
  | [] => None
  | (k', v) :: m => if decide (k' = k) then Some v else get k m
  end.

Definition contains_key (k : K) (m : list (K * V)) : bool :=
  match get k m with Some _ => true | None => false end.

(** Replaces the value in place when the key is present, appends otherwise. *)
Fixpoint insert (k : K) (v : V) (m : list (K * V)) : list (K * V) :=
  match m with
  | [] => [(k, v)]
  | (k', v') :: m => if decide (k' = k) then (k', v) :: m else (k', v') :: insert k v m
  end.

(** Position and value of the removed entry; later entries shift down. *)
Fixpoint shift_remove_full (k : K) (m : list (K * V)) : option (nat * V * list (K * V)) :=
  match m with
  | [] => None
  | (k', v) :: m =>
      if decide (k' = k) then Some (0, v, m)
      else '(i, w, m') ← shift_remove_full k m; Some (S i, w, (k', v) :: m')
  end.

(** Insertion of a key that is absent at a position within bounds. *)
Definition shift_insert (i : nat) (k : K) (v : V) (m : list (K * V)) : list (K * V) :=
  take i m ++ (k, v) :: drop i m.

(** [FromIterator]: the last value of a duplicated key wins, in the first position. *)
Definition from_iter (l : list (K * V)) : list (K * V) :=
  foldl (fun m '(k, v) => insert k v m) [] l.

Lemma get_None m k : get k m = None <-> k ∉ m.*1.
Proof.
  induction m as [|[k' v] m IH]; csimpl; [set_solver|].
  case_decide; [set_solver|]. rewrite IH. set_solver.
Qed.

Lemma contains_key_true m k : contains_key k m = true <-> k ∈ m.*1.
Proof.
  unfold contains_key. pose proof (get_None m k).
  destruct (get k m) eqn:?; [|naive_solver].
  split; [|done]. intros _. destruct (decide (k ∈ m.*1)); naive_solver.
Qed.

Lemma contains_key_false m k : contains_key k m = false <-> k ∉ m.*1.
Proof. rewrite <-contains_key_true. destruct (contains_key k m); naive_solver. Qed.

Lemma get_Some_elem m k v : get k m = Some v -> (k, v) ∈ m.
Proof.
  induction m as [|[k' v'] m IH]; csimpl; [done|].
  case_decide; intros ?; simplify_eq; [left|right; auto].
Qed.

Lemma elem_get_Some m k v : NoDup m.*1 -> (k, v) ∈ m -> get k m = Some v.
Proof.
  induction m as [|[k' v'] m IH]; csimpl; [set_solver|].
  rewrite NoDup_cons, elem_of_cons. intros [Hk' HN] [?|Hin].
  - simplify_eq. by rewrite decide_True.
  - rewrite decide_False; [auto|]. intros ->. apply Hk', list_elem_of_fmap. by exists (k, v).
Qed.

Lemma insert_fresh m k v : k ∉ m.*1 -> insert k v m = m ++ [(k, v)].
Proof.
  induction m as [|[k' v'] m IH]; csimpl; [done|]. intros Hk.
  rewrite decide_False by set_solver. f_equal. apply IH. set_solver.
Qed.

Lemma get_app m1 m2 k :
  get k (m1 ++ m2) = match get k m1 with Some v => Some v | None => get k m2 end.
Proof. induction m1 as [|[k' v'] m1 IH]; csimpl; [done|]. by case_decide. Qed.

Lemma get_insert m k v k' :
  get k' (insert k v m) = if decide (k = k') then Some v else get k' m.
Proof.
  induction m as [|[k0 v0] m IH]; csimpl; [done|].
  repeat (case_decide; simplify_eq; csimpl); try done; congruence.
Qed.

Lemma shift_remove_full_spec m k i v m' :
  shift_remove_full k m = Some (i, v, m') ->
  m = take i m' ++ (k, v) :: drop i m' /\ i <= length m' /\ get k m = Some v.
Proof.
  revert i m'. induction m as [|[k0 v0] m IH]; intros i m'; csimpl; [done|].
  case_decide as Hk; [intros ?; simplify_eq; csimpl; auto with lia|].
  destruct (shift_remove_full k m) as [[[j w] m'']|] eqn:E; csimpl; [|done].
  intros ?; simplify_eq. destruct (IH _ _ eq_refl) as (Hm & Hle & Hg).
  split_and!; [|csimpl; lia|done]. csimpl. by rewrite Hm at 1.
Qed.

Lemma shift_remove_full_Some m k :
  k ∈ m.*1 -> exists i v m', shift_remove_full k m = Some (i, v, m').
Proof.
  induction m as [|[k0 v0] m IH]; csimpl; [set_solver|]. intros Hk.
  case_decide; [eauto|]. destruct IH as (i & v & m' & ->); [set_solver|]. csimpl. eauto.
Qed.

Lemma from_iter_NoDup l : NoDup l.*1 -> from_iter l = l.
Proof.
  unfold from_iter. rewrite <-(app_nil_l l) at 1 3. generalize (@nil (K * V)) as acc.
  induction l as [|[k v] l IH]; intros acc; csimpl; [by rewrite !app_nil_r|].
  intros HN. rewrite fmap_app in HN. csimpl in HN.
  apply NoDup_app in HN as (? & Hd & HN'). 
  rewrite insert_fresh by set_solver.
  rewrite IH.
  - by rewrite <-app_assoc.
  - rewrite <-app_assoc, fmap_app. csimpl. apply NoDup_app. set_solver.
Qed.
End IndexMap.
End IndexMap.

(** ** [itertools::unique_by]

    Documented behaviour: the first element of each key is produced, later
    elements with a key that was already produced are filtered out. *)

Class Itertools : Type := {
  unique_by {A K : Type} `{!EqDecision K} (key : A -> K) (l : list A) : list A;
  unique_by_nil {A K : Type} `{!EqDecision K} (key : A -> K) : unique_by key [] = [];
  unique_by_snoc {A K : Type} `{!EqDecision K} (key : A -> K) (l : list A) (x : A) :
    unique_by key (l ++ [x]) =
    unique_by key l ++ (if decide (key x ∈ key <$> l) then [] else [x]);
}.

Definition unique `{!Itertools} {A} `{!EqDecision A} (l : list A) : list A := unique_by id l.

Fixpoint unique_by_seen {A K} `{!EqDecision K} (key : A -> K) (seen : list K) (l : list A) : list A :=
  match l with
  | [] => []
  | x :: l =>
      if decide (key x ∈ seen) then unique_by_seen key seen l
      else x :: unique_by_seen key (key x :: seen) l
  end.

Lemma unique_by_seen_app {A K} `{!EqDecision K} (key : A -> K) l l' seen :
  unique_by_seen key seen (l ++ l') =
  unique_by_seen key seen l ++ unique_by_seen key (reverse (key <$> l) ++ seen) l'.
Proof.
  revert seen. induction l as [|x l IH]; intros seen; csimpl; [done|].
  rewrite reverse_cons, <-app_assoc. csimpl.
  case_decide as Hx; rewrite IH; [|done]. f_equal.
  generalize (reverse (key <$> l)) as pre. intros pre. clear -Hx.
  assert (Heq : forall k, k ∈ pre ++ seen <-> k ∈ pre ++ key x :: seen) by set_solver.
  revert Heq. generalize (pre ++ seen), (pre ++ key x :: seen).
  induction l' as [|y l' IH]; intros s1 s2 Heq; csimpl; [done|].
  destruct (decide (key y ∈ s1)) as [H1|H1], (decide (key y ∈ s2)) as [H2|H2];
    try (by exfalso; naive_solver); [by apply IH|].
  f_equal. apply IH. set_solver.
Qed.

(** The implementation with a set of seen keys satisfies the documentation. *)
#[export] Program Instance itertools_seen : Itertools := {|
  unique_by A K _ key l := unique_by_seen key [] l
|}.
Next Obligation. done. Qed.
Next Obligation.
  intros A K ? key l x. cbn beta. rewrite unique_by_seen_app. csimpl. f_equal.
  rewrite app_nil_r.
  destruct (decide (key x ∈ reverse _)) as [H1|H1], (decide (key x ∈ key <$> l)) as [H2|H2];
    rewrite elem_of_reverse in H1; done.
Qed.

Section UniqueBy.
Context `{!Itertools} {A K : Type} `{!EqDecision K} (key : A -> K).
Implicit Types (l : list A) (x : A).

Lemma unique_by_sublist l : unique_by key l `sublist_of` l.
Proof.
  induction l as [|x l IH] using rev_ind; [by rewrite unique_by_nil|].
  rewrite unique_by_snoc. apply sublist_app; [done|].
  case_decide; [apply sublist_nil_l|done].
Qed.

Lemma unique_by_keys l k : k ∈ key <$> unique_by key l <-> k ∈ key <$> l.
Proof.
  induction l as [|x l IH] using rev_ind; [by rewrite unique_by_nil|].
  rewrite unique_by_snoc, !fmap_app, !elem_of_app, IH. case_decide; csimpl; [|done].
  set_solver.
Qed.

Lemma unique_by_NoDup l : NoDup (key <$> unique_by key l).
Proof.
  induction l as [|x l IH] using rev_ind; [rewrite unique_by_nil; constructor|].
  rewrite unique_by_snoc, fmap_app. apply NoDup_app. split_and!; [done| |].
  - intros k Hk. rewrite unique_by_keys in Hk. case_decide; csimpl; [apply not_elem_of_nil|].
    by intros ->%list_elem_of_singleton.
  - case_decide; csimpl; [constructor|apply NoDup_singleton].
Qed.

(** What survives is exactly the first element of each key. *)
Lemma elem_of_unique_by l x :
  x ∈ unique_by key l <-> exists l1 l2, l = l1 ++ x :: l2 /\ key x ∉ key <$> l1.
Proof.
  induction l as [|y l IH] using rev_ind.
  - rewrite unique_by_nil. split; [set_solver|]. intros (l1 & l2 & Hl & _).
    by destruct l1.
  - rewrite unique_by_snoc, elem_of_app, IH. split.
    + intros [(l1 & l2 & -> & Hk)|Hin].
      * exists l1, (l2 ++ [y]). by rewrite <-app_assoc.
      * case_decide as Hk; [set_solver|]. apply list_elem_of_singleton in Hin as ->.
        by exists l, [].
    + intros (l1 & l2 & Hl & Hk).
      destruct l2 as [|z l2 _] using rev_ind.
      * apply app_inj_tail in Hl as [-> ->]. right. rewrite decide_False by done. set_solver.
      * rewrite app_comm_cons, app_assoc in Hl. apply app_inj_tail in Hl as [-> ->]. eauto.
Qed.

Lemma unique_by_id l : NoDup (key <$> l) -> unique_by key l = l.
Proof.
  induction l as [|x l IH] using rev_ind; [by rewrite unique_by_nil|].
  rewrite fmap_app, NoDup_app. intros (HN & Hd & _).
  rewrite unique_by_snoc, IH by done. rewrite decide_False; [done|set_solver].
Qed.
End UniqueBy.

(** ** Hash maps and sets

    The order in which [HashMap] and [HashSet] are iterated is unspecified: it
    is a parameter, any permutation of the entries. *)

Class HashOrder : Type := {
  hash_iter {K V} `{Countable K} (m : gmap K V) : list (K * V);
  hash_iter_perm {K V} `{Countable K} (m : gmap K V) : hash_iter m ≡ₚ map_to_list m;
  hash_iter_set {K} `{Countable K} (s : gset K) : list K;
  hash_iter_set_perm {K} `{Countable K} (s : gset K) : hash_iter_set s ≡ₚ elements s;
}.

(** One such order *)
#[export] Program Instance hash_order_canonical : HashOrder := {|
  hash_iter _ _ _ _ m := map_to_list m;
  hash_iter_set _ _ _ s := elements s;
|}.
Solve Obligations with reflexivity.

Section HashOrderFacts.
Context `{HASH : HashOrder} {K V : Type} `{Countable K}.

Lemma elem_of_hash_iter (m : gmap K V) k v : (k, v) ∈ hash_iter m <-> m !! k = Some v.
Proof. by rewrite hash_iter_perm, elem_of_map_to_list. Qed.
Lemma elem_of_hash_iter_set (s : gset K) k : k ∈ hash_iter_set s <-> k ∈ s.
Proof. by rewrite hash_iter_set_perm, elem_of_elements. Qed.
Lemma hash_iter_keys_NoDup (m : gmap K V) : NoDup (hash_iter m).*1.
Proof. rewrite hash_iter_perm. apply NoDup_fst_map_to_list. Qed.
Lemma hash_iter_set_NoDup (s : gset K) : NoDup (hash_iter_set s).
Proof. rewrite hash_iter_set_perm. apply NoDup_elements. Qed.
End HashOrderFacts.

(** ** Lists: reversal and boolean filters ([Vec::retain]) *)

Lemma sublist_reverse {A} (l1 l2 : list A) :
  l1 `sublist_of` l2 -> reverse l1 `sublist_of` reverse l2.
Proof.
  induction 1 as [|x l1 l2 _ IH|x l1 l2 _ IH]; [done|..]; rewrite ?reverse_cons.
  - by apply sublist_app.
  - by apply sublist_inserts_r.
Qed.

Lemma NoDup_reverse {A} (l : list A) : NoDup (reverse l) <-> NoDup l.
Proof. by rewrite reverse_Permutation. Qed.

Lemma elem_of_filter_bool {A} (p : A -> bool) (l : list A) x :
  x ∈ List.filter p l <-> x ∈ l /\ p x = true.
Proof. rewrite !list_elem_of_In. apply filter_In. Qed.

Lemma filter_bool_ext {A} (p q : A -> bool) (l : list A) :
  (forall x, x ∈ l -> p x = q x) -> List.filter p l = List.filter q l.
Proof. intros Hpq. apply filter_ext_in. intros x Hx. apply Hpq. by apply list_elem_of_In. Qed.

Lemma filter_bool_sublist {A} (p : A -> bool) (l : list A) : List.filter p l `sublist_of` l.
Proof. induction l as [|x l IH]; cbn; [done|]. case_match; by constructor. Qed.

Lemma filter_bool_all {A} (p : A -> bool) (l : list A) :
  (forall x, x ∈ l -> p x = true) -> List.filter p l = l.
Proof.
  induction l as [|x l IH]; cbn; [done|]. intros Hp.
  rewrite Hp by left. f_equal. apply IH. intros y ?. apply Hp. by right.
Qed.

Lemma filter_bool_filter {A} (p q : A -> bool) (l : list A) :
  List.filter p (List.filter q l) = List.filter (fun x => q x && p x) l.
Proof.
  induction l as [|x l IH]; cbn; [done|]. destruct (q x); cbn; [|done].
  by rewrite IH.
Qed.

Lemma omap_filter_bool {A B} (f : A -> option B) (p : A -> bool) (l : list A) :
  (forall x y, f x = Some y -> p x = true) -> omap f (List.filter p l) = omap f l.
Proof.
  intros Hp. induction l as [|x l IH]; cbn; [done|].
  destruct (f x) as [y|] eqn:Hf.
  - rewrite (Hp _ _ Hf). cbn. by rewrite Hf, IH.
  - destruct (p x); cbn; [by rewrite Hf|done].
Qed.

Lemma sublist_fmap {A B} (f : A -> B) (l1 l2 : list A) :
  l1 `sublist_of` l2 -> f <$> l1 `sublist_of` f <$> l2.
Proof. induction 1; cbn; by constructor. Qed.

Lemma NoDup_fmap_sublist {A B} (f : A -> B) (l1 l2 : list A) :
  l1 `sublist_of` l2 -> NoDup (f <$> l2) -> NoDup (f <$> l1).
Proof.
  intros Hs HN. eapply sublist_NoDup; [done|]. by apply sublist_fmap.
Qed.

(** ** [slice::sort_by_key]: stable *)

Section SortByKey.
Context {A K : Type} (leb : K -> K -> bool) (key : A -> K).

Fixpoint sort_insert (x : A) (l : list A) : list A :=
  match l with
  | [] => [x]
  | y :: l => if leb (key x) (key y) then x :: y :: l else y :: sort_insert x l
  end.

Fixpoint sort_by_key (l : list A) : list A :=
  match l with [] => [] | x :: l => sort_insert x (sort_by_key l) end.

Lemma sort_insert_perm x l : sort_insert x l ≡ₚ x :: l.
Proof.
  induction l as [|y l IH]; csimpl; [done|]. case_match; [done|].
  rewrite IH. apply Permutation_swap.
Qed.

Lemma sort_by_key_perm l : sort_by_key l ≡ₚ l.
Proof. induction l as [|x l IH]; csimpl; [done|]. by rewrite sort_insert_perm, IH. Qed.

(** A list whose keys are already in order is left as it is. *)
Lemma sort_by_key_id l :
  StronglySorted (fun x y => leb (key x) (key y) = true) l -> sort_by_key l = l.
Proof.
  induction 1 as [|x l _ IH Hx]; csimpl; [done|]. rewrite IH.
  destruct l as [|y l]; csimpl; [done|].
  apply Forall_cons in Hx as [-> _]. done.
Qed.
End SortByKey.

(** ** Decimal text of integers ([Display] and [FromStr]) *)

Definition i64_to_string (z : Z) : string := NilEmpty.string_of_int (Z.to_int z).

(** An optional sign, at least one digit, digits only, and a value in range. *)
Definition int_from_str (min max : Z) (s : string) : option Z :=
  d ← match s with
      | "" => None
      | String c s' =>
          if decide (s' = "" /\ (c = "+"%char \/ c = "-"%char)) then None
          else if decide (c = "+"%char) then Decimal.Pos <$> NilEmpty.uint_of_string s'
          else NilEmpty.int_of_string s
      end;
  let z := Z.of_int d in
  if decide (min <= z <= max)%Z then Some z else None.
Definition i64_from_str : string -> option Z := int_from_str i64_min i64_max.

Lemma int_from_str_digits min max s d :
  NilEmpty.int_of_string s = Some d ->
  (exists c s', s = String c s' /\ c <> "+"%char /\ (c = "-"%char -> s' <> "")) ->
  (min <= Z.of_int d <= max)%Z -> int_from_str min max s = Some (Z.of_int d).
Proof.
  intros Hd (c & s' & -> & Hp & Hm) Hr. unfold int_from_str.
  rewrite decide_False by naive_solver. rewrite decide_False by done.
  rewrite Hd. csimpl. by rewrite decide_True.
Qed.

Lemma string_of_uint_head d :
  d <> Decimal.Nil ->
  exists c s, NilEmpty.string_of_uint d = String c s /\ c <> "+"%char /\ c <> "-"%char
    /\ c <> ","%char.
Proof. intros ?. destruct d; [done|..]; cbn; by eexists _, _. Qed.

Lemma i64_to_string_shape z :
  exists d, NilEmpty.string_of_int d = i64_to_string z /\ Z.of_int d = z /\
    match d with Decimal.Pos u | Decimal.Neg u => u <> Decimal.Nil end.
Proof.
  exists (Z.to_int z). split_and!; [done|apply DecimalZ.of_to|].
  destruct z as [|p|p]; cbn; [done|apply DecimalPos.Unsigned.to_uint_nonnil..].
Qed.

Lemma int_from_to_string min max z :
  (min <= z <= max)%Z -> int_from_str min max (i64_to_string z) = Some z.
Proof.
  intros Hz. destruct (i64_to_string_shape z) as (d & Hs & <- & Hd). rewrite <-Hs.
  apply int_from_str_digits; [apply NilEmpty.isi| |done].
  destruct d as [u|u]; destruct (string_of_uint_head u Hd) as (c & s & Hu & ? & ? & ?); cbn.
  - exists c, s. naive_solver.
  - exists "-"%char, (NilEmpty.string_of_uint u). by rewrite Hu.
Qed.
Lemma i64_from_to_string z : in_i64 z -> i64_from_str (i64_to_string z) = Some z.
Proof. apply int_from_to_string. Qed.

#[export] Hint Rewrite i64_add_exact using done : ducklake.

(** ** Boolean quantifiers over mapped lists *)

Lemma existsb_map {A B} (f : A -> B) (p : B -> bool) l :
  existsb p (map f l) = existsb (fun x => p (f x)) l.
Proof. induction l as [|x l IH]; cbn; [done | by rewrite IH]. Qed.
Lemma forallb_map {A B} (f : A -> B) (p : B -> bool) l :
  forallb p (map f l) = forallb (fun x => p (f x)) l.
Proof. induction l as [|x l IH]; cbn; [done | by rewrite IH]. Qed.
