(* ===== verification/Triple.v ===== *)
(** * Invariants of state-passing methods

    [triple I m Q]: from a state that satisfies [I] the method [m] ends in one
    that does, whatever its outcome, and the values it returns satisfy [Q]. *)

From S2P Require Import Prelude.

Definition triple {S E A} (I : S -> Prop) (m : stateful S E A) (Q : A -> Prop) : Prop :=
  forall s, I s -> I (m s).2 /\ forall a, (m s).1 = Ok a -> Q a.

(** The trivial postcondition *)
Definition any {A} (_ : A) : Prop := True.

Section Triple.
Context {S E : Type}.
Implicit Types (I : S -> Prop).

Lemma triple_run {A} I (m : stateful S E A) Q s r s' :
  triple I m Q -> I s -> m s = (r, s') -> I s' /\ forall a, r = Ok a -> Q a.
Proof. intros Ht Hs Hm. specialize (Ht s Hs). by rewrite Hm in Ht. Qed.

Lemma triple_weaken {A} I (m : stateful S E A) (P Q : A -> Prop) :
  triple I m P -> (forall a, P a -> Q a) -> triple I m Q.
Proof. intros Hm HQ s Hs. destruct (Hm s Hs). split; eauto. Qed.

Lemma triple_any {A} I (m : stateful S E A) (P : A -> Prop) : triple I m P -> triple I m any.
Proof. intros. by eapply triple_weaken. Qed.

Lemma triple_ret {A} I (a : A) (Q : A -> Prop) : Q a -> triple I (E := E) (mret a) Q.
Proof. intros Hq s Hs. cbn. split; [done|]. by intros a' [= <-]. Qed.

Lemma triple_bind {A B} I (m : stateful S E A) (f : A -> stateful S E B) P Q :
  triple I m P -> (forall a, P a -> triple I (f a) Q) -> triple I (m ≫= f) Q.
Proof.
  intros Hm Hf s Hs. destruct (Hm s Hs) as [Hi Hp]. unfold mbind, stateful_bind.
  destruct (m s) as [[a|e|] s']; cbn in *; [|done..]. by apply Hf; [apply Hp|].
Qed.

Lemma triple_get I : triple I (E := E) st_get I.
Proof. intros s Hs. split; [done|]. by intros a [= <-]. Qed.

Lemma triple_gets {A} I (f : S -> A) (Q : A -> Prop) :
  (forall s, I s -> Q (f s)) -> triple I (E := E) (st_gets f) Q.
Proof. intros Hf s Hs. split; [done|]. intros a [= <-]. auto. Qed.

Lemma triple_modify I (f : S -> S) :
  (forall s, I s -> I (f s)) -> triple I (E := E) (st_modify f) any.
Proof. intros Hf s Hs. split; [by apply Hf|done]. Qed.

Lemma triple_lift {A} I (m : outcome E A) (Q : A -> Prop) :
  (forall a, m = Ok a -> Q a) -> triple I (st_lift m) Q.
Proof. intros Hm s Hs. split; [done|]. auto. Qed.

Lemma triple_panic {A} I (Q : A -> Prop) : triple I (E := E) st_panic Q.
Proof. by intros s Hs. Qed.

Lemma triple_throw {A} I (e : E) (Q : A -> Prop) : triple I (st_throw e) Q.
Proof. by intros s Hs. Qed.

Lemma triple_for {A} I (body : A -> stateful S E unit) (l : list A) :
  (forall x, x ∈ l -> triple I (body x) any) -> triple I (st_for body l) any.
Proof.
  induction l as [|x l IH]; intros Hb; [by apply triple_ret|].
  cbn. eapply triple_bind; [apply Hb; left|].
  intros _ _. apply IH. intros y Hy. apply Hb. by right.
Qed.

Lemma triple_map {A B} I (f : A -> stateful S E B) (l : list A) (Q : B -> Prop) :
  (forall x, x ∈ l -> triple I (f x) Q) -> triple I (st_map f l) (Forall Q).
Proof.
  induction l as [|x l IH]; intros Hf; [by apply triple_ret|].
  cbn. eapply triple_bind; [apply Hf; left|]. intros y Hy. cbn.
  eapply triple_bind; [apply IH; intros z Hz; apply Hf; by right|].
  intros ys Hys. apply triple_ret. by constructor.
Qed.

Lemma triple_when_some {A} I (body : A -> stateful S E unit) (o : option A) :
  (forall x, o = Some x -> triple I (body x) any) -> triple I (st_when_some body o) any.
Proof. intros Hb. destruct o; cbn; [by apply Hb|by apply triple_ret]. Qed.

Lemma triple_zoom {T A} I (J : T -> Prop) (get : S -> T) (put : T -> S -> S)
    (m : stateful T E A) Q :
  (forall s, I s -> J (get s)) -> (forall s t, I s -> J t -> I (put t s)) ->
  triple J m Q -> triple I (st_zoom get put m) Q.
Proof.
  intros Hget Hput Hm s Hs. destruct (Hm (get s) (Hget s Hs)) as [Hj Hq].
  unfold st_zoom. destruct (m (get s)) as [r t]. cbn in *. auto.
Qed.
End Triple.

#[export] Hint Resolve triple_ret triple_panic triple_throw : ducklake.

(** One step through a method: a bind, or a primitive the method ends in. *)
Ltac triple_step :=
  match goal with
  | |- triple _ (mbind _ _) _ => eapply triple_bind; [|intros ? ?; cbv beta]
  | |- triple _ (mret _) ?Q =>
      first [is_evar Q; apply (triple_ret _ _ any); exact I | apply triple_ret; try done]
  | |- triple _ st_get _ => apply triple_get
  | |- triple _ (st_modify _) _ => apply triple_modify
  | |- triple _ st_panic ?Q => first [is_evar Q; unify Q (@any _)|idtac]; apply triple_panic
  | |- triple _ (st_throw _) ?Q => first [is_evar Q; unify Q (@any _)|idtac]; apply triple_throw
  | |- triple _ (st_lift _) any => by apply triple_lift
  | |- triple _ (st_lift _) ?Q => first [is_evar Q; apply (triple_lift _ _ any); done|apply triple_lift]
  | |- triple _ (st_for _ _) _ => apply triple_for; intros ? ?
  | |- triple _ (st_map _ _) _ => eapply triple_map; intros ? ?
  | |- triple _ (st_when_some _ _) _ => apply triple_when_some; intros ? ?
  | |- triple _ (if _ then _ else _) _ => case_match
  | |- triple _ (match _ with _ => _ end) _ => case_match
  end.
