(* ===== verification/Text.v ===== *)
(** * Text: the [str] methods of the standard library that the SDK uses

    A Rust string is its sequence of UTF-8 bytes, a [string]; the functions work
    on [list ascii] and convert at the boundary. All separators, quotes and
    letters the SDK looks for are ASCII, so bytes and characters agree on them. *)

From S2P Require Import Prelude.

Abbreviation text := (list ascii).
Abbreviation chars := String.list_ascii_of_string.
Abbreviation of_chars := String.string_of_list_ascii.

Lemma chars_of_chars t : chars (of_chars t) = t.
Proof. apply String.list_ascii_of_string_of_list_ascii. Qed.
Lemma of_chars_chars s : of_chars (chars s) = s.
Proof. apply String.string_of_list_ascii_of_string. Qed.
#[export] Hint Rewrite chars_of_chars of_chars_chars : ducklake.

#[export] Instance chars_inj : Inj (=) (=) chars.
Proof. intros s1 s2 Heq. by rewrite <-(of_chars_chars s1), Heq, of_chars_chars. Qed.

Lemma chars_append s1 s2 : chars (s1 +:+ s2) = chars s1 ++ chars s2.
Proof.
  induction s1 as [|c s1 IH]; [done|].
  change (c :: chars (s1 +:+ s2) = c :: (chars s1 ++ chars s2)). by rewrite IH.
Qed.
#[export] Hint Rewrite chars_append : ducklake.

(** [str::replace]: non-overlapping occurrences, from the left; [pat] is not empty. *)
Fixpoint replace_go (skip : nat) (pat to t : text) : text :=
  match t with
  | [] => []
  | c :: t' =>
      match skip with
      | S k => replace_go k pat to t'
      | 0 => if decide (pat `prefix_of` t)
             then to ++ replace_go (length pat - 1) pat to t'
             else c :: replace_go 0 pat to t'
      end
  end.
Definition replace (pat to s : string) : string :=
  of_chars (replace_go 0 (chars pat) (chars to) (chars s)).

(** [str::split] on one character: always at least one piece. *)
Fixpoint split_chars (sep : ascii) (t : text) : list text :=
  match t with
  | [] => [[]]
  | c :: t =>
      if decide (c = sep) then [] :: split_chars sep t
      else match split_chars sep t with
           | p :: ps => (c :: p) :: ps
           | [] => [[c]]
           end
  end.
Definition split (sep : ascii) (s : string) : list string :=
  of_chars <$> split_chars sep (chars s).

(** The two pieces of [splitn(2, sep)], the second absent without a separator. *)
Fixpoint splitn2_chars (sep : ascii) (t : text) : text * option text :=
  match t with
  | [] => ([], None)
  | c :: t =>
      if decide (c = sep) then ([], Some t)
      else let '(p, rest) := splitn2_chars sep t in (c :: p, rest)
  end.
Definition splitn2 (sep : ascii) (s : string) : string * option string :=
  let '(p, rest) := splitn2_chars sep (chars s) in (of_chars p, of_chars <$> rest).

(** [[String]::join] *)
Fixpoint join (sep : string) (l : list string) : string :=
  match l with
  | [] => ""
  | [s] => s
  | s :: l => s +:+ sep +:+ join sep l
  end.

Lemma join_cons2 sep s1 s2 l : join sep (s1 :: s2 :: l) = s1 +:+ sep +:+ join sep (s2 :: l).
Proof. reflexivity. Qed.

(** [to_ascii_lowercase], [eq_ignore_ascii_case] *)
Definition ascii_lower (c : ascii) : ascii :=
  let n := nat_of_ascii c in
  if decide (65 <= n <= 90) then ascii_of_nat (n + 32) else c.
Definition to_ascii_lowercase (s : string) : string := of_chars (ascii_lower <$> chars s).
Definition eq_ignore_ascii_case (s1 s2 : string) : bool :=
  bool_decide (to_ascii_lowercase s1 = to_ascii_lowercase s2).

Lemma eq_ignore_ascii_case_spec s1 s2 :
  eq_ignore_ascii_case s1 s2 = true <-> to_ascii_lowercase s1 = to_ascii_lowercase s2.
Proof. apply bool_decide_eq_true. Qed.

(** ** Splitting undoes joining *)

Lemma split_chars_no_sep sep t : sep ∉ t -> split_chars sep t = [t].
Proof.
  induction t as [|c t IH]; csimpl; [done|].
  rewrite not_elem_of_cons. intros [??]. rewrite decide_False, IH by done. done.
Qed.

Lemma split_chars_app sep t1 t2 :
  sep ∉ t1 -> split_chars sep (t1 ++ sep :: t2) = t1 :: split_chars sep t2.
Proof.
  induction t1 as [|c t1 IH]; csimpl; [by rewrite decide_True|].
  rewrite not_elem_of_cons. intros [??]. by rewrite decide_False, IH by done.
Qed.

Lemma split_join (sep : ascii) (l : list string) :
  l <> [] -> Forall (fun s => sep ∉ chars s) l -> split sep (join (String sep "") l) = l.
Proof.
  intros Hl Hall. unfold split. induction Hall as [|s l Hs Hall IH]; [done|]. destruct l as [|s' l].
  - cbn. rewrite split_chars_no_sep by done. csimpl. by rewrite of_chars_chars.
  - change (join (String sep "") (s :: s' :: l))
      with (s +:+ String sep (join (String sep "") (s' :: l))).
    rewrite chars_append. cbn -[join]. rewrite split_chars_app by done.
    rewrite fmap_cons, of_chars_chars. f_equal. by apply IH.
Qed.

Lemma splitn2_app sep s1 s2 :
  sep ∉ chars s1 -> splitn2 sep (s1 +:+ String sep s2) = (s1, Some s2).
Proof.
  intros Hs. unfold splitn2. rewrite chars_append. cbn.
  assert (splitn2_chars sep (chars s1 ++ sep :: chars s2) = (chars s1, Some (chars s2))) as ->.
  { revert Hs. generalize (chars s1) as t. intros t. induction t as [|c t IH]; csimpl.
    - by rewrite decide_True.
    - rewrite not_elem_of_cons. intros [??]. by rewrite decide_False, IH by done. }
  cbn. by rewrite !of_chars_chars.
Qed.

(** ** Characters of a joined or replaced string *)

Lemma replace_go_elem skip pat to t c :
  c ∈ replace_go skip pat to t -> c ∈ to \/ c ∈ t.
Proof.
  revert skip. induction t as [|d t IH]; intros skip; csimpl; [set_solver|].
  destruct skip; csimpl.
  - case_decide.
    + rewrite elem_of_app. intros [?|?%IH]; set_solver.
    + rewrite elem_of_cons. intros [?|?%IH]; set_solver.
  - intros ?%IH. set_solver.
Qed.

Lemma join_elem sep l c :
  c ∈ chars (join sep l) -> c ∈ chars sep \/ exists s, s ∈ l /\ c ∈ chars s.
Proof.
  induction l as [|s l IH]; [cbn; set_solver|]. destruct l as [|s' l].
  - cbn. intros ?. right. exists s. split; [left|done].
  - change (join sep (s :: s' :: l)) with (s +:+ sep +:+ join sep (s' :: l)).
    rewrite !chars_append, !elem_of_app.
    intros [?|[?|[?|(s0 & ? & ?)]%IH]]; [|by left..|].
    + right. exists s. split; [left|done].
    + right. exists s0. split; [by right|done].
Qed.
