(* ===== verification/Regex.v ===== *)
(** * Regular expressions

    The [regex] crate is a third-party engine. Its documented semantics is the
    leftmost-first one of Perl-like engines: alternatives are tried from the
    left, repetitions greedily, and the first way to match wins. [steps] is
    that semantics as an executable definition; [RegexEngine] is the interface
    the SDK's parsers are written against, with the documentation as its laws. *)

From S2P Require Import Prelude Text.

Inductive re : Type :=
  | Eps
  | Chr (p : ascii -> bool)
  | Cat (r1 r2 : re)
  | Alt (r1 r2 : re)
  | Star (r : re)
  | Group (i : nat) (r : re).

Definition Plus (r : re) : re := Cat r (Star r).
Definition Lit (c : ascii) : re := Chr (fun d => bool_decide (d = c)).

Abbreviation groups := (gmap nat text).

(** All ways to match a prefix of the input, in order of preference: the rest
    of the input and the captured groups. *)
Section Steps.
Context (steps_r : text -> groups -> list (text * groups)).

Fixpoint star_steps (n : nat) (t : text) (caps : groups) : list (text * groups) :=
  match n with
  | 0 => [(t, caps)]
  | S n =>
      (steps_r t caps ≫= fun '(t', caps') =>
         if decide (length t' < length t) then star_steps n t' caps' else [])
      ++ [(t, caps)]
  end.
End Steps.

Fixpoint steps (r : re) (t : text) (caps : groups) : list (text * groups) :=
  match r with
  | Eps => [(t, caps)]
  | Chr p => match t with c :: t' => if p c then [(t', caps)] else [] | [] => [] end
  | Cat r1 r2 => '(t', caps') ← steps r1 t caps; steps r2 t' caps'
  | Alt r1 r2 => steps r1 t caps ++ steps r2 t caps
  | Star r => star_steps (steps r) (length t) t caps
  | Group i r =>
      '(t', caps') ← steps r t caps;
      [(t', <[i := take (length t - length t') t]> caps')]
  end.

(** [^r$] matches *)
Definition full_match (r : re) (s : string) : bool :=
  existsb (fun '(t, _) => bool_decide (t = [])) (steps r (chars s) ∅).

(** The groups of the preferred match of [^r$]. *)
Fixpoint first_full (l : list (text * groups)) : option groups :=
  match l with
  | [] => None
  | (t, caps) :: l => if decide (t = []) then Some caps else first_full l
  end.
Definition full_captures (r : re) (s : string) : option groups :=
  first_full (steps r (chars s) ∅).

(** [captures_iter]: successive non-overlapping matches, leftmost first. *)
Fixpoint captures_iter_go (fuel : nat) (r : re) (t : text) : list groups :=
  match fuel with
  | 0 => []
  | S fuel =>
      match t with
      | [] => []
      | _ :: t0 =>
          match steps r t ∅ with
          | (t', caps) :: _ =>
              if decide (length t' < length t) then caps :: captures_iter_go fuel r t'
              else captures_iter_go fuel r t0
          | [] => captures_iter_go fuel r t0
          end
      end
  end.
Definition captures_of (r : re) (s : string) : list groups :=
  captures_iter_go (length (chars s)) r (chars s).

(** [replace_all] with [$1]: every match gives way to its first group. *)
Fixpoint replace_all_go (fuel : nat) (r : re) (t : text) : text :=
  match fuel with
  | 0 => t
  | S fuel =>
      match t with
      | [] => []
      | c :: t0 =>
          match steps r t ∅ with
          | (t', caps) :: _ =>
              if decide (length t' < length t) then default [] (caps !! 1) ++ replace_all_go fuel r t'
              else c :: replace_all_go fuel r t0
          | [] => c :: replace_all_go fuel r t0
          end
      end
  end.
Definition replace_all_of (r : re) (s : string) : string :=
  of_chars (replace_all_go (length (chars s)) r (chars s)).

(** ** The engine as an interface *)

Class RegexEngine : Type := {
  is_match : re -> string -> bool;
  captures : re -> string -> option groups;
  captures_iter : re -> string -> list groups;
  replace_all : re -> string -> string;
  is_match_doc r s : is_match r s = full_match r s;
  captures_doc r s : captures r s = full_captures r s;
  captures_iter_doc r s : captures_iter r s = captures_of r s;
  replace_all_doc r s : replace_all r s = replace_all_of r s;
}.

#[export] Program Instance backtracking_engine : RegexEngine := {|
  is_match := full_match;
  captures := full_captures;
  captures_iter := captures_of;
  replace_all := replace_all_of;
|}.
Solve Obligations with done.

(** ** Reasoning about matches *)

Inductive matches : re -> text -> Prop :=
  | m_eps : matches Eps []
  | m_chr p c : p c = true -> matches (Chr p) [c]
  | m_cat r1 r2 t1 t2 : matches r1 t1 -> matches r2 t2 -> matches (Cat r1 r2) (t1 ++ t2)
  | m_alt_l r1 r2 t : matches r1 t -> matches (Alt r1 r2) t
  | m_alt_r r1 r2 t : matches r2 t -> matches (Alt r1 r2) t
  | m_star_nil r : matches (Star r) []
  | m_star_cons r t1 t2 : matches r t1 -> matches (Star r) t2 -> matches (Star r) (t1 ++ t2)
  | m_group i r t : matches r t -> matches (Group i r) t.
#[export] Hint Constructors matches : ducklake.

Lemma star_steps_stop f n t caps : (t, caps) ∈ star_steps f n t caps.
Proof. destruct n; cbn; [left|]. apply elem_of_app. right. left. Qed.

(** With more fuel a repetition has at least the same ways to match. *)
Lemma star_steps_mono f n m t caps x :
  n <= m -> x ∈ star_steps f n t caps -> x ∈ star_steps f m t caps.
Proof.
  revert m t caps. induction n as [|n IH]; intros m t caps Hle; cbn.
  - intros ->%list_elem_of_singleton. apply star_steps_stop.
  - destruct m as [|m]; [lia|]. cbn. rewrite !elem_of_app. intros [Hin|Hin]; [left|by right].
    apply list_elem_of_bind in Hin as ([t' caps'] & Hx & Hin).
    apply list_elem_of_bind. exists (t', caps'). split; [|done].
    case_decide; [|done]. apply IH; [lia|done].
Qed.

(** Every word of the language is found among the ways to match. *)
Lemma steps_complete r t rest caps :
  matches r t -> exists caps', (rest, caps') ∈ steps r (t ++ rest) caps.
Proof.
  intros Hm. revert rest caps. induction Hm as
    [|p c Hp|r1 r2 t1 t2 H1 IH1 H2 IH2|r1 r2 t H IH|r1 r2 t H IH|r|r t1 t2 H1 IH1 H2 IH2|i r t H IH];
    intros rest caps.
  - exists caps. left.
  - exists caps. cbn. rewrite Hp. left.
  - rewrite <-app_assoc. destruct (IH1 (t2 ++ rest) caps) as [caps1 Hin1].
    destruct (IH2 rest caps1) as [caps2 Hin2].
    exists caps2. cbn. apply list_elem_of_bind. by exists (t2 ++ rest, caps1).
  - destruct (IH rest caps) as [caps' Hin]. exists caps'. cbn. apply elem_of_app. by left.
  - destruct (IH rest caps) as [caps' Hin]. exists caps'. cbn. apply elem_of_app. by right.
  - exists caps. cbn. apply star_steps_stop.
  - destruct t1 as [|c t1]; [apply IH2|].
    destruct (IH1 (t2 ++ rest) caps) as [caps1 Hin1].
    destruct (IH2 rest caps1) as [caps2 Hin2]. exists caps2. cbn [steps] in *.
    rewrite <-app_assoc. cbn [app length star_steps].
    apply elem_of_app. left. apply list_elem_of_bind. exists (t2 ++ rest, caps1).
    split; [|done].
    rewrite decide_True by (cbn; rewrite !length_app; lia).
    eapply star_steps_mono; [|done]. rewrite !length_app. lia.
  - destruct (IH rest caps) as [caps1 Hin].
    eexists. cbn. apply list_elem_of_bind. exists (rest, caps1). split; [left|done].
Qed.

Lemma full_match_complete r s : matches r (chars s) -> full_match r s = true.
Proof.
  intros Hm. destruct (steps_complete r (chars s) [] ∅ Hm) as [caps Hin].
  rewrite app_nil_r in Hin. unfold full_match. apply existsb_exists.
  exists ([], caps). split; [by apply list_elem_of_In|by apply bool_decide_eq_true].
Qed.

(** The groups a way to match has set stay set. *)
Lemma star_steps_caps f (i : nat) :
  (forall t caps t' caps', (t', caps') ∈ f t caps -> is_Some (caps !! i) -> is_Some (caps' !! i)) ->
  forall n t caps t' caps',
    (t', caps') ∈ star_steps f n t caps -> is_Some (caps !! i) -> is_Some (caps' !! i).
Proof.
  intros Hf n. induction n as [|n IH]; intros t caps t' caps'; cbn.
  - rewrite list_elem_of_singleton. intros [= -> ->]. done.
  - rewrite elem_of_app, list_elem_of_bind, list_elem_of_singleton.
    intros [([t1 c1] & Hin & H1)|[= -> ->]] Hs; [|done].
    case_decide; [|set_solver]. eauto.
Qed.

Lemma steps_caps r i t caps t' caps' :
  (t', caps') ∈ steps r t caps -> is_Some (caps !! i) -> is_Some (caps' !! i).
Proof.
  revert t caps t' caps'.
  induction r as [|p|r1 IH1 r2 IH2|r1 IH1 r2 IH2|r IH|j r IH]; intros t caps t' caps'; cbn.
  - rewrite list_elem_of_singleton. by intros [= -> ->].
  - destruct t as [|c t]; [set_solver|]. destruct (p c); [|set_solver].
    rewrite list_elem_of_singleton. by intros [= -> ->].
  - rewrite list_elem_of_bind. intros ([t1 c1] & H2 & H1). eauto.
  - rewrite elem_of_app. naive_solver.
  - by apply star_steps_caps.
  - rewrite list_elem_of_bind. intros ([t1 c1] & H2 & H1).
    apply list_elem_of_singleton in H2 as [= -> ->]. intros Hs.
    destruct (decide (j = i)) as [->|]; [rewrite lookup_insert_eq; by eexists|].
    rewrite lookup_insert_ne by done. eauto.
Qed.

(** A repeated character class takes as many characters as it can. *)
Lemma star_chr_greedy p ds rest caps n :
  Forall (fun c => p c = true) ds -> (forall c, head rest = Some c -> p c = false) ->
  length ds <= n ->
  exists l, star_steps (steps (Chr p)) n (ds ++ rest) caps = (rest, caps) :: l.
Proof.
  intros Hds Hr. revert n. induction Hds as [|c ds Hc Hds IH]; intros n Hn; cbn in Hn.
  - destruct n as [|n]; cbn; [by eexists|]. destruct rest as [|c rest]; [by eexists|].
    rewrite (Hr c) by done. by eexists.
  - destruct n as [|n]; [lia|]. destruct (IH n) as [l Hl]; [lia|].
    cbn. rewrite Hc. cbn. rewrite decide_True by lia.
    change (star_steps _ n (ds ++ rest) caps) with (star_steps (steps (Chr p)) n (ds ++ rest) caps).
    rewrite Hl. by eexists.
Qed.

Lemma plus_chr_greedy p c ds rest caps :
  Forall (fun c => p c = true) (c :: ds) -> (forall c, head rest = Some c -> p c = false) ->
  exists l, steps (Plus (Chr p)) ((c :: ds) ++ rest) caps = (rest, caps) :: l.
Proof.
  intros [Hc Hds]%Forall_cons Hr. unfold Plus. cbn [steps app mbind list_bind]. rewrite Hc.
  cbn [mbind list_bind app].
  destruct (star_chr_greedy p ds rest caps (length (ds ++ rest)) Hds Hr) as [l Hl];
    [rewrite length_app; lia|].
  change (star_steps _ (length (ds ++ rest)) (ds ++ rest) caps)
    with (star_steps (steps (Chr p)) (length (ds ++ rest)) (ds ++ rest) caps).
  rewrite Hl. cbn. by eexists.
Qed.

(** Whatever a regular expression consumes is a word of it, and only its own
    groups are set. *)
Fixpoint group_free (r : re) : bool :=
  match r with
  | Eps | Chr _ => true
  | Cat r1 r2 | Alt r1 r2 => group_free r1 && group_free r2
  | Star r => group_free r
  | Group _ _ => false
  end.

Lemma star_steps_sound r :
  (forall t caps t' caps', (t', caps') ∈ steps r t caps ->
     exists w, t = w ++ t' /\ matches r w /\ (group_free r = true -> caps' = caps)) ->
  forall n t caps t' caps', (t', caps') ∈ star_steps (steps r) n t caps ->
    exists w, t = w ++ t' /\ matches (Star r) w /\ (group_free r = true -> caps' = caps).
Proof.
  intros Hr n; induction n as [|n IH]; intros t caps t' caps'; cbn [star_steps].
  - intros [= -> ->]%list_elem_of_singleton; exists []; split_and!; [done|constructor|done].
  - rewrite elem_of_app, list_elem_of_bind, list_elem_of_singleton.
    intros [([t1 c1] & Hin & (w1 & -> & Hw1 & Hc1)%Hr)|[= -> ->]];
      [|exists []; split_and!; [done|constructor|done]].
    case_decide; [|by apply elem_of_nil in Hin].
    apply IH in Hin as (w2 & -> & Hw2 & Hc2); exists (w1 ++ w2); split_and!.
    + by rewrite app_assoc.
    + by constructor.
    + intros Hg; by rewrite Hc2, Hc1.
Qed.

Lemma steps_sound r t caps t' caps' :
  (t', caps') ∈ steps r t caps ->
  exists w, t = w ++ t' /\ matches r w /\ (group_free r = true -> caps' = caps).
Proof.
  revert t caps t' caps'.
  induction r as [|p|r1 IH1 r2 IH2|r1 IH1 r2 IH2|r IH|j r IH]; intros t caps t' caps'; cbn [steps group_free].
  - intros [= -> ->]%list_elem_of_singleton; exists []; split_and!; [done|constructor|done].
  - destruct t as [|c t]; [by intros ?%elem_of_nil|]; destruct (p c) eqn:Hp; [|by intros ?%elem_of_nil].
    intros [= -> ->]%list_elem_of_singleton; exists [c]; split_and!; [done|by constructor|done].
  - rewrite list_elem_of_bind; intros ([t1 c1] & (w2 & -> & Hw2 & Hc2)%IH2 & (w1 & -> & Hw1 & Hc1)%IH1).
    exists (w1 ++ w2); split_and!; [by rewrite app_assoc|by constructor|].
    intros [Hg1 Hg2]%andb_prop; by rewrite Hc2, Hc1.
  - rewrite elem_of_app; intros [(w & -> & Hw & Hc)%IH1|(w & -> & Hw & Hc)%IH2];
      exists w; (split_and!; [done|by eauto with ducklake|intros [Hg1 Hg2]%andb_prop; auto]).
  - by apply star_steps_sound.
  - rewrite list_elem_of_bind; intros ([t1 c1] & [= -> ->]%list_elem_of_singleton & (w & -> & Hw & _)%IH).
    exists w; split_and!; [done|by constructor|done].
Qed.
