(* ===== verification/Identifier.v ===== *)
(** * Identifiers ([utils/identifier.rs]) and qualified names ([typedefs/name.rs])

    Parsing of dot-separated identifiers, either all unquoted or all quoted
    with doubled inner quotes, against the regular expressions of the source;
    formatting, which always quotes. The central fact is that a formatted
    identifier parses back to its components. *)

From S2P Require Import Prelude Text Regex.

Definition dquote : ascii := ascii_of_nat 34.
Definition dot : ascii := ".".
#[global] Arguments dquote : simpl never.
#[global] Arguments dot : simpl never.

(** ** The regular expressions *)

Definition is_alpha (c : ascii) : bool :=
  let n := nat_of_ascii c in
  ((65 <=? n) && (n <=? 90)) || ((97 <=? n) && (n <=? 122)).
Definition is_digit (c : ascii) : bool :=
  let n := nat_of_ascii c in (48 <=? n) && (n <=? 57).

(** A letter or underscore, then letters, digits and underscores, as group 1 *)
Definition UNQUOTED_IDENTIFIER : re :=
  Group 1 (Cat (Chr (fun c => is_alpha c || bool_decide (c = "_"%char)))
               (Star (Chr (fun c => is_alpha c || is_digit c || bool_decide (c = "_"%char))))).

(** A double quote, one or more of [(not a quote | two quotes)] as group 1, a double quote *)
Definition quoted_char : re :=
  Alt (Chr (fun c => bool_decide (c <> dquote))) (Cat (Lit dquote) (Lit dquote)).
Definition QUOTED_IDENTIFIER : re :=
  Cat (Lit dquote) (Cat (Group 1 (Plus quoted_char)) (Lit dquote)).

(** An identifier, then any number of dots each followed by one or more
    identifiers; the anchors of the source are [full_match]'s *)
Definition dot_separated (identifier : re) : re :=
  Cat identifier (Star (Group 2 (Cat (Lit dot) (Plus identifier)))).
Definition DOT_SEPARATED_UNQUOTED_IDENTIFIERS : re := dot_separated UNQUOTED_IDENTIFIER.
Definition DOT_SEPARATED_QUOTED_IDENTIFIERS : re := dot_separated QUOTED_IDENTIFIER.

Definition IDENTIFIER : re := Alt UNQUOTED_IDENTIFIER QUOTED_IDENTIFIER.
Definition COMMA_SEPARATED_IDENTIFIERS : re :=
  Cat IDENTIFIER (Star (Group 2 (Cat (Lit ",") IDENTIFIER))).

(** ** Quoting *)

Definition quote (s : string) : string := replace (String dquote "") (String dquote (String dquote "")) s.
Definition unquote (s : string) : string := replace (String dquote (String dquote "")) (String dquote "") s.

(** ** Parsing and formatting *)

Section Engine.
Context `{!RegexEngine}.

(** [&caps[1]]: the group takes part in every match ([quoted_group_set]). *)
Definition group1 (caps : groups) : string := of_chars (default [] (caps !! 1)).

Definition parse_identifier (s : string) : option (list string) :=
  if is_match DOT_SEPARATED_UNQUOTED_IDENTIFIERS s then Some (split dot s)
  else if is_match DOT_SEPARATED_QUOTED_IDENTIFIERS s then
    Some ((fun caps => unquote (group1 caps)) <$> captures_iter QUOTED_IDENTIFIER s)
  else None.

(** [find_iter]: group 0 is the whole match. *)
Definition find_iter (r : re) (s : string) : list string :=
  (fun caps => of_chars (default [] (caps !! 0))) <$> captures_iter (Group 0 r) s.

Definition parse_identifier_list (s : string) : option (list string) :=
  if decide (s = "") then Some []
  else if is_match COMMA_SEPARATED_IDENTIFIERS s then
    mapM (fun identifier => parse_identifier identifier ≫= head) (find_iter IDENTIFIER s)
  else None.
End Engine.

Definition format_component (s : string) : string :=
  String dquote (quote s +:+ String dquote "").
Definition format_identifier (components : list string) : string :=
  join (String dot "") (format_component <$> components).

Definition format_identifier_list (identifiers : list string) : string :=
  join "," ((fun identifier => format_identifier [identifier]) <$> identifiers).

(** ** Qualified names *)

Module QualifiedName.
Record t : Type := mk { schema : string; name : string }.

#[export] Instance eq_dec : EqDecision t.
Proof. solve_decision. Defined.

#[export] Instance countable : Countable t.
Proof.
  apply (inj_countable' (fun q => (schema q, name q)) (fun p => mk p.1 p.2)).
  by intros [].
Defined.

Definition to_string (q : t) : string := format_identifier [schema q; name q].

(** The components of [FromStr::from_str]; [None] is its error. *)
Definition parse `{!RegexEngine} (s : string) : option t :=
  match parse_identifier s with
  | Some [n] => Some (mk "main" n)
  | Some [s; n] => Some (mk s n)
  | _ => None
  end.
End QualifiedName.
#[export] Existing Instances QualifiedName.eq_dec QualifiedName.countable.
Abbreviation QualifiedName := QualifiedName.t.

(** ** Quoted text, character by character *)

Definition quote_char (c : ascii) : text := if decide (c = dquote) then [dquote; dquote] else [c].
Definition quote_chars (t : text) : text := t ≫= quote_char.

Lemma quote_spec s : chars (quote s) = quote_chars (chars s).
Proof.
  unfold quote, replace. rewrite chars_of_chars.
  change (chars (String dquote "")) with [dquote].
  change (chars (String dquote (String dquote ""))) with [dquote; dquote]. generalize (chars s) as t. intros t.
  induction t as [|c t IH]; [done|].
  cbn [replace_go quote_chars list_bind mbind]. unfold quote_char.
  case_decide as Hp; case_decide as Hc.
  - cbn [app length Nat.sub chars]. by rewrite IH.
  - destruct Hp as [? [= -> _]]. done.
  - destruct Hp. subst. by exists t.
  - cbn [app]. by rewrite IH.
Qed.

Lemma unquote_quote s : unquote (quote s) = s.
Proof.
  unfold unquote, replace. rewrite quote_spec.
  change (chars (String dquote "")) with [dquote].
  change (chars (String dquote (String dquote ""))) with [dquote; dquote].
  rewrite <-(of_chars_chars s) at 2. f_equal.
  generalize (chars s) as t. intros t.
  induction t as [|c t IH]; [done|].
  change (quote_chars (c :: t)) with (quote_char c ++ quote_chars t).
  unfold quote_char. case_decide as Hc.
  - subst. change ([dquote; dquote] ++ quote_chars t) with (dquote :: dquote :: quote_chars t).
    cbn [replace_go]. rewrite decide_True by (by exists (quote_chars t)). cbn. by f_equal.
  - cbn [app replace_go]. rewrite decide_False by (intros [k Hk]; cbn in Hk; congruence).
    by f_equal.
Qed.

(** ** The quoted pattern on formatted text *)

Lemma steps_quoted_char c u caps : steps quoted_char (quote_char c ++ u) caps = [(u, caps)].
Proof.
  unfold quote_char. case_decide as Hc; [by subst|].
  cbn -[bool_decide]. rewrite (bool_decide_eq_true_2 (c <> dquote)) by done.
  by rewrite bool_decide_eq_false_2 by done.
Qed.

Definition no_quote_head (t : text) : Prop := head t <> Some dquote.

Lemma steps_quoted_char_end rest caps :
  no_quote_head rest -> steps quoted_char (dquote :: rest) caps = [].
Proof.
  intros Hr. cbn -[bool_decide]. rewrite (bool_decide_eq_false_2 (dquote <> dquote)) by naive_solver.
  rewrite bool_decide_eq_true_2 by done. cbn -[bool_decide]. destruct rest as [|c rest]; [done|].
  by rewrite bool_decide_eq_false_2 by (intros ->; by apply Hr).
Qed.

Lemma quote_char_length c : 1 <= length (quote_char c) <= 2.
Proof. unfold quote_char. case_decide; cbn; lia. Qed.

(** The greedy repetition runs up to the closing quote. *)
Lemma star_quoted_greedy t rest caps n :
  no_quote_head rest -> length (quote_chars t) <= n ->
  exists l, star_steps (steps quoted_char) n (quote_chars t ++ dquote :: rest) caps =
            (dquote :: rest, caps) :: l.
Proof.
  intros Hr. revert n. induction t as [|c t IH]; intros n Hn.
  - destruct n; cbn [star_steps quote_chars list_bind mbind app]; [by eexists|].
    rewrite steps_quoted_char_end by done. by eexists.
  - change (quote_chars (c :: t)) with (quote_char c ++ quote_chars t) in *.
    rewrite length_app in Hn. pose proof (quote_char_length c).
    destruct n as [|n]; [lia|]. destruct (IH n ltac:(lia)) as [l Hl].
    cbn [star_steps]. rewrite <-app_assoc, steps_quoted_char.
    cbn [mbind list_bind app]. rewrite decide_True by (rewrite !length_app; cbn; lia).
    rewrite Hl. by eexists.
Qed.

Lemma steps_quoted_identifier t rest :
  t <> [] -> no_quote_head rest ->
  exists l, steps QUOTED_IDENTIFIER (dquote :: quote_chars t ++ dquote :: rest) ∅ =
            (rest, {[1 := quote_chars t]}) :: l.
Proof.
  intros Ht Hr. destruct t as [|c t]; [done|].
  change (quote_chars (c :: t)) with (quote_char c ++ quote_chars t).
  unfold QUOTED_IDENTIFIER, Plus. cbn [steps Lit mbind list_bind app].
  rewrite bool_decide_eq_true_2 by done. cbn [mbind list_bind app].
  rewrite <-!app_assoc, steps_quoted_char. cbn [mbind list_bind app].
  destruct (star_quoted_greedy t rest ∅ (length (quote_chars t ++ dquote :: rest)) Hr)
    as [l Hl]; [rewrite length_app; lia|].
  rewrite Hl. cbn [mbind list_bind app]. rewrite bool_decide_eq_true_2 by done.
  cbn [mbind list_bind app]. eexists. f_equal. f_equal.
  rewrite insert_empty. f_equal.
  rewrite (app_assoc (quote_char c)), length_app, Nat.add_sub.
  by rewrite take_app_length.
Qed.

(** Group 1 takes part in every match of the quoted pattern. *)
Lemma quoted_group_set t t' caps :
  (t', caps) ∈ steps QUOTED_IDENTIFIER t ∅ -> is_Some (caps !! 1).
Proof.
  unfold QUOTED_IDENTIFIER. cbn [steps Lit]. rewrite list_elem_of_bind.
  intros ([t1 c1] & Hin & _). apply list_elem_of_bind in Hin as ([t2 c2] & Hin & H2).
  apply list_elem_of_bind in H2 as ([t3 c3] & H3 & _). apply list_elem_of_singleton in H3.
  injection H3 as -> ->. apply (steps_caps (Lit dquote) 1 _ _ _ _ Hin).
  rewrite lookup_insert_eq. by eexists.
Qed.

(** ** Round trip *)

(** Quoted components between separators *)
Definition separated_text (sep : ascii) (components : list string) : text :=
  chars (join (String sep "") (format_component <$> components)).
Abbreviation formatted_text := (separated_text dot).

Lemma chars_format_component s :
  chars (format_component s) = dquote :: quote_chars (chars s) ++ [dquote].
Proof.
  unfold format_component. change (dquote :: chars (quote s +:+ String dquote "") =
    dquote :: quote_chars (chars s) ++ [dquote]). by rewrite chars_append, quote_spec.
Qed.

Lemma separated_text_cons sep s l :
  separated_text sep (s :: l) =
  dquote :: quote_chars (chars s) ++ dquote ::
    match l with [] => [] | _ :: _ => sep :: separated_text sep l end.
Proof.
  unfold separated_text. rewrite fmap_cons.
  destruct l as [|s' l]; [by rewrite fmap_nil, <-chars_format_component|].
  rewrite fmap_cons, join_cons2, !chars_append, chars_format_component. cbn [app].
  by rewrite <-app_assoc.
Qed.

(** A pattern that takes a whole quoted component and never starts at the
    separator finds the components one after the other. *)
Lemma captures_of_separated r sep (caps_of : text -> groups) l fuel :
  (forall t rest, t <> [] -> no_quote_head rest ->
     exists k, steps r (dquote :: quote_chars t ++ dquote :: rest) ∅ = (rest, caps_of t) :: k) ->
  (forall t, steps r (sep :: t) ∅ = []) -> sep <> dquote ->
  l <> [] -> Forall (fun s => s <> "") l -> length (separated_text sep l) <= fuel ->
  captures_iter_go fuel r (separated_text sep l) = (fun s => caps_of (chars s)) <$> l.
Proof.
  intros Hr Hsep Hne Hl Hall. revert fuel. induction Hall as [|s l Hs Hall IH]; [done|]. clear Hl.
  intros fuel. rewrite separated_text_cons. cbn [length].
  destruct fuel as [|fuel]; [lia|]. rewrite length_app. intros Hfuel. cbn [captures_iter_go].
  set (rest := match l with [] => [] | _ :: _ => sep :: separated_text sep l end) in *.
  destruct (Hr (chars s) rest) as [k ->].
  { by destruct s. }
  { subst rest. destruct l; [done|]. by intros [= ->]. }
  rewrite decide_True by (cbn; rewrite length_app; cbn; lia).
  rewrite fmap_cons. f_equal. subst rest. destruct l as [|s' l].
  - by destruct fuel.
  - cbn [length] in Hfuel. destruct fuel as [|fuel]; [lia|].
    rewrite <-(IH ltac:(done) fuel) by lia. cbn [captures_iter_go]. by rewrite Hsep.
Qed.

Lemma captures_of_formatted l :
  l <> [] -> Forall (fun s => s <> "") l ->
  captures_of QUOTED_IDENTIFIER (format_identifier l) =
  (fun s => {[1 := quote_chars (chars s)]}) <$> l.
Proof.
  intros Hl Hall.
  apply (captures_of_separated _ dot (fun t => {[1 := quote_chars t]})); try done.
  apply steps_quoted_identifier.
Qed.

Lemma matches_quote_chars t : t <> [] -> matches (Plus quoted_char) (quote_chars t).
Proof.
  assert (forall c, matches quoted_char (quote_char c)) as Hc.
  { intros c. unfold quote_char. case_decide as H; subst.
    - apply m_alt_r. apply (m_cat _ _ [dquote] [dquote]); constructor; by apply bool_decide_eq_true.
    - apply m_alt_l. constructor. by apply bool_decide_eq_true. }
  destruct t as [|c t]; [done|]. intros _.
  change (quote_chars (c :: t)) with (quote_char c ++ quote_chars t). constructor; [done|].
  induction t as [|d t IH]; [constructor|].
  change (quote_chars (d :: t)) with (quote_char d ++ quote_chars t). by constructor.
Qed.

Lemma matches_lit c : matches (Lit c) [c].
Proof. constructor. by apply bool_decide_eq_true. Qed.

Lemma matches_quoted_identifier t :
  t <> [] -> matches QUOTED_IDENTIFIER (dquote :: quote_chars t ++ [dquote]).
Proof.
  intros Ht. apply (m_cat _ _ [dquote]); [apply matches_lit|].
  apply m_cat; [|apply matches_lit]. constructor. by apply matches_quote_chars.
Qed.

Lemma matches_dot_separated l :
  l <> [] -> Forall (fun s => s <> "") l ->
  matches DOT_SEPARATED_QUOTED_IDENTIFIERS (formatted_text l).
Proof.
  intros Hl Hall. destruct Hall as [|s l Hs Hall]; [done|]. clear Hl.
  assert (forall s, s <> "" -> matches QUOTED_IDENTIFIER (dquote :: quote_chars (chars s) ++ [dquote])) as Hq.
  { intros s' Hs'. apply matches_quoted_identifier. by destruct s'. }
  assert (forall s0 rest, dquote :: quote_chars (chars s0) ++ dquote :: rest =
    (dquote :: quote_chars (chars s0) ++ [dquote]) ++ rest) as Hassoc.
  { intros s0 rest. cbn. by rewrite <-app_assoc. }
  unfold DOT_SEPARATED_QUOTED_IDENTIFIERS, dot_separated.
  rewrite separated_text_cons, Hassoc. apply m_cat; [by apply Hq|]. clear s Hs.
  induction Hall as [|s l Hs Hall IH]; [constructor|].
  rewrite separated_text_cons, Hassoc, app_comm_cons. apply m_star_cons; [|exact IH].
  constructor. apply (m_cat _ _ [dot]); [apply matches_lit|].
  rewrite <-(app_nil_r (dquote :: _)). apply m_cat; [by apply Hq|constructor].
Qed.

Lemma unquoted_needs_letter t caps :
  steps DOT_SEPARATED_UNQUOTED_IDENTIFIERS (dquote :: t) caps = [].
Proof. reflexivity. Qed.

Section RoundTrip.
Context `{!RegexEngine}.

Lemma parse_format_identifier l :
  l <> [] -> Forall (fun s => s <> "") l -> parse_identifier (format_identifier l) = Some l.
Proof.
  intros Hl Hall. unfold parse_identifier. rewrite !is_match_doc, captures_iter_doc.
  replace (full_match DOT_SEPARATED_UNQUOTED_IDENTIFIERS (format_identifier l)) with false.
  2: { destruct l as [|s l]; [done|]. unfold full_match.
       change (chars (format_identifier (s :: l))) with (formatted_text (s :: l)).
       by rewrite separated_text_cons, unquoted_needs_letter. }
  rewrite (full_match_complete DOT_SEPARATED_QUOTED_IDENTIFIERS (format_identifier l))
    by (by apply matches_dot_separated).
  rewrite captures_of_formatted by done. f_equal.
  rewrite <-list_fmap_compose. rewrite <-(list_fmap_id l) at 2.
  apply list_fmap_ext. intros i s _. unfold compose, group1. rewrite lookup_singleton_eq.
  cbn [default from_option id]. by rewrite <-quote_spec, of_chars_chars, unquote_quote.
Qed.

Lemma QualifiedName_parse_to_string q :
  QualifiedName.schema q <> "" -> QualifiedName.name q <> "" ->
  QualifiedName.parse (QualifiedName.to_string q) = Some q.
Proof.
  intros ? ?. unfold QualifiedName.parse, QualifiedName.to_string.
  rewrite parse_format_identifier by (repeat constructor; done). by destruct q.
Qed.

(** ** Lists of identifiers *)

Lemma format_identifier_list_text l :
  chars (format_identifier_list l) = separated_text "," l.
Proof. reflexivity. Qed.

Lemma matches_identifier s :
  s <> "" -> matches IDENTIFIER (dquote :: quote_chars (chars s) ++ [dquote]).
Proof. intros Hs. apply m_alt_r, matches_quoted_identifier. by destruct s. Qed.

Lemma matches_comma_separated l :
  l <> [] -> Forall (fun s => s <> "") l ->
  matches COMMA_SEPARATED_IDENTIFIERS (separated_text "," l).
Proof.
  intros Hl Hall. destruct Hall as [|s l Hs Hall]; [done|]. clear Hl.
  assert (forall s0 rest, dquote :: quote_chars (chars s0) ++ dquote :: rest =
    (dquote :: quote_chars (chars s0) ++ [dquote]) ++ rest) as Hassoc.
  { intros s0 rest. cbn. by rewrite <-app_assoc. }
  rewrite separated_text_cons, Hassoc. apply m_cat; [by apply matches_identifier|]. clear s Hs.
  induction Hall as [|s l Hs Hall IH]; [constructor|].
  rewrite separated_text_cons, Hassoc, app_comm_cons. apply m_star_cons; [|exact IH].
  constructor. apply (m_cat _ _ [","%char]); [apply matches_lit|by apply matches_identifier].
Qed.

(** The whole match of an identifier is the quoted component. *)
Lemma steps_identifier t rest :
  t <> [] -> no_quote_head rest ->
  exists k, steps (Group 0 IDENTIFIER) (dquote :: quote_chars t ++ dquote :: rest) ∅ =
    (rest, <[0 := dquote :: quote_chars t ++ [dquote]]> {[1 := quote_chars t]}) :: k.
Proof.
  intros Ht Hr. destruct (steps_quoted_identifier t rest Ht Hr) as [k Hk].
  cbn [steps]. unfold IDENTIFIER. cbn [steps].
  change (steps UNQUOTED_IDENTIFIER (dquote :: ?u) ∅) with (@nil (text * groups)).
  cbn [app]. change (Cat (Lit dquote) _) with QUOTED_IDENTIFIER. rewrite Hk.
  cbn [mbind list_bind app]. eexists. f_equal. f_equal. f_equal.
  replace (dquote :: quote_chars t ++ dquote :: rest)
    with ((dquote :: quote_chars t ++ [dquote]) ++ rest) by (cbn; by rewrite <-app_assoc).
  rewrite length_app, Nat.add_sub. by rewrite take_app_length.
Qed.

Lemma find_iter_formatted l :
  l <> [] -> Forall (fun s => s <> "") l ->
  find_iter IDENTIFIER (format_identifier_list l) = format_component <$> l.
Proof.
  intros Hl Hall. unfold find_iter. rewrite captures_iter_doc.
  change (captures_of (Group 0 IDENTIFIER) (format_identifier_list l)) with
    (captures_iter_go (length (separated_text "," l)) (Group 0 IDENTIFIER) (separated_text "," l)).
  rewrite (captures_of_separated _ _ _ _ _ steps_identifier) by done.
  rewrite <-list_fmap_compose. apply list_fmap_ext. intros i s _. unfold compose.
  rewrite lookup_insert_eq. cbn [default from_option id].
  by rewrite <-chars_format_component, of_chars_chars.
Qed.

(** The column aliases of a view: a formatted list parses back. *)
Lemma parse_format_identifier_list l :
  Forall (fun s => s <> "") l -> parse_identifier_list (format_identifier_list l) = Some l.
Proof.
  intros Hall. unfold parse_identifier_list. destruct (decide (l = [])) as [->|Hl]; [done|].
  rewrite decide_False.
  2: { intros He. apply (f_equal chars) in He. rewrite format_identifier_list_text in He.
       destruct l; [done|]. by rewrite separated_text_cons in He. }
  rewrite is_match_doc, (full_match_complete COMMA_SEPARATED_IDENTIFIERS (format_identifier_list l))
    by (by apply matches_comma_separated).
  rewrite find_iter_formatted by done. clear Hl.
  induction Hall as [|s l Hs Hall IH]; [done|]. rewrite fmap_cons. cbn [mapM].
  change (format_component s) with (format_identifier [s]).
  rewrite parse_format_identifier by (repeat constructor; done). cbn. by rewrite IH.
Qed.
End RoundTrip.
