(* ===== verification/Types.v ===== *)
(** * Data types of the public API ([typedefs/], [error.rs], [io/path.rs])

    Values, data types and columns with their flattening, names, tags,
    partitionings, sort orders, macros, paths and errors. Third-party types
    ([chrono], [rust_decimal], [uuid], [url], [arrow]) are the fields of
    [External]; IEEE floats are [spec_float]. *)

From S2P Require Import Prelude Text Regex Identifier.
From Stdlib Require Import SpecFloat.

(** ** Third-party types *)

(** A type with the [PartialEq] and [Ord] implementations the SDK uses. *)
Record ordered : Type := Ordered {
  carrier :> Type;
  leaf_eqb : carrier -> carrier -> bool;
  leaf_cmp : carrier -> carrier -> comparison;
}.

Class External : Type := {
  Decimal : ordered;
  NaiveTime : ordered;
  FixedOffset : ordered;
  NaiveDate : ordered;
  NaiveDateTime : ordered;
  DateTimeUtc : ordered;
  Months : ordered;
  TimeDelta : ordered;
  Uuid : ordered;
  (* [url::Url]; [url_parse] returns [None] for [RelativeUrlWithoutBase] *)
  Url : Type;
  Url_eq_dec :: EqDecision Url;
  url_parse : string -> outcome string (option Url);
  url_from_file_path : string -> option Url;
  url_join : Url -> string -> option Url;
  url_path : Url -> string;
  url_set_path : Url -> string -> Url;
  url_as_str : Url -> string;
  (* [arrow_array::RecordBatch] *)
  RecordBatch : Type;
  num_rows : RecordBatch -> nat;
}.

(** ** Values ([typedefs/value/mod.rs]) *)

Module TimeWithTimezone.
Record t `{External} : Type := mk { time : NaiveTime; offset : FixedOffset }.
#[global] Arguments mk {_} time offset.
End TimeWithTimezone.

Module Interval.
Record t `{External} : Type := mk { months : Months; delta : TimeDelta }.
#[global] Arguments mk {_} months delta.
End Interval.

Module Value.
Section Value.
Context `{EXT : External}.

Inductive t : Type :=
  | Boolean (b : bool)
  | Int8 (z : Z) | Int16 (z : Z) | Int32 (z : Z) | Int64 (z : Z) | Int128 (z : Z)
  | UInt8 (z : Z) | UInt16 (z : Z) | UInt32 (z : Z) | UInt64 (z : Z) | UInt128 (z : Z)
  | Float32 (f : spec_float) | Float64 (f : spec_float)
  | Decimal (d : Types.Decimal)
  | Time (v : NaiveTime)
  | TimeTz (v : TimeWithTimezone.t)
  | Date (v : NaiveDate)
  | Timestamp (v : NaiveDateTime)
  | TimestampTz (v : DateTimeUtc)
  | Interval (v : Interval.t)
  | Varchar (s : string)
  | Blob (bytes : list ascii)
  | Json (s : string)
  | Uuid (u : Types.Uuid)
  | List (l : list (option t))
  | Struct (fields : list (string * option t))
  | Map (entries : list (t * option t)).

(** Slices compare element by element, then by length; [None] is less than [Some]. *)
Definition cmp_then (c : option comparison) (k : option comparison) : option comparison :=
  match c with Some Eq => k | c => c end.

Fixpoint bytes_cmp (a b : list ascii) : comparison :=
  match a, b with
  | [], [] => Eq
  | [], _ :: _ => Lt
  | _ :: _, [] => Gt
  | x :: a, y :: b =>
      match N.compare (N_of_ascii x) (N_of_ascii y) with Eq => bytes_cmp a b | c => c end
  end.
Definition str_cmp (a b : string) : comparison := bytes_cmp (chars a) (chars b).
Definition bool_cmp (a b : bool) : comparison :=
  match a, b with false, true => Lt | true, false => Gt | _, _ => Eq end.

Fixpoint partial_cmp (x y : t) {struct x} : option comparison :=
  let opt (a b : option t) : option comparison :=
    match a, b with
    | None, None => Some Eq
    | None, Some _ => Some Lt
    | Some _, None => Some Gt
    | Some a, Some b => partial_cmp a b
    end in
  match x, y with
  | Boolean a, Boolean b => Some (bool_cmp a b)
  | Int8 a, Int8 b | Int16 a, Int16 b | Int32 a, Int32 b
  | Int64 a, Int64 b | Int128 a, Int128 b
  | UInt8 a, UInt8 b | UInt16 a, UInt16 b | UInt32 a, UInt32 b
  | UInt64 a, UInt64 b | UInt128 a, UInt128 b => Some (Z.compare a b)
  | Float32 a, Float32 b | Float64 a, Float64 b => SFcompare a b
  | Decimal a, Decimal b => Some (leaf_cmp _ a b)
  | Time a, Time b => Some (leaf_cmp _ a b)
  | TimeTz a, TimeTz b =>
      Some (leaf_cmp _ (TimeWithTimezone.time a) (TimeWithTimezone.time b))
  | Date a, Date b => Some (leaf_cmp _ a b)
  | Timestamp a, Timestamp b => Some (leaf_cmp _ a b)
  | TimestampTz a, TimestampTz b => Some (leaf_cmp _ a b)
  | Interval _, Interval _ => None
  | Varchar a, Varchar b => Some (str_cmp a b)
  | Blob a, Blob b => Some (bytes_cmp a b)
  | Json a, Json b => Some (str_cmp a b)
  | Uuid a, Uuid b => Some (leaf_cmp _ a b)
  | List a, List b =>
      (fix go (a b : list (option t)) : option comparison :=
         match a, b with
         | [], [] => Some Eq
         | [], _ :: _ => Some Lt
         | _ :: _, [] => Some Gt
         | v :: a, w :: b => cmp_then (opt v w) (go a b)
         end) a b
  | Struct a, Struct b =>
      (fix go (a' b' : list (string * option t)) : option comparison :=
         match a', b' with
         | (k, v) :: a', (l, w) :: b' =>
             cmp_then (Some (str_cmp k l)) (cmp_then (opt v w) (go a' b'))
         | _, _ => Some (Nat.compare (length a) (length b))
         end) a b
  | Map a, Map b =>
      (fix go (a b : list (t * option t)) : option comparison :=
         match a, b with
         | [], [] => Some Eq
         | [], _ :: _ => Some Lt
         | _ :: _, [] => Some Gt
         | (k, v) :: a, (l, w) :: b =>
             cmp_then (partial_cmp k l) (cmp_then (opt v w) (go a b))
         end) a b
  | _, _ => None
  end.

(** [derive(PartialEq)]; index maps compare as maps, whatever their order. *)
Fixpoint eqb (x y : t) {struct x} : bool :=
  let opt (a b : option t) : bool :=
    match a, b with
    | None, None => true
    | Some a, Some b => eqb a b
    | _, _ => false
    end in
  match x, y with
  | Boolean a, Boolean b => Bool.eqb a b
  | Int8 a, Int8 b | Int16 a, Int16 b | Int32 a, Int32 b
  | Int64 a, Int64 b | Int128 a, Int128 b
  | UInt8 a, UInt8 b | UInt16 a, UInt16 b | UInt32 a, UInt32 b
  | UInt64 a, UInt64 b | UInt128 a, UInt128 b => Z.eqb a b
  | Float32 a, Float32 b | Float64 a, Float64 b => SFeqb a b
  | Decimal a, Decimal b => leaf_eqb _ a b
  | Time a, Time b => leaf_eqb _ a b
  | TimeTz a, TimeTz b =>
      leaf_eqb _ (TimeWithTimezone.time a) (TimeWithTimezone.time b) &&
      leaf_eqb _ (TimeWithTimezone.offset a) (TimeWithTimezone.offset b)
  | Date a, Date b => leaf_eqb _ a b
  | Timestamp a, Timestamp b => leaf_eqb _ a b
  | TimestampTz a, TimestampTz b => leaf_eqb _ a b
  | Interval a, Interval b =>
      leaf_eqb _ (Interval.months a) (Interval.months b) &&
      leaf_eqb _ (Interval.delta a) (Interval.delta b)
  | Varchar a, Varchar b | Json a, Json b => bool_decide (a = b)
  | Blob a, Blob b => bool_decide (a = b)
  | Uuid a, Uuid b => leaf_eqb _ a b
  | List a, List b =>
      (fix go (a b : list (option t)) : bool :=
         match a, b with
         | [], [] => true
         | v :: a, w :: b => opt v w && go a b
         | _, _ => false
         end) a b
  | Struct a, Struct b =>
      Nat.eqb (length a) (length b) &&
      (fix go (a : list (string * option t)) : bool :=
         match a with
         | [] => true
         | (k, v) :: a =>
             match IndexMap.get k b with Some w => opt v w | None => false end && go a
         end) a
  | Map a, Map b =>
      (fix go (a b : list (t * option t)) : bool :=
         match a, b with
         | [], [] => true
         | (k, v) :: a, (l, w) :: b => eqb k l && opt v w && go a b
         | _, _ => false
         end) a b
  | _, _ => false
  end.
End Value.
End Value.
Abbreviation Value := Value.t.

(** ** Tags ([typedefs/tag.rs]) *)

Module Tag.
Record t : Type := mk { key : string; value : string }.
End Tag.
Abbreviation Tag := Tag.t.
Abbreviation Tags := (gmap string string).

Definition Tags_insert (tag : Tag) (tags : Tags) : Tags := <[Tag.key tag := Tag.value tag]> tags.
(** The removed value, if any, and the tags left. *)
Definition Tags_remove (key : string) (tags : Tags) : option string * Tags :=
  (tags !! key, delete key tags).
(** [FromIterator<Tag>]: the last value of a key wins. *)
Definition Tags_from_iter (l : list Tag) : Tags :=
  foldl (fun tags tag => Tags_insert tag tags) ∅ l.
Definition Tags_to_vec (tags : Tags) : list Tag :=
  (fun '(k, v) => Tag.mk k v) <$> map_to_list tags.

(** ** Data types and columns ([typedefs/schema/]) *)

Inductive TimestampPrecision : Type := Seconds | Milliseconds | Microseconds | Nanoseconds.

Module ColumnDefault.
Inductive t `{External} : Type :=
  | Literal (v : option Value)
  | Expression (dialect expression : string).
End ColumnDefault.
Abbreviation ColumnDefault := ColumnDefault.t.

Module DataType.
Inductive t `{External} : Type :=
  | Boolean
  | Int8 | Int16 | Int32 | Int64 | Int128
  | UInt8 | UInt16 | UInt32 | UInt64 | UInt128
  | Float32 | Float64
  | Decimal (precision scale : Z)
  | Time | TimeTz | Date
  | Timestamp (precision : TimestampPrecision)
  | TimestampTz | Interval | Varchar | Blob | Json | Variant | Geometry | Uuid
  | List (inner : Column)
  | Struct (fields : list Column)
  | Map (key value : Column)
with Column `{External} : Type := mk_Column
    (name : string) (dtype : t) (nullable : bool) (tags : Tags)
    (initial_default : option Value) (default_value : ColumnDefault) (field_id : option Z).
End DataType.
Abbreviation DataType := DataType.t.
Abbreviation Column := DataType.Column.

Module Column.
Section Column.
Context `{EXT : External}.
Abbreviation mk := DataType.mk_Column.

Definition name (c : Column) : string := let '(mk n _ _ _ _ _ _) := c in n.
Definition dtype (c : Column) : DataType := let '(mk _ d _ _ _ _ _) := c in d.
Definition nullable (c : Column) : bool := let '(mk _ _ b _ _ _ _) := c in b.
Definition tags (c : Column) : Tags := let '(mk _ _ _ t _ _ _) := c in t.
Definition initial_default (c : Column) : option Value := let '(mk _ _ _ _ i _ _) := c in i.
Definition default_value (c : Column) : ColumnDefault := let '(mk _ _ _ _ _ v _) := c in v.
Definition field_id (c : Column) : option Z := let '(mk _ _ _ _ _ _ f) := c in f.

(** [Column::new] *)
Definition new (name : string) (dtype : DataType) : Column :=
  mk name dtype true ∅ None (ColumnDefault.Literal None) None.

Definition with_name (n : string) (c : Column) : Column :=
  mk n (dtype c) (nullable c) (tags c) (initial_default c) (default_value c) (field_id c).
Definition with_dtype (d : DataType) (c : Column) : Column :=
  mk (name c) d (nullable c) (tags c) (initial_default c) (default_value c) (field_id c).
Definition with_nullable (b : bool) (c : Column) : Column :=
  mk (name c) (dtype c) b (tags c) (initial_default c) (default_value c) (field_id c).
Definition with_tags (t : Tags) (c : Column) : Column :=
  mk (name c) (dtype c) (nullable c) t (initial_default c) (default_value c) (field_id c).
Definition with_default_value (v : ColumnDefault) (c : Column) : Column :=
  mk (name c) (dtype c) (nullable c) (tags c) (initial_default c) v (field_id c).
Definition with_field_id (f : option Z) (c : Column) : Column :=
  mk (name c) (dtype c) (nullable c) (tags c) (initial_default c) (default_value c) f.

(** *** Flattening: a column and its descendants in depth-first order *)

Record FlattenedColumn : Type := { column : Column; parent_index : option nat }.

Fixpoint flatten_into (c : Column) (parent_index : option nat)
    (flattened : list FlattenedColumn) : list FlattenedColumn :=
  match c with
  | mk _ dtype _ _ _ _ _ =>
      let flattened := flattened ++ [{| column := c; parent_index := parent_index |}] in
      let parent_index := length flattened - 1 in
      match dtype with
      | DataType.List inner => flatten_into inner (Some parent_index) flattened
      | DataType.Struct fields =>
          (fix go (fields : list Column) (flattened : list FlattenedColumn) :=
             match fields with
             | [] => flattened
             | field :: fields => go fields (flatten_into field (Some parent_index) flattened)
             end) fields flattened
      | DataType.Map key value =>
          flatten_into value (Some parent_index) (flatten_into key (Some parent_index) flattened)
      | _ => flattened
      end
  end.

Definition flatten (c : Column) : list FlattenedColumn := flatten_into c None [].
End Column.
End Column.

Module Schema.
(** An index map from column names to columns. *)
Record t `{External} : Type := mk { columns : list (string * Column) }.
#[global] Arguments mk {_} columns.
End Schema.
Abbreviation Schema := Schema.t.

(** ** Errors ([error.rs])

    The errors of third-party crates are kept as the text they display. *)

Inductive DucklakeError `{External} : Type :=
  | UnsupportedVersion (v : string)
  | OutdatedVersion (current expected : string)
  | AlreadyExists (entity name : string)
  | NotFound (entity name : string)
  | EntityNotFound (id : Z)
  | ColumnNotFound (id : Z)
  | InvalidChanges (msg : string)
  | InvalidDataType (msg : string)
  | InvalidPartitions (msg : string)
  | InvalidTimeZone (msg : string)
  | InvalidDatabaseOptions (msg : string)
  | InvalidPartitionTransform (msg : string)
  | InvalidSortDirection (msg : string)
  | InvalidNullOrder (msg : string)
  | InvalidSchemaName (name reason : string)
  | InvalidQualifiedName (name reason : string)
  | InvalidView (reason : string)
  | InvalidMacro (reason : string)
  | InvalidColumnName (name reason : string)
  | InvalidCast (old new : DataType)
  | DuplicateColumnName (name : string)
  | CatalogNotInitialized
  | CatalogAlreadyInitialized
  | UnknownVersion
  | TransactionConflict (msg : string)
  | UnsupportedDatabase (url : string)
  | RetriesExceeded
  | Database (unique_violation table_already_exists : bool) (msg : string)
  | Arrow (msg : string)
  | Parsing (msg : string)
  | InvalidVersion (msg : string)
  | InvalidPath (path reason : string)
  | ReadOnlyMetadata (key : string)
  | InvalidDefault (column reason : string)
  | InvalidNullabilityChange (column : string)
  | InvalidNullValue (column : string)
  | UnsupportedUrlScheme (scheme : string)
  | UnsupportedArrowDataType (msg : string)
  | InvalidEncryptionKey
  | Parquet (msg : string)
  | ObjectStore (msg : string)
  | ReadonlyDucklake
  | SnapshotPinned
  | InvalidTableTransfer (msg : string)
  | TableChangedDuringTransfer
  | SchemaError (msg : string).

Abbreviation result := (outcome DucklakeError).
Abbreviation method S := (stateful S DucklakeError).

Section Errors.
Context `{EXT : External}.

Definition schema_already_exists (name : string) : DucklakeError := AlreadyExists "schema" name.
Definition schema_not_found (name : string) : DucklakeError := NotFound "schema" name.
Definition table_already_exists (name : QualifiedName) : DucklakeError :=
  AlreadyExists "table" (QualifiedName.to_string name).
Definition table_not_found (name : QualifiedName) : DucklakeError :=
  NotFound "table" (QualifiedName.to_string name).
Definition view_already_exists (name : QualifiedName) : DucklakeError :=
  AlreadyExists "view" (QualifiedName.to_string name).
Definition view_not_found (name : QualifiedName) : DucklakeError :=
  NotFound "view" (QualifiedName.to_string name).
Definition macro_already_exists (name : QualifiedName) : DucklakeError :=
  AlreadyExists "macro" (QualifiedName.to_string name).
Definition macro_not_found (name : QualifiedName) : DucklakeError :=
  NotFound "macro" (QualifiedName.to_string name).
Definition column_already_exists (name : string) : DucklakeError := AlreadyExists "column" name.
Definition column_path_not_found (path : list string) : DucklakeError :=
  NotFound "column" (format_identifier path).
End Errors.

(** ** Names: [FromStr] *)

Section Names.
Context `{EXT : External} `{ENG : !RegexEngine}.

Definition QualifiedName_from_str (s : string) : result QualifiedName :=
  ok_or (InvalidQualifiedName s
    ("expected format 'name' or 'schema.name' (potentially escaped via " +:+ String dquote ")"))
    (QualifiedName.parse s).

(** A column path; [ColumnName::from_str] refuses an empty one. *)
Definition ColumnName_from_str (s : string) : result (list string) :=
  match parse_identifier s with
  | Some (c :: cs) => Ok (c :: cs)
  | _ => Err (InvalidColumnName s
      ("expected format 'column' or 'struct_column.nested_column' (with arbitrary nesting and potentially escaped via "
       +:+ String dquote ")"))
  end.
End Names.

(** ** Unsigned integers: [FromStr] *)

Definition uint_from_str (max : Z) (s : string) : option Z :=
  digits ← match s with
           | "" => None
           | String c s' =>
               if decide (c = "+"%char) then (if decide (s' = "") then None else Some s')
               else Some s
           end;
  d ← NilEmpty.uint_of_string digits;
  let z := Z.of_uint d in
  if decide (z <= max)%Z then Some z else None.

(** ** Operations on data types ([typedefs/schema/dtype.rs]) *)

Module DataTypeOps.
Section DataTypeOps.
Context `{EXT : External}.

Definition list_ (inner : DataType) : DataType := DataType.List (Column.new "element" inner).
Definition struct_ (fields : list Column) : DataType := DataType.Struct fields.
Definition map_ (key value : DataType) : DataType :=
  DataType.Map (Column.new "key" key) (Column.new "value" value).

Definition can_promote_to (d target : DataType) : bool :=
  match d, target with
  | DataType.Int8, (DataType.Int16 | DataType.Int32 | DataType.Int64)
  | DataType.Int16, (DataType.Int32 | DataType.Int64)
  | DataType.Int32, DataType.Int64
  | DataType.UInt8, (DataType.UInt16 | DataType.UInt32 | DataType.UInt64)
  | DataType.UInt16, (DataType.UInt32 | DataType.UInt64)
  | DataType.UInt32, DataType.UInt64
  | DataType.Float32, DataType.Float64 => true
  | _, _ => false
  end.

Definition is_nested (d : DataType) : bool :=
  match d with DataType.List _ | DataType.Struct _ | DataType.Map _ _ => true | _ => false end.

Fixpoint supports_data_inlining (d : DataType) : bool :=
  let col (c : Column) : bool :=
    match c with DataType.mk_Column _ d _ _ _ _ _ => supports_data_inlining d end in
  match d with
  | DataType.Variant | DataType.Geometry => false
  | DataType.List inner => col inner
  | DataType.Struct fields =>
      (fix all (fields : list Column) : bool :=
         match fields with [] => true | f :: fields => col f && all fields end) fields
  | DataType.Map key value => col key && col value
  | _ => true
  end.

Definition to_string (d : DataType) : string :=
  match d with
  | DataType.Boolean => "boolean"
  | DataType.Int8 => "int8" | DataType.Int16 => "int16" | DataType.Int32 => "int32"
  | DataType.Int64 => "int64" | DataType.Int128 => "int128"
  | DataType.UInt8 => "uint8" | DataType.UInt16 => "uint16" | DataType.UInt32 => "uint32"
  | DataType.UInt64 => "uint64" | DataType.UInt128 => "uint128"
  | DataType.Float32 => "float32" | DataType.Float64 => "float64"
  | DataType.Decimal precision scale =>
      "decimal(" +:+ i64_to_string precision +:+ ", " +:+ i64_to_string scale +:+ ")"
  | DataType.Time => "time" | DataType.TimeTz => "timetz" | DataType.Date => "date"
  | DataType.Timestamp Seconds => "timestamp_s"
  | DataType.Timestamp Milliseconds => "timestamp_ms"
  | DataType.Timestamp Microseconds => "timestamp"
  | DataType.Timestamp Nanoseconds => "timestamp_ns"
  | DataType.TimestampTz => "timestamptz"
  | DataType.Interval => "interval" | DataType.Varchar => "varchar" | DataType.Blob => "blob"
  | DataType.Json => "json" | DataType.Variant => "variant" | DataType.Geometry => "geometry"
  | DataType.Uuid => "uuid"
  | DataType.List _ => "list" | DataType.Struct _ => "struct" | DataType.Map _ _ => "map"
  end.

Definition is_space (c : ascii) : bool :=
  let n := nat_of_ascii c in (n =? 32) || ((9 <=? n) && (n <=? 13)).

Fixpoint Word (s : string) : re :=
  match s with "" => Eps | String c s => Cat (Lit c) (Word s) end.

(** [decimal(], digits as group 1, a comma, blanks, digits as group 2, a closing
    parenthesis; the anchors are those of [captures] *)
Definition RE_DECIMAL : re :=
  Cat (Word "decimal(") (Cat (Group 1 (Plus (Chr is_digit))) (Cat (Lit ",")
    (Cat (Star (Chr is_space)) (Cat (Group 2 (Plus (Chr is_digit))) (Lit ")"))))).

Definition primitive_names : list (string * DataType) :=
  [("boolean", DataType.Boolean); ("int8", DataType.Int8); ("int16", DataType.Int16);
   ("int32", DataType.Int32); ("int64", DataType.Int64); ("int128", DataType.Int128);
   ("uint8", DataType.UInt8); ("uint16", DataType.UInt16); ("uint32", DataType.UInt32);
   ("uint64", DataType.UInt64); ("uint128", DataType.UInt128); ("float32", DataType.Float32);
   ("float64", DataType.Float64); ("time", DataType.Time); ("timetz", DataType.TimeTz);
   ("date", DataType.Date); ("timestamp", DataType.Timestamp Microseconds);
   ("timestamp_s", DataType.Timestamp Seconds);
   ("timestamp_ms", DataType.Timestamp Milliseconds);
   ("timestamp_ns", DataType.Timestamp Nanoseconds);
   ("timestamptz", DataType.TimestampTz); ("interval", DataType.Interval);
   ("varchar", DataType.Varchar); ("blob", DataType.Blob); ("json", DataType.Json);
   ("variant", DataType.Variant); ("geometry", DataType.Geometry); ("uuid", DataType.Uuid)].

Definition parse_primitive `{!RegexEngine} (s : string) : result DataType :=
  match IndexMap.get s primitive_names with
  | Some d => Ok d
  | None =>
      match captures RE_DECIMAL s with
      | Some caps =>
          match uint_from_str 255 (of_chars (default [] (caps !! 1))),
                uint_from_str 255 (of_chars (default [] (caps !! 2))) with
          | Some precision, Some scale => Ok (DataType.Decimal precision scale)
          | _, _ => Err (InvalidDataType s)
          end
      | None => Err (InvalidDataType s)
      end
  end.
End DataTypeOps.
End DataTypeOps.

(** ** Partitionings ([typedefs/partition.rs]) *)

Module PartitionTransform.
Inductive t : Type := Identity | Bucket (n : Z) | Year | Month | Day | Hour.

Definition RE_BUCKET : re :=
  Cat (DataTypeOps.Word "bucket(") (Cat (Group 1 (Plus (Chr is_digit))) (Lit ")")).

Definition to_string (p : t) : string :=
  match p with
  | Identity => "identity"
  | Bucket n => "bucket(" +:+ i64_to_string n +:+ ")"
  | Year => "year" | Month => "month" | Day => "day" | Hour => "hour"
  end.

Definition names : list (string * t) :=
  [("identity", Identity); ("year", Year); ("month", Month); ("day", Day); ("hour", Hour)].

Definition from_str `{External} `{!RegexEngine} (s : string) : result t :=
  match IndexMap.get s names with
  | Some p => Ok p
  | None =>
      match captures RE_BUCKET s with
      | Some caps =>
          match uint_from_str (2 ^ 32 - 1) (of_chars (default [] (caps !! 1))) with
          | Some n => Ok (Bucket n)
          | None => Err (InvalidPartitionTransform s)
          end
      | None => Err (InvalidPartitionTransform s)
      end
  end.
End PartitionTransform.
Abbreviation PartitionTransform := PartitionTransform.t.

Module PartitionColumn.
Record t : Type := mk { column : string; transform : PartitionTransform }.
End PartitionColumn.
Abbreviation PartitionColumn := PartitionColumn.t.
Abbreviation Partition := (list PartitionColumn).

(** ** Sort orders ([typedefs/sort.rs]) *)

Inductive SortDirection : Type := Ascending | Descending.
Inductive NullOrder : Type := NullsFirst | NullsLast.

Definition SortDirection_to_string (d : SortDirection) : string :=
  match d with Ascending => "ASC" | Descending => "DESC" end.
Definition SortDirection_from_str `{External} (s : string) : result SortDirection :=
  if decide (s = "ASC") then Ok Ascending
  else if decide (s = "DESC") then Ok Descending
  else Err (InvalidSortDirection s).
Definition NullOrder_to_string (n : NullOrder) : string :=
  match n with NullsFirst => "NULLS_FIRST" | NullsLast => "NULLS_LAST" end.
Definition NullOrder_from_str `{External} (s : string) : result NullOrder :=
  if decide (s = "NULLS_FIRST") then Ok NullsFirst
  else if decide (s = "NULLS_LAST") then Ok NullsLast
  else Err (InvalidNullOrder s).

Module SortExpression.
Record t : Type := mk {
  expression : string; dialect : string; direction : SortDirection; null_order : NullOrder;
}.
Definition column (name : string) : t := mk name "duckdb" Ascending NullsLast.
End SortExpression.
Abbreviation SortExpression := SortExpression.t.
Abbreviation SortInfo := (list SortExpression).

(** ** Macros ([typedefs/macro_.rs]) *)

Inductive MacroType : Type := Scalar | Table.
#[export] Instance MacroType_eq_dec : EqDecision MacroType.
Proof. solve_decision. Defined.
#[export] Instance MacroType_countable : Countable MacroType.
Proof.
  apply (inj_countable' (fun m => match m with Scalar => true | Table => false end)
    (fun b : bool => if b then Scalar else Table)).
  by intros [].
Defined.

Definition MacroType_to_string (m : MacroType) : string :=
  match m with Scalar => "scalar" | Table => "table" end.
Definition MacroType_from_str `{External} (s : string) : result MacroType :=
  if decide (s = "scalar") then Ok Scalar
  else if decide (s = "table") then Ok Table
  else Err (InvalidMacro ("unknown macro type '" +:+ s +:+ "'")).

Module MacroParameter.
Record t : Type := mk {
  name : string; data_type : string;
  default_value : option string; default_value_type : string;
}.
End MacroParameter.
Module MacroImplementation.
Record t : Type := mk { dialect : string; sql : string; parameters : list MacroParameter.t }.
End MacroImplementation.
Abbreviation MacroImplementation := MacroImplementation.t.

(** ** Paths ([io/path.rs]) *)

Definition ends_with_slash (s : string) : bool :=
  bool_decide (last (chars s) = Some "/"%char).
Definition is_absolute_path (s : string) : bool :=
  bool_decide (head (chars s) = Some "/"%char).

Module DucklakePath.
Section DucklakePath.
Context `{EXT : External}.

Inductive t : Type := Absolute (url : Url) | Relative (path : string).

Definition new (path : string) (is_relative : bool) : outcome Empty_set t :=
  if is_relative then Ok (Relative path)
  else if is_absolute_path path then Absolute <$> unwrap (url_from_file_path path)
  else match url_parse path with Ok (Some url) => Ok (Absolute url) | _ => Panic end.

Definition join (p other : t) : outcome Empty_set t :=
  match p, other with
  | _, Absolute other => Ok (Absolute other)
  | Absolute base, Relative other => Absolute <$> unwrap (url_join base other)
  | Relative base, Relative other =>
      if ends_with_slash base then Ok (Relative (base +:+ other)) else Panic
  end.
Definition join_str (p : t) (other : string) : outcome Empty_set t := join p (Relative other).

Definition is_relative (p : t) : bool := match p with Relative _ => true | _ => false end.
Definition is_absolute (p : t) : bool := match p with Absolute _ => true | _ => false end.

Definition ensure_directory (p : t) : t :=
  match p with
  | Absolute url =>
      if ends_with_slash (url_path url) then Absolute url
      else Absolute (url_set_path url (url_path url +:+ "/"))
  | Relative path =>
      if ends_with_slash path then Relative path else Relative (path +:+ "/")
  end.

Definition as_str (p : t) : string :=
  match p with Absolute url => url_as_str url | Relative path => path end.

Definition from_str (s : string) : outcome string t :=
  if is_absolute_path s then Absolute <$> unwrap (url_from_file_path s)
  else match url_parse s with
       | Ok (Some url) => Ok (Absolute url)
       | Ok None => Ok (Relative s)
       | Err e => Err e
       | Panic => Panic
       end.

#[export] Instance eq_dec : EqDecision t.
Proof. solve_decision. Defined.
End DucklakePath.
End DucklakePath.
#[export] Existing Instance DucklakePath.eq_dec.
Abbreviation DucklakePath := DucklakePath.t.

(** ** Schemas ([typedefs/schema/mod.rs]): [TryFrom<Vec<Column>>] *)

Section SchemaFrom.
Context `{EXT : External}.

Fixpoint schema_from_go (columns : list Column) (acc : list (string * Column))
    : result (list (string * Column)) :=
  match columns with
  | [] => Ok acc
  | col :: columns =>
      if IndexMap.contains_key (Column.name col) acc
      then Err (DuplicateColumnName (Column.name col))
      else schema_from_go columns (IndexMap.insert (Column.name col) col acc)
  end.
Definition Schema_try_from (columns : list Column) : result Schema :=
  Schema.mk <$> schema_from_go columns [].
End SchemaFrom.

(** ** Statistics of written data ([typedefs/data/statistics.rs], [write.rs]) *)

Module FileColumnStats.
Record t `{External} : Type := mk {
  size_bytes : option Z; min_value : option Value; max_value : option Value;
  null_count : option Z; contains_nan : option bool;
}.
#[global] Arguments mk {_} size_bytes min_value max_value null_count contains_nan.
End FileColumnStats.

Module ArrayColumnStats.
Record t `{External} : Type := mk {
  min_value : option Value; max_value : option Value;
  null_count : option Z; contains_nan : option bool;
}.
#[global] Arguments mk {_} min_value max_value null_count contains_nan.
End ArrayColumnStats.

(** ** The text of values ([Value::to_string], [Value::parse])

    The literal syntax of values, [spec/literals/], as an interface. *)

Definition NULL_STRING : string := "NULL".

Class ValueText `{External} : Type := {
  value_to_string : Value -> string;
  value_parse : DataType -> string -> result (option Value);
}.

Definition value_to_string_opt `{External} `{!ValueText} (v : option Value) : string :=
  match v with Some v => value_to_string v | None => NULL_STRING end.

(** [literals::format] of an [Option<String>] *)
Definition format_string (s : option string) : string :=
  match s with Some s => s | None => NULL_STRING end.
