(* ===== verification/Instances.v ===== *)
(** * A concrete instance of the third-party types

    The hypotheses of the development can hold: every third-party type is
    instantiated by integers or text, for the examples and witnesses. *)

From S2P Require Import Prelude Text Regex Identifier Types.

Definition Z_ordered : ordered := Ordered Z Z.eqb Z.compare.

(** URLs are their text; a text with a colon is an absolute URL. *)
#[export] Instance demo_external : External := {|
  Decimal := Z_ordered;
  NaiveTime := Z_ordered;
  FixedOffset := Z_ordered;
  NaiveDate := Z_ordered;
  NaiveDateTime := Z_ordered;
  DateTimeUtc := Z_ordered;
  Months := Z_ordered;
  TimeDelta := Z_ordered;
  Uuid := Z_ordered;
  Url := string;
  url_parse s := Ok (if decide (":"%char ∈ chars s) then Some s else None);
  url_from_file_path s := Some ("file://" +:+ s);
  url_join base s := Some (base +:+ s);
  url_path s := s;
  url_set_path _ s := s;
  url_as_str s := s;
  RecordBatch := nat;
  num_rows n := n;
|}.

(** Integers, text and [NULL]; other values are shown as a question mark. *)
#[export] Instance demo_value_text : ValueText := {|
  value_to_string v :=
    match v with
    | Value.Int64 z => i64_to_string z
    | Value.Varchar s => s
    | _ => "?"
    end;
  value_parse d s :=
    if decide (s = NULL_STRING) then Ok None
    else match d with
         | DataType.Int64 => Some <$> (Value.Int64 <$> ok_or (Parsing s) (i64_from_str s))
         | _ => Ok (Some (Value.Varchar s))
         end;
|}.
