(* ===== verification/Literals.v ===== *)
(** * The text of literals ([spec/literals/])

    How values are written in the catalog: booleans, integers and, with quoting,
    lists, structs and maps of texts. *)

From Stdlib Require Import SpecFloat.
From S2P Require Import Prelude Text Regex Identifier Types.

(** ** [str::trim], [strip_prefix] and [strip_suffix] *)

(** The characters with the property White_Space, as UTF-8 *)
Definition white_space : list text :=
  map (map ascii_of_nat)
    ([[9]; [10]; [11]; [12]; [13]; [32]; [194; 133]; [194; 160]; [225; 154; 128]] ++
     map (fun b => [226; 128; b]) (seq 128 11 ++ [168; 169; 175]) ++
     [[226; 129; 159]; [227; 128; 128]]).

Fixpoint skip_go (fuel : nat) (ws : list text) (t : text) : text :=
  match fuel with
  | 0 => t
  | S fuel =>
      match List.find (fun w => bool_decide (w `prefix_of` t)) ws with
      | Some w => skip_go fuel ws (drop (length w) t)
      | None => t
      end
  end.
Definition skip (ws : list text) (t : text) : text := skip_go (length t) ws t.
Definition trim_start (t : text) : text := skip white_space t.
Definition trim_end (t : text) : text := reverse (skip (reverse <$> white_space) (reverse t)).
Definition trim_chars (t : text) : text := trim_end (trim_start t).
Definition trim (s : string) : string := of_chars (trim_chars (chars s)).

(** [s.strip_prefix(open).and_then(|s| s.strip_suffix(close))] *)
Definition strip_chars (open_ close : ascii) (t : text) : option text :=
  match t with
  | c :: t =>
      if decide (c = open_)
      then match reverse t with
           | d :: r => if decide (d = close) then Some (reverse r) else None
           | [] => None
           end
      else None
  | [] => None
  end.
Definition strip (open_ close : ascii) (s : string) : option string :=
  of_chars <$> strip_chars open_ close (chars s).

(** ** The trait ([mod.rs]) *)

Module Literal.
Record t `{External} (A : Type) : Type := mk { parse : string -> result A; format : A -> string }.
#[global] Arguments mk {_ A} parse format.
#[global] Arguments parse {_ A} _ _.
#[global] Arguments format {_ A} _ _.
End Literal.
Abbreviation Literal := Literal.t.

(** [FromStr], with the text of its error, and [Display] *)
Record leaf_text (A : Type) : Type := Leaf {
  leaf_from_str : string -> outcome string A; leaf_to_string : A -> string;
}.
#[global] Arguments Leaf {A} _ _.
#[global] Arguments leaf_from_str {A} _ _.
#[global] Arguments leaf_to_string {A} _ _.

(** The text of third-party types: floats and [ParseIntError] of the standard
    library, [rust_decimal], [chrono], [uuid] and [hex] *)
Class Scalars `{External} : Type := {
  int_error : string -> string;
  f32_text : leaf_text spec_float;
  f64_text : leaf_text spec_float;
  Decimal_text : leaf_text Decimal;
  NaiveTime_text : leaf_text NaiveTime;
  NaiveDate_text : leaf_text NaiveDate;
  Uuid_text : leaf_text Uuid;
  hex_text : leaf_text (list ascii);
}.

Module literals.
Section literals.
Context `{EXT : External} `{ENG : !RegexEngine} `{SCALARS : !Scalars}.

Definition parse {A} (L : Literal A) (s : string) : result (option A) :=
  if decide (s = NULL_STRING) then Ok None else a ← Literal.parse L s; mret (Some a).
Definition format {A} (L : Literal A) (value : option A) : string :=
  match value with Some v => Literal.format L v | None => NULL_STRING end.

(** ** Primitive types ([primitive.rs]) *)

Definition parsing_error {A} (r : outcome string A) : result A :=
  match r with Ok a => Ok a | Err e => Err (Parsing e) | Panic => Panic end.
Definition str_literal {A} (L : leaf_text A) : Literal A :=
  Literal.mk (fun s => parsing_error (leaf_from_str L s)) (leaf_to_string L).

(** The machine integers *)
Definition int_text (min max : Z) : leaf_text Z :=
  Leaf (fun s => ok_or (int_error s) (int_from_str min max s)) i64_to_string.
Definition uint_text (max : Z) : leaf_text Z :=
  Leaf (fun s => ok_or (int_error s) (uint_from_str max s)) i64_to_string.
Definition String_text : leaf_text string := Leaf (fun s => Ok s) (fun s => s).

Definition bool_literal : Literal bool :=
  Literal.mk
    (fun s => if decide (to_ascii_lowercase s = "1") then Ok true
              else if decide (to_ascii_lowercase s = "0") then Ok false
              else Err (Parsing s))
    (fun b => if b then "1" else "0").

(** ** Quoting ([nested.rs]) *)

Definition quote_char : ascii := "'"%char.
Definition backslash : ascii := "\"%char.

(** [\\([\\'])] *)
Definition RE_ESCAPE : re :=
  Cat (Lit backslash) (Group 1 (Chr (fun c => bool_decide (c = backslash \/ c = quote_char)))).

Definition unescape_str (s : string) : string :=
  match strip quote_char quote_char s with Some inner => replace_all RE_ESCAPE inner | None => s end.

Definition quote_str (s : string) : string :=
  "'" +:+ replace "'" "\'" (replace "\" "\\" s) +:+ "'".
Definition is_special (c : ascii) : bool :=
  bool_decide (c ∈ [backslash; quote_char; ","%char; "="%char; ":"%char]).
Definition escape_str (s : string) : string :=
  if existsb is_special (chars s) then quote_str s else s.

(** The loop over the characters; the depths are [i32]s that no text that fits
    in memory overflows. *)
Fixpoint comma_go (t current : text) (in_quotes : bool) (bracket_depth brace_depth : Z)
    : list string :=
  match t with
  | [] => [of_chars (trim_chars current)]
  | c :: t' =>
      if decide (c = backslash /\ in_quotes = true) then
        match t' with
        | next :: t'' =>
            if decide (next = backslash \/ next = quote_char)
            then comma_go t'' (current ++ [c; next]) in_quotes bracket_depth brace_depth
            else comma_go t' (current ++ [c]) in_quotes bracket_depth brace_depth
        | [] => comma_go t' (current ++ [c]) in_quotes bracket_depth brace_depth
        end
      else if decide (c = quote_char) then
        comma_go t' (current ++ [c]) (negb in_quotes) bracket_depth brace_depth
      else if decide (c = "["%char /\ in_quotes = false) then
        comma_go t' (current ++ [c]) in_quotes (bracket_depth + 1) brace_depth
      else if decide (c = "]"%char /\ in_quotes = false) then
        comma_go t' (current ++ [c]) in_quotes (bracket_depth - 1) brace_depth
      else if decide (c = "{"%char /\ in_quotes = false) then
        comma_go t' (current ++ [c]) in_quotes bracket_depth (brace_depth + 1)
      else if decide (c = "}"%char /\ in_quotes = false) then
        comma_go t' (current ++ [c]) in_quotes bracket_depth (brace_depth - 1)
      else if decide (c = ","%char /\ in_quotes = false /\ bracket_depth = 0%Z /\ brace_depth = 0%Z) then
        of_chars (trim_chars current) :: comma_go t' [] in_quotes bracket_depth brace_depth
      else comma_go t' (current ++ [c]) in_quotes bracket_depth brace_depth
  end.
Definition parse_comma_separated (s : string) : list string :=
  if decide (s = "") then [] else comma_go (chars s) [] false 0 0.

(** [(?:[^'\\]|\\.)*], and [(?:[^'sep]|'(?:[^'\\]|\\.)*')*] *)
Definition QUOTED : re :=
  Star (Alt (Chr (fun c => negb (bool_decide (c = quote_char \/ c = backslash))))
            (Cat (Lit backslash) (Chr (fun c => negb (bool_decide (c = "010"%char)))))).
Definition TOKEN (sep : ascii) : re :=
  Star (Alt (Chr (fun c => negb (bool_decide (c = quote_char \/ c = sep))))
            (Cat (Lit quote_char) (Cat QUOTED (Lit quote_char)))).

(** [captures] of [^(TOKEN)sep ?(TOKEN)$], with or without the space *)
Definition split_on (sep : ascii) (space : re) (s : string) : option (string * string) :=
  caps ← captures (Cat (Group 1 (TOKEN sep)) (Cat (Lit sep) (Cat space (Group 2 (TOKEN sep))))) s;
  Some (of_chars (default [] (caps !! 1)), of_chars (default [] (caps !! 2))).
Definition split_on_colon (s : string) : option (string * string) :=
  split_on ":"%char (Alt (Lit " "%char) Eps) s.
Definition split_on_equals (s : string) : option (string * string) :=
  split_on "="%char Eps s.

Definition parse_entry (split_on : string -> option (string * string)) (entry : string)
    : option (string * string) :=
  '(k, v) ← split_on entry; Some (unescape_str (trim k), unescape_str (trim v)).
Definition parse_struct_entries (s : string) : list (string * string) :=
  IndexMap.from_iter (omap (parse_entry split_on_colon) (parse_comma_separated s)).
Definition parse_map_entries (s : string) : list (string * string) :=
  omap (parse_entry split_on_equals) (parse_comma_separated s).

(** ** Lists, structs and maps ([nested.rs]) *)

Definition enclosed {A} (what : string) (open_ close : ascii) (f : string -> A) (s : string) : result A :=
  match strip open_ close s with
  | Some inner => Ok (f inner)
  | None => Err (Parsing (what +:+ s))
  end.

Definition list_literal : Literal (list string) :=
  Literal.mk
    (enclosed "list literal is not enclosed in brackets: " "["%char "]"%char
       (fun inner => unescape_str <$> parse_comma_separated inner))
    (fun l => "[" +:+ join ", " (escape_str <$> l) +:+ "]").

Definition struct_literal : Literal (list (string * string)) :=
  Literal.mk
    (enclosed "struct literal is not enclosed in braces: " "{"%char "}"%char parse_struct_entries)
    (fun m => "{" +:+ join ", " ((fun e => escape_str e.1 +:+ ": " +:+ escape_str e.2) <$> m) +:+ "}").

Definition map_literal : Literal (list (string * string)) :=
  Literal.mk
    (enclosed "map literal is not enclosed in braces: " "{"%char "}"%char parse_map_entries)
    (fun m => "{" +:+ join ", " ((fun e => escape_str e.1 +:+ "=" +:+ escape_str e.2) <$> m) +:+ "}").
End literals.
End literals.

