(* ===== verification/LiteralFacts.v ===== *)
(** * Literals round trip

    What is written is read back: quoting and its inverse, the split at commas
    and at the separator of an entry, and lists, structs and maps of texts whose
    unquoted elements have nothing to lose. *)

From S2P Require Import Prelude Text Regex Identifier Types Instances Literals.

Abbreviation quote := literals.quote_char.
Abbreviation backslash := literals.backslash.

(** ** Trimming *)

(** No white space at the start *)
Definition no_start (ws : list text) (t : text) : Prop := forall w, w ∈ ws -> ~ w `prefix_of` t.

Lemma find_prefix_None ws t :
  no_start ws t -> List.find (fun w => bool_decide (w `prefix_of` t)) ws = None.
Proof.
  intros Hn; destruct (List.find _ ws) as [w|] eqn:Hf; [|done].
  apply List.find_some in Hf as [Hin Hp%bool_decide_eq_true]; by edestruct Hn; [apply list_elem_of_In|].
Qed.

Lemma skip_go_id fuel ws t : no_start ws t -> skip_go fuel ws t = t.
Proof. intros Hn; destruct fuel; cbn [skip_go]; [done|]; by rewrite find_prefix_None. Qed.

Lemma skip_go_suffix fuel ws t : skip_go fuel ws t `suffix_of` t.
Proof.
  revert t; induction fuel as [|fuel IH]; intros t; cbn [skip_go]; [done|].
  destruct (List.find _ ws) as [w|]; [|done]; etrans; [apply IH|]; apply suffix_drop.
Qed.

(** A text that trimming leaves as it is has no white space at its ends. *)
Lemma skip_id ws t : [] ∉ ws -> skip ws t = t <-> no_start ws t.
Proof.
  intros Hnil; split; [|apply skip_go_id]; intros Ht w Hw Hp; unfold skip in Ht.
  destruct t as [|c t]; [apply prefix_nil_inv in Hp as ->; done|]; cbn [length skip_go] in Ht.
  destruct (List.find _ ws) as [w'|] eqn:Hf.
  - apply List.find_some in Hf as [Hin%list_elem_of_In _].
    assert (length (skip_go (length t) ws (drop (length w') (c :: t))) <= length t) as Hlen.
    { etrans; [apply suffix_length, skip_go_suffix|]; rewrite length_drop; cbn.
      destruct w'; [done|cbn; lia]. }
    rewrite Ht in Hlen; cbn in Hlen; lia.
  - pose proof (List.find_none _ _ Hf w (proj1 (list_elem_of_In _ _) Hw)) as Hno.
    by rewrite bool_decide_eq_false in Hno.
Qed.

Abbreviation white_space_end := (reverse <$> white_space).

Lemma nil_white_space : [] ∉ white_space.
Proof. apply (bool_decide_unpack _); vm_compute; exact I. Qed.
Lemma nil_white_space_end : [] ∉ white_space_end.
Proof. apply (bool_decide_unpack _); vm_compute; exact I. Qed.

(** Trimmed at both ends *)
Definition trimmed (t : text) : Prop :=
  no_start white_space t /\ no_start white_space_end (reverse t).

Lemma trimmed_iff t : trim_chars t = t <-> trimmed t.
Proof.
  unfold trim_chars, trimmed; rewrite <- (skip_id white_space t nil_white_space).
  rewrite <- (skip_id white_space_end (reverse t) nil_white_space_end).
  unfold trim_end, trim_start; split.
  - intros Ht.
    assert (skip white_space t = t) as Hs.
    { assert (length (reverse (skip white_space_end (reverse (skip white_space t))))
              <= length (skip white_space t)) as Hlen.
      { rewrite length_reverse; etrans; [apply suffix_length, skip_go_suffix|]; by rewrite length_reverse. }
      rewrite Ht in Hlen; pose proof (skip_go_suffix (length t) white_space t) as [w Hw].
      unfold skip in *; rewrite Hw in Hlen at 1; rewrite length_app in Hlen.
      assert (length w = 0) as ->%nil_length_inv by lia; by symmetry. }
    split; [done|]; rewrite Hs in Ht; apply (f_equal reverse) in Ht; by rewrite reverse_involutive in Ht.
  - intros [-> ->]; apply reverse_involutive.
Qed.

Lemma trim_trimmed s : trim s = s <-> trimmed (chars s).
Proof.
  rewrite <- trimmed_iff; unfold trim; split; [|intros ->; apply of_chars_chars].
  intros Hs; apply (f_equal chars) in Hs; by rewrite chars_of_chars in Hs.
Qed.

Lemma trim_space t : trim_chars (" "%char :: t) = trim_chars t.
Proof.
  change (trim_end (skip_go (S (length t)) white_space (" "%char :: t)) =
          trim_end (skip_go (length t) white_space t)); reflexivity.
Qed.

(** No white space is at the start of an extended text if none was before and
    the next character is in none. *)
Lemma no_start_app ws a c r :
  (forall w, w ∈ ws -> c ∉ w \/ (a <> [] /\ w = [c])) ->
  no_start ws a -> no_start ws (a ++ c :: r).
Proof.
  intros Hc Ha w Hw [k Hk]; apply app_eq_inv in Hk as [(k' & -> & _)|(k' & -> & Hk)].
  { by apply (Ha w Hw), prefix_app_r. }
  destruct k' as [|d k']; [by apply (Ha _ Hw); rewrite app_nil_r|].
  injection Hk as <- _; destruct (Hc _ Hw) as [Hin|[Hne Heq]].
  - apply Hin, elem_of_app; right; left.
  - destruct a as [|d a]; [done|]; injection Heq as -> Hnil; by apply app_eq_nil in Hnil as [_ ?].
Qed.

(** ** Quoting *)

Definition esc1 (c : ascii) : text :=
  if decide (c = backslash \/ c = quote) then [backslash; c] else [c].
Definition esc (t : text) : text := t ≫= esc1.

Lemma replace_chr p to t :
  replace_go 0 [p] to t = t ≫= (fun c => if decide (c = p) then to else [c]).
Proof.
  induction t as [|c t IH]; [done|]; cbn [replace_go mbind list_bind length]; cbn [Nat.sub].
  rewrite <- IH; destruct (decide (c = p)) as [->|Hne].
  - by rewrite decide_True by (apply prefix_cons, prefix_nil).
  - rewrite decide_False; [done|]; by intros ?%prefix_cons_inv_1.
Qed.

Lemma quote_str_chars s : chars (literals.quote_str s) = quote :: esc (chars s) ++ [quote].
Proof.
  unfold literals.quote_str, replace; rewrite !chars_append; cbn [chars app]; f_equal; f_equal.
  rewrite !chars_of_chars; unfold esc; cbn [chars]; rewrite !replace_chr.
  generalize (chars s) as t; intros t; induction t as [|c t IH]; [done|].
  cbn [mbind list_bind]; rewrite bind_app; f_equal; [|exact IH].
  change "\"%char with backslash; change "'"%char with quote.
  unfold esc1; destruct (decide (c = backslash)) as [->|H1]; [by rewrite decide_True by (by left)|].
  destruct (decide (c = quote)) as [->|H2]; [by rewrite decide_True by (by right)|].
  rewrite (decide_False (P := c = backslash \/ c = quote)) by naive_solver.
  cbn [mbind list_bind]; by rewrite decide_False.
Qed.

Lemma strip_chars_spec o c t : strip_chars o c (o :: t ++ [c]) = Some t.
Proof.
  cbn [strip_chars]; rewrite decide_True by done; rewrite reverse_app.
  change (reverse [c] ++ reverse t) with (c :: reverse t); cbn iota beta.
  by rewrite decide_True, reverse_involutive.
Qed.

Lemma strip_spec o c s : strip o c (String o (s +:+ String c "")) = Some s.
Proof.
  unfold strip; cbn [chars]; rewrite chars_append; cbn [chars].
  rewrite strip_chars_spec; cbn; by rewrite of_chars_chars.
Qed.

Lemma escape_match c t : c = backslash \/ c = quote ->
  steps literals.RE_ESCAPE (backslash :: c :: t) ∅ = [(t, <[1 := [c]]> ∅)].
Proof.
  intros Hc; unfold literals.RE_ESCAPE, Lit; cbn [steps mbind list_bind app].
  rewrite bool_decide_true by done; cbn [mbind list_bind app].
  rewrite bool_decide_true by done; cbn [mbind list_bind app].
  replace (length (c :: t) - length t) with 1 by (cbn; lia); by rewrite take_0_cons || done.
Qed.
Lemma escape_no_match c t : c <> backslash -> steps literals.RE_ESCAPE (c :: t) ∅ = [].
Proof.
  intros Hc; unfold literals.RE_ESCAPE, Lit; cbn [steps mbind list_bind app].
  by rewrite bool_decide_false.
Qed.

Lemma replace_escapes fuel t :
  length (esc t) <= fuel -> replace_all_go fuel literals.RE_ESCAPE (esc t) = t.
Proof.
  revert fuel; induction t as [|c t IH]; intros fuel Hf; [by destruct fuel|].
  change (esc (c :: t)) with (esc1 c ++ esc t) in *.
  unfold esc1 in *; destruct (decide (c = backslash \/ c = quote)) as [Hc|Hc]; cbn [app length] in *;
    (destruct fuel as [|fuel]; [lia|]); cbn [replace_all_go].
  - rewrite escape_match by done; rewrite decide_True by (cbn; lia); rewrite lookup_insert_eq.
    cbn [default app]; f_equal; apply IH; lia.
  - rewrite escape_no_match by naive_solver; f_equal; apply IH; lia.
Qed.

(** Quoting is undone, whatever the text. *)
Lemma unescape_quote `{ENG : !RegexEngine} s : literals.unescape_str (literals.quote_str s) = s.
Proof.
  unfold literals.unescape_str, strip; rewrite quote_str_chars, strip_chars_spec.
  cbn [option_fmap option_map fmap]; rewrite replace_all_doc; unfold replace_all_of; rewrite chars_of_chars.
  rewrite replace_escapes by done; apply of_chars_chars.
Qed.

(** ** The split at commas *)

(** Opening less closing brackets *)
Fixpoint net (open_ close : ascii) (t : text) : Z :=
  match t with
  | [] => 0
  | c :: t => (if decide (c = open_) then 1 else if decide (c = close) then -1 else 0) + net open_ close t
  end.

(** What is written for a text reads back as that text: it has a character that
    makes it quoted, or it has no white space at its ends and its brackets and
    braces balance. *)
Definition survives (s : string) : Prop :=
  existsb literals.is_special (chars s) = true \/
  (trim s = s /\ net "["%char "]"%char (chars s) = 0%Z /\ net "{"%char "}"%char (chars s) = 0%Z).

#[export] Instance survives_dec s : Decision (survives s).
Proof. unfold survives; apply _. Defined.

Lemma not_special c : literals.is_special c = false ->
  c <> backslash /\ c <> quote /\ c <> ","%char /\ c <> "="%char /\ c <> ":"%char.
Proof.
  unfold literals.is_special; rewrite bool_decide_eq_false, !not_elem_of_cons; naive_solver.
Qed.

Lemma comma_plain t rest current b d :
  existsb literals.is_special t = false ->
  literals.comma_go (t ++ rest) current false b d =
    literals.comma_go rest (current ++ t) false (b + net "["%char "]"%char t) (d + net "{"%char "}"%char t).
Proof.
  revert current b d; induction t as [|c t IH]; intros current b d; cbn [existsb app net].
  { by rewrite app_nil_r, !Z.add_0_r. }
  intros [(Hb & Hq & Hc & _)%not_special Ht]%orb_false_iff; cbn [literals.comma_go].
  rewrite decide_False by naive_solver; rewrite decide_False by done.
  pose proof (IH (current ++ [c])) as Hgo; rewrite <- app_assoc in Hgo; cbn [app] in Hgo.
  destruct (decide (c = "["%char)) as [->|]; [rewrite decide_True by done|rewrite decide_False by naive_solver].
  { rewrite Hgo by done; f_equal; cbn; lia. }
  destruct (decide (c = "]"%char)) as [->|]; [rewrite decide_True by done|rewrite decide_False by naive_solver].
  { rewrite Hgo by done; f_equal; cbn; lia. }
  destruct (decide (c = "{"%char)) as [->|]; [rewrite decide_True by done|rewrite decide_False by naive_solver].
  { rewrite Hgo by done; f_equal; cbn; lia. }
  destruct (decide (c = "}"%char)) as [->|]; [rewrite decide_True by done|rewrite decide_False by naive_solver].
  { rewrite Hgo by done; f_equal; cbn; lia. }
  rewrite decide_False by naive_solver; rewrite Hgo by done; f_equal; lia.
Qed.

Lemma comma_quoted t rest current b d :
  literals.comma_go (esc t ++ rest) current true b d =
    literals.comma_go rest (current ++ esc t) true b d.
Proof.
  revert current; induction t as [|c t IH]; intros current; [by rewrite app_nil_r|].
  change (esc (c :: t)) with (esc1 c ++ esc t); unfold esc1.
  destruct (decide (c = backslash \/ c = quote)) as [Hc|Hc]; cbn [app literals.comma_go].
  - rewrite decide_True by done; rewrite decide_True by done.
    rewrite IH, <- app_assoc; done.
  - rewrite decide_False by naive_solver; rewrite decide_False by naive_solver.
    do 5 (rewrite decide_False by naive_solver); rewrite IH, <- app_assoc; done.
Qed.

(** The scan over a closed text ends outside of quotes and brackets and has
    found no comma to split at. *)
Definition closed (t : text) : Prop := forall current rest,
  literals.comma_go (t ++ rest) current false 0 0 = literals.comma_go rest (current ++ t) false 0 0.

Lemma closed_app t t' : closed t -> closed t' -> closed (t ++ t').
Proof. intros H H' current rest; by rewrite <- app_assoc, H, H', app_assoc. Qed.

Lemma closed_plain t : existsb literals.is_special t = false ->
  net "["%char "]"%char t = 0%Z -> net "{"%char "}"%char t = 0%Z -> closed t.
Proof. intros Ht H1 H2 current rest; by rewrite comma_plain, H1, H2. Qed.

Lemma closed_quote s : closed (chars (literals.quote_str s)).
Proof.
  intros current rest; rewrite quote_str_chars; cbn [app literals.comma_go].
  rewrite decide_False by naive_solver; rewrite decide_True by done; cbn [negb].
  rewrite <- app_assoc, comma_quoted; cbn [app literals.comma_go].
  rewrite decide_False by naive_solver; rewrite decide_True by done; cbn [negb].
  f_equal; by rewrite <- !app_assoc.
Qed.

Lemma closed_escape s : survives s -> closed (chars (literals.escape_str s)).
Proof.
  unfold literals.escape_str; destruct (existsb _ _) eqn:Hs; intros Hv; [apply closed_quote|].
  destruct Hv as [|(_ & H1 & H2)]; [congruence|]; by apply closed_plain.
Qed.

(** Closed texts, joined, are split again and trimmed. *)
Lemma comma_join ps p current :
  Forall (fun s => closed (chars s)) (p :: ps) ->
  literals.comma_go (chars (join ", " (p :: ps))) current false 0 0 =
    of_chars (trim_chars (current ++ chars p)) :: (trim <$> ps).
Proof.
  revert p current; induction ps as [|p' ps IH]; intros p current [Hp Hps]%Forall_cons.
  - cbn [join]; rewrite <- (app_nil_r (chars p)) at 1; by rewrite Hp.
  - rewrite join_cons2, !chars_append, Hp; cbn [chars app].
    change (literals.comma_go (","%char :: " "%char :: chars (join ", " (p' :: ps))) (current ++ chars p) false 0 0)
      with (of_chars (trim_chars (current ++ chars p)) ::
            literals.comma_go (chars (join ", " (p' :: ps))) ([] ++ [" "%char]) false 0 0).
    f_equal; rewrite IH by done; cbn [app]; by rewrite trim_space.
Qed.

Lemma parse_comma_separated_join ps :
  Forall (fun s => closed (chars s)) ps -> ps <> [""] ->
  literals.parse_comma_separated (join ", " ps) = trim <$> ps.
Proof.
  intros Hps Hne; unfold literals.parse_comma_separated; destruct ps as [|p ps]; [done|].
  rewrite decide_False; [by rewrite comma_join|].
  destruct ps as [|p' ps]; cbn [join]; [intros ->; by apply Hne|].
  by destruct p.
Qed.

(** ** An element that survives *)

Lemma white_space_ascii c :
  forallb (fun w => forallb (fun d => negb (Ascii.eqb c d)) w) white_space = true ->
  (forall w, w ∈ white_space -> c ∉ w) /\ (forall w, w ∈ white_space_end -> c ∉ w).
Proof.
  intros Hall; rewrite List.forallb_forall in Hall.
  assert (forall w, w ∈ white_space -> c ∉ w) as Hw.
  { intros w Hw%list_elem_of_In%Hall Hc%list_elem_of_In; rewrite List.forallb_forall in Hw.
    apply Hw in Hc; by rewrite Ascii.eqb_refl in Hc. }
  split; [done|]; intros w (w' & -> & Hw')%list_elem_of_fmap; rewrite elem_of_reverse; by apply Hw.
Qed.

Lemma trimmed_quote s : trimmed (chars (literals.quote_str s)).
Proof.
  rewrite quote_str_chars; destruct (white_space_ascii quote eq_refl) as [H1 H2]; split.
  - apply (no_start_app _ []); [left; auto|]; intros w Hw ->%prefix_nil_inv; by apply nil_white_space.
  - rewrite reverse_cons, reverse_app; apply (no_start_app _ []); [left; auto|].
    intros w Hw ->%prefix_nil_inv; by apply nil_white_space_end.
Qed.

Lemma trim_escape s : survives s -> trim (literals.escape_str s) = literals.escape_str s.
Proof.
  unfold literals.escape_str; destruct (existsb _ _) eqn:Hs; intros Hv.
  - apply trim_trimmed, trimmed_quote.
  - by destruct Hv as [|[? _]]; [congruence|].
Qed.

Lemma literal_unescape_escape `{ENG : !RegexEngine} s : literals.unescape_str (literals.escape_str s) = s.
Proof.
  unfold literals.escape_str; destruct (existsb _ _) eqn:Hs; [apply unescape_quote|].
  unfold literals.unescape_str, strip; destruct (chars s) as [|c t] eqn:Ht; [done|]; cbn [strip_chars].
  cbn [existsb] in Hs; apply orb_false_iff in Hs as [(_ & Hq & _)%not_special _].
  by rewrite decide_False.
Qed.

(** ** Tokens

    An automaton that reads words of [TOKEN sep]: after a whole token it is
    outside of quotes, and there the separator is refused for good. *)

Inductive scan : Type := Outside | Inside | Escaped | Stuck.
#[export] Instance scan_eq_dec : EqDecision scan.
Proof. solve_decision. Defined.
Definition scan1 (sep : ascii) (st : scan) (c : ascii) : scan :=
  match st with
  | Outside => if decide (c = quote) then Inside else if decide (c = sep) then Stuck else Outside
  | Inside => if decide (c = quote) then Outside else if decide (c = backslash) then Escaped else Inside
  | Escaped => if decide (c = "010"%char) then Stuck else Inside
  | Stuck => Stuck
  end.
Definition scan_all (sep : ascii) (st : scan) (t : text) : scan := foldl (scan1 sep) st t.

Lemma scan_stuck sep t : scan_all sep Stuck t = Stuck.
Proof. by induction t. Qed.

(** Repetition keeps a state that every word keeps. *)
Lemma scan_star sep st r t :
  (forall w, matches r w -> scan_all sep st w = st) -> matches (Star r) t -> scan_all sep st t = st.
Proof.
  intros Hr Hm; remember (Star r) as r' eqn:E; revert Hr E.
  induction Hm as [| | | | | |r0 t1 t2 H1 _ _ IH|]; intros Hr E; try done.
  injection E as ->; unfold scan_all; rewrite foldl_app; fold (scan_all sep st t1).
  rewrite Hr by done; by apply IH.
Qed.

Lemma lit_pattern_matches c t : matches (Lit c) t -> t = [c].
Proof. inversion 1 as [|p d Hd| | | | | |]; subst; by apply bool_decide_eq_true in Hd as ->. Qed.

Ltac invert_matches :=
  repeat match goal with
  | H : matches (Lit _) _ |- _ => apply lit_pattern_matches in H; subst
  | H : matches (Chr _) _ |- _ => inversion H; clear H; subst
  | H : matches (Cat _ _) _ |- _ => inversion H; clear H; subst
  | H : matches (Alt _ _) _ |- _ => inversion H; clear H; subst
  end.

Lemma negb_class (P : Prop) `{!Decision P} : negb (bool_decide P) = true -> ~ P.
Proof. by intros ?%negb_true_iff%bool_decide_eq_false. Qed.

Ltac by_class :=
  match goal with H : negb (bool_decide _) = true |- _ => apply negb_class in H; naive_solver end.

Lemma scan_quoted sep t : matches literals.QUOTED t -> scan_all sep Inside t = Inside.
Proof.
  apply scan_star; intros w Hw; invert_matches; cbn [scan_all foldl scan1 app].
  - rewrite !decide_False; [done|by_class..].
  - rewrite (decide_False (P := backslash = quote)), decide_True by done.
    cbn [scan1]; rewrite decide_False; [done|by_class].
Qed.

Lemma scan_token sep t : matches (literals.TOKEN sep) t -> scan_all sep Outside t = Outside.
Proof.
  apply scan_star; intros w Hw; invert_matches; cbn [scan_all foldl scan1 app].
  - rewrite !decide_False; [done|by_class..].
  - rewrite decide_True, foldl_app by done; fold (scan_all sep Inside t1).
    rewrite scan_quoted by done; cbn [scan_all foldl scan1]; by rewrite decide_True.
Qed.

(** The separator after a token is found in one way only. *)
Lemma token_unique sep k t k' t' :
  sep <> quote -> matches (literals.TOKEN sep) k -> matches (literals.TOKEN sep) k' ->
  k ++ sep :: t = k' ++ sep :: t' -> k = k' /\ t = t'.
Proof.
  intros Hs Hk%scan_token Hk'%scan_token Heq.
  assert (forall a b, scan_all sep Outside (a ++ sep :: b) = Stuck \/ scan_all sep Outside a <> Outside) as Hsep.
  { intros a b; destruct (decide (scan_all sep Outside a = Outside)) as [Ha|]; [left|by right].
    unfold scan_all in *; rewrite foldl_app, Ha; cbn; rewrite decide_False, decide_True by done; apply scan_stuck. }
  apply app_eq_inv in Heq as [([|c w] & -> & Heq)|([|c w] & -> & Heq)]; cbn in Heq.
  - injection Heq as ->; by rewrite app_nil_r.
  - injection Heq as <- ->; by destruct (Hsep k' w) as [Hw|]; [rewrite Hk in Hw|].
  - injection Heq as ->; by rewrite app_nil_r.
  - injection Heq as <- ->; by destruct (Hsep k w) as [Hw|]; [rewrite Hk' in Hw|].
Qed.

(** ** Entries *)

Lemma first_full_spec l caps : first_full l = Some caps -> ([], caps) ∈ l.
Proof.
  induction l as [|[t c] l IH]; cbn; [done|]; case_decide as Ht; [|by intros ?%IH; right].
  intros [= <-]; subst; left.
Qed.
Lemma first_full_Some l caps : ([], caps) ∈ l -> exists caps', first_full l = Some caps'.
Proof.
  induction l as [|[t c] l IH]; cbn; [by intros ?%elem_of_nil|].
  intros [Heq|Hin]%elem_of_cons; case_decide as Ht; eauto; by injection Heq as ? ?.
Qed.

(** A word of a token with text quoting *)
Lemma esc_quoted t : matches literals.QUOTED (esc t).
Proof.
  unfold literals.QUOTED; induction t as [|c t IH]; [constructor|].
  change (esc (c :: t)) with (esc1 c ++ esc t); apply m_star_cons; [|exact IH]; unfold esc1.
  destruct (decide (c = backslash \/ c = quote)) as [Hc|Hc].
  - apply m_alt_r, (m_cat _ _ [backslash] [c]); constructor; [by apply bool_decide_eq_true|].
    apply negb_true_iff, bool_decide_eq_false; naive_solver.
  - apply m_alt_l; constructor; apply negb_true_iff, bool_decide_eq_false; naive_solver.
Qed.

Lemma escape_token sep s : sep = ":"%char \/ sep = "="%char ->
  matches (literals.TOKEN sep) (chars (literals.escape_str s)).
Proof.
  intros Hsep; unfold literals.escape_str, literals.TOKEN; destruct (existsb _ _) eqn:Hs.
  - rewrite quote_str_chars, <- (app_nil_r (quote :: _)); apply m_star_cons; [|constructor].
    apply m_alt_r, (m_cat _ _ [quote]); [by constructor; apply bool_decide_eq_true|].
    apply m_cat; [apply esc_quoted|by constructor; apply bool_decide_eq_true].
  - induction (chars s) as [|c t IH]; [constructor|].
    cbn [existsb] in Hs; apply orb_false_iff in Hs as [(_ & Hq & _ & He & Hc)%not_special Ht].
    apply (m_star_cons _ [c]); [|by apply IH].
    apply m_alt_l; constructor; apply negb_true_iff, bool_decide_eq_false; naive_solver.
Qed.

(** The separators of the two kinds of entries: the character, the optional
    space of the pattern and the space that is written *)
Record separator (sep : ascii) (space : re) (written : text) : Prop := {
  sep_char : sep = ":"%char \/ sep = "="%char;
  sep_space : forall w, matches space w -> w = [] \/ w = [" "%char];
  sep_written : written = [] \/ written = [" "%char];
  sep_matches : matches space written /\ matches space [];
  sep_free : group_free space = true;
}.

Lemma colon_separator : separator ":"%char (Alt (Lit " "%char) Eps) [" "%char].
Proof.
  split; [by left| |by right| |done].
  - intros w Hw; inversion Hw as [| | |? ? ? H|? ? ? H| | |]; subst;
      [right; by apply lit_pattern_matches|left; by inversion H].
  - split; [apply m_alt_l; by constructor|apply m_alt_r; constructor].
Qed.
Lemma equals_separator : separator "="%char Eps [].
Proof.
  split; [by right| |by left| |done].
  - intros w Hw; left; by inversion Hw.
  - split; constructor.
Qed.

Section Entries.
Context `{ENG : !RegexEngine} (sep : ascii) (space : re) (written : text).
Context (Hsep : separator sep space written).

(** The trimmed entry *)
Definition entry_tail (v : text) : text := match v with [] => [] | _ => written ++ v end.

Lemma split_on_entry k v :
  matches (literals.TOKEN sep) k -> matches (literals.TOKEN sep) v ->
  trimmed v -> exists v',
  literals.split_on sep space (of_chars (k ++ sep :: entry_tail v)) = Some (of_chars k, of_chars v') /\
  trim_chars v' = v.
Proof.
  intros Hk Hv Htv; destruct Hsep as [Hchar Hspace Hwritten [Hm Hm0] Hfree].
  unfold literals.split_on; rewrite captures_doc; unfold full_captures; rewrite chars_of_chars.
  set (r := Cat (Group 1 (literals.TOKEN sep)) _).
  assert (exists caps, first_full (steps r (k ++ sep :: entry_tail v) ∅) = Some caps) as [caps Hcaps].
  { assert (matches r (k ++ [sep] ++ (match v with [] => [] | _ => written end) ++ v)) as Hr.
    { apply m_cat; [by constructor|]; apply m_cat; [by constructor; apply bool_decide_eq_true|].
      apply m_cat; [by destruct v|by constructor]. }
    destruct (steps_complete _ _ [] ∅ Hr) as [caps Hin]; rewrite app_nil_r in Hin.
    apply (first_full_Some _ caps); by destruct v. }
  rewrite Hcaps; apply first_full_spec in Hcaps; unfold r in Hcaps; cbn [steps] in Hcaps.
  apply list_elem_of_bind in Hcaps as ([t1 c1] & Hrest & Hin1).
  apply list_elem_of_bind in Hin1 as ([t2 c2] & [= -> ->]%list_elem_of_singleton & (g1 & Hg1 & Hw1 & Hc1)%steps_sound).
  apply list_elem_of_bind in Hrest as ([t3 c3] & Hrest & (g & -> & ->%lit_pattern_matches & Hc3)%steps_sound).
  apply list_elem_of_bind in Hrest as ([t4 c4] & Hrest & (sp & -> & Hsp & Hc4)%steps_sound).
  apply list_elem_of_bind in Hrest as ([t5 c5] & [= <- ->]%list_elem_of_singleton & (g2 & -> & Hw2 & Hc5)%steps_sound).
  rewrite Hc5, Hc4, Hc3, Hc1 by done; rewrite app_nil_r in *.
  assert (sep <> quote) as Hq by by destruct Hchar as [-> | ->].
  apply token_unique in Hg1 as [<- Htail]; [|done..].
  exists g2; split.
  - cbn [mbind option_bind]; rewrite lookup_insert_ne, !lookup_insert_eq by done.
    unfold default, id; rewrite Htail, take_app_length' by (rewrite length_app; cbn; lia).
    cbn [length]; by rewrite Nat.sub_0_r, firstn_all.
  - apply Hspace in Hsp; transitivity (trim_chars v); [|by apply trimmed_iff].
    destruct v as [|c v]; cbn [entry_tail] in Htail.
    { symmetry in Htail; by apply app_eq_nil in Htail as [_ ->]. }
    destruct Hwritten as [-> | ->], Hsp as [-> | ->]; cbn [app] in Htail.
    + by rewrite Htail.
    + rewrite Htail; symmetry; apply trim_space.
    + rewrite <- Htail; apply trim_space.
    + by injection Htail as ->.
Qed.

Lemma space_in_white_space (a w : text) :
  a <> [] -> w ∈ white_space \/ w ∈ white_space_end -> " "%char ∉ w \/ (a <> [] /\ w = [" "%char]).
Proof.
  intros Ha Hw; assert (forallb (fun w => bool_decide (" "%char ∉ w \/ w = [" "%char]))
    (white_space ++ white_space_end) = true) as Hall by (vm_compute; reflexivity).
  rewrite List.forallb_forall in Hall.
  specialize (Hall w); rewrite bool_decide_eq_true, <- list_elem_of_In, elem_of_app in Hall; naive_solver.
Qed.

Lemma trim_entry k v : trimmed k -> trimmed v ->
  trim_chars (k ++ sep :: written ++ v) = k ++ sep :: entry_tail v.
Proof.
  intros [Hks Hke] [Hvs Hve]; destruct Hsep as [Hchar _ Hwritten _ _].
  assert ((forall w, w ∈ white_space -> sep ∉ w) /\ (forall w, w ∈ white_space_end -> sep ∉ w)) as [Hs He].
  { by destruct Hchar as [-> | ->]; apply white_space_ascii. }
  assert (forall t, no_start white_space (k ++ sep :: t)) as Hstart.
  { intros t; apply no_start_app; [intros w Hw; left; by apply Hs|done]. }
  destruct v as [|c v]; cbn [entry_tail].
  - rewrite app_nil_r.
    assert (no_start white_space_end (reverse (k ++ [sep]))) as Hend.
    { rewrite reverse_app; apply (no_start_app _ []); [intros w Hw; left; by apply He|].
      intros w Hw ->%prefix_nil_inv; by apply nil_white_space_end. }
    destruct Hwritten as [-> | ->]; [by apply trimmed_iff|].
    unfold trim_chars, trim_start, skip; rewrite skip_go_id by done; unfold trim_end.
    change (k ++ [sep; " "%char]) with (k ++ [sep] ++ [" "%char]); rewrite app_assoc, reverse_app.
    change (reverse (skip_go (length (reverse (k ++ [sep]))) white_space_end (reverse (k ++ [sep]))) = k ++ [sep]).
    rewrite skip_go_id by done; apply reverse_involutive.
  - apply trimmed_iff; split; [apply Hstart|]; rewrite reverse_app, reverse_cons, reverse_app.
    assert (reverse (c :: v) <> []) as Hne by (rewrite reverse_cons; by destruct (reverse v)).
    rewrite <- !app_assoc; destruct Hwritten as [-> | ->]; cbn [app];
      (apply no_start_app; [|done]); intros w Hw; [left; by apply He|].
    apply space_in_white_space; auto.
Qed.

(** An entry of texts that survive is read back. *)
Definition format_entry (e : string * string) : string :=
  literals.escape_str e.1 +:+ of_chars (sep :: written) +:+ literals.escape_str e.2.

Lemma parse_format_entry k v : survives k -> survives v ->
  literals.parse_entry (literals.split_on sep space) (trim (format_entry (k, v))) = Some (k, v).
Proof.
  intros Hk Hv; pose proof (trim_escape _ Hk) as Htk; pose proof (trim_escape _ Hv) as Htv.
  unfold format_entry, trim at 1; cbn [fst snd]; rewrite !chars_append, chars_of_chars; cbn [app].
  rewrite trim_entry by by apply trim_trimmed.
  destruct (split_on_entry (chars (literals.escape_str k)) (chars (literals.escape_str v))) as (v' & Hsplit & Hv').
  - apply escape_token, (sep_char _ _ _ Hsep).
  - apply escape_token, (sep_char _ _ _ Hsep).
  - by apply trim_trimmed.
  - unfold literals.parse_entry; rewrite Hsplit; cbn [mbind option_bind]; rewrite of_chars_chars, Htk.
    unfold trim; rewrite chars_of_chars, Hv', of_chars_chars; by rewrite !literal_unescape_escape.
Qed.

Lemma closed_entry e : survives e.1 -> survives e.2 -> closed (chars (format_entry e)).
Proof.
  intros Hk Hv; unfold format_entry; rewrite !chars_append, chars_of_chars.
  apply closed_app; [by apply closed_escape|]; apply closed_app; [|by apply closed_escape].
  intros current rest; destruct Hsep as [[-> | ->] _ [-> | ->] _ _]; cbn [app]; cbn -[app]; by rewrite <- ?app_assoc.
Qed.

(** Joined entries are read back. *)
Lemma parse_entries l : Forall (fun e => survives e.1 /\ survives e.2) l ->
  omap (literals.parse_entry (literals.split_on sep space))
    (literals.parse_comma_separated (join ", " (format_entry <$> l))) = l.
Proof.
  intros Hl; rewrite parse_comma_separated_join.
  - induction Hl as [|[k v] l [Hk Hv] Hl IH]; [done|]; rewrite !fmap_cons; cbn [omap list_omap].
    rewrite parse_format_entry by done; by f_equal.
  - apply Forall_fmap; eapply Forall_impl; [exact Hl|]; intros e [? ?]; by apply closed_entry.
  - destruct l as [|e [|]]; [done| |done]; rewrite fmap_cons; intros [= Hnil].
    apply (f_equal chars) in Hnil; unfold format_entry in Hnil; rewrite !chars_append, chars_of_chars in Hnil.
    by destruct (chars (literals.escape_str e.1)).
Qed.
End Entries.

(** ** Round trips *)

Section RoundTrips.
Context `{EXT : External} `{ENG : !RegexEngine}.

Lemma enclosed_spec {A} what (o c : ascii) (f : string -> A) s :
  literals.enclosed what o c f (String o (s +:+ String c "")) = Ok (f s).
Proof. unfold literals.enclosed; by rewrite strip_spec. Qed.

Lemma list_roundtrip l : Forall survives l -> l <> [""] ->
  Literal.parse literals.list_literal (Literal.format literals.list_literal l) = Ok l.
Proof.
  intros Hl Hne; cbn [literals.list_literal Literal.parse Literal.format].
  change ("[" +:+ ?s +:+ "]") with (String "["%char (s +:+ String "]"%char "")).
  rewrite enclosed_spec, parse_comma_separated_join.
  - do 2 f_equal; clear Hne; induction Hl as [|s l Hs Hl IH]; [done|]; rewrite !fmap_cons.
    f_equal; [|exact IH]; rewrite trim_escape by done; apply literal_unescape_escape.
  - apply Forall_fmap; eapply Forall_impl; [exact Hl|]; intros s; apply closed_escape.
  - destruct l as [|s [|]]; [done| |done]; rewrite fmap_cons; intros [= Hs].
    apply Hne; f_equal; rewrite <- (literal_unescape_escape s), Hs; done.
Qed.

Lemma struct_roundtrip m : Forall (fun e => survives e.1 /\ survives e.2) m -> NoDup m.*1 ->
  Literal.parse literals.struct_literal (Literal.format literals.struct_literal m) = Ok m.
Proof.
  intros Hm Hnd; cbn [literals.struct_literal Literal.parse Literal.format].
  change ("{" +:+ ?s +:+ "}") with (String "{"%char (s +:+ String "}"%char "")).
  rewrite enclosed_spec; unfold literals.parse_struct_entries, literals.split_on_colon; f_equal.
  etrans; [|apply IndexMap.from_iter_NoDup, Hnd]; f_equal.
  apply (parse_entries _ _ _ colon_separator m Hm).
Qed.

Lemma map_roundtrip m : Forall (fun e => survives e.1 /\ survives e.2) m ->
  Literal.parse literals.map_literal (Literal.format literals.map_literal m) = Ok m.
Proof.
  intros Hm; cbn [literals.map_literal Literal.parse Literal.format].
  change ("{" +:+ ?s +:+ "}") with (String "{"%char (s +:+ String "}"%char "")).
  rewrite enclosed_spec; unfold literals.parse_map_entries, literals.split_on_equals; f_equal.
  apply (parse_entries _ _ _ equals_separator m Hm).
Qed.
End RoundTrips.
