(* ===== verification/Values.v ===== *)
(** * The text of values ([spec/literals/date.rs], [typedefs/value/])

    Times with an offset, timestamps and intervals, and the values of a data
    type: [Value::parse] and its [Display], which discharge the interface
    [ValueText] that the rest of the development is written against. *)

From Stdlib Require Import SpecFloat.
From S2P Require Import Prelude Text Regex Identifier Types Literals.

(** ** [chrono] *)

Class Chrono `{External} : Type := {
  east_opt : Z -> option FixedOffset;
  local_minus_utc : FixedOffset -> Z;
  (* [DateTime::parse_from_rfc3339] and [parse_from_str], in UTC *)
  parse_from_rfc3339 : string -> option DateTimeUtc;
  DateTime_parse_from_str : string -> string -> option DateTimeUtc;
  NaiveDateTime_parse_from_str : string -> string -> option NaiveDateTime;
  (* [date.and_time(NaiveTime::default())] *)
  at_midnight : NaiveDate -> NaiveDateTime;
  and_utc : NaiveDateTime -> DateTimeUtc;
  naive_utc : DateTimeUtc -> NaiveDateTime;
  (* [to_rfc3339_opts(SecondsFormat::AutoSi, false)] *)
  to_rfc3339 : DateTimeUtc -> string;
  Months_new : Z -> Months;
  as_u32 : Months -> Z;
  microseconds : Z -> TimeDelta;
  num_microseconds : TimeDelta -> option Z;
}.

Module times.
Section times.
Context `{EXT : External} `{ENG : !RegexEngine} `{SCALARS : !Scalars} `{CHRONO : !Chrono}.

Definition digit : re := Chr is_digit.
Definition Opt (r : re) : re := Alt r Eps.
(** [{:0w$}] of an integer *)
Definition zero_padded (width : nat) (z : Z) : string :=
  let s := i64_to_string z in
  if decide (0 <= z)%Z then of_chars (repeat "0"%char (width - String.length s)) +:+ s else s.
(** [captures]: the groups of the first match anywhere *)
Definition search (r : re) (s : string) : option groups := head (captures_iter r s).
Definition group (i : nat) (caps : groups) : option string := of_chars <$> caps !! i.

(** *** [TIMETZ] *)

(** [(\d{2})(?::(\d{2}))?] *)
Definition RE_OFFSET : re :=
  Cat (Group 1 (Cat digit digit)) (Opt (Cat (Lit ":"%char) (Group 2 (Cat digit digit)))).

Definition i32_from_str : string -> option Z := int_from_str (- 2 ^ 31) (2 ^ 31 - 1).
Definition parse_offset (offset : string) : option FixedOffset :=
  caps ← search RE_OFFSET offset;
  let hours := default 0%Z (group 1 caps ≫= i32_from_str) in
  let minutes := default 0%Z (group 2 caps ≫= i32_from_str) in
  east_opt (hours * 3600 + minutes * 60).

Definition parse_TimeWithTimezone (s : string) : result TimeWithTimezone.t :=
  match splitn2 "+"%char s with
  | (time, Some offset) =>
      offset ← ok_or (Parsing ("invalid time zone offset: " +:+ offset)) (parse_offset offset);
      time ← literals.parsing_error (leaf_from_str NaiveTime_text time);
      mret (TimeWithTimezone.mk time offset)
  | (_, None) =>
      time ← literals.parsing_error (leaf_from_str NaiveTime_text s);
      offset ← unwrap (east_opt 0);
      mret (TimeWithTimezone.mk time offset)
  end.

Definition format_TimeWithTimezone (v : TimeWithTimezone.t) : string :=
  let offset := local_minus_utc (TimeWithTimezone.offset v) in
  let offset_hours := Z.quot offset 3600 in
  let offset_minutes := Z.quot (Z.rem offset 3600) 60 in
  leaf_to_string NaiveTime_text (TimeWithTimezone.time v) +:+ "+" +:+ zero_padded 2 offset_hours +:+
  (if decide (offset_minutes = 0%Z) then "" else ":" +:+ zero_padded 2 offset_minutes).
Definition TimeWithTimezone_literal : Literal TimeWithTimezone.t :=
  Literal.mk parse_TimeWithTimezone format_TimeWithTimezone.

(** *** [DATETIME] *)

Definition sqlite_datetime_formats : list string :=
  ["%F %T%.f"; "%F %R"; "%F %RZ"; "%F %R%:z"; "%F %T%.fZ"; "%F %T%.f%:z"; "%FT%R"; "%FT%RZ";
   "%FT%R%:z"; "%FT%T%.f"; "%FT%T%.fZ"; "%FT%T%.f%:z"; "%F %T%.f%#z"].

Fixpoint parse_formats (s : string) (formats : list string) : option DateTimeUtc :=
  match formats with
  | [] => None
  | format :: formats =>
      match DateTime_parse_from_str s format with
      | Some dt => Some dt
      | None =>
          match NaiveDateTime_parse_from_str s format with
          | Some dt => Some (and_utc dt)
          | None => parse_formats s formats
          end
      end
  end.
Definition parse_DateTime (s : string) : result DateTimeUtc :=
  match parse_from_rfc3339 s with
  | Some dt => Ok dt
  | None =>
      match leaf_from_str NaiveDate_text s with
      | Ok date => Ok (and_utc (at_midnight date))
      | _ => ok_or (Parsing ("failed to parse datetime '" +:+ s +:+ "'"))
               (parse_formats s sqlite_datetime_formats)
      end
  end.
Definition DateTime_literal : Literal DateTimeUtc := Literal.mk parse_DateTime to_rfc3339.
Definition NaiveDateTime_literal : Literal NaiveDateTime :=
  Literal.mk (fun s => dt ← parse_DateTime s; mret (naive_utc dt))
    (fun v => to_rfc3339 (and_utc v)).

(** *** [INTERVAL] *)

Definition Word (s : string) : re := foldr (fun c r => Cat (Lit c) r) Eps (chars s).
(** [(\d+) years?] and the like *)
Definition RE_UNIT (name : string) : re :=
  Cat (Group 1 (Plus digit)) (Cat (Word (" " +:+ name)) (Opt (Lit "s"%char))).
Definition RE_YEARS : re := RE_UNIT "year".
Definition RE_MONTHS : re := RE_UNIT "month".
Definition RE_DAYS : re := RE_UNIT "day".
(** [(\d{2}):(\d{2}):(\d{2})(?:\.(\d{1,6}))?] *)
Definition two (i : nat) : re := Group i (Cat digit digit).
Fixpoint up_to (n : nat) : re := match n with 0 => Eps | S n => Opt (Cat digit (up_to n)) end.
Definition RE_DELTA : re :=
  Cat (two 1) (Cat (Lit ":"%char) (Cat (two 2) (Cat (Lit ":"%char) (Cat (two 3)
    (Opt (Cat (Lit "."%char) (Group 4 (Cat digit (up_to 5))))))))).

Definition u32_from_str : string -> option Z := uint_from_str (2 ^ 32 - 1).
Definition number (from_str : string -> option Z) (s : string) : result Z :=
  ok_or (Parsing (int_error s)) (from_str s).
(** The number before a unit, zero without the unit *)
Definition parse_unit (r : re) (from_str : string -> option Z) (s : string) : result Z :=
  match search r s with
  | Some caps => number from_str (default "" (group 1 caps))
  | None => Ok 0%Z
  end.
(** [{:0<6}] *)
Definition padded_right (width : nat) (s : string) : string :=
  s +:+ of_chars (repeat "0"%char (width - String.length s)).
Definition parse_micros (s : string) : result Z :=
  match search RE_DELTA s with
  | Some caps =>
      hours ← number i64_from_str (default "" (group 1 caps));
      minutes ← number i64_from_str (default "" (group 2 caps));
      secs ← number i64_from_str (default "" (group 3 caps));
      micros ← match group 4 caps with
               | Some m => number i64_from_str (padded_right 6 m)
               | None => Ok 0%Z
               end;
      mret ((hours * 3600 + minutes * 60 + secs) * 1000000 + micros)%Z
  | None => Ok 0%Z
  end.
Definition parse_Interval (s : string) : result Interval.t :=
  num_years ← parse_unit RE_YEARS u32_from_str s;
  num_months ← parse_unit RE_MONTHS u32_from_str s;
  num_days ← parse_unit RE_DAYS i64_from_str s;
  num_microseconds ← parse_micros s;
  mret (Interval.mk (Months_new ((num_years * 12 + num_months) mod 2 ^ 32))
          (microseconds (wrap64 (num_days * 86400000000 + num_microseconds)))).

Definition format_singular_plural (name : string) (count : Z) : string :=
  if decide (1 < count)%Z then i64_to_string count +:+ " " +:+ name +:+ "s"
  else i64_to_string count +:+ " " +:+ name.
Definition format_interval_months (months : Z) : string :=
  let num_years := (months / 12)%Z in
  let num_months := (months mod 12)%Z in
  let result := if decide (0 < num_years)%Z then format_singular_plural "year" num_years else "" in
  if decide (0 < num_months)%Z
  then (if decide (result = "") then "" else result +:+ " ") +:+ format_singular_plural "month" num_months
  else result.
(** [trim_end_matches('0')] *)
Fixpoint drop_zeros (t : text) : text :=
  match t with c :: t' => if decide (c = "0"%char) then drop_zeros t' else t | [] => [] end.
Definition trim_zeros (s : string) : string := of_chars (reverse (drop_zeros (reverse (chars s)))).
Definition format_interval_microseconds (micros : Z) : string :=
  let hours := (micros / 3600000000)%Z in
  let minutes := (micros mod 3600000000 / 60000000)%Z in
  let seconds := (micros mod 60000000 / 1000000)%Z in
  let result := zero_padded 2 hours +:+ ":" +:+ zero_padded 2 minutes +:+ ":" +:+ zero_padded 2 seconds in
  let micros := (micros mod 1000000)%Z in
  if decide (0 < micros)%Z then result +:+ "." +:+ trim_zeros (zero_padded 6 micros) else result.
(** [TimeDelta::is_zero]; [as u64] *)
Definition format_Interval (v : Interval.t) : string :=
  let result := format_interval_months (as_u32 (Interval.months v)) in
  if leaf_eqb TimeDelta (Interval.delta v) (microseconds 0) then result
  else (if decide (result = "") then "" else result +:+ " ") +:+
       format_interval_microseconds
         (default 0%Z (num_microseconds (Interval.delta v)) mod 2 ^ 64).
Definition Interval_literal : Literal Interval.t := Literal.mk parse_Interval format_Interval.
End times.
End times.

(** ** Values ([format.rs], [parse.rs]) *)

Module ValueOps.
Section ValueOps.
Context `{EXT : External} `{ENG : !RegexEngine} `{SCALARS : !Scalars} `{CHRONO : !Chrono}.

Definition i8_literal : Literal Z := literals.str_literal (literals.int_text (- 2 ^ 7) (2 ^ 7 - 1)).
Definition i16_literal : Literal Z := literals.str_literal (literals.int_text (- 2 ^ 15) (2 ^ 15 - 1)).
Definition i32_literal : Literal Z := literals.str_literal (literals.int_text (- 2 ^ 31) (2 ^ 31 - 1)).
Definition i64_literal : Literal Z := literals.str_literal (literals.int_text i64_min i64_max).
Definition i128_literal : Literal Z := literals.str_literal (literals.int_text (- 2 ^ 127) (2 ^ 127 - 1)).
Definition u8_literal : Literal Z := literals.str_literal (literals.uint_text (2 ^ 8 - 1)).
Definition u16_literal : Literal Z := literals.str_literal (literals.uint_text (2 ^ 16 - 1)).
Definition u32_literal : Literal Z := literals.str_literal (literals.uint_text (2 ^ 32 - 1)).
Definition u64_literal : Literal Z := literals.str_literal (literals.uint_text (2 ^ 64 - 1)).
Definition u128_literal : Literal Z := literals.str_literal (literals.uint_text (2 ^ 128 - 1)).
Definition String_literal : Literal string := literals.str_literal literals.String_text.

Fixpoint to_string (v : Value) : string :=
  let to_string_opt (v : option Value) : string :=
    match v with Some v => to_string v | None => NULL_STRING end in
  match v with
  | Value.Boolean b => literals.format literals.bool_literal (Some b)
  | Value.Int8 z => literals.format i8_literal (Some z)
  | Value.Int16 z => literals.format i16_literal (Some z)
  | Value.Int32 z => literals.format i32_literal (Some z)
  | Value.Int64 z => literals.format i64_literal (Some z)
  | Value.Int128 z => literals.format i128_literal (Some z)
  | Value.UInt8 z => literals.format u8_literal (Some z)
  | Value.UInt16 z => literals.format u16_literal (Some z)
  | Value.UInt32 z => literals.format u32_literal (Some z)
  | Value.UInt64 z => literals.format u64_literal (Some z)
  | Value.UInt128 z => literals.format u128_literal (Some z)
  | Value.Float32 f => literals.format (literals.str_literal f32_text) (Some f)
  | Value.Float64 f => literals.format (literals.str_literal f64_text) (Some f)
  | Value.Decimal d => literals.format (literals.str_literal Decimal_text) (Some d)
  | Value.Time t => literals.format (literals.str_literal NaiveTime_text) (Some t)
  | Value.TimeTz t => literals.format times.TimeWithTimezone_literal (Some t)
  | Value.Date d => literals.format (literals.str_literal NaiveDate_text) (Some d)
  | Value.Timestamp t => literals.format times.DateTime_literal (Some (and_utc t))
  | Value.TimestampTz t => literals.format times.DateTime_literal (Some t)
  | Value.Interval i => literals.format times.Interval_literal (Some i)
  | Value.Varchar s => literals.format String_literal (Some s)
  | Value.Blob b => literals.format (literals.str_literal hex_text) (Some b)
  | Value.Json s => literals.format String_literal (Some s)
  | Value.Uuid u => literals.format (literals.str_literal Uuid_text) (Some u)
  | Value.List l => literals.format literals.list_literal (Some (map to_string_opt l))
  | Value.Struct m =>
      literals.format literals.struct_literal (Some (map (fun '(k, v) => (k, to_string_opt v)) m))
  | Value.Map m =>
      literals.format literals.map_literal
        (Some (map (fun '(k, v) => (to_string k, to_string_opt v)) m))
  end.
Definition to_string_opt (v : option Value) : string :=
  match v with Some v => to_string v | None => NULL_STRING end.

Definition parse_as {A} (L : Literal A) (make : A -> Value) (value : string) : result (option Value) :=
  v ← literals.parse L value; mret (option_map make v).
Definition parse_with {A} (L : Literal A) (make : A -> result Value) (value : string)
    : result (option Value) :=
  v ← literals.parse L value;
  match v with Some a => x ← make a; mret (Some x) | None => mret None end.

Fixpoint parse (dtype : DataType) (value : string) : result (option Value) :=
  match dtype with
  | DataType.Boolean => parse_as literals.bool_literal Value.Boolean value
  | DataType.Int8 => parse_as i8_literal Value.Int8 value
  | DataType.Int16 => parse_as i16_literal Value.Int16 value
  | DataType.Int32 => parse_as i32_literal Value.Int32 value
  | DataType.Int64 => parse_as i64_literal Value.Int64 value
  | DataType.Int128 => parse_as i128_literal Value.Int128 value
  | DataType.UInt8 => parse_as u8_literal Value.UInt8 value
  | DataType.UInt16 => parse_as u16_literal Value.UInt16 value
  | DataType.UInt32 => parse_as u32_literal Value.UInt32 value
  | DataType.UInt64 => parse_as u64_literal Value.UInt64 value
  | DataType.UInt128 => parse_as u128_literal Value.UInt128 value
  | DataType.Float32 => parse_as (literals.str_literal f32_text) Value.Float32 value
  | DataType.Float64 => parse_as (literals.str_literal f64_text) Value.Float64 value
  | DataType.Decimal _ _ => parse_as (literals.str_literal Decimal_text) Value.Decimal value
  | DataType.Time => parse_as (literals.str_literal NaiveTime_text) Value.Time value
  | DataType.TimeTz => parse_as times.TimeWithTimezone_literal Value.TimeTz value
  | DataType.Date => parse_as (literals.str_literal NaiveDate_text) Value.Date value
  | DataType.Timestamp _ => parse_as times.DateTime_literal (fun v => Value.Timestamp (naive_utc v)) value
  | DataType.TimestampTz => parse_as times.DateTime_literal Value.TimestampTz value
  | DataType.Interval => parse_as times.Interval_literal Value.Interval value
  | DataType.Varchar => parse_as String_literal Value.Varchar value
  | DataType.Blob => parse_as (literals.str_literal hex_text) Value.Blob value
  | DataType.Json => parse_as String_literal Value.Json value
  | DataType.Variant | DataType.Geometry =>
      if decide (value = "NULL") then Ok None
      else Err (Parsing ("parsing non-null " +:+ DataTypeOps.to_string dtype +:+ " values is not supported"))
  | DataType.Uuid => parse_as (literals.str_literal Uuid_text) Value.Uuid value
  | DataType.List (DataType.mk_Column _ inner _ _ _ _ _) =>
      parse_with literals.list_literal
        (fun elements => l ← map_outcome (parse inner) elements; mret (Value.List l)) value
  | DataType.Struct fields =>
      let parse_field key value_str :=
        (fix find (fields : list Column) : result (string * option Value) :=
           match fields with
           | DataType.mk_Column name dtype _ _ _ _ _ :: fields =>
               if decide (name = key) then v ← parse dtype value_str; mret (key, v) else find fields
           | [] => Err (Parsing ("unknown struct field: " +:+ key))
           end) fields in
      parse_with literals.struct_literal
        (fun entries => m ← map_outcome (fun e => parse_field e.1 e.2) entries;
                        mret (Value.Struct m)) value
  | DataType.Map (DataType.mk_Column _ key _ _ _ _ _) (DataType.mk_Column _ val _ _ _ _ _) =>
      parse_with literals.map_literal
        (fun elements =>
           m ← map_outcome (fun e =>
                 k ← parse key e.1;
                 key ← ok_or (Parsing "encountered NULL map key") k;
                 v ← parse val e.2;
                 mret (key, v)) elements;
           mret (Value.Map m)) value
  end.

Definition value_text : ValueText := {| value_to_string := to_string; value_parse := parse |}.
End ValueOps.
End ValueOps.
