(* ===== verification/ValueFacts.v ===== *)
(** * Values round trip *)

From Stdlib Require Import SpecFloat DecimalPos.
From S2P Require Import Prelude Text Regex Identifier Types Instances Literals LiteralFacts Values.

(** ** Values of a data type, and those whose text reads back *)

Section Printable.
Context `{EXT : External} `{ENG : !RegexEngine} `{SCALARS : !Scalars} `{CHRONO : !Chrono}.

(** The text of a leaf is read as that leaf, and is not [NULL]. *)
Definition reads_back {A} (L : Literal A) (a : A) : Prop :=
  Literal.parse L (Literal.format L a) = Ok a /\ Literal.format L a <> NULL_STRING.

(** The fields of a struct, by name *)
Definition field_dtype (fields : list Column) (key : string) : option DataType :=
  Column.dtype <$> List.find (fun f => bool_decide (Column.name f = key)) fields.

(** [printable d v]: [v] is a value of the data type [d], and nothing of it is
    lost when it is written: leaves read back, elements, keys and values survive
    quoting and a list does not consist of one empty text. *)
Fixpoint printable (d : DataType) (v : Value) : Prop :=
  match d, v with
  | DataType.Boolean, Value.Boolean b => True
  | DataType.Int8, Value.Int8 z => (- 2 ^ 7 <= z <= 2 ^ 7 - 1)%Z
  | DataType.Int16, Value.Int16 z => (- 2 ^ 15 <= z <= 2 ^ 15 - 1)%Z
  | DataType.Int32, Value.Int32 z => (- 2 ^ 31 <= z <= 2 ^ 31 - 1)%Z
  | DataType.Int64, Value.Int64 z => (i64_min <= z <= i64_max)%Z
  | DataType.Int128, Value.Int128 z => (- 2 ^ 127 <= z <= 2 ^ 127 - 1)%Z
  | DataType.UInt8, Value.UInt8 z => (0 <= z <= 2 ^ 8 - 1)%Z
  | DataType.UInt16, Value.UInt16 z => (0 <= z <= 2 ^ 16 - 1)%Z
  | DataType.UInt32, Value.UInt32 z => (0 <= z <= 2 ^ 32 - 1)%Z
  | DataType.UInt64, Value.UInt64 z => (0 <= z <= 2 ^ 64 - 1)%Z
  | DataType.UInt128, Value.UInt128 z => (0 <= z <= 2 ^ 128 - 1)%Z
  | DataType.Float32, Value.Float32 f => reads_back (literals.str_literal f32_text) f
  | DataType.Float64, Value.Float64 f => reads_back (literals.str_literal f64_text) f
  | DataType.Decimal _ _, Value.Decimal x => reads_back (literals.str_literal Decimal_text) x
  | DataType.Time, Value.Time t => reads_back (literals.str_literal NaiveTime_text) t
  | DataType.TimeTz, Value.TimeTz t => reads_back times.TimeWithTimezone_literal t
  | DataType.Date, Value.Date x => reads_back (literals.str_literal NaiveDate_text) x
  | DataType.Timestamp _, Value.Timestamp t =>
      reads_back times.DateTime_literal (and_utc t) /\ naive_utc (and_utc t) = t
  | DataType.TimestampTz, Value.TimestampTz t => reads_back times.DateTime_literal t
  | DataType.Interval, Value.Interval i => reads_back times.Interval_literal i
  | DataType.Varchar, Value.Varchar s | DataType.Json, Value.Json s => s <> NULL_STRING
  | DataType.Blob, Value.Blob b => reads_back (literals.str_literal hex_text) b
  | DataType.Uuid, Value.Uuid u => reads_back (literals.str_literal Uuid_text) u
  | DataType.List (DataType.mk_Column _ inner _ _ _ _ _), Value.List l =>
      Forall (fun o => match o with Some v => printable inner v | None => True end) l /\
      Forall survives (ValueOps.to_string_opt <$> l) /\ ValueOps.to_string_opt <$> l <> [""]
  | DataType.Struct fields, Value.Struct m =>
      NoDup m.*1 /\
      Forall (fun e =>
        survives e.1 /\ survives (ValueOps.to_string_opt e.2) /\
        (fix find (fields : list Column) : Prop :=
           match fields with
           | DataType.mk_Column name dtype _ _ _ _ _ :: fields =>
               if decide (name = e.1)
               then match e.2 with Some v => printable dtype v | None => True end
               else find fields
           | [] => False
           end) fields) m
  | DataType.Map (DataType.mk_Column _ key _ _ _ _ _) (DataType.mk_Column _ val _ _ _ _ _), Value.Map m =>
      Forall (fun e =>
        survives (ValueOps.to_string e.1) /\ survives (ValueOps.to_string_opt e.2) /\
        printable key e.1 /\
        match e.2 with Some v => printable val v | None => True end) m
  | _, _ => False
  end.

Lemma parse_as_format {A} (L : Literal A) (make : A -> Value) a :
  reads_back L a -> ValueOps.parse_as L make (literals.format L (Some a)) = Ok (Some (make a)).
Proof.
  intros [Hp Hn]; unfold ValueOps.parse_as, literals.parse, literals.format.
  rewrite decide_False by done; by rewrite Hp.
Qed.

Lemma parse_with_format {A} (L : Literal A) (make : A -> result Value) a v :
  reads_back L a -> make a = Ok v ->
  ValueOps.parse_with L make (literals.format L (Some a)) = Ok (Some v).
Proof.
  intros [Hp Hn] Hm; unfold ValueOps.parse_with, literals.parse, literals.format.
  rewrite decide_False by done; rewrite Hp; cbn; by rewrite Hm.
Qed.

(** ** Leaves *)

Lemma i64_to_string_not_null z : i64_to_string z <> NULL_STRING.
Proof.
  destruct (i64_to_string_shape z) as (d & <- & _ & Hd).
  by destruct d as [u|u]; destruct u.
Qed.

Lemma int_reads_back min max z : (min <= z <= max)%Z ->
  reads_back (literals.str_literal (literals.int_text min max)) z.
Proof.
  intros Hz; split; [|apply i64_to_string_not_null].
  change (literals.parsing_error (ok_or (int_error (i64_to_string z))
    (int_from_str min max (i64_to_string z))) = Ok z); by rewrite int_from_to_string.
Qed.

Lemma uint_shape z : (0 <= z)%Z -> exists u, i64_to_string z = NilEmpty.string_of_uint u /\
  u <> Decimal.Nil /\ Z.of_uint u = z.
Proof.
  intros Hz; pose proof (DecimalZ.of_to z) as Hof.
  destruct z as [|p|p]; [|exists (Pos.to_uint p)|lia]; [by exists (Decimal.D0 Decimal.Nil)|].
  split_and!; [done|apply DecimalPos.Unsigned.to_uint_nonnil|exact Hof].
Qed.

Lemma uint_from_to_string max z : (0 <= z <= max)%Z -> uint_from_str max (i64_to_string z) = Some z.
Proof.
  intros Hz; destruct (uint_shape z) as (u & -> & Hnil & Hu); [lia|].
  destruct (string_of_uint_head u Hnil) as (c & s & Hs & Hplus & _).
  unfold uint_from_str; rewrite Hs, decide_False by done; rewrite <- Hs; cbn [mbind option_bind].
  rewrite NilEmpty.usu; cbn [mbind option_bind]; rewrite Hu; by rewrite decide_True by lia.
Qed.

Lemma uint_reads_back max z : (0 <= z <= max)%Z ->
  reads_back (literals.str_literal (literals.uint_text max)) z.
Proof.
  intros Hz; split; [|apply i64_to_string_not_null].
  change (literals.parsing_error (ok_or (int_error (i64_to_string z))
    (uint_from_str max (i64_to_string z))) = Ok z); by rewrite uint_from_to_string.
Qed.

Lemma string_reads_back s : s <> NULL_STRING -> reads_back ValueOps.String_literal s.
Proof. done. Qed.

Lemma bool_reads_back b : reads_back literals.bool_literal b.
Proof. by destruct b. Qed.

Lemma enclosed_not_null o c s : o <> "N"%char -> String o (s +:+ String c "") <> NULL_STRING.
Proof. by intros Ho [= ? _]. Qed.

Lemma list_reads_back l : Forall survives l -> l <> [""] -> reads_back literals.list_literal l.
Proof. intros; split; [by apply list_roundtrip|by apply (enclosed_not_null "["%char "]"%char)]. Qed.
Lemma struct_reads_back m : Forall (fun e => survives e.1 /\ survives e.2) m -> NoDup m.*1 ->
  reads_back literals.struct_literal m.
Proof. intros; split; [by apply struct_roundtrip|by apply (enclosed_not_null "{"%char "}"%char)]. Qed.
Lemma map_reads_back m : Forall (fun e => survives e.1 /\ survives e.2) m ->
  reads_back literals.map_literal m.
Proof. intros; split; [by apply map_roundtrip|by apply (enclosed_not_null "{"%char "}"%char)]. Qed.

(** ** Elements *)

Lemma map_outcome_map {A B C} (f : B -> result C) (g : A -> B) (h : A -> C) l :
  Forall (fun a => f (g a) = Ok (h a)) l -> map_outcome f (map g l) = Ok (map h l).
Proof. induction 1 as [|a l Ha Hl IH]; [done|]; cbn [map map_outcome]; rewrite Ha; cbn; by rewrite IH. Qed.

Lemma parse_null d : ValueOps.parse d NULL_STRING = Ok None.
Proof. by destruct d as [| | | | | | | | | | | | | | | | | | | | | | | | | |[]| |[] []]. Qed.

(** A data type reads back the values that are printable for it. *)
Definition reads_values (d : DataType) : Prop := forall v,
  printable d v -> ValueOps.parse d (ValueOps.to_string v) = Ok (Some v).

Lemma reads_options d o : reads_values d ->
  match o with Some v => printable d v | None => True end ->
  ValueOps.parse d (ValueOps.to_string_opt o) = Ok o.
Proof. intros Hd Ho; destruct o as [v|]; [by apply Hd|apply parse_null]. Qed.

Lemma reads_list c : reads_values (Column.dtype c) -> reads_values (DataType.List c).
Proof.
  destruct c as [name inner nullable tags init def field_id]; intros Hin v.
  destruct v; try done; intros (Hl & Hs & Hne).
  eapply (parse_with_format literals.list_literal); [by apply list_reads_back|].
  rewrite (map_outcome_map _ _ (fun o => o)); [by rewrite map_id|].
  eapply Forall_impl; [exact Hl|]; intros o; by apply reads_options.
Qed.

Lemma reads_struct fields : Forall (fun c => reads_values (Column.dtype c)) fields ->
  reads_values (DataType.Struct fields).
Proof.
  intros Hin v; destruct v; try done; intros (Hnd & Hm).
  eapply (parse_with_format literals.struct_literal).
  - apply struct_reads_back.
    + apply Forall_fmap; eapply Forall_impl; [exact Hm|]; by intros [k o] (? & ? & _).
    + rewrite <- list_fmap_compose; erewrite list_fmap_ext; [exact Hnd|]; by intros ? [k o] ?.
  - cbv beta; erewrite (map_outcome_map _ _ (fun e => e)); [by rewrite map_id|].
    eapply Forall_impl; [exact Hm|]; intros [k o] (_ & _ & Hf); cbn [fst snd] in *.
    revert Hf; clear Hm Hnd; induction Hin as [|[name d n t i df fid] fields Hd Hin IH]; [done|].
    case_decide; [|exact IH]; intros Ho.
    change (ValueOps.parse d (ValueOps.to_string_opt o) ≫= (fun v => mret (k, v)) = Ok (k, o)).
    by rewrite (reads_options d o Hd Ho).
Qed.

Lemma reads_map key val : reads_values (Column.dtype key) -> reads_values (Column.dtype val) ->
  reads_values (DataType.Map key val).
Proof.
  destruct key as [kn key n1 t1 i1 d1 f1], val as [vn val n2 t2 i2 d2 f2]; intros Hk Hv v.
  destruct v; try done; intros Hm.
  eapply (parse_with_format literals.map_literal).
  - apply map_reads_back, Forall_fmap; eapply Forall_impl; [exact Hm|]; by intros [k o] (? & ? & _).
  - cbv beta; erewrite (map_outcome_map _ _ (fun e => e)); [by rewrite map_id|].
    eapply Forall_impl; [exact Hm|]; intros [k o] (_ & _ & Hpk & Hpo); cbn [fst snd] in *.
    pose proof (Hk k Hpk) as Hrk; pose proof (reads_options val o Hv Hpo) as Hro.
    cbn [Column.dtype] in Hrk.
    change ((k' ← ValueOps.parse key (ValueOps.to_string k);
             key ← ok_or (Parsing "encountered NULL map key") k';
             v ← ValueOps.parse val (ValueOps.to_string_opt o); mret (key, v)) = Ok (k, o)).
    rewrite Hrk; cbn [mbind outcome_bind ok_or]; by rewrite Hro.
Qed.

Lemma reads_leaf {A} d (L : Literal A) make v a :
  ValueOps.parse d = ValueOps.parse_as L make -> ValueOps.to_string v = literals.format L (Some a) ->
  make a = v -> reads_back L a -> ValueOps.parse d (ValueOps.to_string v) = Ok (Some v).
Proof. intros -> -> <-; apply parse_as_format. Qed.

Ltac reads_leaf :=
  first [ assumption | by apply int_reads_back | by apply uint_reads_back
        | by apply string_reads_back | apply bool_reads_back ].

Lemma reads_all d : reads_values d.
Proof.
  revert d; fix IH 1; intros d.
  destruct d as [| | | | | | | | | | | | |p q| | | |pr| | | | | | | | |c|fields|key val];
    try (intros v; destruct v; try done; intros Hv; cbn [printable] in Hv;
         by eapply reads_leaf; [reflexivity|reflexivity|reflexivity|reads_leaf]).
  - intros v; destruct v; try done; intros [Hr Hn]; eapply reads_leaf; [reflexivity..| |exact Hr]; cbn; by rewrite Hn.
  - apply reads_list; destruct c; apply IH.
  - apply reads_struct; induction fields as [|[] fields IHf]; constructor; [apply IH|exact IHf].
  - apply reads_map; [destruct key|destruct val]; apply IH.
Qed.

(** C25: a value of any data type, however nested, that is printable is read back
    from its text as itself: elements are separated, keys matched to their fields
    and quotes undone at every level. That dates, times, decimals, floats and UUIDs
    are read back from their own texts, which third parties print and parse, is part
    of being printable. *)
Theorem printable_values_roundtrip (d : DataType) (v : Value) (Hv : printable d v) :
  ValueOps.parse d (ValueOps.to_string v) = Ok (Some v).
Proof. by apply reads_all. Qed.

(** Without being printable values are changed by the round trip: an element
    with a bracket is not quoted and swallows the comma behind it, white space at
    the ends is dropped, a list of one empty text becomes the empty list, and the
    text NULL becomes the null value. *)
Theorem unprintable_values_change (c : Column) (Hc : Column.dtype c = DataType.Varchar) :
  let list l := Value.List ((fun s => Some (Value.Varchar s)) <$> l) in
  let read l := ValueOps.parse (DataType.List c) (ValueOps.to_string (list l)) in
  read ["["; "a"] = Ok (Some (list ["[, a"])) /\
  read [" a"] = Ok (Some (list ["a"])) /\
  read [""] = Ok (Some (list [])) /\
  ValueOps.parse DataType.Varchar (ValueOps.to_string (Value.Varchar "NULL")) = Ok None.
Proof. destruct c; cbn in Hc; subst; by vm_compute. Qed.
End Printable.

(** ** At concrete values *)

(** Integers stand for the third-party types; floats have no text. *)
Definition demo_text : leaf_text Z := Leaf (fun s => ok_or s (i64_from_str s)) i64_to_string.
#[export] Instance demo_scalars : Scalars := {|
  int_error s := "invalid digit found in string";
  f32_text := Leaf (fun s => Err s) (fun _ => "?");
  f64_text := Leaf (fun s => Err s) (fun _ => "?");
  Decimal_text := demo_text;
  NaiveTime_text := demo_text;
  NaiveDate_text := demo_text;
  Uuid_text := demo_text;
  hex_text := Leaf (fun s => Ok (chars s)) of_chars;
|}.
#[export] Instance demo_chrono : Chrono := {|
  east_opt z := if decide (Z.abs z < 86400)%Z then Some z else None;
  local_minus_utc z := z;
  parse_from_rfc3339 := i64_from_str;
  DateTime_parse_from_str _ _ := None;
  NaiveDateTime_parse_from_str _ _ := None;
  at_midnight z := (z * 86400)%Z;
  and_utc z := z;
  naive_utc z := z;
  to_rfc3339 := i64_to_string;
  Months_new z := z;
  as_u32 z := z;
  microseconds z := z;
  num_microseconds z := Some z;
|}.

(** A struct of a list of texts and a number *)
Definition nested_dtype : DataType := DataType.Struct [
  Column.new "names" (DataType.List (Column.new "element" DataType.Varchar));
  Column.new "n" DataType.Int64].
Definition nested_value : Value := Value.Struct [
  ("n", Some (Value.Int64 7));
  ("names", Some (Value.List [Some (Value.Varchar "it's, [so]"); None; Some (Value.Varchar "")]))].

Ltac by_survives := apply (bool_decide_unpack _); vm_compute; exact I.

Lemma nested_value_printable : printable nested_dtype nested_value.
Proof.
  split; [by apply (bool_decide_unpack _); vm_compute|].
  apply Forall_cons; split; [|apply Forall_singleton];
    (split_and!; [by_survives|by_survives|]); [by vm_compute|].
  split_and!; [|repeat (apply Forall_cons; split; [by_survives|]); constructor|done].
  repeat (apply Forall_cons; split); by try constructor.
Qed.

Lemma printable_values_roundtrip_witness :
  ValueOps.to_string nested_value = "{n: 7, names: '[\'it\\\'s, [so]\', NULL, ]'}" /\
  ValueOps.parse nested_dtype (ValueOps.to_string nested_value) = Ok (Some nested_value).
Proof.
  split; [vm_compute; reflexivity|].
  exact (printable_values_roundtrip nested_dtype nested_value nested_value_printable).
Defined.

Lemma unprintable_values_change_witness :
  ValueOps.parse (DataType.List (Column.new "element" DataType.Varchar))
    (ValueOps.to_string (Value.List [Some (Value.Varchar "["); Some (Value.Varchar "a")])) =
  Ok (Some (Value.List [Some (Value.Varchar "[, a")])).
Proof.
  exact (proj1 (unprintable_values_change (Column.new "element" DataType.Varchar) eq_refl)).
Defined.
