(* ===== verification/IntervalFacts.v ===== *)
(** * Intervals as text

    The text of an interval is read as that interval with its time taken modulo
    100 hours: the pattern of the time takes two digits for the hours. *)

From Stdlib Require Import SpecFloat DecimalPos.
From S2P Require Import Prelude Text Regex Identifier Types Instances Literals LiteralFacts Values ValueFacts.

(** ** Digits and their value *)

Definition digits (t : text) : Prop := Forall (fun c => is_digit c = true) t.
Definition digit_value (c : ascii) : Z := Z.of_nat (nat_of_ascii c) - 48.
Definition value_from (acc : Z) (t : text) : Z := foldl (fun acc c => 10 * acc + digit_value c)%Z acc t.
Definition value (t : text) : Z := value_from 0 t.

Lemma value_app t t' : value (t ++ t') = value_from (value t) t'.
Proof. apply foldl_app. Qed.

Lemma digit_cases c : is_digit c = true ->
  c ∈ ["0"; "1"; "2"; "3"; "4"; "5"; "6"; "7"; "8"; "9"]%char.
Proof.
  intros Hc; apply (bool_decide_unpack _); revert Hc; destruct c as [[] [] [] [] [] [] [] []]; by vm_compute.
Qed.

Lemma digit_value_range c : is_digit c = true -> (0 <= digit_value c <= 9)%Z.
Proof.
  intros Hc%digit_cases; repeat (apply elem_of_cons in Hc as [->|Hc]; [by vm_compute|]).
  by apply elem_of_nil in Hc.
Qed.

Lemma value_from_nonneg acc t : (0 <= acc)%Z -> digits t -> (acc <= value_from acc t)%Z.
Proof.
  intros Ha Ht; revert acc Ha; induction Ht as [|c t Hc Ht IH]; intros acc Ha; [done|].
  change (value_from acc (c :: t)) with (value_from (10 * acc + digit_value c) t).
  apply digit_value_range in Hc; specialize (IH (10 * acc + digit_value c)%Z); lia.
Qed.

(** The decimal text of [Stdlib]'s numbers *)
Lemma uint_digits u : digits (chars (NilEmpty.string_of_uint u)).
Proof. induction u; constructor; done. Qed.

Lemma uint_value_acc u p :
  value_from (Z.pos p) (chars (NilEmpty.string_of_uint u)) = Z.pos (Pos.of_uint_acc u p).
Proof.
  revert p; induction u as [|u IH|u IH|u IH|u IH|u IH|u IH|u IH|u IH|u IH|u IH]; intros p;
    [done|..]; cbn [NilEmpty.string_of_uint chars Pos.of_uint_acc]; rewrite <- IH;
    unfold value_from; cbn [foldl]; f_equal;
    match goal with |- context [digit_value ?c] =>
      let v := eval vm_compute in (digit_value c) in change (digit_value c) with v end; lia.
Qed.

Lemma uint_value u : value (chars (NilEmpty.string_of_uint u)) = Z.of_uint u.
Proof.
  unfold value, Z.of_uint.
  induction u as [|u IH|u _|u _|u _|u _|u _|u _|u _|u _|u _]; [done|exact IH|..];
    cbn [NilEmpty.string_of_uint chars Pos.of_uint Z.of_N]; rewrite <- uint_value_acc; done.
Qed.

(** Every text of digits is one. *)
Lemma digits_uint t : digits t -> exists u, chars (NilEmpty.string_of_uint u) = t.
Proof.
  induction 1 as [|c t Hc Ht [u <-]]; [by exists Decimal.Nil|]; apply digit_cases in Hc.
  repeat (apply elem_of_cons in Hc as [->|Hc]).
  - by exists (Decimal.D0 u).
  - by exists (Decimal.D1 u).
  - by exists (Decimal.D2 u).
  - by exists (Decimal.D3 u).
  - by exists (Decimal.D4 u).
  - by exists (Decimal.D5 u).
  - by exists (Decimal.D6 u).
  - by exists (Decimal.D7 u).
  - by exists (Decimal.D8 u).
  - by exists (Decimal.D9 u).
  - by apply elem_of_nil in Hc.
Qed.

(** ** Numbers *)

Lemma digits_no_sign c t : digits (c :: t) -> c <> "+"%char /\ c <> "-"%char.
Proof. intros [Hc _]%Forall_cons; split; by intros ->. Qed.

Lemma int_of_digits min max t : digits t -> t <> [] -> (min <= value t <= max)%Z ->
  int_from_str min max (of_chars t) = Some (value t).
Proof.
  intros Ht Hne Hr; destruct (digits_uint t Ht) as [u Hu].
  assert (of_chars t = NilEmpty.string_of_uint u) as Hs by (by rewrite <- Hu, of_chars_chars).
  assert (Z.of_int (Decimal.Pos u) = value t) as Hv by (by rewrite <- Hu, uint_value).
  rewrite <- Hv; apply int_from_str_digits; [rewrite Hs; apply (NilEmpty.isi (Decimal.Pos u))| |by rewrite Hv].
  destruct t as [|c t]; [done|]; exists c, (of_chars t).
  destruct (digits_no_sign c t Ht); split_and!; [done|done|]; by intros ->.
Qed.

Lemma uint_of_digits max t : digits t -> t <> [] -> (value t <= max)%Z ->
  uint_from_str max (of_chars t) = Some (value t).
Proof.
  intros Ht Hne Hr; destruct (digits_uint t Ht) as [u Hu].
  assert (of_chars t = NilEmpty.string_of_uint u) as Hs by (by rewrite <- Hu, of_chars_chars).
  assert (Z.of_uint u = value t) as Hv by (by rewrite <- Hu, uint_value).
  destruct t as [|c t]; [done|]; destruct (digits_no_sign c t Ht) as [Hp _].
  unfold uint_from_str; cbn [of_chars]; rewrite decide_False by done; cbn [mbind option_bind].
  change (String c (of_chars t)) with (of_chars (c :: t)); rewrite Hs, NilEmpty.usu; cbn [mbind option_bind].
  rewrite Hv; by rewrite decide_True by done.
Qed.

Lemma length_chars s : length (chars s) = String.length s.
Proof. induction s as [|c s IH]; [done|]; cbn [chars length String.length]; by rewrite IH. Qed.

(** The digits of a number *)
Definition number_text (z : Z) : text := chars (i64_to_string z).

Lemma number_text_spec z : (0 <= z)%Z ->
  digits (number_text z) /\ number_text z <> [] /\ value (number_text z) = z.
Proof.
  intros Hz; destruct (uint_shape z Hz) as (u & Hs & Hnil & Hv); unfold number_text; rewrite Hs.
  split_and!; [apply uint_digits| |by rewrite uint_value].
  destruct (string_of_uint_head u Hnil) as (c & s & -> & _); done.
Qed.

Lemma zeros_digits n : digits (repeat "0"%char n).
Proof. induction n; constructor; done. Qed.
Lemma value_zeros n t : value (repeat "0"%char n ++ t) = value t.
Proof. induction n as [|n IH]; [done|exact IH]. Qed.

Lemma zero_padded_spec w z : (0 <= z)%Z ->
  let t := chars (times.zero_padded w z) in
  digits t /\ t <> [] /\ value t = z /\ w <= length t.
Proof.
  intros Hz; unfold times.zero_padded; rewrite decide_True by done; rewrite chars_append, chars_of_chars.
  fold (number_text z); destruct (number_text_spec z Hz) as (Hd & Hne & Hv); split_and!.
  - apply Forall_app; split; [apply zeros_digits|done].
  - intros [_ ?]%app_eq_nil; done.
  - by rewrite value_zeros.
  - rewrite length_app, repeat_length; unfold number_text.
    rewrite length_chars; lia.
Qed.

(** Values as positional numbers *)
Lemma value_from_shift acc t :
  value_from acc t = (acc * 10 ^ Z.of_nat (length t) + value t)%Z.
Proof.
  revert acc; unfold value; induction t as [|c t IH]; intros acc; [cbn; lia|].
  change (value_from ?a (c :: t)) with (value_from (10 * a + digit_value c) t).
  rewrite (IH (10 * acc + _)%Z), (IH (10 * 0 + _)%Z); cbn [length].
  rewrite Nat2Z.inj_succ, Z.pow_succ_r; lia.
Qed.
Lemma value_range t : digits t -> (0 <= value t < 10 ^ Z.of_nat (length t))%Z.
Proof.
  intros Ht; induction t as [|c t IH]; [done|]; apply Forall_cons in Ht as [Hc Ht].
  change (value (c :: t)) with (value_from (10 * 0 + digit_value c) t).
  rewrite value_from_shift; apply digit_value_range in Hc; specialize (IH Ht).
  cbn [length]; rewrite Nat2Z.inj_succ, Z.pow_succ_r; nia.
Qed.

(** The number of the last digits *)
Lemma value_last t n : digits t -> n <= length t -> exists t1 t2,
  t = t1 ++ t2 /\ length t2 = n /\ digits t1 /\ digits t2 /\ value t2 = (value t mod 10 ^ Z.of_nat n)%Z.
Proof.
  intros Ht Hn; exists (take (length t - n) t), (drop (length t - n) t).
  assert (length (drop (length t - n) t) = n) as Hlen by (rewrite length_drop; lia).
  rewrite take_drop; split_and!; [done|done|by apply Forall_take|by apply Forall_drop|].
  pose proof (f_equal value (take_drop (length t - n) t)) as Hv.
  rewrite value_app, value_from_shift, Hlen in Hv; rewrite <- Hv.
  rewrite Z.add_comm, Z_mod_plus_full, Z.mod_small; [done|].
  pose proof (value_range (drop (length t - n) t)) as Hr; rewrite Hlen in Hr.
  by apply Hr, Forall_drop.
Qed.

(** ** Searching *)

Section Searching.
Context `{ENG : !RegexEngine}.

(** Without a match at the characters of [p], the search goes on behind them. *)
Lemma search_skip r p t fuel : length (p ++ t) <= fuel ->
  (forall q1 q2, p = q1 ++ q2 -> q2 <> [] -> steps r (q2 ++ t) ∅ = []) ->
  captures_iter_go fuel r (p ++ t) = captures_iter_go (fuel - length p) r t.
Proof.
  revert fuel; induction p as [|c p IH]; intros fuel Hf Hno; [by rewrite Nat.sub_0_r|].
  destruct fuel as [|fuel]; [cbn in Hf; lia|]; cbn [app captures_iter_go length Nat.sub].
  change (c :: p ++ t) with ((c :: p) ++ t); rewrite (Hno [] (c :: p)) by done.
  apply IH; [cbn in Hf; lia|]; intros q1 q2 Hq; by apply (Hno (c :: q1)); rewrite Hq.
Qed.

Lemma search_found r p t t' caps l :
  (forall q1 q2, p = q1 ++ q2 -> q2 <> [] -> steps r (q2 ++ t) ∅ = []) ->
  steps r t ∅ = (t', caps) :: l -> length t' < length t ->
  times.search r (of_chars (p ++ t)) = Some caps.
Proof.
  intros Hno Hs Hlen; unfold times.search; rewrite captures_iter_doc; unfold captures_of.
  rewrite chars_of_chars, search_skip by done; rewrite length_app.
  replace (length p + length t - length p) with (length t) by lia.
  destruct t as [|c t]; [cbn in Hlen; lia|]; cbn [length captures_iter_go].
  rewrite Hs; by rewrite decide_True.
Qed.

Lemma search_none r t :
  (forall q1 q2, t = q1 ++ q2 -> q2 <> [] -> steps r q2 ∅ = []) ->
  times.search r (of_chars t) = None.
Proof.
  intros Hno; unfold times.search; rewrite captures_iter_doc; unfold captures_of; rewrite chars_of_chars.
  rewrite <- (app_nil_r t) at 2; rewrite search_skip; [|by rewrite app_nil_r|].
  - by rewrite Nat.sub_diag.
  - intros q1 q2; rewrite app_nil_r; apply Hno.
Qed.

(** No word of the expression is at the start. *)
Lemma no_steps r t : (forall w t', t = w ++ t' -> ~ matches r w) -> steps r t ∅ = [].
Proof.
  intros Hno; destruct (steps r t ∅) as [|[t' caps] l] eqn:E; [done|].
  assert ((t', caps) ∈ steps r t ∅) as (w & Hw & Hm & _)%steps_sound by (rewrite E; left).
  by apply (Hno w t') in Hm.
Qed.
End Searching.

(** ** The patterns *)

Lemma matches_plus t : matches (Plus times.digit) t -> digits t /\ t <> [].
Proof.
  unfold Plus, times.digit; inversion 1 as [| |r1 r2 t1 t2 H1 H2| | | | |]; subst.
  inversion H1 as [|p c Hc| | | | | |]; subst; split; [|done]; constructor; [done|].
  remember (Star (Chr is_digit)) as r eqn:E; revert E; clear -H2.
  induction H2 as [| | | | |r|r t1 t2 H1 _ H2 IH|]; intros E; try done.
  injection E as ->; inversion H1; subst; constructor; [done|by apply IH].
Qed.

Lemma matches_word_go t w : matches (foldr (fun c r => Cat (Lit c) r) Eps t) w -> w = t.
Proof.
  revert w; induction t as [|c t IH]; intros w Hw; cbn in Hw; [by inversion Hw|].
  inversion Hw as [| |r1 r2 t1 t2 H1 H2| | | | |]; subst.
  apply lit_pattern_matches in H1 as ->; by rewrite (IH _ H2).
Qed.

Lemma word_steps s rest caps : steps (times.Word s) (chars s ++ rest) caps = [(rest, caps)].
Proof.
  unfold times.Word; induction (chars s) as [|c t IH]; [done|]; cbn [app foldr steps Lit].
  rewrite bool_decide_true by done; cbn [mbind list_bind app]; by rewrite IH.
Qed.

(** A number, a space and the name of the unit *)
Definition unit_text (name : string) (z : Z) : text :=
  number_text z ++ chars (" " +:+ name) ++ (if decide (1 < z)%Z then ["s"%char] else []).

Lemma unit_text_chars name z : chars (times.format_singular_plural name z) = unit_text name z.
Proof.
  unfold times.format_singular_plural, unit_text; case_decide; rewrite !chars_append; cbn [chars app];
    by rewrite ?app_nil_r, <- ?app_assoc.
Qed.

Lemma unit_matches name w : matches (times.RE_UNIT name) w ->
  exists ds rest, w = ds ++ chars (" " +:+ name) ++ rest /\ digits ds /\ ds <> [].
Proof.
  unfold times.RE_UNIT; inversion 1 as [| |r1 r2 t1 t2 H1 H2| | | | |]; subst.
  inversion H1 as [| | | | | | |i r t Hp]; subst; apply matches_plus in Hp as [Hd Hne].
  inversion H2 as [| |r1 r2 t3 t4 H3 H4| | | | |]; subst; apply matches_word_go in H3 as ->; eauto.
Qed.

Lemma not_in_digits c ds : is_digit c = false -> digits ds -> c ∉ ds.
Proof.
  intros Hc Hd Hin; unfold digits in Hd; rewrite Forall_forall in Hd; specialize (Hd c Hin); congruence.
Qed.
Lemma space_not_digit ds : digits ds -> " "%char ∉ ds.
Proof. by apply not_in_digits. Qed.

Lemma take_front (a b : text) : take (length (a ++ b) - length b) (a ++ b) = a.
Proof. rewrite length_app, Nat.add_sub; apply take_app_length. Qed.

Section Patterns.
Context `{ENG : !RegexEngine}.

Lemma unit_found name D R : digits D -> D <> [] -> exists t' l,
  steps (times.RE_UNIT name) (D ++ chars (" " +:+ name) ++ R) ∅ = (t', <[1 := D]> ∅) :: l /\
  length t' < length (D ++ chars (" " +:+ name) ++ R).
Proof.
  intros Hd Hne; destruct D as [|c D]; [done|]; unfold times.RE_UNIT; cbn [steps].
  destruct (plus_chr_greedy is_digit c D (chars (" " +:+ name) ++ R) ∅ Hd) as [l Hl].
  { by intros ? [= <-]. }
  unfold times.digit; rewrite Hl; cbn [mbind list_bind app].
  pose proof (take_front (c :: D) (chars (" " +:+ name) ++ R)) as Hfront; cbn [app] in Hfront.
  rewrite Hfront, word_steps; cbn [mbind list_bind app].
  unfold times.Opt; cbn [steps Lit].
  assert (forall t' : text, length t' <= length R ->
    length t' < length (c :: D ++ chars (" " +:+ name) ++ R)) as Hlen.
  { intros t' Ht'; cbn; rewrite !length_app; lia. }
  destruct R as [|d R]; [eexists [], _; split; [done|by apply Hlen]|].
  destruct (bool_decide (d = "s"%char)).
  - eexists R, _; split; [done|]; apply Hlen; cbn; lia.
  - eexists (d :: R), _; split; [done|]; by apply Hlen.
Qed.

Lemma unit_absent name c n t : chars name = c :: n -> c ∉ t ->
  times.search (times.RE_UNIT name) (of_chars t) = None.
Proof.
  intros Hname Hc; apply search_none; intros q1 q2 -> _; apply no_steps.
  intros w t' -> (ds & rest & -> & _)%unit_matches; apply Hc.
  rewrite chars_append, Hname; cbn [chars app]; rewrite !elem_of_app, !elem_of_cons; tauto.
Qed.

(** No unit starts within digits that another unit follows, nor within that. *)
Lemma unit_skip name c n Y c' N B : chars name = c :: n -> c' <> c -> digits Y ->
  Forall (fun c => is_digit c = false) (" "%char :: c' :: N) ->
  forall q1 q2, Y ++ " "%char :: c' :: N = q1 ++ q2 -> q2 <> [] ->
  steps (times.RE_UNIT name) (q2 ++ B) ∅ = [].
Proof.
  intros Hname Hc' HY HN q1 q2 Hq Hne; apply no_steps.
  intros w t' Hw (ds & rest & -> & Hds & Hdne)%unit_matches; rewrite <- app_assoc in Hw.
  rewrite chars_append, Hname in Hw; cbn [chars app] in Hw.
  apply app_eq_inv in Hq as [(k & -> & ->)|(k & -> & Hk)].
  - rewrite <- app_assoc in Hw; apply Forall_app in HY as [_ HY].
    apply not_elem_of_app_cons_inv_l in Hw as (_ & _ & Hw); [|by apply space_not_digit..].
    by injection Hw.
  - destruct q2 as [|d q2]; [done|]; rewrite Hk in HN; apply Forall_app in HN as [_ [Hd _]%Forall_cons].
    destruct ds as [|e ds]; [done|]; injection Hw as <- _; apply Forall_cons in Hds as [He _]; congruence.
Qed.

(** The pattern of the time *)
Lemma two_matches i t : matches (times.two i) t ->
  exists a b, t = [a; b] /\ is_digit a = true /\ is_digit b = true.
Proof.
  unfold times.two; inversion 1 as [| | | | | | |i' r t' Hp]; subst; inversion Hp as [| |r1 r2 t1 t2 H1 H2| | | | |]; subst.
  inversion H1; inversion H2; subst; eexists _, _; eauto.
Qed.

Lemma delta_matches w : matches times.RE_DELTA w ->
  exists a b rest, w = a :: b :: ":"%char :: rest.
Proof.
  unfold times.RE_DELTA; inversion 1 as [| |r1 r2 t1 t2 H1 H2| | | | |]; subst.
  apply two_matches in H1 as (a & b & -> & _).
  inversion H2 as [| |r1 r2 t3 t4 H3 H4| | | | |]; subst; apply lit_pattern_matches in H3 as ->.
  by exists a, b, t4.
Qed.

Lemma delta_absent t : ":"%char ∉ t -> times.search times.RE_DELTA (of_chars t) = None.
Proof.
  intros Hc; apply search_none; intros q1 q2 -> _; apply no_steps.
  intros w t' -> (a & b & rest & ->)%delta_matches; apply Hc; set_solver.
Qed.

Lemma delta_skip P a b B : ":"%char ∉ P ++ [a; b] ->
  forall q1 q2, P = q1 ++ q2 -> q2 <> [] -> steps times.RE_DELTA (q2 ++ a :: b :: B) ∅ = [].
Proof.
  intros Hc q1 q2 -> Hne; apply no_steps; intros w t' Hw (d & e & rest & ->)%delta_matches.
  destruct q2 as [|x [|y [|z q2]]]; [done|..]; cbn in Hw; simplify_eq; apply Hc; set_solver.
Qed.
Lemma two_found i a b R caps : is_digit a = true -> is_digit b = true ->
  steps (times.two i) (a :: b :: R) caps = [(R, <[i := [a; b]]> caps)].
Proof.
  intros Ha Hb; unfold times.two, times.digit; cbn [steps]; rewrite Ha; cbn [mbind list_bind app].
  rewrite Hb; cbn [mbind list_bind app]; pose proof (take_front [a; b] R) as Hf; cbn [app] in Hf; by rewrite Hf.
Qed.

Lemma up_to_found n F caps : digits F -> length F <= n ->
  exists l, steps (times.up_to n) F caps = ([], caps) :: l.
Proof.
  revert F; induction n as [|n IH]; intros F HF Hn; [destruct F; [by eexists|cbn in Hn; lia]|].
  cbn [times.up_to]; unfold times.Opt, times.digit; cbn [steps].
  destruct F as [|c F]; [by eexists|]; apply Forall_cons in HF as [Hc HF]; rewrite Hc.
  cbn [mbind list_bind app]; destruct (IH F HF) as [l Hl]; [cbn in Hn; lia|]; rewrite Hl; by eexists.
Qed.

(** The fraction of a second, if there is one *)
Definition fraction (F : text) : text := match F with [] => [] | _ => "."%char :: F end.
Definition delta_groups (a b m1 m2 s1 s2 : ascii) (F : text) : groups :=
  let caps := <[3 := [s1; s2]]> (<[2 := [m1; m2]]> (<[1 := [a; b]]> ∅)) in
  match F with [] => caps | _ => <[4 := F]> caps end.

Lemma delta_groups_get a b m1 m2 s1 s2 F :
  times.group 1 (delta_groups a b m1 m2 s1 s2 F) = Some (of_chars [a; b]) /\
  times.group 2 (delta_groups a b m1 m2 s1 s2 F) = Some (of_chars [m1; m2]) /\
  times.group 3 (delta_groups a b m1 m2 s1 s2 F) = Some (of_chars [s1; s2]) /\
  times.group 4 (delta_groups a b m1 m2 s1 s2 F) = match F with [] => None | _ => Some (of_chars F) end.
Proof. by destruct F. Qed.

Lemma delta_found a b m1 m2 s1 s2 F : digits [a; b; m1; m2; s1; s2] -> digits F -> length F <= 6 ->
  exists l, steps times.RE_DELTA
    (a :: b :: ":"%char :: m1 :: m2 :: ":"%char :: s1 :: s2 :: fraction F) ∅ =
    ([], delta_groups a b m1 m2 s1 s2 F) :: l.
Proof.
  intros Hd HF Hlen; unfold digits in Hd; rewrite !Forall_cons in Hd.
  destruct Hd as (? & ? & ? & ? & ? & ? & _); unfold times.RE_DELTA; cbn [steps].
  rewrite two_found by done; cbn [mbind list_bind app steps Lit].
  rewrite bool_decide_true by done; cbn [mbind list_bind app].
  rewrite two_found by done; cbn [mbind list_bind app steps Lit].
  rewrite bool_decide_true by done; cbn [mbind list_bind app].
  rewrite two_found by done; cbn [mbind list_bind app]; unfold times.Opt; cbn [steps Lit].
  destruct F as [|c F]; [by eexists|]; cbn [fraction]; apply Forall_cons in HF as [Hc HF].
  rewrite bool_decide_true by done; cbn [mbind list_bind app]; unfold times.digit; cbn [steps].
  rewrite Hc; cbn [mbind list_bind app].
  destruct (up_to_found 5 F (<[3 := [s1; s2]]> (<[2 := [m1; m2]]> (<[1 := [a; b]]> ∅))) HF) as [l Hl];
    [cbn in Hlen; lia|].
  unfold times.digit in Hl; rewrite Hl; cbn [mbind list_bind app].
  pose proof (take_front (c :: F) []) as Hfront; rewrite app_nil_r in Hfront; rewrite Hfront; by eexists.
Qed.
End Patterns.

(** ** The length of a number *)

Lemma unorm_length u : length (chars (NilEmpty.string_of_uint (Decimal.unorm u))) <=
  Nat.max 1 (length (chars (NilEmpty.string_of_uint u))).
Proof.
  assert (length (chars (NilEmpty.string_of_uint (Decimal.nzhead u))) <=
    length (chars (NilEmpty.string_of_uint u))) as Hnz.
  { induction u; cbn in *; lia. }
  unfold Decimal.unorm; destruct (Decimal.nzhead u); cbn in *; lia.
Qed.

Lemma number_text_length z n : (0 <= z < 10 ^ Z.of_nat n)%Z -> 1 <= n -> length (number_text z) <= n.
Proof.
  intros Hz Hn; destruct (decide (length (number_text z) <= n)) as [|Hlen]; [done|].
  destruct (number_text_spec z) as (Hd & _ & Hv); [lia|].
  destruct (value_last (number_text z) n Hd) as (t1 & t2 & _ & Hl2 & _ & Hd2 & Hv2); [lia|].
  rewrite Hv, Z.mod_small in Hv2 by done; destruct (digits_uint t2 Hd2) as [u Hu].
  assert (i64_to_string z = NilEmpty.string_of_uint (Decimal.unorm u)) as Hs.
  { unfold i64_to_string; rewrite <- Hv2, <- Hu, uint_value.
    change (Z.of_uint u) with (Z.of_int (Decimal.Pos u)); by rewrite DecimalZ.to_of. }
  unfold number_text; rewrite Hs; pose proof (unorm_length u) as Hun; rewrite Hu in Hun; lia.
Qed.

Lemma zero_padded_length w z : (0 <= z < 10 ^ Z.of_nat w)%Z -> 1 <= w ->
  length (chars (times.zero_padded w z)) = w.
Proof.
  intros Hz Hw; pose proof (number_text_length z w Hz Hw) as Hlen; unfold number_text in Hlen.
  unfold times.zero_padded; rewrite decide_True, chars_append, chars_of_chars by lia.
  rewrite length_chars in *; rewrite length_app, repeat_length, length_chars; lia.
Qed.

(** ** The time of an interval *)

Lemma drop_zeros_spec t : exists n, t = repeat "0"%char n ++ times.drop_zeros t.
Proof.
  induction t as [|c t [n IH]]; [by exists 0|]; cbn [times.drop_zeros].
  case_decide as Hc; [|by exists 0]; subst; exists (S n); cbn; by rewrite IH at 1.
Qed.

Lemma repeat_reverse {A} (a : A) n : reverse (repeat a n) = repeat a n.
Proof.
  induction n as [|n IH]; [done|]; cbn [repeat]; rewrite reverse_cons, IH.
  clear IH; induction n as [|n IH]; [done|]; cbn; by rewrite IH.
Qed.

(** Without its zeros at the end, and with them again *)
Lemma trim_zeros_spec s : exists n, chars s = chars (times.trim_zeros s) ++ repeat "0"%char n.
Proof.
  unfold times.trim_zeros; rewrite chars_of_chars.
  destruct (drop_zeros_spec (reverse (chars s))) as [n Hn]; exists n.
  rewrite <- (reverse_involutive (chars s)) at 1; rewrite Hn at 1; by rewrite reverse_app, repeat_reverse.
Qed.
Lemma padded_trim s w : length (chars s) = w ->
  times.padded_right w (times.trim_zeros s) = s.
Proof.
  intros <-; destruct (trim_zeros_spec s) as [n Hn]; unfold times.padded_right.
  apply (inj chars); rewrite chars_append, chars_of_chars.
  pose proof (f_equal length Hn) as Hlen; rewrite length_app, repeat_length in Hlen.
  rewrite <- length_chars; replace (length (chars s) - length (chars (times.trim_zeros s))) with n by lia.
  by symmetry.
Qed.

(** The digits of the fraction of [u] microseconds *)
Lemma fraction_spec u : (0 < u < 1000000)%Z ->
  let F := chars (times.trim_zeros (times.zero_padded 6 u)) in
  digits F /\ F <> [] /\ length F <= 6 /\
  i64_from_str (times.padded_right 6 (of_chars F)) = Some u.
Proof.
  intros Hu; cbn zeta; destruct (zero_padded_spec 6 u) as (Hd & Hne & Hv & _); [lia|].
  assert (length (chars (times.zero_padded 6 u)) = 6) as Hlen by (by apply zero_padded_length; lia).
  destruct (trim_zeros_spec (times.zero_padded 6 u)) as [n Hn].
  rewrite of_chars_chars, padded_trim by done; split_and!.
  - rewrite Hn in Hd; by apply Forall_app in Hd as [? _].
  - intros HF; rewrite HF in Hn; cbn [app] in Hn; rewrite Hn, <- (app_nil_r (repeat _ n)), value_zeros in Hv.
    cbn in Hv; lia.
  - rewrite Hn, length_app in Hlen; lia.
  - rewrite <- (of_chars_chars (times.zero_padded 6 u)); unfold i64_from_str.
    rewrite int_of_digits; [by rewrite Hv|done|done|rewrite Hv; unfold i64_min, i64_max; lia].
Qed.

(** Two digits *)
Lemma two_digits z : (0 <= z < 100)%Z -> exists a b,
  chars (times.zero_padded 2 z) = [a; b] /\ digits [a; b] /\ value [a; b] = z.
Proof.
  intros Hz; destruct (zero_padded_spec 2 z) as (Hd & _ & Hv & _); [lia|].
  assert (length (chars (times.zero_padded 2 z)) = 2) as Hlen by (by apply zero_padded_length; lia).
  destruct (chars (times.zero_padded 2 z)) as [|a [|b [|]]]; try done; by exists a, b.
Qed.
Lemma two_digits_read `{SCALARS : Scalars} a b : digits [a; b] ->
  times.number i64_from_str (of_chars [a; b]) = Ok (value [a; b]).
Proof.
  intros Hd; unfold times.number, i64_from_str; pose proof (value_range _ Hd) as Hr; cbn [length] in Hr.
  rewrite int_of_digits; [done|done|done|unfold i64_min, i64_max; lia].
Qed.

Section Micros.
Context `{EXT : External} `{ENG : !RegexEngine} `{SCALARS : !Scalars} `{CHRONO : !Chrono}.

(** The text of a time, with the last two digits of its hours *)
Lemma micros_text us : (0 <= us)%Z -> exists X a b m1 m2 s1 s2 F,
  chars (times.format_interval_microseconds us) =
    (X ++ a :: b :: ":"%char :: m1 :: m2 :: ":"%char :: s1 :: s2 :: fraction F) /\
  digits X /\ digits [a; b] /\ digits [m1; m2] /\ digits [s1; s2] /\ digits F /\ length F <= 6 /\
  value [a; b] = (us / 3600000000 mod 100)%Z /\
  value [m1; m2] = (us mod 3600000000 / 60000000)%Z /\
  value [s1; s2] = (us mod 60000000 / 1000000)%Z /\
  (F = [] /\ (us mod 1000000 = 0)%Z \/
   F <> [] /\ i64_from_str (times.padded_right 6 (of_chars F)) = Some (us mod 1000000)%Z).
Proof.
  intros Hus; unfold times.format_interval_microseconds.
  destruct (zero_padded_spec 2 (us / 3600000000)) as (Hd & _ & Hv & Hlen); [by apply Z.div_pos|].
  destruct (value_last _ 2 Hd Hlen) as (X & [|a [|b [|]]] & HH & Hab & HX & Habd & Habv); try done.
  destruct (two_digits (us mod 3600000000 / 60000000)) as (m1 & m2 & HM & HMd & HMv).
  { split; [apply Z.div_pos; [by apply Z.mod_pos_bound|done]|].
    apply Z.div_lt_upper_bound; [done|]; pose proof (Z.mod_pos_bound us 3600000000); lia. }
  destruct (two_digits (us mod 60000000 / 1000000)) as (s1 & s2 & HS & HSd & HSv).
  { split; [apply Z.div_pos; [by apply Z.mod_pos_bound|done]|].
    apply Z.div_lt_upper_bound; [done|]; pose proof (Z.mod_pos_bound us 60000000); lia. }
  rewrite Hv in Habv; pose proof (Z.mod_pos_bound us 1000000) as Hmic.
  exists X, a, b, m1, m2, s1, s2.
  exists (if decide (0 < us mod 1000000)%Z
          then chars (times.trim_zeros (times.zero_padded 6 (us mod 1000000))) else []).
  assert (chars (times.zero_padded 2 (us / 3600000000) +:+ ":" +:+
    times.zero_padded 2 (us mod 3600000000 / 60000000) +:+ ":" +:+
    times.zero_padded 2 (us mod 60000000 / 1000000)) =
    X ++ [a; b; ":"%char; m1; m2; ":"%char; s1; s2]) as Htext.
  { rewrite !chars_append, HH, HM, HS; cbn [chars app]; by rewrite <- app_assoc. }
  case_decide as Hpos.
  - destruct (fraction_spec (us mod 1000000)) as (HF & HFne & HFlen & HFv); [lia|].
    rewrite chars_append, Htext; split_and!; try done; [|by right].
    rewrite <- app_assoc; cbn [app]; rewrite chars_append; cbn [chars app].
    by destruct (chars (times.trim_zeros _)).
  - rewrite Htext; split_and!; try done; [by constructor|cbn; lia|left; split; [done|lia]].
Qed.

Lemma micros_arith us : (0 <= us)%Z ->
  ((us / 3600000000 mod 100 * 3600 + us mod 3600000000 / 60000000 * 60 +
    us mod 60000000 / 1000000) * 1000000 + us mod 1000000 = us mod 360000000000)%Z.
Proof. intros Hus; Z.to_euclidean_division_equations; lia. Qed.

(** The time is read with its hours modulo 100, whatever is before it. *)
Lemma parse_micros_format P us : (0 <= us)%Z -> ":"%char ∉ P ->
  times.parse_micros (of_chars (P ++ chars (times.format_interval_microseconds us))) =
    Ok (us mod 360000000000)%Z.
Proof.
  intros Hus HP; destruct (micros_text us Hus) as (X & a & b & m1 & m2 & s1 & s2 & F & -> & HX & Hab & Hm & Hs &
    HF & Hlen & Vab & Vm & Vs & Hfrac).
  destruct (delta_found a b m1 m2 s1 s2 F) as [l Hl]; [|done..|].
  { unfold digits in *; by rewrite !Forall_cons in *; naive_solver. }
  assert (":"%char ∉ (P ++ X) ++ [a; b]) as Hcolon.
  { rewrite !not_elem_of_app; split_and!; [done|by apply not_in_digits..]. }
  unfold times.parse_micros.
  rewrite app_assoc, (search_found _ _ _ _ _ _ (delta_skip (P ++ X) a b _ Hcolon) Hl) by (cbn; lia).
  rewrite <- (micros_arith us Hus), <- Vab, <- Vm, <- Vs.
  destruct (delta_groups_get a b m1 m2 s1 s2 F) as (-> & -> & -> & ->); cbn [default id from_option].
  repeat (rewrite two_digits_read by done; cbn [mbind outcome_bind]).
  destruct F as [|c F].
  - by destruct Hfrac as [[_ ->]|[? _]].
  - destruct Hfrac as [[? _]|[_ Hf]]; [done|]; unfold times.number; by rewrite Hf.
Qed.

(** ** The months of an interval *)

Lemma unit_parsed name from_str P z R : (0 <= z)%Z -> from_str (i64_to_string z) = Some z ->
  (forall q1 q2, P = q1 ++ q2 -> q2 <> [] ->
     steps (times.RE_UNIT name) (q2 ++ unit_text name z ++ R) ∅ = []) ->
  times.parse_unit (times.RE_UNIT name) from_str (of_chars (P ++ unit_text name z ++ R)) = Ok z.
Proof.
  intros Hz Hread HP; destruct (number_text_spec z Hz) as (Hd & Hne & _); unfold times.parse_unit.
  set (sfx := if decide (1 < z)%Z then ["s"%char] else []).
  destruct (unit_found name (number_text z) (sfx ++ R) Hd Hne) as (t' & l & Hs & Hlen).
  assert (unit_text name z ++ R = number_text z ++ chars (" " +:+ name) ++ sfx ++ R) as Heq.
  { unfold unit_text; fold sfx; by rewrite <- !app_assoc. }
  rewrite (search_found _ _ _ t' (<[1 := number_text z]> ∅) l HP); [|by rewrite Heq..].
  unfold times.group, times.number, number_text; rewrite lookup_insert_eq; cbn [fmap option_fmap option_map default from_option id].
  rewrite of_chars_chars, Hread; done.
Qed.

Lemma unit_not_found name from_str c n t : chars name = c :: n -> c ∉ t ->
  times.parse_unit (times.RE_UNIT name) from_str (of_chars t) = Ok 0%Z.
Proof. intros Hname Hc; unfold times.parse_unit; by rewrite (unit_absent _ _ _ _ Hname Hc). Qed.

Lemma not_in_unit_text c name z : (0 <= z)%Z -> is_digit c = false -> c ∉ "s"%char :: chars (" " +:+ name) ->
  c ∉ unit_text name z.
Proof.
  intros Hz Hc Hn; destruct (number_text_spec z Hz) as (Hd & _); unfold unit_text.
  rewrite !not_elem_of_app; split_and!; [by apply not_in_digits|set_solver|case_decide; set_solver].
Qed.

Lemma not_in_micros c us : (0 <= us)%Z -> is_digit c = false -> c <> ":"%char -> c <> "."%char ->
  c ∉ chars (times.format_interval_microseconds us).
Proof.
  intros Hus Hc H1 H2; destruct (micros_text us Hus) as (X & a & b & m1 & m2 & s1 & s2 & F & -> & HX & Hab & Hm & Hs &
    HF & _); apply (not_in_digits c) in HX, Hab, Hm, Hs, HF; try done.
  assert (c ∉ fraction F) by (destruct F; [set_solver|cbn; set_solver]); set_solver.
Qed.

(** The text of the months, by their parts *)
Definition months_text (m : Z) : text :=
  let y := (m / 12)%Z in let mo := (m mod 12)%Z in
  (if decide (0 < y)%Z then unit_text "year" y else []) ++
  (if decide (0 < mo)%Z then (if decide (0 < y)%Z then [" "%char] else []) ++ unit_text "month" mo else []).

Lemma unit_text_not_nil name z : unit_text name z <> [].
Proof. unfold unit_text; rewrite chars_append; cbn; by destruct (number_text z). Qed.

Lemma months_text_chars m : chars (times.format_interval_months m) = months_text m.
Proof.
  unfold times.format_interval_months, months_text.
  destruct (decide (0 < m / 12)%Z), (decide (0 < m mod 12)%Z); rewrite ?chars_append, ?unit_text_chars, ?app_nil_r;
    try done.
  rewrite decide_False; [by rewrite chars_append, unit_text_chars, <- app_assoc|].
  intros Hnil; apply (f_equal chars) in Hnil; rewrite unit_text_chars in Hnil; by apply unit_text_not_nil in Hnil.
Qed.

Lemma not_in_months c m : (0 <= m)%Z -> is_digit c = false ->
  c ∉ chars "s year month" -> c ∉ months_text m.
Proof.
  intros Hm Hc Hn; unfold months_text; rewrite not_elem_of_app; split; case_decide; try apply not_elem_of_nil.
  - apply not_in_unit_text; [lia|done|]; cbn in *; set_solver.
  - rewrite not_elem_of_app; split; [case_decide; cbn in *; set_solver|].
    apply not_in_unit_text; [lia|done|]; cbn in *; set_solver.
Qed.

Section Parsed.
Context (m : Z) (Hm : (0 <= m < 2 ^ 32)%Z) (R : text).

Lemma years_parsed : "y"%char ∉ R ->
  times.parse_unit times.RE_YEARS times.u32_from_str (of_chars (months_text m ++ R)) = Ok (m / 12)%Z.
Proof.
  intros HR; pose proof (Z.div_pos m 12) as Hy; unfold months_text; case_decide as Hpos.
  - rewrite <- app_assoc; apply (unit_parsed "year" _ []); [lia| |by intros [|] ? [= ?]].
    apply uint_from_to_string; split; [lia|]; apply Z.div_le_upper_bound; lia.
  - replace (m / 12)%Z with 0%Z by lia; eapply unit_not_found; [done|]; cbn [app].
    rewrite not_elem_of_app; split; [|done]; case_decide; [|apply not_elem_of_nil].
    apply not_in_unit_text; [lia|done|]; cbn; set_solver.
Qed.

Lemma months_parsed : "m"%char ∉ R ->
  times.parse_unit times.RE_MONTHS times.u32_from_str (of_chars (months_text m ++ R)) = Ok (m mod 12)%Z.
Proof.
  intros HR; pose proof (Z.div_pos m 12) as Hy; pose proof (Z.mod_pos_bound m 12) as Hmo.
  unfold months_text; destruct (decide (0 < m mod 12)%Z) as [Hpos|].
  - assert (times.u32_from_str (i64_to_string (m mod 12)) = Some (m mod 12)%Z) as Hread.
    { apply uint_from_to_string; lia. }
    case_decide as Hyp; [|cbn [app]; by apply (unit_parsed "month" _ []); [lia|done|intros [|] ? [= ?]]].
    destruct (number_text_spec (m / 12)) as (Hd & _); [lia|].
    replace ((unit_text "year" (m / 12) ++ [" "%char] ++ unit_text "month" (m mod 12)) ++ R)
      with ((unit_text "year" (m / 12) ++ [" "%char]) ++ unit_text "month" (m mod 12) ++ R)
      by by rewrite <- !app_assoc.
    apply unit_parsed; [lia|done|]; unfold unit_text at 1; rewrite <- !app_assoc.
    apply (unit_skip "month" "m"%char (chars "onth") (number_text (m / 12)) "y"%char); [done|done|done|].
    case_decide; by repeat constructor.
  - replace (m mod 12)%Z with 0%Z by lia; eapply unit_not_found; [done|]; rewrite app_nil_r.
    rewrite not_elem_of_app; split; [|done]; case_decide; [|apply not_elem_of_nil].
    apply not_in_unit_text; [lia|done|]; cbn; set_solver.
Qed.

Lemma days_parsed : "d"%char ∉ R ->
  times.parse_unit times.RE_DAYS i64_from_str (of_chars (months_text m ++ R)) = Ok 0%Z.
Proof.
  intros HR; eapply unit_not_found; [done|]; rewrite not_elem_of_app; split; [|done].
  apply not_in_months; [lia|done|]; cbn; set_solver.
Qed.
End Parsed.
End Micros.

(** ** What [chrono] documents *)

Class ChronoLaws `{External} `{!Chrono} : Prop := {
  as_u32_new n : (0 <= n < 2 ^ 32)%Z -> as_u32 (Months_new n) = n;
  num_microseconds_of z : in_i64 z -> num_microseconds (microseconds z) = Some z;
  microseconds_eqb a b : in_i64 a -> in_i64 b ->
    leaf_eqb TimeDelta (microseconds a) (microseconds b) = Z.eqb a b;
  local_minus_utc_east z o : east_opt z = Some o -> local_minus_utc o = z;
}.

Section Properties.
Context `{EXT : External} `{ENG : !RegexEngine} `{SCALARS : !Scalars} `{CHRONO : !Chrono} `{LAWS : !ChronoLaws}.

(** The text of an interval, by its parts *)
Definition interval_rest (m us : Z) : text :=
  if decide (us = 0)%Z then []
  else (match months_text m with [] => [] | _ => [" "%char] end) ++
       chars (times.format_interval_microseconds us).

Lemma interval_text m us : (0 <= m < 2 ^ 32)%Z -> (0 <= us <= i64_max)%Z ->
  times.format_Interval (Interval.mk (Months_new m) (microseconds us)) =
    of_chars (months_text m ++ interval_rest m us).
Proof.
  intros Hm Hus; assert (in_i64 us /\ in_i64 0) as [Hi H0] by (unfold in_i64, i64_min, i64_max in *; lia).
  unfold times.format_Interval, interval_rest; cbn [Interval.months Interval.delta].
  rewrite as_u32_new, microseconds_eqb, num_microseconds_of by done.
  destruct (Z.eqb_spec us 0) as [->|Hne].
  - rewrite decide_True, app_nil_r, <- months_text_chars by done; by rewrite of_chars_chars.
  - rewrite (decide_False (P := us = 0%Z)) by done; cbn [default from_option id].
    rewrite Z.mod_small by (unfold i64_max in Hus; lia); apply (inj chars); rewrite chars_of_chars.
    rewrite <- months_text_chars; case_decide as Hnil; [by rewrite Hnil|].
    rewrite !chars_append, <- app_assoc; destruct (times.format_interval_months m); [done|]; done.
Qed.

Lemma not_in_rest c m us : (0 <= us)%Z -> is_digit c = false -> c ∉ chars " :." -> c ∉ interval_rest m us.
Proof.
  intros Hus Hc Hn; unfold interval_rest; case_decide; [apply not_elem_of_nil|].
  rewrite not_elem_of_app; split; [destruct (months_text m); cbn in *; set_solver|].
  apply not_in_micros; try done; intros ->; apply Hn; cbn; set_solver.
Qed.

(** The text of an interval is read back as the interval with its time taken
    modulo 100 hours, whatever the months: the pattern of the time has two
    digits for the hours, and matches the last two of them. Intervals below 100
    hours round trip; of longer ones every multiple of 100 hours is lost. *)
Theorem interval_time_wraps (m us : Z) (Hm : (0 <= m < 2 ^ 32)%Z) (Hus : (0 <= us <= i64_max)%Z) :
  Literal.parse times.Interval_literal
    (Literal.format times.Interval_literal (Interval.mk (Months_new m) (microseconds us))) =
  Ok (Interval.mk (Months_new m) (microseconds (us mod 360000000000))).
Proof.
  cbn [times.Interval_literal Literal.parse Literal.format]; rewrite interval_text by done.
  unfold times.parse_Interval.
  rewrite years_parsed, months_parsed, days_parsed
    by first [done | apply not_in_rest; [lia|done|cbn; set_solver]].
  assert (times.parse_micros (of_chars (months_text m ++ interval_rest m us)) = Ok (us mod 360000000000)%Z) as ->.
  { assert (":"%char ∉ months_text m) as Hcolon by (apply not_in_months; [lia|done|cbn; set_solver]).
    unfold interval_rest; case_decide as H0.
    - rewrite app_nil_r; unfold times.parse_micros; rewrite delta_absent by done; by subst.
    - rewrite app_assoc; apply parse_micros_format; [lia|].
      rewrite not_elem_of_app; split; [done|]; destruct (months_text m); set_solver. }
  cbn [mbind outcome_bind]; unfold mret, outcome_ret; do 3 f_equal.
  - rewrite Z.mod_small; pose proof (Z.div_mod m 12); lia.
  - rewrite wrap64_id; [done|]; unfold in_i64, i64_min, i64_max.
    pose proof (Z.mod_pos_bound us 360000000000); lia.
Qed.

(** ** Offsets *)

Lemma search_steps r s caps : times.search r s = Some caps -> exists t t', (t', caps) ∈ steps r t ∅.
Proof.
  unfold times.search; rewrite captures_iter_doc; unfold captures_of.
  generalize (length (chars s)) as n; intros n; generalize (chars s) as t.
  induction n as [|n IH]; intros t; [done|]; destruct t as [|c t]; [done|]; cbn [captures_iter_go].
  destruct (steps r (c :: t) ∅) as [|[t' caps'] l] eqn:E; [apply IH|]; case_decide; [|apply IH].
  intros [= ->]; exists (c :: t), t'; rewrite E; left.
Qed.

Lemma two_steps t t' i caps caps' :
  (t', caps') ∈ steps (Group i (Cat times.digit times.digit)) t caps ->
  exists a b, digits [a; b] /\ caps' = <[i := [a; b]]> caps.
Proof.
  cbn [steps]; intros ([t1 c1] & [= -> ->]%list_elem_of_singleton & Hin)%list_elem_of_bind.
  apply (steps_sound (Cat times.digit times.digit)) in Hin as (w & -> & Hw & Hc); rewrite Hc by done.
  apply (m_group i), two_matches in Hw as (a & b & -> & Ha & Hb); exists a, b.
  split; [by repeat constructor|by rewrite take_front].
Qed.

Lemma i32_of_two a b : digits [a; b] -> (0 <= default 0%Z (times.i32_from_str (of_chars [a; b])))%Z.
Proof.
  intros Hd; pose proof (value_range _ Hd) as Hr; cbn [length] in Hr.
  unfold times.i32_from_str; rewrite int_of_digits; [apply Hr|done|done|].
  change (10 ^ Z.of_nat 2)%Z with 100%Z in Hr; lia.
Qed.

Lemma offset_nonneg s o : times.parse_offset s = Some o -> (0 <= local_minus_utc o)%Z.
Proof.
  unfold times.parse_offset; destruct (times.search times.RE_OFFSET s) as [caps|] eqn:Hs; [|done].
  cbn [mbind option_bind]; intros Ho%local_minus_utc_east; rewrite Ho.
  apply search_steps in Hs as (t & t' & Hin); unfold times.RE_OFFSET in Hin.
  apply list_elem_of_bind in Hin as ([t1 c1] & Hin & (a & b & Hab & ->)%two_steps).
  pose proof (i32_of_two a b Hab) as H1; unfold times.group.
  unfold times.Opt in Hin; cbn [steps] in Hin; apply elem_of_app in Hin as [Hin|[= -> ->]%list_elem_of_singleton].
  - apply list_elem_of_bind in Hin as ([t2 c2] & Hin & Hlit).
    apply (steps_sound (Lit ":"%char)) in Hlit as (w & _ & _ & Hc); rewrite Hc in Hin by done.
    apply (two_steps _ _ 2) in Hin as (d & e & Hde & ->); pose proof (i32_of_two d e Hde) as H2.
    rewrite lookup_insert_ne, !lookup_insert_eq by done; cbn [fmap option_fmap option_map mbind option_bind]; lia.
  - rewrite lookup_insert_eq, lookup_insert_ne, lookup_empty by done.
    cbn [fmap option_fmap option_map mbind option_bind default from_option id] in *; lia.
Qed.

(** No text is read as a time west of UTC: whatever is accepted has an offset
    of zero or more. The minus sign that is written for a negative offset is
    skipped by the pattern, or the text is refused. *)
Theorem parsed_offsets_are_not_negative (s : string) (v : TimeWithTimezone.t)
    (Hv : Literal.parse times.TimeWithTimezone_literal s = Ok v) :
  (0 <= local_minus_utc (TimeWithTimezone.offset v))%Z.
Proof.
  revert Hv; cbn [times.TimeWithTimezone_literal Literal.parse]; unfold times.parse_TimeWithTimezone.
  destruct (splitn2 "+"%char s) as [time [offset|]].
  - destruct (times.parse_offset offset) as [o|] eqn:Ho; cbn [ok_or mbind outcome_bind]; [|done].
    destruct (literals.parsing_error _) as [t| |]; cbn [mbind outcome_bind]; [|done..].
    unfold mret, outcome_ret; intros [= <-]; by eapply offset_nonneg.
  - destruct (literals.parsing_error _) as [t| |]; cbn [mbind outcome_bind]; [|done..].
    destruct (east_opt 0) as [o|] eqn:Ho; cbn [unwrap mbind outcome_bind]; [|done].
    unfold mret, outcome_ret; intros [= <-]; cbn [TimeWithTimezone.offset].
    by rewrite (local_minus_utc_east _ _ Ho).
Qed.
End Properties.

(** ** At concrete values *)

#[export] Instance demo_chrono_laws : ChronoLaws.
Proof.
  split; [done|done|done|]; intros z o; cbn; case_decide; [|done]; by intros [= ->].
Qed.

(** Five days are 120 hours and are read as 20 hours; fifteen months stay. *)
Lemma interval_time_wraps_witness :
  let v h : Interval.t := Interval.mk (15 : Z) (h * 3600000000 : Z)%Z in
  Literal.format times.Interval_literal (v 120%Z) = "1 year 3 months 120:00:00" /\
  Literal.parse times.Interval_literal (Literal.format times.Interval_literal (v 120%Z)) = Ok (v 20%Z).
Proof.
  split; [vm_compute; reflexivity|].
  refine (interval_time_wraps (EXT := demo_external) 15 (120 * 3600000000) _ _); vm_compute; split; congruence.
Defined.

(** A time ten hours west of UTC is read as ten hours east of it. *)
Lemma parsed_offsets_are_not_negative_witness :
  let v o : TimeWithTimezone.t := TimeWithTimezone.mk (42 : Z) (o : Z) in
  Literal.parse times.TimeWithTimezone_literal
    (Literal.format times.TimeWithTimezone_literal (v (-36000)%Z)) = Ok (v 36000%Z) /\
  (0 <= local_minus_utc (TimeWithTimezone.offset (v 36000)))%Z.
Proof.
  split; [vm_compute; reflexivity|].
  apply (parsed_offsets_are_not_negative (EXT := demo_external) "42+-10"); vm_compute; reflexivity.
Defined.
