(* ===== verification/ValueTyping.v ===== *)
(** * The values of a data type ([typedefs/value/parse.rs])

    What is read at a data type is a value of it, within the width of its
    integers, at every level of nesting. *)

From S2P Require Import Prelude Text Regex Identifier Types Instances Literals LiteralFacts Values ValueFacts.

Section Typing.
Context `{EXT : External} `{ENG : !RegexEngine} `{SCALARS : !Scalars} `{CHRONO : !Chrono}.

Definition nullable (P : Value -> Prop) (o : option Value) : Prop :=
  match o with Some v => P v | None => True end.

(** [has_type d v]: the variant and the width of [v] are those of [d]; a struct
    has entries for fields of the type only, a map has no null keys. *)
Fixpoint has_type (d : DataType) (v : Value) : Prop :=
  match d, v with
  | DataType.Boolean, Value.Boolean _ => True
  | DataType.Int8, Value.Int8 z => (- 2 ^ 7 <= z <= 2 ^ 7 - 1)%Z
  | DataType.Int16, Value.Int16 z => (- 2 ^ 15 <= z <= 2 ^ 15 - 1)%Z
  | DataType.Int32, Value.Int32 z => (- 2 ^ 31 <= z <= 2 ^ 31 - 1)%Z
  | DataType.Int64, Value.Int64 z => (i64_min <= z <= i64_max)%Z
  | DataType.Int128, Value.Int128 z => (- 2 ^ 127 <= z <= 2 ^ 127 - 1)%Z
  | DataType.UInt8, Value.UInt8 z => (0 <= z <= 2 ^ 8 - 1)%Z
  | DataType.UInt16, Value.UInt16 z => (0 <= z <= 2 ^ 16 - 1)%Z
  | DataType.UInt32, Value.UInt32 z => (0 <= z <= 2 ^ 32 - 1)%Z
  | DataType.UInt64, Value.UInt64 z => (0 <= z <= 2 ^ 64 - 1)%Z
  | DataType.UInt128, Value.UInt128 z => (0 <= z <= 2 ^ 128 - 1)%Z
  | DataType.Float32, Value.Float32 _ | DataType.Float64, Value.Float64 _
  | DataType.Decimal _ _, Value.Decimal _ | DataType.Time, Value.Time _ | DataType.TimeTz, Value.TimeTz _
  | DataType.Date, Value.Date _ | DataType.Timestamp _, Value.Timestamp _
  | DataType.TimestampTz, Value.TimestampTz _ | DataType.Interval, Value.Interval _
  | DataType.Varchar, Value.Varchar _ | DataType.Json, Value.Json _ | DataType.Blob, Value.Blob _
  | DataType.Uuid, Value.Uuid _ => True
  | DataType.List (DataType.mk_Column _ inner _ _ _ _ _), Value.List l => Forall (nullable (has_type inner)) l
  | DataType.Struct fields, Value.Struct m =>
      Forall (fun e =>
        (fix find (fields : list Column) : Prop :=
           match fields with
           | DataType.mk_Column name dtype _ _ _ _ _ :: fields =>
               if decide (name = e.1) then nullable (has_type dtype) e.2 else find fields
           | [] => False
           end) fields) m
  | DataType.Map (DataType.mk_Column _ key _ _ _ _ _) (DataType.mk_Column _ val _ _ _ _ _), Value.Map m =>
      Forall (fun e => has_type key e.1 /\ nullable (has_type val) e.2) m
  | _, _ => False
  end.

(** ** Leaves *)

Lemma int_from_str_range min max s z : int_from_str min max s = Some z -> (min <= z <= max)%Z.
Proof. unfold int_from_str. intros H. repeat case_match; simplify_option_eq; lia. Qed.
Lemma uint_from_str_range max s z : uint_from_str max s = Some z -> (0 <= z <= max)%Z.
Proof.
  unfold uint_from_str. intros H. assert (forall u, 0 <= Z.of_uint u)%Z as Hn by (intros u; apply N2Z.is_nonneg).
  repeat case_match; simplify_option_eq; auto with lia.
Qed.

(** [types d L make]: what the literals of [d] are made to has the type. *)
Definition makes {A} (d : DataType) (L : Literal A) (make : A -> Value) : Prop :=
  forall s a, Literal.parse L s = Ok a -> has_type d (make a).

Lemma makes_int d make min max :
  (forall z, (min <= z <= max)%Z -> has_type d (make z)) ->
  makes d (literals.str_literal (literals.int_text min max)) make.
Proof.
  intros Hd s z. cbn. unfold literals.parsing_error. destruct (int_from_str min max s) as [z'|] eqn:Hz; [|done].
  cbn. intros [= <-]. by eapply Hd, int_from_str_range.
Qed.
Lemma makes_uint d make max :
  (forall z, (0 <= z <= max)%Z -> has_type d (make z)) ->
  makes d (literals.str_literal (literals.uint_text max)) make.
Proof.
  intros Hd s z. cbn. unfold literals.parsing_error. destruct (uint_from_str max s) as [z'|] eqn:Hz; [|done].
  cbn. intros [= <-]. by eapply Hd, uint_from_str_range.
Qed.

Definition typed (d : DataType) : Prop := forall s o,
  ValueOps.parse d s = Ok o -> nullable (has_type d) o /\ (o = None <-> s = NULL_STRING).

Lemma typed_as {A} d (L : Literal A) make :
  ValueOps.parse d = ValueOps.parse_as L make -> makes d L make -> typed d.
Proof.
  intros Hp Hm s o. rewrite Hp. unfold ValueOps.parse_as, literals.parse.
  case_decide as Hs; [by intros [= <-]|].
  destruct (Literal.parse L s) as [a|e|] eqn:Ha; [|done..]. intros [= <-]. split; [by eapply Hm|done].
Qed.

Lemma typed_with {A} d (L : Literal A) make :
  ValueOps.parse d = ValueOps.parse_with L make ->
  (forall a v, make a = Ok v -> has_type d v) -> typed d.
Proof.
  intros Hp Hm s o. rewrite Hp. unfold ValueOps.parse_with, literals.parse.
  case_decide as Hs; [by intros [= <-]|].
  destruct (Literal.parse L s) as [a|e|]; [|done..]. cbn.
  destruct (make a) as [v|e|] eqn:Ha; [|done..]. intros [= <-]. split; [by eapply Hm|done].
Qed.

(** ** Elements *)

Lemma map_outcome_results {A B} (f : A -> result B) (P : B -> Prop) l ys :
  (forall a y, f a = Ok y -> P y) -> map_outcome f l = Ok ys -> Forall P ys.
Proof.
  intros Hf Hm%map_outcome_Forall2. eapply Forall2_Forall_r; [exact Hm|].
  apply Forall_true. intros a y. apply Hf.
Qed.

Lemma typed_list c : typed (Column.dtype c) -> typed (DataType.List c).
Proof.
  destruct c as [name inner ? ? ? ? ?]. intros Hin. eapply typed_with; [reflexivity|].
  intros elements v. cbn beta. destruct (map_outcome _ elements) as [l|e|] eqn:Hl; cbn [mbind outcome_bind]; [|done..]. intros [= <-].
  cbn [has_type]. eapply map_outcome_results; [|exact Hl]. intros s o Ho. by apply Hin in Ho as [? _].
Qed.

Lemma typed_struct fields : Forall (fun c => typed (Column.dtype c)) fields -> typed (DataType.Struct fields).
Proof.
  intros Hin. eapply typed_with; [reflexivity|].
  intros entries v. cbn beta. destruct (map_outcome _ entries) as [m|e|] eqn:Hm; cbn [mbind outcome_bind]; [|done..]. intros [= <-].
  cbn [has_type]. eapply map_outcome_results; [|exact Hm]. intros [k s] [k' o]. cbn [fst snd]. clear entries m Hm.
  intros He. apply (proj2 (A := k' = k)). revert He.
  induction Hin as [|[name d ? ? ? ? ?] fields Hd Hin IH]; [done|].
  destruct (decide (name = k)) as [->|Hk].
  - intros Hrun. change ((v ← ValueOps.parse d s; mret (k, v)) = Ok (k', o)) in Hrun. revert Hrun. unfold mbind, outcome_bind. destruct (ValueOps.parse d s) as [o'|?|] eqn:Ho; [|done..].
    intros [= <- <-]. split; [done|]. rewrite decide_True by done. by apply Hd in Ho as [? _].
  - intros [-> He]%IH. split; [done|]. by rewrite decide_False by done.
Qed.

Lemma typed_map key val : typed (Column.dtype key) -> typed (Column.dtype val) -> typed (DataType.Map key val).
Proof.
  destruct key as [? key ? ? ? ? ?], val as [? val ? ? ? ? ?]. intros Hk Hv. eapply typed_with; [reflexivity|].
  intros elements v. cbn beta. destruct (map_outcome _ elements) as [m|e|] eqn:Hm; cbn [mbind outcome_bind]; [|done..]. intros [= <-].
  cbn [has_type]. eapply map_outcome_results; [|exact Hm]. intros [ks vs] [k o] Hrun. cbn [fst snd] in *.
  change ((k ← ValueOps.parse key ks; key ← ok_or (Parsing "encountered NULL map key") k;
           v ← ValueOps.parse val vs; mret (key, v)) = Ok (k, o)) in Hrun. revert Hrun.
  unfold mbind, outcome_bind. destruct (ValueOps.parse key ks) as [[k'|]|e|] eqn:Hks; cbn [ok_or]; [|done..].
  destruct (ValueOps.parse val vs) as [o'|e|] eqn:Hvs; [|done..]. intros [= -> ->].
  apply Hk in Hks as [? _]. by apply Hv in Hvs as [? _].
Qed.

Lemma typed_all d : typed d.
Proof.
  revert d. fix IH 1. intros d.
  destruct d as [| | | | | | | | | | | | |p q| | | |pr| | | | | | | | |c|fields|key val].
  all: try (eapply typed_as; [reflexivity|]; first [by apply makes_int|by apply makes_uint|by intros s a _]).
  1,2: by intros s o; cbn [ValueOps.parse]; case_decide as Hs; [intros [= <-]|].
  - apply typed_list; destruct c; apply IH.
  - apply typed_struct; induction fields as [|[] fields IHf]; constructor; [apply IH|exact IHf].
  - apply typed_map; [destruct key|destruct val]; apply IH.
Qed.

(** C34: reading is type safe. What a text is read as at a data type is a value of
    that type - the same variant, integers within the width, elements, fields and
    entries of the types of a list, struct or map, no null keys, at every level -
    and it is null exactly for the text NULL. (Precision and scale of decimals and
    the precision of timestamps are not checked by the parser, nor are they part of
    the type here.) *)
Theorem parsed_values_are_typed (d : DataType) (s : string) (o : option Value)
    (Hparse : ValueOps.parse d s = Ok o) :
  nullable (has_type d) o /\ (o = None <-> s = "NULL").
Proof. by apply typed_all. Qed.
End Typing.

Lemma parsed_values_are_typed_witness :
  ValueOps.parse nested_dtype (ValueOps.to_string nested_value) = Ok (Some nested_value) /\
  has_type nested_dtype nested_value.
Proof.
  assert (ValueOps.parse nested_dtype (ValueOps.to_string nested_value) = Ok (Some nested_value)) as H
    by (vm_compute; reflexivity).
  split; [exact H|]. exact (proj1 (parsed_values_are_typed nested_dtype _ _ H)).
Defined.
