(* ===== verification/Entities.v ===== *)
(** * The rows of the catalog database ([spec/entities.rs], [spec/query_clauses.rs])

    One record per DuckLake catalog table, with the table and column names and
    the conversion to SQL values that the [#[ducklake_table]] macro derives, and
    the decoding by column name of [sqlx::FromRow]. *)

From S2P Require Import Prelude Text Regex Identifier Types.

(** ** SQL values and rows *)

Inductive SqlValue `{External} : Type :=
  | SNull
  | SBool (b : bool)
  | SInt (z : Z)
  | SText (s : string)
  | SUuid (u : Uuid)
  | STime (t : DateTimeUtc).

Class ToSql `{External} (A : Type) : Type := {
  to_sql : A -> SqlValue;
  from_sql : SqlValue -> option A;
  from_to_sql a : from_sql (to_sql a) = Some a;
}.

Section SqlInstances.
Context `{EXT : External}.

#[export] Program Instance sql_Z : ToSql Z := {|
  to_sql := SInt; from_sql v := match v with SInt z => Some z | _ => None end |}.
Solve Obligations with done.
#[export] Program Instance sql_bool : ToSql bool := {|
  to_sql := SBool; from_sql v := match v with SBool z => Some z | _ => None end |}.
Solve Obligations with done.
#[export] Program Instance sql_string : ToSql string := {|
  to_sql := SText; from_sql v := match v with SText z => Some z | _ => None end |}.
Solve Obligations with done.
#[export] Program Instance sql_uuid : ToSql Uuid := {|
  to_sql := SUuid; from_sql v := match v with SUuid z => Some z | _ => None end |}.
Solve Obligations with done.
#[export] Program Instance sql_time : ToSql DateTimeUtc := {|
  to_sql := STime; from_sql v := match v with STime z => Some z | _ => None end |}.
Solve Obligations with done.
End SqlInstances.

(** A nullable column of a type whose own values are never [NULL]. *)
Class NotNull `{External} (A : Type) `{!ToSql A} : Prop :=
  to_sql_not_null : forall a : A, to_sql a <> SNull.
#[export] Instance not_null_Z `{External} : NotNull Z. Proof. done. Qed.
#[export] Instance not_null_bool `{External} : NotNull bool. Proof. done. Qed.
#[export] Instance not_null_string `{External} : NotNull string. Proof. done. Qed.
#[export] Instance not_null_uuid `{External} : NotNull Uuid. Proof. done. Qed.
#[export] Instance not_null_time `{External} : NotNull DateTimeUtc. Proof. done. Qed.

Definition option_to_sql `{External} {A} `{!ToSql A} (o : option A) : SqlValue :=
  match o with Some a => to_sql a | None => SNull end.
Definition option_from_sql `{External} {A} `{!ToSql A} (v : SqlValue) : option (option A) :=
  match v with SNull => Some None | v => Some <$> from_sql v end.

Lemma option_from_to_sql `{External} {A} `{!ToSql A} `{!NotNull A} (o : option A) :
  option_from_sql (option_to_sql o) = Some o.
Proof.
  destruct o as [a|]; [|done]. pose proof (to_sql_not_null a) as Hn.
  pose proof (from_to_sql a) as Hf. cbn. unfold option_from_sql.
  destruct (to_sql a); by try rewrite Hf.
Qed.

#[export] Instance sql_option `{External} {A} `{!ToSql A} `{!NotNull A} : ToSql (option A) := {|
  to_sql := option_to_sql; from_sql := option_from_sql; from_to_sql := option_from_to_sql |}.

(** A row is the list of its columns' values, by name. *)
Abbreviation row := (list (string * SqlValue)).

Definition get_column `{External} {A} `{!ToSql A} (column : string) (r : row) : option A :=
  IndexMap.get column r ≫= from_sql.

(** ** The derived traits of an entity *)

Class Entity `{External} (E : Type) : Type := {
  TABLE : string;
  COLUMNS : list string;
  PRIMARY_KEY : option string;
  into_values : E -> list SqlValue;
  from_row : row -> option E;
  from_to_row e : from_row (zip COLUMNS (into_values e)) = Some e;
  COLUMNS_NoDup : NoDup COLUMNS;
}.
#[global] Arguments TABLE {_} E {_}.
#[global] Arguments COLUMNS {_} E {_}.
#[global] Arguments PRIMARY_KEY {_} E {_}.

Definition to_row `{External} {E} `{!Entity E} (e : E) : row := zip (COLUMNS E) (into_values e).

Ltac solve_NoDup := intros; apply (bool_decide_unpack _); vm_compute; exact I.

(** Decoding a column of an encoded row finds the value encoded for it. *)
Fixpoint column_index (c : string) (columns : list string) : option nat :=
  match columns with
  | [] => None
  | c' :: columns => if decide (c' = c) then Some 0 else S <$> column_index c columns
  end.

Lemma get_column_zip `{External} {A} `{!ToSql A} c columns (values : list SqlValue) i (a : A) :
  column_index c columns = Some i -> values !! i = Some (to_sql a) ->
  get_column c (zip columns values) = Some a.
Proof.
  unfold get_column. revert i values. induction columns as [|c' columns IH]; [done|].
  intros i values Hi Hv. destruct values as [|v values]; [by destruct i|].
  cbn [column_index] in Hi. cbn [zip zip_with IndexMap.get]. case_decide.
  - simplify_eq. cbn in Hv. simplify_eq. cbn. apply from_to_sql.
  - destruct (column_index c columns) as [j|]; [|done]. simplify_eq/=. by eapply IH.
Qed.

Ltac solve_entity :=
  intros; cbv beta;
  repeat (erewrite get_column_zip; [|vm_compute; reflexivity|reflexivity];
          cbn [mbind option_bind]);
  match goal with |- Some _ = Some ?e => by destruct e end.

Module DucklakeColumn.
Record t : Type := mk {
  column_id : Z;
  begin_snapshot : Z;
  end_snapshot : option Z;
  table_id : Z;
  column_order : option Z;
  column_name : string;
  column_type : string;
  initial_default : option string;
  default_value : option string;
  nulls_allowed : bool;
  parent_column : option Z;
  default_value_type : option string;
  default_value_dialect : option string;
}.
Definition eta (r : t) : t :=
  mk (column_id r) (begin_snapshot r) (end_snapshot r) (table_id r) (column_order r)
    (column_name r) (column_type r) (initial_default r) (default_value r) (nulls_allowed r)
    (parent_column r) (default_value_type r) (default_value_dialect r).
#[export] Instance set_table_id : Setter table_id := ltac:(mk_setter eta table_id).
#[export] Instance set_begin_snapshot : Setter begin_snapshot := ltac:(mk_setter eta begin_snapshot).
#[export] Instance set_end_snapshot : Setter end_snapshot := ltac:(mk_setter eta end_snapshot).
#[export] Program Instance entity `{External} : Entity t := {|
  TABLE := "ducklake_column";
  COLUMNS := ["column_id"; "begin_snapshot"; "end_snapshot"; "table_id"; "column_order";
    "column_name"; "column_type"; "initial_default"; "default_value"; "nulls_allowed";
    "parent_column"; "default_value_type"; "default_value_dialect"];
  PRIMARY_KEY := None;
  into_values e := [to_sql (column_id e); to_sql (begin_snapshot e); to_sql (end_snapshot e);
    to_sql (table_id e); to_sql (column_order e); to_sql (column_name e);
    to_sql (column_type e); to_sql (initial_default e); to_sql (default_value e);
    to_sql (nulls_allowed e); to_sql (parent_column e); to_sql (default_value_type e);
    to_sql (default_value_dialect e)];
  from_row r :=
    column_id ← get_column "column_id" r;
    begin_snapshot ← get_column "begin_snapshot" r;
    end_snapshot ← get_column "end_snapshot" r;
    table_id ← get_column "table_id" r;
    column_order ← get_column "column_order" r;
    column_name ← get_column "column_name" r;
    column_type ← get_column "column_type" r;
    initial_default ← get_column "initial_default" r;
    default_value ← get_column "default_value" r;
    nulls_allowed ← get_column "nulls_allowed" r;
    parent_column ← get_column "parent_column" r;
    default_value_type ← get_column "default_value_type" r;
    default_value_dialect ← get_column "default_value_dialect" r;
    Some (mk column_id begin_snapshot end_snapshot table_id column_order column_name column_type
      initial_default default_value nulls_allowed parent_column default_value_type
      default_value_dialect);
|}.
Next Obligation. solve_entity. Qed.
Next Obligation. solve_NoDup. Qed.
End DucklakeColumn.
#[export] Existing Instances DucklakeColumn.set_table_id DucklakeColumn.set_begin_snapshot DucklakeColumn.set_end_snapshot.
#[export] Existing Instance DucklakeColumn.entity.
Abbreviation DucklakeColumn := DucklakeColumn.t.

Module DucklakeColumnMapping.
Record t : Type := mk {
  mapping_id : Z;
  table_id : Z;
  type_ : option string;
}.
#[export] Program Instance entity `{External} : Entity t := {|
  TABLE := "ducklake_column_mapping";
  COLUMNS := ["mapping_id"; "table_id"; "type"];
  PRIMARY_KEY := None;
  into_values e := [to_sql (mapping_id e); to_sql (table_id e); to_sql (type_ e)];
  from_row r :=
    mapping_id ← get_column "mapping_id" r;
    table_id ← get_column "table_id" r;
    type_ ← get_column "type" r;
    Some (mk mapping_id table_id type_);
|}.
Next Obligation. solve_entity. Qed.
Next Obligation. solve_NoDup. Qed.
End DucklakeColumnMapping.
#[export] Existing Instance DucklakeColumnMapping.entity.
Abbreviation DucklakeColumnMapping := DucklakeColumnMapping.t.

Module DucklakeColumnTag.
Record t : Type := mk {
  table_id : Z;
  column_id : Z;
  begin_snapshot : Z;
  end_snapshot : option Z;
  key : string;
  value : string;
}.
#[export] Program Instance entity `{External} : Entity t := {|
  TABLE := "ducklake_column_tag";
  COLUMNS := ["table_id"; "column_id"; "begin_snapshot"; "end_snapshot"; "key"; "value"];
  PRIMARY_KEY := None;
  into_values e := [to_sql (table_id e); to_sql (column_id e); to_sql (begin_snapshot e);
    to_sql (end_snapshot e); to_sql (key e); to_sql (value e)];
  from_row r :=
    table_id ← get_column "table_id" r;
    column_id ← get_column "column_id" r;
    begin_snapshot ← get_column "begin_snapshot" r;
    end_snapshot ← get_column "end_snapshot" r;
    key ← get_column "key" r;
    value ← get_column "value" r;
    Some (mk table_id column_id begin_snapshot end_snapshot key value);
|}.
Next Obligation. solve_entity. Qed.
Next Obligation. solve_NoDup. Qed.
End DucklakeColumnTag.
#[export] Existing Instance DucklakeColumnTag.entity.
Abbreviation DucklakeColumnTag := DucklakeColumnTag.t.

Module DucklakeDataFile.
Record t : Type := mk {
  data_file_id : Z;
  table_id : Z;
  begin_snapshot : Z;
  end_snapshot : option Z;
  file_order : option Z;
  path : string;
  path_is_relative : bool;
  file_format : string;
  record_count : Z;
  file_size_bytes : option Z;
  footer_size : option Z;
  row_id_start : option Z;
  partition_id : option Z;
  encryption_key : option string;
  mapping_id : option Z;
  partial_max : option Z;
}.
#[export] Program Instance entity `{External} : Entity t := {|
  TABLE := "ducklake_data_file";
  COLUMNS := ["data_file_id"; "table_id"; "begin_snapshot"; "end_snapshot"; "file_order"; "path";
    "path_is_relative"; "file_format"; "record_count"; "file_size_bytes"; "footer_size";
    "row_id_start"; "partition_id"; "encryption_key"; "mapping_id"; "partial_max"];
  PRIMARY_KEY := Some "data_file_id";
  into_values e := [to_sql (data_file_id e); to_sql (table_id e); to_sql (begin_snapshot e);
    to_sql (end_snapshot e); to_sql (file_order e); to_sql (path e);
    to_sql (path_is_relative e); to_sql (file_format e); to_sql (record_count e);
    to_sql (file_size_bytes e); to_sql (footer_size e); to_sql (row_id_start e);
    to_sql (partition_id e); to_sql (encryption_key e); to_sql (mapping_id e);
    to_sql (partial_max e)];
  from_row r :=
    data_file_id ← get_column "data_file_id" r;
    table_id ← get_column "table_id" r;
    begin_snapshot ← get_column "begin_snapshot" r;
    end_snapshot ← get_column "end_snapshot" r;
    file_order ← get_column "file_order" r;
    path ← get_column "path" r;
    path_is_relative ← get_column "path_is_relative" r;
    file_format ← get_column "file_format" r;
    record_count ← get_column "record_count" r;
    file_size_bytes ← get_column "file_size_bytes" r;
    footer_size ← get_column "footer_size" r;
    row_id_start ← get_column "row_id_start" r;
    partition_id ← get_column "partition_id" r;
    encryption_key ← get_column "encryption_key" r;
    mapping_id ← get_column "mapping_id" r;
    partial_max ← get_column "partial_max" r;
    Some (mk data_file_id table_id begin_snapshot end_snapshot file_order path path_is_relative
      file_format record_count file_size_bytes footer_size row_id_start partition_id
      encryption_key mapping_id partial_max);
|}.
Next Obligation. solve_entity. Qed.
Next Obligation. solve_NoDup. Qed.
End DucklakeDataFile.
#[export] Existing Instance DucklakeDataFile.entity.
Abbreviation DucklakeDataFile := DucklakeDataFile.t.

Module DucklakeDeleteFile.
Record t : Type := mk {
  delete_file_id : Z;
  table_id : Z;
  begin_snapshot : Z;
  end_snapshot : option Z;
  data_file_id : Z;
  path : string;
  path_is_relative : bool;
  format : string;
  delete_count : option Z;
  file_size_bytes : option Z;
  footer_size : option Z;
  encryption_key : option string;
  partial_max : option Z;
}.
#[export] Program Instance entity `{External} : Entity t := {|
  TABLE := "ducklake_delete_file";
  COLUMNS := ["delete_file_id"; "table_id"; "begin_snapshot"; "end_snapshot"; "data_file_id"; "path";
    "path_is_relative"; "format"; "delete_count"; "file_size_bytes"; "footer_size";
    "encryption_key"; "partial_max"];
  PRIMARY_KEY := Some "delete_file_id";
  into_values e := [to_sql (delete_file_id e); to_sql (table_id e); to_sql (begin_snapshot e);
    to_sql (end_snapshot e); to_sql (data_file_id e); to_sql (path e);
    to_sql (path_is_relative e); to_sql (format e); to_sql (delete_count e);
    to_sql (file_size_bytes e); to_sql (footer_size e); to_sql (encryption_key e);
    to_sql (partial_max e)];
  from_row r :=
    delete_file_id ← get_column "delete_file_id" r;
    table_id ← get_column "table_id" r;
    begin_snapshot ← get_column "begin_snapshot" r;
    end_snapshot ← get_column "end_snapshot" r;
    data_file_id ← get_column "data_file_id" r;
    path ← get_column "path" r;
    path_is_relative ← get_column "path_is_relative" r;
    format ← get_column "format" r;
    delete_count ← get_column "delete_count" r;
    file_size_bytes ← get_column "file_size_bytes" r;
    footer_size ← get_column "footer_size" r;
    encryption_key ← get_column "encryption_key" r;
    partial_max ← get_column "partial_max" r;
    Some (mk delete_file_id table_id begin_snapshot end_snapshot data_file_id path path_is_relative
      format delete_count file_size_bytes footer_size encryption_key partial_max);
|}.
Next Obligation. solve_entity. Qed.
Next Obligation. solve_NoDup. Qed.
End DucklakeDeleteFile.
#[export] Existing Instance DucklakeDeleteFile.entity.
Abbreviation DucklakeDeleteFile := DucklakeDeleteFile.t.

Module DucklakeFileColumnStats.
Record t : Type := mk {
  data_file_id : Z;
  table_id : Z;
  column_id : Z;
  column_size_bytes : option Z;
  value_count : option Z;
  null_count : option Z;
  min_value : option string;
  max_value : option string;
  contains_nan : option bool;
  extra_stats : option string;
}.
#[export] Program Instance entity `{External} : Entity t := {|
  TABLE := "ducklake_file_column_stats";
  COLUMNS := ["data_file_id"; "table_id"; "column_id"; "column_size_bytes"; "value_count";
    "null_count"; "min_value"; "max_value"; "contains_nan"; "extra_stats"];
  PRIMARY_KEY := None;
  into_values e := [to_sql (data_file_id e); to_sql (table_id e); to_sql (column_id e);
    to_sql (column_size_bytes e); to_sql (value_count e); to_sql (null_count e);
    to_sql (min_value e); to_sql (max_value e); to_sql (contains_nan e);
    to_sql (extra_stats e)];
  from_row r :=
    data_file_id ← get_column "data_file_id" r;
    table_id ← get_column "table_id" r;
    column_id ← get_column "column_id" r;
    column_size_bytes ← get_column "column_size_bytes" r;
    value_count ← get_column "value_count" r;
    null_count ← get_column "null_count" r;
    min_value ← get_column "min_value" r;
    max_value ← get_column "max_value" r;
    contains_nan ← get_column "contains_nan" r;
    extra_stats ← get_column "extra_stats" r;
    Some (mk data_file_id table_id column_id column_size_bytes value_count null_count min_value
      max_value contains_nan extra_stats);
|}.
Next Obligation. solve_entity. Qed.
Next Obligation. solve_NoDup. Qed.
End DucklakeFileColumnStats.
#[export] Existing Instance DucklakeFileColumnStats.entity.
Abbreviation DucklakeFileColumnStats := DucklakeFileColumnStats.t.

Module DucklakeFilesScheduledForDeletion.
Record t `{External} : Type := mk {
  data_file_id : Z;
  path : string;
  path_is_relative : bool;
  schedule_start : DateTimeUtc;
}.
#[global] Arguments mk {_} data_file_id path path_is_relative schedule_start.
#[export] Program Instance entity `{External} : Entity t := {|
  TABLE := "ducklake_files_scheduled_for_deletion";
  COLUMNS := ["data_file_id"; "path"; "path_is_relative"; "schedule_start"];
  PRIMARY_KEY := None;
  into_values e := [to_sql (data_file_id e); to_sql (path e); to_sql (path_is_relative e);
    to_sql (schedule_start e)];
  from_row r :=
    data_file_id ← get_column "data_file_id" r;
    path ← get_column "path" r;
    path_is_relative ← get_column "path_is_relative" r;
    schedule_start ← get_column "schedule_start" r;
    Some (mk data_file_id path path_is_relative schedule_start);
|}.
Next Obligation. solve_entity. Qed.
Next Obligation. solve_NoDup. Qed.
End DucklakeFilesScheduledForDeletion.
#[export] Existing Instance DucklakeFilesScheduledForDeletion.entity.
Abbreviation DucklakeFilesScheduledForDeletion := DucklakeFilesScheduledForDeletion.t.

Module DucklakeFilePartitionValue.
Record t : Type := mk {
  data_file_id : Z;
  table_id : Z;
  partition_key_index : Z;
  partition_value : option string;
}.
#[export] Program Instance entity `{External} : Entity t := {|
  TABLE := "ducklake_file_partition_value";
  COLUMNS := ["data_file_id"; "table_id"; "partition_key_index"; "partition_value"];
  PRIMARY_KEY := None;
  into_values e := [to_sql (data_file_id e); to_sql (table_id e); to_sql (partition_key_index e);
    to_sql (partition_value e)];
  from_row r :=
    data_file_id ← get_column "data_file_id" r;
    table_id ← get_column "table_id" r;
    partition_key_index ← get_column "partition_key_index" r;
    partition_value ← get_column "partition_value" r;
    Some (mk data_file_id table_id partition_key_index partition_value);
|}.
Next Obligation. solve_entity. Qed.
Next Obligation. solve_NoDup. Qed.
End DucklakeFilePartitionValue.
#[export] Existing Instance DucklakeFilePartitionValue.entity.
Abbreviation DucklakeFilePartitionValue := DucklakeFilePartitionValue.t.

Module DucklakeInlinedDataTables.
Record t : Type := mk {
  table_id : Z;
  table_name : string;
  schema_version : Z;
}.
#[export] Program Instance entity `{External} : Entity t := {|
  TABLE := "ducklake_inlined_data_tables";
  COLUMNS := ["table_id"; "table_name"; "schema_version"];
  PRIMARY_KEY := None;
  into_values e := [to_sql (table_id e); to_sql (table_name e); to_sql (schema_version e)];
  from_row r :=
    table_id ← get_column "table_id" r;
    table_name ← get_column "table_name" r;
    schema_version ← get_column "schema_version" r;
    Some (mk table_id table_name schema_version);
|}.
Next Obligation. solve_entity. Qed.
Next Obligation. solve_NoDup. Qed.
End DucklakeInlinedDataTables.
#[export] Existing Instance DucklakeInlinedDataTables.entity.
Abbreviation DucklakeInlinedDataTables := DucklakeInlinedDataTables.t.

Module DucklakeMetadata.
Record t : Type := mk {
  key : string;
  value : string;
  scope : option string;
  scope_id : option Z;
}.
#[export] Program Instance entity `{External} : Entity t := {|
  TABLE := "ducklake_metadata";
  COLUMNS := ["key"; "value"; "scope"; "scope_id"];
  PRIMARY_KEY := None;
  into_values e := [to_sql (key e); to_sql (value e); to_sql (scope e); to_sql (scope_id e)];
  from_row r :=
    key ← get_column "key" r;
    value ← get_column "value" r;
    scope ← get_column "scope" r;
    scope_id ← get_column "scope_id" r;
    Some (mk key value scope scope_id);
|}.
Next Obligation. solve_entity. Qed.
Next Obligation. solve_NoDup. Qed.
End DucklakeMetadata.
#[export] Existing Instance DucklakeMetadata.entity.
Abbreviation DucklakeMetadata := DucklakeMetadata.t.

Module DucklakeNameMapping.
Record t : Type := mk {
  mapping_id : Z;
  column_id : Z;
  source_name : option string;
  target_field_id : option Z;
  parent_column : option Z;
  is_partition : option bool;
}.
#[export] Program Instance entity `{External} : Entity t := {|
  TABLE := "ducklake_name_mapping";
  COLUMNS := ["mapping_id"; "column_id"; "source_name"; "target_field_id"; "parent_column";
    "is_partition"];
  PRIMARY_KEY := None;
  into_values e := [to_sql (mapping_id e); to_sql (column_id e); to_sql (source_name e);
    to_sql (target_field_id e); to_sql (parent_column e); to_sql (is_partition e)];
  from_row r :=
    mapping_id ← get_column "mapping_id" r;
    column_id ← get_column "column_id" r;
    source_name ← get_column "source_name" r;
    target_field_id ← get_column "target_field_id" r;
    parent_column ← get_column "parent_column" r;
    is_partition ← get_column "is_partition" r;
    Some (mk mapping_id column_id source_name target_field_id parent_column is_partition);
|}.
Next Obligation. solve_entity. Qed.
Next Obligation. solve_NoDup. Qed.
End DucklakeNameMapping.
#[export] Existing Instance DucklakeNameMapping.entity.
Abbreviation DucklakeNameMapping := DucklakeNameMapping.t.

Module DucklakePartitionColumn.
Record t : Type := mk {
  partition_id : Z;
  table_id : Z;
  partition_key_index : Z;
  column_id : Z;
  transform : string;
}.
#[export] Program Instance entity `{External} : Entity t := {|
  TABLE := "ducklake_partition_column";
  COLUMNS := ["partition_id"; "table_id"; "partition_key_index"; "column_id"; "transform"];
  PRIMARY_KEY := None;
  into_values e := [to_sql (partition_id e); to_sql (table_id e); to_sql (partition_key_index e);
    to_sql (column_id e); to_sql (transform e)];
  from_row r :=
    partition_id ← get_column "partition_id" r;
    table_id ← get_column "table_id" r;
    partition_key_index ← get_column "partition_key_index" r;
    column_id ← get_column "column_id" r;
    transform ← get_column "transform" r;
    Some (mk partition_id table_id partition_key_index column_id transform);
|}.
Next Obligation. solve_entity. Qed.
Next Obligation. solve_NoDup. Qed.
End DucklakePartitionColumn.
#[export] Existing Instance DucklakePartitionColumn.entity.
Abbreviation DucklakePartitionColumn := DucklakePartitionColumn.t.

Module DucklakePartitionInfo.
Record t : Type := mk {
  partition_id : Z;
  table_id : Z;
  begin_snapshot : Z;
  end_snapshot : option Z;
}.
Definition eta (r : t) : t :=
  mk (partition_id r) (table_id r) (begin_snapshot r) (end_snapshot r).
#[export] Instance set_end_snapshot : Setter end_snapshot := ltac:(mk_setter eta end_snapshot).
#[export] Program Instance entity `{External} : Entity t := {|
  TABLE := "ducklake_partition_info";
  COLUMNS := ["partition_id"; "table_id"; "begin_snapshot"; "end_snapshot"];
  PRIMARY_KEY := None;
  into_values e := [to_sql (partition_id e); to_sql (table_id e); to_sql (begin_snapshot e);
    to_sql (end_snapshot e)];
  from_row r :=
    partition_id ← get_column "partition_id" r;
    table_id ← get_column "table_id" r;
    begin_snapshot ← get_column "begin_snapshot" r;
    end_snapshot ← get_column "end_snapshot" r;
    Some (mk partition_id table_id begin_snapshot end_snapshot);
|}.
Next Obligation. solve_entity. Qed.
Next Obligation. solve_NoDup. Qed.
End DucklakePartitionInfo.
#[export] Existing Instances DucklakePartitionInfo.set_end_snapshot.
#[export] Existing Instance DucklakePartitionInfo.entity.
Abbreviation DucklakePartitionInfo := DucklakePartitionInfo.t.

Module DucklakeSchema.
Record t `{External} : Type := mk {
  schema_id : Z;
  schema_uuid : option Uuid;
  begin_snapshot : Z;
  end_snapshot : option Z;
  schema_name : string;
  path : string;
  path_is_relative : bool;
}.
#[global] Arguments mk {_} schema_id schema_uuid begin_snapshot end_snapshot schema_name path path_is_relative.
#[export] Program Instance entity `{External} : Entity t := {|
  TABLE := "ducklake_schema";
  COLUMNS := ["schema_id"; "schema_uuid"; "begin_snapshot"; "end_snapshot"; "schema_name"; "path";
    "path_is_relative"];
  PRIMARY_KEY := Some "schema_id";
  into_values e := [to_sql (schema_id e); to_sql (schema_uuid e); to_sql (begin_snapshot e);
    to_sql (end_snapshot e); to_sql (schema_name e); to_sql (path e);
    to_sql (path_is_relative e)];
  from_row r :=
    schema_id ← get_column "schema_id" r;
    schema_uuid ← get_column "schema_uuid" r;
    begin_snapshot ← get_column "begin_snapshot" r;
    end_snapshot ← get_column "end_snapshot" r;
    schema_name ← get_column "schema_name" r;
    path ← get_column "path" r;
    path_is_relative ← get_column "path_is_relative" r;
    Some (mk schema_id schema_uuid begin_snapshot end_snapshot schema_name path path_is_relative);
|}.
Next Obligation. solve_entity. Qed.
Next Obligation. solve_NoDup. Qed.
End DucklakeSchema.
#[export] Existing Instance DucklakeSchema.entity.
Abbreviation DucklakeSchema := DucklakeSchema.t.

Module DucklakeSchemaVersions.
Record t : Type := mk {
  begin_snapshot : Z;
  schema_version : Z;
  table_id : option Z;
}.
#[export] Program Instance entity `{External} : Entity t := {|
  TABLE := "ducklake_schema_versions";
  COLUMNS := ["begin_snapshot"; "schema_version"; "table_id"];
  PRIMARY_KEY := None;
  into_values e := [to_sql (begin_snapshot e); to_sql (schema_version e); to_sql (table_id e)];
  from_row r :=
    begin_snapshot ← get_column "begin_snapshot" r;
    schema_version ← get_column "schema_version" r;
    table_id ← get_column "table_id" r;
    Some (mk begin_snapshot schema_version table_id);
|}.
Next Obligation. solve_entity. Qed.
Next Obligation. solve_NoDup. Qed.
End DucklakeSchemaVersions.
#[export] Existing Instance DucklakeSchemaVersions.entity.
Abbreviation DucklakeSchemaVersions := DucklakeSchemaVersions.t.

Module DucklakeSnapshot.
Record t `{External} : Type := mk {
  snapshot_id : Z;
  snapshot_time : DateTimeUtc;
  schema_version : Z;
  next_catalog_id : Z;
  next_file_id : Z;
}.
#[global] Arguments mk {_} snapshot_id snapshot_time schema_version next_catalog_id next_file_id.
#[export] Program Instance entity `{External} : Entity t := {|
  TABLE := "ducklake_snapshot";
  COLUMNS := ["snapshot_id"; "snapshot_time"; "schema_version"; "next_catalog_id"; "next_file_id"];
  PRIMARY_KEY := Some "snapshot_id";
  into_values e := [to_sql (snapshot_id e); to_sql (snapshot_time e); to_sql (schema_version e);
    to_sql (next_catalog_id e); to_sql (next_file_id e)];
  from_row r :=
    snapshot_id ← get_column "snapshot_id" r;
    snapshot_time ← get_column "snapshot_time" r;
    schema_version ← get_column "schema_version" r;
    next_catalog_id ← get_column "next_catalog_id" r;
    next_file_id ← get_column "next_file_id" r;
    Some (mk snapshot_id snapshot_time schema_version next_catalog_id next_file_id);
|}.
Next Obligation. solve_entity. Qed.
Next Obligation. solve_NoDup. Qed.
End DucklakeSnapshot.
#[export] Existing Instance DucklakeSnapshot.entity.
Abbreviation DucklakeSnapshot := DucklakeSnapshot.t.

Module DucklakeSnapshotChanges.
Record t : Type := mk {
  snapshot_id : Z;
  changes_made : string;
  author : option string;
  commit_message : option string;
  commit_extra_info : option string;
}.
#[export] Program Instance entity `{External} : Entity t := {|
  TABLE := "ducklake_snapshot_changes";
  COLUMNS := ["snapshot_id"; "changes_made"; "author"; "commit_message"; "commit_extra_info"];
  PRIMARY_KEY := Some "snapshot_id";
  into_values e := [to_sql (snapshot_id e); to_sql (changes_made e); to_sql (author e);
    to_sql (commit_message e); to_sql (commit_extra_info e)];
  from_row r :=
    snapshot_id ← get_column "snapshot_id" r;
    changes_made ← get_column "changes_made" r;
    author ← get_column "author" r;
    commit_message ← get_column "commit_message" r;
    commit_extra_info ← get_column "commit_extra_info" r;
    Some (mk snapshot_id changes_made author commit_message commit_extra_info);
|}.
Next Obligation. solve_entity. Qed.
Next Obligation. solve_NoDup. Qed.
End DucklakeSnapshotChanges.
#[export] Existing Instance DucklakeSnapshotChanges.entity.
Abbreviation DucklakeSnapshotChanges := DucklakeSnapshotChanges.t.

Module DucklakeTable.
Record t `{External} : Type := mk {
  table_id : Z;
  table_uuid : option Uuid;
  begin_snapshot : Z;
  end_snapshot : option Z;
  schema_id : Z;
  table_name : string;
  path : string;
  path_is_relative : bool;
}.
#[global] Arguments mk {_} table_id table_uuid begin_snapshot end_snapshot schema_id table_name path path_is_relative.
Definition eta `{External} (r : t) : t :=
  mk (table_id r) (table_uuid r) (begin_snapshot r) (end_snapshot r) (schema_id r)
    (table_name r) (path r) (path_is_relative r).
#[export] Instance set_table_name `{External} : Setter table_name := ltac:(mk_setter eta table_name).
#[export] Program Instance entity `{External} : Entity t := {|
  TABLE := "ducklake_table";
  COLUMNS := ["table_id"; "table_uuid"; "begin_snapshot"; "end_snapshot"; "schema_id"; "table_name";
    "path"; "path_is_relative"];
  PRIMARY_KEY := None;
  into_values e := [to_sql (table_id e); to_sql (table_uuid e); to_sql (begin_snapshot e);
    to_sql (end_snapshot e); to_sql (schema_id e); to_sql (table_name e); to_sql (path e);
    to_sql (path_is_relative e)];
  from_row r :=
    table_id ← get_column "table_id" r;
    table_uuid ← get_column "table_uuid" r;
    begin_snapshot ← get_column "begin_snapshot" r;
    end_snapshot ← get_column "end_snapshot" r;
    schema_id ← get_column "schema_id" r;
    table_name ← get_column "table_name" r;
    path ← get_column "path" r;
    path_is_relative ← get_column "path_is_relative" r;
    Some (mk table_id table_uuid begin_snapshot end_snapshot schema_id table_name path
      path_is_relative);
|}.
Next Obligation. solve_entity. Qed.
Next Obligation. solve_NoDup. Qed.
End DucklakeTable.
#[export] Existing Instances DucklakeTable.set_table_name.
#[export] Existing Instance DucklakeTable.entity.
Abbreviation DucklakeTable := DucklakeTable.t.

Module DucklakeTableColumnStats.
Record t : Type := mk {
  table_id : Z;
  column_id : Z;
  contains_null : option bool;
  contains_nan : option bool;
  min_value : option string;
  max_value : option string;
  extra_stats : option string;
}.
#[export] Program Instance entity `{External} : Entity t := {|
  TABLE := "ducklake_table_column_stats";
  COLUMNS := ["table_id"; "column_id"; "contains_null"; "contains_nan"; "min_value"; "max_value";
    "extra_stats"];
  PRIMARY_KEY := None;
  into_values e := [to_sql (table_id e); to_sql (column_id e); to_sql (contains_null e);
    to_sql (contains_nan e); to_sql (min_value e); to_sql (max_value e);
    to_sql (extra_stats e)];
  from_row r :=
    table_id ← get_column "table_id" r;
    column_id ← get_column "column_id" r;
    contains_null ← get_column "contains_null" r;
    contains_nan ← get_column "contains_nan" r;
    min_value ← get_column "min_value" r;
    max_value ← get_column "max_value" r;
    extra_stats ← get_column "extra_stats" r;
    Some (mk table_id column_id contains_null contains_nan min_value max_value extra_stats);
|}.
Next Obligation. solve_entity. Qed.
Next Obligation. solve_NoDup. Qed.
End DucklakeTableColumnStats.
#[export] Existing Instance DucklakeTableColumnStats.entity.
Abbreviation DucklakeTableColumnStats := DucklakeTableColumnStats.t.

Module DucklakeTableStats.
Record t : Type := mk {
  table_id : Z;
  record_count : option Z;
  next_row_id : Z;
  file_size_bytes : option Z;
}.
#[export] Program Instance entity `{External} : Entity t := {|
  TABLE := "ducklake_table_stats";
  COLUMNS := ["table_id"; "record_count"; "next_row_id"; "file_size_bytes"];
  PRIMARY_KEY := None;
  into_values e := [to_sql (table_id e); to_sql (record_count e); to_sql (next_row_id e);
    to_sql (file_size_bytes e)];
  from_row r :=
    table_id ← get_column "table_id" r;
    record_count ← get_column "record_count" r;
    next_row_id ← get_column "next_row_id" r;
    file_size_bytes ← get_column "file_size_bytes" r;
    Some (mk table_id record_count next_row_id file_size_bytes);
|}.
Next Obligation. solve_entity. Qed.
Next Obligation. solve_NoDup. Qed.
End DucklakeTableStats.
#[export] Existing Instance DucklakeTableStats.entity.
Abbreviation DucklakeTableStats := DucklakeTableStats.t.

Module DucklakeTag.
Record t : Type := mk {
  object_id : Z;
  begin_snapshot : Z;
  end_snapshot : option Z;
  key : string;
  value : string;
}.
#[export] Program Instance entity `{External} : Entity t := {|
  TABLE := "ducklake_tag";
  COLUMNS := ["object_id"; "begin_snapshot"; "end_snapshot"; "key"; "value"];
  PRIMARY_KEY := None;
  into_values e := [to_sql (object_id e); to_sql (begin_snapshot e); to_sql (end_snapshot e);
    to_sql (key e); to_sql (value e)];
  from_row r :=
    object_id ← get_column "object_id" r;
    begin_snapshot ← get_column "begin_snapshot" r;
    end_snapshot ← get_column "end_snapshot" r;
    key ← get_column "key" r;
    value ← get_column "value" r;
    Some (mk object_id begin_snapshot end_snapshot key value);
|}.
Next Obligation. solve_entity. Qed.
Next Obligation. solve_NoDup. Qed.
End DucklakeTag.
#[export] Existing Instance DucklakeTag.entity.
Abbreviation DucklakeTag := DucklakeTag.t.

Module DucklakeMacro.
Record t : Type := mk {
  schema_id : Z;
  macro_id : Z;
  macro_name : string;
  begin_snapshot : Z;
  end_snapshot : option Z;
}.
#[export] Program Instance entity `{External} : Entity t := {|
  TABLE := "ducklake_macro";
  COLUMNS := ["schema_id"; "macro_id"; "macro_name"; "begin_snapshot"; "end_snapshot"];
  PRIMARY_KEY := None;
  into_values e := [to_sql (schema_id e); to_sql (macro_id e); to_sql (macro_name e);
    to_sql (begin_snapshot e); to_sql (end_snapshot e)];
  from_row r :=
    schema_id ← get_column "schema_id" r;
    macro_id ← get_column "macro_id" r;
    macro_name ← get_column "macro_name" r;
    begin_snapshot ← get_column "begin_snapshot" r;
    end_snapshot ← get_column "end_snapshot" r;
    Some (mk schema_id macro_id macro_name begin_snapshot end_snapshot);
|}.
Next Obligation. solve_entity. Qed.
Next Obligation. solve_NoDup. Qed.
End DucklakeMacro.
#[export] Existing Instance DucklakeMacro.entity.
Abbreviation DucklakeMacro := DucklakeMacro.t.

Module DucklakeMacroImpl.
Record t : Type := mk {
  macro_id : Z;
  impl_id : Z;
  dialect : string;
  sql : string;
  type_ : string;
}.
#[export] Program Instance entity `{External} : Entity t := {|
  TABLE := "ducklake_macro_impl";
  COLUMNS := ["macro_id"; "impl_id"; "dialect"; "sql"; "type"];
  PRIMARY_KEY := None;
  into_values e := [to_sql (macro_id e); to_sql (impl_id e); to_sql (dialect e); to_sql (sql e);
    to_sql (type_ e)];
  from_row r :=
    macro_id ← get_column "macro_id" r;
    impl_id ← get_column "impl_id" r;
    dialect ← get_column "dialect" r;
    sql ← get_column "sql" r;
    type_ ← get_column "type" r;
    Some (mk macro_id impl_id dialect sql type_);
|}.
Next Obligation. solve_entity. Qed.
Next Obligation. solve_NoDup. Qed.
End DucklakeMacroImpl.
#[export] Existing Instance DucklakeMacroImpl.entity.
Abbreviation DucklakeMacroImpl := DucklakeMacroImpl.t.

Module DucklakeMacroParameters.
Record t : Type := mk {
  macro_id : Z;
  impl_id : Z;
  column_id : Z;
  parameter_name : string;
  parameter_type : string;
  default_value : option string;
  default_value_type : string;
}.
#[export] Program Instance entity `{External} : Entity t := {|
  TABLE := "ducklake_macro_parameters";
  COLUMNS := ["macro_id"; "impl_id"; "column_id"; "parameter_name"; "parameter_type";
    "default_value"; "default_value_type"];
  PRIMARY_KEY := None;
  into_values e := [to_sql (macro_id e); to_sql (impl_id e); to_sql (column_id e);
    to_sql (parameter_name e); to_sql (parameter_type e); to_sql (default_value e);
    to_sql (default_value_type e)];
  from_row r :=
    macro_id ← get_column "macro_id" r;
    impl_id ← get_column "impl_id" r;
    column_id ← get_column "column_id" r;
    parameter_name ← get_column "parameter_name" r;
    parameter_type ← get_column "parameter_type" r;
    default_value ← get_column "default_value" r;
    default_value_type ← get_column "default_value_type" r;
    Some (mk macro_id impl_id column_id parameter_name parameter_type default_value
      default_value_type);
|}.
Next Obligation. solve_entity. Qed.
Next Obligation. solve_NoDup. Qed.
End DucklakeMacroParameters.
#[export] Existing Instance DucklakeMacroParameters.entity.
Abbreviation DucklakeMacroParameters := DucklakeMacroParameters.t.

Module DucklakeSortInfo.
Record t : Type := mk {
  sort_id : Z;
  table_id : Z;
  begin_snapshot : Z;
  end_snapshot : option Z;
}.
Definition eta (r : t) : t :=
  mk (sort_id r) (table_id r) (begin_snapshot r) (end_snapshot r).
#[export] Instance set_end_snapshot : Setter end_snapshot := ltac:(mk_setter eta end_snapshot).
#[export] Program Instance entity `{External} : Entity t := {|
  TABLE := "ducklake_sort_info";
  COLUMNS := ["sort_id"; "table_id"; "begin_snapshot"; "end_snapshot"];
  PRIMARY_KEY := None;
  into_values e := [to_sql (sort_id e); to_sql (table_id e); to_sql (begin_snapshot e);
    to_sql (end_snapshot e)];
  from_row r :=
    sort_id ← get_column "sort_id" r;
    table_id ← get_column "table_id" r;
    begin_snapshot ← get_column "begin_snapshot" r;
    end_snapshot ← get_column "end_snapshot" r;
    Some (mk sort_id table_id begin_snapshot end_snapshot);
|}.
Next Obligation. solve_entity. Qed.
Next Obligation. solve_NoDup. Qed.
End DucklakeSortInfo.
#[export] Existing Instances DucklakeSortInfo.set_end_snapshot.
#[export] Existing Instance DucklakeSortInfo.entity.
Abbreviation DucklakeSortInfo := DucklakeSortInfo.t.

Module DucklakeSortExpression.
Record t : Type := mk {
  sort_id : Z;
  table_id : Z;
  sort_key_index : Z;
  expression : option string;
  dialect : option string;
  sort_direction : option string;
  null_order : option string;
}.
#[export] Program Instance entity `{External} : Entity t := {|
  TABLE := "ducklake_sort_expression";
  COLUMNS := ["sort_id"; "table_id"; "sort_key_index"; "expression"; "dialect"; "sort_direction";
    "null_order"];
  PRIMARY_KEY := None;
  into_values e := [to_sql (sort_id e); to_sql (table_id e); to_sql (sort_key_index e);
    to_sql (expression e); to_sql (dialect e); to_sql (sort_direction e);
    to_sql (null_order e)];
  from_row r :=
    sort_id ← get_column "sort_id" r;
    table_id ← get_column "table_id" r;
    sort_key_index ← get_column "sort_key_index" r;
    expression ← get_column "expression" r;
    dialect ← get_column "dialect" r;
    sort_direction ← get_column "sort_direction" r;
    null_order ← get_column "null_order" r;
    Some (mk sort_id table_id sort_key_index expression dialect sort_direction null_order);
|}.
Next Obligation. solve_entity. Qed.
Next Obligation. solve_NoDup. Qed.
End DucklakeSortExpression.
#[export] Existing Instance DucklakeSortExpression.entity.
Abbreviation DucklakeSortExpression := DucklakeSortExpression.t.

Module DucklakeFileVariantStats.
Record t : Type := mk {
  data_file_id : Z;
  table_id : Z;
  column_id : Z;
  variant_path : option string;
  shredded_type : option string;
  column_size_bytes : option Z;
  value_count : option Z;
  null_count : option Z;
  min_value : option string;
  max_value : option string;
  contains_nan : option bool;
  extra_stats : option string;
}.
#[export] Program Instance entity `{External} : Entity t := {|
  TABLE := "ducklake_file_variant_stats";
  COLUMNS := ["data_file_id"; "table_id"; "column_id"; "variant_path"; "shredded_type";
    "column_size_bytes"; "value_count"; "null_count"; "min_value"; "max_value";
    "contains_nan"; "extra_stats"];
  PRIMARY_KEY := None;
  into_values e := [to_sql (data_file_id e); to_sql (table_id e); to_sql (column_id e);
    to_sql (variant_path e); to_sql (shredded_type e); to_sql (column_size_bytes e);
    to_sql (value_count e); to_sql (null_count e); to_sql (min_value e);
    to_sql (max_value e); to_sql (contains_nan e); to_sql (extra_stats e)];
  from_row r :=
    data_file_id ← get_column "data_file_id" r;
    table_id ← get_column "table_id" r;
    column_id ← get_column "column_id" r;
    variant_path ← get_column "variant_path" r;
    shredded_type ← get_column "shredded_type" r;
    column_size_bytes ← get_column "column_size_bytes" r;
    value_count ← get_column "value_count" r;
    null_count ← get_column "null_count" r;
    min_value ← get_column "min_value" r;
    max_value ← get_column "max_value" r;
    contains_nan ← get_column "contains_nan" r;
    extra_stats ← get_column "extra_stats" r;
    Some (mk data_file_id table_id column_id variant_path shredded_type column_size_bytes
      value_count null_count min_value max_value contains_nan extra_stats);
|}.
Next Obligation. solve_entity. Qed.
Next Obligation. solve_NoDup. Qed.
End DucklakeFileVariantStats.
#[export] Existing Instance DucklakeFileVariantStats.entity.
Abbreviation DucklakeFileVariantStats := DucklakeFileVariantStats.t.

Module DucklakeView.
Record t `{External} : Type := mk {
  view_id : Z;
  view_uuid : option Uuid;
  begin_snapshot : Z;
  end_snapshot : option Z;
  schema_id : Z;
  view_name : string;
  dialect : string;
  sql : string;
  column_aliases : option string;
}.
#[global] Arguments mk {_} view_id view_uuid begin_snapshot end_snapshot schema_id view_name dialect sql column_aliases.
#[export] Program Instance entity `{External} : Entity t := {|
  TABLE := "ducklake_view";
  COLUMNS := ["view_id"; "view_uuid"; "begin_snapshot"; "end_snapshot"; "schema_id"; "view_name";
    "dialect"; "sql"; "column_aliases"];
  PRIMARY_KEY := None;
  into_values e := [to_sql (view_id e); to_sql (view_uuid e); to_sql (begin_snapshot e);
    to_sql (end_snapshot e); to_sql (schema_id e); to_sql (view_name e);
    to_sql (dialect e); to_sql (sql e); to_sql (column_aliases e)];
  from_row r :=
    view_id ← get_column "view_id" r;
    view_uuid ← get_column "view_uuid" r;
    begin_snapshot ← get_column "begin_snapshot" r;
    end_snapshot ← get_column "end_snapshot" r;
    schema_id ← get_column "schema_id" r;
    view_name ← get_column "view_name" r;
    dialect ← get_column "dialect" r;
    sql ← get_column "sql" r;
    column_aliases ← get_column "column_aliases" r;
    Some (mk view_id view_uuid begin_snapshot end_snapshot schema_id view_name dialect sql
      column_aliases);
|}.
Next Obligation. solve_entity. Qed.
Next Obligation. solve_NoDup. Qed.
End DucklakeView.
#[export] Existing Instance DucklakeView.entity.
Abbreviation DucklakeView := DucklakeView.t.

Module DucklakeInlinedDelete.
Record t : Type := mk {
  file_id : Z;
  row_id : Z;
  begin_snapshot : Z;
}.
#[export] Program Instance entity `{External} : Entity t := {|
  TABLE := "ducklake_inlined_delete";
  COLUMNS := ["file_id"; "row_id"; "begin_snapshot"];
  PRIMARY_KEY := None;
  into_values e := [to_sql (file_id e); to_sql (row_id e); to_sql (begin_snapshot e)];
  from_row r :=
    file_id ← get_column "file_id" r;
    row_id ← get_column "row_id" r;
    begin_snapshot ← get_column "begin_snapshot" r;
    Some (mk file_id row_id begin_snapshot);
|}.
Next Obligation. solve_entity. Qed.
Next Obligation. solve_NoDup. Qed.
End DucklakeInlinedDelete.
#[export] Existing Instance DucklakeInlinedDelete.entity.
Abbreviation DucklakeInlinedDelete := DucklakeInlinedDelete.t.

Module DucklakeInlinedData.
Record t : Type := mk {
  row_id : Z;
  begin_snapshot : Z;
  end_snapshot : option Z;
}.
#[export] Program Instance entity `{External} : Entity t := {|
  TABLE := "ducklake_inlined_data";
  COLUMNS := ["row_id"; "begin_snapshot"; "end_snapshot"];
  PRIMARY_KEY := None;
  into_values e := [to_sql (row_id e); to_sql (begin_snapshot e); to_sql (end_snapshot e)];
  from_row r :=
    row_id ← get_column "row_id" r;
    begin_snapshot ← get_column "begin_snapshot" r;
    end_snapshot ← get_column "end_snapshot" r;
    Some (mk row_id begin_snapshot end_snapshot);
|}.
Next Obligation. solve_entity. Qed.
Next Obligation. solve_NoDup. Qed.
End DucklakeInlinedData.
#[export] Existing Instance DucklakeInlinedData.entity.
Abbreviation DucklakeInlinedData := DucklakeInlinedData.t.

(** ** Names of the tables made on demand *)

Definition DucklakeInlinedDelete_table_name (table_id : Z) : string :=
  "ducklake_inlined_delete_" +:+ i64_to_string table_id.
Definition DucklakeInlinedData_table_name (table_id schema_version : Z) : string :=
  "ducklake_inlined_data_" +:+ i64_to_string table_id +:+ "_" +:+ i64_to_string schema_version.

(** ** [filter_for_snapshot]: the rows a snapshot sees *)

Definition filter_for_snapshot (begin_snapshot : Z) (end_snapshot : option Z) (snapshot_id : Z) : bool :=
  (begin_snapshot <=? snapshot_id)%Z &&
  match end_snapshot with None => true | Some e => (snapshot_id <? e)%Z end.
