(* ===== verification/CatalogColumns.v ===== *)
(** * The columns of a table in the catalog ([catalog/typedefs/])

    An arena of columns with indices for the tree of nested types: lookup by
    path, addition, renaming and removal, and the translation from and to the
    schema the user sees. Partitionings and sort orders refer to arena indices. *)

From S2P Require Import Prelude Text Regex Identifier Types.

Abbreviation ArenaIdx := nat.

Module CatalogDataType.
Inductive t `{External} : Type :=
  | Primitive (d : DataType)
  | List (item : ArenaIdx)
  | Struct (fields : list (string * ArenaIdx))
  | Map (key value : ArenaIdx).

(** The indices a data type refers to, in the order the traversals visit them. *)
Definition children `{External} (d : t) : list ArenaIdx :=
  match d with
  | Struct fields => fields.*2
  | List item => [item]
  | Map key value => [key; value]
  | Primitive _ => []
  end.
End CatalogDataType.
Abbreviation CatalogDataType := CatalogDataType.t.

Module CatalogColumn.
Record t `{External} : Type := mk {
  id : Z;
  name : string;
  dtype : CatalogDataType;
  parent_column : option ArenaIdx;
  nullable : bool;
  tags : Tags;
  initial_default : option Value;
  default_value : ColumnDefault;
}.
#[global] Arguments mk {_} id name dtype parent_column nullable tags initial_default default_value.
Definition eta `{External} (c : t) : t :=
  mk (id c) (name c) (dtype c) (parent_column c) (nullable c) (tags c) (initial_default c)
    (default_value c).
#[export] Instance set_name `{External} : Setter name := ltac:(mk_setter eta name).
#[export] Instance set_dtype `{External} : Setter dtype := ltac:(mk_setter eta dtype).
#[export] Instance set_nullable `{External} : Setter nullable := ltac:(mk_setter eta nullable).
#[export] Instance set_tags `{External} : Setter tags := ltac:(mk_setter eta tags).
#[export] Instance set_default `{External} : Setter default_value :=
  ltac:(mk_setter eta default_value).
End CatalogColumn.
#[export] Existing Instances CatalogColumn.set_name CatalogColumn.set_dtype
  CatalogColumn.set_nullable CatalogColumn.set_tags CatalogColumn.set_default.
Abbreviation CatalogColumn := CatalogColumn.t.

Module CatalogColumns.
Record t `{External} : Type := mk {
  arena : list CatalogColumn;
  by_id : gmap Z ArenaIdx;
  root_columns : list (string * ArenaIdx);
  next_column_id : option Z;
}.
#[global] Arguments mk {_} arena by_id root_columns next_column_id.
Definition eta `{External} (c : t) : t :=
  mk (arena c) (by_id c) (root_columns c) (next_column_id c).
#[export] Instance set_arena `{External} : Setter arena := ltac:(mk_setter eta arena).
#[export] Instance set_by_id `{External} : Setter by_id := ltac:(mk_setter eta by_id).
#[export] Instance set_root `{External} : Setter root_columns := ltac:(mk_setter eta root_columns).
#[export] Instance set_next `{External} : Setter next_column_id :=
  ltac:(mk_setter eta next_column_id).

Section CatalogColumns.
Context `{EXT : External}.

(** [CatalogColumns::new] *)
Definition new (next_column_id : option Z) : t := mk [] ∅ [] next_column_id.

(** [self.arena\[idx\]] *)
Definition column_at (self : t) (idx : ArenaIdx) : result CatalogColumn :=
  unwrap (arena self !! idx).

(** Recursion follows arena indices; a column is above its children, so as
    many steps as there are columns are enough ([Panic] is the overflow). *)
Definition fuel_of (self : t) : nat := S (length (arena self)).

(** ** Info *)

Fixpoint aggregate_column_indices (fuel : nat) (self : t) (idx : ArenaIdx)
    (acc : list ArenaIdx) : result (list ArenaIdx) :=
  match fuel with
  | 0 => Panic
  | S fuel =>
      let acc := acc ++ [idx] in
      col ← column_at self idx;
      fold_outcome (fun acc child => aggregate_column_indices fuel self child acc)
        acc (CatalogDataType.children (CatalogColumn.dtype col))
  end.

Definition root_column_indices (self : t) : result (list (list ArenaIdx)) :=
  map_outcome (fun idx => aggregate_column_indices (fuel_of self) self idx [])
    (root_columns self).*2.

Definition path_step (self : t) (path : list string) (idx : ArenaIdx) (part : string)
    : result ArenaIdx :=
  col ← column_at self idx;
  match CatalogColumn.dtype col with
  | CatalogDataType.Struct fields =>
      ok_or (column_path_not_found path) (IndexMap.get part fields)
  | CatalogDataType.List list_idx =>
      if decide (part = "element") then Ok list_idx else Err (column_path_not_found path)
  | CatalogDataType.Map key_idx value_idx =>
      if decide (part = "key") then Ok key_idx
      else if decide (part = "value") then Ok value_idx
      else Err (column_path_not_found path)
  | CatalogDataType.Primitive _ => Err (column_path_not_found path)
  end.

Definition arena_idx_by_path (self : t) (path : list string) : result ArenaIdx :=
  match path with
  | [] => Panic
  | root :: parts =>
      idx ← ok_or (column_path_not_found path) (IndexMap.get root (root_columns self));
      fold_outcome (path_step self path) idx parts
  end.

(** ** Renaming *)

Definition ensure_column_unique_at_parent (self : t) (parent : option ArenaIdx)
    (name : string) : result unit :=
  exists_ ← match parent with
            | None => Ok (IndexMap.contains_key name (root_columns self))
            | Some idx =>
                col ← column_at self idx;
                match CatalogColumn.dtype col with
                | CatalogDataType.Struct fields => Ok (IndexMap.contains_key name fields)
                | _ => Panic
                end
            end;
  if (exists_ : bool) then Err (column_already_exists name) else Ok tt.

Definition rename_entry (old_name new_name : string) (idx : ArenaIdx)
    (columns_by_name : list (string * ArenaIdx)) : result (list (string * ArenaIdx)) :=
  '(position, _, rest) ← unwrap (IndexMap.shift_remove_full old_name columns_by_name);
  mret (IndexMap.shift_insert position new_name idx rest).

Definition set_column (idx : ArenaIdx) (f : CatalogColumn -> CatalogColumn) : method t unit :=
  fun self =>
    match arena self !! idx with
    | Some col => (Ok tt, self <| arena ::= <[idx := f col]> |>)
    | None => (Panic, self)
    end.

Definition rename_column (idx : ArenaIdx) (new_name : string) : method t ArenaIdx :=
  self ← st_get;
  col ← st_lift (column_at self idx);
  let parent := CatalogColumn.parent_column col in
  st_lift (ensure_column_unique_at_parent self parent new_name) ;;
  let old_name := CatalogColumn.name col in
  match parent with
  | None =>
      entries ← st_lift (rename_entry old_name new_name idx (root_columns self));
      st_modify (fun self => self <| root_columns := entries |>)
  | Some parent =>
      pcol ← st_lift (column_at self parent);
      match CatalogColumn.dtype pcol with
      | CatalogDataType.Struct fields =>
          entries ← st_lift (rename_entry old_name new_name idx fields);
          set_column parent
            (fun c => c <| CatalogColumn.dtype := CatalogDataType.Struct entries |>)
      | _ => st_panic
      end
  end ;;
  set_column idx (fun c => c <| CatalogColumn.name := new_name |>) ;;
  mret idx.

(** ** Removal: the column and its descendants leave [by_id] *)

Fixpoint mark_column_deleted (fuel : nat) (idx : ArenaIdx) (deletions : list ArenaIdx)
    : method t (list ArenaIdx) :=
  match fuel with
  | 0 => st_panic
  | S fuel =>
      self ← st_get;
      column ← st_lift (column_at self idx);
      st_modify (fun self => self <| by_id ::= delete (CatalogColumn.id column) |>) ;;
      (fix go (children deletions : list ArenaIdx) : method t (list ArenaIdx) :=
         match children with
         | [] => mret deletions
         | child :: children =>
             deletions ← mark_column_deleted fuel child deletions; go children deletions
         end) (CatalogDataType.children (CatalogColumn.dtype column)) (deletions ++ [idx])
  end.

Definition remove_column (idx : ArenaIdx) : method t (list ArenaIdx) :=
  self ← st_get; mark_column_deleted (fuel_of self) idx [].

(** ** Addition *)

Definition push_column (column : CatalogColumn) : method t ArenaIdx :=
  self ← st_get;
  let idx := length (arena self) in
  st_modify (fun self => self <| by_id ::= <[CatalogColumn.id column := idx]> |>) ;;
  st_modify (fun self => self <| arena ::= fun l => l ++ [column] |>) ;;
  mret idx.

(** [fn next_column_id] *)
Definition take_column_id : method t Z :=
  self ← st_get;
  column_id ← st_lift (unwrap (next_column_id self));
  st_modify (fun self => self <| next_column_id := Some (i64_add column_id 1) |>) ;;
  mret column_id.

(** The arena indices the children of each flattened column will get. *)
Definition children_by_parent (first_idx : nat) (flattened : list Column.FlattenedColumn)
    : gmap nat (list ArenaIdx) :=
  foldl (fun m '(i, col) =>
    match Column.parent_index col with
    | Some p => <[p := default [] (m !! p) ++ [first_idx + i]]> m
    | None => m
    end) ∅ (imap (fun i col => (i, col)) flattened).

Definition arena_dtype (children : gmap nat (list ArenaIdx)) (idx : nat) (d : DataType)
    : result CatalogDataType :=
  match d with
  | DataType.List _ =>
      l ← unwrap (children !! idx); item ← unwrap (l !! 0); mret (CatalogDataType.List item)
  | DataType.Struct columns =>
      l ← unwrap (children !! idx);
      mret (CatalogDataType.Struct
        (IndexMap.from_iter (zip (Column.name <$> columns) l)))
  | DataType.Map _ _ =>
      l ← unwrap (children !! idx); key ← unwrap (l !! 0); value ← unwrap (l !! 1);
      mret (CatalogDataType.Map key value)
  | d => mret (CatalogDataType.Primitive d)
  end.

Definition add_flat_column (first_idx : nat) (children : gmap nat (list ArenaIdx))
    (parent : option ArenaIdx) (preserve_column_ids : bool)
    (idx : nat) (flat : Column.FlattenedColumn) : method t ArenaIdx :=
  let column := Column.column flat in
  dtype ← st_lift (arena_dtype children idx (Column.dtype column));
  let parent_column := match Column.parent_index flat with
                       | Some i => Some (first_idx + i)
                       | None => parent
                       end in
  id ← (if preserve_column_ids then st_lift (unwrap (Column.field_id column))
        else take_column_id);
  push_column (CatalogColumn.mk id (Column.name column) dtype parent_column
    (Column.nullable column) (Column.tags column) (Column.initial_default column)
    (Column.default_value column)).

Definition add_column_to_arena (column : Column) (parent : option ArenaIdx)
    (preserve_column_ids : bool) : method t (list ArenaIdx) :=
  self ← st_get;
  let first_idx := length (arena self) in
  let flattened := Column.flatten column in
  let children := children_by_parent first_idx flattened in
  st_map (fun '(idx, flat) =>
    add_flat_column first_idx children parent preserve_column_ids idx flat)
    (imap (fun idx flat => (idx, flat)) flattened).

Definition add_column (parent_idx : option ArenaIdx) (column : Column)
    : method t (list ArenaIdx) :=
  self ← st_get;
  st_lift (ensure_column_unique_at_parent self parent_idx (Column.name column)) ;;
  let column_name := Column.name column in
  arena_idxs ← add_column_to_arena column parent_idx false;
  first ← st_lift (unwrap (head arena_idxs));
  match parent_idx with
  | Some pidx =>
      self ← st_get;
      parent ← st_lift (column_at self pidx);
      match CatalogColumn.dtype parent with
      | CatalogDataType.Struct fields =>
          set_column pidx (fun c => c <| CatalogColumn.dtype :=
            CatalogDataType.Struct (IndexMap.insert column_name first fields) |>)
      | _ => st_panic
      end
  | None =>
      st_modify (fun self => self <| root_columns ::= IndexMap.insert column_name first |>)
  end ;;
  mret arena_idxs.

(** ** From a schema *)

Definition add_root (preserve : bool) (column : Column) : method t unit :=
  idxs ← add_column_to_arena column None preserve;
  first ← st_lift (unwrap (head idxs));
  st_modify (fun self => self <| root_columns ::= IndexMap.insert (Column.name column) first |>).

Definition from_schema (schema : Schema) (next_column_id : option Z) : result t :=
  let self := new (Some (default 1%Z next_column_id)) in
  let preserve := match next_column_id with Some _ => true | None => false end in
  match st_for (add_root preserve) (Schema.columns schema).*2 self with
  | (Ok _, self) => Ok self
  | (Err e, _) => Err e
  | (Panic, _) => Panic
  end.

(** ** To a schema *)

Definition schema_dtype_with (column : ArenaIdx -> result Column) (d : CatalogDataType)
    : result DataType :=
  match d with
  | CatalogDataType.Primitive p => Ok p
  | CatalogDataType.List item => item ← column item; mret (DataType.List item)
  | CatalogDataType.Struct fields =>
      fields ← map_outcome column fields.*2; mret (DataType.Struct fields)
  | CatalogDataType.Map key value =>
      key ← column key; value ← column value; mret (DataType.Map key value)
  end.

Fixpoint schema_column_go (fuel : nat) (self : t) (idx : ArenaIdx) : result Column :=
  match fuel with
  | 0 => Panic
  | S fuel =>
      col ← column_at self idx;
      dtype ← schema_dtype_with (schema_column_go fuel self) (CatalogColumn.dtype col);
      mret (DataType.mk_Column (CatalogColumn.name col) dtype (CatalogColumn.nullable col)
        (CatalogColumn.tags col) (CatalogColumn.initial_default col)
        (CatalogColumn.default_value col) (Some (CatalogColumn.id col)))
  end.

Definition schema_column_from_arena_index (self : t) (idx : ArenaIdx) : result Column :=
  schema_column_go (fuel_of self) self idx.
Definition schema_dtype (self : t) (d : CatalogDataType) : result DataType :=
  schema_dtype_with (schema_column_from_arena_index self) d.

(** [From<&CatalogColumns> for Schema]: columns that are no longer in [by_id]
    are left out. *)
Definition live_root (self : t) (idx : ArenaIdx) : result (list Column) :=
  col ← column_at self idx;
  match by_id self !! CatalogColumn.id col with
  | Some _ => column ← schema_column_from_arena_index self idx; mret [column]
  | None => mret []
  end.

Definition to_schema (self : t) : result Schema :=
  columns ← map_outcome (live_root self) (root_columns self).*2;
  match Schema_try_from (concat columns) with Ok schema => Ok schema | _ => Panic end.

(** [From<&CatalogColumns> for HashMap<i64, DataType>] *)
Fixpoint collect_existing_dtypes (fuel : nat) (self : t) (idx : ArenaIdx)
    (acc : gmap Z DataType) : result (gmap Z DataType) :=
  match fuel with
  | 0 => Panic
  | S fuel =>
      column ← column_at self idx;
      dtype ← schema_dtype self (CatalogColumn.dtype column);
      fold_outcome (fun acc child => collect_existing_dtypes fuel self child acc)
        (<[CatalogColumn.id column := dtype]> acc)
        (CatalogDataType.children (CatalogColumn.dtype column))
  end.
Definition column_data_types (self : t) : result (gmap Z DataType) :=
  fold_outcome (fun acc idx => collect_existing_dtypes (fuel_of self) self idx acc)
    ∅ (root_columns self).*2.
End CatalogColumns.
End CatalogColumns.
#[export] Existing Instances CatalogColumns.set_arena CatalogColumns.set_by_id
  CatalogColumns.set_root CatalogColumns.set_next.
Abbreviation CatalogColumns := CatalogColumns.t.

(** ** Partitionings ([catalog/typedefs/partition.rs]) *)

Module CatalogPartitionColumn.
Record t : Type := mk { column : ArenaIdx; transform : PartitionTransform }.
End CatalogPartitionColumn.

Module CatalogTablePartition.
Record t : Type := mk { id : option Z; columns : list CatalogPartitionColumn.t }.
Definition eta (p : t) : t := mk (id p) (columns p).
#[export] Instance set_id : Setter id := ltac:(mk_setter eta id).

Section CatalogTablePartition.
Context `{EXT : External}.

Definition from_partition (partition : Partition) (columns : CatalogColumns) : result t :=
  catalog_columns ← map_outcome (fun col =>
    column ← CatalogColumns.arena_idx_by_path columns [PartitionColumn.column col];
    mret (CatalogPartitionColumn.mk column (PartitionColumn.transform col))) partition;
  mret (mk None catalog_columns).

Definition into_partition (self : t) (cols : CatalogColumns) : result Partition :=
  map_outcome (fun col =>
    column ← CatalogColumns.column_at cols (CatalogPartitionColumn.column col);
    mret (PartitionColumn.mk (CatalogColumn.name column) (CatalogPartitionColumn.transform col)))
    (columns self).
End CatalogTablePartition.
End CatalogTablePartition.
#[export] Existing Instance CatalogTablePartition.set_id.

(** ** Sort orders ([catalog/typedefs/sort.rs]) *)

Module CatalogSortColumn.
Record t : Type := mk {
  column : ArenaIdx; dialect : string; direction : SortDirection; null_order : NullOrder;
}.
End CatalogSortColumn.

Module CatalogTableSortInfo.
Record t : Type := mk { columns : list CatalogSortColumn.t }.

Section CatalogTableSortInfo.
Context `{EXT : External}.

Definition column_by_name (columns : CatalogColumns) (name : string) : result ArenaIdx :=
  ok_or (NotFound "column referenced by sort expression" name)
    (IndexMap.get name (CatalogColumns.root_columns columns)).

Definition from_sort_info (sort_info : SortInfo) (cols : CatalogColumns) : result t :=
  columns ← map_outcome (fun e =>
    if decide (SortExpression.expression e = "" \/ SortExpression.dialect e <> "duckdb")
    then Err (InvalidChanges "sort columns require a nonempty name and the DuckDB dialect")
    else
      column ← column_by_name cols (SortExpression.expression e);
      mret (CatalogSortColumn.mk column (SortExpression.dialect e)
        (SortExpression.direction e) (SortExpression.null_order e))) sort_info;
  mret (mk columns).

Definition into_sort_info (self : t) (cols : CatalogColumns) : result SortInfo :=
  map_outcome (fun s =>
    column ← CatalogColumns.column_at cols (CatalogSortColumn.column s);
    mret (SortExpression.mk (CatalogColumn.name column) (CatalogSortColumn.dialect s)
      (CatalogSortColumn.direction s) (CatalogSortColumn.null_order s))) (columns self).
End CatalogTableSortInfo.

Definition references_column (self : t) (column : ArenaIdx) : bool :=
  existsb (fun s => Nat.eqb (CatalogSortColumn.column s) column) (columns self).
End CatalogTableSortInfo.
