(* ===== verification/Catalog.v ===== *)
(** * The catalog ([catalog/mod.rs], [catalog/arena.rs], [catalog/refs.rs], [catalog/views/])

    A point-in-time capture of the schemas, tables, views and macros of a
    DuckLake. Entities live in append-only arenas; a reference is an arena
    index and stays valid for the lifetime of the catalog, an ID is only known
    once the entity is persisted. The views of the source are read and written
    through references here. *)

From S2P Require Import Prelude Text Regex Identifier Types CatalogColumns.

(** ** Arenas *)

Module Arena.
Record t {A : Type} : Type := mk { arena : list A; by_id : gmap Z ArenaIdx }.
Arguments t : clear implicits.
Arguments mk {A} arena by_id.

Section Arena.
Context {A : Type}.
Implicit Types (self : t A).

Definition new : t A := mk [] ∅.
Definition push (entity : A) (id : option Z) (self : t A) : ArenaIdx * t A :=
  let idx := length (arena self) in
  (idx, mk (arena self ++ [entity])
          (match id with Some id => <[id := idx]> (by_id self) | None => by_id self end)).
Definition register_id (idx : ArenaIdx) (id : Z) (self : t A) : t A :=
  mk (arena self) (<[id := idx]> (by_id self)).
Definition map_id (self : t A) (id : Z) : option ArenaIdx := by_id self !! id.
Definition get (self : t A) (idx : ArenaIdx) : option A := arena self !! idx.
(** [*self.get_mut(idx) = f(...)]; [None] is the index panic *)
Definition update (idx : ArenaIdx) (f : A -> A) (self : t A) : option (t A) :=
  match arena self !! idx with
  | Some x => Some (mk (<[idx := f x]> (arena self)) (by_id self))
  | None => None
  end.
End Arena.
End Arena.
Abbreviation Arena := Arena.t.

(** ** References *)

Module SchemaRef.
Record t : Type := mk { idx : ArenaIdx }.
#[export] Instance eq_dec : EqDecision t. Proof. solve_decision. Defined.
#[export] Instance countable : Countable t.
Proof. apply (inj_countable' idx mk). by intros []. Defined.
End SchemaRef.
Module TableRef.
Record t : Type := mk { idx : ArenaIdx }.
#[export] Instance eq_dec : EqDecision t. Proof. solve_decision. Defined.
#[export] Instance countable : Countable t.
Proof. apply (inj_countable' idx mk). by intros []. Defined.
End TableRef.
Module ViewRef.
Record t : Type := mk { idx : ArenaIdx }.
#[export] Instance eq_dec : EqDecision t. Proof. solve_decision. Defined.
#[export] Instance countable : Countable t.
Proof. apply (inj_countable' idx mk). by intros []. Defined.
End ViewRef.
Module MacroRef.
Record t : Type := mk { idx : ArenaIdx }.
#[export] Instance eq_dec : EqDecision t. Proof. solve_decision. Defined.
#[export] Instance countable : Countable t.
Proof. apply (inj_countable' idx mk). by intros []. Defined.
End MacroRef.
#[export] Existing Instances SchemaRef.eq_dec SchemaRef.countable TableRef.eq_dec
  TableRef.countable ViewRef.eq_dec ViewRef.countable MacroRef.eq_dec MacroRef.countable.
Module ColumnRef.
Record t : Type := mk { table_ref : TableRef.t; column_idx : ArenaIdx }.
#[export] Instance eq_dec : EqDecision t. Proof. solve_decision. Defined.
#[export] Instance countable : Countable t.
Proof.
  apply (inj_countable' (fun c => (table_ref c, column_idx c)) (fun p => mk p.1 p.2)).
  by intros [].
Defined.
End ColumnRef.
#[export] Existing Instances ColumnRef.eq_dec ColumnRef.countable.
Abbreviation SchemaRef := SchemaRef.t.
Abbreviation TableRef := TableRef.t.
Abbreviation ViewRef := ViewRef.t.
Abbreviation MacroRef := MacroRef.t.
Abbreviation ColumnRef := ColumnRef.t.

(** ** Entities of the catalog *)

Module CatalogSchema.
Record t `{External} : Type := mk {
  id : option Z;
  name : string;
  tables : gmap string ArenaIdx;
  views : gmap string ArenaIdx;
  macros : gmap (string * MacroType) ArenaIdx;
  path : DucklakePath;
}.
#[global] Arguments mk {_} id name tables views macros path.
Definition eta `{External} (s : t) : t :=
  mk (id s) (name s) (tables s) (views s) (macros s) (path s).
#[export] Instance set_id `{External} : Setter id := ltac:(mk_setter eta id).
#[export] Instance set_tables `{External} : Setter tables := ltac:(mk_setter eta tables).
#[export] Instance set_views `{External} : Setter views := ltac:(mk_setter eta views).
#[export] Instance set_macros `{External} : Setter macros := ltac:(mk_setter eta macros).
End CatalogSchema.
#[export] Existing Instances CatalogSchema.set_id CatalogSchema.set_tables
  CatalogSchema.set_views CatalogSchema.set_macros.

Module CatalogTable.
Record t `{External} : Type := mk {
  id : option Z;
  name : QualifiedName;
  columns : CatalogColumns;
  partition : option CatalogTablePartition.t;
  sort_info : option CatalogTableSortInfo.t;
  tags : Tags;
  path : DucklakePath;
}.
#[global] Arguments mk {_} id name columns partition sort_info tags path.
Definition eta `{External} (s : t) : t :=
  mk (id s) (name s) (columns s) (partition s) (sort_info s) (tags s) (path s).
#[export] Instance set_id `{External} : Setter id := ltac:(mk_setter eta id).
#[export] Instance set_name `{External} : Setter name := ltac:(mk_setter eta name).
#[export] Instance set_columns `{External} : Setter columns := ltac:(mk_setter eta columns).
#[export] Instance set_partition `{External} : Setter partition := ltac:(mk_setter eta partition).
#[export] Instance set_sort `{External} : Setter sort_info := ltac:(mk_setter eta sort_info).
#[export] Instance set_tags `{External} : Setter tags := ltac:(mk_setter eta tags).
End CatalogTable.
#[export] Existing Instances CatalogTable.set_id CatalogTable.set_name CatalogTable.set_columns
  CatalogTable.set_partition CatalogTable.set_sort CatalogTable.set_tags.

Module CatalogView.
Record t : Type := mk {
  id : option Z;
  name : QualifiedName;
  sql : string;
  dialect : string;
  column_aliases : option (list string);
  tags : Tags;
}.
Definition eta (s : t) : t :=
  mk (id s) (name s) (sql s) (dialect s) (column_aliases s) (tags s).
#[export] Instance set_id : Setter id := ltac:(mk_setter eta id).
End CatalogView.
#[export] Existing Instance CatalogView.set_id.

Module CatalogMacro.
Record t : Type := mk {
  id : option Z;
  name : QualifiedName;
  macro_type : MacroType;
  implementations : list MacroImplementation;
}.
Definition eta (s : t) : t := mk (id s) (name s) (macro_type s) (implementations s).
#[export] Instance set_id : Setter id := ltac:(mk_setter eta id).
End CatalogMacro.
#[export] Existing Instance CatalogMacro.set_id.

(** ** What the user sees of the entities *)

Module TableInfo.
Record t `{External} : Type := mk {
  name : QualifiedName; schema : Schema; partitioning : option Partition;
  sort_info : option SortInfo; tags : Tags;
}.
#[global] Arguments mk {_} name schema partitioning sort_info tags.
End TableInfo.
Module ViewInfo.
Record t : Type := mk {
  name : QualifiedName; sql : string; dialect : string;
  column_aliases : option (list string); tags : Tags;
}.
End ViewInfo.
Module MacroInfo.
Record t : Type := mk {
  name : QualifiedName; macro_type : MacroType; implementations : list MacroImplementation;
}.
End MacroInfo.

(** ** The catalog *)

Module Catalog.
Record t `{External} : Type := mk {
  schema_arena : Arena CatalogSchema.t;
  table_arena : Arena CatalogTable.t;
  view_arena : Arena CatalogView.t;
  macro_arena : Arena CatalogMacro.t;
  schemas : gmap string ArenaIdx;
}.
#[global] Arguments mk {_} schema_arena table_arena view_arena macro_arena schemas.
Definition eta `{External} (c : t) : t :=
  mk (schema_arena c) (table_arena c) (view_arena c) (macro_arena c) (schemas c).
#[export] Instance set_schema_arena `{External} : Setter schema_arena :=
  ltac:(mk_setter eta schema_arena).
#[export] Instance set_table_arena `{External} : Setter table_arena :=
  ltac:(mk_setter eta table_arena).
#[export] Instance set_view_arena `{External} : Setter view_arena :=
  ltac:(mk_setter eta view_arena).
#[export] Instance set_macro_arena `{External} : Setter macro_arena :=
  ltac:(mk_setter eta macro_arena).
#[export] Instance set_schemas `{External} : Setter schemas := ltac:(mk_setter eta schemas).

Section Catalog.
Context `{EXT : External}.
Implicit Types (self : t).

Definition empty : t := mk Arena.new Arena.new Arena.new Arena.new ∅.

(** *** References ([TryIntoRef]) *)

Definition schema_by_name self (name : string) : result SchemaRef :=
  SchemaRef.mk <$> ok_or (schema_not_found name) (schemas self !! name).
Definition schema_by_id self (id : Z) : result SchemaRef :=
  SchemaRef.mk <$> ok_or (EntityNotFound id) (Arena.map_id (schema_arena self) id).
Definition schema_inner self (r : SchemaRef) : result CatalogSchema.t :=
  unwrap (Arena.get (schema_arena self) (SchemaRef.idx r)).

Definition table_by_name self (name : QualifiedName) : result TableRef :=
  r ← schema_by_name self (QualifiedName.schema name);
  schema ← schema_inner self r;
  TableRef.mk <$> ok_or (table_not_found name)
    (CatalogSchema.tables schema !! QualifiedName.name name).
Definition table_by_id self (id : Z) : result TableRef :=
  TableRef.mk <$> ok_or (EntityNotFound id) (Arena.map_id (table_arena self) id).
Definition table_inner self (r : TableRef) : result CatalogTable.t :=
  unwrap (Arena.get (table_arena self) (TableRef.idx r)).

Definition view_by_name self (name : QualifiedName) : result ViewRef :=
  r ← schema_by_name self (QualifiedName.schema name);
  schema ← schema_inner self r;
  ViewRef.mk <$> ok_or (view_not_found name)
    (CatalogSchema.views schema !! QualifiedName.name name).
Definition view_by_id self (id : Z) : result ViewRef :=
  ViewRef.mk <$> ok_or (EntityNotFound id) (Arena.map_id (view_arena self) id).
Definition view_inner self (r : ViewRef) : result CatalogView.t :=
  unwrap (Arena.get (view_arena self) (ViewRef.idx r)).

Definition macro_by_name self (name : QualifiedName) (macro_type : MacroType) : result MacroRef :=
  r ← schema_by_name self (QualifiedName.schema name);
  schema ← schema_inner self r;
  MacroRef.mk <$> ok_or (macro_not_found name)
    (CatalogSchema.macros schema !! (to_ascii_lowercase (QualifiedName.name name), macro_type)).
Definition macro_by_id self (id : Z) : result MacroRef :=
  MacroRef.mk <$> ok_or (EntityNotFound id) (Arena.map_id (macro_arena self) id).
Definition macro_inner self (r : MacroRef) : result CatalogMacro.t :=
  unwrap (Arena.get (macro_arena self) (MacroRef.idx r)).

(** *** [inner_mut]: an index out of bounds panics *)

Definition update_arena {A} (arena : t -> Arena A) `{!Setter arena} (idx : ArenaIdx) (f : A -> A)
    : method t unit :=
  fun self =>
    match Arena.update idx f (arena self) with
    | Some a => (Ok tt, self <| arena := a |>)
    | None => (Panic, self)
    end.
Definition update_schema (r : SchemaRef) := update_arena schema_arena (SchemaRef.idx r).
Definition update_table (r : TableRef) := update_arena table_arena (TableRef.idx r).
Definition update_view (r : ViewRef) := update_arena view_arena (ViewRef.idx r).
Definition update_macro (r : MacroRef) := update_arena macro_arena (MacroRef.idx r).

(** *** Schemas ([catalog/mod.rs], [views/schema.rs]) *)

Definition list_schemas self : list SchemaRef :=
  (fun p => SchemaRef.mk p.2) <$> map_to_list (schemas self).

Definition schema_id self (r : SchemaRef) : result (option Z) :=
  CatalogSchema.id <$> schema_inner self r.
Definition schema_name self (r : SchemaRef) : result string :=
  CatalogSchema.name <$> schema_inner self r.

Definition list_tables self (r : SchemaRef) : result (list TableRef) :=
  schema ← schema_inner self r;
  mret ((fun p => TableRef.mk p.2) <$> map_to_list (CatalogSchema.tables schema)).
Definition list_views self (r : SchemaRef) : result (list ViewRef) :=
  schema ← schema_inner self r;
  mret ((fun p => ViewRef.mk p.2) <$> map_to_list (CatalogSchema.views schema)).
Definition list_macros self (r : SchemaRef) : result (list MacroRef) :=
  schema ← schema_inner self r;
  mret ((fun p => MacroRef.mk p.2) <$> map_to_list (CatalogSchema.macros schema)).

Definition add_schema (name : string) (path : DucklakePath) : method t SchemaRef :=
  self ← st_get;
  if is_ok (schema_by_name self name) then st_throw (schema_already_exists name)
  else
    let schema := CatalogSchema.mk None name ∅ ∅ ∅ path in
    let '(idx, arena) := Arena.push schema None (schema_arena self) in
    st_modify (fun self => self <| schema_arena := arena |>) ;;
    st_modify (fun self => self <| schemas ::= <[name := idx]> |>) ;;
    mret (SchemaRef.mk idx).

Definition resolve_schema_id (r : SchemaRef) (id : Z) : method t unit :=
  self ← st_get;
  schema ← st_lift (schema_inner self r);
  match CatalogSchema.id schema with
  | None =>
      update_schema r (fun s => s <| CatalogSchema.id := Some id |>) ;;
      st_modify (fun self => self <| schema_arena ::= Arena.register_id (SchemaRef.idx r) id |>)
  | Some _ => st_panic
  end.

Definition delete_schema (r : SchemaRef) : method t unit :=
  self ← st_get;
  schema ← st_lift (schema_inner self r);
  if decide (CatalogSchema.tables schema <> ∅ \/ CatalogSchema.views schema <> ∅ \/
             CatalogSchema.macros schema <> ∅)
  then st_throw (InvalidChanges
         ("cannot delete schema " +:+ CatalogSchema.name schema +:+ " which is not empty"))
  else st_modify (fun self => self <| schemas ::= delete (CatalogSchema.name schema) |>).

(** *** Tables: reading ([views/table.rs]) *)

Definition table_id self (r : TableRef) : result (option Z) :=
  CatalogTable.id <$> table_inner self r.
Definition table_name self (r : TableRef) : result QualifiedName :=
  CatalogTable.name <$> table_inner self r.
Definition table_tags self (r : TableRef) : result Tags :=
  CatalogTable.tags <$> table_inner self r.

(** [self.catalog.schema(&self.name().schema).unwrap()] *)
Definition table_parent_schema self (r : TableRef) : result SchemaRef :=
  table ← table_inner self r;
  infallible (schema_by_name self (QualifiedName.schema (CatalogTable.name table))).

Definition partition_id self (r : TableRef) : result (option Z) :=
  table ← table_inner self r;
  mret (CatalogTable.partition table ≫= CatalogTablePartition.id).

Definition table_schema self (r : TableRef) : result Schema :=
  table ← table_inner self r; CatalogColumns.to_schema (CatalogTable.columns table).

Definition table_column_data_types self (r : TableRef) : result (gmap Z DataType) :=
  table ← table_inner self r; CatalogColumns.column_data_types (CatalogTable.columns table).

Definition table_partitioning self (r : TableRef) : result (option Partition) :=
  table ← table_inner self r;
  option_outcome (fun p => CatalogTablePartition.into_partition p (CatalogTable.columns table))
    (CatalogTable.partition table).

Definition table_sort_info self (r : TableRef) : result (option SortInfo) :=
  table ← table_inner self r;
  option_outcome (fun s => CatalogTableSortInfo.into_sort_info s (CatalogTable.columns table))
    (CatalogTable.sort_info table).

Definition table_info self (r : TableRef) : result TableInfo.t :=
  name ← table_name self r;
  schema ← table_schema self r;
  partitioning ← table_partitioning self r;
  sort_info ← table_sort_info self r;
  tags ← table_tags self r;
  mret (TableInfo.mk name schema partitioning sort_info tags).

Definition sort_info_includes_column self (r : TableRef) (column_ref : ColumnRef) : result bool :=
  table ← table_inner self r;
  mret match CatalogTable.sort_info table with
       | Some s => CatalogTableSortInfo.references_column s (ColumnRef.column_idx column_ref)
       | None => false
       end.

Definition table_data_path self (r : TableRef) (root_data_path : DucklakePath)
    : result DucklakePath :=
  parent ← table_parent_schema self r;
  schema ← schema_inner self parent;
  table ← table_inner self r;
  data_path ← infallible (DucklakePath.join root_data_path (CatalogSchema.path schema));
  infallible (DucklakePath.join data_path (CatalogTable.path table)).

(** *** Columns ([views/column.rs]) *)

Definition column_by_path self (r : TableRef) (path : list string) : result ColumnRef :=
  table ← table_inner self r;
  ColumnRef.mk r <$> CatalogColumns.arena_idx_by_path (CatalogTable.columns table) path.
Definition column_by_name self (r : TableRef) (name : string) : result ColumnRef :=
  column_by_path self r [name].
Definition column_by_id self (r : TableRef) (id : Z) : result ColumnRef :=
  table ← table_inner self r;
  ColumnRef.mk r <$> ok_or (ColumnNotFound id)
    (CatalogColumns.by_id (CatalogTable.columns table) !! id).
Definition column_inner self (c : ColumnRef) : result CatalogColumn :=
  table ← table_inner self (ColumnRef.table_ref c);
  CatalogColumns.column_at (CatalogTable.columns table) (ColumnRef.column_idx c).

Definition column_id self (c : ColumnRef) : result Z := CatalogColumn.id <$> column_inner self c.
Definition column_nullable self (c : ColumnRef) : result bool :=
  CatalogColumn.nullable <$> column_inner self c.
Definition column_info self (c : ColumnRef) : result Column :=
  table ← table_inner self (ColumnRef.table_ref c);
  CatalogColumns.schema_column_from_arena_index (CatalogTable.columns table)
    (ColumnRef.column_idx c).
Definition column_parent_ref self (c : ColumnRef) : result (option ColumnRef) :=
  col ← column_inner self c;
  mret (ColumnRef.mk (ColumnRef.table_ref c) <$> CatalogColumn.parent_column col).

(** A method of the columns of a table. *)
Definition on_columns {A} (r : TableRef) (m : method CatalogColumns A) : method t A :=
  self ← st_get;
  table ← st_lift (table_inner self r);
  let '(res, columns) := m (CatalogTable.columns table) in
  update_table r (fun table => table <| CatalogTable.columns := columns |>) ;;
  st_lift res.

Definition update_column (c : ColumnRef) (f : CatalogColumn -> CatalogColumn) : method t unit :=
  on_columns (ColumnRef.table_ref c) (CatalogColumns.set_column (ColumnRef.column_idx c) f).

Definition update_primitive_data_type (c : ColumnRef) (d : DataType) : method t unit :=
  update_column c (fun col => col <| CatalogColumn.dtype := CatalogDataType.Primitive d |>).
Definition update_default_value (c : ColumnRef) (v : ColumnDefault) : method t unit :=
  update_column c (fun col => col <| CatalogColumn.default_value := v |>).
Definition update_nullability (c : ColumnRef) (nullable : bool) : method t unit :=
  update_column c (fun col => col <| CatalogColumn.nullable := nullable |>).

Definition rename_column (c : ColumnRef) (new_name : string) : method t unit :=
  on_columns (ColumnRef.table_ref c)
    (CatalogColumns.rename_column (ColumnRef.column_idx c) new_name) ;;
  mret tt.

Definition add_column_tag (c : ColumnRef) (tag : Tag) : method t unit :=
  update_column c (fun col => col <| CatalogColumn.tags ::= Tags_insert tag |>).

Definition remove_column_tag (c : ColumnRef) (key : string) : method t unit :=
  self ← st_get;
  col ← st_lift (column_inner self c);
  update_column c (fun col => col <| CatalogColumn.tags ::= fun tags => (Tags_remove key tags).2 |>) ;;
  match (Tags_remove key (CatalogColumn.tags col)).1 with
  | Some _ => mret tt
  | None => st_throw (NotFound "tag" key)
  end.

Definition remove_column (c : ColumnRef) : method t (list ColumnRef) :=
  self ← st_get;
  let r := ColumnRef.table_ref c in
  let idx := ColumnRef.column_idx c in
  table ← st_lift (table_inner self r);
  if match CatalogTable.partition table with
     | Some p => existsb (fun col => Nat.eqb (CatalogPartitionColumn.column col) idx)
                   (CatalogTablePartition.columns p)
     | None => false
     end
  then st_throw (InvalidChanges "cannot remove column from table as the table is partitioned by it - reset or change the partitioning on this table in order to drop this column")
  else if match CatalogTable.sort_info table with
          | Some s => CatalogTableSortInfo.references_column s idx
          | None => false
          end
  then st_throw (InvalidChanges "cannot remove column from table as the table is sorted by it - reset or change the sort info on this table in order to drop this column")
  else
    idxs ← on_columns r (CatalogColumns.remove_column idx);
    mret (ColumnRef.mk r <$> idxs).

(** *** Tables: writing *)

Definition resolve_table_id (r : TableRef) (id : Z) : method t unit :=
  self ← st_get;
  table ← st_lift (table_inner self r);
  match CatalogTable.id table with
  | None =>
      update_table r (fun s => s <| CatalogTable.id := Some id |>) ;;
      st_modify (fun self => self <| table_arena ::= Arena.register_id (TableRef.idx r) id |>)
  | Some _ => st_panic
  end.

Definition resolve_partition_id (r : TableRef) (id : Z) : method t unit :=
  self ← st_get;
  table ← st_lift (table_inner self r);
  match CatalogTable.partition table with
  | None => st_panic
  | Some p =>
      match CatalogTablePartition.id p with
      | None => update_table r (fun s => s <| CatalogTable.partition :=
                  Some (p <| CatalogTablePartition.id := Some id |>) |>)
      | Some _ => st_panic
      end
  end.

(** [load] is the query for the next column ID of a table. *)
Definition ensure_next_column_id (load : Z -> result Z) (r : TableRef) : method t unit :=
  self ← st_get;
  table ← st_lift (table_inner self r);
  match CatalogColumns.next_column_id (CatalogTable.columns table) with
  | Some _ => mret tt
  | None =>
      id ← st_lift (unwrap (CatalogTable.id table));
      next ← st_lift (load id);
      update_table r (fun table => table <| CatalogTable.columns ::=
        fun c => c <| CatalogColumns.next_column_id := Some next |> |>)
  end.

Definition rename_table (r : TableRef) (new_name : string) : method t unit :=
  self ← st_get;
  table ← st_lift (table_inner self r);
  let name := CatalogTable.name table in
  let new_qualified := QualifiedName.mk (QualifiedName.schema name) new_name in
  schema_ref ← st_lift (schema_by_name self (QualifiedName.schema name));
  schema ← st_lift (schema_inner self schema_ref);
  if decide (is_Some (CatalogSchema.tables schema !! new_name))
  then st_throw (table_already_exists new_qualified)
  else if decide (is_Some (CatalogSchema.views schema !! new_name))
  then st_throw (view_already_exists new_qualified)
  else
    idx ← st_lift (unwrap (CatalogSchema.tables schema !! QualifiedName.name name));
    update_schema schema_ref (fun s => s <| CatalogSchema.tables ::=
      fun m => <[new_name := idx]> (delete (QualifiedName.name name) m) |>) ;;
    update_table r (fun table => table <| CatalogTable.name := new_qualified |>).

Definition add_column (r : TableRef) (path : list string) (column : Column)
    : method t (option ColumnRef * list ColumnRef) :=
  self ← st_get;
  parent_idx ← st_lift match path with
                       | [] => mret None
                       | _ => c ← column_by_path self r path; mret (Some (ColumnRef.column_idx c))
                       end;
  idxs ← on_columns r (CatalogColumns.add_column parent_idx column);
  mret (ColumnRef.mk r <$> parent_idx, ColumnRef.mk r <$> idxs).

Definition partition_refs (r : TableRef) (p : CatalogTablePartition.t) : list ColumnRef :=
  (fun col => ColumnRef.mk r (CatalogPartitionColumn.column col)) <$>
    CatalogTablePartition.columns p.

Definition update_partitioning (r : TableRef) (partitioning : option Partition)
    : method t (option (list ColumnRef)) :=
  self ← st_get;
  table ← st_lift (table_inner self r);
  partition ← st_lift (option_outcome (fun p =>
    CatalogTablePartition.from_partition p (CatalogTable.columns table)) partitioning);
  update_table r (fun table => table <| CatalogTable.partition := partition |>) ;;
  mret (partition_refs r <$> partition).

Definition update_sort_info (r : TableRef) (sort_info : option SortInfo) : method t unit :=
  self ← st_get;
  table ← st_lift (table_inner self r);
  sort_info ← st_lift (option_outcome (fun s =>
    CatalogTableSortInfo.from_sort_info s (CatalogTable.columns table)) sort_info);
  update_table r (fun table => table <| CatalogTable.sort_info := sort_info |>).

Definition add_table_tag (r : TableRef) (tag : Tag) : method t unit :=
  update_table r (fun table => table <| CatalogTable.tags ::= Tags_insert tag |>).

Definition remove_table_tag (r : TableRef) (key : string) : method t unit :=
  self ← st_get;
  table ← st_lift (table_inner self r);
  update_table r (fun table => table <| CatalogTable.tags ::= fun tags => (Tags_remove key tags).2 |>) ;;
  match (Tags_remove key (CatalogTable.tags table)).1 with
  | Some _ => mret tt
  | None => st_throw (NotFound "tag" key)
  end.

Definition delete_table (r : TableRef) : method t unit :=
  self ← st_get;
  table ← st_lift (table_inner self r);
  parent ← st_lift (table_parent_schema self r);
  update_schema parent (fun s => s <| CatalogSchema.tables ::=
    delete (QualifiedName.name (CatalogTable.name table)) |>).

Definition add_table (table : TableInfo.t) (path : DucklakePath) (next_column_id : option Z)
    : method t (SchemaRef * TableRef * list (list ColumnRef) * option (list ColumnRef)) :=
  let name := TableInfo.name table in
  self ← st_get;
  match table_by_name self name with
  | Ok r => existing ← st_lift (table_name self r); st_throw (table_already_exists existing)
  | Panic => st_panic
  | Err _ =>
  match view_by_name self name with
  | Ok r => view ← st_lift (view_inner self r);
            st_throw (view_already_exists (CatalogView.name view))
  | Panic => st_panic
  | Err _ =>
      columns ← st_lift (CatalogColumns.from_schema (TableInfo.schema table) next_column_id);
      partition ← st_lift (option_outcome (fun p =>
        CatalogTablePartition.from_partition p columns) (TableInfo.partitioning table));
      sort_info ← st_lift (option_outcome (fun s =>
        CatalogTableSortInfo.from_sort_info s columns) (TableInfo.sort_info table));
      let catalog_table :=
        CatalogTable.mk None name columns partition sort_info (TableInfo.tags table) path in
      column_idxs ← st_lift (CatalogColumns.root_column_indices columns);
      let '(idx, arena) := Arena.push catalog_table None (table_arena self) in
      let table_ref := TableRef.mk idx in
      st_modify (fun self => self <| table_arena := arena |>) ;;
      self ← st_get;
      schema_ref ← st_lift (schema_by_name self (QualifiedName.schema name));
      update_schema schema_ref (fun s => s <| CatalogSchema.tables ::=
        <[QualifiedName.name name := idx]> |>) ;;
      mret (schema_ref, table_ref,
            map (fun idxs => map (ColumnRef.mk table_ref) idxs) column_idxs,
            option_map (partition_refs table_ref) partition)
  end
  end.

(** *** Views ([views/view.rs]) *)

Definition view_id self (r : ViewRef) : result (option Z) :=
  CatalogView.id <$> view_inner self r.
Definition view_name self (r : ViewRef) : result QualifiedName :=
  CatalogView.name <$> view_inner self r.

Definition add_view (view : ViewInfo.t) : method t (SchemaRef * ViewRef) :=
  let name := ViewInfo.name view in
  self ← st_get;
  match view_by_name self name with
  | Ok r => existing ← st_lift (view_name self r); st_throw (view_already_exists existing)
  | Panic => st_panic
  | Err _ =>
  match table_by_name self name with
  | Ok r => existing ← st_lift (table_name self r); st_throw (table_already_exists existing)
  | Panic => st_panic
  | Err _ =>
      let catalog_view := CatalogView.mk None name (ViewInfo.sql view) (ViewInfo.dialect view)
                            (ViewInfo.column_aliases view) (ViewInfo.tags view) in
      let '(idx, arena) := Arena.push catalog_view None (view_arena self) in
      st_modify (fun self => self <| view_arena := arena |>) ;;
      self ← st_get;
      schema_ref ← st_lift (schema_by_name self (QualifiedName.schema name));
      update_schema schema_ref (fun s => s <| CatalogSchema.views ::=
        <[QualifiedName.name name := idx]> |>) ;;
      mret (schema_ref, ViewRef.mk idx)
  end
  end.

Definition resolve_view_id (r : ViewRef) (id : Z) : method t unit :=
  self ← st_get;
  view ← st_lift (view_inner self r);
  match CatalogView.id view with
  | None =>
      update_view r (fun s => s <| CatalogView.id := Some id |>) ;;
      st_modify (fun self => self <| view_arena ::= Arena.register_id (ViewRef.idx r) id |>)
  | Some _ => st_panic
  end.

Definition delete_view (r : ViewRef) : method t unit :=
  self ← st_get;
  view ← st_lift (view_inner self r);
  parent ← st_lift (infallible (schema_by_name self (QualifiedName.schema (CatalogView.name view))));
  update_schema parent (fun s => s <| CatalogSchema.views ::=
    delete (QualifiedName.name (CatalogView.name view)) |>).

(** *** Macros ([views/macro_.rs]) *)

Definition macro_id self (r : MacroRef) : result (option Z) :=
  CatalogMacro.id <$> macro_inner self r.
Definition macro_name self (r : MacroRef) : result QualifiedName :=
  CatalogMacro.name <$> macro_inner self r.
Definition macro_type self (r : MacroRef) : result MacroType :=
  CatalogMacro.macro_type <$> macro_inner self r.

Definition macro_key (name : QualifiedName) (macro_type : MacroType) : string * MacroType :=
  (to_ascii_lowercase (QualifiedName.name name), macro_type).

Definition add_macro (macro_ : MacroInfo.t) : method t (SchemaRef * MacroRef) :=
  let name := MacroInfo.name macro_ in
  self ← st_get;
  match macro_by_name self name (MacroInfo.macro_type macro_) with
  | Ok r => existing ← st_lift (macro_name self r); st_throw (macro_already_exists existing)
  | Panic => st_panic
  | Err _ =>
      let catalog_macro := CatalogMacro.mk None name (MacroInfo.macro_type macro_)
                             (MacroInfo.implementations macro_) in
      let '(idx, arena) := Arena.push catalog_macro None (macro_arena self) in
      st_modify (fun self => self <| macro_arena := arena |>) ;;
      self ← st_get;
      schema_ref ← st_lift (schema_by_name self (QualifiedName.schema name));
      update_schema schema_ref (fun s => s <| CatalogSchema.macros ::=
        <[macro_key name (MacroInfo.macro_type macro_) := idx]> |>) ;;
      mret (schema_ref, MacroRef.mk idx)
  end.

Definition resolve_macro_id (r : MacroRef) (id : Z) : method t unit :=
  self ← st_get;
  macro_ ← st_lift (macro_inner self r);
  match CatalogMacro.id macro_ with
  | None =>
      update_macro r (fun s => s <| CatalogMacro.id := Some id |>) ;;
      st_modify (fun self => self <| macro_arena ::= Arena.register_id (MacroRef.idx r) id |>)
  | Some _ => st_panic
  end.

Definition delete_macro (r : MacroRef) : method t unit :=
  self ← st_get;
  macro_ ← st_lift (macro_inner self r);
  parent ← st_lift (infallible (schema_by_name self
                      (QualifiedName.schema (CatalogMacro.name macro_))));
  update_schema parent (fun s => s <| CatalogSchema.macros ::=
    delete (macro_key (CatalogMacro.name macro_) (CatalogMacro.macro_type macro_)) |>).
End Catalog.
End Catalog.
#[export] Existing Instances Catalog.set_schema_arena Catalog.set_table_arena
  Catalog.set_view_arena Catalog.set_macro_arena Catalog.set_schemas.
Abbreviation Catalog := Catalog.t.
