(* ===== verification/CatalogFacts.v ===== *)
(** * The catalog is well formed, and its names behave as maps

    [well_formed]: every live name leads to the entity that carries it, tables
    and views of a schema share one name space, and every registered ID leads
    to the entity with that ID. Every operation keeps it. On a well-formed
    catalog the operations on tables act on the names the way the operations of
    a finite map do. *)

From S2P Require Import Prelude Text Regex Identifier Types Instances CatalogColumns Catalog.

(** ** Maps into an arena *)

(** Every key of [m] leads to an entity that satisfies [wants] for the key. *)
Definition points {K A} `{Countable K} (arena : list A) (wants : K -> A -> Prop)
    (m : gmap K ArenaIdx) : Prop :=
  forall k i, m !! k = Some i -> exists x, arena !! i = Some x /\ wants k x.

Section Points.
Context {K A : Type} `{Countable K}.
Implicit Types (arena : list A) (wants : K -> A -> Prop) (m : gmap K ArenaIdx).

Lemma points_empty arena wants : points arena wants ∅.
Proof. intros k i; by rewrite lookup_empty. Qed.
Lemma points_push arena wants m x : points arena wants m -> points (arena ++ [x]) wants m.
Proof. intros Hp k i (y & Hy & Hw)%Hp; exists y; split; [by apply lookup_app_l_Some | done]. Qed.
Lemma points_insert arena wants m k i x :
  points arena wants m -> arena !! i = Some x -> wants k x -> points arena wants (<[k := i]> m).
Proof.
  intros Hp Hx Hw k' i'; destruct (decide (k = k')) as [->|?];
    [rewrite lookup_insert_eq; naive_solver | rewrite lookup_insert_ne by done; apply Hp].
Qed.
Lemma points_delete arena wants m k : points arena wants m -> points arena wants (delete k m).
Proof. intros Hp k' i [_ Hi]%lookup_delete_Some; by apply Hp. Qed.
Lemma points_update arena wants m i x y :
  points arena wants m -> arena !! i = Some x ->
  (forall k, m !! k = Some i -> wants k x -> wants k y) -> points (<[i := y]> arena) wants m.
Proof.
  intros Hp Hx Hy k j Hj; destruct (Hp k j Hj) as (z & Hz & Hw).
  destruct (decide (i = j)) as [->|?].
  - simplify_eq; exists y; split; [|by eauto].
    apply list_lookup_insert_eq; by eapply lookup_lt_Some.
  - exists z; by rewrite list_lookup_insert_ne by done.
Qed.
End Points.
#[export] Hint Resolve points_empty points_push points_delete : ducklake.

(** ** Well-formed catalogs *)

Section WellFormed.
Context `{EXT : External}.
Implicit Types c : Catalog.

Definition arenas c := (Arena.arena (Catalog.table_arena c), Arena.arena (Catalog.view_arena c),
                        Arena.arena (Catalog.macro_arena c)).

Definition names_table (schema name : string) (t : CatalogTable.t) : Prop :=
  CatalogTable.name t = QualifiedName.mk schema name.
Definition names_view (schema name : string) (v : CatalogView.t) : Prop :=
  CatalogView.name v = QualifiedName.mk schema name.
Definition names_macro (schema : string) (key : string * MacroType) (m : CatalogMacro.t) : Prop :=
  QualifiedName.schema (CatalogMacro.name m) = schema /\
  key = Catalog.macro_key (CatalogMacro.name m) (CatalogMacro.macro_type m).

Record schema_ok c (name : string) (s : CatalogSchema.t) : Prop := {
  ok_name : CatalogSchema.name s = name;
  ok_tables : points (Arena.arena (Catalog.table_arena c)) (names_table name)
                (CatalogSchema.tables s);
  ok_views : points (Arena.arena (Catalog.view_arena c)) (names_view name)
               (CatalogSchema.views s);
  ok_macros : points (Arena.arena (Catalog.macro_arena c)) (names_macro name)
                (CatalogSchema.macros s);
  ok_disjoint : forall n i, CatalogSchema.tables s !! n = Some i -> CatalogSchema.views s !! n = None;
}.

Definition registered {A} (id : A -> option Z) (arena : Arena A) : Prop :=
  points (Arena.arena arena) (fun z x => id x = Some z) (Arena.by_id arena).

Record well_formed c : Prop := {
  wf_schemas : points (Arena.arena (Catalog.schema_arena c)) (schema_ok c) (Catalog.schemas c);
  wf_schema_ids : registered CatalogSchema.id (Catalog.schema_arena c);
  wf_table_ids : registered CatalogTable.id (Catalog.table_arena c);
  wf_view_ids : registered CatalogView.id (Catalog.view_arena c);
  wf_macro_ids : registered CatalogMacro.id (Catalog.macro_arena c);
}.

Lemma points_mono {K A} `{Countable K} (arena : list A) (P Q : K -> A -> Prop) m :
  (forall k x, P k x -> Q k x) -> points arena P m -> points arena Q m.
Proof. intros HPQ Hp k i Hi; destruct (Hp k i Hi) as (x & ? & ?); eauto. Qed.

Lemma schema_ok_mono c c' n s :
  (forall m, points (Arena.arena (Catalog.table_arena c)) (names_table n) m ->
             points (Arena.arena (Catalog.table_arena c')) (names_table n) m) ->
  (forall m, points (Arena.arena (Catalog.view_arena c)) (names_view n) m ->
             points (Arena.arena (Catalog.view_arena c')) (names_view n) m) ->
  (forall m, points (Arena.arena (Catalog.macro_arena c)) (names_macro n) m ->
             points (Arena.arena (Catalog.macro_arena c')) (names_macro n) m) ->
  schema_ok c n s -> schema_ok c' n s.
Proof. intros Ht Hv Hm []; split; auto. Qed.

(** *** The effects of the operations keep well-formedness *)

Lemma wf_push_table c t :
  well_formed c ->
  well_formed (c <| Catalog.table_arena := (Arena.push t None (Catalog.table_arena c)).2 |>).
Proof.
  intros []; split; cbn; auto; [|by unfold registered; cbn; apply points_push].
  eapply points_mono; [|eassumption]; intros n s; apply schema_ok_mono; cbn; auto with ducklake.
Qed.
Lemma wf_push_view c v :
  well_formed c ->
  well_formed (c <| Catalog.view_arena := (Arena.push v None (Catalog.view_arena c)).2 |>).
Proof.
  intros []; split; cbn; auto; [|by unfold registered; cbn; apply points_push].
  eapply points_mono; [|eassumption]; intros n s; apply schema_ok_mono; cbn; auto with ducklake.
Qed.
Lemma wf_push_macro c m :
  well_formed c ->
  well_formed (c <| Catalog.macro_arena := (Arena.push m None (Catalog.macro_arena c)).2 |>).
Proof.
  intros []; split; cbn; auto; [|by unfold registered; cbn; apply points_push].
  eapply points_mono; [|eassumption]; intros n s; apply schema_ok_mono; cbn; auto with ducklake.
Qed.

Lemma registered_update {A} (id : A -> option Z) (arena arena' : Arena A) i x (f : A -> A) :
  registered id arena -> Arena.arena arena !! i = Some x -> (forall z, id x = Some z -> id (f x) = Some z) ->
  Arena.update i f arena = Some arena' -> registered id arena'.
Proof.
  unfold Arena.update; intros Hr Hx Hid; rewrite Hx; intros [= <-].
  eapply points_update; eauto.
Qed.

Lemma wf_update_table c i t f :
  well_formed c -> Arena.arena (Catalog.table_arena c) !! i = Some t ->
  CatalogTable.name (f t) = CatalogTable.name t ->
  (forall z, CatalogTable.id t = Some z -> CatalogTable.id (f t) = Some z) ->
  well_formed (Catalog.update_arena Catalog.table_arena i f c).2.
Proof.
  intros [] Ht Hn Hid; unfold Catalog.update_arena, Arena.update; rewrite Ht; cbn.
  split; cbn; auto; [|unfold registered; cbn; eapply points_update; [done..|]; naive_solver].
  eapply points_mono; [|eassumption]; intros n s; apply schema_ok_mono; cbn; auto.
  intros m Hm; eapply points_update; eauto; unfold names_table; congruence.
Qed.
Lemma wf_update_view c i v f :
  well_formed c -> Arena.arena (Catalog.view_arena c) !! i = Some v ->
  CatalogView.name (f v) = CatalogView.name v ->
  (forall z, CatalogView.id v = Some z -> CatalogView.id (f v) = Some z) ->
  well_formed (Catalog.update_arena Catalog.view_arena i f c).2.
Proof.
  intros [] Hv Hn Hid; unfold Catalog.update_arena, Arena.update; rewrite Hv; cbn.
  split; cbn; auto; [|unfold registered; cbn; eapply points_update; [done..|]; naive_solver].
  eapply points_mono; [|eassumption]; intros n s; apply schema_ok_mono; cbn; auto.
  intros m Hm; eapply points_update; eauto; unfold names_view; congruence.
Qed.
Lemma wf_update_macro c i v f :
  well_formed c -> Arena.arena (Catalog.macro_arena c) !! i = Some v ->
  CatalogMacro.name (f v) = CatalogMacro.name v ->
  CatalogMacro.macro_type (f v) = CatalogMacro.macro_type v ->
  (forall z, CatalogMacro.id v = Some z -> CatalogMacro.id (f v) = Some z) ->
  well_formed (Catalog.update_arena Catalog.macro_arena i f c).2.
Proof.
  intros [] Hv Hn Htype Hid; unfold Catalog.update_arena, Arena.update; rewrite Hv; cbn.
  split; cbn; auto; [|unfold registered; cbn; eapply points_update; [done..|]; naive_solver].
  eapply points_mono; [|eassumption]; intros n s; apply schema_ok_mono; cbn; auto.
  intros m Hm; eapply points_update; eauto; unfold names_macro; intros k _; congruence.
Qed.
Lemma wf_update_schema c i s f :
  well_formed c -> Arena.arena (Catalog.schema_arena c) !! i = Some s ->
  (forall n, Catalog.schemas c !! n = Some i -> schema_ok c n s -> schema_ok c n (f s)) ->
  (forall z, CatalogSchema.id s = Some z -> CatalogSchema.id (f s) = Some z) ->
  well_formed (Catalog.update_arena Catalog.schema_arena i f c).2.
Proof.
  intros [Hs] Hi Hok Hid; unfold Catalog.update_arena, Arena.update; rewrite Hi; cbn.
  split; cbn; auto; [|unfold registered; cbn; eapply points_update; [done..|]; naive_solver].
  eapply points_mono; [|eapply points_update; [exact Hs | exact Hi | exact Hok]].
  intros n s'; apply schema_ok_mono; auto.
Qed.

Lemma registered_register {A} (id : A -> option Z) (arena : Arena A) i z x :
  registered id arena -> Arena.arena arena !! i = Some x -> id x = Some z ->
  registered id (Arena.register_id i z arena).
Proof. intros; unfold registered; cbn; by eapply points_insert. Qed.

Ltac wf_register :=
  intros [] ? ?; split; cbn; auto; [|eapply registered_register; eauto];
  eapply points_mono; [|eassumption]; intros ? ?; apply schema_ok_mono; auto.

Lemma wf_register_table c i t z :
  well_formed c -> Arena.arena (Catalog.table_arena c) !! i = Some t ->
  CatalogTable.id t = Some z ->
  well_formed (c <| Catalog.table_arena ::= Arena.register_id i z |>).
Proof. wf_register. Qed.
Lemma wf_register_view c i v z :
  well_formed c -> Arena.arena (Catalog.view_arena c) !! i = Some v ->
  CatalogView.id v = Some z ->
  well_formed (c <| Catalog.view_arena ::= Arena.register_id i z |>).
Proof. wf_register. Qed.
Lemma wf_register_macro c i m z :
  well_formed c -> Arena.arena (Catalog.macro_arena c) !! i = Some m ->
  CatalogMacro.id m = Some z ->
  well_formed (c <| Catalog.macro_arena ::= Arena.register_id i z |>).
Proof. wf_register. Qed.
Lemma wf_register_schema c i s z :
  well_formed c -> Arena.arena (Catalog.schema_arena c) !! i = Some s ->
  CatalogSchema.id s = Some z ->
  well_formed (c <| Catalog.schema_arena ::= Arena.register_id i z |>).
Proof.
  intros [] ? ?; split; cbn; auto; [|by eapply registered_register].
  eapply points_mono; [|eassumption]; intros ? ?; apply schema_ok_mono; auto.
Qed.

(** *** The operations *)

(** A reference to a live table: its name leads back to it. *)
Definition live_table c (r : TableRef) : Prop :=
  exists t, Arena.arena (Catalog.table_arena c) !! TableRef.idx r = Some t /\
    Catalog.table_by_name c (CatalogTable.name t) = Ok r.

(** The operations that change a catalog *)
Inductive operation : Type :=
  | AddSchema (name : string) (path : DucklakePath)
  | ResolveSchemaId (r : SchemaRef) (id : Z)
  | DeleteSchema (r : SchemaRef)
  | AddTable (table : TableInfo.t) (path : DucklakePath) (next_column_id : option Z)
  | ResolveTableId (r : TableRef) (id : Z)
  | ResolvePartitionId (r : TableRef) (id : Z)
  | EnsureNextColumnId (load : Z -> result Z) (r : TableRef)
  | RenameTable (r : TableRef) (new_name : string)
  | AddColumn (r : TableRef) (path : list string) (column : Column)
  | UpdatePartitioning (r : TableRef) (partitioning : option Partition)
  | UpdateSortInfo (r : TableRef) (sort_info : option SortInfo)
  | AddTableTag (r : TableRef) (tag : Tag)
  | RemoveTableTag (r : TableRef) (key : string)
  | DeleteTable (r : TableRef)
  | UpdateColumn (r : ColumnRef) (f : CatalogColumn -> CatalogColumn)
  | RenameColumn (r : ColumnRef) (new_name : string)
  | RemoveColumnTag (r : ColumnRef) (key : string)
  | RemoveColumn (r : ColumnRef)
  | AddView (view : ViewInfo.t)
  | ResolveViewId (r : ViewRef) (id : Z)
  | DeleteView (r : ViewRef)
  | AddMacro (macro_ : MacroInfo.t)
  | ResolveMacroId (r : MacroRef) (id : Z)
  | DeleteMacro (r : MacroRef).

(** The catalog an operation leaves, whether it succeeds or not *)
Definition perform (op : operation) (c : Catalog) : Catalog :=
  match op with
  | AddSchema name path => (Catalog.add_schema name path c).2
  | ResolveSchemaId r id => (Catalog.resolve_schema_id r id c).2
  | DeleteSchema r => (Catalog.delete_schema r c).2
  | AddTable table path next_column_id => (Catalog.add_table table path next_column_id c).2
  | ResolveTableId r id => (Catalog.resolve_table_id r id c).2
  | ResolvePartitionId r id => (Catalog.resolve_partition_id r id c).2
  | EnsureNextColumnId load r => (Catalog.ensure_next_column_id load r c).2
  | RenameTable r new_name => (Catalog.rename_table r new_name c).2
  | AddColumn r path column => (Catalog.add_column r path column c).2
  | UpdatePartitioning r partitioning => (Catalog.update_partitioning r partitioning c).2
  | UpdateSortInfo r sort_info => (Catalog.update_sort_info r sort_info c).2
  | AddTableTag r tag => (Catalog.add_table_tag r tag c).2
  | RemoveTableTag r key => (Catalog.remove_table_tag r key c).2
  | DeleteTable r => (Catalog.delete_table r c).2
  | UpdateColumn r f => (Catalog.update_column r f c).2
  | RenameColumn r new_name => (Catalog.rename_column r new_name c).2
  | RemoveColumnTag r key => (Catalog.remove_column_tag r key c).2
  | RemoveColumn r => (Catalog.remove_column r c).2
  | AddView view => (Catalog.add_view view c).2
  | ResolveViewId r id => (Catalog.resolve_view_id r id c).2
  | DeleteView r => (Catalog.delete_view r c).2
  | AddMacro macro_ => (Catalog.add_macro macro_ c).2
  | ResolveMacroId r id => (Catalog.resolve_macro_id r id c).2
  | DeleteMacro r => (Catalog.delete_macro r c).2
  end.

(** Renaming is the one operation that needs its table to be live; the
    transaction always finds it by its name. *)
Definition allowed c (op : operation) : Prop :=
  match op with RenameTable r _ => live_table c r | _ => True end.

(** *** Every operation keeps well-formedness *)

Lemma wf_get {A} (f : Catalog -> method Catalog A) c :
  well_formed (f c c).2 -> well_formed ((st_get ≫= f) c).2.
Proof. done. Qed.
Lemma wf_lift {A B} (o : result A) (f : A -> method Catalog B) c :
  well_formed c -> (forall a, o = Ok a -> well_formed (f a c).2) ->
  well_formed ((st_lift o ≫= f) c).2.
Proof. intros Hc Hf; unfold st_lift, mbind, stateful_bind; destruct o; cbn; auto. Qed.
Lemma wf_bind {A B} (m : method Catalog A) (f : A -> method Catalog B) c :
  well_formed (m c).2 -> (forall a, (m c).1 = Ok a -> well_formed (f a (m c).2).2) ->
  well_formed ((m ≫= f) c).2.
Proof.
  intros Hc Hf; unfold mbind, stateful_bind; destruct (m c) as [[a|e|] c']; cbn in *; auto.
Qed.

Lemma wf_bind_ret {A B} (m : method Catalog A) (g : A -> B) c :
  well_formed (m c).2 -> well_formed ((m ≫= fun a => mret (g a)) c).2.
Proof. intros Hc; by apply wf_bind. Qed.

Lemma inner_some {A} (arena : Arena A) i x :
  @unwrap DucklakeError A (Arena.get arena i) = Ok x -> Arena.arena arena !! i = Some x.
Proof. unfold Arena.get; by destruct (_ !! _); intros [= ->]. Qed.

Lemma schema_by_name_inner c name r s :
  Catalog.schema_by_name c name = Ok r -> Catalog.schema_inner c r = Ok s ->
  well_formed c -> Catalog.schemas c !! name = Some (SchemaRef.idx r) /\ schema_ok c name s.
Proof.
  unfold Catalog.schema_by_name, Catalog.schema_inner; intros Hr Hs%inner_some [Hw].
  destruct (Catalog.schemas c !! name) as [i|] eqn:Hi; simplify_eq/=.
  destruct (Hw name i Hi) as (s' & Hs' & Hok); by simplify_eq.
Qed.

(** One schema carries each name. *)
Lemma schemas_inj c n n' i :
  well_formed c -> Catalog.schemas c !! n = Some i -> Catalog.schemas c !! n' = Some i -> n = n'.
Proof.
  intros [Hw] Hn Hn'; destruct (Hw n i Hn) as (s & Hs & []), (Hw n' i Hn') as (s' & Hs' & []).
  congruence.
Qed.

Ltac wf_step :=
  lazymatch goal with
  | |- well_formed ((st_get ≫= _) _).2 => apply wf_get
  | |- well_formed ((st_lift _ ≫= _) _).2 => apply wf_lift; [try done|intros ? ?]
  | |- well_formed ((_ ≫= _) _).2 => apply wf_bind; [|intros ? ?]
  | |- well_formed ((match ?x with _ => _ end) _).2 => destruct x eqn:?
  end.

Lemma update_arena_none {A} (arena : Catalog -> Arena A) `{!Setter arena} i f c :
  Arena.arena (arena c) !! i = None -> (Catalog.update_arena arena i f c).2 = c.
Proof. intros Hi; unfold Catalog.update_arena, Arena.update; by rewrite Hi. Qed.

Lemma wf_on_table c i f :
  well_formed c -> (forall t, CatalogTable.name (f t) = CatalogTable.name t) ->
  (forall t, CatalogTable.id (f t) = CatalogTable.id t) ->
  well_formed (Catalog.update_arena Catalog.table_arena i f c).2.
Proof.
  intros Hc Hn Hid; destruct (Arena.arena (Catalog.table_arena c) !! i) as [t|] eqn:Ht.
  - eapply wf_update_table; eauto; congruence.
  - by rewrite update_arena_none.
Qed.

Lemma wf_on_columns {A} r (m : method CatalogColumns A) c :
  well_formed c -> well_formed (Catalog.on_columns r m c).2.
Proof.
  intros Hc; unfold Catalog.on_columns; repeat wf_step; by apply wf_on_table.
Qed.

Lemma snoc_lookup {A} (l : list A) x : (l ++ [x]) !! length l = Some x.
Proof. by rewrite lookup_app_r, Nat.sub_diag by lia. Qed.

Lemma wf_add_schema name path c : well_formed c -> well_formed (Catalog.add_schema name path c).2.
Proof.
  intros Hc; unfold Catalog.add_schema; wf_step; destruct (is_ok _) eqn:Hn; [done|].
  cbn; destruct Hc as [Hs Hid ? ? ?]; split; cbn; auto.
  - eapply points_insert; [|by apply snoc_lookup|].
    + apply points_push; eapply points_mono; [|exact Hs]; intros ? ?; apply schema_ok_mono; auto.
    + split; cbn; auto with ducklake; intros n i; by rewrite lookup_empty.
  - unfold registered; cbn; by apply points_push.
Qed.

Lemma insert_lookup {A} (l : list A) i x y : l !! i = Some x -> <[i := y]> l !! i = Some y.
Proof. intros Hx; apply list_lookup_insert_eq; by eapply lookup_lt_Some. Qed.

Lemma wf_resolve_schema_id r id c :
  well_formed c -> well_formed (Catalog.resolve_schema_id r id c).2.
Proof.
  intros Hc; unfold Catalog.resolve_schema_id; wf_step; wf_step.
  match goal with H : _ = Ok _ |- _ => apply inner_some in H as Hs end.
  wf_step; [done|].
  assert (well_formed (Catalog.update_schema r
            (fun s => s <| CatalogSchema.id := Some id |>) c).2) as Hu.
  { eapply wf_update_schema; eauto; [|congruence]; intros n Hn []; by split. }
  wf_step; [done|]; apply (wf_register_schema _ _ (a <| CatalogSchema.id := Some id |>)); [exact Hu| |done].
  unfold Catalog.update_schema, Catalog.update_arena, Arena.update; rewrite Hs; cbn.
  by eapply insert_lookup.
Qed.
Lemma wf_resolve_table_id r id c :
  well_formed c -> well_formed (Catalog.resolve_table_id r id c).2.
Proof.
  intros Hc; unfold Catalog.resolve_table_id; wf_step; wf_step.
  match goal with H : _ = Ok _ |- _ => apply inner_some in H as Hs end.
  wf_step; [done|].
  assert (well_formed (Catalog.update_table r
            (fun s => s <| CatalogTable.id := Some id |>) c).2) as Hu.
  { eapply wf_update_table; eauto; congruence. }
  wf_step; [done|]; apply (wf_register_table _ _ (a <| CatalogTable.id := Some id |>)); [exact Hu| |done].
  unfold Catalog.update_table, Catalog.update_arena, Arena.update; rewrite Hs; cbn.
  by eapply insert_lookup.
Qed.
Lemma wf_resolve_view_id r id c :
  well_formed c -> well_formed (Catalog.resolve_view_id r id c).2.
Proof.
  intros Hc; unfold Catalog.resolve_view_id; wf_step; wf_step.
  match goal with H : _ = Ok _ |- _ => apply inner_some in H as Hs end.
  wf_step; [done|].
  assert (well_formed (Catalog.update_view r
            (fun s => s <| CatalogView.id := Some id |>) c).2) as Hu.
  { eapply wf_update_view; eauto; congruence. }
  wf_step; [done|]; apply (wf_register_view _ _ (a <| CatalogView.id := Some id |>)); [exact Hu| |done].
  unfold Catalog.update_view, Catalog.update_arena, Arena.update; rewrite Hs; cbn.
  by eapply insert_lookup.
Qed.
Lemma wf_resolve_macro_id r id c :
  well_formed c -> well_formed (Catalog.resolve_macro_id r id c).2.
Proof.
  intros Hc; unfold Catalog.resolve_macro_id; wf_step; wf_step.
  match goal with H : _ = Ok _ |- _ => apply inner_some in H as Hs end.
  wf_step; [done|].
  assert (well_formed (Catalog.update_macro r
            (fun s => s <| CatalogMacro.id := Some id |>) c).2) as Hu.
  { eapply wf_update_macro; eauto; congruence. }
  wf_step; [done|]; apply (wf_register_macro _ _ (a <| CatalogMacro.id := Some id |>)); [exact Hu| |done].
  unfold Catalog.update_macro, Catalog.update_arena, Arena.update; rewrite Hs; cbn.
  by eapply insert_lookup.
Qed.

Lemma wf_delete_schema r c : well_formed c -> well_formed (Catalog.delete_schema r c).2.
Proof.
  intros Hc; unfold Catalog.delete_schema; repeat wf_step; try done.
  destruct Hc; split; cbn; auto; apply points_delete; eapply points_mono; [|eassumption].
  intros ? ?; apply schema_ok_mono; auto.
Qed.

Lemma wf_resolve_partition_id r id c :
  well_formed c -> well_formed (Catalog.resolve_partition_id r id c).2.
Proof.
  intros Hc; unfold Catalog.resolve_partition_id; repeat wf_step; try done.
  by apply wf_on_table.
Qed.
Lemma wf_ensure_next_column_id load r c :
  well_formed c -> well_formed (Catalog.ensure_next_column_id load r c).2.
Proof.
  intros Hc; unfold Catalog.ensure_next_column_id; repeat wf_step; try done.
  by apply wf_on_table.
Qed.
Lemma wf_add_column r path column c :
  well_formed c -> well_formed (Catalog.add_column r path column c).2.
Proof.
  intros Hc; unfold Catalog.add_column; repeat wf_step; try done; by apply wf_on_columns.
Qed.
Lemma wf_update_partitioning r p c :
  well_formed c -> well_formed (Catalog.update_partitioning r p c).2.
Proof.
  intros Hc; unfold Catalog.update_partitioning; repeat wf_step; by apply wf_on_table.
Qed.
Lemma wf_update_sort_info r p c :
  well_formed c -> well_formed (Catalog.update_sort_info r p c).2.
Proof.
  intros Hc; unfold Catalog.update_sort_info; repeat wf_step; by apply wf_on_table.
Qed.
Lemma wf_add_table_tag r tag c : well_formed c -> well_formed (Catalog.add_table_tag r tag c).2.
Proof. intros Hc; by apply wf_on_table. Qed.
Lemma wf_remove_table_tag r key c :
  well_formed c -> well_formed (Catalog.remove_table_tag r key c).2.
Proof.
  intros Hc; unfold Catalog.remove_table_tag; repeat wf_step; by apply wf_on_table.
Qed.
Lemma wf_update_column r f c : well_formed c -> well_formed (Catalog.update_column r f c).2.
Proof. apply wf_on_columns. Qed.
Lemma wf_rename_column r n c : well_formed c -> well_formed (Catalog.rename_column r n c).2.
Proof. intros Hc; unfold Catalog.rename_column; wf_step; by apply wf_on_columns. Qed.
Lemma wf_remove_column_tag r key c :
  well_formed c -> well_formed (Catalog.remove_column_tag r key c).2.
Proof.
  intros Hc; unfold Catalog.remove_column_tag; repeat wf_step; by apply wf_on_columns.
Qed.
Lemma wf_remove_column r c : well_formed c -> well_formed (Catalog.remove_column r c).2.
Proof.
  intros Hc; unfold Catalog.remove_column; repeat wf_step; try done; by apply wf_on_columns.
Qed.

Lemma infallible_ok {E F A} (m : outcome E A) a : @infallible E F A m = Ok a -> m = Ok a.
Proof. by destruct m; intros [= ->]. Qed.

Lemma wf_on_schema c i f :
  well_formed c ->
  (forall n s, Arena.arena (Catalog.schema_arena c) !! i = Some s ->
     Catalog.schemas c !! n = Some i -> schema_ok c n s -> schema_ok c n (f s)) ->
  (forall s, CatalogSchema.id (f s) = CatalogSchema.id s) ->
  well_formed (Catalog.update_arena Catalog.schema_arena i f c).2.
Proof.
  intros Hc Hok Hid; destruct (Arena.arena (Catalog.schema_arena c) !! i) as [s|] eqn:Hs.
  - eapply wf_update_schema; eauto; congruence.
  - by rewrite update_arena_none.
Qed.

(** Names may always leave a schema. *)
Lemma wf_delete_table r c : well_formed c -> well_formed (Catalog.delete_table r c).2.
Proof.
  intros Hc; unfold Catalog.delete_table, Catalog.update_schema; repeat wf_step.
  apply wf_on_schema; auto; intros n s Hs Hn []; split; cbn; auto with ducklake.
  intros k i [_ Hk]%lookup_delete_Some; eauto.
Qed.
Lemma wf_delete_view r c : well_formed c -> well_formed (Catalog.delete_view r c).2.
Proof.
  intros Hc; unfold Catalog.delete_view, Catalog.update_schema; repeat wf_step.
  apply wf_on_schema; auto; intros n s Hs Hn []; split; cbn; auto with ducklake.
  intros k i Hk; apply lookup_delete_None; eauto.
Qed.
Lemma wf_delete_macro r c : well_formed c -> well_formed (Catalog.delete_macro r c).2.
Proof.
  intros Hc; unfold Catalog.delete_macro, Catalog.update_schema; repeat wf_step.
  apply wf_on_schema; auto; intros n s Hs Hn []; split; cbn; auto with ducklake.
Qed.

(** What a failed lookup in a known schema says *)
Lemma schema_lookup c name i s :
  Catalog.schemas c !! name = Some i -> Arena.arena (Catalog.schema_arena c) !! i = Some s ->
  Catalog.schema_by_name c name = Ok (SchemaRef.mk i) /\
  Catalog.schema_inner c (SchemaRef.mk i) = Ok s.
Proof.
  intros Hi Hs; unfold Catalog.schema_by_name, Catalog.schema_inner, Arena.get; cbn.
  by rewrite Hi, Hs.
Qed.
Lemma table_absent c name e i s :
  Catalog.table_by_name c name = Err e ->
  Catalog.schemas c !! QualifiedName.schema name = Some i ->
  Arena.arena (Catalog.schema_arena c) !! i = Some s ->
  CatalogSchema.tables s !! QualifiedName.name name = None.
Proof.
  intros He Hi Hs; destruct (schema_lookup _ _ _ _ Hi Hs) as [H1 H2].
  revert He; unfold Catalog.table_by_name; rewrite H1; cbn; rewrite H2; cbn.
  by destruct (_ !! QualifiedName.name name).
Qed.
Lemma view_absent c name e i s :
  Catalog.view_by_name c name = Err e ->
  Catalog.schemas c !! QualifiedName.schema name = Some i ->
  Arena.arena (Catalog.schema_arena c) !! i = Some s ->
  CatalogSchema.views s !! QualifiedName.name name = None.
Proof.
  intros He Hi Hs; destruct (schema_lookup _ _ _ _ Hi Hs) as [H1 H2].
  revert He; unfold Catalog.view_by_name; rewrite H1; cbn; rewrite H2; cbn.
  by destruct (_ !! QualifiedName.name name).
Qed.

Lemma schema_by_name_ref c name r :
  Catalog.schema_by_name c name = Ok r -> Catalog.schemas c !! name = Some (SchemaRef.idx r).
Proof. unfold Catalog.schema_by_name; by destruct (_ !! name); intros [= <-]. Qed.

Lemma wf_add_table table path next c :
  well_formed c -> well_formed (Catalog.add_table table path next c).2.
Proof.
  intros Hc; unfold Catalog.add_table; wf_step; wf_step; [by repeat wf_step| |done].
  wf_step; [by repeat wf_step| |done].
  do 5 wf_step.
  match goal with H : Arena.push ?t None _ = _ |- _ =>
    pose proof (wf_push_table c t Hc) as Hp; injection H as <- <-; set (new := t) in * end.
  do 3 (wf_step; try exact Hp); apply wf_bind_ret.
  apply wf_on_schema; [exact Hp| |done]; cbn; intros n s Hs Hn Hok.
  assert (n = QualifiedName.schema (TableInfo.name table)) as ->.
  { eapply schemas_inj; [exact Hc|..]; [exact Hn|]; by eapply schema_by_name_ref. }
  destruct Hok; split; cbn; auto; [eapply points_insert; eauto using snoc_lookup|].
  - by destruct (TableInfo.name table).
  - intros k i; destruct (decide (QualifiedName.name (TableInfo.name table) = k)) as [<-|?];
      [|rewrite lookup_insert_ne by done; eauto].
    intros _; by eapply view_absent.
Qed.

Lemma wf_add_view view c : well_formed c -> well_formed (Catalog.add_view view c).2.
Proof.
  intros Hc; unfold Catalog.add_view; wf_step; wf_step; [by repeat wf_step| |done].
  wf_step; [by repeat wf_step| |done].
  wf_step.
  match goal with H : Arena.push ?t None _ = _ |- _ =>
    pose proof (wf_push_view c t Hc) as Hp; injection H as <- <-; set (new := t) in * end.
  do 3 (wf_step; try exact Hp); apply wf_bind_ret.
  apply wf_on_schema; [exact Hp| |done]; cbn; intros n s Hs Hn Hok.
  assert (n = QualifiedName.schema (ViewInfo.name view)) as ->.
  { eapply schemas_inj; [exact Hc|..]; [exact Hn|]; by eapply schema_by_name_ref. }
  destruct Hok; split; cbn; auto; [eapply points_insert; eauto using snoc_lookup|].
  - by destruct (ViewInfo.name view).
  - intros k i Hk; destruct (decide (QualifiedName.name (ViewInfo.name view) = k)) as [<-|?];
      [|rewrite lookup_insert_ne by done; eauto].
    by erewrite table_absent in Hk.
Qed.

Lemma wf_add_macro macro_ c : well_formed c -> well_formed (Catalog.add_macro macro_ c).2.
Proof.
  intros Hc; unfold Catalog.add_macro; wf_step; wf_step; [by repeat wf_step| |done].
  wf_step.
  match goal with H : Arena.push ?t None _ = _ |- _ =>
    pose proof (wf_push_macro c t Hc) as Hp; injection H as <- <-; set (new := t) in * end.
  do 3 (wf_step; try exact Hp); apply wf_bind_ret.
  apply wf_on_schema; [exact Hp| |done]; cbn; intros n s Hs Hn Hok.
  assert (n = QualifiedName.schema (MacroInfo.name macro_)) as ->.
  { eapply schemas_inj; [exact Hc|..]; [exact Hn|]; by eapply schema_by_name_ref. }
  destruct Hok; split; cbn; auto; eapply points_insert; eauto using snoc_lookup.
  by split.
Qed.

Lemma run_get {A} (f : Catalog -> method Catalog A) c : (st_get ≫= f) c = f c c.
Proof. done. Qed.
Lemma run_lift_ok {A B} (o : result A) a (f : A -> method Catalog B) c :
  o = Ok a -> (st_lift o ≫= f) c = f a c.
Proof. by intros ->. Qed.

(** The parts of a live table *)
Lemma live_table_parts c r :
  live_table c r -> exists t i s,
    Arena.arena (Catalog.table_arena c) !! TableRef.idx r = Some t /\
    Catalog.schemas c !! QualifiedName.schema (CatalogTable.name t) = Some i /\
    Arena.arena (Catalog.schema_arena c) !! i = Some s /\
    CatalogSchema.tables s !! QualifiedName.name (CatalogTable.name t) = Some (TableRef.idx r).
Proof.
  intros (t & Ht & Hr); revert Hr; unfold Catalog.table_by_name, Catalog.schema_by_name.
  destruct (Catalog.schemas c !! _) as [i|] eqn:Hi; cbn; [|done].
  destruct (Catalog.schema_inner c (SchemaRef.mk i)) as [s|e|] eqn:Hs; [|done..]; cbn.
  apply inner_some in Hs.
  destruct (CatalogSchema.tables s !! _) as [j|] eqn:Hj; cbn; [|done]; intros [= <-].
  by exists t, i, s.
Qed.

(** What renaming does to a catalog in which the new name is free *)
Definition renamed c (r : TableRef) (new_name : string) : Catalog :=
  match Arena.arena (Catalog.table_arena c) !! TableRef.idx r with
  | Some t =>
      let name := CatalogTable.name t in
      let c := (Catalog.update_arena Catalog.schema_arena
        (default 0 (Catalog.schemas c !! QualifiedName.schema name))
        (fun s => s <| CatalogSchema.tables ::= fun m =>
           <[new_name := TableRef.idx r]> (delete (QualifiedName.name name) m) |>) c).2 in
      (Catalog.update_arena Catalog.table_arena (TableRef.idx r)
        (fun t => t <| CatalogTable.name := QualifiedName.mk (QualifiedName.schema name) new_name |>)
        c).2
  | None => c
  end.

Lemma points_rename (tables : list CatalogTable.t) schema old new i t m :
  points tables (names_table schema) m -> tables !! i = Some t -> m !! old = Some i ->
  CatalogTable.name t = QualifiedName.mk schema old ->
  points (<[i := t <| CatalogTable.name := QualifiedName.mk schema new |>]> tables)
    (names_table schema) (<[new := i]> (delete old m)).
Proof.
  intros Hp Ht Hm Hn; eapply points_insert; [|by eapply insert_lookup|done].
  eapply points_update; [by apply points_delete|exact Ht|].
  intros k [Hk Hki]%lookup_delete_Some; unfold names_table; rewrite Hn; congruence.
Qed.

Lemma wf_renamed c r t i s new_name :
  well_formed c ->
  Arena.arena (Catalog.table_arena c) !! TableRef.idx r = Some t ->
  Catalog.schemas c !! QualifiedName.schema (CatalogTable.name t) = Some i ->
  Arena.arena (Catalog.schema_arena c) !! i = Some s ->
  CatalogSchema.tables s !! QualifiedName.name (CatalogTable.name t) = Some (TableRef.idx r) ->
  CatalogSchema.views s !! new_name = None ->
  well_formed (renamed c r new_name).
Proof.
  intros Hc Ht Hi Hs Hn Hv; unfold renamed, Catalog.update_arena, Arena.update.
  rewrite Ht, Hi; cbn; rewrite Hs; cbn; rewrite Ht; cbn.
  pose proof (schemas_inj c) as Hinj; destruct Hc as [Hw Hids Hidt ? ?] eqn:Hc'; clear Hc'.
  destruct (CatalogTable.name t) as [schema old] eqn:Hname; cbn in *.
  split; cbn; [|eapply points_update; eauto; naive_solver..|done|done].
  intros n j Hj; destruct (decide (i = j)) as [<-|Hij].
  - assert (n = schema) as -> by eauto.
    destruct (Hw schema i Hi) as (s' & Hs' & []); simplify_eq.
    eexists; split; [by eapply insert_lookup|]; split; cbn; auto; [by eapply points_rename|].
    intros k l [[<- _]|[_ [_ Hk]%lookup_delete_Some]]%lookup_insert_Some; eauto.
  - destruct (Hw n j Hj) as (s' & Hs' & Hok); exists s'.
    split; [by rewrite list_lookup_insert_ne|].
    revert Hok; apply schema_ok_mono; cbn; auto; intros m Hm.
    eapply points_update; eauto; unfold names_table; intros k _; rewrite Hname.
    intros [= -> ->]; rewrite Hi in Hj; by simplify_eq.
Qed.

Lemma rename_table_run c r new_name :
  live_table c r ->
  Catalog.rename_table r new_name c = (Ok tt, renamed c r new_name) /\
    (forall t i s, Arena.arena (Catalog.table_arena c) !! TableRef.idx r = Some t ->
       Catalog.schemas c !! QualifiedName.schema (CatalogTable.name t) = Some i ->
       Arena.arena (Catalog.schema_arena c) !! i = Some s ->
       CatalogSchema.tables s !! new_name = None /\ CatalogSchema.views s !! new_name = None) \/
  exists e, Catalog.rename_table r new_name c = (Err e, c).
Proof.
  intros Hl; destruct (live_table_parts c r Hl) as (t & i & s & Ht & Hi & Hs & Hn).
  unfold Catalog.rename_table; rewrite run_get.
  rewrite (run_lift_ok _ t) by (unfold Catalog.table_inner, Arena.get; by rewrite Ht).
  destruct (schema_lookup _ _ _ _ Hi Hs) as [H1 H2]; cbn.
  rewrite (run_lift_ok _ _ _ _ H1), (run_lift_ok _ _ _ _ H2).
  case_decide; [right; by eexists|]; case_decide; [right; by eexists|].
  rewrite (run_lift_ok _ (TableRef.idx r)) by (by rewrite Hn); left; split.
  - unfold renamed, Catalog.update_schema, Catalog.update_table, Catalog.update_arena, Arena.update.
    unfold mbind, stateful_bind; cbn; rewrite Hs, Ht, Hi; cbn; rewrite Hs; cbn; by rewrite Ht.
  - intros ? ? ? ? ? ?; simplify_eq.
    split; by apply eq_None_not_Some.
Qed.

Lemma wf_rename_table r new_name c :
  well_formed c -> live_table c r -> well_formed (Catalog.rename_table r new_name c).2.
Proof.
  intros Hc Hl; destruct (live_table_parts c r Hl) as (t & i & s & Ht & Hi & Hs & Hn).
  destruct (rename_table_run c r new_name Hl) as [[-> Hfree]|[e ->]]; [|done].
  destruct (Hfree t i s Ht Hi Hs); by eapply wf_renamed.
Qed.

(** C9: the catalog stays well formed under every operation, whether it succeeds,
    fails or panics: every live name leads to the entity that carries it, no name
    is both a table and a view of its schema, and every registered ID leads to
    the entity with that ID. *)
Theorem catalog_stays_well_formed (c : Catalog) (op : operation)
  (Hwf : well_formed c) (Hop : allowed c op) : well_formed (perform op c).
Proof.
  destruct op; cbn [perform allowed] in *.
  - by apply wf_add_schema.
  - by apply wf_resolve_schema_id.
  - by apply wf_delete_schema.
  - by apply wf_add_table.
  - by apply wf_resolve_table_id.
  - by apply wf_resolve_partition_id.
  - by apply wf_ensure_next_column_id.
  - by apply wf_rename_table.
  - by apply wf_add_column.
  - by apply wf_update_partitioning.
  - by apply wf_update_sort_info.
  - by apply wf_add_table_tag.
  - by apply wf_remove_table_tag.
  - by apply wf_delete_table.
  - by apply wf_update_column.
  - by apply wf_rename_column.
  - by apply wf_remove_column_tag.
  - by apply wf_remove_column.
  - by apply wf_add_view.
  - by apply wf_resolve_view_id.
  - by apply wf_delete_view.
  - by apply wf_add_macro.
  - by apply wf_resolve_macro_id.
  - by apply wf_delete_macro.
Qed.

Lemma wf_empty : well_formed Catalog.empty.
Proof. by split; intros k i. Qed.

(** *** The names of the tables *)

(** The abstract view of a catalog: the table each qualified name stands for. *)
Definition table_names c (q : QualifiedName) : option TableRef :=
  match Catalog.table_by_name c q with Ok r => Some r | _ => None end.

Lemma table_names_eq c q :
  table_names c q = TableRef.mk <$>
    (Catalog.schemas c !! QualifiedName.schema q ≫= fun i =>
     Arena.arena (Catalog.schema_arena c) !! i ≫= fun s =>
     CatalogSchema.tables s !! QualifiedName.name q).
Proof.
  unfold table_names, Catalog.table_by_name, Catalog.schema_by_name.
  destruct (Catalog.schemas c !! _) as [i|]; [|done]; cbn.
  unfold Catalog.schema_inner, Arena.get; cbn; destruct (_ !! i) as [s|]; [|done]; cbn.
  by destruct (CatalogSchema.tables s !! _).
Qed.

Lemma table_names_on_table c i f q :
  table_names (Catalog.update_arena Catalog.table_arena i f c).2 q = table_names c q.
Proof.
  rewrite !table_names_eq; unfold Catalog.update_arena; by destruct (Arena.update _ _ _).
Qed.

Lemma table_names_on_schema c schema i s g q :
  well_formed c -> Catalog.schemas c !! schema = Some i ->
  Arena.arena (Catalog.schema_arena c) !! i = Some s ->
  table_names (Catalog.update_arena Catalog.schema_arena i
                 (fun s => s <| CatalogSchema.tables ::= g |>) c).2 q =
    if decide (QualifiedName.schema q = schema)
    then TableRef.mk <$> g (CatalogSchema.tables s) !! QualifiedName.name q
    else table_names c q.
Proof.
  intros Hc Hi Hs; unfold Catalog.update_arena, Arena.update; rewrite Hs, !table_names_eq; cbn.
  case_decide as Hq.
  - rewrite Hq, Hi; cbn; by rewrite (insert_lookup _ _ s).
  - destruct (Catalog.schemas c !! QualifiedName.schema q) as [j|] eqn:Hj; [|done];
      cbn [mbind option_bind].
    rewrite list_lookup_insert_ne; [done|]; intros <-; eauto using schemas_inj.
Qed.

Lemma table_names_in_schema c schema i s n :
  Catalog.schemas c !! schema = Some i -> Arena.arena (Catalog.schema_arena c) !! i = Some s ->
  table_names c (QualifiedName.mk schema n) = TableRef.mk <$> CatalogSchema.tables s !! n.
Proof. intros Hi Hs; rewrite table_names_eq; cbn; rewrite Hi; cbn; by rewrite Hs. Qed.

(** An addition of a table that succeeds *)
Lemma add_table_run table path next c out c' :
  Catalog.add_table table path next c = (Ok out, c') ->
  exists e e' t r,
    let name := TableInfo.name table in
    let pushed := c <| Catalog.table_arena := (Arena.push t None (Catalog.table_arena c)).2 |> in
    Catalog.table_by_name c name = Err e /\ Catalog.view_by_name c name = Err e' /\
    CatalogTable.name t = name /\
    Catalog.schema_by_name c (QualifiedName.schema name) = Ok r /\
    out.1.1.2 = TableRef.mk (length (Arena.arena (Catalog.table_arena c))) /\
    Catalog.update_schema r (fun s => s <| CatalogSchema.tables ::=
      <[QualifiedName.name name := length (Arena.arena (Catalog.table_arena c))]> |>) pushed =
      (Ok tt, c').
Proof.
  unfold Catalog.add_table; rewrite run_get.
  destruct (Catalog.table_by_name c _) as [r0|e|] eqn:He; [by unfold st_lift, mbind, stateful_bind; cbn; case_match| |done].
  destruct (Catalog.view_by_name c _) as [r0|e'|] eqn:He'; [by unfold st_lift, mbind, stateful_bind; cbn; case_match| |done].
  unfold mbind at 1, stateful_bind at 1, st_lift at 1.
  destruct (CatalogColumns.from_schema _ _) as [columns| |]; [|done..].
  unfold mbind at 1, stateful_bind at 1, st_lift at 1.
  destruct (option_outcome _ _) as [partition| |]; [|done..].
  unfold mbind at 1, stateful_bind at 1, st_lift at 1.
  destruct (option_outcome _ _) as [sort_info| |]; [|done..].
  unfold mbind at 1, stateful_bind at 1, st_lift at 1.
  destruct (CatalogColumns.root_column_indices _) as [idxs| |]; [|done..].
  unfold Arena.push; cbn [fst snd].
  unfold mbind at 1, stateful_bind at 1, st_modify at 1; cbn [fst snd].
  unfold mbind at 1, stateful_bind at 1, st_get at 1.
  unfold mbind at 1, stateful_bind at 1, st_lift at 1.
  destruct (Catalog.schema_by_name _ _) as [r| |] eqn:Hr; [|done..].
  unfold mbind at 1, stateful_bind at 1.
  destruct (Catalog.update_schema _ _ _) as [[[]| |] c1] eqn:Hu; intros [= <- <-].
  exists e, e', (CatalogTable.mk None (TableInfo.name table) columns partition sort_info
    (TableInfo.tags table) path), r; by split_and!.
Qed.

Lemma update_arena_run {A} (arena : Catalog -> Arena A) `{!Setter arena} i f c c' :
  Catalog.update_arena arena i f c = (Ok tt, c') ->
  c' = (Catalog.update_arena arena i f c).2 /\ is_Some (Arena.arena (arena c) !! i).
Proof.
  intros Hu; split; [by rewrite Hu|]; revert Hu.
  unfold Catalog.update_arena, Arena.update; by destruct (_ !! i).
Qed.

Lemma absent_not_named c name e : Catalog.table_by_name c name = Err e -> table_names c name = None.
Proof. unfold table_names; by intros ->. Qed.

Lemma qualified_eta (q : QualifiedName) :
  q = QualifiedName.mk (QualifiedName.schema q) (QualifiedName.name q).
Proof. by destruct q. Qed.

Lemma add_table_names table path next c out c' :
  well_formed c -> Catalog.add_table table path next c = (Ok out, c') ->
  table_names c (TableInfo.name table) = None /\
  forall q, table_names c' q =
    if decide (q = TableInfo.name table) then Some out.1.1.2 else table_names c q.
Proof.
  intros Hc Hadd; destruct (add_table_run _ _ _ _ _ _ Hadd) as (e & e' & t & r & He & _ & _ & Hr & -> & Hu).
  split; [by eapply absent_not_named|]; intros q.
  destruct (update_arena_run _ _ _ _ _ Hu) as [-> [s Hs]].
  apply schema_by_name_ref in Hr.
  rewrite (table_names_on_schema _ (QualifiedName.schema (TableInfo.name table)) _ s);
    [|by apply wf_push_table|exact Hr|exact Hs].
  case_decide as Hq; case_decide as Hname; subst; try done.
  - by rewrite lookup_insert_eq.
  - rewrite lookup_insert_ne.
    + rewrite (qualified_eta q), Hq.
      by rewrite (table_names_in_schema c _ _ s) by done.
    + intros Hn; apply Hname; rewrite (qualified_eta q), Hq, <- Hn; by destruct (TableInfo.name table).
Qed.

Lemma rename_table_names r new_name t c c' :
  well_formed c -> live_table c r -> Arena.arena (Catalog.table_arena c) !! TableRef.idx r = Some t ->
  Catalog.rename_table r new_name c = (Ok tt, c') ->
  let old := CatalogTable.name t in
  let new := QualifiedName.mk (QualifiedName.schema old) new_name in
  table_names c new = None /\
  forall q, table_names c' q =
    if decide (q = new) then Some r else if decide (q = old) then None else table_names c q.
Proof.
  intros Hc Hl Ht Hrun old new.
  destruct (live_table_parts c r Hl) as (t' & i & s & Ht' & Hi & Hs & Hn); simplify_eq.
  destruct (rename_table_run c r new_name Hl) as [[Hrun' Hfree]|[e He]]; [|congruence].
  rewrite Hrun' in Hrun; injection Hrun as <-; destruct (Hfree t i s Ht Hi Hs) as [Hfree_t _].
  split; [by unfold new; rewrite (table_names_in_schema c _ i s), Hfree_t|].
  intros q; unfold renamed; rewrite Ht, table_names_on_table, Hi.
  rewrite (table_names_on_schema _ (QualifiedName.schema old) _ s) by done; unfold new.
  destruct (decide (QualifiedName.schema q = QualifiedName.schema old)) as [Hq|Hq].
  - rewrite (qualified_eta q), Hq, (table_names_in_schema c _ i s) by done; cbn.
    destruct r as [r]; cbn in *.
    destruct (decide (new_name = QualifiedName.name q)) as [->|Hne].
    + by rewrite lookup_insert_eq, decide_True.
    + rewrite lookup_insert_ne, decide_False by (congruence || done).
      destruct (decide (QualifiedName.name old = QualifiedName.name q)) as [Ho|Ho].
      * rewrite <- Ho, lookup_delete_eq, decide_True; [done|]; by destruct old.
      * rewrite lookup_delete_ne, decide_False; [done| |done]; intros Heq.
        by apply Ho; rewrite <- Heq.
  - rewrite !decide_False; [done|by intros ->..].
Qed.

Lemma delete_table_names r t c c' :
  well_formed c -> live_table c r -> Arena.arena (Catalog.table_arena c) !! TableRef.idx r = Some t ->
  Catalog.delete_table r c = (Ok tt, c') ->
  forall q, table_names c' q =
    if decide (q = CatalogTable.name t) then None else table_names c q.
Proof.
  intros Hc Hl Ht Hrun q.
  destruct (live_table_parts c r Hl) as (t' & i & s & Ht' & Hi & Hs & Hn); simplify_eq.
  revert Hrun; unfold Catalog.delete_table; rewrite run_get.
  rewrite (run_lift_ok _ t) by (unfold Catalog.table_inner, Arena.get; by rewrite Ht).
  rewrite (run_lift_ok _ (SchemaRef.mk i)).
  2: { unfold Catalog.table_parent_schema, Catalog.table_inner, Arena.get; rewrite Ht; cbn.
       unfold Catalog.schema_by_name; by rewrite Hi. }
  intros Hu; destruct (update_arena_run _ _ _ _ _ Hu) as [-> _]; cbn.
  rewrite (table_names_on_schema _ (QualifiedName.schema (CatalogTable.name t)) _ s) by done.
  destruct (decide (QualifiedName.schema q = _)) as [Hq|Hq]; [|rewrite decide_False; [done|by intros ->]].
  rewrite (qualified_eta q), Hq, (table_names_in_schema c _ i s) by done; cbn.
  destruct (decide (QualifiedName.name (CatalogTable.name t) = QualifiedName.name q)) as [Ho|Ho].
  - rewrite Ho, lookup_delete_eq, decide_True; [done|]; rewrite <- Ho; by destruct (CatalogTable.name t).
  - rewrite lookup_delete_ne, decide_False; [done| |done]; intros Heq; by apply Ho; rewrite <- Heq.
Qed.

(** C10: on a well-formed catalog the operations on tables act on the map of
    qualified names to tables: an addition inserts a free name, a renaming moves
    a table to a free name without changing its reference, a deletion removes a
    name, and no other name is touched. *)
Theorem table_operations_refine_map (c c' : Catalog) (Hwf : well_formed c) :
  (forall table path next out, Catalog.add_table table path next c = (Ok out, c') ->
     table_names c (TableInfo.name table) = None /\
     forall q, table_names c' q =
       if decide (q = TableInfo.name table) then Some out.1.1.2 else table_names c q) /\
  (forall r t new_name, live_table c r ->
     Arena.arena (Catalog.table_arena c) !! TableRef.idx r = Some t ->
     Catalog.rename_table r new_name c = (Ok tt, c') ->
     let old := CatalogTable.name t in
     let new := QualifiedName.mk (QualifiedName.schema old) new_name in
     table_names c new = None /\
     forall q, table_names c' q =
       if decide (q = new) then Some r else if decide (q = old) then None else table_names c q) /\
  (forall r t, live_table c r ->
     Arena.arena (Catalog.table_arena c) !! TableRef.idx r = Some t ->
     Catalog.delete_table r c = (Ok tt, c') ->
     forall q, table_names c' q =
       if decide (q = CatalogTable.name t) then None else table_names c q).
Proof.
  split_and!.
  - intros ? ? ? ? ?; by eapply add_table_names.
  - intros ? ? ? ? ? ?; by eapply rename_table_names.
  - intros ? ? ? ? ?; by eapply delete_table_names.
Qed.
End WellFormed.

(** ** The properties at a concrete catalog *)

(** A schema [main] with a table [t] *)
Definition catalog_with_table : @Catalog.t demo_external :=
  let c := (Catalog.add_schema "main" (DucklakePath.Relative "main/") Catalog.empty).2 in
  (Catalog.add_table (TableInfo.mk (QualifiedName.mk "main" "t") (Schema.mk []) None None ∅)
     (DucklakePath.Relative "t/") None c).2.
Definition the_table : TableRef := TableRef.mk 0.

Lemma catalog_with_table_wf : well_formed catalog_with_table.
Proof. apply wf_add_table, wf_add_schema, wf_empty. Qed.
Lemma the_table_live : live_table catalog_with_table the_table.
Proof. by eexists. Qed.

Lemma catalog_stays_well_formed_witness :
  well_formed (perform (RenameTable the_table "u") catalog_with_table).
Proof.
  apply (catalog_stays_well_formed catalog_with_table (RenameTable the_table "u"));
    [exact catalog_with_table_wf | exact the_table_live].
Defined.

Lemma table_operations_refine_map_witness :
  let c' := (Catalog.rename_table the_table "u" catalog_with_table).2 in
  table_names c' (QualifiedName.mk "main" "u") = Some the_table /\
  table_names c' (QualifiedName.mk "main" "t") = None.
Proof.
  intros c'; destruct (table_operations_refine_map catalog_with_table c' catalog_with_table_wf)
    as (_ & Hrename & _).
  destruct (Hrename the_table _ "u" the_table_live eq_refl eq_refl) as [_ Hnames].
  split; rewrite Hnames; reflexivity.
Defined.
