(* ===== verification/TableStats.v ===== *)
(** * Table statistics ([caches/table_stats.rs])

    The statistics a commit carries per table and column and how each written
    file or inlined batch evolves them. *)

From S2P Require Import Prelude Text Regex Identifier Types Instances Entities.

Module ColumnStats.
Record t `{External} : Type := mk {
  contains_null : option bool;
  contains_nan : option bool;
  min_value : option Value;
  max_value : option Value;
  is_persisted : bool;
}.
#[global] Arguments mk {_} contains_null contains_nan min_value max_value is_persisted.
Definition eta `{External} (s : t) : t :=
  mk (contains_null s) (contains_nan s) (min_value s) (max_value s) (is_persisted s).
#[export] Instance set_null `{External} : Setter contains_null := ltac:(mk_setter eta contains_null).
#[export] Instance set_nan `{External} : Setter contains_nan := ltac:(mk_setter eta contains_nan).
#[export] Instance set_min `{External} : Setter min_value := ltac:(mk_setter eta min_value).
#[export] Instance set_max `{External} : Setter max_value := ltac:(mk_setter eta max_value).

Section ColumnStats.
Context `{EXT : External}.

(** [Default] *)
Definition default : t := mk (Some false) (Some false) None None false.

(** The three-valued disjunction of [update_contains_null] and [update_contains_nan]. *)
Definition merge_flag (old new : option bool) : option bool :=
  match old, new with
  | Some old, Some new => Some (old || new)
  | None, Some true | Some true, None => Some true
  | _, _ => None
  end.
Definition update_contains_null (v : option bool) (s : t) : t :=
  s <| contains_null ::= fun old => merge_flag old v |>.
Definition update_contains_nan (v : option bool) (s : t) : t :=
  s <| contains_nan ::= fun old => merge_flag old v |>.

Definition merge_min (old new : option Value) : option Value :=
  match old, new with
  | Some old, Some new =>
      match Value.partial_cmp old new with
      | Some Gt => Some new
      | Some _ => Some old
      | None => None
      end
  | Some old, None => Some old
  | None, new => new
  end.
Definition merge_max (old new : option Value) : option Value :=
  match old, new with
  | Some old, Some new =>
      match Value.partial_cmp old new with
      | Some Lt => Some new
      | Some _ => Some old
      | None => None
      end
  | Some old, None => Some old
  | None, new => new
  end.
Definition update_min_value (v : option Value) (s : t) : t :=
  s <| min_value ::= fun old => merge_min old v |>.
Definition update_max_value (v : option Value) (s : t) : t :=
  s <| max_value ::= fun old => merge_max old v |>.

(** The statistics of a column in one written file or batch. *)
Definition update (null_count : option Z) (contains_nan : option bool)
    (min_value max_value : option Value) (s : t) : t :=
  update_max_value max_value
    (update_min_value min_value
      (update_contains_nan contains_nan
        (update_contains_null ((fun c => (0 <? c)%Z) <$> null_count) s))).

(** [derive(PartialEq)] *)
Definition option_eqb {A} (eqb : A -> A -> bool) (a b : option A) : bool :=
  match a, b with Some a, Some b => eqb a b | None, None => true | _, _ => false end.
Definition eqb (a b : t) : bool :=
  option_eqb Bool.eqb (contains_null a) (contains_null b) &&
  option_eqb Bool.eqb (contains_nan a) (contains_nan b) &&
  option_eqb Value.eqb (min_value a) (min_value b) &&
  option_eqb Value.eqb (max_value a) (max_value b) &&
  Bool.eqb (is_persisted a) (is_persisted b).
End ColumnStats.
End ColumnStats.
#[export] Existing Instances ColumnStats.set_null ColumnStats.set_nan ColumnStats.set_min
  ColumnStats.set_max.
Abbreviation ColumnStats := ColumnStats.t.

Module TableStats.
Record t `{External} : Type := mk {
  next_row_id : Z;
  record_count : option Z;
  file_size_bytes : option Z;
  column_stats : gmap Z ColumnStats;
  is_persisted : bool;
}.
#[global] Arguments mk {_} next_row_id record_count file_size_bytes column_stats is_persisted.
Definition eta `{External} (s : t) : t :=
  mk (next_row_id s) (record_count s) (file_size_bytes s) (column_stats s) (is_persisted s).
#[export] Instance set_next `{External} : Setter next_row_id := ltac:(mk_setter eta next_row_id).
#[export] Instance set_count `{External} : Setter record_count := ltac:(mk_setter eta record_count).
#[export] Instance set_size `{External} : Setter file_size_bytes :=
  ltac:(mk_setter eta file_size_bytes).
#[export] Instance set_columns `{External} : Setter column_stats :=
  ltac:(mk_setter eta column_stats).

Section TableStats.
Context `{EXT : External}.

(** [Default] *)
Definition default : t := mk 0 (Some 0%Z) (Some 0%Z) ∅ false.

Definition advance_row_id (count : Z) (s : t) : t :=
  s <| next_row_id ::= fun n => i64_add n count |>.
Definition add_record_count (count : Z) (s : t) : t :=
  s <| record_count ::= fun n => Some (i64_add (stdpp.option.default 0%Z n) count) |>.
Definition add_file_size_bytes (size : option Z) (s : t) : t :=
  s <| file_size_bytes ::= fun old =>
    match size with
    | Some n => Some (i64_add (stdpp.option.default 0%Z old) n)
    | None => old
    end |>.
(** [f] applied to [self.column_stats_mut(column_id)] *)
Definition update_column_stats (column_id : Z) (f : ColumnStats -> ColumnStats) (s : t) : t :=
  s <| column_stats ::= fun m =>
    <[column_id := f (stdpp.option.default ColumnStats.default (m !! column_id))]> m |>.
End TableStats.
End TableStats.
#[export] Existing Instances TableStats.set_next TableStats.set_count TableStats.set_size
  TableStats.set_columns.
Abbreviation TableStats := TableStats.t.

(** ** What the statistics promise *)

Section Promises.
Context `{EXT : External}.
Implicit Types v w lo hi : Value.

(** The class of a value among those the model orders concretely; values of one
    class are totally ordered by [Value.partial_cmp]. The order of decimals,
    dates and the like is the order of third-party types. *)
Definition ordered_class (v : Value) : option nat :=
  match v with
  | Value.Boolean _ => Some 0
  | Value.Int8 _ => Some 1 | Value.Int16 _ => Some 2 | Value.Int32 _ => Some 3
  | Value.Int64 _ => Some 4 | Value.Int128 _ => Some 5
  | Value.UInt8 _ => Some 6 | Value.UInt16 _ => Some 7 | Value.UInt32 _ => Some 8
  | Value.UInt64 _ => Some 9 | Value.UInt128 _ => Some 10
  | Value.Varchar _ => Some 11 | Value.Blob _ => Some 12 | Value.Json _ => Some 13
  | _ => None
  end.

Lemma bytes_cmp_flip a b : Value.bytes_cmp b a = CompOpp (Value.bytes_cmp a b).
Proof.
  revert b; induction a as [|x a IH]; intros [|y b]; try done; cbn.
  rewrite (N.compare_antisym (N_of_ascii x)); destruct (N.compare _ _); cbn; auto.
Qed.
Lemma bytes_cmp_eq a b : Value.bytes_cmp a b = Eq <-> a = b.
Proof.
  revert b; induction a as [|x a IH]; intros [|y b]; try done; cbn.
  destruct (N.compare_spec (N_of_ascii x) (N_of_ascii y)) as [E|L|L].
  - rewrite IH; split; [intros ->|congruence].
    by rewrite <- (ascii_N_embedding x), E, ascii_N_embedding.
  - split; [done|]; intros [= -> _]; lia.
  - split; [done|]; intros [= -> _]; lia.
Qed.
Lemma bytes_le_trans a b c :
  Value.bytes_cmp a b <> Gt -> Value.bytes_cmp b c <> Gt -> Value.bytes_cmp a c <> Gt.
Proof.
  revert b c; induction a as [|x a IH]; intros [|y b] [|z c]; try done; cbn.
  destruct (N.compare_spec (N_of_ascii x) (N_of_ascii y)),
    (N.compare_spec (N_of_ascii y) (N_of_ascii z)),
    (N.compare_spec (N_of_ascii x) (N_of_ascii z)); try done; try lia; eauto.
Qed.

(** [a] is no greater than [b] *)
Definition value_le (a b : Value) : Prop :=
  Value.partial_cmp a b = Some Lt \/ Value.partial_cmp a b = Some Eq.

Ltac by_class v w :=
  destruct v; try done; destruct w; try done.

Lemma class_total v w k :
  ordered_class v = Some k -> ordered_class w = Some k ->
  exists c, Value.partial_cmp v w = Some c /\ Value.partial_cmp w v = Some (CompOpp c).
Proof.
  intros Hv Hw; by_class v w; cbn in *; simplify_eq; eexists; split; try reflexivity;
    try (by rewrite Z.compare_antisym); try (by rewrite bytes_cmp_flip).
  - by destruct b, b0.
  - unfold Value.str_cmp; by rewrite bytes_cmp_flip.
  - unfold Value.str_cmp; by rewrite bytes_cmp_flip.
Qed.

Lemma bytes_case a b c :
  Some (Value.bytes_cmp a b) = Some Lt \/ Some (Value.bytes_cmp a b) = Some Eq ->
  Some (Value.bytes_cmp b c) = Some Lt \/ Some (Value.bytes_cmp b c) = Some Eq ->
  Some (Value.bytes_cmp a c) = Some Lt \/ Some (Value.bytes_cmp a c) = Some Eq.
Proof.
  pose proof (bytes_le_trans a b c) as T; intros H1 H2.
  destruct (Value.bytes_cmp a b), (Value.bytes_cmp b c), (Value.bytes_cmp a c); naive_solver.
Qed.

Lemma int_case a b c :
  Some (a ?= b)%Z = Some Lt \/ Some (a ?= b)%Z = Some Eq ->
  Some (b ?= c)%Z = Some Lt \/ Some (b ?= c)%Z = Some Eq ->
  Some (a ?= c)%Z = Some Lt \/ Some (a ?= c)%Z = Some Eq.
Proof.
  intros H1 H2.
  destruct (Z.compare_spec a b), (Z.compare_spec b c), (Z.compare_spec a c);
    naive_solver lia.
Qed.

Lemma class_le_trans u v w k :
  ordered_class u = Some k -> ordered_class v = Some k -> ordered_class w = Some k ->
  value_le u v -> value_le v w -> value_le u w.
Proof.
  unfold value_le; intros Hu Hv Hw; destruct u; try done; by_class v w; cbn in *; simplify_eq;
    first [apply int_case | apply bytes_case | idtac].
  by destruct b, b0, b1; cbn; intros [|] [|]; auto.
Qed.

Lemma class_le_refl v k : ordered_class v = Some k -> value_le v v.
Proof.
  intros Hv; destruct (class_total v v k Hv Hv) as (c & H1 & H2).
  rewrite H1 in H2; destruct c; [by right | done | done].
Qed.

(** The bound after [new] follows [old] is one of the two and below both. *)
Lemma merge_min_lower old new k :
  ordered_class old = Some k -> ordered_class new = Some k ->
  exists m, ColumnStats.merge_min (Some old) (Some new) = Some m /\
    (m = old \/ m = new) /\ value_le m old /\ value_le m new.
Proof.
  intros Ho Hn; destruct (class_total old new k Ho Hn) as (c & H1 & H2); cbn; rewrite H1.
  pose proof (class_le_refl _ _ Ho); pose proof (class_le_refl _ _ Hn).
  destruct c; eexists; (split; [reflexivity|]); unfold value_le in *; rewrite ?H1, ?H2; cbn; eauto 8.
Qed.
Lemma merge_max_upper old new k :
  ordered_class old = Some k -> ordered_class new = Some k ->
  exists m, ColumnStats.merge_max (Some old) (Some new) = Some m /\
    (m = old \/ m = new) /\ value_le old m /\ value_le new m.
Proof.
  intros Ho Hn; destruct (class_total old new k Ho Hn) as (c & H1 & H2); cbn; rewrite H1.
  pose proof (class_le_refl _ _ Ho); pose proof (class_le_refl _ _ Hn).
  destruct c; eexists; (split; [reflexivity|]); unfold value_le in *; rewrite ?H1, ?H2; cbn; eauto 8.
Qed.

(** A file with the given statistics of a column is registered. *)
Definition register (s : ColumnStats) (file : FileColumnStats.t) : ColumnStats :=
  ColumnStats.update (FileColumnStats.null_count file) (FileColumnStats.contains_nan file)
    (FileColumnStats.min_value file) (FileColumnStats.max_value file) s.
Definition registered (files : list FileColumnStats.t) : ColumnStats :=
  foldl register ColumnStats.default files.

Lemma merge_flags acc flags :
  foldl ColumnStats.merge_flag acc flags =
    if existsb (fun f => bool_decide (f = Some true)) (acc :: flags) then Some true
    else if forallb (fun f => bool_decide (f = Some false)) (acc :: flags) then Some false
    else None.
Proof.
  revert acc; induction flags as [|f flags IH]; intros acc; cbn [foldl].
  - by destruct acc as [[]|].
  - rewrite IH; cbn [existsb forallb].
    destruct acc as [[]|], f as [[]|]; cbn; try done; by destruct (existsb _ flags).
Qed.

Lemma registered_null acc files :
  ColumnStats.contains_null (foldl register acc files) =
    foldl ColumnStats.merge_flag (ColumnStats.contains_null acc)
      (map (fun f => (fun c => (0 <? c)%Z) <$> FileColumnStats.null_count f) files).
Proof. by revert acc; induction files as [|f files IH]; intros acc; cbn; [|rewrite IH]. Qed.
Lemma registered_min acc files :
  ColumnStats.min_value (foldl register acc files) =
    foldl ColumnStats.merge_min (ColumnStats.min_value acc) (map FileColumnStats.min_value files).
Proof. by revert acc; induction files as [|f files IH]; intros acc; cbn; [|rewrite IH]. Qed.
Lemma registered_max acc files :
  ColumnStats.max_value (foldl register acc files) =
    foldl ColumnStats.merge_max (ColumnStats.max_value acc) (map FileColumnStats.max_value files).
Proof. by revert acc; induction files as [|f files IH]; intros acc; cbn; [|rewrite IH]. Qed.

(** [m] is the greatest of the values below all of [vs] that occur there; [le]
    is the order or its converse. *)
Definition extreme (le : Value -> Value -> Prop) (vs : list (option Value)) (m : option Value)
    : Prop :=
  match m with
  | Some m => Some m ∈ vs /\ forall v, Some v ∈ vs -> le m v
  | None => Forall (fun x : option Value => x = None) vs
  end.

Lemma fold_extreme (le : Value -> Value -> Prop) (merge : option Value -> option Value -> option Value)
    (P : Value -> Prop) :
  (forall v, P v -> le v v) ->
  (forall u v w, P u -> P v -> P w -> le u v -> le v w -> le u w) ->
  (forall v w, P v -> P w -> exists m, merge (Some v) (Some w) = Some m /\
     (m = v \/ m = w) /\ le m v /\ le m w) ->
  (forall v, merge (Some v) None = Some v) -> (forall x : option Value, merge None x = x) ->
  forall vs, (forall v, Some v ∈ vs -> P v) -> extreme le vs (foldl merge None vs).
Proof.
  intros Hrefl Htrans Hmerge Hr Hl vs; induction vs as [|x vs IH] using rev_ind; intros HP.
  { by constructor. }
  rewrite foldl_app; cbn [foldl].
  assert (forall v, Some v ∈ vs -> P v) as HP' by (intros; apply HP; set_solver).
  specialize (IH HP'); destruct (foldl merge None vs) as [m|]; cbn in IH.
  - destruct IH as [Hin Hle], x as [x|]; [|rewrite Hr; split; set_solver].
    assert (P m) as Pm by auto; assert (P x) as Px by (apply HP; set_solver).
    destruct (Hmerge m x Pm Px) as (n & -> & Hn & Hnm & Hnx); split.
    + destruct Hn as [-> | ->]; set_solver.
    + intros v [Hv|Hv]%elem_of_app; [|set_solver].
      apply (Htrans n m v); auto; by destruct Hn as [-> | ->].
  - rewrite Hl; destruct x as [x|]; cbn.
    + split; [set_solver|]; rewrite Forall_forall in IH.
      intros v [Hv|Hv]%elem_of_app; [by specialize (IH _ Hv)|].
      apply list_elem_of_singleton in Hv as [= ->]; apply Hrefl, HP; set_solver.
    + apply Forall_app; split; [done | by constructor].
Qed.

Lemma null_flag_true (o : option Z) :
  (fun c => (0 <? c)%Z) <$> o = Some true <-> exists n, o = Some n /\ (0 < n)%Z.
Proof. destruct o as [n|]; cbn; [destruct (Z.ltb_spec 0 n)|]; naive_solver lia. Qed.
Lemma null_flag_false (o : option Z) :
  (fun c => (0 <? c)%Z) <$> o = Some false <-> exists n, o = Some n /\ (n <= 0)%Z.
Proof. destruct o as [n|]; cbn; [destruct (Z.ltb_spec 0 n)|]; naive_solver lia. Qed.

(** The null flag of the statistics is exact: a column contains nulls when a
    registered file counts some, contains none when every file counts none, and
    is unknown otherwise. *)
Theorem contains_null_exact (files : list FileColumnStats.t) :
  (ColumnStats.contains_null (registered files) = Some true <->
     exists file n, file ∈ files /\ FileColumnStats.null_count file = Some n /\ (0 < n)%Z) /\
  (ColumnStats.contains_null (registered files) = Some false <->
     forall file, file ∈ files ->
       exists n, FileColumnStats.null_count file = Some n /\ (n <= 0)%Z).
Proof.
  unfold registered; rewrite registered_null.
  rewrite merge_flags; cbn [ColumnStats.default ColumnStats.contains_null existsb forallb];
    rewrite existsb_map, forallb_map, bool_decide_false, bool_decide_true by done; cbn [orb andb].
  set (has := existsb _ _); set (no := forallb _ _).
  assert (has = true <-> exists file n, file ∈ files /\
    FileColumnStats.null_count file = Some n /\ (0 < n)%Z) as Hhas.
  { unfold has; rewrite existsb_exists; setoid_rewrite list_elem_of_In.
    setoid_rewrite bool_decide_eq_true; setoid_rewrite null_flag_true; naive_solver. }
  assert (no = true <-> forall file, file ∈ files ->
    exists n, FileColumnStats.null_count file = Some n /\ (n <= 0)%Z) as Hno.
  { unfold no; rewrite forallb_forall; setoid_rewrite list_elem_of_In.
    setoid_rewrite bool_decide_eq_true; setoid_rewrite null_flag_false; naive_solver. }
  rewrite <- Hhas, <- Hno; destruct has, no; split; split; try done.
  destruct (proj1 Hhas eq_refl) as (file & n & Hin & Hn & Hpos).
  destruct (proj1 Hno eq_refl file Hin) as (m & Hm & Hle); rewrite Hm in Hn; simplify_eq; lia.
Qed.

(** C16: whatever the order in which the files are registered, starting from
    statistics without files, the statistics of a column are the least and the
    greatest of the bounds of the files, and empty exactly when no file has a bound,
    for values of one type with a total order of its own: booleans, integers, texts
    and blobs (floats have values that do not compare, the order of decimals, dates
    and the like is third-party). *)
Theorem registered_bounds (files : list FileColumnStats.t) (k : nat)
  (Hmin : forall v, Some v ∈ map FileColumnStats.min_value files -> ordered_class v = Some k)
  (Hmax : forall v, Some v ∈ map FileColumnStats.max_value files -> ordered_class v = Some k) :
  extreme value_le (map FileColumnStats.min_value files)
    (ColumnStats.min_value (registered files)) /\
  extreme (flip value_le) (map FileColumnStats.max_value files)
    (ColumnStats.max_value (registered files)).
Proof.
  unfold registered; rewrite registered_min, registered_max; split.
  - apply (fold_extreme _ _ (fun v => ordered_class v = Some k)); try done.
    + intros v; apply class_le_refl.
    + intros u v w; apply class_le_trans.
    + intros v w; apply merge_min_lower.
  - apply (fold_extreme _ _ (fun v => ordered_class v = Some k)); try done.
    + intros v; apply class_le_refl.
    + intros u v w Hu Hv Hw Huv Hvw; by apply (class_le_trans w v u k).
    + intros v w; apply merge_max_upper.
Qed.

(** When two bounds cannot be compared, as after the promotion of the column
    in the same transaction, the statistics forget both and the next file sets
    them again: the lower bound of the column may exceed a registered one of its
    type. *)
Theorem incomparable_bound_forgotten :
  exists (files : list FileColumnStats.t) (lo v : Value),
    ColumnStats.min_value (registered files) = Some lo /\
    Some v ∈ map FileColumnStats.min_value files /\
    Value.partial_cmp v lo = Some Lt.
Proof.
  pose (file v := FileColumnStats.mk None (Some v) (Some v) (Some 0%Z) None).
  exists [file (Value.Int32 1); file (Value.Int64 5); file (Value.Int64 7)],
    (Value.Int64 7), (Value.Int64 5).
  split; [done|]; split; [cbn; set_solver | done].
Qed.
End Promises.

Lemma registered_bounds_witness :
  let file min max := @FileColumnStats.mk demo_external None min max (Some 0%Z) None in
  let int n := Some (@Value.Int64 demo_external n) in
  let files := [file (int 5%Z) (int 9%Z); file None None; file (int 3%Z) (int 4%Z)] in
  extreme value_le (map FileColumnStats.min_value files) (int 3%Z) /\
  extreme (flip value_le) (map FileColumnStats.max_value files) (int 9%Z).
Proof.
  intros file int files; refine (registered_bounds files 4 _ _);
    intros v Hv; apply list_elem_of_In in Hv as [E|[E|[E|[]]]]; inversion E; reflexivity.
Defined.

