(* ===== verification/Differences.v ===== *)
(** * Differences of keyed collections ([primitives/diff_iterator.rs])

    Two collections are sorted by key and joined: what is in both, what only in
    one. A schema update walks such a difference. *)

From S2P Require Import Prelude Text Regex Identifier Types TableStats.

Inductive EitherOrBoth (A B : Type) : Type :=
  | Both (a : A) (b : B)
  | Left (a : A)
  | Right (b : B).
Arguments Both {A B} a b.
Arguments Left {A B} a.
Arguments Right {A B} b.

Definition str_leb (a b : string) : bool :=
  match Value.str_cmp a b with Gt => false | _ => true end.

(** [Itertools::merge_join_by] *)
Fixpoint merge_join_by {A B} (cmp : A -> B -> comparison) (l : list A)
    : list B -> list (EitherOrBoth A B) :=
  fix go (r : list B) : list (EitherOrBoth A B) :=
    match l, r with
    | [], r => Right <$> r
    | l, [] => Left <$> l
    | x :: l', y :: r' =>
        match cmp x y with
        | Lt => Left x :: merge_join_by cmp l' r
        | Eq => Both x y :: merge_join_by cmp l' r'
        | Gt => Right y :: go r'
        end
    end.

Definition iter_index_map_diff {V} (lhs rhs : list (string * V))
    : list (EitherOrBoth (string * V) (string * V)) :=
  merge_join_by (fun a b => Value.str_cmp a.1 b.1)
    (sort_by_key str_leb fst lhs) (sort_by_key str_leb fst rhs).

Definition iter_vec_diff {T} (lhs rhs : list T) (key_fn : T -> string)
    : list (EitherOrBoth T T) :=
  merge_join_by (fun a b => Value.str_cmp (key_fn a) (key_fn b))
    (sort_by_key str_leb key_fn lhs) (sort_by_key str_leb key_fn rhs).


Section Diff.
Context {A B : Type} (f : A -> string) (g : B -> string).
Let cmp (a : A) (b : B) : comparison := Value.str_cmp (f a) (g b).

Definition left_of (item : EitherOrBoth A B) : option A :=
  match item with Both a _ | Left a => Some a | Right _ => None end.
Definition right_of (item : EitherOrBoth A B) : option B :=
  match item with Both _ b | Right b => Some b | Left _ => None end.

(** What a difference says of an item's key *)
Definition item_ok (l : list A) (r : list B) (item : EitherOrBoth A B) : Prop :=
  match item with
  | Both a b => f a = g b
  | Left a => f a ∉ g <$> r
  | Right b => g b ∉ f <$> l
  end.

Lemma str_cmp_eq a b : Value.str_cmp a b = Eq <-> a = b.
Proof.
  unfold Value.str_cmp; rewrite bytes_cmp_eq; split; [|congruence].
  intros H; rewrite <- (of_chars_chars a), <- (of_chars_chars b); by f_equal.
Qed.
Lemma str_lt_trans a b c :
  Value.str_cmp a b = Lt -> Value.str_cmp b c = Lt -> Value.str_cmp a c = Lt.
Proof.
  intros Hab Hbc; unfold Value.str_cmp in *.
  pose proof (bytes_le_trans (chars a) (chars b) (chars c)) as Hle.
  rewrite Hab, Hbc in Hle; destruct (Value.bytes_cmp (chars a) (chars c)) eqn:Hac; try done.
  - apply bytes_cmp_eq in Hac; rewrite Hac, bytes_cmp_flip, Hbc in Hab; done.
  - by destruct Hle.
Qed.
Lemma str_cmp_flip a b : Value.str_cmp b a = CompOpp (Value.str_cmp a b).
Proof. apply bytes_cmp_flip. Qed.

Definition increasing {T} (key : T -> string) : list T -> Prop :=
  StronglySorted (fun x y => Value.str_cmp (key x) (key y) = Lt).

Lemma below_absent {T} (key : T -> string) (k : string) x l :
  increasing key (x :: l) -> Value.str_cmp k (key x) = Lt -> k ∉ key <$> x :: l.
Proof.
  intros [_ Hx]%StronglySorted_inv Hk; rewrite list_elem_of_fmap; intros (y & -> & Hy).
  apply elem_of_cons in Hy as [->|Hy].
  - by rewrite (proj2 (str_cmp_eq _ _) eq_refl) in Hk.
  - rewrite List.Forall_forall in Hx; apply list_elem_of_In, Hx in Hy.
    rewrite str_cmp_flip, Hk in Hy; done.
Qed.

Lemma item_ok_cons_l x l r item :
  (forall b, right_of item = Some b -> Value.str_cmp (f x) (g b) = Lt) ->
  item_ok l r item -> item_ok (x :: l) r item.
Proof.
  destruct item as [a b|a|b]; cbn; try done; intros Hlt Hok.
  rewrite not_elem_of_cons; split; [|done]; intros Heq; specialize (Hlt b eq_refl).
  by rewrite Heq, (proj2 (str_cmp_eq _ _) eq_refl) in Hlt.
Qed.
Lemma item_ok_cons_r y l r item :
  (forall a, left_of item = Some a -> Value.str_cmp (g y) (f a) = Lt) ->
  item_ok l r item -> item_ok l (y :: r) item.
Proof.
  destruct item as [a b|a|b]; cbn; try done; intros Hlt Hok.
  rewrite not_elem_of_cons; split; [|done]; intros Heq; specialize (Hlt a eq_refl).
  by rewrite Heq, (proj2 (str_cmp_eq _ _) eq_refl) in Hlt.
Qed.

Lemma merge_nil_l r : merge_join_by cmp [] r = Right <$> r.
Proof. by destruct r. Qed.
Lemma merge_nil_r l : merge_join_by cmp l [] = Left <$> l.
Proof. by destruct l. Qed.
Lemma merge_cons x l y r :
  merge_join_by cmp (x :: l) (y :: r) =
    match cmp x y with
    | Lt => Left x :: merge_join_by cmp l (y :: r)
    | Eq => Both x y :: merge_join_by cmp l r
    | Gt => Right y :: merge_join_by cmp (x :: l) r
    end.
Proof. done. Qed.

Lemma merge_join_by_sides l r :
  omap left_of (merge_join_by cmp l r) = l /\ omap right_of (merge_join_by cmp l r) = r.
Proof.
  revert r; induction l as [|x l IH]; intros r.
  - rewrite merge_nil_l; split; induction r as [|y r IHr]; csimpl; congruence.
  - induction r as [|y r [IHl IHr]].
    + rewrite merge_nil_r; clear; split; induction (x :: l) as [|z l' IHl]; csimpl; congruence.
    + rewrite merge_cons; destruct (IH r) as [IHl1 IHr1], (IH (y :: r)) as [IHl2 IHr2].
      revert IHl IHr IHl1 IHr1 IHl2 IHr2.
      generalize (merge_join_by cmp (x :: l) r), (merge_join_by cmp l r),
        (merge_join_by cmp l (y :: r)); intros m m1 m2 ??????.
      destruct (cmp x y); csimpl; split; congruence.
Qed.

Lemma merge_join_by_ok l r :
  increasing f l -> increasing g r -> Forall (item_ok l r) (merge_join_by cmp l r).
Proof.
  intros Hl; revert r; induction l as [|x l IH]; intros r.
  - intros Hr; rewrite merge_nil_l.
    apply Forall_forall; intros ? (b & -> & _)%list_elem_of_fmap; cbn; set_solver.
  - specialize (IH (proj1 (StronglySorted_inv Hl))).
    induction r as [|y r IHr]; intros Hr.
    + rewrite merge_nil_r; apply Forall_forall.
      intros ? (b & -> & _)%list_elem_of_fmap; cbn; set_solver.
    + specialize (IHr (proj1 (StronglySorted_inv Hr))).
      assert (Hhead : forall b, b ∈ r -> Value.str_cmp (g y) (g b) = Lt).
      { intros b Hb; apply StronglySorted_inv in Hr as [_ Hr].
        rewrite List.Forall_forall in Hr; apply Hr; by apply list_elem_of_In. }
      assert (Hhead' : forall a, a ∈ l -> Value.str_cmp (f x) (f a) = Lt).
      { intros b Hb; apply StronglySorted_inv in Hl as [_ Hl'].
        rewrite List.Forall_forall in Hl'; apply Hl'; by apply list_elem_of_In. }
      destruct (merge_join_by_sides l r) as [S1 S2], (merge_join_by_sides l (y :: r)) as [S3 S4],
        (merge_join_by_sides (x :: l) r) as [S5 S6].
      rewrite merge_cons; unfold cmp in *; destruct (Value.str_cmp (f x) (g y)) eqn:E.
      * assert (f x = g y) as Hxy by by apply str_cmp_eq.
        constructor; [done|]; specialize (IH r (proj1 (StronglySorted_inv Hr))).
        rewrite List.Forall_forall in IH; apply Forall_forall; intros item Hitem.
        apply item_ok_cons_r; [|apply item_ok_cons_l; [|apply IH; by apply list_elem_of_In]].
        -- intros a Ha; rewrite <- Hxy; apply Hhead'; rewrite <- S1; apply list_elem_of_omap; eauto.
        -- intros b Hb; rewrite Hxy; apply Hhead; rewrite <- S2; apply list_elem_of_omap; eauto.
      * constructor; [by apply below_absent|].
        specialize (IH (y :: r) Hr); rewrite List.Forall_forall in IH.
        apply Forall_forall; intros item Hitem; apply item_ok_cons_l; [|apply IH; by apply list_elem_of_In].
        intros b Hb; assert (b ∈ y :: r) as [->|Hb']%elem_of_cons; [|done|].
        -- rewrite <- S4; apply list_elem_of_omap; eauto.
        -- eauto using str_lt_trans.
      * assert (Value.str_cmp (g y) (f x) = Lt) as E' by (by rewrite str_cmp_flip, E).
        constructor; [by apply below_absent|].
        rewrite List.Forall_forall in IHr.
        apply Forall_forall; intros item Hitem; apply item_ok_cons_r; [|apply IHr; by apply list_elem_of_In].
        intros a Ha; assert (a ∈ x :: l) as [->|Ha']%elem_of_cons; [|done|].
        -- rewrite <- S5; apply list_elem_of_omap; eauto.
        -- eauto using str_lt_trans.
Qed.
End Diff.

Lemma sort_increasing {T} (key : T -> string) (l : list T) :
  NoDup (key <$> l) -> increasing key (sort_by_key str_leb key l).
Proof.
  induction l as [|x l IH]; csimpl; [by constructor|]; intros [Hx Hl]%NoDup_cons.
  specialize (IH Hl); assert (Hfresh : key x ∉ key <$> sort_by_key str_leb key l).
  { by rewrite sort_by_key_perm. }
  revert IH Hfresh; generalize (sort_by_key str_leb key l) as s; clear.
  induction s as [|y s IH]; csimpl; intros Hs Hfresh; [by repeat constructor|].
  unfold str_leb; destruct (Value.str_cmp (key x) (key y)) eqn:E.
  - apply str_cmp_eq in E; set_solver.
  - constructor; [done|]; constructor; [done|].
    apply StronglySorted_inv in Hs as [_ Hs]; eapply List.Forall_impl; [|exact Hs].
    intros z; cbn; by apply str_lt_trans.
  - apply StronglySorted_inv in Hs as [Hs Hy]; constructor.
    + apply IH; [done|set_solver].
    + rewrite sort_insert_perm; constructor; [|done]; by rewrite str_cmp_flip, E.
Qed.

(** The difference of two collections with unique keys lists every element
    of either exactly once: elements with the same key together, an element of
    one side alone exactly when the other side lacks its key. *)
Theorem iter_vec_diff_exact {T} (lhs rhs : list T) (key_fn : T -> string)
    (Hl : NoDup (key_fn <$> lhs)) (Hr : NoDup (key_fn <$> rhs)) :
  let diff := iter_vec_diff lhs rhs key_fn in
  omap left_of diff ≡ₚ lhs /\ omap right_of diff ≡ₚ rhs /\
  Forall (fun item => match item with
    | Both old new => key_fn old = key_fn new
    | Left old => key_fn old ∉ key_fn <$> rhs
    | Right new => key_fn new ∉ key_fn <$> lhs
    end) diff.
Proof.
  cbn; unfold iter_vec_diff.
  destruct (merge_join_by_sides key_fn key_fn (sort_by_key str_leb key_fn lhs)
    (sort_by_key str_leb key_fn rhs)) as [H1 H2].
  split_and!; [by rewrite H1, sort_by_key_perm | by rewrite H2, sort_by_key_perm|].
  eapply List.Forall_impl; [|by apply merge_join_by_ok; apply sort_increasing].
  intros [a b|a|b]; cbn; [done|by rewrite sort_by_key_perm..].
Qed.


Lemma iter_vec_diff_exact_witness :
  let diff := iter_vec_diff ["b"; "a"] ["c"; "b"] id in
  diff = [Left "a"; Both "b" "b"; Right "c"] /\ omap left_of diff ≡ₚ ["b"; "a"].
Proof.
  intros diff; split; [reflexivity|].
  assert (NoDup ["b"; "a"] /\ NoDup ["c"; "b"]) as [H1 H2].
  { split; apply (bool_decide_unpack _); vm_compute; exact I. }
  exact (proj1 (iter_vec_diff_exact ["b"; "a"] ["c"; "b"] id H1 H2)).
Defined.
