(* ===== verification/CommitState.v ===== *)
(** * The state of one commit attempt ([transaction/commit_state.rs])

    The IDs of the new snapshot, the sequences catalog and file IDs are drawn
    from, the transaction's catalog (a copy, written when IDs are resolved) and
    the statistics of the tables. *)

From S2P Require Import Prelude Text Regex Identifier Types Entities CatalogColumns Catalog TableStats.

(** [caches/snapshot.rs] *)
Module SnapshotInfo.
Record t `{External} : Type := mk {
  id : Z;
  schema_version : Z;
  next_catalog_id : Z;
  next_file_id : Z;
  snapshot_time : DateTimeUtc;
}.
#[global] Arguments mk {_} id schema_version next_catalog_id next_file_id snapshot_time.

(** [From<DucklakeSnapshot>] *)
Definition from_snapshot `{External} (s : DucklakeSnapshot) : t :=
  mk (DucklakeSnapshot.snapshot_id s) (DucklakeSnapshot.schema_version s)
    (DucklakeSnapshot.next_catalog_id s) (DucklakeSnapshot.next_file_id s)
    (DucklakeSnapshot.snapshot_time s).
End SnapshotInfo.
Abbreviation SnapshotInfo := SnapshotInfo.t.

Module CommitState.
Record t `{External} : Type := mk {
  snapshot_id : Z;
  schema_version : Z;
  next_catalog_id : Z;
  next_file_id : Z;
  catalog : Catalog;
  table_stats : option (gmap Z TableStats);
  original_table_stats : option (gmap Z TableStats);
}.
#[global] Arguments mk {_} snapshot_id schema_version next_catalog_id next_file_id catalog
  table_stats original_table_stats.
Definition eta `{External} (s : t) : t :=
  mk (snapshot_id s) (schema_version s) (next_catalog_id s) (next_file_id s) (catalog s)
    (table_stats s) (original_table_stats s).
#[export] Instance set_next_catalog_id `{External} : Setter next_catalog_id :=
  ltac:(mk_setter eta next_catalog_id).
#[export] Instance set_next_file_id `{External} : Setter next_file_id :=
  ltac:(mk_setter eta next_file_id).
#[export] Instance set_catalog `{External} : Setter catalog := ltac:(mk_setter eta catalog).
#[export] Instance set_table_stats `{External} : Setter table_stats :=
  ltac:(mk_setter eta table_stats).

Section CommitState.
Context `{EXT : External}.

Definition new (snapshot_info : SnapshotInfo) (catalog : Catalog) (schema_changed : bool)
    (table_stats : option (gmap Z TableStats)) : t :=
  mk (i64_add (SnapshotInfo.id snapshot_info) 1)
    (i64_add (SnapshotInfo.schema_version snapshot_info) (Z.b2z schema_changed))
    (SnapshotInfo.next_catalog_id snapshot_info) (SnapshotInfo.next_file_id snapshot_info)
    catalog table_stats table_stats.

(** A method of the catalog copy. *)
Definition on_catalog {A} (m : method Catalog A) : method t A :=
  st_zoom catalog (fun c self => self <| catalog := c |>) m.

Definition catalog_id : method t Z :=
  self ← st_get;
  st_modify (fun self => self <| next_catalog_id ::= fun n => i64_add n 1 |>) ;;
  mret (next_catalog_id self).

Definition file_id : method t Z :=
  self ← st_get;
  st_modify (fun self => self <| next_file_id ::= fun n => i64_add n 1 |>) ;;
  mret (next_file_id self).

(** The ID an entity has, or a fresh one that is then resolved in the catalog. *)
Definition known_or_fresh (known : Catalog -> result (option Z)) (resolve : Z -> method Catalog unit)
    : method t Z :=
  self ← st_get;
  existing ← st_lift (known (catalog self));
  match existing with
  | Some id => mret id
  | None => id ← catalog_id; on_catalog (resolve id) ;; mret id
  end.

Definition schema_id (r : SchemaRef) : method t Z :=
  known_or_fresh (fun c => Catalog.schema_id c r) (Catalog.resolve_schema_id r).
Definition table_id (r : TableRef) : method t Z :=
  known_or_fresh (fun c => Catalog.table_id c r) (Catalog.resolve_table_id r).
Definition view_id (r : ViewRef) : method t Z :=
  known_or_fresh (fun c => Catalog.view_id c r) (Catalog.resolve_view_id r).
Definition macro_id (r : MacroRef) : method t Z :=
  known_or_fresh (fun c => Catalog.macro_id c r) (Catalog.resolve_macro_id r).
Definition partition_id (r : TableRef) : method t Z :=
  known_or_fresh (fun c => Catalog.partition_id c r) (Catalog.resolve_partition_id r).

Definition column_id (c : ColumnRef) : method t Z :=
  self ← st_get; st_lift (Catalog.column_id (catalog self) c).

Definition sort_info_id : method t Z := catalog_id.

Definition column_stats_of (stats : option (gmap Z TableStats)) (table_id column_id : Z)
    : option ColumnStats :=
  tables ← stats; table ← tables !! table_id; TableStats.column_stats table !! column_id.

Definition column_stats_changed (self : t) (table_id column_id : Z) : bool :=
  negb (ColumnStats.option_eqb ColumnStats.eqb
          (column_stats_of (table_stats self) table_id column_id)
          (column_stats_of (original_table_stats self) table_id column_id)).

(** [self.table_stats(table_id)], its entry created when it is missing *)
Definition get_table_stats (table_id : Z) : method t TableStats :=
  self ← st_get;
  stats ← st_lift (unwrap (table_stats self));
  let entry := default TableStats.default (stats !! table_id) in
  st_modify (fun self => self <| table_stats := Some (<[table_id := entry]> stats) |>) ;;
  mret entry.

(** A write through the reference [table_stats] returns. *)
Definition update_table_stats (table_id : Z) (f : TableStats -> TableStats) : method t unit :=
  entry ← get_table_stats table_id;
  st_modify (fun self => self <| table_stats ::= fmap (<[table_id := f entry]>) |>).

Definition table_schema (self : t) (r : TableRef) : result Schema :=
  Catalog.table_schema (catalog self) r.

(** [From<&CommitState> for DucklakeSnapshot]; [now] is the wall clock. *)
Definition to_snapshot (now : DateTimeUtc) (self : t) : DucklakeSnapshot :=
  DucklakeSnapshot.mk (snapshot_id self) now (schema_version self) (next_catalog_id self)
    (next_file_id self).
End CommitState.
End CommitState.
#[export] Existing Instances CommitState.set_next_catalog_id CommitState.set_next_file_id
  CommitState.set_catalog CommitState.set_table_stats.
Abbreviation CommitState := CommitState.t.
