(* ===== verification/Ids.v ===== *)
(** * The IDs of a commit ([transaction/commit_state.rs])

    IDs of schemas, tables, views, macros, partitionings and sort orders come from
    one sequence, those of files from another; both begin where the base snapshot
    left them. An entity that has no ID gets the next one and keeps it. *)

From S2P Require Import Prelude Triple Text Regex Identifier Types Instances Entities.
From S2P Require Import CatalogColumns Catalog TableStats CommitState.

Section Ids.
Context `{EXT : External}.

(** All IDs of a catalog drawn from the sequence *)
Definition catalog_ids (c : Catalog) : list Z :=
  omap CatalogSchema.id (Arena.arena (Catalog.schema_arena c)) ++
  omap CatalogTable.id (Arena.arena (Catalog.table_arena c)) ++
  omap CatalogView.id (Arena.arena (Catalog.view_arena c)) ++
  omap CatalogMacro.id (Arena.arena (Catalog.macro_arena c)) ++
  omap (fun t => CatalogTable.partition t ≫= CatalogTablePartition.id)
    (Arena.arena (Catalog.table_arena c)).

(** The lookup and the resolution behind each method *)
Inductive drawn : (Catalog -> result (option Z)) -> (Z -> method Catalog unit) -> Prop :=
  | drawn_schema r : drawn (fun c => Catalog.schema_id c r) (Catalog.resolve_schema_id r)
  | drawn_table r : drawn (fun c => Catalog.table_id c r) (Catalog.resolve_table_id r)
  | drawn_view r : drawn (fun c => Catalog.view_id c r) (Catalog.resolve_view_id r)
  | drawn_macro r : drawn (fun c => Catalog.macro_id c r) (Catalog.resolve_macro_id r)
  | drawn_partition r : drawn (fun c => Catalog.partition_id c r) (Catalog.resolve_partition_id r).

Lemma omap_insert_None {A} (f : A -> option Z) (l : list A) i x y :
  l !! i = Some x -> f x = None -> f y = None -> omap f (<[i := y]> l) = omap f l.
Proof.
  revert i. induction l as [|z l IH]; intros [|i]; cbn; [done|done| |].
  - intros [= ->] -> ->. done.
  - intros Hl Hx Hy. by rewrite IH.
Qed.
Lemma omap_insert_same {A} (f : A -> option Z) (l : list A) i x y :
  l !! i = Some x -> f y = f x -> omap f (<[i := y]> l) = omap f l.
Proof.
  revert i. induction l as [|z l IH]; intros [|i]; cbn; [done|done| |].
  - intros [= ->] ->. done.
  - intros Hl Hy. by rewrite IH.
Qed.
Lemma omap_insert_new {A} (f : A -> option Z) (l : list A) i x y id :
  l !! i = Some x -> f x = None -> f y = Some id -> omap f (<[i := y]> l) ≡ₚ id :: omap f l.
Proof.
  revert i. induction l as [|z l IH]; intros [|i]; cbn; [done|done| |].
  - intros [= ->] -> ->. done.
  - intros Hl Hx Hy. specialize (IH i Hl Hx Hy). destruct (f z); [|done].
    rewrite IH. apply Permutation_swap.
Qed.

Lemma update_arena_Ok {A} (arena : Catalog -> Arena A) `{!Setter arena} idx f c u c' :
  Catalog.update_arena arena idx f c = (Ok u, c') ->
  exists x, Arena.arena (arena c) !! idx = Some x /\
    c' = c <| arena := Arena.mk (<[idx := f x]> (Arena.arena (arena c))) (Arena.by_id (arena c)) |>.
Proof.
  unfold Catalog.update_arena, Arena.update. destruct (Arena.arena (arena c) !! idx) as [x|]; [|done].
  intros [= _ <-]. by exists x.
Qed.

(** Evaluate a resolution on an entity whose arena entry is looked up. *)
Ltac open_resolution :=
  unfold Catalog.schema_id, Catalog.table_id, Catalog.view_id, Catalog.macro_id,
    Catalog.partition_id, Catalog.schema_inner, Catalog.table_inner, Catalog.view_inner,
    Catalog.macro_inner, Catalog.resolve_schema_id, Catalog.resolve_table_id,
    Catalog.resolve_view_id, Catalog.resolve_macro_id, Catalog.resolve_partition_id,
    Catalog.update_schema, Catalog.update_table, Catalog.update_view, Catalog.update_macro,
    Catalog.update_arena, Arena.update, Arena.get, Catalog.schema_inner, Catalog.table_inner,
    Catalog.view_inner, Catalog.macro_inner, Arena.get, mbind, stateful_bind, outcome_bind, st_get,
    st_lift, unwrap in *; cbn [fmap outcome_fmap] in *.

(** Resolving an ID adds it to the catalog, once, and makes it known. *)
Lemma resolve_adds known resolve (c : Catalog) id u c' :
  drawn known resolve -> known c = Ok None -> resolve id c = (Ok u, c') ->
  catalog_ids c' ≡ₚ id :: catalog_ids c /\ known c' = Ok (Some id).
Proof.
  intros Hd. destruct Hd as [r|r|r|r|r]; intros Hk; open_resolution;
    (match goal with
     | H : context [match ?l !! ?i with _ => _ end] |- _ => destruct (l !! i) as [x|] eqn:Hx
     end; [|done]); cbn in Hk; injection Hk as Hk;
    pose proof (lookup_lt_Some _ _ _ Hx) as Hlt.
  - rewrite Hk, Hx. unfold st_modify. intros [= _ <-]. unfold catalog_ids. cbn -[lookup insert omap].
    rewrite list_lookup_insert_eq by done. split; [|done].
    by rewrite (omap_insert_new _ _ _ x _ id).
  - rewrite Hk, Hx. unfold st_modify. intros [= _ <-]. unfold catalog_ids. cbn -[lookup insert omap].
    rewrite list_lookup_insert_eq by done. split; [|done].
    rewrite (omap_insert_new _ _ _ x _ id), (omap_insert_same _ _ _ x) by done.
    by rewrite <-?app_comm_cons, <-Permutation_middle.
  - rewrite Hk, Hx. unfold st_modify. intros [= _ <-]. unfold catalog_ids. cbn -[lookup insert omap].
    rewrite list_lookup_insert_eq by done. split; [|done].
    rewrite (omap_insert_new _ _ _ x _ id) by done. by rewrite <-?app_comm_cons, <-!Permutation_middle.
  - rewrite Hk, Hx. unfold st_modify. intros [= _ <-]. unfold catalog_ids. cbn -[lookup insert omap].
    rewrite list_lookup_insert_eq by done. split; [|done].
    rewrite (omap_insert_new _ _ _ x _ id) by done. by rewrite <-?app_comm_cons, <-!Permutation_middle.
  - destruct (CatalogTable.partition x) as [p|] eqn:Hp; [|done]. cbn in Hk.
    rewrite Hk, Hx. intros [= _ <-]. unfold catalog_ids. cbn -[lookup insert omap].
    rewrite list_lookup_insert_eq by done. split; [|done].
    rewrite (omap_insert_same _ _ _ x) by done.
    rewrite (omap_insert_new (fun t => _) _ _ x _ id); [|done|by cbn; rewrite Hp|done].
    by rewrite <-?app_comm_cons, <-!Permutation_middle.
Qed.

Lemma known_in_ids known resolve (c : Catalog) id :
  drawn known resolve -> known c = Ok (Some id) -> id ∈ catalog_ids c.
Proof.
  unfold catalog_ids. intros Hd. rewrite !elem_of_app.
  destruct Hd as [r|r|r|r|r]; open_resolution;
    (match goal with
     | |- context [match ?l !! ?i with _ => _ end] => destruct (l !! i) as [x|] eqn:Hx
     end; [|done]); cbn; intros [= Hk]; apply list_elem_of_lookup_2 in Hx.
  - left. apply list_elem_of_omap. eauto.
  - right. left. apply list_elem_of_omap. eauto.
  - do 2 right. left. apply list_elem_of_omap. eauto.
  - do 3 right. left. apply list_elem_of_omap. eauto.
  - do 4 right. apply list_elem_of_omap. eauto.
Qed.

Lemma known_or_fresh_Ok known resolve st id st' :
  drawn known resolve ->
  CommitState.known_or_fresh known resolve st = (Ok id, st') ->
  (known (CommitState.catalog st) = Ok (Some id) /\ st' = st) \/
  (known (CommitState.catalog st) = Ok None /\ id = CommitState.next_catalog_id st /\
   CommitState.next_catalog_id st' = i64_add id 1 /\
   catalog_ids (CommitState.catalog st') ≡ₚ id :: catalog_ids (CommitState.catalog st) /\
   known (CommitState.catalog st') = Ok (Some id)).
Proof.
  intros Hd. unfold CommitState.known_or_fresh. unfold mbind at 1, stateful_bind at 1, st_get at 1.
  unfold mbind at 1, stateful_bind at 1, st_lift at 1.
  destruct (known (CommitState.catalog st)) as [[id0|]| |] eqn:Hk; [|..|done|done].
  - cbn. intros [= <- <-]. by left.
  - unfold CommitState.catalog_id, CommitState.on_catalog, st_zoom, mbind, stateful_bind, st_get, st_modify.
    cbn. destruct (resolve _ _) as [[u| |] c'] eqn:Hr; [|done|done]. intros [= <- <-].
    destruct (resolve_adds known resolve _ _ _ _ Hd Hk Hr). by right.
Qed.

(** Resolving one entity leaves what is known of the others as it was. *)
Lemma resolve_keeps known resolve known' resolve' (c : Catalog) id u c' :
  drawn known resolve -> drawn known' resolve' ->
  known c = Ok None -> resolve id c = (Ok u, c') ->
  known' c' = known' c \/ (known' c = Ok None /\ known' c' = Ok (Some id)).
Proof.
  intros Hd Hd'. destruct Hd as [r|r|r|r|r]; intros Hk; open_resolution;
    (match goal with
     | H : context [match ?l !! ?i with _ => _ end] |- _ => destruct (l !! i) as [x|] eqn:Hx
     end; [|done]); cbn in Hk; injection Hk as Hk;
    pose proof (lookup_lt_Some _ _ _ Hx) as Hlt;
    try (destruct (CatalogTable.partition x) as [p|] eqn:Hp; [|done]; cbn in Hk);
    rewrite Hk, ?Hx; unfold st_modify; intros [= _ <-];
    destruct Hd' as [r'|r'|r'|r'|r']; open_resolution; cbn -[lookup insert]; try (by left);
    (match goal with
     | |- context [<[?i := _]> ?l !! ?j] =>
         destruct (decide (j = i)) as [->|Hne];
         [rewrite list_lookup_insert_eq, Hx by done; cbn; rewrite ?Hp, ?Hk; cbn; rewrite ?Hk; auto
         |rewrite list_lookup_insert_ne by done; by left]
     end).
Qed.

(** ** What a commit draws *)

(** A draw: the ID of an entity, of a sort order, of a file *)
Inductive Draw : Type :=
  | DrawSchema (r : SchemaRef)
  | DrawTable (r : TableRef)
  | DrawView (r : ViewRef)
  | DrawMacro (r : MacroRef)
  | DrawPartition (r : TableRef)
  | DrawSortInfo
  | DrawFile.

Definition draw (d : Draw) : method CommitState Z :=
  match d with
  | DrawSchema r => CommitState.schema_id r
  | DrawTable r => CommitState.table_id r
  | DrawView r => CommitState.view_id r
  | DrawMacro r => CommitState.macro_id r
  | DrawPartition r => CommitState.partition_id r
  | DrawSortInfo => CommitState.sort_info_id
  | DrawFile => CommitState.file_id
  end.

(** The ID an entity has in a catalog; sort orders and files have none before. *)
Definition entity_id (d : Draw) : option (Catalog -> result (option Z)) :=
  match d with
  | DrawSchema r => Some (fun c => Catalog.schema_id c r)
  | DrawTable r => Some (fun c => Catalog.table_id c r)
  | DrawView r => Some (fun c => Catalog.view_id c r)
  | DrawMacro r => Some (fun c => Catalog.macro_id c r)
  | DrawPartition r => Some (fun c => Catalog.partition_id c r)
  | DrawSortInfo | DrawFile => None
  end.

Lemma draw_entity d known m :
  entity_id d = Some known -> draw d = m ->
  exists resolve, drawn known resolve /\ m = CommitState.known_or_fresh known resolve.
Proof.
  intros Hd <-. destruct d; cbn in Hd; (done || injection Hd as <-);
    (eexists; split; [constructor|reflexivity]).
Qed.

(** The IDs that the draws of one kind got *)
Definition given (kind : Draw -> bool) (ds : list Draw) (ids : list Z) : list Z :=
  (filter (fun p => kind (fst p) = true) (zip ds ids)).*2.
Definition of_sort_order (d : Draw) : bool := match d with DrawSortInfo => true | _ => false end.
Definition of_file (d : Draw) : bool := match d with DrawFile => true | _ => false end.

(** One of the next [n] IDs of the catalog's sequence *)
Definition among (st : CommitState) (n : nat) (id : Z) : Prop :=
  (CommitState.next_catalog_id st <= id < CommitState.next_catalog_id st + Z.of_nat n)%Z.

(** What a sequence of draws that began at [st] and gave [ids] has done: [n] IDs of the
    catalog's sequence went to entities that had none and to sort orders, file IDs
    to the files, and every entity drawn has the ID it was given. *)
Definition drew (st : CommitState) (ds : list Draw) (ids : list Z) (st' : CommitState) : Prop :=
  exists n : nat,
    n <= length ds /\
    CommitState.next_catalog_id st' = (CommitState.next_catalog_id st + Z.of_nat n)%Z /\
    catalog_ids (CommitState.catalog st') ++ given of_sort_order ds ids
      ≡ₚ catalog_ids (CommitState.catalog st) ++ seqZ (CommitState.next_catalog_id st) (Z.of_nat n) /\
    given of_file ds ids =
      seqZ (CommitState.next_file_id st) (Z.of_nat (length (given of_file ds ids))) /\
    CommitState.next_file_id st' =
      (CommitState.next_file_id st + Z.of_nat (length (given of_file ds ids)))%Z /\
    Forall2 (fun d id => forall known, entity_id d = Some known ->
      known (CommitState.catalog st') = Ok (Some id) /\
      (known (CommitState.catalog st) = Ok (Some id) \/
       (known (CommitState.catalog st) = Ok None /\ among st n id))) ds ids /\
    (forall d known, entity_id d = Some known ->
      known (CommitState.catalog st') = known (CommitState.catalog st) \/
      (known (CommitState.catalog st) = Ok None /\
       exists id, known (CommitState.catalog st') = Ok (Some id) /\ among st n id)).

Lemma given_cons kind d ds id ids :
  given kind (d :: ds) (id :: ids) = (if kind d then [id] else []) ++ given kind ds ids.
Proof. unfold given. cbn [zip_with]. rewrite filter_cons. cbn. by destruct (kind d). Qed.

Lemma entity_drawn d known : entity_id d = Some known -> exists resolve, drawn known resolve.
Proof. intros Hd. destruct (draw_entity d known _ Hd eq_refl) as (resolve & ? & _). eauto. Qed.

Lemma seqZ_app_nat m (n1 n2 : nat) : 
  seqZ m (Z.of_nat (n1 + n2)) = seqZ m (Z.of_nat n1) ++ seqZ (m + Z.of_nat n1) (Z.of_nat n2).
Proof. rewrite Nat2Z.inj_add. apply seqZ_app; lia. Qed.

Lemma known_or_fresh_files known resolve st id st' :
  CommitState.known_or_fresh known resolve st = (Ok id, st') ->
  CommitState.next_file_id st' = CommitState.next_file_id st.
Proof.
  unfold CommitState.known_or_fresh, CommitState.catalog_id, CommitState.on_catalog, st_zoom,
    mbind, stateful_bind, st_get, st_lift, st_modify.
  destruct (known _) as [[?|]| |]; [by intros [= _ <-]| |done|done]. cbn.
  destruct (resolve _ _) as [[] ?]; [by intros [= _ <-]|done|done].
Qed.

(** One draw *)
Lemma draw_entity_drew d known st id st' :
  entity_id d = Some known ->
  in_i64 (CommitState.next_catalog_id st + 1) ->
  draw d st = (Ok id, st') -> drew st [d] [id] st'.
Proof.
  intros He Hc Hd. unfold drew. rewrite !given_cons.
  assert (of_sort_order d = false /\ of_file d = false) as [-> ->] by (by destruct d).
  destruct (draw_entity d known _ He eq_refl) as (resolve & Hk & Hm). rewrite Hm in Hd.
  pose proof (known_or_fresh_files _ _ _ _ _ Hd) as Hfile. cbn [given zip app length].
  pose proof Hd as [[Ho ->]|(Ho & Hid & Hn & Hids & Hn')]%known_or_fresh_Ok; [| |done].
  - exists 0. cbn. rewrite !app_nil_r. repeat split; try done; try lia.
    + constructor; [|constructor]. rewrite He. intros known0 [= <-]. auto.
    + intros. by left.
  - exists 1. rewrite Hid in *. rewrite i64_add_exact in Hn by done. cbn. rewrite !app_nil_r.
    assert (among st 1 (CommitState.next_catalog_id st)) by (unfold among; lia).
    repeat split; try done; try lia.
    + rewrite Hids. by rewrite Permutation_cons_append.
    + constructor; [|constructor]. rewrite He. intros known0 [= <-]. auto.
    + intros d' known' He'. destruct (entity_drawn _ _ He') as (resolve' & Hd').
      revert Hd. unfold CommitState.known_or_fresh, CommitState.catalog_id, CommitState.on_catalog, st_zoom,
        mbind, stateful_bind, st_get, st_lift, st_modify. rewrite Ho. cbn.
      destruct (resolve _ _) as [[[]|?|] c'] eqn:Hr; [|done|done]. intros [= <-]. cbn.
      destruct (resolve_keeps _ _ _ _ _ _ _ _ Hk Hd' Ho Hr) as [?|[? ?]]; eauto.
Qed.

Lemma draw_one d st id st' :
  in_i64 (CommitState.next_catalog_id st + 1) -> in_i64 (CommitState.next_file_id st + 1) ->
  draw d st = (Ok id, st') -> drew st [d] [id] st'.
Proof.
  intros Hc Hf Hd. destruct (entity_id d) as [known|] eqn:He; [by eapply draw_entity_drew|].
  unfold drew. rewrite !given_cons. destruct d; try done; cbn in Hd; injection Hd as <- <-.
  - exists 1. cbn. rewrite i64_add_exact, ?app_nil_r by done. repeat split; try done; try lia.
    + by constructor; [|constructor].
    + intros. by left.
  - exists 0. cbn. rewrite i64_add_exact, ?app_nil_r by done. repeat split; try done; try lia.
    + by constructor; [|constructor].
    + intros. by left.
Qed.

Lemma known_kept {st n st'} known id :
  (known (CommitState.catalog st') = known (CommitState.catalog st) \/
   (known (CommitState.catalog st) = Ok None /\
    exists id, known (CommitState.catalog st') = Ok (Some id) /\ among st n id)) ->
  known (CommitState.catalog st) = Ok (E := DucklakeError) (Some id) ->
  known (CommitState.catalog st') = Ok (Some id).
Proof. intros [->|[-> _]]; [done|discriminate]. Qed.

Lemma drew_trans d ds st id ids st1 st' :
  drew st [d] [id] st1 -> drew st1 ds ids st' -> drew st (d :: ds) (id :: ids) st'.
Proof.
  intros (n1 & Hn1 & Hc1 & Hp1 & Hg1 & Hf1 & Hall1 & Hk1) (n2 & Hn2 & Hc2 & Hp2 & Hg2 & Hf2 & Hall2 & Hk2).
  rewrite Hc1 in *. rewrite Hf1 in *.
  assert (forall kind, given kind (d :: ds) (id :: ids) = given kind [d] [id] ++ given kind ds ids) as Hgiven.
  { intros kind. rewrite !given_cons. cbn. by rewrite app_nil_r. }
  assert (forall i, among st n1 i \/ among st1 n2 i -> among st (n1 + n2) i) as Hamong.
  { unfold among. rewrite Hc1. lia. }
  exists (n1 + n2). rewrite !Hgiven, seqZ_app_nat, length_app, seqZ_app_nat, <-Hg1, <-Hg2.
  split; [cbn in *; lia|]. split; [lia|]. split.
  { rewrite (Permutation_app_comm (given _ [d] _)), app_assoc, Hp2, <-app_assoc.
    rewrite (Permutation_app_comm (seqZ _ _)), app_assoc, Hp1, <-app_assoc. done. }
  split; [done|]. split; [lia|]. split.
  - apply Forall2_cons. split.
    + inversion Hall1 as [|? ? ? ? Hd _]; subst. intros known He. destruct (Hd known He) as [Ho Hfrom].
      split; [by eapply (known_kept known), Ho; apply (Hk2 d)|]. destruct Hfrom as [?|[? ?]]; auto.
    + eapply Forall2_impl; [exact Hall2|]. intros d' id' Hd known He. destruct (Hd known He) as [Ho Hfrom].
      split; [done|]. destruct (Hk1 d' known He) as [Hs|(Hs & i & Hi & Ha)].
      * rewrite Hs in Hfrom. destruct Hfrom as [?|[? ?]]; auto.
      * right. split; [done|]. destruct Hfrom as [Hfrom|[Hfrom ?]]; [|auto].
        rewrite Hi in Hfrom. injection Hfrom as ->. auto.
  - intros d' known He. destruct (Hk1 d' known He) as [Hs|(Hs & i & Hi & Ha)].
    + rewrite <-Hs. destruct (Hk2 d' known He) as [->|(? & i & ? & ?)]; [by left|].
      right. split; [done|]. exists i. auto.
    + right. split; [done|]. exists i. split; [|auto]. by eapply (known_kept known), Hi; apply (Hk2 d').
Qed.

(** One draw after the other *)
Lemma draws_drew ds : forall st ids st',
  in_i64 (CommitState.next_catalog_id st + Z.of_nat (length ds)) ->
  in_i64 (CommitState.next_file_id st + Z.of_nat (length ds)) ->
  (0 <= CommitState.next_catalog_id st)%Z -> (0 <= CommitState.next_file_id st)%Z ->
  st_map draw ds st = (Ok ids, st') -> drew st ds ids st'.
Proof.
  induction ds as [|d ds IH]; intros st ids st' Hc Hf Hc0 Hf0.
  - cbn. intros [= <- <-]. exists 0. cbn. rewrite !app_nil_r. repeat split; try done; try lia. intros; by left.
  - cbn [length] in Hc, Hf. unfold in_i64, i64_min, i64_max in Hc, Hf.
    cbn [st_map]. intros (id & st1 & H1 & (ids' & st2 & H2 & H3)%bind_Ok)%bind_Ok.
    cbn in H3. injection H3 as <- <-.
    apply draw_one in H1; [|unfold in_i64, i64_min, i64_max; lia..].
    pose proof H1 as (n1 & Hn1 & Hc1 & _ & _ & Hf1 & _). rewrite given_cons, length_app in Hf1.
    eapply drew_trans; [exact H1|]. apply IH in H2; [done|..]; unfold in_i64, i64_min, i64_max; try lia.
    all: cbn in Hn1, Hf1; destruct (of_file d); cbn in Hf1; lia.
Qed.

(** C15: the IDs of a commit. A commit draws IDs from its first state, on a catalog
    whose IDs are distinct and below the sequence of the base snapshot. Whatever the
    sequence of draws, the IDs handed out to entities without one and to sort orders
    are the next ones of the base snapshot's catalog sequence, without gap and each
    once, those of files the next ones of its file sequence, in order; the new
    snapshot's sequences start after them. All IDs stay distinct. An entity gets the
    ID it had, or a fresh one, and asked again - after all other draws - has the same. *)
Theorem ids_are_fresh_and_stable (latest : SnapshotInfo) (catalog : Catalog) (changed : bool)
    (stats : option (gmap Z TableStats)) (ds : list Draw) (ids : list Z) (st' : CommitState)
    (Hdistinct : NoDup (catalog_ids catalog))
    (Hbelow : Forall (fun id => id < SnapshotInfo.next_catalog_id latest)%Z (catalog_ids catalog))
    (Hpositive : (0 <= SnapshotInfo.next_catalog_id latest /\ 0 <= SnapshotInfo.next_file_id latest)%Z)
    (Hroom : in_i64 (SnapshotInfo.next_catalog_id latest + Z.of_nat (length ds)) /\
             in_i64 (SnapshotInfo.next_file_id latest + Z.of_nat (length ds)))
    (Hrun : st_map draw ds (CommitState.new latest catalog changed stats) = (Ok ids, st')) :
  exists n : nat,
    CommitState.next_catalog_id st' = (SnapshotInfo.next_catalog_id latest + Z.of_nat n)%Z /\
    catalog_ids (CommitState.catalog st') ++ given of_sort_order ds ids
      ≡ₚ catalog_ids catalog ++ seqZ (SnapshotInfo.next_catalog_id latest) (Z.of_nat n) /\
    NoDup (catalog_ids (CommitState.catalog st') ++ given of_sort_order ds ids) /\
    given of_file ds ids =
      seqZ (SnapshotInfo.next_file_id latest) (Z.of_nat (length (given of_file ds ids))) /\
    CommitState.next_file_id st' =
      (SnapshotInfo.next_file_id latest + Z.of_nat (length (given of_file ds ids)))%Z /\
    forall k d id known, ds !! k = Some d -> ids !! k = Some id -> entity_id d = Some known ->
      draw d st' = (Ok id, st') /\
      (known catalog = Ok (Some id) \/
       (known catalog = Ok None /\ id ∈ seqZ (SnapshotInfo.next_catalog_id latest) (Z.of_nat n))).
Proof.
  apply draws_drew in Hrun as (n & _ & Hn & Hp & Hg & Hf & Hall & _); [|tauto..].
  cbn in Hn, Hp, Hg, Hf. exists n. do 2 (split; [done|]). split.
  { rewrite Hp. apply NoDup_app. split; [done|]. split; [|apply NoDup_seqZ].
    intros id Hid. rewrite elem_of_seqZ. rewrite Forall_forall in Hbelow. specialize (Hbelow _ Hid). lia. }
  do 2 (split; [done|]). intros k d id known Hd Hid He.
  destruct (Forall2_lookup_lr _ _ _ _ _ _ Hall Hd Hid known He) as [Hk Hfrom]. split.
  - destruct (draw_entity d known _ He eq_refl) as (resolve & _ & ->).
    unfold CommitState.known_or_fresh, mbind, stateful_bind, st_get, st_lift. by rewrite Hk.
  - destruct Hfrom as [?|[? Ha]]; [by left|right]. split; [done|]. by rewrite elem_of_seqZ.
Qed.
End Ids.

(** A catalog with two schemas that have no ID yet *)
Definition demo_pending : @Catalog.t demo_external :=
  (Catalog.add_schema "hr" (DucklakePath.Relative "hr/")
     (Catalog.add_schema "sales" (DucklakePath.Relative "sales/") Catalog.empty).2).2.
Definition demo_latest : @SnapshotInfo demo_external := @SnapshotInfo.mk demo_external 1 1 7 3 (0 : Z).
Definition demo_draws : list Draw :=
  [DrawSchema (SchemaRef.mk 0); DrawFile; DrawSchema (SchemaRef.mk 1); DrawSortInfo;
   DrawSchema (SchemaRef.mk 0); DrawFile].

(** They get the IDs 7 and 8, the sort order 9; asked again, the first has 7. *)
Lemma ids_are_fresh_and_stable_witness :
  exists st', st_map draw demo_draws (CommitState.new demo_latest demo_pending true None)
    = (Ok [7; 3; 8; 9; 7; 4]%Z, st') /\
  NoDup (catalog_ids (CommitState.catalog st') ++ [9%Z]) /\
  draw (DrawSchema (SchemaRef.mk 0)) st' = (Ok 7%Z, st').
Proof.
  eexists. split; [vm_compute; reflexivity|].
  match goal with |- NoDup (catalog_ids (CommitState.catalog ?s) ++ _) /\ _ =>
    destruct (ids_are_fresh_and_stable (EXT := demo_external) demo_latest demo_pending true None
      demo_draws [7; 3; 8; 9; 7; 4]%Z s) as (n & _ & _ & Hd & _ & _ & Hagain)
  end.
  - vm_compute. constructor.
  - vm_compute. constructor.
  - split; vm_compute; discriminate.
  - split; split; vm_compute; discriminate.
  - vm_compute. reflexivity.
  - split; [exact Hd|].
    exact (proj1 (Hagain 0 (DrawSchema (SchemaRef.mk 0)) 7%Z _ eq_refl eq_refl eq_refl)).
Defined.
