(* ===== verification/Change.v ===== *)
(** * Changes and change sets ([transaction/changes/change.rs], [transaction/typedefs.rs])

    The changes a transaction queues, and the change set a commit starts from:
    at most one change per deduplication key, the last one; entities created
    and deleted in the same transaction leave no trace. The effect of a change
    on the catalog database is in [Executors]. *)

From S2P Require Import Prelude Text Regex Identifier Types Instances Entities CatalogColumns Catalog.

(** ** Data to be written *)

Module CommitDeleteFile.
Record t `{External} : Type := mk {
  path : DucklakePath;
  encryption_key : option string;
  num_deletes : Z;
  file_size_bytes : option Z;
  footer_size_bytes : option Z;
}.
#[global] Arguments mk {_} path encryption_key num_deletes file_size_bytes footer_size_bytes.
End CommitDeleteFile.

Module CommitDataFile.
Record t `{External} : Type := mk {
  path : DucklakePath;
  encryption_key : option string;
  partition_values : option (list (option string));
  num_rows : Z;
  file_size_bytes : option Z;
  footer_size_bytes : option Z;
  column_stats : gmap ColumnRef FileColumnStats.t;
  delete_files : list CommitDeleteFile.t;
  inline_deletes : list Z;
}.
#[global] Arguments mk {_} path encryption_key partition_values num_rows file_size_bytes
  footer_size_bytes column_stats delete_files inline_deletes.
End CommitDataFile.

Module CommitInlineData.
Record t `{External} : Type := mk {
  record_batch : RecordBatch;
  column_stats : gmap ColumnRef ArrayColumnStats.t;
}.
#[global] Arguments mk {_} record_batch column_stats.
End CommitInlineData.

(** ** Changes *)

Module Change.
Inductive t `{External} : Type :=
  | CreateSchema (schema_ref : SchemaRef) (name : string) (path : DucklakePath)
  | DeleteSchema (schema_ref : SchemaRef)
  | CreateTable (schema_ref : SchemaRef) (table_ref : TableRef)
      (column_refs : list (list ColumnRef)) (partition_column_refs : option (list ColumnRef))
      (name : QualifiedName) (columns : list Column) (retired_columns : list DucklakeColumn)
      (partition_columns : option (list PartitionColumn))
      (sort_info : option (list SortExpression)) (path : DucklakePath) (tags : Tags)
  | WriteTableDataFiles (table_ref : TableRef) (data_files : list CommitDataFile.t)
  | WriteTableInlineData (table_ref : TableRef) (data : list CommitInlineData.t)
  | RenameTable (table_ref : TableRef) (name : QualifiedName)
  | UpdateTablePartitioning (table_ref : TableRef)
      (partition_column_refs : option (list ColumnRef))
      (partition_columns : option (list PartitionColumn))
  | UpdateTableSortInfo (table_ref : TableRef) (expressions : option (list SortExpression))
  | DeleteTable (table_ref : TableRef) (detach_files : bool)
  | AddTableTag (table_ref : TableRef) (tag : Tag)
  | RemoveTableTag (table_ref : TableRef) (key : string)
  | CreateView (schema_ref : SchemaRef) (view_ref : ViewRef) (name : QualifiedName)
      (sql dialect : string) (column_aliases : option (list string)) (tags : Tags)
  | DeleteView (view_ref : ViewRef)
  | CreateMacro (schema_ref : SchemaRef) (macro_ref : MacroRef) (name : QualifiedName)
      (macro_type : MacroType) (implementations : list MacroImplementation)
  | DeleteMacro (macro_ref : MacroRef) (macro_type : MacroType)
  | AddTableColumn (parent_column_ref : option ColumnRef) (column_refs : list ColumnRef)
      (column : Column)
  | UpdateTableColumn (parent_column_ref : option ColumnRef) (column_ref : ColumnRef)
      (column : Column)
  | RemoveTableColumn (column_ref : ColumnRef)
  | AddTableColumnTag (column_ref : ColumnRef) (tag : Tag)
  | RemoveTableColumnTag (column_ref : ColumnRef) (key : string).

Section Classify.
Context `{EXT : External}.

Definition changes_schema (c : t) : bool :=
  match c with WriteTableDataFiles _ _ | WriteTableInlineData _ _ => false | _ => true end.

Definition requires_table_stats (c : t) : bool :=
  match c with WriteTableDataFiles _ _ | WriteTableInlineData _ _ => true | _ => false end.

Definition affected_table_ref (c : t) : option TableRef :=
  match c with
  | CreateTable _ r _ _ _ _ _ _ _ _ _ | RenameTable r _ | UpdateTablePartitioning r _ _
  | UpdateTableSortInfo r _ | DeleteTable r _ | AddTableTag r _ | RemoveTableTag r _
  | WriteTableDataFiles r _ | WriteTableInlineData r _ => Some r
  | UpdateTableColumn _ c _ | RemoveTableColumn c | AddTableColumnTag c _
  | RemoveTableColumnTag c _ => Some (ColumnRef.table_ref c)
  | AddTableColumn _ refs _ => ColumnRef.table_ref <$> head refs
  | CreateSchema _ _ _ | DeleteSchema _ | CreateView _ _ _ _ _ _ _ | DeleteView _
  | CreateMacro _ _ _ _ _ | DeleteMacro _ _ => None
  end.

Definition table_ref_with_schema_change (c : t) : option TableRef :=
  match c with
  | CreateTable _ r _ _ _ _ _ _ _ _ _ | RenameTable r _ | UpdateTablePartitioning r _ _ => Some r
  | UpdateTableColumn _ c _ | RemoveTableColumn c => Some (ColumnRef.table_ref c)
  | AddTableColumn _ refs _ => ColumnRef.table_ref <$> head refs
  | CreateSchema _ _ _ | DeleteSchema _ | WriteTableDataFiles _ _ | WriteTableInlineData _ _
  | DeleteTable _ _ | UpdateTableSortInfo _ _ | AddTableColumnTag _ _ | RemoveTableColumnTag _ _
  | AddTableTag _ _ | RemoveTableTag _ _ | CreateView _ _ _ _ _ _ _ | DeleteView _
  | CreateMacro _ _ _ _ _ | DeleteMacro _ _ => None
  end.

(** The entity a change creates, deletes *)
Definition created_table (c : t) : option TableRef :=
  match c with CreateTable _ r _ _ _ _ _ _ _ _ _ => Some r | _ => None end.
Definition deleted_table (c : t) : option TableRef :=
  match c with DeleteTable r _ => Some r | _ => None end.
Definition created_macro (c : t) : option MacroRef :=
  match c with CreateMacro _ r _ _ _ => Some r | _ => None end.
Definition deleted_macro (c : t) : option MacroRef :=
  match c with DeleteMacro r _ => Some r | _ => None end.
Definition created_view (c : t) : option ViewRef :=
  match c with CreateView _ r _ _ _ _ _ => Some r | _ => None end.
Definition deleted_view (c : t) : option ViewRef :=
  match c with DeleteView r => Some r | _ => None end.
Definition created_schema (c : t) : option SchemaRef :=
  match c with CreateSchema r _ _ => Some r | _ => None end.
Definition deleted_schema (c : t) : option SchemaRef :=
  match c with DeleteSchema r => Some r | _ => None end.
End Classify.
End Change.
Abbreviation Change := Change.t.

(** ** Deduplication keys *)

Module HashableChange.
Inductive t `{External} : Type :=
  | CreateSchema (schema_ref : SchemaRef)
  | DeleteSchema (schema_ref : SchemaRef)
  | CreateTable (table_ref : TableRef)
  | RenameTable (table_ref : TableRef)
  | UpdateTablePartitioning (table_ref : TableRef)
  | UpdateTableSortInfo (table_ref : TableRef)
  | DeleteTable (table_ref : TableRef)
  | AddTableTag (table_ref : TableRef) (key : string)
  | RemoveTableTag (table_ref : TableRef) (key : string)
  | CreateView (view_ref : ViewRef)
  | DeleteView (view_ref : ViewRef)
  | CreateMacro (macro_ref : MacroRef)
  | DeleteMacro (macro_ref : MacroRef)
  | AddTableColumn (column_refs : list ColumnRef)
  | UpdateTableColumn (column_ref : ColumnRef)
  | RemoveTableColumn (column_ref : ColumnRef)
  | AddTableColumnTag (column_ref : ColumnRef) (key : string)
  | RemoveTableColumnTag (column_ref : ColumnRef) (key : string)
  | WriteTableDataFiles (table_ref : TableRef) (paths : list DucklakePath)
  | WriteTableInlineData (table_ref : TableRef).

#[export] Instance eq_dec `{External} : EqDecision t.
Proof. solve_decision. Defined.

(** [From<&Change>] *)
Definition from_change `{External} (c : Change) : t :=
  match c with
  | Change.CreateSchema r _ _ => CreateSchema r
  | Change.DeleteSchema r => DeleteSchema r
  | Change.CreateTable _ r _ _ _ _ _ _ _ _ _ => CreateTable r
  | Change.RenameTable r _ => RenameTable r
  | Change.UpdateTablePartitioning r _ _ => UpdateTablePartitioning r
  | Change.UpdateTableSortInfo r _ => UpdateTableSortInfo r
  | Change.DeleteTable r _ => DeleteTable r
  | Change.AddTableTag r tag => AddTableTag r (Tag.key tag)
  | Change.RemoveTableTag r key => RemoveTableTag r key
  | Change.CreateView _ r _ _ _ _ _ => CreateView r
  | Change.DeleteView r => DeleteView r
  | Change.CreateMacro _ r _ _ _ => CreateMacro r
  | Change.DeleteMacro r _ => DeleteMacro r
  | Change.AddTableColumn _ refs _ => AddTableColumn refs
  | Change.UpdateTableColumn _ r _ => UpdateTableColumn r
  | Change.RemoveTableColumn r => RemoveTableColumn r
  | Change.AddTableColumnTag r tag => AddTableColumnTag r (Tag.key tag)
  | Change.RemoveTableColumnTag r key => RemoveTableColumnTag r key
  | Change.WriteTableDataFiles r files => WriteTableDataFiles r (CommitDataFile.path <$> files)
  | Change.WriteTableInlineData r _ => WriteTableInlineData r
  end.
End HashableChange.
#[export] Existing Instance HashableChange.eq_dec.
Abbreviation HashableChange := HashableChange.t.

(** ** Change sets *)

Module ChangeSet.
Section ChangeSet.
Context `{EXT : External} `{ITER : !Itertools}.

(** Reverse, keep the first of each key, reverse back. *)
Definition dedup (changes : list Change) : list Change :=
  reverse (unique_by HashableChange.from_change (reverse changes)).

Definition retain_tables (changes : list Change) : list Change :=
  let created : gset TableRef := list_to_set (omap Change.created_table changes) in
  let deleted : gset TableRef := list_to_set (omap Change.deleted_table changes) in
  List.filter (fun c =>
    match c with
    | Change.DeleteTable r _ => negb (bool_decide (r ∈ created))
    | c => match Change.affected_table_ref c with
           | Some r => negb (bool_decide (r ∈ deleted))
           | None => true
           end
    end) changes.

Definition retain_macros (changes : list Change) : list Change :=
  let created : gset MacroRef := list_to_set (omap Change.created_macro changes) in
  let deleted : gset MacroRef := list_to_set (omap Change.deleted_macro changes) in
  List.filter (fun c =>
    match c with
    | Change.DeleteMacro r _ => negb (bool_decide (r ∈ created))
    | Change.CreateMacro _ r _ _ _ => negb (bool_decide (r ∈ deleted))
    | _ => true
    end) changes.

Definition retain_views (changes : list Change) : list Change :=
  let created : gset ViewRef := list_to_set (omap Change.created_view changes) in
  let deleted : gset ViewRef := list_to_set (omap Change.deleted_view changes) in
  List.filter (fun c =>
    match c with
    | Change.DeleteView r => negb (bool_decide (r ∈ created))
    | Change.CreateView _ r _ _ _ _ _ => negb (bool_decide (r ∈ deleted))
    | _ => true
    end) changes.

Definition retain_schemas (changes : list Change) : list Change :=
  let created : gset SchemaRef := list_to_set (omap Change.created_schema changes) in
  let deleted : gset SchemaRef := list_to_set (omap Change.deleted_schema changes) in
  List.filter (fun c =>
    match c with
    | Change.DeleteSchema r => negb (bool_decide (r ∈ created))
    | Change.CreateSchema r _ _ => negb (bool_decide (r ∈ deleted))
    | _ => true
    end) changes.

(** [ChangeSet::new] *)
Definition new (changes : list Change) : list Change :=
  retain_schemas (retain_views (retain_macros (retain_tables (dedup changes)))).

Definition is_empty (changes : list Change) : bool :=
  match changes with [] => true | _ => false end.

Definition contains_inline_data_writes_and_no_file_writes (changes : list Change) : bool :=
  existsb (fun c => match c with Change.WriteTableInlineData _ _ => true | _ => false end) changes
  && negb (existsb
       (fun c => match c with Change.WriteTableDataFiles _ _ => true | _ => false end) changes).

Definition changes_schema (changes : list Change) : bool :=
  existsb Change.changes_schema changes.

Definition table_refs_with_schema_changes (changes : list Change) : list TableRef :=
  unique (omap Change.table_ref_with_schema_change changes).

Definition requires_table_stats (changes : list Change) : bool :=
  existsb Change.requires_table_stats changes.
End ChangeSet.
End ChangeSet.

(** ** What a change set keeps *)

Inductive kind : Type := KTable | KMacro | KView | KSchema.
#[export] Instance kind_eq_dec : EqDecision kind.
Proof. solve_decision. Defined.

Section ChangeSetFacts.
Context `{EXT : External} `{ITER : !Itertools}.
Implicit Types (c : Change) (l : list Change).
Local Abbreviation key := HashableChange.from_change.

(** A change that a creation or a deletion elsewhere in the transaction makes
    irrelevant. *)
Definition cancelled l c : Prop :=
  match c with
  | Change.DeleteTable r _ => r ∈ omap Change.created_table l
  | Change.DeleteMacro r _ => r ∈ omap Change.created_macro l
  | Change.CreateMacro _ r _ _ _ => r ∈ omap Change.deleted_macro l
  | Change.DeleteView r => r ∈ omap Change.created_view l
  | Change.CreateView _ r _ _ _ _ _ => r ∈ omap Change.deleted_view l
  | Change.DeleteSchema r => r ∈ omap Change.created_schema l
  | Change.CreateSchema r _ _ => r ∈ omap Change.deleted_schema l
  | c => match Change.affected_table_ref c with
         | Some r => r ∈ omap Change.deleted_table l
         | None => False
         end
  end.

#[export] Instance cancelled_dec l c : Decision (cancelled l c).
Proof. unfold cancelled. repeat case_match; apply _. Defined.

(** The last change with its key. *)
Definition last_of_key l c : Prop := exists l1 l2, l = l1 ++ c :: l2 /\ key c ∉ key <$> l2.

Lemma dedup_sublist l : ChangeSet.dedup l `sublist_of` l.
Proof.
  unfold ChangeSet.dedup. rewrite <-(reverse_involutive l) at 2.
  apply sublist_reverse, unique_by_sublist.
Qed.

Lemma dedup_NoDup l : NoDup (key <$> ChangeSet.dedup l).
Proof.
  unfold ChangeSet.dedup. rewrite fmap_reverse. apply NoDup_reverse, unique_by_NoDup.
Qed.

Lemma elem_of_dedup l c : c ∈ ChangeSet.dedup l <-> last_of_key l c.
Proof.
  unfold ChangeSet.dedup, last_of_key. rewrite elem_of_reverse, elem_of_unique_by.
  split; intros (l1 & l2 & Hl & Hk).
  - exists (reverse l2), (reverse l1). split.
    + by rewrite <-(reverse_involutive l), Hl, reverse_app, reverse_cons, <-app_assoc.
    + by rewrite fmap_reverse, elem_of_reverse.
  - exists (reverse l2), (reverse l1). split.
    + by rewrite Hl, reverse_app, reverse_cons, <-app_assoc.
    + by rewrite fmap_reverse, elem_of_reverse.
Qed.

Lemma dedup_keys l k : k ∈ key <$> ChangeSet.dedup l <-> k ∈ key <$> l.
Proof.
  unfold ChangeSet.dedup.
  by rewrite fmap_reverse, elem_of_reverse, unique_by_keys, fmap_reverse, elem_of_reverse.
Qed.

Lemma dedup_id l : NoDup (key <$> l) -> ChangeSet.dedup l = l.
Proof.
  intros HN. unfold ChangeSet.dedup. rewrite unique_by_id, reverse_involutive; [done|].
  by rewrite fmap_reverse, NoDup_reverse.
Qed.

(** Entities that the key of a change determines survive deduplication. *)
Lemma omap_dedup {R} (f : Change -> option R) (K : R -> HashableChange) l r :
  (forall c, f c = Some r <-> key c = K r) ->
  r ∈ omap f (ChangeSet.dedup l) <-> r ∈ omap f l.
Proof.
  intros Hf. rewrite !list_elem_of_omap.
  assert (forall l, (exists c, c ∈ l /\ f c = Some r) <-> K r ∈ key <$> l) as Hl.
  { intros l'. rewrite list_elem_of_fmap. split; intros (c & H1 & H2); exists c.
    - by rewrite Hf in H2.
    - by rewrite Hf. }
  rewrite !Hl. apply dedup_keys.
Qed.

Lemma cancelled_dedup l c : cancelled (ChangeSet.dedup l) c <-> cancelled l c.
Proof.
  destruct c; cbn; try apply (omap_dedup Change.created_table HashableChange.CreateTable);
    try apply (omap_dedup Change.deleted_table HashableChange.DeleteTable);
    try apply (omap_dedup Change.created_macro HashableChange.CreateMacro);
    try apply (omap_dedup Change.deleted_macro HashableChange.DeleteMacro);
    try apply (omap_dedup Change.created_view HashableChange.CreateView);
    try apply (omap_dedup Change.deleted_view HashableChange.DeleteView);
    try apply (omap_dedup Change.created_schema HashableChange.CreateSchema);
    try apply (omap_dedup Change.deleted_schema HashableChange.DeleteSchema);
    try (intros []; cbn; naive_solver).
  destruct (head column_refs); cbn; [|done].
  apply (omap_dedup Change.deleted_table HashableChange.DeleteTable).
  intros []; cbn; naive_solver.
Qed.

Definition keeps l c : bool := negb (bool_decide (cancelled l c)).

(** The four passes of [ChangeSet::new], each on its own kind of entity. *)
Definition kind_of c : kind :=
  match c with
  | Change.CreateSchema _ _ _ | Change.DeleteSchema _ => KSchema
  | Change.CreateView _ _ _ _ _ _ _ | Change.DeleteView _ => KView
  | Change.CreateMacro _ _ _ _ _ | Change.DeleteMacro _ _ => KMacro
  | _ => KTable
  end.
Definition pass (k : kind) l : list Change :=
  List.filter (fun c => negb (bool_decide (kind_of c = k /\ cancelled l c))) l.

Lemma retain_tables_pass l : ChangeSet.retain_tables l = pass KTable l.
Proof.
  apply filter_bool_ext. intros c _.
  destruct c; cbn; f_equal; try (apply bool_decide_ext; rewrite ?elem_of_list_to_set; naive_solver).
  all: try (symmetry; apply bool_decide_eq_false_2; naive_solver).
  destruct (head column_refs); cbn;
    [f_equal; apply bool_decide_ext; rewrite ?elem_of_list_to_set; naive_solver|].
  symmetry. apply negb_true_iff, bool_decide_eq_false_2. naive_solver.
Qed.

Lemma retain_macros_pass l : ChangeSet.retain_macros l = pass KMacro l.
Proof.
  apply filter_bool_ext. intros c _.
  destruct c; cbn; try (symmetry; apply negb_true_iff, bool_decide_eq_false_2; naive_solver).
  all: f_equal; apply bool_decide_ext; rewrite ?elem_of_list_to_set; naive_solver.
Qed.

Lemma retain_views_pass l : ChangeSet.retain_views l = pass KView l.
Proof.
  apply filter_bool_ext. intros c _.
  destruct c; cbn; try (symmetry; apply negb_true_iff, bool_decide_eq_false_2; naive_solver).
  all: f_equal; apply bool_decide_ext; rewrite ?elem_of_list_to_set; naive_solver.
Qed.

Lemma retain_schemas_pass l : ChangeSet.retain_schemas l = pass KSchema l.
Proof.
  apply filter_bool_ext. intros c _.
  destruct c; cbn; try (symmetry; apply negb_true_iff, bool_decide_eq_false_2; naive_solver).
  all: f_equal; apply bool_decide_ext; rewrite ?elem_of_list_to_set; naive_solver.
Qed.

Lemma cancelled_pass k l c : kind_of c <> k -> cancelled (pass k l) c <-> cancelled l c.
Proof.
  intros Hk. unfold pass, cancelled.
  destruct c; cbn in *; try (case_match; [|done]);
    (rewrite omap_filter_bool; [done|]; intros x y Hx;
     apply negb_true_iff, bool_decide_eq_false_2; destruct x; naive_solver).
Qed.

(** Each pass sees the cancellations of the whole transaction. *)
Lemma elem_of_pass k l c : c ∈ pass k l <-> c ∈ l /\ ~ (kind_of c = k /\ cancelled l c).
Proof.
  unfold pass. rewrite elem_of_filter_bool, negb_true_iff, bool_decide_eq_false. done.
Qed.

Lemma new_passes l :
  ChangeSet.new l = pass KSchema (pass KView (pass KMacro (pass KTable (ChangeSet.dedup l)))).
Proof.
  unfold ChangeSet.new.
  by rewrite retain_schemas_pass, retain_views_pass, retain_macros_pass, retain_tables_pass.
Qed.

Lemma elem_of_new l c : c ∈ ChangeSet.new l <-> last_of_key l c /\ ~ cancelled l c.
Proof.
  rewrite new_passes, <-elem_of_dedup, <-(cancelled_dedup l).
  generalize (ChangeSet.dedup l) as l0. intros l0. rewrite !elem_of_pass.
  destruct (kind_of c) eqn:Hk;
    try rewrite (cancelled_pass KView) by congruence;
    try rewrite (cancelled_pass KMacro) by congruence;
    try rewrite (cancelled_pass KTable) by congruence; naive_solver.
Qed.

Lemma pass_sublist k l : pass k l `sublist_of` l.
Proof. apply filter_bool_sublist. Qed.

Lemma new_sublist_dedup l : ChangeSet.new l `sublist_of` ChangeSet.dedup l.
Proof.
  rewrite new_passes. do 3 (etrans; [apply pass_sublist|]). apply pass_sublist.
Qed.

Lemma new_sublist l : ChangeSet.new l `sublist_of` l.
Proof. etrans; [apply new_sublist_dedup|apply dedup_sublist]. Qed.

Lemma new_NoDup l : NoDup (key <$> ChangeSet.new l).
Proof. eapply NoDup_fmap_sublist; [apply new_sublist_dedup|apply dedup_NoDup]. Qed.

Lemma cancelled_mono l1 l2 c : (forall c, c ∈ l1 -> c ∈ l2) -> cancelled l1 c -> cancelled l2 c.
Proof.
  intros Hsub. unfold cancelled.
  destruct c; cbn; try (case_match; [|done]); rewrite !list_elem_of_omap; naive_solver.
Qed.

Lemma pass_id k l : (forall c, c ∈ l -> ~ cancelled l c) -> pass k l = l.
Proof.
  intros Hc. apply filter_bool_all. intros c Hin.
  apply negb_true_iff, bool_decide_eq_false_2. intros [_ ?]. by apply (Hc c).
Qed.
End ChangeSetFacts.

(** ** Properties *)

Section ChangeSetProperties.
Context `{EXT : External} `{ITER : !Itertools}.

(** C11: a change set contains exactly the changes that are the last with
    their deduplication key and that no creation or deletion of the same
    transaction cancels; for instance the changes to a deleted table and the
    deletion of a table the transaction created are gone. *)
Theorem change_set_membership (l : list Change) (c : Change) :
  c ∈ ChangeSet.new l <->
  (exists l1 l2, l = l1 ++ c :: l2 /\
     HashableChange.from_change c ∉ HashableChange.from_change <$> l2) /\
  ~ cancelled l c.
Proof. apply elem_of_new. Qed.

(** A change set keeps the order in which the changes were queued and
    has at most one change for each deduplication key. *)
Theorem change_set_order (l : list Change) :
  ChangeSet.new l `sublist_of` l /\
  NoDup (HashableChange.from_change <$> ChangeSet.new l).
Proof. split; [apply new_sublist|apply new_NoDup]. Qed.

(** Building a change set from a change set changes nothing, so what is
    committed does not depend on how often the deduplication runs. *)
Theorem change_set_idempotent (l : list Change) :
  ChangeSet.new (ChangeSet.new l) = ChangeSet.new l.
Proof.
  rewrite (new_passes (ChangeSet.new l)), dedup_id by apply new_NoDup.
  assert (forall c, c ∈ ChangeSet.new l -> ~ cancelled (ChangeSet.new l) c) as Hc.
  { intros c [_ Hc]%elem_of_new Hc'. apply Hc. eapply cancelled_mono; [|done].
    intros c'. apply sublist_subseteq, new_sublist. }
  by rewrite (pass_id KTable), (pass_id KMacro), (pass_id KView), (pass_id KSchema).
Qed.

(** A second inlined write to a table replaces the first one, whatever is
    queued between and before them: the rows of the first are not committed. *)
Theorem inline_write_replaced (l1 l2 l3 : list Change) (r : TableRef)
    (first second : list CommitInlineData.t) :
  first <> second ->
  Change.WriteTableInlineData r first ∉ l1 ++ l2 ++ l3 ->
  Change.WriteTableInlineData r first ∉
    ChangeSet.new (l1 ++ Change.WriteTableInlineData r first ::
                   l2 ++ Change.WriteTableInlineData r second :: l3).
Proof.
  intros Hne Hnot [(m1 & m2 & Hl & Hk) _]%elem_of_new.
  assert (m1 = l1 /\ m2 = l2 ++ Change.WriteTableInlineData r second :: l3) as [-> ->].
  { revert m1 Hl. clear Hk. induction l1 as [|c l1 IH]; intros m1 Hl.
    - destruct m1 as [|c m1]; [by injection Hl as <-|]. injection Hl as <- Hl.
      exfalso. assert (Change.WriteTableInlineData r first ∈
        l2 ++ Change.WriteTableInlineData r second :: l3) as Hin.
      { rewrite Hl. apply elem_of_app. right. left. }
      cbn in Hnot. rewrite elem_of_app in Hnot.
      rewrite elem_of_app, elem_of_cons in Hin.
      destruct Hin as [?|[[= ?]|?]]; [by apply Hnot; left|done|by apply Hnot; right].
    - destruct m1 as [|c' m1]; injection Hl as -> Hl.
      + exfalso. apply Hnot. left.
      + destruct (IH ltac:(intros ?; apply Hnot; by right) _ Hl) as [-> ->]. done. }
  apply Hk. rewrite fmap_app, fmap_cons. apply elem_of_app. right. left.
Qed.
End ChangeSetProperties.

(** ** Witnesses *)

Lemma inline_write_replaced_witness :
  Change.WriteTableInlineData (TableRef.mk 0) [@CommitInlineData.mk demo_external 3 ∅] ∉
    ChangeSet.new [Change.WriteTableInlineData (TableRef.mk 0) [@CommitInlineData.mk demo_external 3 ∅];
                   Change.WriteTableInlineData (TableRef.mk 0) [@CommitInlineData.mk demo_external 4 ∅]].
Proof.
  apply (inline_write_replaced [] [] [] (TableRef.mk 0)
    [@CommitInlineData.mk demo_external 3 ∅] [@CommitInlineData.mk demo_external 4 ∅]); [done|set_solver].
Defined.
