(* ===== verification/AppliedChange.v ===== *)
(** * Applied changes ([transaction/changes/applied_change.rs])

    The record of what a snapshot did, as it is stored in
    [ducklake_snapshot_changes]: its text, its parser, and the logical conflicts
    between the changes of two transactions. *)

From S2P Require Import Prelude Text Regex Identifier Types Instances Entities CatalogColumns Catalog.

Module AppliedChange.
Inductive t : Type :=
  | CreatedSchema (name : string)
  | CreatedTable (name : QualifiedName)
  | CreatedView (name : QualifiedName)
  | CreatedScalarMacro (name : string)
  | CreatedTableMacro (name : string)
  | InsertedIntoTable (id : Z)
  | DeletedFromTable (id : Z)
  | CompactedTable (id : Z)
  | InlinedInsert (id : Z)
  | InlinedDelete (id : Z)
  | InlineFlush (id : Z)
  | MergeAdjacent (id : Z)
  | RewriteDelete (id : Z)
  | DroppedSchema (id : Z)
  | DroppedTable (id : Z)
  | DroppedView (id : Z)
  | DroppedScalarMacro (id : Z)
  | DroppedTableMacro (id : Z)
  | AlteredTable (id : Z)
  | AlteredView (id : Z).

#[export] Instance eq_dec : EqDecision t.
Proof. solve_decision. Defined.

Definition action (self : t) : string :=
  match self with
  | CreatedSchema _ | CreatedTable _ | CreatedView _ | CreatedScalarMacro _
  | CreatedTableMacro _ => "created"
  | DroppedSchema _ | DroppedTable _ | DroppedView _ | DroppedScalarMacro _
  | DroppedTableMacro _ => "dropped"
  | AlteredTable _ | AlteredView _ => "altered"
  | CompactedTable _ => "compacted"
  | InsertedIntoTable _ | InlinedInsert _ => "inserted into"
  | DeletedFromTable _ | InlinedDelete _ => "deleted from"
  | InlineFlush _ => "flushed inlined changes for"
  | MergeAdjacent _ => "merged adjacent changes for"
  | RewriteDelete _ => "rewrote delete file for"
  end.

(** [Display for SchemaName] *)
Definition schema_name_to_string (name : string) : string := format_identifier [name].

(** [Display] *)
Definition to_string (self : t) : string :=
  match self with
  | CreatedSchema name => "created_schema:" +:+ schema_name_to_string name
  | CreatedTable name => "created_table:" +:+ QualifiedName.to_string name
  | CreatedView name => "created_view:" +:+ QualifiedName.to_string name
  | CreatedScalarMacro name => "created_scalar_macro:" +:+ name
  | CreatedTableMacro name => "created_table_macro:" +:+ name
  | InsertedIntoTable id => "inserted_into_table:" +:+ i64_to_string id
  | DeletedFromTable id => "deleted_from_table:" +:+ i64_to_string id
  | InlinedInsert id => "inlined_insert:" +:+ i64_to_string id
  | InlinedDelete id => "inlined_delete:" +:+ i64_to_string id
  | InlineFlush id => "inline_flush:" +:+ i64_to_string id
  | MergeAdjacent id => "merge_adjacent:" +:+ i64_to_string id
  | RewriteDelete id => "rewrite_delete:" +:+ i64_to_string id
  | CompactedTable id => "compacted_table:" +:+ i64_to_string id
  | DroppedSchema id => "dropped_schema:" +:+ i64_to_string id
  | DroppedTable id => "dropped_table:" +:+ i64_to_string id
  | DroppedView id => "dropped_view:" +:+ i64_to_string id
  | DroppedScalarMacro id => "dropped_scalar_macro:" +:+ i64_to_string id
  | DroppedTableMacro id => "dropped_table_macro:" +:+ i64_to_string id
  | AlteredTable id => "altered_table:" +:+ i64_to_string id
  | AlteredView id => "altered_view:" +:+ i64_to_string id
  end.

Section AppliedChange.
Context `{EXT : External} `{ENG : !RegexEngine}.

Definition schema_name_from_str (s : string) : result string :=
  match parse_identifier s with
  | Some [name] => Ok name
  | _ => Err (InvalidSchemaName s "expected format 'schema'")
  end.

(** The text of the [ParseIntError] is not kept. *)
Definition parse_id (s : string) : result Z :=
  ok_or (Parsing ("invalid entity ID '" +:+ s +:+ "'")) (i64_from_str s).

(** The changes whose parameter is an entity ID, by their names *)
Definition id_changes : list (string * (Z -> t)) :=
  [("inserted_into_table", InsertedIntoTable); ("deleted_from_table", DeletedFromTable);
   ("inlined_insert", InlinedInsert); ("inlined_delete", InlinedDelete);
   ("inline_flush", InlineFlush); ("flushed_inlined", InlineFlush);
   ("merge_adjacent", MergeAdjacent); ("rewrite_delete", RewriteDelete);
   ("compacted_table", CompactedTable); ("dropped_schema", DroppedSchema);
   ("dropped_table", DroppedTable); ("dropped_view", DroppedView);
   ("dropped_scalar_macro", DroppedScalarMacro); ("dropped_table_macro", DroppedTableMacro);
   ("altered_table", AlteredTable); ("altered_view", AlteredView)].

(** [FromStr] *)
Definition from_str (s : string) : result t :=
  let '(applied_change, param) := splitn2 ":" s in
  param ← ok_or (Parsing "invalid change type format (missing ':')") param;
  if decide (applied_change = "created_schema") then
    name ← schema_name_from_str param; mret (CreatedSchema name)
  else if decide (applied_change = "created_table") then
    name ← QualifiedName_from_str param; mret (CreatedTable name)
  else if decide (applied_change = "created_view") then
    name ← QualifiedName_from_str param; mret (CreatedView name)
  else if decide (applied_change = "created_scalar_macro") then mret (CreatedScalarMacro param)
  else if decide (applied_change = "created_table_macro") then mret (CreatedTableMacro param)
  else match IndexMap.get applied_change id_changes with
       | Some change => id ← parse_id param; mret (change id)
       | None => Err (Parsing ("unknown change type '" +:+ applied_change +:+ "'"))
       end.

(** [Err(TransactionConflict(message))] when the guard of the arm holds *)
Definition conflict_if (b : bool) (message : string) : result unit :=
  if b then Err (TransactionConflict message) else Ok tt.

(** A schema dropped by one transaction while the other creates [name] in it *)
Definition check_dropped_schema (catalog : Catalog) (schema_id : Z) (schema what name : string)
    : result unit :=
  r ← Catalog.schema_by_id catalog schema_id;
  schema_name ← Catalog.schema_name catalog r;
  conflict_if (bool_decide (schema_name = schema))
    ("attempting to drop schema with ID " +:+ i64_to_string schema_id +:+ " but " +:+ what +:+ " "
     +:+ name +:+ " was created in it").

Definition check_dropped_schema_macro (catalog : Catalog) (schema_id : Z) (name : string)
    : result unit :=
  Catalog.schema_by_id catalog schema_id ;;
  macro_name ← QualifiedName_from_str name;
  check_dropped_schema catalog schema_id (QualifiedName.schema macro_name) "macro"
    (QualifiedName.to_string macro_name).

Definition check_conflict (self other : t) (catalog : Catalog) : result unit :=
  let id_conflict (verb what : string) (lhs rhs : Z) (but : string) :=
    conflict_if (Z.eqb lhs rhs)
      ("attempting to " +:+ verb +:+ " " +:+ what +:+ " with ID " +:+ i64_to_string lhs
       +:+ " but " +:+ but +:+ " " +:+ action other) in
  match self, other with
  (* --- Schemas --- *)
  | CreatedSchema lhs, CreatedSchema rhs =>
      conflict_if (bool_decide (lhs = rhs))
        ("attempting to create schema " +:+ schema_name_to_string lhs +:+ " but it was already "
         +:+ action other)
  | DroppedSchema lhs, DroppedSchema rhs => id_conflict "drop" "schema" lhs rhs "it was already"
  | DroppedSchema id, CreatedTable name | CreatedTable name, DroppedSchema id =>
      check_dropped_schema catalog id (QualifiedName.schema name) "table"
        (QualifiedName.to_string name)
  | DroppedSchema id, CreatedView name | CreatedView name, DroppedSchema id =>
      check_dropped_schema catalog id (QualifiedName.schema name) "view"
        (QualifiedName.to_string name)
  | DroppedSchema id, (CreatedScalarMacro name | CreatedTableMacro name)
  | (CreatedScalarMacro name | CreatedTableMacro name), DroppedSchema id =>
      check_dropped_schema_macro catalog id name
  (* --- Tables --- *)
  | CreatedTable lhs, CreatedTable rhs =>
      conflict_if (bool_decide (lhs = rhs))
        ("attempting to create table " +:+ QualifiedName.to_string lhs
         +:+ " but it was already " +:+ action other)
  | DroppedTable lhs, DroppedTable rhs => id_conflict "drop" "table" lhs rhs "it was already"
  | AlteredTable lhs, (AlteredTable rhs | DroppedTable rhs) =>
      id_conflict "alter" "table" lhs rhs "it was"
  (* --- Views --- *)
  | CreatedView lhs, CreatedView rhs =>
      conflict_if (bool_decide (lhs = rhs))
        ("attempting to create view " +:+ QualifiedName.to_string lhs
         +:+ " but it was already " +:+ action other)
  | DroppedView lhs, DroppedView rhs => id_conflict "drop" "view" lhs rhs "it was already"
  | AlteredView lhs, (AlteredView rhs | DroppedView rhs) =>
      id_conflict "alter" "view" lhs rhs "it was"
  (* --- Macros --- *)
  | CreatedScalarMacro lhs, CreatedScalarMacro rhs
  | CreatedTableMacro lhs, CreatedTableMacro rhs =>
      conflict_if (eq_ignore_ascii_case lhs rhs)
        ("attempting to create macro " +:+ lhs +:+ " but it was already " +:+ action other)
  | (DroppedScalarMacro lhs | DroppedTableMacro lhs),
    (DroppedScalarMacro rhs | DroppedTableMacro rhs) =>
      id_conflict "drop" "macro" lhs rhs "it was already"
  (* --- Tables / Views --- *)
  | CreatedTable lhs, CreatedView rhs | CreatedView lhs, CreatedTable rhs =>
      conflict_if (bool_decide (lhs = rhs))
        ("attempting to create relation " +:+ QualifiedName.to_string lhs
         +:+ " but it was already " +:+ action other)
  (* --- Data --- *)
  | (InsertedIntoTable lhs | InlinedInsert lhs), (DroppedTable rhs | AlteredTable rhs) =>
      id_conflict "insert into" "table" lhs rhs "the table was"
  | (DeletedFromTable lhs | InlinedDelete lhs),
    (DroppedTable rhs | AlteredTable rhs | DeletedFromTable rhs | CompactedTable rhs) =>
      id_conflict "delete from" "table" lhs rhs "the table was"
  (* --- Compaction --- *)
  | CompactedTable lhs, (DroppedTable rhs | DeletedFromTable rhs | InlinedDelete rhs) =>
      id_conflict "compact" "table" lhs rhs "it was"
  | _, _ => Ok tt
  end.
End AppliedChange.
End AppliedChange.
#[export] Existing Instance AppliedChange.eq_dec.
Abbreviation AppliedChange := AppliedChange.t.

(** ** Sets of applied changes: a list without duplicates *)

Module AppliedChangeSet.
Record t : Type := mk { changes : list AppliedChange }.

Section AppliedChangeSet.
Context `{EXT : External} `{ENG : !RegexEngine} `{ITER : !Itertools}.

Definition new (changes : list AppliedChange) : t := mk (unique changes).

(** The pairs in the order of [cartesian_product]. *)
Definition check_conflict (self other : t) (catalog : Catalog) : result unit :=
  fold_outcome (fun _ '(lhs, rhs) => AppliedChange.check_conflict lhs rhs catalog) tt
    (lhs ← changes self; rhs ← changes other; [(lhs, rhs)]).

Definition to_string (self : t) : string :=
  join "," (AppliedChange.to_string <$> changes self).

Definition from_str (s : string) : result t :=
  changes ← map_outcome AppliedChange.from_str (split ","%char s); mret (new changes).
End AppliedChangeSet.
End AppliedChangeSet.
Abbreviation AppliedChangeSet := AppliedChangeSet.t.

(** ** Text *)

Section Text.
Context `{EXT : External} `{ENG : !RegexEngine} `{ITER : !Itertools}.

(** Identifiers are not empty and IDs are [i64]. *)
Definition printable (c : AppliedChange) : Prop :=
  match c with
  | AppliedChange.CreatedSchema name => name <> ""
  | AppliedChange.CreatedTable name | AppliedChange.CreatedView name =>
      QualifiedName.schema name <> "" /\ QualifiedName.name name <> ""
  | AppliedChange.CreatedScalarMacro _ | AppliedChange.CreatedTableMacro _ => True
  | AppliedChange.InsertedIntoTable id | AppliedChange.DeletedFromTable id
  | AppliedChange.CompactedTable id | AppliedChange.InlinedInsert id
  | AppliedChange.InlinedDelete id | AppliedChange.InlineFlush id
  | AppliedChange.MergeAdjacent id | AppliedChange.RewriteDelete id
  | AppliedChange.DroppedSchema id | AppliedChange.DroppedTable id
  | AppliedChange.DroppedView id | AppliedChange.DroppedScalarMacro id
  | AppliedChange.DroppedTableMacro id | AppliedChange.AlteredTable id
  | AppliedChange.AlteredView id => in_i64 id
  end.

Lemma tag_split tag param :
  bool_decide (":"%char ∉ chars tag) = true ->
  splitn2 ":" (tag +:+ String ":" param) = (tag, Some param).
Proof. intros ?%bool_decide_eq_true. by apply splitn2_app. Qed.

Lemma parse_id_to_string id : in_i64 id -> AppliedChange.parse_id (i64_to_string id) = Ok id.
Proof. intros. unfold AppliedChange.parse_id. by rewrite i64_from_to_string. Qed.

Lemma schema_name_from_to_string name :
  name <> "" ->
  AppliedChange.schema_name_from_str (AppliedChange.schema_name_to_string name) = Ok name.
Proof.
  intros. unfold AppliedChange.schema_name_from_str, AppliedChange.schema_name_to_string.
  by rewrite parse_format_identifier by (repeat constructor; done).
Qed.

Lemma QualifiedName_from_to_string q :
  QualifiedName.schema q <> "" -> QualifiedName.name q <> "" ->
  QualifiedName_from_str (QualifiedName.to_string q) = Ok q.
Proof.
  intros. unfold QualifiedName_from_str. by rewrite QualifiedName_parse_to_string.
Qed.

Local Arguments QualifiedName_from_str : simpl never.
Local Arguments QualifiedName.to_string : simpl never.
Local Arguments AppliedChange.schema_name_from_str : simpl never.
Local Arguments AppliedChange.schema_name_to_string : simpl never.
Local Arguments AppliedChange.parse_id : simpl never.

Ltac parse_tagged tag :=
  unfold AppliedChange.from_str;
  match goal with |- context [splitn2 ":" (_ +:+ ?p)] =>
    change (splitn2 ":" _) with (splitn2 ":" (tag +:+ String ":" p))
  end;
  rewrite (tag_split tag) by reflexivity.

Lemma from_str_to_string c : printable c -> AppliedChange.from_str (AppliedChange.to_string c) = Ok c.
Proof.
  intros Hc. destruct c; cbn [AppliedChange.to_string printable] in *.
  - parse_tagged "created_schema". cbn. by rewrite schema_name_from_to_string.
  - parse_tagged "created_table". cbn. by rewrite QualifiedName_from_to_string by naive_solver.
  - parse_tagged "created_view". cbn. by rewrite QualifiedName_from_to_string by naive_solver.
  - by parse_tagged "created_scalar_macro".
  - by parse_tagged "created_table_macro".
  - parse_tagged "inserted_into_table". cbn. by rewrite parse_id_to_string.
  - parse_tagged "deleted_from_table". cbn. by rewrite parse_id_to_string.
  - parse_tagged "compacted_table". cbn. by rewrite parse_id_to_string.
  - parse_tagged "inlined_insert". cbn. by rewrite parse_id_to_string.
  - parse_tagged "inlined_delete". cbn. by rewrite parse_id_to_string.
  - parse_tagged "inline_flush". cbn. by rewrite parse_id_to_string.
  - parse_tagged "merge_adjacent". cbn. by rewrite parse_id_to_string.
  - parse_tagged "rewrite_delete". cbn. by rewrite parse_id_to_string.
  - parse_tagged "dropped_schema". cbn. by rewrite parse_id_to_string.
  - parse_tagged "dropped_table". cbn. by rewrite parse_id_to_string.
  - parse_tagged "dropped_view". cbn. by rewrite parse_id_to_string.
  - parse_tagged "dropped_scalar_macro". cbn. by rewrite parse_id_to_string.
  - parse_tagged "dropped_table_macro". cbn. by rewrite parse_id_to_string.
  - parse_tagged "altered_table". cbn. by rewrite parse_id_to_string.
  - parse_tagged "altered_view". cbn. by rewrite parse_id_to_string.
Qed.

(** No comma in the text of a change: the separator of the set. *)
Definition comma_free (c : AppliedChange) : Prop := ","%char ∉ chars (AppliedChange.to_string c).

Lemma map_outcome_Ok {E A B} (f : A -> outcome E B) (g : B -> A) (l : list B) :
  Forall (fun x => f (g x) = Ok x) l -> map_outcome f (g <$> l) = Ok l.
Proof. induction 1 as [|x l Hx _ IH]; cbn; [done|]. by rewrite Hx; cbn; rewrite IH. Qed.

Lemma set_from_to_string s :
  AppliedChangeSet.changes s <> [] -> NoDup (AppliedChangeSet.changes s) ->
  Forall printable (AppliedChangeSet.changes s) ->
  Forall comma_free (AppliedChangeSet.changes s) ->
  AppliedChangeSet.from_str (AppliedChangeSet.to_string s) = Ok s.
Proof.
  destruct s as [l]. cbn [AppliedChangeSet.changes]. intros Hl HN Hp Hc.
  unfold AppliedChangeSet.from_str, AppliedChangeSet.to_string. cbn [AppliedChangeSet.changes].
  rewrite (split_join "," (AppliedChange.to_string <$> l)).
  - rewrite map_outcome_Ok.
    + cbn. unfold AppliedChangeSet.new, unique. rewrite unique_by_id; [done|].
      by rewrite list_fmap_id.
    + eapply Forall_impl; [exact Hp|]. intros c. apply from_str_to_string.
  - by destruct l.
  - by apply Forall_fmap.
Qed.
End Text.

(** ** Logical conflicts

    The specification: two changes conflict when they create the same name,
    when one drops the schema the other creates something in, or when they
    perform incompatible operations on the same object. *)

Inductive object : Type := OSchema (id : Z) | OTable (id : Z) | OView (id : Z) | OMacro (id : Z).
Inductive operation : Type := Insert | DeleteRows | DeleteInlinedRows | Compact | Alter | Drop.

Definition operation_on (c : AppliedChange) : option (object * operation) :=
  match c with
  | AppliedChange.InsertedIntoTable id | AppliedChange.InlinedInsert id => Some (OTable id, Insert)
  | AppliedChange.DeletedFromTable id => Some (OTable id, DeleteRows)
  | AppliedChange.InlinedDelete id => Some (OTable id, DeleteInlinedRows)
  | AppliedChange.CompactedTable id => Some (OTable id, Compact)
  | AppliedChange.AlteredTable id => Some (OTable id, Alter)
  | AppliedChange.DroppedTable id => Some (OTable id, Drop)
  | AppliedChange.DroppedSchema id => Some (OSchema id, Drop)
  | AppliedChange.DroppedView id => Some (OView id, Drop)
  | AppliedChange.AlteredView id => Some (OView id, Alter)
  | AppliedChange.DroppedScalarMacro id | AppliedChange.DroppedTableMacro id => Some (OMacro id, Drop)
  | _ => None
  end.

(** What of the committed snapshots makes an operation of the transaction fail. *)
Definition incompatible (lhs rhs : operation) : bool :=
  match lhs, rhs with
  | Insert, (Drop | Alter) => true
  | (DeleteRows | DeleteInlinedRows), (Drop | Alter | DeleteRows | Compact) => true
  | Compact, (Drop | DeleteRows | DeleteInlinedRows) => true
  | Alter, (Alter | Drop) => true
  | Drop, Drop => true
  | _, _ => false
  end.

Section Conflicts.
Context `{EXT : External} `{ENG : !RegexEngine} `{ITER : !Itertools}.

Definition same_name (a b : AppliedChange) : Prop :=
  match a, b with
  | AppliedChange.CreatedSchema n, AppliedChange.CreatedSchema m => n = m
  | (AppliedChange.CreatedTable n | AppliedChange.CreatedView n),
    (AppliedChange.CreatedTable m | AppliedChange.CreatedView m) => n = m
  | AppliedChange.CreatedScalarMacro n, AppliedChange.CreatedScalarMacro m
  | AppliedChange.CreatedTableMacro n, AppliedChange.CreatedTableMacro m =>
      to_ascii_lowercase n = to_ascii_lowercase m
  | _, _ => False
  end.

(** The schema a change creates something in *)
Definition created_in (c : AppliedChange) : option string :=
  match c with
  | AppliedChange.CreatedTable q | AppliedChange.CreatedView q => Some (QualifiedName.schema q)
  | AppliedChange.CreatedScalarMacro name | AppliedChange.CreatedTableMacro name =>
      QualifiedName.schema <$> QualifiedName.parse name
  | _ => None
  end.

Definition schema_name_of (catalog : Catalog) (id : Z) : option string :=
  match r ← Catalog.schema_by_id catalog id; Catalog.schema_name catalog r with
  | Ok name => Some name
  | _ => None
  end.

Inductive conflicts (catalog : Catalog) : AppliedChange -> AppliedChange -> Prop :=
  | conflict_name a b : same_name a b -> conflicts catalog a b
  | conflict_schema_l id b schema :
      created_in b = Some schema -> schema_name_of catalog id = Some schema ->
      conflicts catalog (AppliedChange.DroppedSchema id) b
  | conflict_schema_r a id schema :
      created_in a = Some schema -> schema_name_of catalog id = Some schema ->
      conflicts catalog a (AppliedChange.DroppedSchema id)
  | conflict_object a b o x y :
      operation_on a = Some (o, x) -> operation_on b = Some (o, y) -> incompatible x y = true ->
      conflicts catalog a b.

Definition reports_conflict (m : result unit) : Prop :=
  exists message, m = Err (TransactionConflict message).

Lemma reports_conflict_if b message :
  reports_conflict (AppliedChange.conflict_if b message) <-> b = true.
Proof.
  unfold reports_conflict, AppliedChange.conflict_if. destruct b; [naive_solver|].
  split; [by intros (? & ?)|done].
Qed.

Lemma reports_conflict_Ok : ~ reports_conflict (Ok tt).
Proof. by intros (? & ?). Qed.

Lemma check_dropped_schema_spec catalog id schema what name :
  reports_conflict (AppliedChange.check_dropped_schema catalog id schema what name) <->
  schema_name_of catalog id = Some schema.
Proof.
  unfold AppliedChange.check_dropped_schema, schema_name_of.
  unfold Catalog.schema_by_id, Catalog.schema_name, Catalog.schema_inner, Arena.get.
  destruct (Arena.map_id (Catalog.schema_arena catalog) id) as [idx|]; cbn; [|split; [by intros (? & ?)|by intros ?]].
  destruct (Arena.arena (Catalog.schema_arena catalog) !! idx) as [s|]; cbn; [|split; [by intros (? & ?)|by intros ?]].
  rewrite reports_conflict_if, bool_decide_eq_true. naive_solver.
Qed.

Lemma check_dropped_schema_macro_spec catalog id name :
  reports_conflict (AppliedChange.check_dropped_schema_macro catalog id name) <->
  exists schema, QualifiedName.schema <$> QualifiedName.parse name = Some schema /\
    schema_name_of catalog id = Some schema.
Proof.
  unfold AppliedChange.check_dropped_schema_macro, QualifiedName_from_str.
  destruct (Catalog.schema_by_id catalog id) as [r|e|] eqn:Hr.
  - cbn. destruct (QualifiedName.parse name) as [q|]; cbn.
    + rewrite check_dropped_schema_spec. naive_solver.
    + split; [by intros (? & ?)|naive_solver].
  - unfold schema_name_of. rewrite Hr. cbn. split; [|naive_solver].
    unfold Catalog.schema_by_id in Hr. intros (m & Hm).
    destruct (Arena.map_id (Catalog.schema_arena catalog) id); cbn in Hr; [done|]. congruence.
  - unfold Catalog.schema_by_id in Hr. by destruct (Arena.map_id (Catalog.schema_arena catalog) id).
Qed.

Lemma check_conflict_spec a b catalog :
  reports_conflict (AppliedChange.check_conflict a b catalog) <-> conflicts catalog a b.
Proof.
  transitivity (same_name a b \/
    match a, b with
    | AppliedChange.DroppedSchema id, c | c, AppliedChange.DroppedSchema id =>
        exists schema, created_in c = Some schema /\ schema_name_of catalog id = Some schema
    | _, _ => False
    end \/
    match operation_on a, operation_on b with
    | Some (o, x), Some (o', y) => o = o' /\ incompatible x y = true
    | _, _ => False
    end).
  - destruct a, b;
      cbn [AppliedChange.check_conflict same_name created_in operation_on incompatible];
      rewrite ?check_dropped_schema_spec, ?check_dropped_schema_macro_spec, ?reports_conflict_if,
        ?bool_decide_eq_true, ?eq_ignore_ascii_case_spec, ?Z.eqb_eq;
      first [ split; [intros []%reports_conflict_Ok | naive_solver] | naive_solver ].
  - split.
    + intros [?|[H|H]].
      * by apply conflict_name.
      * destruct a; try (destruct b; try done; destruct H as (? & ? & ?); by eapply conflict_schema_r).
        destruct H as (? & ? & ?). by eapply conflict_schema_l.
      * destruct (operation_on a) as [[o x]|] eqn:Ha; [|done].
        destruct (operation_on b) as [[o' y]|] eqn:Hb; [|done].
        destruct H as [-> ?]. by eapply conflict_object.
    + intros [|id c ? H1 H2|c id ? H1 H2|? ? ? ? ? H1 H2]; [by left|right; left..|right; right].
      * destruct c; eauto.
      * destruct c; cbn in H1; eauto; done.
      * by rewrite H1, H2.
Qed.
End Conflicts.

(** ** Properties *)

Section AppliedChangeProperties.
Context `{EXT : External} `{ENG : !RegexEngine} `{ITER : !Itertools}.

Lemma fold_outcome_unit {E A} (f : A -> outcome E unit) (l : list A) :
  fold_outcome (fun _ x => f x) tt l = Ok tt <-> Forall (fun x => f x = Ok tt) l.
Proof.
  induction l as [|x l IH]; cbn; [by split|].
  rewrite Forall_cons. destruct (f x) as [[]|e|] eqn:Hf; cbn; [|naive_solver..].
  rewrite IH. naive_solver.
Qed.

Lemma fold_outcome_Err {E A} (f : A -> outcome E unit) (l : list A) e :
  fold_outcome (fun _ x => f x) tt l = Err e -> exists x, x ∈ l /\ f x = Err e.
Proof.
  induction l as [|x l IH]; cbn; [done|].
  destruct (f x) as [[]|e'|] eqn:Hf; cbn.
  - intros (y & ? & ?)%IH. exists y. split; [by right|done].
  - intros [= ->]. exists x. split; [left|done].
  - done.
Qed.

Lemma elem_of_pairs {A B} (l : list A) (k : list B) p :
  p ∈ (x ← l; y ← k; [(x, y)]) <-> p.1 ∈ l /\ p.2 ∈ k.
Proof.
  rewrite list_elem_of_bind. setoid_rewrite list_elem_of_bind.
  setoid_rewrite list_elem_of_singleton. destruct p; naive_solver.
Qed.

(** The text of an applied change parses back to it, for every kind of
    change whose names are not empty and whose ID is an [i64]. *)
Theorem applied_change_roundtrip (c : AppliedChange) :
  printable c -> AppliedChange.from_str (AppliedChange.to_string c) = Ok c.
Proof. apply from_str_to_string. Qed.

(** C13: the stored text of a set of changes parses back to the set when no
    name in it contains a comma, IDs fit their width and schemas, tables and views
    have names that are not empty ([printable]: the quotes of an empty name do not
    parse). *)
Theorem applied_change_set_roundtrip (l : list AppliedChange) :
  AppliedChangeSet.changes (AppliedChangeSet.new l) <> [] ->
  Forall (fun c => printable c /\ comma_free c) l ->
  AppliedChangeSet.from_str (AppliedChangeSet.to_string (AppliedChangeSet.new l)) =
  Ok (AppliedChangeSet.new l).
Proof.
  intros Hne Hl. assert (Forall (fun c => printable c /\ comma_free c)
    (AppliedChangeSet.changes (AppliedChangeSet.new l))) as [Hp Hc]%Forall_and.
  { rewrite Forall_forall in Hl |- *. intros c Hc. apply Hl.
    eapply sublist_subseteq; [apply (unique_by_sublist id l)|done]. }
  apply set_from_to_string; [done| |done|done].
  rewrite <-list_fmap_id. apply unique_by_NoDup.
Qed.

(** A comma in a name breaks the stored text: a set that holds one table
    whose name has a comma is written, and then does not parse. *)
Theorem comma_in_name_unparsable :
  is_err (AppliedChangeSet.from_str (AppliedChangeSet.to_string
    (AppliedChangeSet.mk [AppliedChange.CreatedTable (QualifiedName.mk "main" "a,b")]))) = true.
Proof.
  unfold AppliedChangeSet.from_str.
  assert (QualifiedName.parse (String dquote ("main" +:+ String dquote
    ("." +:+ String dquote "a"))) = None) as Hnone.
  { unfold QualifiedName.parse, parse_identifier. rewrite !is_match_doc.
    by vm_compute (full_match _ _). }
  assert (forall p, p = "created_table:" +:+ String dquote ("main" +:+ String dquote
    ("." +:+ String dquote "a")) -> is_err (AppliedChange.from_str p) = true) as Herr.
  { intros p ->. unfold AppliedChange.from_str.
    replace (splitn2 _ _) with ("created_table", Some (String dquote ("main" +:+ String dquote
      ("." +:+ String dquote "a")))) by (vm_compute; reflexivity).
    cbn [ok_or mbind outcome_bind]. rewrite decide_False by done. rewrite decide_True by done.
    unfold QualifiedName_from_str. by rewrite Hnone. }
  replace (split "," _) with ["created_table:" +:+ String dquote ("main" +:+ String dquote
    ("." +:+ String dquote "a")); "b" +:+ String dquote ""] by (vm_compute; reflexivity).
  cbn [map_outcome]. specialize (Herr _ eq_refl).
  by destruct (AppliedChange.from_str ("created_table:" +:+ _)).
Qed.

(** C12: the check of a transaction's change against a committed one fails with a
    transaction conflict exactly when the
    two create the same name, one drops the schema the other creates something
    in, or they perform incompatible operations on the same object. (A change the
    check cannot resolve - a schema ID the catalog lacks, a macro name that does not
    parse - is another error.) *)
Theorem check_conflict_refines (a b : AppliedChange) (catalog : Catalog) :
  (exists message,
     AppliedChange.check_conflict a b catalog = Err (TransactionConflict message)) <->
  conflicts catalog a b.
Proof. apply check_conflict_spec. Qed.

(** A set of changes passes the conflict check against a committed set
    exactly when every pair passes it; then no pair is in conflict, and a
    reported conflict is one between two of the changes. *)
Theorem set_check_conflict_pairs (s1 s2 : AppliedChangeSet) (catalog : Catalog) :
  (AppliedChangeSet.check_conflict s1 s2 catalog = Ok tt <->
   forall a b, a ∈ AppliedChangeSet.changes s1 -> b ∈ AppliedChangeSet.changes s2 ->
     AppliedChange.check_conflict a b catalog = Ok tt) /\
  (forall a b, a ∈ AppliedChangeSet.changes s1 -> b ∈ AppliedChangeSet.changes s2 ->
     AppliedChangeSet.check_conflict s1 s2 catalog = Ok tt -> ~ conflicts catalog a b) /\
  (forall message,
     AppliedChangeSet.check_conflict s1 s2 catalog = Err (TransactionConflict message) ->
     exists a b, a ∈ AppliedChangeSet.changes s1 /\ b ∈ AppliedChangeSet.changes s2 /\
       conflicts catalog a b).
Proof.
  assert (Hok : AppliedChangeSet.check_conflict s1 s2 catalog = Ok tt <->
    forall a b, a ∈ AppliedChangeSet.changes s1 -> b ∈ AppliedChangeSet.changes s2 ->
     AppliedChange.check_conflict a b catalog = Ok tt).
  { unfold AppliedChangeSet.check_conflict.
    rewrite (fold_outcome_unit (fun '(lhs, rhs) => AppliedChange.check_conflict lhs rhs catalog)).
    rewrite Forall_forall. setoid_rewrite elem_of_pairs. split.
    - intros H a b ??. by apply (H (a, b)).
    - intros H [a b] [??]. by apply H. }
  split_and!; [done|..].
  - intros a b Ha Hb Hc Hconf. apply check_conflict_spec in Hconf as [m Hm].
    rewrite Hok in Hc. specialize (Hc a b Ha Hb). congruence.
  - intros m Hm. unfold AppliedChangeSet.check_conflict in Hm.
    apply (fold_outcome_Err (fun '(lhs, rhs) => AppliedChange.check_conflict lhs rhs catalog))
      in Hm as ([a b] & Hin & Hm).
    apply elem_of_pairs in Hin as [??]. exists a, b. split_and!; [done|done|].
    apply check_conflict_spec. by exists m.
Qed.

(** Dropping a schema whose ID the catalog of the transaction does not
    know makes the check fail with [EntityNotFound] when the transaction
    created a table, in whatever schema. *)
Theorem unknown_dropped_schema_errors (catalog : Catalog) (id : Z) (name : QualifiedName) :
  Arena.map_id (Catalog.schema_arena catalog) id = None ->
  AppliedChange.check_conflict (AppliedChange.CreatedTable name) (AppliedChange.DroppedSchema id)
    catalog = Err (EntityNotFound id).
Proof.
  intros Hid. cbn. unfold AppliedChange.check_dropped_schema, Catalog.schema_by_id.
  by rewrite Hid.
Qed.
End AppliedChangeProperties.

(** ** Witnesses *)

Lemma applied_change_roundtrip_witness :
  AppliedChange.from_str (AppliedChange.to_string
    (AppliedChange.CreatedTable (QualifiedName.mk "main" "my table"))) =
  Ok (AppliedChange.CreatedTable (QualifiedName.mk "main" "my table")).
Proof. apply applied_change_roundtrip. by split. Defined.

Definition demo_changes : list AppliedChange :=
  [AppliedChange.CreatedSchema "s"; AppliedChange.AlteredTable 7; AppliedChange.AlteredTable 7].

Lemma applied_change_set_roundtrip_witness :
  AppliedChangeSet.from_str (AppliedChangeSet.to_string (AppliedChangeSet.new demo_changes)) =
  Ok (AppliedChangeSet.new demo_changes).
Proof.
  apply applied_change_set_roundtrip; [done|].
  repeat constructor; try done; apply (bool_decide_unpack _); vm_compute; exact I.
Defined.

Lemma unknown_dropped_schema_errors_witness :
  AppliedChange.check_conflict (AppliedChange.CreatedTable (QualifiedName.mk "main" "t"))
    (AppliedChange.DroppedSchema 5) Catalog.empty = Err (EntityNotFound 5).
Proof. by apply unknown_dropped_schema_errors. Defined.
