(* ===== verification/Dialect.v ===== *)
(** * SQL dialects ([db/dialects/mod.rs], [db/dialects/postgres.rs], [db/dialects/sqlite.rs])

    The limits of the catalog databases: which schemas can be stored inline,
    the column types used for that, how many values a statement may bind. *)

From S2P Require Import Prelude Text Regex Identifier Types Instances.

(** The constructors of [sea_query::ColumnType] that the source uses. *)
Module ColumnType.
Inductive t : Type :=
  | String | Text | Blob | SmallInteger | Integer | BigInteger | Float | Double | Boolean
  | Time | Uuid | Interval | TimestampWithTimeZone
  | Decimal (precision_scale : option (Z * Z))
  | Custom (name : string).
End ColumnType.
Abbreviation ColumnType := ColumnType.t.

(** ** PostgreSQL *)

Module Postgres.
Section Postgres.
Context `{EXT : External}.

Definition column_type_for_data_type (d : DataType) : result ColumnType :=
  match d with
  | DataType.Boolean => Ok ColumnType.Boolean
  | DataType.Int8 | DataType.Int16 => Ok ColumnType.SmallInteger
  | DataType.Int32 => Ok ColumnType.Integer
  | DataType.Int64 => Ok ColumnType.BigInteger
  | DataType.Int128 => Ok ColumnType.String
  | DataType.UInt8 | DataType.UInt16 => Ok ColumnType.Integer
  | DataType.UInt32 => Ok ColumnType.BigInteger
  | DataType.UInt64 | DataType.UInt128 => Ok ColumnType.String
  | DataType.Float32 => Ok ColumnType.Float
  | DataType.Float64 => Ok ColumnType.Double
  | DataType.Decimal precision scale => Ok (ColumnType.Decimal (Some (precision, scale)))
  | DataType.Time => Ok ColumnType.Time
  | DataType.TimeTz => Ok (ColumnType.Custom "TIMETZ")
  | DataType.Date | DataType.Timestamp _ | DataType.TimestampTz => Ok ColumnType.String
  | DataType.Interval => Ok ColumnType.Interval
  | DataType.Varchar | DataType.Json | DataType.Blob => Ok ColumnType.Blob
  | DataType.Variant | DataType.Geometry => Panic
  | DataType.Uuid => Ok ColumnType.Uuid
  | DataType.List _ | DataType.Struct _ | DataType.Map _ _ => Ok ColumnType.String
  end.

(** [usize::next_multiple_of], [usize::div_ceil] *)
Definition div_ceil (n m : nat) : nat := (n + m - 1) / m.
Definition next_multiple_of (n m : nat) : nat := div_ceil n m * m.

(** Width and alignment of the stored value of a column. *)
Definition width_alignment (d : DataType) : nat * nat :=
  match d with
  | DataType.Boolean => (1, 1)
  | DataType.Int8 | DataType.Int16 => (2, 2)
  | DataType.Int32 | DataType.UInt8 | DataType.UInt16 | DataType.Float32 => (4, 4)
  | DataType.Int64 | DataType.UInt32 | DataType.Float64 | DataType.Time => (8, 8)
  | DataType.TimeTz => (12, 8)
  | DataType.Interval => (16, 8)
  | DataType.Uuid => (16, 1)
  | _ => (24, 4)
  end.

Definition add_column_size (size : nat) (column : Column) : nat :=
  let '(width, alignment) := width_alignment (Column.dtype column) in
  next_multiple_of size alignment + width.

Definition inline_row_size (schema : Schema) : nat :=
  foldl add_column_size
    (next_multiple_of (23 + div_ceil (length (Schema.columns schema) + 3) 8) 8 + 3 * 8)
    (Schema.columns schema).*2.

Definition inline_row_fits (schema : Schema) : bool :=
  (Z.of_nat (inline_row_size schema) <=? 8160)%Z.
End Postgres.
End Postgres.

(** ** SQLite *)

Module Sqlite.
Section Sqlite.
Context `{EXT : External}.

Definition column_type_for_data_type (d : DataType) : result ColumnType :=
  match d with
  | DataType.Boolean | DataType.Int8 | DataType.Int16 | DataType.Int32 | DataType.Int64
  | DataType.UInt8 | DataType.UInt16 | DataType.UInt32 => Ok (ColumnType.Custom "bigint")
  | DataType.Int128 | DataType.UInt64 | DataType.UInt128 | DataType.Float32 | DataType.Float64
  | DataType.Decimal _ _ | DataType.Time | DataType.TimeTz | DataType.Date
  | DataType.Timestamp _ | DataType.TimestampTz | DataType.Interval | DataType.Varchar
  | DataType.Json | DataType.Uuid | DataType.List _ | DataType.Struct _ | DataType.Map _ _ =>
      Ok ColumnType.String
  | DataType.Blob => Ok ColumnType.Blob
  | DataType.Variant | DataType.Geometry => Panic
  end.
End Sqlite.
End Sqlite.

(** ** Dialects *)

Module Dialect.
Inductive t : Type := Postgres | MySql | Sqlite.

Definition begin_statement (d : t) : string :=
  match d with
  | Postgres => "BEGIN TRANSACTION ISOLATION LEVEL REPEATABLE READ"
  | MySql => "SET TRANSACTION ISOLATION LEVEL REPEATABLE READ; START TRANSACTION"
  | Sqlite => "BEGIN IMMEDIATE"
  end.

Definition max_bind_params (d : t) : Z :=
  match d with Postgres => 65535 | MySql => 65535 | Sqlite => 32766 end.

(** [assert!(key_columns > 0)] *)
Definition max_rows_per_key_batch {E} (d : t) (key_columns : nat) : outcome E Z :=
  if decide (key_columns = 0) then Panic
  else match d with
       | Sqlite => if decide (1 < key_columns) then Ok 256%Z else Ok (max_bind_params d)
       | d => Ok (max_bind_params d)
       end.

Definition column_type_string (d : t) : ColumnType :=
  match d with MySql => ColumnType.Text | _ => ColumnType.String end.
Definition column_type_i64 (d : t) : ColumnType :=
  match d with Sqlite => ColumnType.Custom "bigint" | _ => ColumnType.BigInteger end.
Definition column_type_bool (d : t) : ColumnType :=
  match d with Sqlite => ColumnType.Custom "bigint" | _ => ColumnType.Boolean end.
Definition column_type_date_time_with_time_zone (d : t) : ColumnType :=
  match d with Sqlite => ColumnType.String | _ => ColumnType.TimestampWithTimeZone end.
Definition column_type_uuid (d : t) : ColumnType :=
  match d with
  | Sqlite => ColumnType.String
  | MySql => ColumnType.Text
  | Postgres => ColumnType.Uuid
  end.

Section Dialect.
Context `{EXT : External}.

Definition column_type_for_data_inlining (d : t) (data_type : DataType) : result ColumnType :=
  if negb (DataTypeOps.supports_data_inlining data_type)
  then Err (InvalidDataType (DataTypeOps.to_string data_type +:+
              " cannot be inlined in this catalog"))
  else match d with
       | Postgres => Postgres.column_type_for_data_type data_type
       | MySql => Err (InvalidDataType "data inlining is not supported for MySQL")
       | Sqlite => Sqlite.column_type_for_data_type data_type
       end.

Definition max_columns (d : t) : Z :=
  match d with Sqlite => 2000 | Postgres => 1600 | MySql => 0 end.

Definition supports_data_inlining (d : t) (schema : Schema) : bool :=
  (Z.of_nat (length (Schema.columns schema) + 3) <=? max_columns d)%Z &&
  forallb (fun column => is_ok (column_type_for_data_inlining d (Column.dtype column)))
    (Schema.columns schema).*2 &&
  match d with Postgres => Postgres.inline_row_fits schema | _ => true end.
End Dialect.
End Dialect.
Abbreviation Dialect := Dialect.t.

(** ** What the limits guarantee *)

Section DialectFacts.
Context `{EXT : External}.

(** The [unreachable!] of the column type tables is unreachable behind
    [supports_data_inlining]. *)
Lemma inlined_type_total (f : DataType -> result ColumnType) d :
  f = Postgres.column_type_for_data_type \/ f = Sqlite.column_type_for_data_type ->
  DataTypeOps.supports_data_inlining d = true -> exists c, f d = Ok c.
Proof. intros [-> | ->]; destruct d; cbn; try done; eauto. Qed.

(** Asking for the inline column type of a data type never reaches the
    [unreachable!] arm: it answers a type exactly for the data types that
    support inlining on the backends that do, and the [InvalidDataType] error
    otherwise. *)
Theorem column_type_for_data_inlining_total (dialect : Dialect) (d : DataType) :
  match Dialect.column_type_for_data_inlining dialect d with
  | Ok _ => DataTypeOps.supports_data_inlining d = true /\ dialect <> Dialect.MySql
  | Err e => (DataTypeOps.supports_data_inlining d = false \/ dialect = Dialect.MySql) /\
             exists msg, e = InvalidDataType msg
  | Panic => False
  end.
Proof.
  unfold Dialect.column_type_for_data_inlining.
  destruct (DataTypeOps.supports_data_inlining d) eqn:Hs; cbn [negb]; [|by eauto].
  destruct dialect; [| by eauto |].
  - destruct (inlined_type_total _ d (or_introl eq_refl) Hs) as [c ->]. done.
  - destruct (inlined_type_total _ d (or_intror eq_refl) Hs) as [c ->]. done.
Qed.

Lemma next_multiple_of_le n m : m <> 0 -> n <= Postgres.next_multiple_of n m.
Proof.
  intros Hm. unfold Postgres.next_multiple_of, Postgres.div_ceil.
  pose proof (Nat.div_mod_eq (n + m - 1) m) as Hd.
  pose proof (Nat.mod_upper_bound (n + m - 1) m Hm). lia.
Qed.

Lemma alignment_nonzero (d : DataType) : (Postgres.width_alignment d).2 <> 0.
Proof. by destruct d. Qed.

Lemma row_size_sum columns size :
  size + list_sum ((fun c => (Postgres.width_alignment (Column.dtype c)).1) <$> columns)
  <= foldl Postgres.add_column_size size columns.
Proof.
  revert size. induction columns as [|c columns IH]; intros size; [cbn; lia|].
  rewrite fmap_cons. cbn [foldl]. change (list_sum (?x :: ?l)) with (x + list_sum l).
  etrans; [|apply IH]. unfold Postgres.add_column_size.
  pose proof (alignment_nonzero (Column.dtype c)) as Ha.
  destruct (Postgres.width_alignment (Column.dtype c)) as [w a] eqn:E. cbn in *.
  pose proof (next_multiple_of_le size a Ha). lia.
Qed.

(** A schema PostgreSQL accepts for inlining fits a heap tuple: with the
    tuple header and the three system columns, the widths of its columns add
    up to at most 8160 bytes, every column has a storage type and there are at
    most 1600 columns. *)
Theorem inlined_schema_fits_page (schema : Schema)
    (Hs : Dialect.supports_data_inlining Dialect.Postgres schema = true) :
  (23 + 24 + Z.of_nat (list_sum
     ((fun c => (Postgres.width_alignment (Column.dtype c)).1) <$> (Schema.columns schema).*2))
   <= 8160)%Z /\
  (Z.of_nat (length (Schema.columns schema)) + 3 <= 1600)%Z /\
  Forall (fun c => exists t, Postgres.column_type_for_data_type (Column.dtype c) = Ok t)
    (Schema.columns schema).*2.
Proof.
  unfold Dialect.supports_data_inlining in Hs.
  apply andb_prop in Hs as [[Hc Ht]%andb_prop Hf]. split; [|split].
  - apply Z.leb_le in Hf. unfold Postgres.inline_row_size in Hf.
    pose proof (row_size_sum (Schema.columns schema).*2
      (Postgres.next_multiple_of (23 + Postgres.div_ceil (length (Schema.columns schema) + 3) 8) 8
       + 3 * 8)) as Hr.
    pose proof (next_multiple_of_le
      (23 + Postgres.div_ceil (length (Schema.columns schema) + 3) 8) 8 ltac:(lia)).
    lia.
  - apply Z.leb_le in Hc. cbn in Hc. lia.
  - apply forallb_True, Is_true_true in Ht || apply Is_true_true, forallb_True in Ht.
    eapply Forall_impl; [exact Ht|]. intros c Hok. cbn in Hok.
    unfold Dialect.column_type_for_data_inlining in *.
    destruct (DataTypeOps.supports_data_inlining (Column.dtype c)) eqn:E; [|done].
    by apply (inlined_type_total _ _ (or_introl eq_refl)).
Qed.
End DialectFacts.

(** Two columns, one of them [NUMERIC(38, 2)] *)
Definition demo_schema : Schema := Schema.mk [
  ("id", Column.new "id" DataType.Int64);
  ("amount", Column.new "amount" (DataType.Decimal 38 2))].

Lemma inlined_schema_fits_page_witness :
  Dialect.supports_data_inlining Dialect.Postgres demo_schema = true /\
  Forall (fun c => exists t, Postgres.column_type_for_data_type (Column.dtype c) = Ok t)
    (Schema.columns demo_schema).*2.
Proof.
  split; [reflexivity|]. apply (inlined_schema_fits_page demo_schema). reflexivity.
Defined.
