(* ===== verification/TransactionChanges.v ===== *)
(** * The changes collected for a commit ([transaction/transaction_changes.rs])

    The rows to insert, to retire and to delete that the executors of the
    changes of a transaction collect before anything is written. *)

From S2P Require Import Prelude Text Regex Identifier Types Entities.

(** An explicit tag edit; [None] removes the tag. *)
Module TagChange.
Record t : Type := mk { key : string; value : option string }.
End TagChange.

Module FileChanges.
(** The metadata of written files *)
Record t : Type := mk {
  data_files : list DucklakeDataFile;
  partition_values : list DucklakeFilePartitionValue;
  column_stats : list DucklakeFileColumnStats;
  delete_files : list DucklakeDeleteFile;
  inline_deletes : gmap Z (list DucklakeInlinedDelete);
}.
Definition eta (c : t) : t :=
  mk
    (data_files c) (partition_values c) (column_stats c) (delete_files c) (inline_deletes c).
#[export] Instance set_data_files : Setter data_files :=
  ltac:(mk_setter eta data_files).
#[export] Instance set_partition_values : Setter partition_values :=
  ltac:(mk_setter eta partition_values).
#[export] Instance set_column_stats : Setter column_stats :=
  ltac:(mk_setter eta column_stats).
#[export] Instance set_delete_files : Setter delete_files :=
  ltac:(mk_setter eta delete_files).
#[export] Instance set_inline_deletes : Setter inline_deletes :=
  ltac:(mk_setter eta inline_deletes).

(** [Default] *)
Definition default : t :=
  mk
    [] [] [] [] ∅.
End FileChanges.
#[export] Existing Instances
  FileChanges.set_data_files FileChanges.set_partition_values FileChanges.set_column_stats
  FileChanges.set_delete_files FileChanges.set_inline_deletes.
Abbreviation FileChanges := FileChanges.t.

Module TransactionChanges.
(** [HashSet]s and [HashMap]s of the source are finite sets and maps. *)
Record t `{External} : Type := mk {
  new_schemas : list DucklakeSchema;
  new_tables : list DucklakeTable;
  new_views : list DucklakeView;
  new_macros : list DucklakeMacro;
  new_macro_impls : list DucklakeMacroImpl;
  new_macro_parameters : list DucklakeMacroParameters;
  new_columns : list DucklakeColumn;
  new_partition_info : list DucklakePartitionInfo;
  new_partition_columns : list DucklakePartitionColumn;
  new_sort_info : list DucklakeSortInfo;
  new_sort_expressions : list DucklakeSortExpression;
  new_tags : list DucklakeTag;
  new_column_tags : list DucklakeColumnTag;
  dropped_schemas : gset Z;
  dropped_tables : gset Z;
  dropped_views : gset Z;
  dropped_macros : gset Z;
  detached_tables : gset Z;
  renamed_tables : gmap Z string;
  retired_partition_tables : gset Z;
  retired_sort_tables : gset Z;
  retired_columns : gset (Z * Z);
  table_tags : gmap Z (list TagChange.t);
  column_tags : gmap (Z * Z) (list TagChange.t);
  files : FileChanges.t;
  inline_tables : gmap Z Schema;
  inline_data : gmap Z (list RecordBatch);
  written_columns : gmap Z (gset Z);
}.
#[global] Arguments mk {_}
  new_schemas new_tables new_views new_macros new_macro_impls new_macro_parameters new_columns
  new_partition_info new_partition_columns new_sort_info new_sort_expressions new_tags
  new_column_tags dropped_schemas dropped_tables dropped_views dropped_macros detached_tables
  renamed_tables retired_partition_tables retired_sort_tables retired_columns table_tags
  column_tags files inline_tables inline_data written_columns.
Definition eta `{External} (c : t) : t :=
  mk
    (new_schemas c) (new_tables c) (new_views c) (new_macros c) (new_macro_impls c)
    (new_macro_parameters c) (new_columns c) (new_partition_info c) (new_partition_columns c)
    (new_sort_info c) (new_sort_expressions c) (new_tags c) (new_column_tags c)
    (dropped_schemas c) (dropped_tables c) (dropped_views c) (dropped_macros c)
    (detached_tables c) (renamed_tables c) (retired_partition_tables c) (retired_sort_tables c)
    (retired_columns c) (table_tags c) (column_tags c) (files c) (inline_tables c)
    (inline_data c) (written_columns c).
#[export] Instance set_new_schemas `{External} : Setter new_schemas :=
  ltac:(mk_setter eta new_schemas).
#[export] Instance set_new_tables `{External} : Setter new_tables :=
  ltac:(mk_setter eta new_tables).
#[export] Instance set_new_views `{External} : Setter new_views :=
  ltac:(mk_setter eta new_views).
#[export] Instance set_new_macros `{External} : Setter new_macros :=
  ltac:(mk_setter eta new_macros).
#[export] Instance set_new_macro_impls `{External} : Setter new_macro_impls :=
  ltac:(mk_setter eta new_macro_impls).
#[export] Instance set_new_macro_parameters `{External} : Setter new_macro_parameters :=
  ltac:(mk_setter eta new_macro_parameters).
#[export] Instance set_new_columns `{External} : Setter new_columns :=
  ltac:(mk_setter eta new_columns).
#[export] Instance set_new_partition_info `{External} : Setter new_partition_info :=
  ltac:(mk_setter eta new_partition_info).
#[export] Instance set_new_partition_columns `{External} : Setter new_partition_columns :=
  ltac:(mk_setter eta new_partition_columns).
#[export] Instance set_new_sort_info `{External} : Setter new_sort_info :=
  ltac:(mk_setter eta new_sort_info).
#[export] Instance set_new_sort_expressions `{External} : Setter new_sort_expressions :=
  ltac:(mk_setter eta new_sort_expressions).
#[export] Instance set_new_tags `{External} : Setter new_tags :=
  ltac:(mk_setter eta new_tags).
#[export] Instance set_new_column_tags `{External} : Setter new_column_tags :=
  ltac:(mk_setter eta new_column_tags).
#[export] Instance set_dropped_schemas `{External} : Setter dropped_schemas :=
  ltac:(mk_setter eta dropped_schemas).
#[export] Instance set_dropped_tables `{External} : Setter dropped_tables :=
  ltac:(mk_setter eta dropped_tables).
#[export] Instance set_dropped_views `{External} : Setter dropped_views :=
  ltac:(mk_setter eta dropped_views).
#[export] Instance set_dropped_macros `{External} : Setter dropped_macros :=
  ltac:(mk_setter eta dropped_macros).
#[export] Instance set_detached_tables `{External} : Setter detached_tables :=
  ltac:(mk_setter eta detached_tables).
#[export] Instance set_renamed_tables `{External} : Setter renamed_tables :=
  ltac:(mk_setter eta renamed_tables).
#[export] Instance set_retired_partition_tables `{External} : Setter retired_partition_tables :=
  ltac:(mk_setter eta retired_partition_tables).
#[export] Instance set_retired_sort_tables `{External} : Setter retired_sort_tables :=
  ltac:(mk_setter eta retired_sort_tables).
#[export] Instance set_retired_columns `{External} : Setter retired_columns :=
  ltac:(mk_setter eta retired_columns).
#[export] Instance set_table_tags `{External} : Setter table_tags :=
  ltac:(mk_setter eta table_tags).
#[export] Instance set_column_tags `{External} : Setter column_tags :=
  ltac:(mk_setter eta column_tags).
#[export] Instance set_files `{External} : Setter files :=
  ltac:(mk_setter eta files).
#[export] Instance set_inline_tables `{External} : Setter inline_tables :=
  ltac:(mk_setter eta inline_tables).
#[export] Instance set_inline_data `{External} : Setter inline_data :=
  ltac:(mk_setter eta inline_data).
#[export] Instance set_written_columns `{External} : Setter written_columns :=
  ltac:(mk_setter eta written_columns).

(** [Default] *)
Definition default `{External} : t :=
  mk
    [] [] [] [] [] [] [] [] [] [] [] [] [] ∅ ∅ ∅ ∅ ∅ ∅ ∅ ∅ ∅ ∅ ∅ FileChanges.default ∅ ∅ ∅.
End TransactionChanges.
#[export] Existing Instances
  TransactionChanges.set_new_schemas TransactionChanges.set_new_tables
  TransactionChanges.set_new_views TransactionChanges.set_new_macros
  TransactionChanges.set_new_macro_impls TransactionChanges.set_new_macro_parameters
  TransactionChanges.set_new_columns TransactionChanges.set_new_partition_info
  TransactionChanges.set_new_partition_columns TransactionChanges.set_new_sort_info
  TransactionChanges.set_new_sort_expressions TransactionChanges.set_new_tags
  TransactionChanges.set_new_column_tags TransactionChanges.set_dropped_schemas
  TransactionChanges.set_dropped_tables TransactionChanges.set_dropped_views
  TransactionChanges.set_dropped_macros TransactionChanges.set_detached_tables
  TransactionChanges.set_renamed_tables TransactionChanges.set_retired_partition_tables
  TransactionChanges.set_retired_sort_tables TransactionChanges.set_retired_columns
  TransactionChanges.set_table_tags TransactionChanges.set_column_tags
  TransactionChanges.set_files TransactionChanges.set_inline_tables
  TransactionChanges.set_inline_data TransactionChanges.set_written_columns.
Abbreviation TransactionChanges := TransactionChanges.t.
