(* ===== verification/Executors.v ===== *)
(** * Executors ([transaction/executors/], [Change::apply], [ChangeSet::apply])

    What each change of a change set adds to the changes collected for the
    commit, with the IDs the commit state resolves or draws. *)

From S2P Require Import Prelude Text Regex Identifier Types Instances Entities CatalogColumns.
From S2P Require Import Catalog TableStats CommitState Change AppliedChange Dialect.
From S2P Require Import TransactionChanges.

(** ** The environment

    Time-based UUIDs ([db::UuidText::now_v7]; the argument counts the calls) and
    [RecordBatch::try_new] on the columns of a batch and further [Int64]
    columns, which checks that all columns have one length. *)

Class Environment `{External} : Type := {
  now_v7 : nat -> Uuid;
  with_i64_columns : RecordBatch -> list (string * list (option Z)) -> outcome string RecordBatch;
  with_i64_columns_ok b columns :
    Forall (fun c => length c.2 = num_rows b) columns ->
    exists b', with_i64_columns b columns = Ok b' /\ num_rows b' = num_rows b;
}.

#[export] Program Instance demo_environment : Environment := {|
  now_v7 := Z.of_nat;
  with_i64_columns b columns :=
    if forallb (fun c => Nat.eqb (length c.2) b) columns then Ok b
    else Err "all columns in a record batch must have the same length";
|}.
Next Obligation.
  intros b columns Hc. exists b. split; [|done].
  assert (forallb (fun c : string * list (option Z) => Nat.eqb (length c.2) b) columns = true) as ->; [|done].
  apply forallb_forall. intros c Hin. apply Nat.eqb_eq.
  rewrite Forall_forall in Hc. apply Hc. by apply list_elem_of_In.
Qed.

(** ** One commit attempt *)

Module Attempt.
Record t `{External} : Type := mk {
  changes : TransactionChanges;
  state : CommitState;
  uuids : nat;
}.
#[global] Arguments mk {_} changes state uuids.
Definition eta `{External} (a : t) : t := mk (changes a) (state a) (uuids a).
#[export] Instance set_changes `{External} : Setter changes := ltac:(mk_setter eta changes).
#[export] Instance set_state `{External} : Setter state := ltac:(mk_setter eta state).
#[export] Instance set_uuids `{External} : Setter uuids := ltac:(mk_setter eta uuids).
End Attempt.
#[export] Existing Instances Attempt.set_changes Attempt.set_state Attempt.set_uuids.
Abbreviation Attempt := Attempt.t.

Module executors.
Section executors.
Context `{EXT : External} `{ENV : !Environment} `{TXT : !ValueText} `{HASH : HashOrder}.

(** A method of the commit state; a change to the collected changes. *)
Definition on_state {A} (m : method CommitState A) : method Attempt A :=
  st_zoom Attempt.state (fun state self => self <| Attempt.state := state |>) m.
Definition collect (f : TransactionChanges -> TransactionChanges) : method Attempt unit :=
  st_modify (fun self => self <| Attempt.changes ::= f |>).
Definition snapshot_id : method Attempt Z :=
  st_gets (fun self => CommitState.snapshot_id (Attempt.state self)).
Definition uuid_now_v7 : method Attempt Uuid :=
  self ← st_get;
  st_modify (fun self => self <| Attempt.uuids ::= S |>) ;;
  mret (now_v7 (Attempt.uuids self)).

Definition table_id (r : TableRef) := on_state (CommitState.table_id r).
Definition schema_id (r : SchemaRef) := on_state (CommitState.schema_id r).
Definition column_id (r : ColumnRef) := on_state (CommitState.column_id r).

(** ** Schemas ([executors/schema.rs]) *)

Definition create_schema (r : SchemaRef) (name : string) (path : DucklakePath)
    : method Attempt unit :=
  schema_id ← schema_id r;
  snapshot_id ← snapshot_id;
  uuid ← uuid_now_v7;
  let schema := DucklakeSchema.mk schema_id (Some uuid) snapshot_id None name
                  (DucklakePath.as_str path) (DucklakePath.is_relative path) in
  collect (fun c => c <| TransactionChanges.new_schemas ::= fun l => l ++ [schema] |>).

Definition delete_schema (r : SchemaRef) : method Attempt unit :=
  schema_id ← schema_id r;
  collect (fun c => c <| TransactionChanges.dropped_schemas ::= fun s => {[schema_id]} ∪ s |>).

(** ** Views ([executors/view.rs]) *)

(** The initial tags of a new entity *)
Definition create_tags (object_id : Z) (tags : Tags) : method Attempt unit :=
  snapshot_id ← snapshot_id;
  let rows := (fun t => DucklakeTag.mk object_id snapshot_id None (Tag.key t) (Tag.value t))
                <$> Tags_to_vec tags in
  collect (fun c => c <| TransactionChanges.new_tags ::= fun l => l ++ rows |>).

Definition create_view (r : SchemaRef) (view_ref : ViewRef) (name : QualifiedName)
    (sql dialect : string) (column_aliases : option (list string)) (tags : Tags)
    : method Attempt unit :=
  view_id ← on_state (CommitState.view_id view_ref);
  uuid ← uuid_now_v7;
  snapshot_id ← snapshot_id;
  schema_id ← schema_id r;
  let view := DucklakeView.mk view_id (Some uuid) snapshot_id None schema_id
                (QualifiedName.name name) dialect sql
                (Some (format_identifier_list (default [] column_aliases))) in
  collect (fun c => c <| TransactionChanges.new_views ::= fun l => l ++ [view] |>) ;;
  if decide (tags = ∅) then mret tt else create_tags view_id tags.

Definition delete_view (r : ViewRef) : method Attempt unit :=
  view_id ← on_state (CommitState.view_id r);
  collect (fun c => c <| TransactionChanges.dropped_views ::= fun s => {[view_id]} ∪ s |>).

(** ** Macros ([executors/macro_.rs]) *)

Definition macro_parameters (macro_id : Z) (impl_id : nat) (i : MacroImplementation)
    : list DucklakeMacroParameters :=
  imap (fun column_id p =>
    DucklakeMacroParameters.mk macro_id (Z.of_nat impl_id) (Z.of_nat column_id)
      (MacroParameter.name p) (MacroParameter.data_type p)
      (Some (format_string (MacroParameter.default_value p)))
      (MacroParameter.default_value_type p)) (MacroImplementation.parameters i).

Definition create_macro (r : SchemaRef) (macro_ref : MacroRef) (name : QualifiedName)
    (macro_type : MacroType) (implementations : list MacroImplementation)
    : method Attempt unit :=
  macro_id ← on_state (CommitState.macro_id macro_ref);
  schema_id ← schema_id r;
  snapshot_id ← snapshot_id;
  collect (fun c => c <| TransactionChanges.new_macros ::= fun l => l ++
    [DucklakeMacro.mk schema_id macro_id (QualifiedName.name name) snapshot_id None] |>) ;;
  st_for (fun '(impl_id, i) =>
    collect (fun c => c <| TransactionChanges.new_macro_impls ::= fun l => l ++
      [DucklakeMacroImpl.mk macro_id (Z.of_nat impl_id) (MacroImplementation.dialect i)
         (MacroImplementation.sql i) (MacroType_to_string macro_type)] |>) ;;
    collect (fun c => c <| TransactionChanges.new_macro_parameters ::= fun l => l ++
      macro_parameters macro_id impl_id i |>))
    (imap (fun impl_id i => (impl_id, i)) implementations).

Definition delete_macro (r : MacroRef) : method Attempt unit :=
  macro_id ← on_state (CommitState.macro_id r);
  collect (fun c => c <| TransactionChanges.dropped_macros ::= fun s => {[macro_id]} ∪ s |>).

(** ** Tables and columns ([executors/table_meta.rs]) *)

Definition to_default_value_columns (d : DataType) (v : ColumnDefault)
    : option string * option string * option string :=
  match v with
  | ColumnDefault.Literal v =>
      (Some (value_to_string_opt v),
       if DataTypeOps.is_nested d then Some "" else Some "literal",
       Some "duckdb")
  | ColumnDefault.Expression dialect expression =>
      (Some expression, Some "expression", Some dialect)
  end.

(** The row and the tags of one flattened column; [column_ids\[i\]] panics
    when there are fewer references than flattened columns. *)
Definition column_row (snapshot_id table_id : Z) (parent_column_id : option Z)
    (column_ids : list Z) (i : nat) (flat : Column.FlattenedColumn)
    : result (DucklakeColumn * list DucklakeColumnTag) :=
  let column := Column.column flat in
  column_id ← unwrap (column_ids !! i);
  let '(default_value, default_value_type, default_value_dialect) :=
    to_default_value_columns (Column.dtype column) (Column.default_value column) in
  parent ← option_outcome (fun idx => unwrap (column_ids !! idx)) (Column.parent_index flat);
  mret
    (DucklakeColumn.mk column_id snapshot_id None table_id (Some column_id) (Column.name column)
       (DataTypeOps.to_string (Column.dtype column))
       (value_to_string <$> Column.initial_default column) default_value
       (Column.nullable column)
       (match parent with Some p => Some p | None => parent_column_id end)
       default_value_type default_value_dialect,
     (fun t => DucklakeColumnTag.mk table_id column_id snapshot_id None (Tag.key t) (Tag.value t))
       <$> Tags_to_vec (Column.tags column)).

Definition add_column_to_buffers (table_id : Z) (parent_column_ref : option ColumnRef)
    (column_refs : list ColumnRef) (column : Column)
    : method Attempt (list DucklakeColumn * list DucklakeColumnTag) :=
  parent_column_id ← match parent_column_ref with
                     | Some r => id ← column_id r; mret (Some id)
                     | None => mret None
                     end;
  column_ids ← st_map column_id column_refs;
  snapshot_id ← snapshot_id;
  rows ← st_lift (map_outcome (fun '(i, flat) =>
           column_row snapshot_id table_id parent_column_id column_ids i flat)
           (imap (fun i flat => (i, flat)) (Column.flatten column)));
  mret (rows.*1, concat rows.*2).

Definition create_partitioning (r : TableRef) (table_id : Z)
    (partition_column_refs : list ColumnRef) (partition_columns : list PartitionColumn)
    : method Attempt unit :=
  partition_id ← on_state (CommitState.partition_id r);
  snapshot_id ← snapshot_id;
  columns ← st_map (fun '((i, p), column_ref) =>
      column_id ← column_id column_ref;
      mret (DucklakePartitionColumn.mk partition_id table_id (Z.of_nat i) column_id
              (PartitionTransform.to_string (PartitionColumn.transform p))))
    (zip (imap (fun i p => (i, p)) partition_columns) partition_column_refs);
  collect (fun c => c <| TransactionChanges.new_partition_info ::= fun l => l ++
    [DucklakePartitionInfo.mk partition_id table_id snapshot_id None] |>) ;;
  collect (fun c => c <| TransactionChanges.new_partition_columns ::= fun l => l ++ columns |>).

Definition create_sort_info (table_id : Z) (expressions : list SortExpression)
    : method Attempt unit :=
  sort_id ← on_state CommitState.sort_info_id;
  snapshot_id ← snapshot_id;
  collect (fun c => c <| TransactionChanges.new_sort_info ::= fun l => l ++
    [DucklakeSortInfo.mk sort_id table_id snapshot_id None] |>) ;;
  collect (fun c => c <| TransactionChanges.new_sort_expressions ::= fun l => l ++
    imap (fun i e => DucklakeSortExpression.mk sort_id table_id (Z.of_nat i)
      (Some (SortExpression.expression e)) (Some (SortExpression.dialect e))
      (Some (SortDirection_to_string (SortExpression.direction e)))
      (Some (NullOrder_to_string (SortExpression.null_order e)))) expressions |>).

(** [if let Some(refs) = refs && let Some(columns) = columns] *)
Definition create_partitioning_if (r : TableRef) (table_id : Z)
    (refs : option (list ColumnRef)) (columns : option (list PartitionColumn))
    : method Attempt unit :=
  match refs, columns with
  | Some refs, Some columns => create_partitioning r table_id refs columns
  | _, _ => mret tt
  end.

Definition retired_column (table_id snapshot_id : Z) (column : DucklakeColumn) : DucklakeColumn :=
  column <| DucklakeColumn.table_id := table_id |>
    <| DucklakeColumn.begin_snapshot := snapshot_id |>
    <| DucklakeColumn.end_snapshot := Some snapshot_id |>.

Definition create_table (r : SchemaRef) (table_ref : TableRef)
    (column_refs : list (list ColumnRef)) (partition_column_refs : option (list ColumnRef))
    (name : QualifiedName) (columns : list Column) (retired_columns : list DucklakeColumn)
    (partition_columns : option (list PartitionColumn)) (sort_info : option (list SortExpression))
    (path : DucklakePath) (tags : Tags) : method Attempt unit :=
  table_id ← table_id table_ref;
  schema_id ← schema_id r;
  snapshot_id ← snapshot_id;
  uuid ← uuid_now_v7;
  let table := DucklakeTable.mk table_id (Some uuid) snapshot_id None schema_id
                 (QualifiedName.name name) (DucklakePath.as_str path) true in
  collect (fun c => c <| TransactionChanges.new_tables ::= fun l => l ++ [table] |>) ;;
  rows ← st_map (fun '(column, refs) => add_column_to_buffers table_id None refs column)
           (zip columns column_refs);
  let ducklake_columns := concat rows.*1 ++
    (retired_column table_id snapshot_id <$> retired_columns) in
  collect (fun c => c <| TransactionChanges.new_columns ::= fun l => l ++ ducklake_columns |>) ;;
  collect (fun c => c <| TransactionChanges.new_column_tags ::= fun l => l ++ concat rows.*2 |>) ;;
  create_partitioning_if table_ref table_id partition_column_refs partition_columns ;;
  st_when_some (create_sort_info table_id) sort_info ;;
  if decide (tags = ∅) then mret tt else create_tags table_id tags.

(** [iter_mut().find(p)] updated by [f]; [None] when there is none *)
Fixpoint update_first {A} (p : A -> bool) (f : A -> A) (l : list A) : option (list A) :=
  match l with
  | [] => None
  | x :: l => if p x then Some (f x :: l) else (fun l => x :: l) <$> update_first p f l
  end.

Definition rename_table (r : TableRef) (name : QualifiedName) : method Attempt unit :=
  table_id ← table_id r;
  collect (fun c =>
    match update_first (fun t => Z.eqb (DucklakeTable.table_id t) table_id)
            (fun t => t <| DucklakeTable.table_name := QualifiedName.name name |>)
            (TransactionChanges.new_tables c) with
    | Some tables => c <| TransactionChanges.new_tables := tables |>
    | None => c <| TransactionChanges.renamed_tables ::= <[table_id := QualifiedName.name name]> |>
    end).

Definition update_table_partitioning (r : TableRef)
    (partition_column_refs : option (list ColumnRef))
    (partition_columns : option (list PartitionColumn)) : method Attempt unit :=
  table_id ← table_id r;
  snapshot_id ← snapshot_id;
  collect (fun c => c <| TransactionChanges.retired_partition_tables ::= fun s => {[table_id]} ∪ s |>) ;;
  collect (fun c => c <| TransactionChanges.new_partition_info ::= fmap (fun p =>
    if Z.eqb (DucklakePartitionInfo.table_id p) table_id
    then p <| DucklakePartitionInfo.end_snapshot := Some snapshot_id |> else p) |>) ;;
  create_partitioning_if r table_id partition_column_refs partition_columns.

Definition update_table_sort_info (r : TableRef) (expressions : option (list SortExpression))
    : method Attempt unit :=
  table_id ← table_id r;
  snapshot_id ← snapshot_id;
  collect (fun c => c <| TransactionChanges.retired_sort_tables ::= fun s => {[table_id]} ∪ s |>) ;;
  collect (fun c => c <| TransactionChanges.new_sort_info ::= fmap (fun p =>
    if Z.eqb (DucklakeSortInfo.table_id p) table_id
    then p <| DucklakeSortInfo.end_snapshot := Some snapshot_id |> else p) |>) ;;
  st_when_some (create_sort_info table_id) expressions.

Definition delete_table (r : TableRef) (detach_files : bool) : method Attempt unit :=
  table_id ← table_id r;
  collect (fun c => c <| TransactionChanges.dropped_tables ::= fun s => {[table_id]} ∪ s |>) ;;
  if detach_files
  then collect (fun c => c <| TransactionChanges.detached_tables ::= fun s => {[table_id]} ∪ s |>)
  else mret tt.

(** [map.entry(key).or_default().push(value)], [.extend(values)] *)
Definition push_at {K V} `{Countable K} (key : K) (values : list V) (m : gmap K (list V))
    : gmap K (list V) := <[key := default [] (m !! key) ++ values]> m.

Definition change_table_tag (r : TableRef) (change : TagChange.t) : method Attempt unit :=
  table_id ← table_id r;
  collect (fun c => c <| TransactionChanges.table_tags ::= push_at table_id [change] |>).
Definition add_table_tag (r : TableRef) (tag : Tag) : method Attempt unit :=
  change_table_tag r (TagChange.mk (Tag.key tag) (Some (Tag.value tag))).
Definition remove_table_tag (r : TableRef) (key : string) : method Attempt unit :=
  change_table_tag r (TagChange.mk key None).

(** [column_refs\[0\]] panics without references; tags on the column reach a
    [todo!] after the column was collected. *)
Definition add_table_column (parent_column_ref : option ColumnRef)
    (column_refs : list ColumnRef) (column : Column) : method Attempt unit :=
  first ← st_lift (unwrap (head column_refs));
  table_id ← table_id (ColumnRef.table_ref first);
  '(columns, tags) ← add_column_to_buffers table_id parent_column_ref column_refs column;
  collect (fun c => c <| TransactionChanges.new_columns ::= fun l => l ++ columns |>) ;;
  collect (fun c => c <| TransactionChanges.new_column_tags ::= fun l => l ++ tags |>) ;;
  if decide (Column.tags column = ∅) then mret tt else st_panic.

Definition is_column (table_id column_id : Z) (c : DucklakeColumn) : bool :=
  Z.eqb (DucklakeColumn.table_id c) table_id && Z.eqb (DucklakeColumn.column_id c) column_id.

Definition update_table_column (parent_column_ref : option ColumnRef) (r : ColumnRef)
    (column : Column) : method Attempt unit :=
  table_id ← table_id (ColumnRef.table_ref r);
  id ← column_id r;
  collect (fun c => c <| TransactionChanges.retired_columns ::= fun s => {[(table_id, id)]} ∪ s |>) ;;
  collect (fun c => c <| TransactionChanges.new_columns ::=
    List.filter (fun c => negb (is_column table_id id c)) |>) ;;
  '(columns, _) ← add_column_to_buffers table_id parent_column_ref [r] column;
  collect (fun c => c <| TransactionChanges.new_columns ::= fun l => l ++ columns |>).

Definition remove_table_column (r : ColumnRef) : method Attempt unit :=
  table_id ← table_id (ColumnRef.table_ref r);
  id ← column_id r;
  snapshot_id ← snapshot_id;
  collect (fun c => c <| TransactionChanges.retired_columns ::= fun s => {[(table_id, id)]} ∪ s |>) ;;
  collect (fun c => c <| TransactionChanges.new_columns ::= fmap (fun c =>
    if is_column table_id id c
    then c <| DucklakeColumn.end_snapshot := Some snapshot_id |> else c) |>).

Definition change_column_tag (r : ColumnRef) (change : TagChange.t) : method Attempt unit :=
  table_id ← table_id (ColumnRef.table_ref r);
  id ← column_id r;
  collect (fun c => c <| TransactionChanges.column_tags ::= push_at (table_id, id) [change] |>).
Definition add_table_column_tag (r : ColumnRef) (tag : Tag) : method Attempt unit :=
  change_column_tag r (TagChange.mk (Tag.key tag) (Some (Tag.value tag))).
Definition remove_table_column_tag (r : ColumnRef) (key : string) : method Attempt unit :=
  change_column_tag r (TagChange.mk key None).

(** ** Data ([executors/table_write.rs]) *)

Definition update_column_stats (table_id column_id : Z) (null_count : option Z)
    (contains_nan : option bool) (min_value max_value : option Value) : method Attempt unit :=
  on_state (CommitState.update_table_stats table_id (TableStats.update_column_stats column_id
    (ColumnStats.update null_count contains_nan min_value max_value))).

Definition update_table_stats_from_file (table_id : Z) (f : CommitDataFile.t)
    : method Attempt unit :=
  on_state (CommitState.update_table_stats table_id (fun stats =>
    TableStats.add_file_size_bytes (wrap64 <$> CommitDataFile.file_size_bytes f)
      (TableStats.add_record_count (wrap64 (CommitDataFile.num_rows f))
        (TableStats.advance_row_id (wrap64 (CommitDataFile.num_rows f)) stats)))) ;;
  st_for (fun '(column_ref, s) =>
    column_id ← column_id column_ref;
    update_column_stats table_id column_id (FileColumnStats.null_count s)
      (FileColumnStats.contains_nan s) (FileColumnStats.min_value s) (FileColumnStats.max_value s))
    (hash_iter (CommitDataFile.column_stats f)).

Definition update_table_stats_from_inline_data (table_id : Z) (d : CommitInlineData.t)
    : method Attempt unit :=
  let n := wrap64 (Z.of_nat (num_rows (CommitInlineData.record_batch d))) in
  on_state (CommitState.update_table_stats table_id (fun stats =>
    TableStats.add_record_count n (TableStats.advance_row_id n stats))) ;;
  st_for (fun '(column_ref, s) =>
    column_id ← column_id column_ref;
    update_column_stats table_id column_id (ArrayColumnStats.null_count s)
      (ArrayColumnStats.contains_nan s) (ArrayColumnStats.min_value s)
      (ArrayColumnStats.max_value s))
    (hash_iter (CommitInlineData.column_stats d)).

Definition next_row_id (table_id : Z) : method Attempt Z :=
  stats ← on_state (CommitState.get_table_stats table_id);
  mret (TableStats.next_row_id stats).

Definition collect_files (f : FileChanges -> FileChanges) : method Attempt unit :=
  collect (fun c => c <| TransactionChanges.files ::= f |>).

Definition write_delete_file (table_id file_id : Z) (f : CommitDeleteFile.t)
    : method Attempt unit :=
  delete_file_id ← on_state CommitState.file_id;
  snapshot_id ← snapshot_id;
  collect_files (fun c => c <| FileChanges.delete_files ::= fun l => l ++
    [DucklakeDeleteFile.mk delete_file_id table_id snapshot_id None file_id
       (DucklakePath.as_str (CommitDeleteFile.path f))
       (DucklakePath.is_relative (CommitDeleteFile.path f)) "parquet"
       (Some (wrap64 (CommitDeleteFile.num_deletes f)))
       (wrap64 <$> CommitDeleteFile.file_size_bytes f)
       (wrap64 <$> CommitDeleteFile.footer_size_bytes f)
       (CommitDeleteFile.encryption_key f) None] |>).

Definition write_column_stats (table_id file_id : Z) (column_ref : ColumnRef)
    (s : FileColumnStats.t) : method Attempt Z :=
  column_id ← column_id column_ref;
  collect_files (fun c => c <| FileChanges.column_stats ::= fun l => l ++
    [DucklakeFileColumnStats.mk file_id table_id column_id
       (wrap64 <$> FileColumnStats.size_bytes s) None (wrap64 <$> FileColumnStats.null_count s)
       (value_to_string <$> FileColumnStats.min_value s)
       (value_to_string <$> FileColumnStats.max_value s)
       (FileColumnStats.contains_nan s) None] |>) ;;
  mret column_id.

(** One data file; returns the columns it has statistics for. *)
Definition write_data_file (r : TableRef) (table_id : Z) (f : CommitDataFile.t)
    : method Attempt (list Z) :=
  file_id ← on_state CommitState.file_id;
  row_id_start ← next_row_id table_id;
  update_table_stats_from_file table_id f ;;
  snapshot_id ← snapshot_id;
  partition_id ← match CommitDataFile.partition_values f with
                 | Some _ => id ← on_state (CommitState.partition_id r); mret (Some id)
                 | None => mret None
                 end;
  collect_files (fun c => c <| FileChanges.data_files ::= fun l => l ++
    [DucklakeDataFile.mk file_id table_id snapshot_id None (Some file_id)
       (DucklakePath.as_str (CommitDataFile.path f))
       (DucklakePath.is_relative (CommitDataFile.path f)) "parquet"
       (wrap64 (CommitDataFile.num_rows f))
       (wrap64 <$> CommitDataFile.file_size_bytes f)
       (wrap64 <$> CommitDataFile.footer_size_bytes f)
       (Some row_id_start) partition_id (CommitDataFile.encryption_key f) None None] |>) ;;
  st_for (write_delete_file table_id file_id) (CommitDataFile.delete_files f) ;;
  match CommitDataFile.inline_deletes f with
  | [] => mret tt
  | row_ids =>
      collect_files (fun c => c <| FileChanges.inline_deletes ::= push_at table_id
        ((fun row_id => DucklakeInlinedDelete.mk file_id row_id snapshot_id) <$> row_ids) |>)
  end ;;
  st_when_some (fun values =>
    collect_files (fun c => c <| FileChanges.partition_values ::= fun l => l ++
      imap (fun idx value => DucklakeFilePartitionValue.mk file_id table_id (Z.of_nat idx) value)
        values |>)) (CommitDataFile.partition_values f) ;;
  st_map (fun '(column_ref, s) => write_column_stats table_id file_id column_ref s)
    (hash_iter (CommitDataFile.column_stats f)).

(** [changes.written_columns.entry(table_id).or_default().extend(columns)] *)
Definition record_written_columns (table_id : Z) (columns : list Z) : method Attempt unit :=
  collect (fun c => c <| TransactionChanges.written_columns ::= fun m =>
    <[table_id := default ∅ (m !! table_id) ∪ list_to_set columns]> m |>).

Definition write_table_data (r : TableRef) (data_files : list CommitDataFile.t)
    : method Attempt unit :=
  table_id ← table_id r;
  columns ← st_map (write_data_file r table_id) data_files;
  record_written_columns table_id (concat columns).

(** The system columns of an inlined batch *)
Definition inlined_columns (start snapshot_id : Z) (n : nat)
    : list (string * list (option Z)) :=
  [("row_id", Some <$> i64_range start (i64_add start (wrap64 (Z.of_nat n))));
   ("begin_snapshot", repeat (Some snapshot_id) n);
   ("end_snapshot", repeat None n)].

Definition write_inline_batch (table_id : Z) (d : CommitInlineData.t) : method Attempt (list Z) :=
  start ← next_row_id table_id;
  let n := num_rows (CommitInlineData.record_batch d) in
  update_table_stats_from_inline_data table_id d ;;
  snapshot_id ← snapshot_id;
  batch ← st_lift
    match with_i64_columns (CommitInlineData.record_batch d) (inlined_columns start snapshot_id n) with
    | Ok batch => Ok batch
    | Err e => Err (Arrow e)
    | Panic => Panic
    end;
  collect (fun c => c <| TransactionChanges.inline_data ::= push_at table_id [batch] |>) ;;
  st_map column_id (hash_iter (CommitInlineData.column_stats d)).*1.

Definition write_table_inline_data (r : TableRef) (inline_data : list CommitInlineData.t)
    : method Attempt unit :=
  table_id ← table_id r;
  columns ← st_map (write_inline_batch table_id) inline_data;
  record_written_columns table_id (concat columns).

Definition table_schema (r : TableRef) : method Attempt Schema :=
  self ← st_get; st_lift (CommitState.table_schema (Attempt.state self) r).

Definition create_inlined_data_table (r : TableRef) (dialect : Dialect) : method Attempt unit :=
  table_id ← table_id r;
  schema ← table_schema r;
  if Dialect.supports_data_inlining dialect schema
  then collect (fun c => c <| TransactionChanges.inline_tables ::= <[table_id := schema]> |>)
  else mret tt.
End executors.
End executors.

(** ** The changes of a change set ([changes/change.rs]) *)

Section ApplyChange.
Context `{EXT : External} `{ENV : !Environment} `{TXT : !ValueText} `{HASH : HashOrder}.

(** [Change::applied_change] *)
Definition Change_applied_change (c : Change) : method CommitState AppliedChange :=
  match c with
  | Change.CreateSchema _ name _ => mret (AppliedChange.CreatedSchema name)
  | Change.DeleteSchema r =>
      id ← CommitState.schema_id r; mret (AppliedChange.DroppedSchema id)
  | Change.CreateTable _ _ _ _ name _ _ _ _ _ _ | Change.RenameTable _ name =>
      mret (AppliedChange.CreatedTable name)
  | Change.UpdateTablePartitioning r _ _ | Change.UpdateTableSortInfo r _
  | Change.AddTableTag r _ | Change.RemoveTableTag r _ =>
      id ← CommitState.table_id r; mret (AppliedChange.AlteredTable id)
  | Change.AddTableColumn _ refs _ =>
      first ← st_lift (unwrap (head refs));
      id ← CommitState.table_id (ColumnRef.table_ref first);
      mret (AppliedChange.AlteredTable id)
  | Change.UpdateTableColumn _ c _ | Change.RemoveTableColumn c
  | Change.AddTableColumnTag c _ | Change.RemoveTableColumnTag c _ =>
      id ← CommitState.table_id (ColumnRef.table_ref c); mret (AppliedChange.AlteredTable id)
  | Change.DeleteTable r _ =>
      id ← CommitState.table_id r; mret (AppliedChange.DroppedTable id)
  | Change.CreateView _ _ name _ _ _ _ => mret (AppliedChange.CreatedView name)
  | Change.DeleteView r => id ← CommitState.view_id r; mret (AppliedChange.DroppedView id)
  | Change.CreateMacro _ _ name macro_type _ =>
      mret match macro_type with
           | Scalar => AppliedChange.CreatedScalarMacro (QualifiedName.to_string name)
           | Table => AppliedChange.CreatedTableMacro (QualifiedName.to_string name)
           end
  | Change.DeleteMacro r macro_type =>
      id ← CommitState.macro_id r;
      mret match macro_type with
           | Scalar => AppliedChange.DroppedScalarMacro id
           | Table => AppliedChange.DroppedTableMacro id
           end
  | Change.WriteTableDataFiles r _ =>
      id ← CommitState.table_id r; mret (AppliedChange.InsertedIntoTable id)
  | Change.WriteTableInlineData r _ =>
      id ← CommitState.table_id r; mret (AppliedChange.InlinedInsert id)
  end.

(** [Change::apply] *)
Definition Change_apply (c : Change) : method Attempt unit :=
  match c with
  | Change.CreateSchema r name path => executors.create_schema r name path
  | Change.DeleteSchema r => executors.delete_schema r
  | Change.CreateTable r t refs prefs name columns retired pcolumns sort_info path tags =>
      executors.create_table r t refs prefs name columns retired pcolumns sort_info path tags
  | Change.WriteTableDataFiles r files => executors.write_table_data r files
  | Change.WriteTableInlineData r data => executors.write_table_inline_data r data
  | Change.RenameTable r name => executors.rename_table r name
  | Change.UpdateTablePartitioning r prefs pcolumns =>
      executors.update_table_partitioning r prefs pcolumns
  | Change.UpdateTableSortInfo r expressions => executors.update_table_sort_info r expressions
  | Change.DeleteTable r detach_files => executors.delete_table r detach_files
  | Change.AddTableTag r tag => executors.add_table_tag r tag
  | Change.RemoveTableTag r key => executors.remove_table_tag r key
  | Change.CreateView r v name sql dialect aliases tags =>
      executors.create_view r v name sql dialect aliases tags
  | Change.DeleteView r => executors.delete_view r
  | Change.CreateMacro r m name macro_type implementations =>
      executors.create_macro r m name macro_type implementations
  | Change.DeleteMacro r _ => executors.delete_macro r
  | Change.AddTableColumn parent refs column => executors.add_table_column parent refs column
  | Change.UpdateTableColumn parent r column => executors.update_table_column parent r column
  | Change.RemoveTableColumn r => executors.remove_table_column r
  | Change.AddTableColumnTag r tag => executors.add_table_column_tag r tag
  | Change.RemoveTableColumnTag r key => executors.remove_table_column_tag r key
  end.
End ApplyChange.

(** ** The change set as a whole *)

Section ApplyChangeSet.
Context `{EXT : External} `{ENV : !Environment} `{TXT : !ValueText} `{HASH : HashOrder}
  `{ITER : !Itertools}.
Implicit Types (changes : list Change).

Definition applied_change_set changes : method CommitState AppliedChangeSet :=
  applied ← st_map Change_applied_change changes;
  mret (AppliedChangeSet.new applied).

(** Inline writes are checked against the final schema before anything is applied. *)
Definition check_inline_write (dialect : Dialect) (c : Change) : method Attempt unit :=
  match c with
  | Change.WriteTableInlineData r _ =>
      schema ← executors.table_schema r;
      if Dialect.supports_data_inlining dialect schema then mret tt
      else st_throw (InvalidChanges
             "cannot inline data for this table; write Parquet files instead")
  | _ => mret tt
  end.

Definition ChangeSet_apply changes (dialect : Dialect) : method Attempt unit :=
  st_for (check_inline_write dialect) changes ;;
  st_for Change_apply changes ;;
  st_for (fun r => executors.create_inlined_data_table r dialect)
    (ChangeSet.table_refs_with_schema_changes changes) ;;
  if ChangeSet.contains_inline_data_writes_and_no_file_writes changes
  then _ ← executors.on_state CommitState.file_id; mret tt
  else mret tt.

(** [iter.filter_map(...)] that resolves table IDs *)
Definition table_ids_of (p : Change -> option TableRef) changes : method CommitState (list Z) :=
  st_map CommitState.table_id (omap p changes).

Definition inline_write_table (c : Change) : option TableRef :=
  match c with Change.WriteTableInlineData r _ => Some r | _ => None end.

Definition table_ids_with_inline_data_writes changes : method CommitState (list Z) :=
  ids ← table_ids_of inline_write_table changes; mret (unique ids).
Definition created_table_ids changes : method CommitState (list Z) :=
  table_ids_of Change.created_table changes.
Definition table_ids_with_schema_changes changes : method CommitState (list Z) :=
  st_map CommitState.table_id (ChangeSet.table_refs_with_schema_changes changes).
End ApplyChangeSet.
