(* ===== verification/Database.v ===== *)
(** * The catalog database ([db/mod.rs], [db/batch.rs], [db/sea_query_ext.rs])

    The statements the SDK sends, the SQL engine as an interface that states
    their documented effect, and the batching that keeps every statement below
    the engine's limit of bind parameters. *)

From S2P Require Import Prelude Text Regex Identifier Types Instances Entities Dialect.

(** ** Statements ([sea_query]) *)

(** A conjunction of equalities of columns with values *)
Abbreviation key_match := (list (string * SqlValue)).

Module Cond.
Inductive t `{External} : Type :=
  | IsIn (column : string) (values : list SqlValue)
  | Any (rows : list key_match)
  | Eq (column : string) (value : SqlValue)
  | IsNull (column : string)
  | Between (column : string) (low high : SqlValue)
  | And (a b : t).
End Cond.
Abbreviation Cond := Cond.t.

Module Expr.
(** [Case] is [CASE WHEN match THEN value ... ELSE column END] *)
Inductive t `{External} : Type :=
  | Val (value : SqlValue)
  | Col (column : string)
  | Case (whens : list (key_match * SqlValue)) (otherwise : string).
End Expr.
Abbreviation Expr := Expr.t.

Module Statement.
Inductive t `{External} : Type :=
  | Select (table : string) (cond : Cond)
  | Delete (table : string) (cond : Cond)
  | Update (table : string) (values : list (string * Expr)) (cond : Cond)
  | Insert (table : string) (columns : list string) (rows : list (list SqlValue))
  | InsertSelect (table : string) (columns : list string) (exprs : list Expr) (cond : Cond)
  | Copy (table : string) (columns : list string) (rows : list (list SqlValue))
  | CreateTable (table : string) (columns : list (string * ColumnType))
      (primary_key : option string) (if_not_exists : bool).
End Statement.
Abbreviation Statement := Statement.t.

(** ** The values a statement binds *)

Section BindCount.
Context `{EXT : External}.

Fixpoint cond_binds (c : Cond) : nat :=
  match c with
  | Cond.IsIn _ values => length values
  | Cond.Any rows => list_sum (length <$> rows)
  | Cond.Eq _ _ => 1
  | Cond.IsNull _ => 0
  | Cond.Between _ _ _ => 2
  | Cond.And a b => cond_binds a + cond_binds b
  end.
Definition expr_binds (e : Expr) : nat :=
  match e with
  | Expr.Val _ => 1
  | Expr.Col _ => 0
  | Expr.Case whens _ => list_sum ((fun w => length w.1 + 1) <$> whens)
  end.
Definition bind_count (s : Statement) : nat :=
  match s with
  | Statement.Select _ cond | Statement.Delete _ cond => cond_binds cond
  | Statement.Update _ values cond => list_sum (expr_binds <$> values.*2) + cond_binds cond
  | Statement.Insert _ _ rows => list_sum (length <$> rows)
  | Statement.InsertSelect _ _ exprs cond => list_sum (expr_binds <$> exprs) + cond_binds cond
  | Statement.Copy _ _ _ | Statement.CreateTable _ _ _ _ => 0
  end.
End BindCount.

(** ** Tables and the documented effect of statements *)

Module DbTable.
Record t `{External} : Type := mk {
  columns : list string;
  primary_key : option string;
  rows : list row;
}.
#[global] Arguments mk {_} columns primary_key rows.
Definition eta `{External} (t : t) := mk (columns t) (primary_key t) (rows t).
#[export] Instance set_rows `{External} : Setter rows := ltac:(mk_setter eta rows).
End DbTable.
#[export] Existing Instance DbTable.set_rows.
Abbreviation DbTable := DbTable.t.

(** Tables by name; the order of rows has no meaning. *)
Abbreviation Db := (gmap string DbTable).

(** What stays of a transaction that did not commit: nothing, unless it changes the
    schema on MySQL. That database commits implicitly at a statement that changes
    the schema, and then every statement on its own. (The transactions of the
    library that change the schema write nothing before they do.) *)
Definition left_behind `{External} (dialect : Dialect) (changes_schema : bool) (before after : Db) : Db :=
  match dialect with
  | Dialect.MySql => if changes_schema then after else before
  | _ => before
  end.
Lemma left_behind_nothing `{External} dialect changes_schema before after :
  dialect <> Dialect.MySql -> left_behind dialect changes_schema before after = before.
Proof. by destruct dialect. Qed.

(** The value of a column, [NULL] when the row lacks it *)
Definition field `{External} (column : string) (r : row) : SqlValue :=
  default SNull (IndexMap.get column r).

Definition set_field `{External} (column : string) (v : SqlValue) (r : row) : row :=
  IndexMap.insert column v r.

Definition is_null `{External} (v : SqlValue) : bool := match v with SNull => true | _ => false end.

(** [filter_for_snapshot] on a row: [NULL] in [begin_snapshot] never matches. *)
Definition row_visible `{External} (snapshot_id : Z) (r : row) : bool :=
  match field "begin_snapshot" r, field "end_snapshot" r with
  | SInt b, SNull => filter_for_snapshot b None snapshot_id
  | SInt b, SInt e => filter_for_snapshot b (Some e) snapshot_id
  | _, _ => false
  end.

(** SQL's [=] and [<=]: never true on [NULL]; equality of text depends on the
    collation of the engine. *)
Class SqlCompare `{External} : Type := {
  sql_eq : SqlValue -> SqlValue -> bool;
  sql_le : SqlValue -> SqlValue -> bool;
  sql_eq_int a b : sql_eq (SInt a) (SInt b) = Z.eqb a b;
  sql_le_int a b : sql_le (SInt a) (SInt b) = Z.leb a b;
  sql_eq_null v : sql_eq SNull v = false /\ sql_eq v SNull = false;
}.

Section Effect.
Context `{EXT : External} `{CMP : !SqlCompare}.

Definition holds_match (m : key_match) (r : row) : bool :=
  forallb (fun '(c, v) => sql_eq (field c r) v) m.

(** Where three-valued logic yields true *)
Fixpoint holds (c : Cond) (r : row) : bool :=
  match c with
  | Cond.IsIn column values => existsb (sql_eq (field column r)) values
  | Cond.Any rows => existsb (fun m => holds_match m r) rows
  | Cond.Eq column v => sql_eq (field column r) v
  | Cond.IsNull column => is_null (field column r)
  | Cond.Between column low high => sql_le low (field column r) && sql_le (field column r) high
  | Cond.And a b => holds a r && holds b r
  end.

Definition eval_expr (e : Expr) (r : row) : SqlValue :=
  match e with
  | Expr.Val v => v
  | Expr.Col column => field column r
  | Expr.Case whens otherwise =>
      match List.find (fun w => holds_match w.1 r) whens with
      | Some w => w.2
      | None => field otherwise r
      end
  end.

(** All right-hand sides are evaluated on the old row. *)
Definition update_row (values : list (string * Expr)) (r : row) : row :=
  foldl (fun acc '(column, e) => set_field column (eval_expr e r) acc) r values.

(** The primary key of no two rows is equal. *)
Fixpoint unique_keys (pk : string) (rows : list row) : bool :=
  match rows with
  | [] => true
  | r :: rows =>
      negb (existsb (fun r' => sql_eq (field pk r) (field pk r')) rows) && unique_keys pk rows
  end.
Definition primary_key_ok (t : DbTable) : bool :=
  match DbTable.primary_key t with
  | Some pk => unique_keys pk (DbTable.rows t)
  | None => true
  end.

Definition update_rows_of (table : string) (f : DbTable -> list row) (db : Db) : option Db :=
  t ← db !! table;
  let t' := t <| DbTable.rows := f t |> in
  if primary_key_ok t' then Some (<[table := t']> db) else None.

(** [None]: the statement cannot succeed. *)
Definition effect (s : Statement) (db : Db) : option Db :=
  match s with
  | Statement.Select table _ => match db !! table with Some _ => Some db | None => None end
  | Statement.Delete table cond =>
      update_rows_of table (fun t =>
        List.filter (fun r => negb (holds cond r)) (DbTable.rows t)) db
  | Statement.Update table values cond =>
      update_rows_of table (fun t =>
        (fun r => if holds cond r then update_row values r else r) <$> DbTable.rows t) db
  | Statement.Insert table columns rows | Statement.Copy table columns rows =>
      update_rows_of table (fun t => DbTable.rows t ++ (zip columns <$> rows)) db
  | Statement.InsertSelect table columns exprs cond =>
      update_rows_of table (fun t => DbTable.rows t ++
        ((fun r => zip columns ((fun e => eval_expr e r) <$> exprs)) <$>
          List.filter (holds cond) (DbTable.rows t))) db
  | Statement.CreateTable table columns pk if_not_exists =>
      match db !! table with
      | Some _ => if if_not_exists then Some db else None
      | None => if bool_decide (NoDup columns.*1)
                then Some (<[table := DbTable.mk columns.*1 pk []]> db) else None
      end
  end.
End Effect.

(** The engine: a statement fails for any reason, or has its effect; queries
    return the matching rows in any order. [row_of_batch] are the rows of a
    record batch, encoded for insertion. *)
Class SqlEngine `{External} `{!SqlCompare} : Type := {
  execute : Statement -> Db -> result Db;
  execute_effect s db db' : execute s db = Ok db' -> effect s db = Some db';
  select : string -> Cond -> Db -> result (list row);
  select_rows table cond db rows : select table cond db = Ok rows ->
    exists t, db !! table = Some t /\ rows ≡ₚ List.filter (holds cond) (DbTable.rows t);
  rows_of_batch : RecordBatch -> list string * list (list SqlValue);
}.

(** The engine that never fails without a reason *)
Definition demo_eq (a b : SqlValue) : bool :=
  match a, b with
  | SBool a, SBool b => Bool.eqb a b
  | SInt a, SInt b => Z.eqb a b
  | SText a, SText b => bool_decide (a = b)
  | SUuid a, SUuid b => Z.eqb a b
  | STime a, STime b => Z.eqb a b
  | _, _ => false
  end.
Definition demo_le (a b : SqlValue) : bool :=
  match a, b with SInt a, SInt b => Z.leb a b | STime a, STime b => Z.leb a b | _, _ => false end.
Lemma demo_eq_null v : demo_eq SNull v = false /\ demo_eq v SNull = false.
Proof. by destruct v. Qed.
#[export] Instance demo_compare : SqlCompare := {|
  sql_eq := demo_eq; sql_le := demo_le;
  sql_eq_int a b := eq_refl; sql_le_int a b := eq_refl;
  sql_eq_null := demo_eq_null;
|}.

Definition demo_execute (s : Statement) (db : Db) : result Db :=
  match effect s db with
  | Some db' => Ok db'
  | None =>
      match s with
      | Statement.CreateTable table _ _ _ => Err (Database false true (table +:+ " already exists"))
      | _ => Err (Database true false "constraint violation")
      end
  end.
Lemma demo_execute_effect s db db' : demo_execute s db = Ok db' -> effect s db = Some db'.
Proof. unfold demo_execute. intros H. destruct (effect s db); [by simplify_eq|by destruct s]. Qed.

Definition demo_select (table : string) (cond : Cond) (db : Db) : result (list row) :=
  match db !! table with
  | Some t => Ok (List.filter (holds cond) (DbTable.rows t))
  | None => Err (Database false false "no such table")
  end.
Lemma demo_select_rows table cond db rows : demo_select table cond db = Ok rows ->
  exists t, db !! table = Some t /\ rows ≡ₚ List.filter (holds cond) (DbTable.rows t).
Proof. unfold demo_select. intros H. case_match; [|done]. simplify_eq. eauto. Qed.

#[export] Instance demo_engine : SqlEngine := {|
  execute := demo_execute;
  execute_effect := demo_execute_effect;
  select := demo_select;
  select_rows := demo_select_rows;
  rows_of_batch n := (["row_id"], repeat [SInt 0] n);
|}.

(** ** [COPY] ([postgres_copy.rs])

    [NULL] has no type here: every nullable column of an entity is of a type
    [COPY] supports. *)
Definition postgres_copy_supports `{External} (rows : list (list SqlValue)) : bool :=
  forallb (fun v => match v with STime _ => false | _ => true end) (concat rows).

(** ** Conditions of batches ([batch.rs]) *)

Section Conditions.
Context `{EXT : External}.

Definition matching_row (keys : list string) (row : list SqlValue) : key_match := zip keys row.

Definition matching_rows (keys : list string) (rows : list (list SqlValue)) : Cond :=
  match keys with
  | [key] => Cond.IsIn key (omap head rows)
  | keys => Cond.Any (matching_row keys <$> rows)
  end.

(** [row_values\[index\]] of fixed-length arrays *)
Definition replacement_value (keys : list string) (rows : list (list SqlValue * list SqlValue))
    (index : nat) (column : string) : Expr :=
  Expr.Case ((fun '(row_keys, row_values) =>
    (matching_row keys row_keys, default SNull (row_values !! index))) <$> rows) column.
End Conditions.

(** ** Batches *)

Section Batches.
Context `{EXT : External}.

(** How many of the first [count] items fit into one statement; [None] when
    not even one does. [count] halves, so [count] steps are enough. *)
Fixpoint fitting_count {T} (fuel : nat) (limit : Z) (items : list T)
    (query : list T -> Statement) (count : nat) : option nat :=
  if (Z.of_nat (bind_count (query (take count items))) <=? limit)%Z then Some count
  else if Nat.eqb count 1 then None
  else match fuel with
       | 0 => None
       | S fuel => fitting_count fuel limit items query (count / 2)
       end.

Definition batch_error : DucklakeError :=
  Database false false "a single batch item exceeds the database bind parameter limit".

(** The statements for [items], in order; an [Err] ends the iteration. Every
    batch takes at least one item, so [length items] steps are enough. *)
Fixpoint batch_queries {T} (fuel : nat) (dialect : Dialect) (max_items : Z) (items : list T)
    (query : list T -> Statement) : list (result Statement) :=
  match fuel, items with
  | _, [] => []
  | 0, _ => []
  | S fuel, _ =>
      let count := Z.to_nat (Z.min (Z.of_nat (length items)) max_items) in
      match fitting_count count (Dialect.max_bind_params dialect) items query count with
      | Some count =>
          Ok (query (take count items)) ::
            batch_queries fuel dialect max_items (drop count items) query
      | None => [Err batch_error]
      end
  end.
End Batches.

(** ** The methods of a database transaction *)

Module Tx.
Section Tx.
Context `{EXT : External} `{CMP : !SqlCompare} `{ENGINE : !SqlEngine}.
Context (dialect : Dialect).

(** A failed statement leaves a transaction that can only be rolled back. *)
Definition exec (s : Statement) : method Db unit :=
  fun db => match execute s db with
            | Ok db' => (Ok tt, db')
            | Err e => (Err e, db)
            | Panic => (Panic, db)
            end.

Definition execute_batches {T} (max_items : Z) (items : list T) (query : list T -> Statement)
    : method Db unit :=
  st_for (fun q => s ← st_lift q; exec s)
    (batch_queries (length items) dialect max_items items query).

Definition delete_rows (table : string) (keys : list string) (rows : list (list SqlValue))
    : method Db unit :=
  max ← st_lift (Dialect.max_rows_per_key_batch dialect (length keys));
  execute_batches max rows (fun rows => Statement.Delete table (matching_rows keys rows)).

Definition update_matching_rows (table : string) (keys : list string)
    (rows : list (list SqlValue)) (values : list (string * SqlValue)) (filter : Cond)
    : method Db unit :=
  max ← st_lift (Dialect.max_rows_per_key_batch dialect (length keys));
  execute_batches max rows (fun rows =>
    Statement.Update table ((fun '(column, v) => (column, Expr.Val v)) <$> values)
      (Cond.And filter (matching_rows keys rows))).

Definition update_rows (table : string) (keys columns : list string)
    (rows : list (list SqlValue * list SqlValue)) : method Db unit :=
  max ← st_lift (Dialect.max_rows_per_key_batch dialect (length keys));
  execute_batches max rows (fun rows =>
    Statement.Update table
      (imap (fun index column => (column, replacement_value keys rows index column)) columns)
      (matching_rows keys rows.*1)).

(** The value a copied row gets in [column] *)
Definition copied_value (keys columns : list string) (fixed : list (string * SqlValue))
    (rows : list (list SqlValue * list SqlValue)) (column : string) : Expr :=
  match IndexMap.get column fixed with
  | Some v => Expr.Val v
  | None => match list_find (eq column) columns with
            | Some (index, _) => replacement_value keys rows index column
            | None => Expr.Col column
            end
  end.

Definition copy_rows_with_updates (table : string) (all_columns keys columns : list string)
    (rows : list (list SqlValue * list SqlValue)) (fixed : list (string * SqlValue))
    (filter : Cond) : method Db unit :=
  max ← st_lift (Dialect.max_rows_per_key_batch dialect (length keys));
  execute_batches max rows (fun rows =>
    Statement.InsertSelect table all_columns
      (copied_value keys columns fixed rows <$> all_columns)
      (Cond.And filter (matching_rows keys rows.*1))).

(** [by_ref().take(chunk_size)] until a chunk is empty *)
Fixpoint chunks {A} (fuel chunk_size : nat) (rows : list A) : list (list A) :=
  match fuel with
  | 0 => []
  | S fuel => match take chunk_size rows with
              | [] => []
              | chunk => chunk :: chunks fuel chunk_size (drop chunk_size rows)
              end
  end.

Definition insert_rows (table : string) (columns : list string) (rows : list (list SqlValue))
    : method Db unit :=
  if decide (rows = []) then mret tt
  else if decide (columns = []) then st_panic
  else
    let chunk_size := Z.to_nat (Dialect.max_bind_params dialect / Z.of_nat (length columns)) in
    if match dialect with
       | Dialect.Postgres => Nat.ltb chunk_size (length rows) && postgres_copy_supports rows
       | _ => false
       end
    then exec (Statement.Copy table columns rows)
    else st_for (fun chunk => exec (Statement.Insert table columns chunk))
           (chunks (length rows) chunk_size rows).

Definition insert_entities_into {E} `{!Entity E} (table : string) (entities : list E)
    : method Db unit :=
  insert_rows table (COLUMNS E) (into_values <$> entities).
Definition insert_entities {E} `{!Entity E} (entities : list E) : method Db unit :=
  insert_entities_into (TABLE E) entities.
Definition insert_entity {E} `{!Entity E} (entity : E) : method Db unit :=
  exec (Statement.Insert (TABLE E) (COLUMNS E) [into_values entity]).

(** Decoding a row that does not have the entity's columns is a database error. *)
Definition decode_rows {E} `{!Entity E} (rows : list row) : result (list E) :=
  map_outcome (fun r => ok_or (Database false false "column decoding error") (from_row r)) rows.

Definition fetch_rows {E} `{!Entity E} (keys : list string) (rows : list (list SqlValue))
    : method Db (list E) :=
  max ← st_lift (Dialect.max_rows_per_key_batch dialect (length keys));
  results ← st_map (fun q =>
      s ← st_lift q;
      db ← st_get;
      match s with
      | Statement.Select table cond =>
          rows ← st_lift (select table cond db); st_lift (decode_rows rows)
      | _ => st_panic
      end)
    (batch_queries (length rows) dialect max rows
      (fun rows => Statement.Select (TABLE E) (matching_rows keys rows)));
  mret (concat results).

(** Batches insert through one statement with a placeholder per value. *)
Definition insert_all_arrow (table : string) (batch : RecordBatch) : method Db unit :=
  let '(columns, rows) := rows_of_batch batch in
  if Nat.eqb (num_rows batch) 0 || Nat.eqb (length columns) 0 then mret tt
  else match dialect with
       | Dialect.MySql => st_panic
       | _ => exec (Statement.Insert table columns rows)
       end.
End Tx.
End Tx.
