(* ===== verification/PostgresCopy.v ===== *)
(** * The COPY stream ([db/postgres_copy.rs])

    Large batches of rows go to PostgreSQL as one text stream. The server's
    documented reading of the stream recovers exactly the values sent. *)

From S2P Require Import Prelude Text Regex Identifier Types Instances Entities Database.

Definition backslash : ascii := "\"%char.
Definition tab : ascii := "009"%char.
Definition newline : ascii := "010"%char.
Definition carriage_return : ascii := "013"%char.

(** The text form of a UUID; its characters are hexadecimal digits and dashes. *)
Class UuidText `{External} : Type := {
  uuid_to_string : Uuid -> string;
  uuid_plain u : Forall (fun c => c <> backslash /\ c <> tab /\ c <> newline /\ c <> carriage_return)
    (chars (uuid_to_string u));
}.

#[export] Program Instance demo_uuid_text : UuidText := {| uuid_to_string u := "0" |}.
Next Obligation. repeat constructor; discriminate. Qed.

Module PostgresCopy.
Section PostgresCopy.
Context `{EXT : External} `{UUID : !UuidText}.

(** *** Encoding *)

Definition escape_char (c : ascii) : text :=
  if decide (c = backslash) then [backslash; backslash]
  else if decide (c = tab) then [backslash; "t"%char]
  else if decide (c = newline) then [backslash; "n"%char]
  else if decide (c = carriage_return) then [backslash; "r"%char]
  else [c].
Definition escape (t : text) : text := t ≫= escape_char.

(** The arm for other types is [unreachable!]. *)
Definition encode_value (v : SqlValue) : result text :=
  match v with
  | SBool b => Ok (if b then ["t"%char] else ["f"%char])
  | SInt z => Ok (chars (i64_to_string z))
  | SUuid u => Ok (chars (uuid_to_string u))
  | SText s => Ok (escape (chars s))
  | SNull => Ok [backslash; "N"%char]
  | STime _ => Panic
  end.

Fixpoint join_fields (fields : list text) : text :=
  match fields with
  | [] => []
  | [f] => f
  | f :: fields => f ++ tab :: join_fields fields
  end.

Definition encode_row (row : list SqlValue) : result text :=
  fields ← map_outcome encode_value row;
  mret (join_fields fields ++ [newline]).

(** The stream of a batch *)
Definition encode_rows (rows : list (list SqlValue)) : result text :=
  lines ← map_outcome encode_row rows; mret (concat lines).

(** *** The server's reading (PostgreSQL documentation of COPY, text format)

    A backslash protects the next character from being a separator. An unprotected
    newline, carriage return, or carriage return with a newline ends a line; the line
    ends of a stream must be all alike. A line of backslash and period ends the data.
    An unprotected tab ends a field; a field that is backslash-N is [NULL]; backslash
    followed by b, f, n, r, t, v is that control character, by one to three octal
    digits or by x and one or two hexadecimal digits the character with that code,
    by another character that character. *)

Inductive LineEnd : Type := LF | CR | CRLF.
#[export] Instance LineEnd_eq_dec : EqDecision LineEnd.
Proof. solve_decision. Defined.

(** The terminated lines of a stream, each with its end, and what is left *)
Fixpoint split_lines (t cur : text) : list (text * LineEnd) * text :=
  match t with
  | [] => ([], cur)
  | c :: t =>
      if decide (c = backslash) then
        match t with
        | d :: t => split_lines t (cur ++ [c; d])
        | [] => ([], cur ++ [c])
        end
      else if decide (c = newline) then
        let '(lines, rest) := split_lines t [] in ((cur, LF) :: lines, rest)
      else if decide (c = carriage_return) then
        match t with
        | d :: t' =>
            if decide (d = newline) then
              let '(lines, rest) := split_lines t' [] in ((cur, CRLF) :: lines, rest)
            else let '(lines, rest) := split_lines t [] in ((cur, CR) :: lines, rest)
        | [] => ([(cur, CR)], [])
        end
      else split_lines t (cur ++ [c])
  end.

Fixpoint split_fields (t cur : text) : list text :=
  match t with
  | [] => [cur]
  | c :: t =>
      if decide (c = backslash) then
        match t with
        | d :: t => split_fields t (cur ++ [c; d])
        | [] => [cur ++ [c]]
        end
      else if decide (c = tab) then cur :: split_fields t []
      else split_fields t (cur ++ [c])
  end.

Definition control (c : ascii) : ascii :=
  if decide (c = "b"%char) then "008"%char
  else if decide (c = "f"%char) then "012"%char
  else if decide (c = "n"%char) then newline
  else if decide (c = "r"%char) then carriage_return
  else if decide (c = "t"%char) then tab
  else if decide (c = "v"%char) then "011"%char
  else c.

(** The value of a digit in a base of at most 16 *)
Definition digit (base : nat) (c : ascii) : option nat :=
  let n := nat_of_ascii c in
  let value := if (48 <=? n) && (n <=? 57) then Some (n - 48)
               else if (97 <=? n) && (n <=? 102) then Some (n - 87)
               else if (65 <=? n) && (n <=? 70) then Some (n - 55) else None in
  value ≫= fun v => if v <? base then Some v else None.
Definition octal : ascii -> option nat := digit 8.
Definition hex : ascii -> option nat := digit 16.

Fixpoint unescape (t : text) : text :=
  match t with
  | [] => []
  | c :: t =>
      if decide (c = backslash) then
        match t with
        | [] => [c]
        | d :: t1 =>
            match octal d with
            | Some v =>
                match t1 with
                | [] => [ascii_of_nat v]
                | e :: t2 =>
                    match octal e with
                    | None => ascii_of_nat v :: unescape t1
                    | Some w =>
                        match t2 with
                        | [] => [ascii_of_nat (8 * v + w)]
                        | f :: t3 =>
                            match octal f with
                            | None => ascii_of_nat (8 * v + w) :: unescape t2
                            | Some x => ascii_of_nat (8 * (8 * v + w) + x) :: unescape t3
                            end
                        end
                    end
                end
            | None =>
                match t1 with
                | [] => [control d]
                | e :: t2 =>
                    match (if decide (d = "x"%char) then hex e else None) with
                    | None => control d :: unescape t1
                    | Some v =>
                        match t2 with
                        | [] => [ascii_of_nat v]
                        | f :: t3 =>
                            match hex f with
                            | None => ascii_of_nat v :: unescape t2
                            | Some w => ascii_of_nat (16 * v + w) :: unescape t3
                            end
                        end
                    end
                end
            end
        end
      else c :: unescape t
  end.

Definition read_field (f : text) : option text :=
  if decide (f = [backslash; "N"%char]) then None else Some (unescape f).

(** The lines before the end-of-data marker *)
Fixpoint before_marker (lines : list text) : list text :=
  match lines with
  | [] => []
  | l :: lines => if decide (l = [backslash; "."%char]) then [] else l :: before_marker lines
  end.

Definition alike (ends : list LineEnd) : bool :=
  match ends with [] => true | e :: ends => forallb (fun e' => bool_decide (e' = e)) ends end.

(** The rows of a stream; an error is the absence. *)
Definition read_stream (t : text) : option (list (list (option text))) :=
  let '(lines, rest) := split_lines t [] in
  if alike lines.*2 then
    Some ((fun line => read_field <$> split_fields line [])
      <$> before_marker (lines.*1 ++ if decide (rest = []) then [] else [rest]))
  else None.

(** What a value is as input of its column's type; [NULL] is the absence. *)
Definition value_text (v : SqlValue) : option text :=
  match v with
  | SBool b => Some (if b then ["t"%char] else ["f"%char])
  | SInt z => Some (chars (i64_to_string z))
  | SUuid u => Some (chars (uuid_to_string u))
  | SText s => Some (chars s)
  | SNull | STime _ => None
  end.
End PostgresCopy.
End PostgresCopy.

Section RoundTrip.
Context `{EXT : External} `{UUID : !UuidText}.
Import PostgresCopy.

(** Text that is passed over when fields, or lines, are split *)
Definition in_field (t : text) : Prop :=
  forall rest cur, split_fields (t ++ rest) cur = split_fields rest (cur ++ t).
Definition in_line (t : text) : Prop :=
  forall rest cur, split_lines (t ++ rest) cur = split_lines rest (cur ++ t).

Lemma in_field_app t1 t2 : in_field t1 -> in_field t2 -> in_field (t1 ++ t2).
Proof. intros H1 H2 rest cur. by rewrite <-app_assoc, H1, H2, <-app_assoc. Qed.
Lemma in_line_app t1 t2 : in_line t1 -> in_line t2 -> in_line (t1 ++ t2).
Proof. intros H1 H2 rest cur. by rewrite <-app_assoc, H1, H2, <-app_assoc. Qed.

Lemma in_field_nil : in_field [].
Proof. intros rest cur. by rewrite app_nil_r. Qed.
Lemma in_line_nil : in_line [].
Proof. intros rest cur. by rewrite app_nil_r. Qed.

Lemma in_field_pair c : in_field [backslash; c].
Proof. intros rest cur. cbn [app split_fields]. by rewrite decide_True. Qed.
Lemma in_line_pair c : in_line [backslash; c].
Proof. intros rest cur. cbn [app split_lines]. by rewrite decide_True. Qed.

(** No separator, no backslash *)
Definition plain (c : ascii) : Prop :=
  c <> backslash /\ c <> tab /\ c <> newline /\ c <> carriage_return.

Lemma in_field_char c : c <> backslash -> c <> tab -> in_field [c].
Proof. intros Hb Hs rest cur. cbn [app split_fields]. by rewrite !decide_False. Qed.
Lemma in_line_char c : c <> backslash -> c <> newline -> c <> carriage_return -> in_line [c].
Proof. intros Hb Hn Hc rest cur. cbn [app split_lines]. by rewrite !decide_False. Qed.

(** Text whose pieces stay together on a line and in a field *)
Definition protected (t : text) : Prop := in_field t /\ in_line t.

Lemma protected_nil : protected [].
Proof. split; [apply in_field_nil|apply in_line_nil]. Qed.
Lemma protected_app t1 t2 : protected t1 -> protected t2 -> protected (t1 ++ t2).
Proof. intros [??] [??]. split; [by apply in_field_app|by apply in_line_app]. Qed.
Lemma protected_pair c : protected [backslash; c].
Proof. split; [apply in_field_pair|apply in_line_pair]. Qed.

Lemma protected_plain t : Forall plain t -> protected t.
Proof.
  induction 1 as [|c t (Hb & Ht & Hn & Hc) _ IH]; [apply protected_nil|].
  apply (protected_app [c]); [|done]. split; [by apply in_field_char|by apply in_line_char].
Qed.

Lemma escape_cons c t : escape (c :: t) = escape_char c ++ escape t.
Proof. done. Qed.

Lemma protected_escape t : protected (escape t).
Proof.
  induction t as [|c t IH]; [apply protected_nil|]. rewrite escape_cons.
  apply protected_app; [|done]. unfold escape_char.
  repeat (case_decide; [apply protected_pair|]).
  apply protected_plain. by repeat constructor.
Qed.

(** An escape that is neither a code in octal nor in hexadecimal digits *)
Lemma unescape_pair d t : octal d = None -> d <> "x"%char ->
  unescape (backslash :: d :: t) = control d :: unescape t.
Proof.
  intros Ho Hx. cbn [unescape]. rewrite decide_True by done. rewrite Ho.
  destruct t as [|e t]; [done|]. by rewrite decide_False.
Qed.

Lemma unescape_escape t : unescape (escape t) = t.
Proof.
  induction t as [|c t IH]; [done|]. rewrite escape_cons. unfold escape_char.
  repeat (case_decide; [subst; cbn [app]; rewrite unescape_pair by done; by rewrite IH|]).
  cbn [app unescape]. rewrite decide_False by done. by f_equal.
Qed.

Lemma unescape_plain t : Forall plain t -> unescape t = t.
Proof.
  induction 1 as [|c t (Hb & _) _ IH]; [done|]. cbn [unescape].
  rewrite decide_False by done. by f_equal.
Qed.

Lemma escape_not_null t : escape t <> [backslash; "N"%char].
Proof.
  destruct t as [|c t]; [done|]. rewrite escape_cons. unfold escape_char.
  repeat (case_decide; [by intros [= ?]|]). cbn. by intros [= -> _].
Qed.

Lemma read_plain t : Forall plain t -> read_field t = Some t.
Proof.
  intros Ht. unfold read_field. rewrite decide_False; [by rewrite unescape_plain|].
  intros ->. inversion Ht as [|? ? (Hb & _)]. done.
Qed.

(** Decimal text is plain. *)
Lemma uint_plain d : Forall plain (chars (NilEmpty.string_of_uint d)).
Proof. induction d; cbn; constructor; try done; repeat split; discriminate. Qed.
Lemma i64_plain z : Forall plain (chars (i64_to_string z)).
Proof.
  unfold i64_to_string. destruct (Z.to_int z) as [d|d]; cbn; [apply uint_plain|].
  constructor; [repeat split; discriminate|apply uint_plain].
Qed.

Lemma encode_value_spec v t :
  encode_value v = Ok t -> read_field t = value_text v /\ protected t.
Proof.
  destruct v as [|b|z|s|u|time]; cbn; intros [= <-].
  - split; [done|apply protected_pair].
  - assert (Forall plain (if b then ["t"%char] else ["f"%char])) as Hp.
    { destruct b; repeat constructor; discriminate. }
    split; [rewrite read_plain by done; by destruct b|by apply protected_plain].
  - split; [by rewrite read_plain by apply i64_plain|apply protected_plain, i64_plain].
  - split; [|apply protected_escape]. unfold read_field.
    rewrite decide_False by apply escape_not_null. by rewrite unescape_escape.
  - split; [by rewrite read_plain by apply uuid_plain|apply protected_plain, uuid_plain].
Qed.

Lemma split_join_fields fields cur :
  fields <> [] -> Forall in_field fields ->
  split_fields (join_fields fields) cur =
    match fields with f :: fields => (cur ++ f) :: fields | [] => [] end.
Proof.
  intros Hne Hf. revert cur. induction Hf as [|f fields Hp Hf IH]; [done|]. intros cur.
  destruct fields as [|f' fields].
  - cbn [join_fields]. rewrite <-(app_nil_r f) at 1. by rewrite Hp.
  - change (join_fields (f :: f' :: fields)) with (f ++ tab :: join_fields (f' :: fields)).
    rewrite Hp. cbn [split_fields]. rewrite decide_False by done. rewrite decide_True by done.
    by rewrite IH.
Qed.

Lemma in_line_join_fields fields : Forall in_line fields -> in_line (join_fields fields).
Proof.
  induction 1 as [|f fields Hp Hf IH]; [apply in_line_nil|].
  destruct fields as [|f' fields]; [done|].
  change (join_fields (f :: f' :: fields)) with (f ++ [tab] ++ join_fields (f' :: fields)).
  apply in_line_app; [done|]. apply in_line_app; [by apply in_line_char|done].
Qed.

Lemma split_terminated lines :
  Forall in_line lines ->
  split_lines (concat ((fun l => l ++ [newline]) <$> lines)) [] = ((fun l => (l, LF)) <$> lines, []).
Proof.
  induction 1 as [|l lines Hl _ IH]; [done|]. cbn [fmap list_fmap concat].
  rewrite <-app_assoc, Hl. cbn [app split_lines].
  rewrite decide_False by done. rewrite decide_True by done. by rewrite IH.
Qed.

Lemma alike_LF (lines : list text) : alike ((fun l => (l, LF)) <$> lines).*2 = true.
Proof.
  destruct lines as [|l lines]; [done|]. cbn. apply forallb_forall. intros e He.
  apply list_elem_of_In in He. rewrite <-list_fmap_compose in He.
  apply list_elem_of_fmap in He as (x & -> & _). done.
Qed.

(** A line is never the end-of-data marker: a backslash of a text is doubled. *)
Lemma encode_value_marker v : encode_value v <> Ok [backslash; "."%char].
Proof.
  assert (forall t, Forall plain t -> t <> [backslash; "."%char]) as Hplain.
  { intros t Ht ->. inversion Ht as [|? ? (Hb & _)]. done. }
  destruct v as [|b|z|s|u|time]; cbn; [done| | | | |done]; intros [= He]; revert He.
  - by destruct b.
  - apply Hplain, i64_plain.
  - destruct (chars s) as [|c t]; [done|]. rewrite escape_cons. unfold escape_char.
    repeat (case_decide; [by intros [= ?]|]). cbn. by intros [= -> _].
  - apply Hplain, uuid_plain.
Qed.

Lemma encode_row_spec row t :
  row <> [] -> encode_row row = Ok t ->
  exists line, t = line ++ [newline] /\ in_line line /\ line <> [backslash; "."%char] /\
    read_field <$> split_fields line [] = map value_text row.
Proof.
  intros Hne. unfold encode_row, mbind, outcome_bind.
  destruct (map_outcome encode_value row) as [fields| |] eqn:Hf; [|done..]. intros [= <-].
  apply map_outcome_Forall2 in Hf. exists (join_fields fields). split; [done|].
  assert (Forall protected fields /\ read_field <$> fields = map value_text row) as [Hp Hr].
  { clear Hne. induction Hf as [|v f row fields Hv _ (IH1 & IH2)]; [done|].
    apply encode_value_spec in Hv as [Hr Hp].
    split; [by constructor|]. cbn. by rewrite Hr, IH2. }
  apply Forall_and in Hp as [Hfields Hlines].
  split; [by apply in_line_join_fields|].
  assert (fields <> []) as Hnonempty by (intros ->; by inversion Hf).
  assert (split_fields (join_fields fields) [] = fields) as Hsplit.
  { rewrite split_join_fields by done. by destruct fields. }
  split; [|by rewrite Hsplit]. intros Hm. rewrite Hm in Hsplit. cbn in Hsplit. subst fields.
  inversion Hf as [|v ? ? ? Hv]. by apply (encode_value_marker v).
Qed.

Lemma before_no_marker lines :
  Forall (fun l => l <> [backslash; "."%char]) lines -> before_marker lines = lines.
Proof. induction 1 as [|l lines Hl _ IH]; [done|]. cbn. by rewrite decide_False, IH. Qed.

(** C17: the stream sent to PostgreSQL means the rows it was made from: read the
    way the server documents - newlines, carriage returns or both end lines and have
    to be all alike, a backslash and a period end the data, tabs separate, backslash
    escapes, backslash-N is [NULL] - it is accepted and yields for every row the text
    of each of its values, [NULL] only for [NULL], whatever tabs, newlines, carriage
    returns, backslashes, backslash-N or markers the texts contain. *)
Theorem copy_stream_reads_back (rows : list (list SqlValue)) (stream : text)
    (Hrows : Forall (fun row => row <> []) rows) (Hstream : encode_rows rows = Ok stream) :
  read_stream stream = Some (map (map value_text) rows).
Proof.
  revert Hstream. unfold encode_rows, mbind, outcome_bind.
  destruct (map_outcome encode_row rows) as [ts| |] eqn:Hl; [|done..]. intros [= <-].
  apply map_outcome_Forall2 in Hl.
  assert (exists lines, ts = (fun l => l ++ [newline]) <$> lines /\ Forall in_line lines /\
    Forall (fun l => l <> [backslash; "."%char]) lines /\
    (fun line => read_field <$> split_fields line []) <$> lines =
    map (map value_text) rows) as (lines & -> & Hp & Hm & Hr).
  { revert Hrows. induction Hl as [|row t rows ts Ht _ IH]; intros Hrows; [by exists []|].
    apply Forall_cons in Hrows as [Hrow Hrows]. destruct (IH Hrows) as (lines & -> & Hp & Hm & Hr).
    destruct (encode_row_spec row t Hrow Ht) as (line & -> & Hline & Hmarker & Hread).
    exists (line :: lines). split; [done|]. do 2 (split; [by constructor|]). cbn. by rewrite Hread, Hr. }
  unfold read_stream. rewrite split_terminated by done. rewrite alike_LF, decide_True, app_nil_r by done.
  rewrite <-list_fmap_compose, list_fmap_id. by rewrite before_no_marker, Hr.
Qed.

(** [supports] is what [encode_row] relies on: the encoding reaches its
    [unreachable!] for no batch that was accepted. *)
Theorem supported_rows_encode (rows : list (list SqlValue))
    (Hsup : postgres_copy_supports rows = true) : exists stream, encode_rows rows = Ok stream.
Proof.
  revert Hsup. unfold postgres_copy_supports, encode_rows. induction rows as [|row rows IH]; [by eexists|].
  cbn [concat map_outcome]. rewrite forallb_app. intros [Hrow Hrows]%andb_prop.
  destruct (IH Hrows) as [stream Hs]. assert (exists t, encode_row row = Ok t) as [t Ht].
  { clear -Hrow. unfold encode_row.
    assert (exists fields, map_outcome encode_value row = Ok fields) as [fields ->]; [|by eexists].
    induction row as [|v row IH]; [by eexists|]. cbn in Hrow. apply andb_prop in Hrow as [Hv Hrow].
    destruct (IH Hrow) as [fields Hf]. cbn. rewrite Hf.
    destruct v; cbn; try (eexists; reflexivity). done. }
  rewrite Ht. revert Hs. unfold mbind, outcome_bind.
  destruct (map_outcome encode_row rows); [by eexists|done..].
Qed.
End RoundTrip.

(** A text with a tab, a newline, a carriage return and backslash-N, and a [NULL] *)
Lemma copy_stream_reads_back_witness :
  PostgresCopy.read_stream (chars ("a\tb\nc\r\\N" +:+ of_chars [tab] +:+ "\N" +:+ of_chars [tab] +:+ "-5"
    +:+ of_chars [newline])) =
  Some [[Some (["a"%char; tab; "b"%char; newline; "c"%char; carriage_return; backslash; "N"%char]); None;
    Some ["-"%char; "5"%char]]].
Proof.
  exact (copy_stream_reads_back
    [[SText (of_chars ["a"%char; tab; "b"%char; newline; "c"%char; carriage_return; backslash; "N"%char]);
      SNull; SInt (-5)]]
    _ ltac:(repeat constructor; discriminate) ltac:(vm_compute; reflexivity)).
Defined.

(** A raw carriage return in a text would make the server refuse the stream. *)
Example raw_carriage_return_is_refused :
  PostgresCopy.read_stream (chars ("a" +:+ of_chars [carriage_return] +:+ "b" +:+ of_chars [newline])) = None.
Proof. reflexivity. Qed.

Lemma supported_rows_encode_witness :
  exists stream, PostgresCopy.encode_rows [[SText "x"; SNull; SBool true]] = Ok stream.
Proof. apply supported_rows_encode. reflexivity. Defined.
