(* ===== verification/Metadata.v ===== *)
(** * Configuration of the DuckLake ([caches/metadata.rs], [spec/metadata.rs])

    Options are rows of [ducklake_metadata], global or scoped to a schema or a
    table. The cache keeps them in maps; a change is written to the database
    first and then to the cache. *)

From Stdlib Require Import SpecFloat.
From S2P Require Import Prelude Text Regex Identifier Types Instances Entities Dialect Database.

(** ** Keys ([spec/metadata.rs]) *)

Module keys.
Definition VERSION : string := "version".
Definition CREATED_BY : string := "created_by".
Definition TABLE : string := "table".
Definition DATA_PATH : string := "data_path".
Definition ENCRYPTED : string := "encrypted".
Definition DATA_INLINING_ROW_LIMIT : string := "data_inlining_row_limit".
Definition TARGET_FILE_SIZE : string := "target_file_size".
Definition PARQUET_ROW_GROUP_SIZE_BYTES : string := "parquet_row_group_size_bytes".
Definition PARQUET_ROW_GROUP_SIZE : string := "parquet_row_group_size".
Definition PARQUET_COMPRESSION : string := "parquet_compression".
Definition PARQUET_COMPRESSION_LEVEL : string := "parquet_compression_level".
Definition PARQUET_VERSION : string := "parquet_version".
Definition HIVE_FILE_PATTERN : string := "hive_file_pattern".
Definition REWRITE_DELETE_THRESHOLD : string := "rewrite_delete_threshold".
Definition DELETE_OLDER_THAN : string := "delete_older_than".
Definition EXPIRE_OLDER_THAN : string := "expire_older_than".
Definition AUTO_COMPACT : string := "auto_compact".
End keys.

Definition u64_from_str : string -> option Z := uint_from_str (2 ^ 64 - 1).

(** [f64::from_str] *)
Class FloatText : Type := { f64_from_str : string -> option spec_float }.

(** The default of [delete_older_than], two days of [chrono::Duration] *)
Class Durations `{External} : Type := { DEFAULT_DELETE_OLDER_THAN : Interval.t }.

Module GlobalMetadata.
Record t : Type := mk { data_path : string; encrypted : bool }.
End GlobalMetadata.

Module TableMetadata.
Record t : Type := mk {
  data_inlining_row_limit : Z;
  target_file_size : Z;
  parquet_row_group_size_bytes : option Z;
  parquet_row_group_size : Z;
  parquet_compression : string;
  parquet_compression_level : Z;
  parquet_version : Z;
  hive_file_pattern : bool;
  rewrite_delete_threshold : spec_float;
  auto_compact : bool;
}.
End TableMetadata.

(** [0.95], the nearest binary64 number *)
Definition DEFAULT_REWRITE_DELETE_THRESHOLD : spec_float :=
  S754_finite false 8556839292003942 (-53).

Module Metadata.
Record t : Type := mk {
  global : gmap string string;
  schema : gmap Z (gmap string string);
  table : gmap Z (gmap string string);
}.
Definition eta (m : t) : t := mk (global m) (schema m) (table m).
#[export] Instance set_global : Setter global := ltac:(mk_setter eta global).
#[export] Instance set_schema : Setter schema := ltac:(mk_setter eta schema).
#[export] Instance set_table : Setter table := ltac:(mk_setter eta table).

(** [entry(id).or_default().insert(key, value)] *)
Definition insert_scoped (id : Z) (key value : string) (m : gmap Z (gmap string string))
    : gmap Z (gmap string string) :=
  <[id := <[key := value]> (default ∅ (m !! id))]> m.

(** [if let Some(meta) = map.get_mut(&id) { meta.remove(key); }] *)
Definition remove_scoped (id : Z) (key : string) (m : gmap Z (gmap string string))
    : gmap Z (gmap string string) :=
  match m !! id with Some meta => <[id := delete key meta]> m | None => m end.

(** [Metadata::new]; the unwrap of a missing [scope_id] panics. *)
Definition scoped_entries `{External} (entries : list DucklakeMetadata)
    : result (gmap Z (gmap string string)) :=
  fold_outcome (fun m e =>
    id ← unwrap (DucklakeMetadata.scope_id e);
    mret (insert_scoped id (DucklakeMetadata.key e) (DucklakeMetadata.value e) m)) ∅ entries.

Definition is_global (e : DucklakeMetadata) : bool :=
  match DucklakeMetadata.scope e with None => true | Some _ => false end.
Definition is_schema (e : DucklakeMetadata) : bool :=
  bool_decide (DucklakeMetadata.scope e = Some "schema").

Definition new `{External} (entries : list DucklakeMetadata) : result t :=
  let global_entries := List.filter is_global entries in
  let other_entries := List.filter (fun e => negb (is_global e)) entries in
  let schema_entries := List.filter is_schema other_entries in
  let table_entries := List.filter (fun e => negb (is_schema e)) other_entries in
  schema ← scoped_entries schema_entries;
  table ← scoped_entries table_entries;
  mret (mk (foldl (fun m e => <[DucklakeMetadata.key e := DucklakeMetadata.value e]> m) ∅
              global_entries) schema table).

(** ** Reading *)

Definition get_key (self : t) (key : string) (schema_id table_id : option Z) : option string :=
  match table_id ≫= fun id => table self !! id ≫= fun m => m !! key with
  | Some value => Some value
  | None =>
      match schema_id ≫= fun id => schema self !! id ≫= fun m => m !! key with
      | Some value => Some value
      | None => global self !! key
      end
  end.

Section Accessors.
Context `{EXT : External} `{FT : !FloatText} `{TXT : !ValueText} `{DUR : !Durations}.

(** [DucklakePath::default] is the empty relative path. *)
Definition data_path (self : t) : result DucklakePath :=
  match global self !! keys.DATA_PATH with
  | Some s => match DucklakePath.from_str s with Ok p => Ok p | _ => Panic end
  | None => Ok (DucklakePath.Relative "")
  end.

Definition encrypted (self : t) : bool :=
  bool_decide (global self !! keys.ENCRYPTED = Some "true").

Definition global_metadata (self : t) : result GlobalMetadata.t :=
  p ← data_path self; mret (GlobalMetadata.mk (DucklakePath.as_str p) (encrypted self)).

Definition parse_interval (s : string) : option Interval.t :=
  match value_parse DataType.Interval s with Ok (Some (Value.Interval i)) => Some i | _ => None end.

Definition expire_older_than (self : t) : option Interval.t :=
  global self !! keys.EXPIRE_OLDER_THAN ≫= parse_interval.
Definition delete_older_than (self : t) : Interval.t :=
  default DEFAULT_DELETE_OLDER_THAN (global self !! keys.DELETE_OLDER_THAN ≫= parse_interval).

Definition table_metadata (self : t) (schema_id table_id : option Z) : TableMetadata.t :=
  let key k := get_key self k schema_id table_id in
  let flag k d := default d ((fun s => bool_decide (s = "true")) <$> key k) in
  TableMetadata.mk
    (default 10%Z (key keys.DATA_INLINING_ROW_LIMIT ≫= u64_from_str))
    (default (512 * 1024 * 1024)%Z (key keys.TARGET_FILE_SIZE ≫= u64_from_str))
    (key keys.PARQUET_ROW_GROUP_SIZE_BYTES ≫= u64_from_str)
    (default 122880%Z (key keys.PARQUET_ROW_GROUP_SIZE ≫= u64_from_str))
    (default "snappy" (key keys.PARQUET_COMPRESSION))
    (default 3%Z (key keys.PARQUET_COMPRESSION_LEVEL ≫= i64_from_str))
    (default 1%Z (key keys.PARQUET_VERSION ≫= i64_from_str))
    (flag keys.HIVE_FILE_PATTERN true)
    (default DEFAULT_REWRITE_DELETE_THRESHOLD (key keys.REWRITE_DELETE_THRESHOLD ≫= f64_from_str))
    (flag keys.AUTO_COMPACT true).
End Accessors.
End Metadata.
#[export] Existing Instances Metadata.set_global Metadata.set_schema Metadata.set_table.
Abbreviation Metadata := Metadata.t.

(** ** Changing ([MetadataCache])

    The pool's database and the cached options. [begin_error] and
    [commit_error] are what the database answers to [BEGIN] and [COMMIT]. *)

Module MetadataCache.
Record t `{External} : Type := mk { db : Db; metadata : Metadata }.
#[global] Arguments mk {_} db metadata.
Definition eta `{External} (c : t) : t := mk (db c) (metadata c).
#[export] Instance set_db `{External} : Setter db := ltac:(mk_setter eta db).
#[export] Instance set_metadata `{External} : Setter metadata := ltac:(mk_setter eta metadata).

Definition READ_ONLY_KEYS : list string :=
  [keys.VERSION; keys.CREATED_BY; keys.TABLE; keys.DATA_PATH; keys.ENCRYPTED].

Section MetadataCache.
Context `{EXT : External} `{CMP : !SqlCompare} `{ENGINE : !SqlEngine}.
Context (begin_error commit_error : option DucklakeError).

Definition option_cond {A} `{!ToSql A} (column : string) (v : option A) : Cond :=
  match v with Some v => Cond.Eq column (to_sql v) | None => Cond.IsNull column end.

Definition delete_entry (key : string) (scope : option string) (scope_id : option Z) : Statement :=
  Statement.Delete (TABLE DucklakeMetadata)
    (Cond.And (Cond.And (Cond.Eq "key" (to_sql key)) (option_cond "scope" scope))
      (option_cond "scope_id" scope_id)).

Definition write_entry (key : string) (value : option string) (scope : option string)
    (scope_id : option Z) : method Db unit :=
  Tx.exec (delete_entry key scope scope_id) ;;
  st_when_some (fun value => Tx.insert_entity (DucklakeMetadata.mk key value scope scope_id)) value.

Definition update (key : string) (value : option string) (scope : option string)
    (scope_id : option Z) : method t unit :=
  if decide (key ∈ READ_ONLY_KEYS) then st_throw (ReadOnlyMetadata key)
  else fun self =>
    match begin_error with
    | Some e => (Err e, self)
    | None =>
        match write_entry key value scope scope_id (db self) with
        | (Ok _, db') =>
            match commit_error with
            | Some e => (Err e, self)
            | None => (Ok tt, self <| db := db' |>)
            end
        | (res, _) => (res, self)
        end
    end.

Definition set_global (key value : string) : method t unit :=
  update key (Some value) None None ;;
  st_modify (fun self => self <| metadata ::= fun m => m <| Metadata.global ::= <[key := value]> |> |>).
Definition set_schema (schema_id : Z) (key value : string) : method t unit :=
  update key (Some value) (Some "schema") (Some schema_id) ;;
  st_modify (fun self => self <| metadata ::=
    fun m => m <| Metadata.schema ::= Metadata.insert_scoped schema_id key value |> |>).
Definition set_table (table_id : Z) (key value : string) : method t unit :=
  update key (Some value) (Some "table") (Some table_id) ;;
  st_modify (fun self => self <| metadata ::=
    fun m => m <| Metadata.table ::= Metadata.insert_scoped table_id key value |> |>).
Definition unset_global (key : string) : method t unit :=
  update key None None None ;;
  st_modify (fun self => self <| metadata ::= fun m => m <| Metadata.global ::= delete key |> |>).
Definition unset_schema (schema_id : Z) (key : string) : method t unit :=
  update key None (Some "schema") (Some schema_id) ;;
  st_modify (fun self => self <| metadata ::=
    fun m => m <| Metadata.schema ::= Metadata.remove_scoped schema_id key |> |>).
Definition unset_table (table_id : Z) (key : string) : method t unit :=
  update key None (Some "table") (Some table_id) ;;
  st_modify (fun self => self <| metadata ::=
    fun m => m <| Metadata.table ::= Metadata.remove_scoped table_id key |> |>).

(** [Metadata::load] and [MetadataCache::new] *)
Definition load (db : Db) : result Metadata :=
  rows ← select (TABLE DucklakeMetadata) (Cond.Any [[]]) db;
  entries ← Tx.decode_rows rows;
  Metadata.new entries.
Definition new (db : Db) : result t := metadata ← load db; mret (mk db metadata).
End MetadataCache.
End MetadataCache.
#[export] Existing Instances MetadataCache.set_db MetadataCache.set_metadata.
