(* ===== verification/MetadataFacts.v ===== *)
(** * The cached options mirror the database ([caches/metadata.rs])

    However options are set and unset, and whichever of the changes fail, the
    cache answers as a fresh load of the database would. *)

From Stdlib Require Import SpecFloat.
From S2P Require Import Prelude Text Regex Identifier Types Instances Entities Dialect Database.
From S2P Require Import Metadata.

Section Coherence.
Context `{EXT : External} `{CMP : !SqlCompare} `{ENGINE : !SqlEngine}.
Implicit Types (e : DucklakeMetadata) (m : Metadata) (self : MetadataCache.t).

(** ** Addresses of options *)

Abbreviation address := (string * option string * option Z)%type.

Definition address_of e : address :=
  (DucklakeMetadata.key e, DucklakeMetadata.scope e, DucklakeMetadata.scope_id e).

Definition valid_address (a : address) : Prop :=
  match a with
  | (_, None, None) => True
  | (_, Some scope, Some _) => scope = "schema" \/ scope = "table"
  | _ => False
  end.

(** The option at an address: in the cache, and in the rows *)
Definition cached m (a : address) : option string :=
  match a with
  | (key, None, _) => Metadata.global m !! key
  | (key, Some scope, Some id) =>
      (if decide (scope = "schema") then Metadata.schema m else Metadata.table m) !! id
        ≫= fun scoped => scoped !! key
  | (_, Some _, None) => None
  end.
Definition stored (entries : list DucklakeMetadata) (a : address) : option string :=
  DucklakeMetadata.value <$> List.find (fun e => bool_decide (address_of e = a)) entries.

Record well_scoped (entries : list DucklakeMetadata) : Prop := {
  scoped_valid : Forall (fun e => valid_address (address_of e)) entries;
  scoped_unique : NoDup (address_of <$> entries);
}.

Lemma stored_None entries a : a ∉ address_of <$> entries -> stored entries a = None.
Proof.
  induction entries as [|e entries IH]; intros Ha; [done|]; unfold stored in *; cbn in *.
  rewrite bool_decide_false by set_solver; apply IH; set_solver.
Qed.
Lemma stored_cons e entries a :
  stored (e :: entries) a =
    if decide (address_of e = a) then Some (DucklakeMetadata.value e) else stored entries a.
Proof. unfold stored; cbn; case_decide; [by rewrite bool_decide_true|by rewrite bool_decide_false]. Qed.
Lemma stored_app l1 l2 a :
  stored (l1 ++ l2) a = match stored l1 a with Some v => Some v | None => stored l2 a end.
Proof. induction l1 as [|e l1 IH]; cbn [app]; [done|]; rewrite !stored_cons; by case_decide. Qed.
Lemma stored_filter (f : DucklakeMetadata -> bool) entries a :
  (forall e, address_of e = a -> f e = true) ->
  stored (List.filter f entries) a = stored entries a.
Proof.
  intros Hf; induction entries as [|e entries IH]; [done|]; cbn [List.filter].
  destruct (f e) eqn:He; rewrite !stored_cons; case_decide; try done.
  by rewrite Hf in He.
Qed.
Lemma stored_filter_other (f : DucklakeMetadata -> bool) entries a :
  (forall e, address_of e = a -> f e = false) -> stored (List.filter f entries) a = None.
Proof.
  intros Hf; apply stored_None; intros (e & -> & He)%list_elem_of_fmap.
  apply list_elem_of_In, filter_In in He as [_ He]; by rewrite Hf in He.
Qed.

Lemma filter_subset {A} (f : A -> bool) l : List.filter f l ⊆ l.
Proof. intros x Hx%list_elem_of_In; apply filter_In in Hx as [Hx _]; by apply list_elem_of_In. Qed.

Lemma well_scoped_filter (f : DucklakeMetadata -> bool) entries :
  well_scoped entries -> well_scoped (List.filter f entries).
Proof.
  intros [Hv Hu]; split.
  - rewrite Forall_forall in *; intros e He; apply Hv; by apply (filter_subset f).
  - clear Hv; induction entries as [|e entries IH]; [done|]; cbn in *.
    apply NoDup_cons in Hu as [He Hu]; destruct (f e); cbn; [|auto].
    apply NoDup_cons; split; [|auto]; intros (e' & Ha & He')%list_elem_of_fmap; apply He.
    apply list_elem_of_fmap; exists e'; split; [done|]; by apply (filter_subset f).
Qed.

(** ** [Metadata::new] *)

Definition scoped_value (scopes : gmap Z (gmap string string)) (id : Z) (key : string) : option string :=
  scopes !! id ≫= fun scoped => scoped !! key.

Lemma insert_scoped_value (scopes : gmap Z (gmap string string)) id key value id' key' :
  scoped_value (Metadata.insert_scoped id key value scopes) id' key' =
    if decide (id = id' /\ key = key') then Some value else scoped_value scopes id' key'.
Proof.
  unfold scoped_value, Metadata.insert_scoped; destruct (decide (id = id')) as [<-|Hid].
  - rewrite lookup_insert_eq; cbn [mbind option_bind].
    destruct (decide (key = key')) as [<-|Hk].
    + by rewrite lookup_insert_eq, decide_True.
    + rewrite lookup_insert_ne, decide_False by naive_solver.
      by destruct (scopes !! id).
  - by rewrite lookup_insert_ne, decide_False by naive_solver.
Qed.
Lemma remove_scoped_value (scopes : gmap Z (gmap string string)) id key id' key' :
  scoped_value (Metadata.remove_scoped id key scopes) id' key' =
    if decide (id = id' /\ key = key') then None else scoped_value scopes id' key'.
Proof.
  unfold scoped_value, Metadata.remove_scoped; destruct (scopes !! id) as [scoped|] eqn:Hm.
  - destruct (decide (id = id')) as [<-|Hid].
    + rewrite lookup_insert_eq, Hm; cbn [mbind option_bind].
      destruct (decide (key = key')) as [<-|Hk].
      * by rewrite lookup_delete_eq, decide_True.
      * by rewrite lookup_delete_ne, decide_False by naive_solver.
    + by rewrite lookup_insert_ne, decide_False by naive_solver.
  - case_decide as H; [destruct H as [<- _]; by rewrite Hm|done].
Qed.

(** The entries of one kind of scope, read back from the nested maps *)
Lemma scoped_entries_value scope entries acc :
  Forall (fun e => DucklakeMetadata.scope e = Some scope /\
                   is_Some (DucklakeMetadata.scope_id e)) entries ->
  NoDup (address_of <$> entries) ->
  exists scopes,
    fold_outcome (E := DucklakeError) (fun nested e =>
      id ← unwrap (DucklakeMetadata.scope_id e);
      mret (Metadata.insert_scoped id (DucklakeMetadata.key e) (DucklakeMetadata.value e) nested))
      acc entries = Ok scopes /\
    forall id key, scoped_value scopes id key =
      match stored entries (key, Some scope, Some id) with
      | Some v => Some v
      | None => scoped_value acc id key
      end.
Proof.
  revert acc; induction entries as [|e entries IH]; intros acc Hs Hu; [by exists acc|].
  inversion Hs as [|? ? [Hscope [i Hi]] Hs']; subst; cbn in Hu; apply NoDup_cons in Hu as [Hnin Hu].
  cbn [fold_outcome]; rewrite Hi; cbn [unwrap mbind outcome_bind mret outcome_ret].
  destruct (IH (Metadata.insert_scoped i (DucklakeMetadata.key e) (DucklakeMetadata.value e) acc) Hs' Hu)
    as (scopes & Hf & Hv).
  exists scopes; split; [exact Hf|]; intros id key; rewrite Hv, stored_cons, insert_scoped_value.
  assert (address_of e = (DucklakeMetadata.key e, Some scope, Some i)) as Ha.
  { unfold address_of; by rewrite Hscope, Hi. }
  destruct (decide (i = id /\ DucklakeMetadata.key e = key)) as [[<- <-]|Hne].
  - rewrite (decide_True (P := address_of e = _)) by done.
    by rewrite stored_None by by rewrite <- Ha.
  - rewrite (decide_False (P := address_of e = _)); [by destruct (stored entries _)|].
    rewrite Ha; naive_solver.
Qed.

Lemma global_entries_value entries (acc : gmap string string) key :
  Forall (fun e => DucklakeMetadata.scope e = None /\ DucklakeMetadata.scope_id e = None) entries ->
  NoDup (address_of <$> entries) ->
  foldl (fun options e => <[DucklakeMetadata.key e := DucklakeMetadata.value e]> options) acc entries
    !! key =
    match stored entries (key, None, None) with Some v => Some v | None => acc !! key end.
Proof.
  revert acc; induction entries as [|e entries IH]; intros acc Hs Hu; [done|].
  inversion Hs as [|? ? [Hscope Hid] Hs']; subst; cbn in Hu; apply NoDup_cons in Hu as [Hnin Hu].
  cbn [foldl]; rewrite IH by done; rewrite stored_cons.
  assert (address_of e = (DucklakeMetadata.key e, None, None)) as Ha.
  { unfold address_of; by rewrite Hscope, Hid. }
  destruct (decide (DucklakeMetadata.key e = key)) as [<-|Hne].
  - rewrite decide_True, lookup_insert_eq by done.
    by rewrite stored_None by by rewrite <- Ha.
  - rewrite decide_False by (rewrite Ha; naive_solver).
    rewrite lookup_insert_ne by done; by destruct (stored entries _).
Qed.

Lemma Forall_filter_and {A} (f : A -> bool) (P Q : A -> Prop) l :
  (forall x, f x = true -> P x -> Q x) -> Forall P l -> Forall Q (List.filter f l).
Proof.
  intros H Hl; rewrite Forall_forall in *; intros x Hx%list_elem_of_In.
  apply filter_In in Hx as [Hx%list_elem_of_In Hf]; eauto.
Qed.

Lemma new_cached entries :
  well_scoped entries -> exists m, Metadata.new entries = Ok m /\
    forall a, valid_address a -> cached m a = stored entries a.
Proof.
  intros Hw; pose proof Hw as [Hv _].
  pose (other := List.filter (fun e => negb (Metadata.is_global e)) entries).
  assert (well_scoped other) as Ho by by apply well_scoped_filter.
  assert (Forall (fun e => valid_address (address_of e) /\ Metadata.is_global e = false) other) as Hov.
  { apply (Forall_filter_and _ (fun e => valid_address (address_of e))); [|done].
    intros e He ?; by destruct (Metadata.is_global e). }
  pose (of_scope := fun scope e => DucklakeMetadata.scope e = Some scope /\
                                    is_Some (DucklakeMetadata.scope_id e)).
  assert (forall e, valid_address (address_of e) /\ Metadata.is_global e = false ->
    if Metadata.is_schema e then of_scope "schema" e else of_scope "table" e) as Hkind.
  { unfold of_scope, Metadata.is_schema, Metadata.is_global; intros [? ? [scope|] [id|]] [He ?];
      cbn in *; try done; case_bool_decide; naive_solver. }
  destruct (scoped_entries_value "schema" (List.filter Metadata.is_schema other) ∅)
    as (schemas & Hschemas & Hsv).
  { eapply Forall_filter_and; [|exact Hov]; intros e Hs He; specialize (Hkind e He).
    by rewrite Hs in Hkind. }
  { by apply well_scoped_filter. }
  destruct (scoped_entries_value "table" (List.filter (fun e => negb (Metadata.is_schema e)) other) ∅)
    as (tables & Htables & Htv).
  { eapply Forall_filter_and; [|exact Hov]; intros e Hs He; specialize (Hkind e He).
    by destruct (Metadata.is_schema e). }
  { by apply well_scoped_filter. }
  eexists; split.
  { unfold Metadata.new, Metadata.scoped_entries; fold other; rewrite Hschemas; cbn.
    rewrite Htables; reflexivity. }
  intros [[key [scope|]] [id|]] Ha; cbn in Ha; try done; cbn [cached Metadata.schema Metadata.table].
  - assert (forall P, (forall e, address_of e = (key, Some scope, Some id) -> P e = true) ->
      stored (List.filter P other) (key, Some scope, Some id) =
        stored entries (key, Some scope, Some id)) as Hst.
    { intros P HP; rewrite stored_filter by done; apply stored_filter; unfold address_of.
      intros e [= _ He _]; unfold Metadata.is_global; by rewrite He. }
    destruct Ha as [-> | ->]; cbn [decide].
    + change (scoped_value schemas id key = stored entries (key, Some "schema", Some id)).
      rewrite Hsv, Hst; [by destruct (stored _ _)|].
      unfold address_of, Metadata.is_schema; intros e [= _ He _]; by rewrite He.
    + change (scoped_value tables id key = stored entries (key, Some "table", Some id)).
      rewrite Htv, Hst; [by destruct (stored _ _)|].
      unfold address_of, Metadata.is_schema; intros e [= _ He _]; by rewrite He.
  - cbn [Metadata.global]; rewrite (global_entries_value _ ∅).
    + rewrite stored_filter; [by destruct (stored _ _)|].
      unfold address_of, Metadata.is_global; intros e [= _ He _]; by rewrite He.
    + eapply Forall_filter_and; [|exact Hv]; unfold Metadata.is_global.
      by intros [? ? [scope|] [id|]] He Hva.
    + by apply well_scoped_filter.
Qed.

(** ** The rows of the table *)

Definition table_entries (db : Db) (entries : list DucklakeMetadata) : Prop :=
  exists t, db !! TABLE DucklakeMetadata = Some t /\ DbTable.primary_key t = None /\
    Forall2 (fun r e => from_row r = Some e) (DbTable.rows t) entries /\ well_scoped entries.

(** Text compares as text; SQLite and PostgreSQL do so unless told otherwise. *)
Definition exact_text : Prop := forall s s', sql_eq (SText s) (SText s') = bool_decide (s = s').

Lemma field_of_text column r s :
  get_column column r = Some s -> field column r = SText s.
Proof.
  unfold get_column, field; destruct (IndexMap.get column r) as [v|]; [|done]; cbn.
  destruct v; intros [=]; by subst.
Qed.
Lemma field_of_option_text column r (o : option string) :
  get_column column r = Some o -> field column r = option_to_sql o.
Proof.
  unfold get_column, field; destruct (IndexMap.get column r) as [v|]; [|done]; cbn.
  destruct v; intros [=]; by subst.
Qed.
Lemma field_of_option_int column r (o : option Z) :
  get_column column r = Some o -> field column r = option_to_sql o.
Proof.
  unfold get_column, field; destruct (IndexMap.get column r) as [v|]; [|done]; cbn.
  destruct v; intros [=]; by subst.
Qed.

Lemma metadata_fields r e :
  from_row r = Some e ->
  field "key" r = SText (DucklakeMetadata.key e) /\
  field "scope" r = option_to_sql (DucklakeMetadata.scope e) /\
  field "scope_id" r = option_to_sql (DucklakeMetadata.scope_id e).
Proof.
  cbn; destruct (get_column "key" r) as [key|] eqn:Hk; cbn; [|done].
  destruct (get_column "value" r) as [value|] eqn:Hv; cbn; [|done].
  destruct (get_column "scope" r) as [scope|] eqn:Hs; cbn; [|done].
  destruct (get_column "scope_id" r) as [scope_id|] eqn:Hi; cbn; [|done].
  intros [= <-]; cbn; split_and!;
    [by apply field_of_text|by apply field_of_option_text|by apply field_of_option_int].
Qed.

Lemma option_cond_holds_text column r (o o' : option string) :
  exact_text -> field column r = option_to_sql o ->
  holds (MetadataCache.option_cond column o') r = bool_decide (o = o').
Proof.
  intros Ht Hf; destruct o' as [s|]; cbn [MetadataCache.option_cond holds]; rewrite Hf.
  - destruct o as [s'|]; cbn.
    + rewrite Ht; apply bool_decide_ext; naive_solver.
    + by rewrite (proj1 (sql_eq_null _)).
  - by destruct o.
Qed.
Lemma option_cond_holds_int column r (o o' : option Z) :
  field column r = option_to_sql o ->
  holds (MetadataCache.option_cond column o') r = bool_decide (o = o').
Proof.
  intros Hf; destruct o' as [i|]; cbn [MetadataCache.option_cond holds]; rewrite Hf.
  - destruct o as [i'|]; cbn.
    + rewrite sql_eq_int; destruct (Z.eqb_spec i' i); [by rewrite bool_decide_true by congruence|].
      rewrite bool_decide_false; [done|congruence].
    + by rewrite (proj1 (sql_eq_null _)).
  - by destruct o.
Qed.

Definition delete_cond (key : string) (scope : option string) (id : option Z) : Cond :=
  Cond.And (Cond.And (Cond.Eq "key" (to_sql key)) (MetadataCache.option_cond "scope" scope))
    (MetadataCache.option_cond "scope_id" id).

Lemma delete_cond_holds r e key scope id :
  exact_text -> from_row r = Some e ->
  holds (delete_cond key scope id) r = bool_decide (address_of e = (key, scope, id)).
Proof.
  intros Ht (Hk & Hs & Hi)%metadata_fields; unfold delete_cond; cbn [holds].
  rewrite Hk, (option_cond_holds_text _ _ _ _ Ht Hs), (option_cond_holds_int _ _ _ _ Hi).
  change (to_sql key) with (SText key); rewrite Ht.
  unfold address_of; repeat case_bool_decide; naive_solver.
Qed.

Lemma Forall2_filter_rows {A B} (P : A -> B -> Prop) (f : A -> bool) (g : B -> bool) l k :
  (forall x y, P x y -> f x = g y) -> Forall2 P l k ->
  Forall2 P (List.filter f l) (List.filter g k).
Proof.
  intros Hfg; induction 1 as [|x y l k Hxy _ IH]; cbn; [done|].
  rewrite (Hfg x y Hxy); destruct (g y); [by constructor|done].
Qed.

(** The entries after a change of the option at [a] *)
Definition changed (a : address) (value : option string) (entries : list DucklakeMetadata)
    : list DucklakeMetadata :=
  List.filter (fun e => negb (bool_decide (address_of e = a))) entries ++
  match value with Some v => [DucklakeMetadata.mk a.1.1 v a.1.2 a.2] | None => [] end.

Lemma changed_well_scoped a value entries :
  valid_address a -> well_scoped entries -> well_scoped (changed a value entries).
Proof.
  intros Ha Hw; unfold changed; destruct value as [v|]; [|rewrite app_nil_r; by apply well_scoped_filter].
  destruct (well_scoped_filter (fun e => negb (bool_decide (address_of e = a))) entries Hw) as [Hv Hu].
  split.
  - apply Forall_app; split; [done|]; constructor; [|done]; by destruct a as [[? ?] ?].
  - rewrite fmap_app; apply NoDup_app; split_and!; [done| |apply NoDup_singleton].
    intros b (e & -> & He)%list_elem_of_fmap Hin; cbn in Hin.
    apply list_elem_of_singleton in Hin.
    apply list_elem_of_In, filter_In in He as [_ He].
    rewrite bool_decide_true in He; [done|]; rewrite Hin; by destruct a as [[? ?] ?].
Qed.

Lemma changed_stored a value entries b :
  stored (changed a value entries) b = if decide (a = b) then value else stored entries b.
Proof.
  unfold changed; rewrite stored_app; destruct (decide (a = b)) as [<-|Hab].
  - rewrite stored_filter_other by (intros e ->; by rewrite bool_decide_true).
    destruct value as [v|]; [|done]; rewrite stored_cons, decide_True; [done|].
    by destruct a as [[? ?] ?].
  - rewrite stored_filter by (intros e <-; by rewrite bool_decide_false by congruence).
    destruct (stored entries b); [done|]; destruct value as [v|]; [|done].
    rewrite stored_cons, decide_False; [done|]; intros <-; by destruct a as [[? ?] ?].
Qed.

Lemma write_entry_entries key value scope id db db' u entries :
  exact_text -> valid_address (key, scope, id) -> table_entries db entries ->
  MetadataCache.write_entry key value scope id db = (Ok u, db') ->
  table_entries db' (changed (key, scope, id) value entries).
Proof.
  intros Ht Ha (t & Hdb & Hpk & Hrows & Hw); unfold MetadataCache.write_entry.
  unfold mbind, stateful_bind, Tx.exec at 1.
  destruct (execute (MetadataCache.delete_entry key scope id) db) as [db1|e|] eqn:Hex; [|done..].
  apply execute_effect in Hex; revert Hex; unfold MetadataCache.delete_entry, effect, update_rows_of.
  rewrite Hdb; cbn [mbind option_bind]; unfold primary_key_ok at 1; cbn [DbTable.primary_key].
  fold (delete_cond key scope id).
  change (DbTable.primary_key (t <| DbTable.rows := _ |>)) with (DbTable.primary_key t).
  rewrite Hpk; intros [= <-].
  set (kept := List.filter _ _).
  assert (Forall2 (fun r e => from_row r = Some e) kept
    (List.filter (fun e => negb (bool_decide (address_of e = (key, scope, id)))) entries)) as Hkept.
  { eapply Forall2_filter_rows; [|exact Hrows]; intros r e Hre; cbn; f_equal.
    by apply delete_cond_holds. }
  pose proof (changed_well_scoped (key, scope, id) value entries Ha Hw) as Hcw.
  unfold table_entries, changed in *; cbn [fst snd] in *.
  destruct value as [v|]; cbn [st_when_some].
  - unfold Tx.insert_entity, Tx.exec; set (stmt := Statement.Insert _ _ _).
    destruct (execute stmt _) as [db2|e|] eqn:Hex; [|done..]; intros [= <- <-].
    apply execute_effect in Hex; revert Hex; unfold stmt, effect, update_rows_of.
    rewrite lookup_insert_eq; cbn [mbind option_bind]; unfold primary_key_ok.
    change (DbTable.primary_key (_ <| DbTable.rows := _ |>)) with (DbTable.primary_key t) at 1.
    rewrite Hpk; intros [= <-].
    eexists; split; [by rewrite lookup_insert_eq|]; split_and!; [exact Hpk| |exact Hcw].
    cbn [DbTable.rows]; apply Forall2_app; [exact Hkept|]; constructor; [|done].
    refine (eq_trans _ (from_to_row (DucklakeMetadata.mk key v scope id))); reflexivity.
  - intros [= <- <-]; rewrite app_nil_r in *.
    eexists; split; [by rewrite lookup_insert_eq|]; by split_and!.
Qed.

(** ** The cache *)

Definition mirrors self : Prop :=
  exists entries, table_entries (MetadataCache.db self) entries /\
    forall a, valid_address a -> cached (MetadataCache.metadata self) a = stored entries a.

(** A change of the cache that follows a change of the rows *)
Lemma update_mirrors begin_error commit_error key value scope id (f : Metadata -> Metadata) self :
  exact_text -> valid_address (key, scope, id) ->
  (forall m a, valid_address a ->
     cached (f m) a = if decide ((key, scope, id) = a) then value else cached m a) ->
  mirrors self ->
  mirrors ((MetadataCache.update begin_error commit_error key value scope id ;;
            st_modify (fun self => self <| MetadataCache.metadata ::= f |>)) self).2.
Proof.
  intros Ht Ha Hf Hm; unfold mbind, stateful_bind, MetadataCache.update.
  case_decide; [done|]; destruct begin_error as [e|]; [done|].
  destruct (MetadataCache.write_entry key value scope id (MetadataCache.db self))
    as [[u|e|] db'] eqn:Hw; [|done..].
  destruct commit_error as [e|]; [done|]; cbn.
  destruct Hm as (entries & Hentries & Hcache).
  exists (changed (key, scope, id) value entries); cbn; split.
  - by eapply write_entry_entries.
  - intros a Hva; rewrite changed_stored, Hf by done; case_decide; [done|auto].
Qed.

(** A change of an option and the errors the database meets it with *)
Inductive change : Type :=
  | SetGlobal (key value : string)
  | SetSchema (schema_id : Z) (key value : string)
  | SetTable (table_id : Z) (key value : string)
  | UnsetGlobal (key : string)
  | UnsetSchema (schema_id : Z) (key : string)
  | UnsetTable (table_id : Z) (key : string).

Definition perform_change (c : change) (begin_error commit_error : option DucklakeError)
    : method MetadataCache.t unit :=
  match c with
  | SetGlobal key value => MetadataCache.set_global begin_error commit_error key value
  | SetSchema id key value => MetadataCache.set_schema begin_error commit_error id key value
  | SetTable id key value => MetadataCache.set_table begin_error commit_error id key value
  | UnsetGlobal key => MetadataCache.unset_global begin_error commit_error key
  | UnsetSchema id key => MetadataCache.unset_schema begin_error commit_error id key
  | UnsetTable id key => MetadataCache.unset_table begin_error commit_error id key
  end.

Lemma cached_global m (g : gmap string string -> gmap string string) key value a :
  (forall o key', g o !! key' = if decide (key = key') then value else o !! key') ->
  valid_address a ->
  cached (m <| Metadata.global ::= g |>) a =
    if decide ((key, None, None) = a) then value else cached m a.
Proof.
  intros Hg; destruct a as [[key' [scope|]] [id|]]; cbn; try done; intros Ha.
  - by destruct (decide ((key, None, None) = (key', Some scope, Some id))).
  - rewrite Hg; do 2 case_decide; naive_solver.
Qed.
Lemma cached_schema m (g : gmap Z (gmap string string) -> gmap Z (gmap string string)) i key value a :
  (forall o i' key', scoped_value (g o) i' key' =
     if decide (i = i' /\ key = key') then value else scoped_value o i' key') ->
  valid_address a ->
  cached (m <| Metadata.schema ::= g |>) a =
    if decide ((key, Some "schema", Some i) = a) then value else cached m a.
Proof.
  intros Hg; destruct a as [[key' [scope|]] [id|]]; cbn [cached]; try done; intros Ha.
  - destruct (decide (scope = "schema")) as [->|Hs].
    + change (scoped_value (g (Metadata.schema m)) id key' =
        if decide ((key, Some "schema", Some i) = (key', Some "schema", Some id))
        then value else scoped_value (Metadata.schema m) id key').
      rewrite Hg; do 2 case_decide; naive_solver.
    + by destruct (decide ((key, Some "schema", Some i) = (key', Some scope, Some id)));
        [congruence|done].
  - by destruct (decide (_ = (key', None, None))).
Qed.
Lemma cached_table m (g : gmap Z (gmap string string) -> gmap Z (gmap string string)) i key value a :
  (forall o i' key', scoped_value (g o) i' key' =
     if decide (i = i' /\ key = key') then value else scoped_value o i' key') ->
  valid_address a ->
  cached (m <| Metadata.table ::= g |>) a =
    if decide ((key, Some "table", Some i) = a) then value else cached m a.
Proof.
  intros Hg; destruct a as [[key' [scope|]] [id|]]; cbn [cached]; try done; intros Ha.
  - destruct (decide (scope = "schema")) as [->|Hs].
    + by destruct (decide ((key, Some "table", Some i) = (key', Some "schema", Some id))).
    + assert (scope = "table") as -> by (cbn in Ha; naive_solver).
      change (scoped_value (g (Metadata.table m)) id key' =
        if decide ((key, Some "table", Some i) = (key', Some "table", Some id))
        then value else scoped_value (Metadata.table m) id key').
      rewrite Hg; do 2 case_decide; naive_solver.
  - by destruct (decide (_ = (key', None, None))).
Qed.

Lemma change_mirrors c begin_error commit_error self :
  exact_text -> mirrors self -> mirrors (perform_change c begin_error commit_error self).2.
Proof.
  intros Ht Hm; destruct c; cbn [perform_change]; unfold MetadataCache.set_global,
    MetadataCache.set_schema, MetadataCache.set_table, MetadataCache.unset_global,
    MetadataCache.unset_schema, MetadataCache.unset_table.
  - apply (update_mirrors _ _ _ _ _ _ (fun m => m <| Metadata.global ::= <[key := value]> |>));
      [done|done| |done].
    intros m a; apply cached_global; intros; case_decide;
      [subst; by rewrite lookup_insert_eq|by rewrite lookup_insert_ne].
  - apply (update_mirrors _ _ _ _ _ _
      (fun m => m <| Metadata.schema ::= Metadata.insert_scoped schema_id key value |>));
      [done|by left| |done].
    intros m a; apply cached_schema; intros; apply insert_scoped_value.
  - apply (update_mirrors _ _ _ _ _ _
      (fun m => m <| Metadata.table ::= Metadata.insert_scoped table_id key value |>));
      [done|by right| |done].
    intros m a; apply cached_table; intros; apply insert_scoped_value.
  - apply (update_mirrors _ _ _ _ _ _ (fun m => m <| Metadata.global ::= delete key |>));
      [done|done| |done].
    intros m a; apply cached_global; intros; case_decide;
      [subst; by rewrite lookup_delete_eq|by rewrite lookup_delete_ne].
  - apply (update_mirrors _ _ _ _ _ _
      (fun m => m <| Metadata.schema ::= Metadata.remove_scoped schema_id key |>));
      [done|by left| |done].
    intros m a; apply cached_schema; intros; apply remove_scoped_value.
  - apply (update_mirrors _ _ _ _ _ _
      (fun m => m <| Metadata.table ::= Metadata.remove_scoped table_id key |>));
      [done|by right| |done].
    intros m a; apply cached_table; intros; apply remove_scoped_value.
Qed.

Lemma change_all_mirrors changes self :
  exact_text -> mirrors self ->
  mirrors (foldl (fun self '(c, b, e) => (perform_change c b e self).2) self changes).
Proof.
  revert self; induction changes as [|[[c b] e] changes IH]; intros self Ht Hm; [done|].
  by apply IH, change_mirrors.
Qed.

Lemma decode_rows_Forall2 rows entries :
  Forall2 (fun r e => from_row r = Some e) rows entries ->
  Tx.decode_rows rows = Ok entries.
Proof.
  unfold Tx.decode_rows; induction 1 as [|r e rows entries Hr _ IH]; [done|].
  cbn [map_outcome]; rewrite Hr; cbn [ok_or mbind outcome_bind]; by rewrite IH.
Qed.

Lemma Forall2_perm {A B} (R : A -> B -> Prop) l l' k :
  l' ≡ₚ l -> Forall2 R l k -> exists k', k' ≡ₚ k /\ Forall2 R l' k'.
Proof.
  intros Hp; revert k; induction Hp as [|x l l' Hp IH|x y l|l l' l'' _ IH1 _ IH2]; intros k Hk.
  - by exists k.
  - inversion Hk as [|? b ? k0 Hxb Hk0]; subst.
    destruct (IH k0 Hk0) as (k' & Hk' & HR); exists (b :: k'); split; [by f_equiv|by constructor].
  - inversion Hk as [|? b ? k0 Hxb Hk0]; subst; inversion Hk0 as [|? d ? k1 Hyd Hk1]; subst.
    exists (d :: b :: k1); split; [constructor|by repeat constructor].
  - destruct (IH2 k Hk) as (k2 & Hk2 & H2); destruct (IH1 k2 H2) as (k1 & Hk1 & H1).
    exists k1; split; [by etrans|done].
Qed.

Lemma elem_of_stored entries e :
  NoDup (address_of <$> entries) -> e ∈ entries ->
  stored entries (address_of e) = Some (DucklakeMetadata.value e).
Proof.
  induction entries as [|e' entries IH]; intros Hu He; [set_solver|]; cbn in Hu.
  apply NoDup_cons in Hu as [Hn Hu]; rewrite stored_cons; apply elem_of_cons in He as [->|He].
  - by rewrite decide_True.
  - rewrite decide_False; [auto|]; intros Ha; apply Hn; rewrite Ha.
    apply list_elem_of_fmap; eauto.
Qed.

Lemma stored_perm entries entries' a :
  entries ≡ₚ entries' -> well_scoped entries -> stored entries' a = stored entries a.
Proof.
  intros Hp [_ Hu]; assert (NoDup (address_of <$> entries')) as Hu' by by rewrite <- Hp.
  destruct (decide (a ∈ address_of <$> entries)) as [(e & -> & He)%list_elem_of_fmap|Hn].
  - rewrite (elem_of_stored entries e), (elem_of_stored entries' e); [done|done| |done|done].
    by rewrite <- Hp.
  - rewrite !stored_None; [done|done|]; by rewrite <- Hp.
Qed.

Lemma load_cached db entries m a :
  table_entries db entries -> MetadataCache.load db = Ok m -> valid_address a ->
  cached m a = stored entries a.
Proof.
  intros (t & Hdb & _ & Hrows & Hw); unfold MetadataCache.load.
  destruct (select _ _ db) as [rows|e|] eqn:Hsel; [|done..]; cbn [mbind outcome_bind].
  apply select_rows in Hsel as (t' & Hdb' & Hperm); rewrite Hdb in Hdb'; injection Hdb' as <-.
  rewrite filter_bool_all in Hperm by done.
  destruct (Forall2_perm _ _ _ _ Hperm Hrows) as (entries' & Hp & Hrows').
  rewrite (decode_rows_Forall2 _ _ Hrows'); cbn [mbind outcome_bind]; intros Hm Ha.
  assert (well_scoped entries') as Hw'.
  { destruct Hw as [Hv Hu]; split; by rewrite Hp. }
  destruct (new_cached entries' Hw') as (m' & Hm' & Hc); rewrite Hm in Hm'; injection Hm' as <-.
  rewrite Hc by done; by apply stored_perm; [symmetry|].
Qed.

(** The rows an SDK writes: every option at most once, at a scope the cache knows *)
Definition well_scoped_database (db : Db) : Prop := exists entries, table_entries db entries.

Lemma get_key_cached m key schema_id table_id :
  Metadata.get_key m key schema_id table_id =
    match table_id ≫= fun id => cached m (key, Some "table", Some id) with
    | Some v => Some v
    | None => match schema_id ≫= fun id => cached m (key, Some "schema", Some id) with
              | Some v => Some v
              | None => cached m (key, None, None)
              end
    end.
Proof. by destruct table_id, schema_id. Qed.

(** C18: the options a client has cached are those of the database: after any
    sequence of changes, some of which may have been rejected or failed, every
    option resolves as it would after a fresh load. The database compares texts
    exactly, and the rows it starts with have the scopes the library writes. *)
Theorem cached_options_are_stored (db : Db) (self : MetadataCache.t)
    (changes : list (change * option DucklakeError * option DucklakeError)) (fresh : Metadata)
    (key : string) (schema_id table_id : option Z)
  (Htext : exact_text) (Hdb : well_scoped_database db)
  (Hnew : MetadataCache.new db = Ok self) :
  let self' := foldl (fun self '(c, b, e) => (perform_change c b e self).2) self changes in
  MetadataCache.load (MetadataCache.db self') = Ok fresh ->
  Metadata.get_key (MetadataCache.metadata self') key schema_id table_id =
    Metadata.get_key fresh key schema_id table_id.
Proof.
  intros self' Hfresh; destruct Hdb as [entries Hdb].
  assert (mirrors self) as Hm.
  { revert Hnew; unfold MetadataCache.new.
    destruct (MetadataCache.load db) as [m|e|] eqn:Hload; [|done..]; intros [= <-].
    exists entries; split; [done|]; intros a Ha; by eapply load_cached. }
  apply (change_all_mirrors changes) in Hm; [|done]; fold self' in Hm.
  destruct Hm as (entries' & Hentries & Hcache).
  assert (forall a, valid_address a ->
    cached (MetadataCache.metadata self') a = cached fresh a) as Heq.
  { intros a Ha; rewrite Hcache by done; symmetry; by eapply load_cached. }
  rewrite !get_key_cached; destruct table_id, schema_id; cbn [mbind option_bind];
    rewrite ?Heq; auto; cbn; auto.
Qed.
End Coherence.

(** ** At a concrete database *)

Definition option_rows : list DucklakeMetadata :=
  [DucklakeMetadata.mk "auto_compact" "true" None None;
   DucklakeMetadata.mk "auto_compact" "false" (Some "schema") (Some 1%Z)].
Definition option_db : gmap string (@DbTable.t demo_external) :=
  {["ducklake_metadata" := DbTable.mk (COLUMNS DucklakeMetadata) None (to_row <$> option_rows)]}.
Definition option_changes : list (change * option (@DucklakeError demo_external) * option (@DucklakeError demo_external)) :=
  [(SetTable 3 "auto_compact" "maybe", None, None); (SetGlobal "version" "2", None, None);
   (SetTable 3 "auto_compact" "yes", None, Some (Parsing "connection lost"));
   (UnsetSchema 1 "auto_compact", None, None)].

Lemma option_db_well_scoped : well_scoped_database option_db.
Proof.
  exists option_rows, (DbTable.mk (COLUMNS DucklakeMetadata) None (to_row <$> option_rows)).
  split_and!; [done|done|by repeat constructor|]; split.
  - constructor; [done|constructor; [by left|done]].
  - apply (bool_decide_unpack _); vm_compute; exact I.
Qed.

Lemma cached_options_are_stored_witness :
  exists self fresh, MetadataCache.new option_db = Ok self /\
    let self' := foldl (fun self '(c, b, e) => (perform_change c b e self).2) self option_changes in
    Metadata.get_key (MetadataCache.metadata self') "auto_compact" (Some 1%Z) (Some 3%Z) =
      Metadata.get_key fresh "auto_compact" (Some 1%Z) (Some 3%Z) /\
    Metadata.get_key fresh "auto_compact" (Some 1%Z) (Some 3%Z) = Some "maybe".
Proof.
  destruct (MetadataCache.new option_db) as [self|e|] eqn:Hnew; [|vm_compute in Hnew; discriminate..].
  pose (self' := foldl (fun self '(c, b, e) => (perform_change c b e self).2) self option_changes).
  destruct (MetadataCache.load (MetadataCache.db self')) as [fresh|e|] eqn:Hfresh.
  2,3: exfalso; vm_compute in Hnew; injection Hnew as <-; vm_compute in Hfresh; discriminate.
  exists self, fresh; split; [done|]; split.
  - apply (cached_options_are_stored option_db self option_changes fresh "auto_compact"
      (Some 1%Z) (Some 3%Z)); [by intros|exact option_db_well_scoped|exact Hnew|exact Hfresh].
  - clear -Hnew Hfresh; subst self'; vm_compute in Hnew; injection Hnew as <-.
    vm_compute in Hfresh; injection Hfresh as <-; reflexivity.
Defined.
