(* ===== verification/Load.v ===== *)
(** * Loading the catalog of a snapshot ([catalog/load.rs], [catalog/typedefs/])

    The rows a snapshot sees become the arenas of a catalog: columns with their
    tree of nested types, partitionings, sort orders, tables, views, macros. *)

From S2P Require Import Prelude Text Regex Identifier Types Instances Entities.
From S2P Require Import CatalogColumns Catalog TableStats CommitState Database.

(** ** Groups ([Itertools::into_group_map_by]) *)

Section Groups.
Context {K A : Type} `{Countable K}.

(** The elements of each key, in their order *)
Definition group_map_by (key : A -> K) (l : list A) : gmap K (list A) :=
  foldl (fun m x => <[key x := default [] (m !! key x) ++ [x]]> m) ∅ l.

(** [groups.remove(&key).unwrap_or_default()] *)
Definition take_group (key : K) (m : gmap K (list A)) : list A * gmap K (list A) :=
  (default [] (m !! key), delete key m).

(** The map holds exactly the elements with each key, in their order. *)
Lemma group_map_by_lookup (key : A -> K) (l : list A) (k : K) :
  default [] (group_map_by key l !! k) = List.filter (fun x => bool_decide (key x = k)) l.
Proof.
  unfold group_map_by.
  assert (forall m : gmap K (list A), default [] (foldl (fun m x => <[key x := default [] (m !! key x) ++ [x]]> m) m l !! k)
    = default [] (m !! k) ++ List.filter (fun x => bool_decide (key x = k)) l) as Hm.
  { induction l as [|x l IH]; intros m; cbn; [by rewrite app_nil_r|]. rewrite IH.
    case_bool_decide as Hk.
    - subst. rewrite lookup_insert_eq. cbn. by rewrite <-app_assoc.
    - by rewrite lookup_insert_ne. }
  rewrite Hm, lookup_empty. done.
Qed.
End Groups.

(** [Option<i64>] is ordered with [None] first. *)
Definition option_Z_leb (a b : option Z) : bool :=
  match a, b with
  | None, _ => true
  | Some _, None => false
  | Some a, Some b => Z.leb a b
  end.

Section Load.
Context `{EXT : External} `{ENG : !RegexEngine} `{TXT : !ValueText}.

(** ** Columns ([catalog/typedefs/columns.rs]) *)

Abbreviation children_map := (gmap Z (list (DucklakeColumn * ArenaIdx))).

Definition list_dtype (children : list (DucklakeColumn * ArenaIdx)) : result CatalogDataType :=
  match children with
  | [(_, item)] => Ok (CatalogDataType.List item)
  | _ => Err (InvalidDataType ("list must have exactly one child element but found " +:+
           i64_to_string (Z.of_nat (length children))))
  end.

Definition struct_dtype (children : list (DucklakeColumn * ArenaIdx)) : result CatalogDataType :=
  let sorted := sort_by_key option_Z_leb (fun c => DucklakeColumn.column_order c.1) children in
  CatalogDataType.Struct <$> fold_outcome (fun fields '(field, idx) =>
    let name := DucklakeColumn.column_name field in
    if IndexMap.contains_key name fields then Err (column_already_exists name)
    else Ok (IndexMap.insert name idx fields)) [] sorted.

(** [partition] into the children named [key] and the others; [pop] takes the last. *)
Definition map_dtype (children : list (DucklakeColumn * ArenaIdx)) : result CatalogDataType :=
  if decide (length children = 2) then
    let is_key (c : DucklakeColumn * ArenaIdx) :=
      bool_decide (DucklakeColumn.column_name c.1 = "key") in
    key ← ok_or (InvalidDataType "map must have a child element named 'key'")
            (last (List.filter is_key children));
    value ← ok_or (InvalidDataType "map must have a child element named 'value'")
              (last (List.filter (fun c => negb (is_key c)) children));
    mret (CatalogDataType.Map key.2 value.2)
  else Err (InvalidDataType ("map must have exactly two child elements (key and value) but found " +:+
         i64_to_string (Z.of_nat (length children)))).

Definition load_dtype (col : DucklakeColumn) (children : children_map)
    : result (CatalogDataType * children_map) :=
  let column_type := DucklakeColumn.column_type col in
  let '(own, rest) := take_group (DucklakeColumn.column_id col) children in
  if decide (column_type = "list") then d ← list_dtype own; mret (d, rest)
  else if decide (column_type = "struct") then d ← struct_dtype own; mret (d, rest)
  else if decide (column_type = "map") then d ← map_dtype own; mret (d, rest)
  else d ← DataTypeOps.parse_primitive column_type; mret (CatalogDataType.Primitive d, children).

Definition nested_default (col : DucklakeColumn) : DucklakeError :=
  InvalidDefault (DucklakeColumn.column_name col)
    "default value for non-primitive type is not supported".

Definition load_initial_default (col : DucklakeColumn) (dtype : CatalogDataType)
    : result (option Value) :=
  match DucklakeColumn.initial_default col, dtype with
  | Some val, CatalogDataType.Primitive p => value_parse p val
  | Some _, _ => Err (nested_default col)
  | None, _ => Ok None
  end.

Definition load_default_value (col : DucklakeColumn) (dtype : CatalogDataType)
    : result ColumnDefault :=
  if decide (DucklakeColumn.default_value_type col = Some "literal") then
    match DucklakeColumn.default_value col, dtype with
    | Some val, CatalogDataType.Primitive p => ColumnDefault.Literal <$> value_parse p val
    | Some _, _ => Err (nested_default col)
    | None, _ => Ok (ColumnDefault.Literal None)
    end
  else if decide (DucklakeColumn.default_value_type col = Some "expression") then
    match DucklakeColumn.default_value col with
    | Some expression =>
        Ok (ColumnDefault.Expression (default "" (DucklakeColumn.default_value_dialect col)) expression)
    | None => Err (InvalidDefault (DucklakeColumn.column_name col)
                     "expression default value is missing expression")
    end
  else Ok (ColumnDefault.Literal None).

(** [tags.extract_if(..)]: the matching tags leave the vector. *)
Definition extract_tags (column_id : Z) (tags : list DucklakeColumnTag)
    : Tags * list DucklakeColumnTag :=
  let own (t : DucklakeColumnTag) := Z.eqb (DucklakeColumnTag.column_id t) column_id in
  (Tags_from_iter ((fun t => Tag.mk (DucklakeColumnTag.key t) (DucklakeColumnTag.value t))
     <$> List.filter own tags),
   List.filter (fun t => negb (own t)) tags).

Definition CatalogColumn_from_ducklake (col : DucklakeColumn) (parent_column : option ArenaIdx)
    (children : children_map) (tags : list DucklakeColumnTag)
    : result (CatalogColumn * children_map * list DucklakeColumnTag) :=
  '(dtype, children) ← load_dtype col children;
  initial_default ← load_initial_default col dtype;
  default_value ← load_default_value col dtype;
  let '(own, tags) := extract_tags (DucklakeColumn.column_id col) tags in
  mret (CatalogColumn.mk (DucklakeColumn.column_id col) (DucklakeColumn.column_name col) dtype
          parent_column (DucklakeColumn.nulls_allowed col) own initial_default default_value,
        children, tags).

(** Position of each column after sorting; the last one of a repeated ID wins. *)
Definition id_to_arena_idx (columns : list DucklakeColumn) : gmap Z ArenaIdx :=
  foldl (fun m '(idx, col) => <[DucklakeColumn.column_id col := idx]> m) ∅
    (imap (fun idx col => (idx, col)) columns).

Definition children_by_parent_id (columns : list DucklakeColumn) : children_map :=
  foldl (fun m '(idx, col) =>
    match DucklakeColumn.parent_column col with
    | Some parent => <[parent := default [] (m !! parent) ++ [(col, idx)]]> m
    | None => m
    end) ∅ (imap (fun idx col => (idx, col)) columns).

(** One column of the loop: its arena entry, and the root entry of a root column *)
Definition load_column (ids : gmap Z ArenaIdx)
    (acc : CatalogColumns * children_map * list DucklakeColumnTag) (col : DucklakeColumn)
    : result (CatalogColumns * children_map * list DucklakeColumnTag) :=
  let '(self, children, tags) := acc in
  let name := DucklakeColumn.column_name col in
  parent_column ← option_outcome (fun pid => unwrap (ids !! pid)) (DucklakeColumn.parent_column col);
  '(column, children, tags) ← CatalogColumn_from_ducklake col parent_column children tags;
  let arena_idx := length (CatalogColumns.arena self) in
  let self := self <| CatalogColumns.by_id ::= <[CatalogColumn.id column := arena_idx]> |>
                   <| CatalogColumns.arena ::= fun l => l ++ [column] |> in
  match parent_column with
  | Some _ => mret (self, children, tags)
  | None =>
      if IndexMap.contains_key name (CatalogColumns.root_columns self)
      then Err (column_already_exists name)
      else mret (self <| CatalogColumns.root_columns ::= IndexMap.insert name arena_idx |>,
                 children, tags)
  end.

Definition CatalogColumns_from_ducklake (columns : list DucklakeColumn)
    (tags : list DucklakeColumnTag) : result CatalogColumns :=
  let columns := sort_by_key option_Z_leb DucklakeColumn.column_order columns in
  '(self, _, _) ← fold_outcome (load_column (id_to_arena_idx columns))
                    (CatalogColumns.new None, children_by_parent_id columns, tags) columns;
  mret self.

(** ** Partitionings, sort orders, macros ([catalog/typedefs/]) *)

Definition CatalogTablePartition_from_ducklake (info : DucklakePartitionInfo)
    (partition_columns : list DucklakePartitionColumn) (columns : CatalogColumns)
    : result CatalogTablePartition.t :=
  cols ← map_outcome (fun col =>
      transform ← PartitionTransform.from_str (DucklakePartitionColumn.transform col);
      idx ← unwrap (CatalogColumns.by_id columns !! DucklakePartitionColumn.column_id col);
      mret (CatalogPartitionColumn.mk idx transform))
    (sort_by_key Z.leb DucklakePartitionColumn.partition_key_index partition_columns);
  mret (CatalogTablePartition.mk (Some (DucklakePartitionInfo.partition_id info)) cols).

Definition CatalogTableSortInfo_from_ducklake (info : DucklakeSortInfo)
    (expressions : list DucklakeSortExpression) (columns : CatalogColumns)
    : result CatalogTableSortInfo.t :=
  cols ← map_outcome (fun expr =>
      expression ← ok_or (InvalidChanges ("sort " +:+ i64_to_string (DucklakeSortInfo.sort_id info)
                            +:+ " has an empty expression"))
                     (DucklakeSortExpression.expression expr);
      column ← CatalogTableSortInfo.column_by_name columns expression;
      direction ← SortDirection_from_str (default "ASC" (DucklakeSortExpression.sort_direction expr));
      null_order ← NullOrder_from_str (default "NULLS_LAST" (DucklakeSortExpression.null_order expr));
      mret (CatalogSortColumn.mk column (default "duckdb" (DucklakeSortExpression.dialect expr))
              direction null_order))
    (sort_by_key Z.leb DucklakeSortExpression.sort_key_index expressions);
  mret (CatalogTableSortInfo.mk cols).

Definition parameter_from_ducklake (p : DucklakeMacroParameters) : MacroParameter.t :=
  let default_value :=
    match DucklakeMacroParameters.default_value p with
    | Some value =>
        if decide (DucklakeMacroParameters.default_value_type p = "unknown") then
          if eq_ignore_ascii_case value NULL_STRING then None else Some value
        else Some value
    | None => None
    end in
  MacroParameter.mk (DucklakeMacroParameters.parameter_name p)
    (DucklakeMacroParameters.parameter_type p) default_value
    (DucklakeMacroParameters.default_value_type p).

Abbreviation parameters_map := (gmap (Z * Z) (list DucklakeMacroParameters)).

Definition load_implementation (id : Z) (name : QualifiedName) (macro_type : MacroType)
    (acc : list MacroImplementation * parameters_map) (i : DucklakeMacroImpl)
    : result (list MacroImplementation * parameters_map) :=
  let '(implementations, parameters) := acc in
  own_type ← MacroType_from_str (DucklakeMacroImpl.type_ i);
  if decide (own_type = macro_type) then
    let '(own, parameters) := take_group (id, DucklakeMacroImpl.impl_id i) parameters in
    mret (implementations ++ [MacroImplementation.mk (DucklakeMacroImpl.dialect i)
            (DucklakeMacroImpl.sql i)
            (parameter_from_ducklake <$> sort_by_key Z.leb DucklakeMacroParameters.column_id own)],
          parameters)
  else Err (InvalidMacro ("macro " +:+ QualifiedName.to_string name +:+
              " mixes scalar and table implementations")).

Definition CatalogMacro_from_ducklake (id : Z) (name : QualifiedName)
    (implementations : list DucklakeMacroImpl) (parameters : parameters_map)
    : result (CatalogMacro.t * parameters_map) :=
  let implementations := sort_by_key Z.leb DucklakeMacroImpl.impl_id implementations in
  first ← ok_or (InvalidMacro ("macro " +:+ QualifiedName.to_string name +:+ " has no implementations"))
            (head implementations);
  macro_type ← MacroType_from_str (DucklakeMacroImpl.type_ first);
  '(implementations, parameters) ← fold_outcome (load_implementation id name macro_type)
                                     ([], parameters) implementations;
  mret (CatalogMacro.mk (Some id) name macro_type implementations, parameters).

(** ** The catalog ([Catalog::load]) *)

(** The answers to the queries *)
Record Fetched : Type := mk_Fetched {
  fetched_schemas : list DucklakeSchema;
  fetched_tables : list DucklakeTable;
  fetched_views : list DucklakeView;
  fetched_macros : list DucklakeMacro;
  fetched_macro_impls : list DucklakeMacroImpl;
  fetched_macro_parameters : list DucklakeMacroParameters;
  fetched_columns : list DucklakeColumn;
  fetched_tags : list DucklakeTag;
  fetched_column_tags : list DucklakeColumnTag;
  fetched_partition_infos : list DucklakePartitionInfo;
  fetched_partition_columns : list DucklakePartitionColumn;
  fetched_sort_infos : list DucklakeSortInfo;
  fetched_sort_expressions : list DucklakeSortExpression;
}.

(** The groups tables and views take theirs from *)
Record Grouped : Type := mk_Grouped {
  columns : gmap Z (list DucklakeColumn);
  column_tags : gmap Z (list DucklakeColumnTag);
  partition_infos : gmap Z (list DucklakePartitionInfo);
  partition_columns : gmap Z (list DucklakePartitionColumn);
  sort_infos : gmap Z (list DucklakeSortInfo);
  sort_expressions : gmap Z (list DucklakeSortExpression);
  tags : gmap Z (list DucklakeTag);
}.

Definition default_empty_string (s on_empty : string) : string :=
  if decide (s = "") then on_empty else s.

(** A [&mut self] method of the catalog that cannot fail *)
Definition run_on_catalog (m : method Catalog unit) (self : Catalog) : result Catalog :=
  match m self with
  | (Ok _, self) => Ok self
  | _ => Panic
  end.

Definition load_tags (rows : list DucklakeTag) : Tags :=
  Tags_from_iter ((fun t => Tag.mk (DucklakeTag.key t) (DucklakeTag.value t)) <$> rows).

Definition set_schema (self : Catalog) (schema : DucklakeSchema) : result Catalog :=
  let name := DucklakeSchema.schema_name schema in
  path ← infallible (DucklakePath.new
    (default_empty_string (DucklakeSchema.path schema) (name +:+ "/"))
    (DucklakeSchema.path_is_relative schema));
  let id := DucklakeSchema.schema_id schema in
  let '(idx, arena) := Arena.push (CatalogSchema.mk (Some id) name ∅ ∅ ∅ path) (Some id)
                         (Catalog.schema_arena self) in
  mret (self <| Catalog.schema_arena := arena |> <| Catalog.schemas ::= <[name := idx]> |>).

Definition too_many_partitions (table : string) (n : nat) : DucklakeError :=
  InvalidPartitions ("expected at most one partition for table " +:+ table +:+ " but found " +:+
    i64_to_string (Z.of_nat n)).
Definition no_partition_columns (table : string) : DucklakeError :=
  InvalidPartitions ("partition info exists for table " +:+ table +:+
    " but no partition columns found").

Definition load_partition (table : DucklakeTable) (cols : CatalogColumns) (g : Grouped)
    : result (option CatalogTablePartition.t * Grouped) :=
  let id := DucklakeTable.table_id table in
  let name := DucklakeTable.table_name table in
  let '(infos, rest) := take_group id (partition_infos g) in
  let g := mk_Grouped (columns g) (column_tags g) rest (partition_columns g) (sort_infos g)
             (sort_expressions g) (tags g) in
  match infos with
  | [] => mret (None, g)
  | [info] =>
      let '(own, rest) := take_group id (partition_columns g) in
      let g := mk_Grouped (columns g) (column_tags g) (partition_infos g) rest (sort_infos g)
                 (sort_expressions g) (tags g) in
      let own := List.filter (fun c => Z.eqb (DucklakePartitionColumn.partition_id c)
                                (DucklakePartitionInfo.partition_id info)) own in
      if decide (own = []) then Err (no_partition_columns name)
      else p ← CatalogTablePartition_from_ducklake info own cols; mret (Some p, g)
  | _ => Err (too_many_partitions name (length infos))
  end.

Definition load_sort_info (table : DucklakeTable) (cols : CatalogColumns) (g : Grouped)
    : result (option CatalogTableSortInfo.t * Grouped) :=
  let id := DucklakeTable.table_id table in
  let '(infos, rest) := take_group id (sort_infos g) in
  let g := mk_Grouped (columns g) (column_tags g) (partition_infos g) (partition_columns g) rest
             (sort_expressions g) (tags g) in
  match infos with
  | [] => mret (None, g)
  | [info] =>
      let '(own, rest) := take_group id (sort_expressions g) in
      let g := mk_Grouped (columns g) (column_tags g) (partition_infos g) (partition_columns g)
                 (sort_infos g) rest (tags g) in
      s ← CatalogTableSortInfo_from_ducklake info
            (List.filter (fun e => Z.eqb (DucklakeSortExpression.sort_id e)
                            (DucklakeSortInfo.sort_id info)) own) cols;
      mret (Some s, g)
  | _ => Err (InvalidChanges ("expected at most one active sort for table " +:+
           DucklakeTable.table_name table))
  end.

Definition set_table (acc : Catalog * Grouped) (table : DucklakeTable)
    : result (Catalog * Grouped) :=
  let '(self, g) := acc in
  let id := DucklakeTable.table_id table in
  let name := DucklakeTable.table_name table in
  schema ← infallible (Catalog.schema_by_id self (DucklakeTable.schema_id table));
  let '(own_columns, cs) := take_group id (columns g) in
  let '(own_tags, cts) := take_group id (column_tags g) in
  let g := mk_Grouped cs cts (partition_infos g) (partition_columns g) (sort_infos g)
             (sort_expressions g) (tags g) in
  cols ← CatalogColumns_from_ducklake own_columns own_tags;
  '(partition, g) ← load_partition table cols g;
  '(sort_info, g) ← load_sort_info table cols g;
  schema_name ← Catalog.schema_name self schema;
  let '(own_tags, ts) := take_group id (tags g) in
  let g := mk_Grouped (columns g) (column_tags g) (partition_infos g) (partition_columns g)
             (sort_infos g) (sort_expressions g) ts in
  path ← infallible (DucklakePath.new
    (default_empty_string (DucklakeTable.path table) (name +:+ "/"))
    (DucklakeTable.path_is_relative table));
  let '(idx, arena) := Arena.push
    (CatalogTable.mk (Some id) (QualifiedName.mk schema_name name) cols partition sort_info
       (load_tags own_tags) path) (Some id) (Catalog.table_arena self) in
  self ← run_on_catalog (Catalog.update_schema schema (fun s =>
           s <| CatalogSchema.tables ::= <[name := idx]> |>))
           (self <| Catalog.table_arena := arena |>);
  mret (self, g).

(** The aliases of a view; the [expect] of the source is the panic. *)
Definition load_aliases (aliases : option string) : result (option (list string)) :=
  match aliases with
  | Some s => if decide (s = "") then mret None
              else l ← unwrap (parse_identifier_list s); mret (Some l)
  | None => mret None
  end.

Definition set_view (acc : Catalog * Grouped) (view : DucklakeView) : result (Catalog * Grouped) :=
  let '(self, g) := acc in
  let id := DucklakeView.view_id view in
  let name := DucklakeView.view_name view in
  schema ← infallible (Catalog.schema_by_id self (DucklakeView.schema_id view));
  schema_name ← Catalog.schema_name self schema;
  aliases ← load_aliases (DucklakeView.column_aliases view);
  let '(own_tags, ts) := take_group id (tags g) in
  let g := mk_Grouped (columns g) (column_tags g) (partition_infos g) (partition_columns g)
             (sort_infos g) (sort_expressions g) ts in
  let '(idx, arena) := Arena.push
    (CatalogView.mk (Some id) (QualifiedName.mk schema_name name) (DucklakeView.sql view)
       (DucklakeView.dialect view) aliases (load_tags own_tags)) (Some id)
    (Catalog.view_arena self) in
  self ← run_on_catalog (Catalog.update_schema schema (fun s =>
           s <| CatalogSchema.views ::= <[name := idx]> |>))
           (self <| Catalog.view_arena := arena |>);
  mret (self, g).

Definition set_macro
    (acc : Catalog * gmap Z (list DucklakeMacroImpl) * parameters_map) (m : DucklakeMacro)
    : result (Catalog * gmap Z (list DucklakeMacroImpl) * parameters_map) :=
  let '(self, impls, parameters) := acc in
  let id := DucklakeMacro.macro_id m in
  let name := DucklakeMacro.macro_name m in
  schema ← infallible (Catalog.schema_by_id self (DucklakeMacro.schema_id m));
  schema_name ← Catalog.schema_name self schema;
  let '(own, impls) := take_group id impls in
  '(macro_, parameters) ← CatalogMacro_from_ducklake id (QualifiedName.mk schema_name name) own
                            parameters;
  let '(idx, arena) := Arena.push macro_ (Some id) (Catalog.macro_arena self) in
  self ← run_on_catalog (Catalog.update_schema schema (fun s =>
           s <| CatalogSchema.macros ::=
             <[(to_ascii_lowercase name, CatalogMacro.macro_type macro_) := idx]> |>))
           (self <| Catalog.macro_arena := arena |>);
  mret (self, impls, parameters).

(** The catalog of the fetched rows *)
Definition build_catalog (f : Fetched) : result Catalog :=
  let g := mk_Grouped
    (group_map_by DucklakeColumn.table_id (fetched_columns f))
    (group_map_by DucklakeColumnTag.table_id (fetched_column_tags f))
    (group_map_by DucklakePartitionInfo.table_id (fetched_partition_infos f))
    (group_map_by DucklakePartitionColumn.table_id (fetched_partition_columns f))
    (group_map_by DucklakeSortInfo.table_id (fetched_sort_infos f))
    (group_map_by DucklakeSortExpression.table_id (fetched_sort_expressions f))
    (group_map_by DucklakeTag.object_id (fetched_tags f)) in
  let impls := group_map_by DucklakeMacroImpl.macro_id (fetched_macro_impls f) in
  let parameters := group_map_by (fun p => (DucklakeMacroParameters.macro_id p,
    DucklakeMacroParameters.impl_id p)) (fetched_macro_parameters f) in
  self ← fold_outcome set_schema Catalog.empty (fetched_schemas f);
  '(self, g) ← fold_outcome set_table (self, g) (fetched_tables f);
  '(self, _) ← fold_outcome set_view (self, g) (fetched_views f);
  '(self, _, _) ← fold_outcome set_macro (self, impls, parameters) (fetched_macros f);
  mret self.
End Load.

(** ** Queries *)

Section Queries.
Context `{EXT : External} `{CMP : !SqlCompare} `{ENGINE : !SqlEngine}.

(** Every row matches: the condition of a query without [WHERE]. *)
Definition any_row : Cond := Cond.Any [[]].

Definition fetch_all (E : Type) `{!Entity E} (db : Db) : result (list E) :=
  rows ← select (TABLE E) any_row db; Tx.decode_rows rows.

(** [snapshot_query!] *)
Definition visible_rows (E : Type) `{!Entity E} (snapshot_id : Z) (db : Db) : result (list row) :=
  List.filter (row_visible snapshot_id) <$> select (TABLE E) any_row db.
Definition snapshot_query (E : Type) `{!Entity E} (snapshot_id : Z) (db : Db) : result (list E) :=
  rows ← visible_rows E snapshot_id db; Tx.decode_rows rows.

(** [WHERE column IN (SELECT column FROM F ...)], for the visible rows of [F] *)
Definition in_active (E F : Type) `{!Entity E} `{!Entity F} (column : string) (snapshot_id : Z)
    (db : Db) : result (list E) :=
  active ← visible_rows F snapshot_id db;
  rows ← select (TABLE E) any_row db;
  Tx.decode_rows (List.filter (fun r =>
    existsb (fun a => sql_eq (field column r) (field column a)) active) rows).

(** [E INNER JOIN F] on equal [keys], for the visible rows of [F]: a row of [E]
    once per partner *)
Definition join_active (E F : Type) `{!Entity E} `{!Entity F} (keys : list string)
    (snapshot_id : Z) (db : Db) : result (list E) :=
  active ← visible_rows F snapshot_id db;
  rows ← select (TABLE E) any_row db;
  Tx.decode_rows (rows ≫= fun r =>
    (fun _ => r) <$> List.filter (fun a => forallb (fun k => sql_eq (field k r) (field k a)) keys) active).
End Queries.

(** ** Statistics ([SnapshotTableStats::load]) *)

Section LoadStats.
Context `{EXT : External} `{TXT : !ValueText} `{HASH : HashOrder}.

Definition loaded_table_stats (s : DucklakeTableStats) : TableStats :=
  TableStats.mk (DucklakeTableStats.next_row_id s) (DucklakeTableStats.record_count s)
    (DucklakeTableStats.file_size_bytes s) ∅ true.

(** [stat.min_value.and_then(|v| Value::parse(dtype, &v).transpose()).transpose()?] *)
Definition parse_bound (dtype : DataType) (v : option string) : result (option Value) :=
  match v with Some v => value_parse dtype v | None => Ok None end.

Definition set_column_stats (dtypes : gmap Z (gmap Z DataType)) (m : gmap Z TableStats)
    (s : DucklakeTableColumnStats) : result (gmap Z TableStats) :=
  let table_id := DucklakeTableColumnStats.table_id s in
  let column_id := DucklakeTableColumnStats.column_id s in
  dtype ← unwrap (d ← dtypes !! table_id; d !! column_id);
  min_value ← parse_bound dtype (DucklakeTableColumnStats.min_value s);
  max_value ← parse_bound dtype (DucklakeTableColumnStats.max_value s);
  let stats := ColumnStats.mk (DucklakeTableColumnStats.contains_null s)
                 (DucklakeTableColumnStats.contains_nan s) min_value max_value true in
  table ← unwrap (m !! table_id);
  mret (<[table_id := table <| TableStats.column_stats ::= <[column_id := stats]> |>]> m).

Definition build_table_stats (catalog : Catalog) (tables : list DucklakeTableStats)
    (columns : list DucklakeTableColumnStats) : result (gmap Z TableStats) :=
  let m : gmap Z TableStats := list_to_map (reverse
    ((fun s => (DucklakeTableStats.table_id s, loaded_table_stats s)) <$> tables)) in
  dtypes ← map_outcome (fun id =>
      r ← Catalog.table_by_id catalog id;
      d ← Catalog.table_column_data_types catalog r;
      mret (id, d)) (hash_iter m).*1;
  fold_outcome (set_column_stats (list_to_map dtypes)) m columns.
End LoadStats.
