(* ===== verification/Transactions.v ===== *)
(** * The operations of a transaction ([transaction/{table,schema,view,macro_}.rs])

    Every operation validates its arguments, changes the catalog of the
    transaction and queues the changes that the commit will write. Nothing
    reaches the database. *)

From Stdlib Require Import SpecFloat.
From S2P Require Import Prelude Text Regex Identifier Types Instances Entities CatalogColumns.
From S2P Require Import Catalog TableStats Differences CommitState Change Dialect Database Load.
From S2P Require Import Metadata.

Module AuthorInfo.
Record t : Type := mk {
  author : option string;
  message : option string;
  extra_info : option string;
}.
Definition default : t := mk None None None.
End AuthorInfo.

(** A transaction: nothing reaches the database before the commit. *)
Module Transaction.
Record t `{External} : Type := mk {
  snapshot : SnapshotInfo;
  catalog : Catalog;
  changes : list Change;
  author_info : AuthorInfo.t;
}.
#[global] Arguments mk {_} snapshot catalog changes author_info.
Definition eta `{External} (t : t) := mk (snapshot t) (catalog t) (changes t) (author_info t).
#[export] Instance set_catalog `{External} : Setter catalog := ltac:(mk_setter eta catalog).
#[export] Instance set_changes `{External} : Setter changes := ltac:(mk_setter eta changes).

(** [Transaction::new]: the catalog of the snapshot, no changes. *)
Definition new `{External} (snapshot : SnapshotInfo) (catalog : Catalog)
    (author_info : AuthorInfo.t) : t := mk snapshot catalog [] author_info.
End Transaction.
#[export] Existing Instances Transaction.set_catalog Transaction.set_changes.
Abbreviation Transaction := Transaction.t.

(** ** [TransactionGuard] *)

Module TransactionGuard.
Section TransactionGuard.
Context `{EXT : External}.

(** The operation runs under a guard: when it does not reach [commit()],
    because of an error or a panic, dropping the guard restores the catalog and
    the changes. *)
Definition guarded {A} (m : method Transaction A) : method Transaction A :=
  fun tx =>
    match m tx with
    | (Ok a, tx') => (Ok a, tx')
    | (res, tx') =>
        (res, tx' <| Transaction.catalog := Transaction.catalog tx |>
                  <| Transaction.changes := Transaction.changes tx |>)
    end.
End TransactionGuard.
End TransactionGuard.

(** ** What the operations take from outside *)

Inductive IfExistsStrategy : Type := Fail | Skip.

Module DataFileStatistics.
Record t `{External} : Type := mk {
  num_rows : Z; file_size_bytes : option Z; footer_size_bytes : option Z;
  column_stats : gmap Z FileColumnStats.t;
}.
#[global] Arguments mk {_} num_rows file_size_bytes footer_size_bytes column_stats.
End DataFileStatistics.

Module WriteDataFile.
Record t `{External} : Type := mk {
  path : string;
  encryption_key : option string;
  statistics : option DataFileStatistics.t;
  partition_values : option (list (string * option Value));
}.
#[global] Arguments mk {_} path encryption_key statistics partition_values.
End WriteDataFile.

Module ScanDeleteFile.
Record t : Type := mk {
  path : string; encryption_key : option string; num_deletes : Z;
  file_size_bytes : option Z; footer_size_bytes : option Z;
}.
End ScanDeleteFile.

Module TransferDataFile.
Record t `{External} : Type := mk {
  data_file : WriteDataFile.t;
  partition_values : option (list (option string));
  delete_files : list ScanDeleteFile.t;
  inline_deletes : list Z;
}.
#[global] Arguments mk {_} data_file partition_values delete_files inline_deletes.
End TransferDataFile.

(** Parquet footers ([io/parquet]) and record batches ([io/arrow]): the
    statistics of a file, the conversion of a batch to a schema, the statistics
    of a batch. *)
Class DataFormats `{External} : Type := {
  read_file_statistics : DucklakePath -> option string -> result DataFileStatistics.t;
  match_to_schema : RecordBatch -> Schema -> result RecordBatch;
  compute_record_batch_statistics : Schema -> RecordBatch -> gmap Z ArrayColumnStats.t;
}.

(** SQL text: [view::parse_select_query] with the formatting of its statement,
    [dialect_from_str], [parse_scalar_macro_expression], and whether a text is
    one query; the parts of a [rust_decimal::Decimal]; the derived [Display] of
    errors. *)
Class SqlText `{External} : Type := {
  normalize_select_query : string -> string -> result string;
  known_sql_dialect : string -> bool;
  is_scalar_macro_expression : string -> string -> bool;
  is_single_query : string -> string -> bool;
  decimal_scale : Decimal -> Z;
  decimal_mantissa : Decimal -> Z;
  error_text : DucklakeError -> string;
}.

(** ** Equality of data types ([derive(PartialEq)]) *)

Section DataTypeEquality.
Context `{EXT : External}.

Definition ColumnDefault_eqb (a b : ColumnDefault) : bool :=
  match a, b with
  | ColumnDefault.Literal a, ColumnDefault.Literal b => ColumnStats.option_eqb Value.eqb a b
  | ColumnDefault.Expression d e, ColumnDefault.Expression d' e' =>
      bool_decide (d = d') && bool_decide (e = e')
  | _, _ => false
  end.

Definition TimestampPrecision_eqb (a b : TimestampPrecision) : bool :=
  match a, b with
  | Seconds, Seconds | Milliseconds, Milliseconds | Microseconds, Microseconds
  | Nanoseconds, Nanoseconds => true
  | _, _ => false
  end.

Fixpoint DataType_eqb (a b : DataType) {struct a} : bool :=
  match a, b with
  | DataType.Boolean, DataType.Boolean
  | DataType.Int8, DataType.Int8 | DataType.Int16, DataType.Int16
  | DataType.Int32, DataType.Int32 | DataType.Int64, DataType.Int64
  | DataType.Int128, DataType.Int128
  | DataType.UInt8, DataType.UInt8 | DataType.UInt16, DataType.UInt16
  | DataType.UInt32, DataType.UInt32 | DataType.UInt64, DataType.UInt64
  | DataType.UInt128, DataType.UInt128
  | DataType.Float32, DataType.Float32 | DataType.Float64, DataType.Float64
  | DataType.Time, DataType.Time | DataType.TimeTz, DataType.TimeTz
  | DataType.Date, DataType.Date | DataType.TimestampTz, DataType.TimestampTz
  | DataType.Interval, DataType.Interval | DataType.Varchar, DataType.Varchar
  | DataType.Blob, DataType.Blob | DataType.Json, DataType.Json
  | DataType.Variant, DataType.Variant | DataType.Geometry, DataType.Geometry
  | DataType.Uuid, DataType.Uuid => true
  | DataType.Decimal p s, DataType.Decimal p' s' => Z.eqb p p' && Z.eqb s s'
  | DataType.Timestamp p, DataType.Timestamp p' => TimestampPrecision_eqb p p'
  | DataType.List c, DataType.List c' => Column_eqb c c'
  | DataType.Struct l, DataType.Struct l' =>
      (fix go (l l' : list Column) : bool :=
         match l, l' with
         | [], [] => true
         | c :: l, c' :: l' => Column_eqb c c' && go l l'
         | _, _ => false
         end) l l'
  | DataType.Map k v, DataType.Map k' v' => Column_eqb k k' && Column_eqb v v'
  | _, _ => false
  end
with Column_eqb (a b : Column) {struct a} : bool :=
  match a, b with
  | DataType.mk_Column n d nl t i v f, DataType.mk_Column n' d' nl' t' i' v' f' =>
      bool_decide (n = n') && DataType_eqb d d' && Bool.eqb nl nl' && bool_decide (t = t') &&
      ColumnStats.option_eqb Value.eqb i i' && ColumnDefault_eqb v v' && bool_decide (f = f')
  end.

(** [Schema::columns_by_id]; of two columns with one ID the later is kept. *)
Fixpoint walk_columns (c : Column) (result : gmap Z Column) : gmap Z Column :=
  match c with
  | DataType.mk_Column _ dtype _ _ _ _ field_id =>
      let result := match field_id with Some id => <[id := c]> result | None => result end in
      match dtype with
      | DataType.List inner => walk_columns inner result
      | DataType.Struct fields =>
          (fix go (fields : list Column) (result : gmap Z Column) :=
             match fields with [] => result | f :: fields => go fields (walk_columns f result) end)
            fields result
      | DataType.Map key value => walk_columns value (walk_columns key result)
      | _ => result
      end
  end.
Definition columns_by_id (schema : Schema) : gmap Z Column :=
  foldl (fun result c => walk_columns c.2 result) ∅ (Schema.columns schema).
End DataTypeEquality.

(** ** The operations

    [db] is the database the queries of the operation see, [table_stats] the
    lazily loaded statistics of the snapshot the transaction started at. *)

Module Ops.
Section Ops.
Context `{EXT : External} `{TXT : !ValueText} `{ENG : !RegexEngine}
  `{CMP : !SqlCompare} `{ENGINE : !SqlEngine} `{FT : !FloatText} `{HASH : HashOrder}
  `{FMT : !DataFormats} `{SQL : !SqlText}.
Context (dialect : Dialect) (metadata : Metadata) (db : Db)
  (table_stats : result (gmap Z TableStats)).

Definition on_catalog {A} (m : method Catalog A) : method Transaction A :=
  st_zoom Transaction.catalog (fun c tx => tx <| Transaction.catalog := c |>) m.
Definition read {A} (f : Catalog -> result A) : method Transaction A :=
  tx ← st_get; st_lift (f (Transaction.catalog tx)).
Definition push (c : Change) : method Transaction unit :=
  st_modify (fun tx => tx <| Transaction.changes ::= fun l => l ++ [c] |>).

Definition skips (s : IfExistsStrategy) : bool := match s with Skip => true | Fail => false end.

Definition parse_path (s : string) : result DucklakePath :=
  match DucklakePath.from_str s with Ok p => Ok p | Err e => Err (Parsing e) | Panic => Panic end.

(** *** Listings ([transaction/mod.rs]) *)

Definition of_schemas {R A} (schema : option string)
    (list_ : Catalog -> SchemaRef -> result (list R)) (info : Catalog -> R -> result A) (c : Catalog)
    : result (list A) :=
  refs ← match schema with
         | Some name => r ← Catalog.schema_by_name c name; mret [r]
         | None => mret (Catalog.list_schemas c)
         end;
  lists ← map_outcome (fun r => l ← list_ c r; map_outcome (info c) l) refs;
  mret (concat lists).

Definition list_tables (schema : option string) (c : Catalog) : result (list QualifiedName) :=
  of_schemas schema Catalog.list_tables Catalog.table_name c.
Definition list_views (schema : option string) (c : Catalog) : result (list QualifiedName) :=
  of_schemas schema Catalog.list_views Catalog.view_name c.
Definition list_macros (schema : option string) (c : Catalog)
    : result (list (QualifiedName * MacroType)) :=
  of_schemas schema Catalog.list_macros
    (fun c r => name ← Catalog.macro_name c r; t ← Catalog.macro_type c r; mret (name, t)) c.
Definition list_schemas (c : Catalog) : result (list string) :=
  map_outcome (Catalog.schema_name c) (Catalog.list_schemas c).

(** *** Tables: creation and deletion ([transaction/table.rs]) *)

(** The field IDs of the columns, nested ones included, and those of retired columns *)
Definition reserved_column_ids (columns : list Column) (retired : list DucklakeColumn) : list Z :=
  omap (fun flat => Column.field_id (Column.column flat)) (concat (Column.flatten <$> columns)) ++
  (DucklakeColumn.column_id <$> retired).
Definition max_of (l : list Z) : option Z :=
  foldl (fun acc z => Some match acc with Some m => Z.max m z | None => z end) None l.

Definition create_table_inner (name : QualifiedName) (columns : list Column)
    (partition_columns : option (list PartitionColumn)) (sort_info : option (list SortExpression))
    (path : option string) (tags : option Tags) (if_exists : IfExistsStrategy)
    (retired_columns : option (list DucklakeColumn)) : method Transaction unit :=
  tx ← st_get;
  if skips if_exists && is_ok (Catalog.table_by_name (Transaction.catalog tx) name) then mret tt
  else
    path ← st_lift (parse_path (default (QualifiedName.name name) path));
    let path := DucklakePath.ensure_directory path in
    let tags := default ∅ tags in
    schema ← st_lift (Schema_try_from columns);
    let info := TableInfo.mk name schema partition_columns sort_info tags in
    let next_column_id := (fun retired =>
      i64_add (default 0%Z (max_of (reserved_column_ids columns retired))) 1) <$> retired_columns in
    '(schema_ref, table_ref, column_refs, partition_refs) ←
      on_catalog (Catalog.add_table info path next_column_id);
    push (Change.CreateTable schema_ref table_ref column_refs partition_refs name columns
            (default [] retired_columns) partition_columns sort_info path tags).

Definition create_table (name : QualifiedName) (columns : list Column)
    (partition_columns : option (list PartitionColumn)) (sort_info : option (list SortExpression))
    (path : option string) (tags : option Tags) (if_exists : IfExistsStrategy)
    : method Transaction unit :=
  create_table_inner name columns partition_columns sort_info path tags if_exists None.

Definition create_transfer_table (name : QualifiedName) (info : TableInfo.t)
    (retired_columns : list DucklakeColumn) : method Transaction unit :=
  create_table_inner name (Schema.columns (TableInfo.schema info)).*2 (TableInfo.partitioning info)
    (TableInfo.sort_info info) None (Some (TableInfo.tags info)) Fail (Some retired_columns).

Definition delete_table_inner (name : QualifiedName) (detach_files : bool)
    : method Transaction unit :=
  r ← read (fun c => Catalog.table_by_name c name);
  on_catalog (Catalog.delete_table r) ;;
  push (Change.DeleteTable r detach_files).

Definition delete_table (name : QualifiedName) (if_not_exists : IfExistsStrategy)
    : method Transaction unit :=
  tx ← st_get;
  if skips if_not_exists && negb (is_ok (Catalog.table_by_name (Transaction.catalog tx) name))
  then mret tt else delete_table_inner name false.

Definition delete_table_transferring_file_ownership (name : QualifiedName)
    : method Transaction unit := delete_table_inner name true.

(** *** Views ([transaction/view.rs]) *)

Definition create_view (name : QualifiedName) (sql : string) (column_aliases : option (list string))
    (tags : option Tags) (if_exists : IfExistsStrategy) : method Transaction unit :=
  tx ← st_get;
  if skips if_exists && is_ok (Catalog.view_by_name (Transaction.catalog tx) name) then mret tt
  else
    sql ← st_lift (normalize_select_query sql "duckdb");
    let tags := default ∅ tags in
    '(schema_ref, view_ref) ← on_catalog (Catalog.add_view
      (ViewInfo.mk name sql "duckdb" column_aliases tags));
    push (Change.CreateView schema_ref view_ref name sql "duckdb" column_aliases tags).

Definition delete_view (name : QualifiedName) (if_not_exists : IfExistsStrategy)
    : method Transaction unit :=
  tx ← st_get;
  if skips if_not_exists && negb (is_ok (Catalog.view_by_name (Transaction.catalog tx) name))
  then mret tt
  else
    r ← read (fun c => Catalog.view_by_name c name);
    on_catalog (Catalog.delete_view r) ;;
    push (Change.DeleteView r).

(** *** Macros ([transaction/macro_.rs]) *)

Definition is_ascii_hexdigit (c : ascii) : bool :=
  let n := N_of_ascii c in
  ((48 <=? n) && (n <=? 57) || (65 <=? n) && (n <=? 70) || (97 <=? n) && (n <=? 102))%N.
Definition is_ascii_graphic (c : ascii) : bool :=
  let n := N_of_ascii c in ((33 <=? n) && (n <=? 126))%N.

(** The loop over the bytes, from [index] on *)
Fixpoint is_macro_blob (bytes : list ascii) : bool :=
  match bytes with
  | [] => true
  | c :: rest =>
      if decide (c = "\"%char) then
        match rest with
        | x :: h :: l :: rest' =>
            bool_decide (x = "x"%char) && is_ascii_hexdigit h && is_ascii_hexdigit l &&
            is_macro_blob rest'
        | _ => false
        end
      else if is_ascii_graphic c || bool_decide (c = " "%char) then is_macro_blob rest
      else false
  end.

Definition quoted (s : string) : string := "'" +:+ s +:+ "'".

Definition normalize_data_type (data_type parameter_name : string) : result string :=
  let normalized := to_ascii_lowercase data_type in
  if bool_decide (normalized ∈ ["list"; "struct"; "map"]) then
    Err (InvalidMacro ("nested type " +:+ quoted data_type +:+ " for parameter " +:+
      quoted parameter_name +:+ " cannot be safely reconstructed from DuckLake macro metadata"))
  else
    match DataTypeOps.parse_primitive normalized with
    | Ok (DataType.Decimal precision scale) =>
        if negb ((1 <=? precision) && (precision <=? 38))%Z || (precision <? scale)%Z
        then Err (InvalidMacro ("invalid DuckLake type " +:+ quoted data_type +:+
               " for parameter " +:+ quoted parameter_name))
        else Ok (DataTypeOps.to_string (DataType.Decimal precision scale))
    | Ok d => Ok (DataTypeOps.to_string d)
    | Err _ => Err (InvalidMacro ("invalid DuckLake type " +:+ quoted data_type +:+
                 " for parameter " +:+ quoted parameter_name))
    | Panic => Panic
    end.

(** [value.mantissa().unsigned_abs().to_string().len()] *)
Definition decimal_digits (mantissa : Z) : Z :=
  Z.of_nat (String.length (i64_to_string (Z.abs mantissa))).

Definition validate_default_value (data_type value : string) : result unit :=
  if decide (data_type = "varchar") then Ok tt
  else if decide (data_type = "boolean" /\
    (eq_ignore_ascii_case value "true" || eq_ignore_ascii_case value "false") = true) then Ok tt
  else if decide (data_type = "blob" /\ is_macro_blob (chars value) = true) then Ok tt
  else if decide (data_type = "interval" \/ data_type = "json") then
    Err (InvalidMacro ("defaults of type " +:+ quoted data_type +:+
      " are not supported because their macro serialization cannot be validated safely"))
  else
    dtype ← DataTypeOps.parse_primitive data_type;
    parsed ← value_parse dtype value;
    parsed ← ok_or (InvalidMacro ("NULL is not a valid default for type " +:+ quoted data_type)) parsed;
    match dtype, parsed with
    | DataType.Decimal precision scale, Value.Decimal d =>
        let fractional_digits := decimal_scale d in
        let integer_digits :=
          if Z.eqb (decimal_mantissa d) 0 then 0%Z
          else Z.max 0 (decimal_digits (decimal_mantissa d) - fractional_digits) in
        if ((scale <? fractional_digits) || (precision - scale <? integer_digits))%Z
        then Err (InvalidMacro ("value is out of range for decimal(" +:+ i64_to_string precision
               +:+ ", " +:+ i64_to_string scale +:+ ")"))
        else Ok tt
    | _, _ => Ok tt
    end.

Definition validate_default_as (parameter_name data_type value : string) : result unit :=
  if decide (data_type = "unknown") then Ok tt
  else match validate_default_value data_type value with
       | Err e => Err (InvalidMacro ("invalid default value for parameter " +:+
                    quoted parameter_name +:+ " as " +:+ data_type +:+ ": " +:+ error_text e))
       | res => res
       end.

Definition normalize_parameter (p : MacroParameter.t) : result MacroParameter.t :=
  let name := MacroParameter.name p in
  data_type ←
    if eq_ignore_ascii_case (MacroParameter.data_type p) "unknown" then Ok "unknown"
    else normalize_data_type (MacroParameter.data_type p) name;
  match MacroParameter.default_value p with
  | None =>
      if eq_ignore_ascii_case (MacroParameter.default_value_type p) "unknown"
      then Ok (MacroParameter.mk name data_type None "unknown")
      else Err (InvalidMacro ("parameter " +:+ quoted name
             +:+ " has a default type but no default value"))
  | Some value =>
      if decide (MacroParameter.default_value_type p = "unknown")
      then Err (InvalidMacro ("default value for parameter " +:+ quoted name
             +:+ " requires a default value type"))
      else
        default_value_type ← normalize_data_type (MacroParameter.default_value_type p) name;
        validate_default_as name default_value_type value ;;
        validate_default_as name data_type value ;;
        mret (MacroParameter.mk name data_type (Some value) default_value_type)
  end.

(** The loop over the parameters: names seen, whether a default was seen *)
Fixpoint normalize_parameters (names : list string) (saw_default : bool)
    (parameters : list MacroParameter.t) : result (list MacroParameter.t) :=
  match parameters with
  | [] => Ok []
  | p :: parameters =>
      let key := to_ascii_lowercase (MacroParameter.name p) in
      if bool_decide (MacroParameter.name p = "") || bool_decide (key ∈ names)
      then Err (InvalidMacro ("invalid or duplicate parameter " +:+ quoted (MacroParameter.name p)))
      else if saw_default && bool_decide (MacroParameter.default_value p = None)
      then Err (InvalidMacro "required parameters must precede default parameters")
      else
        p ← normalize_parameter p;
        rest ← normalize_parameters (key :: names)
                 (saw_default || negb (bool_decide (MacroParameter.default_value p = None))) parameters;
        mret (p :: rest)
  end.

Definition validate_implementation (macro_type : MacroType) (i : MacroImplementation)
    : result MacroImplementation :=
  let sql := MacroImplementation.sql i in
  let dialect := MacroImplementation.dialect i in
  if negb (known_sql_dialect dialect)
  then Err (InvalidMacro ("invalid SQL dialect " +:+ quoted dialect))
  else if negb match macro_type with
               | Scalar => is_scalar_macro_expression sql dialect
               | Table => is_single_query sql dialect
               end
  then Err (InvalidMacro "macro SQL must be one scalar expression or one table query")
  else
    parameters ← normalize_parameters [] false (MacroImplementation.parameters i);
    mret (MacroImplementation.mk dialect sql parameters).

Fixpoint validate_each (macro_type : MacroType) (signatures : list (string * list string))
    (implementations : list MacroImplementation) : result (list MacroImplementation) :=
  match implementations with
  | [] => Ok []
  | i :: implementations =>
      i ← validate_implementation macro_type i;
      let signature := (to_ascii_lowercase (MacroImplementation.dialect i),
                        MacroParameter.data_type <$> MacroImplementation.parameters i) in
      if bool_decide (signature ∈ signatures)
      then Err (InvalidMacro "macro implementations must have unique parameter type signatures")
      else
        rest ← validate_each macro_type (signature :: signatures) implementations;
        mret (i :: rest)
  end.

Definition validate_implementations (macro_type : MacroType)
    (implementations : list MacroImplementation) : result (list MacroImplementation) :=
  match implementations with
  | [] => Err (InvalidMacro "a macro must have at least one implementation")
  | _ => validate_each macro_type [] implementations
  end.

Definition create_macro (name : QualifiedName) (macro_type : MacroType)
    (implementations : list MacroImplementation) (if_exists : IfExistsStrategy)
    : method Transaction unit :=
  tx ← st_get;
  if skips if_exists && is_ok (Catalog.macro_by_name (Transaction.catalog tx) name macro_type)
  then mret tt
  else
    implementations ← st_lift (validate_implementations macro_type implementations);
    '(schema_ref, macro_ref) ← on_catalog (Catalog.add_macro
      (MacroInfo.mk name macro_type implementations));
    push (Change.CreateMacro schema_ref macro_ref name macro_type implementations).

Definition delete_macro (name : QualifiedName) (macro_type : MacroType)
    (if_not_exists : IfExistsStrategy) : method Transaction unit :=
  tx ← st_get;
  if skips if_not_exists &&
     negb (is_ok (Catalog.macro_by_name (Transaction.catalog tx) name macro_type))
  then mret tt
  else
    r ← read (fun c => Catalog.macro_by_name c name macro_type);
    on_catalog (Catalog.delete_macro r) ;;
    push (Change.DeleteMacro r macro_type).

(** *** Schemas ([transaction/schema.rs]) *)

Definition create_schema (name : string) (path : option string) (if_exists : IfExistsStrategy)
    : method Transaction unit :=
  tx ← st_get;
  if skips if_exists && is_ok (Catalog.schema_by_name (Transaction.catalog tx) name) then mret tt
  else
    path ← st_lift (parse_path (default name path));
    let path := DucklakePath.ensure_directory path in
    schema_ref ← on_catalog (Catalog.add_schema name path);
    push (Change.CreateSchema schema_ref name path).

Definition delete_schema (name : string) (cascade : bool) (if_not_exists : IfExistsStrategy)
    : method Transaction unit :=
  tx ← st_get;
  if skips if_not_exists && negb (is_ok (Catalog.schema_by_name (Transaction.catalog tx) name))
  then mret tt
  else
    (if cascade then
       tables ← read (list_tables (Some name));
       st_for (fun table => delete_table table Fail) tables ;;
       views ← read (list_views (Some name));
       st_for (fun view => delete_view view Fail) views ;;
       macros ← read (list_macros (Some name));
       st_for (fun '(macro_name, macro_type) => delete_macro macro_name macro_type Fail) macros
     else mret tt) ;;
    r ← read (fun c => Catalog.schema_by_name c name);
    on_catalog (Catalog.delete_schema r) ;;
    push (Change.DeleteSchema r).
End Ops.
End Ops.
