(* ===== verification/TransactionTable.v ===== *)
(** * The operations of a transaction on a table ([transaction/table.rs], [utils/filepath_generator.rs])

    Writing data files and inline data, and changing the metadata of a table:
    its name, columns, data types, partitioning, sort order and tags. *)

From Stdlib Require Import SpecFloat.
From S2P Require Import Prelude Text Regex Identifier Types Instances Entities CatalogColumns.
From S2P Require Import Catalog TableStats Differences CommitState Change Dialect Database Load Metadata.
From S2P Require Import Transactions.

(** Names of new files ([Uuid::now_v7]) and the percent encoding of partition
    values ([percent_encoding]) *)
Class FileNames : Type := { percent_encode : string -> string }.

Module DataFilePathGenerator.
Record t `{External} : Type := mk { base_path : DucklakePath; hive_file_pattern : bool }.
#[global] Arguments mk {_} base_path hive_file_pattern.

Section DataFilePathGenerator.
Context `{EXT : External} `{TXT : !ValueText} `{NAMES : !FileNames}.

Definition last_path_component (uuid : string) : string := "ducklake-" +:+ uuid +:+ ".parquet".

(** [uuid] is the fresh identifier of the file. *)
Definition generate_relative (self : t) (uuid : string)
    (partition_values : list (string * option Value)) : string :=
  match partition_values with
  | [] => last_path_component uuid
  | _ =>
      if hive_file_pattern self then
        String.concat "/" (((fun '(col, val) =>
          col +:+ "=" +:+ percent_encode (value_to_string_opt val)) <$> partition_values) ++
          [last_path_component uuid])
      else last_path_component uuid
  end.

Definition generate_absolute (self : t) (uuid : string)
    (partition_values : list (string * option Value)) : outcome Empty_set string :=
  DucklakePath.as_str <$>
    DucklakePath.join_str (base_path self) (generate_relative self uuid partition_values).
End DataFilePathGenerator.
End DataFilePathGenerator.

Module TableOps.
Section TableOps.
Context `{EXT : External} `{TXT : !ValueText} `{ENG : !RegexEngine}
  `{CMP : !SqlCompare} `{ENGINE : !SqlEngine} `{FT : !FloatText} `{HASH : HashOrder}
  `{FMT : !DataFormats}.
Context (dialect : Dialect) (metadata : Metadata) (db : Db)
  (table_stats : result (gmap Z TableStats)).

(** A table by its name, for reading *)
Definition table_ref (name : QualifiedName) : method Transaction TableRef :=
  Ops.read (fun c => Catalog.table_by_name c name).

(** [catalog.table_mut(name)?.column_mut(path)?] *)
Definition column_ref (name : QualifiedName) (column : list string) : method Transaction ColumnRef :=
  r ← table_ref name; Ops.read (fun c => Catalog.column_by_path c r column).

(** What a handle on a table shows, uncommitted changes included *)
Definition tags (name : QualifiedName) (c : Catalog) : result Tags :=
  r ← Catalog.table_by_name c name; Catalog.table_tags c r.
Definition columns (name : QualifiedName) (c : Catalog) : result (list Column) :=
  r ← Catalog.table_by_name c name;
  schema ← Catalog.table_schema c r;
  mret (Schema.columns schema).*2.
Definition partitioning (name : QualifiedName) (c : Catalog) : result (option Partition) :=
  r ← Catalog.table_by_name c name; Catalog.table_partitioning c r.
Definition sort_info (name : QualifiedName) (c : Catalog) : result (option SortInfo) :=
  r ← Catalog.table_by_name c name; Catalog.table_sort_info c r.

(** *** Writing *)

Definition get_table_write_info (table_name : QualifiedName) (c : Catalog)
    : result (TableMetadata.t * DataFilePathGenerator.t * bool * bool) :=
  r ← Catalog.table_by_name c table_name;
  root ← Metadata.data_path metadata;
  data_path ← Catalog.table_data_path c r root;
  parent ← Catalog.table_parent_schema c r;
  schema_id ← Catalog.schema_id c parent;
  table_id ← Catalog.table_id c r;
  let info := Metadata.table_metadata metadata schema_id table_id in
  schema ← Catalog.table_schema c r;
  mret (info, DataFilePathGenerator.mk data_path (TableMetadata.hive_file_pattern info),
        Dialect.supports_data_inlining dialect schema, Metadata.encrypted metadata).

(** The statistics of the columns, by column reference. The entries of a hash
    map are visited in any order, which decides the error when there are
    several. *)
Definition resolve_column_stats {S} (null_count : S -> option Z) (schema_columns : gmap Z Column)
    (c : Catalog) (r : TableRef) (stats : gmap Z S) : result (gmap ColumnRef S) :=
  list_to_map <$> map_outcome (fun '(column_id, s) =>
    match schema_columns !! column_id with
    | Some col =>
        if negb (Column.nullable col) && (0 <? default 0 (null_count s))%Z
        then Err (InvalidNullValue (Column.name col))
        else col_ref ← Catalog.column_by_id c r column_id; mret (col_ref, s)
    | None => col_ref ← Catalog.column_by_id c r column_id; mret (col_ref, s)
    end) (hash_iter stats).

(** The partition values of a file: of every partition column, or none *)
Definition file_partition_values (partitioning : option Partition)
    (values : option (list (string * option Value))) : option (list (option string)) :=
  match partitioning, values with
  | Some target, Some p =>
      mapM (M := option) (fun col =>
        fmap (M := option) value_to_string <$> IndexMap.get (PartitionColumn.column col) p) target
  | _, _ => None
  end.

Definition commit_delete_file (f : ScanDeleteFile.t) : result CommitDeleteFile.t :=
  path ← Ops.parse_path (ScanDeleteFile.path f);
  mret (CommitDeleteFile.mk path (ScanDeleteFile.encryption_key f) (ScanDeleteFile.num_deletes f)
          (ScanDeleteFile.file_size_bytes f) (ScanDeleteFile.footer_size_bytes f)).

(** Statistics come with the file or are read from its footer. *)
Definition file_statistics (base_path path : DucklakePath) (f : TransferDataFile.t)
    : result DataFileStatistics.t :=
  path ← infallible (DucklakePath.join base_path path);
  match WriteDataFile.statistics (TransferDataFile.data_file f) with
  | Some stats => Ok stats
  | None => read_file_statistics path (WriteDataFile.encryption_key (TransferDataFile.data_file f))
  end.

Definition commit_data_file (c : Catalog) (r : TableRef) (info : TableInfo.t)
    (f : TransferDataFile.t) (path : DucklakePath) (stats : DataFileStatistics.t)
    : result CommitDataFile.t :=
  let data_file := TransferDataFile.data_file f in
  column_stats ← resolve_column_stats FileColumnStats.null_count
                   (columns_by_id (TableInfo.schema info)) c r (DataFileStatistics.column_stats stats);
  delete_files ← map_outcome commit_delete_file (TransferDataFile.delete_files f);
  mret (CommitDataFile.mk path (WriteDataFile.encryption_key data_file)
    (match TransferDataFile.partition_values f with
     | Some values => Some values
     | None => file_partition_values (TableInfo.partitioning info)
                 (WriteDataFile.partition_values data_file)
     end)
    (DataFileStatistics.num_rows stats) (DataFileStatistics.file_size_bytes stats)
    (DataFileStatistics.footer_size_bytes stats) column_stats delete_files
    (TransferDataFile.inline_deletes f)).

Definition is_encrypted (f : TransferDataFile.t) : bool :=
  match WriteDataFile.encryption_key (TransferDataFile.data_file f) with
  | Some _ => true | None => false
  end.

Definition transfer_data_files (c : Catalog) (table_name : QualifiedName)
    (data_files : list TransferDataFile.t) : result (TableRef * list CommitDataFile.t) :=
  r ← Catalog.table_by_name c table_name;
  root ← Metadata.data_path metadata;
  base_path ← Catalog.table_data_path c r root;
  info ← Catalog.table_info c r;
  let encrypted := Metadata.encrypted metadata in
  if existsb (fun f => negb (Bool.eqb (is_encrypted f) encrypted)) data_files
  then Err (InvalidChanges
         (if encrypted then "cannot register an unencrypted file in an encrypted catalog"
          else "cannot register an encrypted file in an unencrypted catalog"))
  else
    paths ← map_outcome (fun f =>
      Ops.parse_path (WriteDataFile.path (TransferDataFile.data_file f))) data_files;
    statistics ← map_outcome (fun '(f, path) => file_statistics base_path path f)
                   (zip data_files paths);
    files ← map_outcome (fun '((f, path), stats) => commit_data_file c r info f path stats)
              (zip (zip data_files paths) statistics);
    mret (r, files).

Definition write_table_transfer_data_files (table_name : QualifiedName)
    (data_files : list TransferDataFile.t) : method Transaction unit :=
  '(r, files) ← Ops.read (fun c => transfer_data_files c table_name data_files);
  Ops.push (Change.WriteTableDataFiles r files).

Definition write_table_data_files (table_name : QualifiedName) (data_files : list WriteDataFile.t)
    : method Transaction unit :=
  write_table_transfer_data_files table_name
    ((fun f => TransferDataFile.mk f None [] []) <$> data_files).

(** [write_fn] writes the files. *)
Definition write_table_data (table_name : QualifiedName)
    (write_fn : TableMetadata.t -> DataFilePathGenerator.t -> bool -> result (list WriteDataFile.t))
    : method Transaction unit :=
  '(info, generator, _, encrypted) ← Ops.read (get_table_write_info table_name);
  data_files ← st_lift (write_fn info generator encrypted);
  write_table_data_files table_name data_files.

Definition inline_data (c : Catalog) (r : TableRef) (schema : Schema) (batch : RecordBatch)
    : result CommitInlineData.t :=
  batch ← match_to_schema batch schema;
  column_stats ← resolve_column_stats ArrayColumnStats.null_count (columns_by_id schema) c r
                   (compute_record_batch_statistics schema batch);
  mret (CommitInlineData.mk batch column_stats).

Definition write_table_inline_data (table_name : QualifiedName) (data : list RecordBatch)
    : method Transaction unit :=
  r ← table_ref table_name;
  schema ← Ops.read (fun c => Catalog.table_schema c r);
  if negb (Dialect.supports_data_inlining dialect schema)
  then st_throw (InvalidChanges "cannot inline data for this table; write Parquet files instead")
  else
    data ← Ops.read (fun c => map_outcome (inline_data c r schema) data);
    Ops.push (Change.WriteTableInlineData r data).

(** *** Renaming *)

Definition rename_table (old_name : QualifiedName) (new_name : string) : method Transaction unit :=
  if decide (QualifiedName.name old_name = new_name) then mret tt
  else
    r ← table_ref old_name;
    Ops.on_catalog (Catalog.rename_table r new_name) ;;
    Ops.push (Change.RenameTable r (QualifiedName.mk (QualifiedName.schema old_name) new_name)).

(** *** Columns *)

(** [SELECT MAX(column_id)]; no row gives [NULL], which is not an [i64]. *)
Definition load_next_column_id (table_id : Z) : result Z :=
  rows ← select (TABLE DucklakeColumn) (Cond.Eq "table_id" (to_sql table_id)) db;
  columns ← Tx.decode_rows rows;
  max_col ← ok_or (Database false false "column decoding error")
              (Ops.max_of (DucklakeColumn.column_id <$> columns));
  mret (i64_add max_col 1).

Definition add_table_column (table_name : QualifiedName) (column : Column)
    (parent_path : list string) : method Transaction unit :=
  r ← table_ref table_name;
  Ops.on_catalog (Catalog.ensure_next_column_id load_next_column_id r) ;;
  '(parent_column_ref, column_refs) ← Ops.on_catalog (Catalog.add_column r parent_path column);
  Ops.push (Change.AddTableColumn parent_column_ref column_refs column).

Definition remove_table_column (table_name : QualifiedName) (column : list string)
    : method Transaction unit :=
  c ← column_ref table_name column;
  column_refs ← Ops.on_catalog (Catalog.remove_column c);
  st_for (fun column_ref => Ops.push (Change.RemoveTableColumn column_ref)) column_refs.

(** The change that rewrites a column as the catalog now has it *)
Definition update_table_column_change (c : ColumnRef) (cat : Catalog) : result Change :=
  parent ← Catalog.column_parent_ref cat c;
  column ← Catalog.column_info cat c;
  mret (Change.UpdateTableColumn parent c column).
Definition push_column_update (c : ColumnRef) : method Transaction unit :=
  change ← Ops.read (update_table_column_change c); Ops.push change.

Definition rename_table_column (table_name : QualifiedName) (column : list string)
    (new_name : string) : method Transaction unit :=
  last ← st_lift (unwrap (last column));
  if decide (last = new_name) then mret tt
  else
    c ← column_ref table_name column;
    Ops.on_catalog (Catalog.rename_column c new_name) ;;
    change ← Ops.read (update_table_column_change c);
    let r := ColumnRef.table_ref c in
    included ← Ops.read (fun cat => Catalog.sort_info_includes_column cat r c);
    expressions ← (if included : bool then
                     sort_info ← Ops.read (fun cat => Catalog.table_sort_info cat r);
                     sort_info ← st_lift (unwrap sort_info);
                     mret (Some sort_info)
                   else mret None);
    Ops.push change ;;
    st_when_some (fun expressions => Ops.push (Change.UpdateTableSortInfo r (Some expressions)))
      expressions.

Definition update_table_column_default (table_name : QualifiedName) (column : list string)
    (default_value : ColumnDefault) : method Transaction unit :=
  c ← column_ref table_name column;
  Ops.on_catalog (Catalog.update_default_value c default_value) ;;
  push_column_update c.

(** Whether the statistics of the snapshot know of a null; a table without an
    ID, one created in this transaction, panics. *)
Definition known_to_contain_null (c : ColumnRef) (cat : Catalog) : result bool :=
  stats ← table_stats;
  table_id ← Catalog.table_id cat (ColumnRef.table_ref c);
  table_id ← unwrap table_id;
  column_id ← Catalog.column_id cat c;
  mret match stats !! table_id ≫= fun t => TableStats.column_stats t !! column_id with
       | Some s => default false (ColumnStats.contains_null s)
       | None => false
       end.

Definition update_table_column_nullability (table_name : QualifiedName) (column : list string)
    (nullable : bool) : method Transaction unit :=
  c ← column_ref table_name column;
  current ← Ops.read (fun cat => Catalog.column_nullable cat c);
  if Bool.eqb current nullable then mret tt
  else
    contains_null ← (if negb nullable then Ops.read (known_to_contain_null c) else mret false);
    if (contains_null : bool)
    then st_throw (InvalidNullabilityChange (format_identifier column))
    else
      Ops.on_catalog (Catalog.update_nullability c nullable) ;;
      push_column_update c.

(** [fuel] bounds the nesting of the existing data type; [exhausted] is what happens
    when it is used up, which the recursion is proved never to reach. *)
Fixpoint update_table_column_dtype_recursive (exhausted : method Transaction unit) (fuel : nat)
    (table_name : QualifiedName) (column_name : list string) (existing_dtype target_dtype : DataType)
    : method Transaction unit :=
  match fuel with
  | 0 => exhausted
  | S fuel =>
      if DataType_eqb existing_dtype target_dtype then mret tt
      else if DataTypeOps.can_promote_to existing_dtype target_dtype then
        c ← column_ref table_name column_name;
        Ops.on_catalog (Catalog.update_primitive_data_type c target_dtype) ;;
        push_column_update c
      else
        match existing_dtype, target_dtype with
        | DataType.Struct old_fields, DataType.Struct new_fields =>
            st_for (fun item =>
              match item with
              | Both old new =>
                  update_table_column_dtype_recursive exhausted fuel table_name
                    (column_name ++ [Column.name old]) (Column.dtype old) (Column.dtype new)
              | Left old => remove_table_column table_name (column_name ++ [Column.name old])
              | Right new => add_table_column table_name new column_name
              end) (iter_vec_diff old_fields new_fields Column.name)
        | DataType.List old_inner, DataType.List new_inner =>
            update_table_column_dtype_recursive exhausted fuel table_name (column_name ++ ["element"])
              (Column.dtype old_inner) (Column.dtype new_inner)
        | DataType.Map old_key old_value, DataType.Map new_key new_value =>
            update_table_column_dtype_recursive exhausted fuel table_name (column_name ++ ["key"])
              (Column.dtype old_key) (Column.dtype new_key) ;;
            update_table_column_dtype_recursive exhausted fuel table_name (column_name ++ ["value"])
              (Column.dtype old_value) (Column.dtype new_value)
        | _, _ => st_throw (InvalidCast existing_dtype target_dtype)
        end
  end.

(** The nesting of a data type, the fuel of the recursion above *)
Fixpoint depth (d : DataType) : nat :=
  let col (c : Column) := match c with DataType.mk_Column _ d _ _ _ _ _ => depth d end in
  match d with
  | DataType.List c => S (col c)
  | DataType.Struct cs => S (list_max (map col cs))
  | DataType.Map k v => S (Nat.max (col k) (col v))
  | _ => 1
  end.

Definition update_table_column_dtype (table_name : QualifiedName) (column : list string)
    (dtype : DataType) : method Transaction unit :=
  c ← column_ref table_name column;
  existing_column ← Ops.read (fun cat => Catalog.column_info cat c);
  TransactionGuard.guarded
    (update_table_column_dtype_recursive st_panic (depth (Column.dtype existing_column)) table_name column
       (Column.dtype existing_column) dtype).

Definition update_columns (name : QualifiedName)
    (item : EitherOrBoth (string * Column) (string * Column)) : method Transaction unit :=
  match item with
  | Both _ (col_name, col) =>
      update_table_column_dtype name [col_name] (Column.dtype col) ;;
      update_table_column_default name [col_name] (Column.default_value col) ;;
      update_table_column_nullability name [col_name] (Column.nullable col)
  | Left (col_name, _) => remove_table_column name [col_name]
  | Right (_, col) => add_table_column name col []
  end.

Definition update_table_schema (name : QualifiedName) (new_columns : list Column)
    : method Transaction unit :=
  r ← table_ref name;
  schema ← Ops.read (fun cat => Catalog.table_schema cat r);
  TransactionGuard.guarded
    (new_schema ← st_lift (Schema_try_from new_columns);
     st_for (update_columns name)
       (iter_index_map_diff (Schema.columns schema) (Schema.columns new_schema))).

(** *** Partitioning, sort order and tags *)

Definition update_table_partitioning (table_name : QualifiedName)
    (partition_columns : option (list PartitionColumn)) : method Transaction unit :=
  r ← table_ref table_name;
  partition_column_refs ← Ops.on_catalog (Catalog.update_partitioning r partition_columns);
  Ops.push (Change.UpdateTablePartitioning r partition_column_refs partition_columns).

Definition update_table_sort_info (table_name : QualifiedName)
    (expressions : option (list SortExpression)) : method Transaction unit :=
  r ← table_ref table_name;
  Ops.on_catalog (Catalog.update_sort_info r expressions) ;;
  Ops.push (Change.UpdateTableSortInfo r expressions).

Definition add_table_tag (name : QualifiedName) (key value : string) : method Transaction unit :=
  let tag := Tag.mk key value in
  r ← table_ref name;
  Ops.on_catalog (Catalog.add_table_tag r tag) ;;
  Ops.push (Change.AddTableTag r tag).

Definition remove_table_tag (name : QualifiedName) (key : string) : method Transaction unit :=
  r ← table_ref name;
  Ops.on_catalog (Catalog.remove_table_tag r key) ;;
  Ops.push (Change.RemoveTableTag r key).

Definition add_table_column_tag (table_name : QualifiedName) (column_name : list string)
    (key value : string) : method Transaction unit :=
  let tag := Tag.mk key value in
  c ← column_ref table_name column_name;
  Ops.on_catalog (Catalog.add_column_tag c tag) ;;
  Ops.push (Change.AddTableColumnTag c tag).

Definition remove_table_column_tag (table_name : QualifiedName) (column_name : list string)
    (key : string) : method Transaction unit :=
  c ← column_ref table_name column_name;
  Ops.on_catalog (Catalog.remove_column_tag c key) ;;
  Ops.push (Change.RemoveTableColumnTag c key).
End TableOps.
End TableOps.
