(* ===== verification/TransactionFacts.v ===== *)
(** * What the operations of a transaction keep

    Every operation, whether it succeeds, fails or panics, leaves a well-formed
    catalog, the snapshot and the author it started with, and a queue that
    extends the one before. The operations that run under a guard leave no trace
    when they fail. *)

From S2P Require Import Prelude Text Regex Identifier Types Instances Entities CatalogColumns.
From S2P Require Import Catalog CatalogFacts TableStats Differences CommitState Change Dialect Database Load.
From S2P Require Import Metadata Transactions TransactionTable.

Section Evolves.
Context `{EXT : External}.
Implicit Types tx : Transaction.

(** What an operation may do to a transaction *)
Record evolves tx tx' : Prop := {
  ev_catalog : well_formed (Transaction.catalog tx) -> well_formed (Transaction.catalog tx');
  ev_snapshot : Transaction.snapshot tx' = Transaction.snapshot tx;
  ev_author : Transaction.author_info tx' = Transaction.author_info tx;
  ev_changes : Transaction.changes tx `prefix_of` Transaction.changes tx';
}.

#[export] Instance evolves_preorder : PreOrder evolves.
Proof.
  split.
  - by intros tx; split.
  - intros tx1 tx2 tx3 [] []; split; [naive_solver|congruence..|by etrans].
Qed.

(** A computation that only does that, from any transaction whose catalog
    satisfies the invariant *)
Definition keeps {A} (m : method Transaction A) : Prop :=
  forall tx, well_formed (Transaction.catalog tx) -> evolves tx (m tx).2.

Lemma keeps_bind {A B} (m : method Transaction A) (f : A -> method Transaction B) :
  keeps m -> (forall a, keeps (f a)) -> keeps (m ≫= f).
Proof.
  intros Hm Hf tx Hwf; specialize (Hm tx Hwf); unfold mbind, stateful_bind.
  destruct (m tx) as [[a|e|] tx1]; cbn in *; [|done..].
  etrans; [exact Hm|]; apply Hf; by apply Hm.
Qed.
Lemma keeps_ret {A} (a : A) : keeps (mret a).
Proof. by intros tx. Qed.
Lemma keeps_get : keeps st_get.
Proof. by intros tx. Qed.
Lemma keeps_lift {A} (o : result A) : keeps (st_lift o).
Proof. by intros tx. Qed.
Lemma keeps_throw {A} e : keeps (A := A) (st_throw e).
Proof. by intros tx. Qed.
Lemma keeps_panic {A} : keeps (A := A) st_panic.
Proof. by intros tx. Qed.
Lemma keeps_read {A} (f : Catalog -> result A) : keeps (Ops.read f).
Proof. by intros tx. Qed.
Lemma keeps_push c : keeps (Ops.push c).
Proof. intros tx Hwf; split; cbn; [done..|]; by apply prefix_app_r. Qed.
Lemma keeps_on_catalog {A} (m : method Catalog A) :
  (forall c, well_formed c -> well_formed (m c).2) -> keeps (Ops.on_catalog m).
Proof.
  intros Hm tx Hwf; unfold Ops.on_catalog, st_zoom.
  specialize (Hm _ Hwf); destruct (m (Transaction.catalog tx)) as [r c]; split; cbn; auto.
Qed.
Lemma keeps_for {A} (body : A -> method Transaction unit) l :
  (forall x, keeps (body x)) -> keeps (st_for body l).
Proof. intros Hb; induction l; cbn; [apply keeps_ret|by apply keeps_bind]. Qed.
Lemma keeps_when_some {A} (body : A -> method Transaction unit) o :
  (forall x, keeps (body x)) -> keeps (st_when_some body o).
Proof. intros Hb; destruct o; [apply Hb|apply keeps_ret]. Qed.
Lemma keeps_guarded {A} (m : method Transaction A) : keeps m -> keeps (TransactionGuard.guarded m).
Proof.
  intros Hm tx Hwf; specialize (Hm tx Hwf); unfold TransactionGuard.guarded.
  destruct (m tx) as [[a|e|] tx']; cbn in *; [done|..]; by destruct Hm; split; cbn.
Qed.

(** Under a guard, a failure restores the transaction. *)
Lemma guarded_restores {A} (m : method Transaction A) tx :
  keeps m -> well_formed (Transaction.catalog tx) ->
  is_ok (TransactionGuard.guarded m tx).1 = false -> (TransactionGuard.guarded m tx).2 = tx.
Proof.
  intros Hm Hwf; specialize (Hm tx Hwf); unfold TransactionGuard.guarded.
  destruct (m tx) as [[a|e|] tx']; cbn in *; [done|..]; intros _;
    destruct Hm as [_ Hs Ha _], tx, tx'; cbn in *; by subst.
Qed.
End Evolves.
#[export] Hint Resolve keeps_ret keeps_get keeps_lift keeps_throw keeps_panic keeps_read keeps_push
  keeps_bind keeps_for keeps_when_some keeps_guarded keeps_on_catalog : ducklake.

(** Prove that a composed operation keeps the invariant. *)
Ltac keeps_step :=
  lazymatch goal with
  | |- keeps (_ ≫= _) => apply keeps_bind; [|intros ?]
  | |- keeps (Ops.on_catalog _) => apply keeps_on_catalog
  | |- keeps (st_for _ _) => apply keeps_for; intros ?
  | |- keeps (st_when_some _ _) => apply keeps_when_some; intros ?
  | |- keeps (TransactionGuard.guarded _) => apply keeps_guarded
  | |- keeps (match ?x with _ => _ end) => destruct x
  | |- keeps _ => first [solve [auto with ducklake] | progress cbv zeta]
  end.
Ltac keeps := repeat keeps_step; auto with ducklake.

Section ColumnUpdates.
Context `{EXT : External}.
Lemma wf_update_primitive r d c :
  well_formed c -> well_formed (Catalog.update_primitive_data_type r d c).2.
Proof. apply wf_update_column. Qed.
Lemma wf_update_default r v c : well_formed c -> well_formed (Catalog.update_default_value r v c).2.
Proof. apply wf_update_column. Qed.
Lemma wf_update_nullability r b c :
  well_formed c -> well_formed (Catalog.update_nullability r b c).2.
Proof. apply wf_update_column. Qed.
Lemma wf_add_column_tag r tag c : well_formed c -> well_formed (Catalog.add_column_tag r tag c).2.
Proof. apply wf_update_column. Qed.
End ColumnUpdates.

(** The catalog methods the operations call *)
#[export] Hint Resolve wf_add_schema wf_delete_schema wf_add_table wf_ensure_next_column_id
  wf_add_column wf_update_partitioning wf_update_sort_info wf_add_table_tag wf_remove_table_tag
  wf_update_column wf_rename_column wf_remove_column_tag wf_remove_column wf_delete_table
  wf_delete_view wf_delete_macro wf_add_view wf_add_macro wf_update_primitive wf_update_default
  wf_update_nullability wf_add_column_tag : ducklake.

Section Operations.
Context `{EXT : External} `{TXT : !ValueText} `{ENG : !RegexEngine} `{CMP : !SqlCompare}
  `{ENGINE : !SqlEngine} `{FT : !FloatText} `{HASH : HashOrder} `{FMT : !DataFormats}
  `{SQL : !SqlText}.
Context (dialect : Dialect) (metadata : Metadata) (db : Db)
  (table_stats : result (gmap Z TableStats)).

(** A name that leads to a table leads to a live table. *)
Lemma table_by_name_live c name r :
  well_formed c -> Catalog.table_by_name c name = Ok r -> live_table c r.
Proof.
  intros Hwf Hr; pose proof Hr as Hr'; revert Hr'; unfold Catalog.table_by_name.
  destruct (Catalog.schema_by_name c _) as [sr|e|] eqn:Hsr; [|done..]; cbn.
  destruct (Catalog.schema_inner c sr) as [s|e|] eqn:Hs; [|done..]; cbn.
  destruct (schema_by_name_inner _ _ _ _ Hsr Hs Hwf) as [_ [_ Htables _ _ _]].
  destruct (CatalogSchema.tables s !! _) as [i|] eqn:Hi; cbn; [|done]; intros [= <-].
  destruct (Htables _ _ Hi) as (t & Ht & Hn); exists t; split; [done|].
  unfold names_table in Hn; rewrite Hn; by rewrite <- qualified_eta.
Qed.

Lemma keeps_rename_table old_name new_name : keeps (TableOps.rename_table old_name new_name).
Proof.
  unfold TableOps.rename_table; keeps_step; [apply keeps_ret|].
  intros tx Hwf; unfold TableOps.table_ref, Ops.read, mbind, stateful_bind, st_get, st_lift.
  destruct (Catalog.table_by_name (Transaction.catalog tx) old_name) as [r|e|] eqn:Hr; [|done..].
  pose proof (wf_rename_table r new_name _ Hwf (table_by_name_live _ _ _ Hwf Hr)) as Hc.
  unfold Ops.on_catalog, st_zoom.
  destruct (Catalog.rename_table _ _ _) as [[[]|e|] c]; cbn in *; split; cbn; auto.
  by apply prefix_app_r.
Qed.
#[local] Hint Resolve keeps_rename_table : ducklake.

(** The operations of [Transaction] *)
Inductive tx_operation : Type :=
  | CreateSchema (name : string) (path : option string) (if_exists : IfExistsStrategy)
  | DeleteSchema (name : string) (cascade : bool) (if_not_exists : IfExistsStrategy)
  | CreateTable (name : QualifiedName) (columns : list Column)
      (partition_columns : option (list PartitionColumn))
      (sort_info : option (list SortExpression)) (path : option string) (tags : option Tags)
      (if_exists : IfExistsStrategy)
  | CreateTransferTable (name : QualifiedName) (info : TableInfo.t)
      (retired_columns : list DucklakeColumn)
  | DeleteTable (name : QualifiedName) (if_not_exists : IfExistsStrategy)
  | DeleteTableTransferringFileOwnership (name : QualifiedName)
  | CreateView (name : QualifiedName) (sql : string) (column_aliases : option (list string))
      (tags : option Tags) (if_exists : IfExistsStrategy)
  | DeleteView (name : QualifiedName) (if_not_exists : IfExistsStrategy)
  | CreateMacro (name : QualifiedName) (macro_type : MacroType)
      (implementations : list MacroImplementation) (if_exists : IfExistsStrategy)
  | DeleteMacro (name : QualifiedName) (macro_type : MacroType) (if_not_exists : IfExistsStrategy)
  | WriteData (name : QualifiedName) (write_fn : TableMetadata.t -> DataFilePathGenerator.t ->
      bool -> result (list WriteDataFile.t))
  | WriteTransferDataFiles (name : QualifiedName) (data_files : list TransferDataFile.t)
  | WriteInlineData (name : QualifiedName) (data : list RecordBatch)
  | RenameTable (name : QualifiedName) (new_name : string)
  | UpdateSchema (name : QualifiedName) (columns : list Column)
  | AddColumn (name : QualifiedName) (column : Column) (parent_path : list string)
  | RemoveColumn (name : QualifiedName) (column : list string)
  | RenameColumn (name : QualifiedName) (column : list string) (new_name : string)
  | UpdateColumnDtype (name : QualifiedName) (column : list string) (dtype : DataType)
  | UpdateColumnDefault (name : QualifiedName) (column : list string) (value : ColumnDefault)
  | UpdateColumnNullability (name : QualifiedName) (column : list string) (nullable : bool)
  | UpdatePartitioning (name : QualifiedName) (columns : option (list PartitionColumn))
  | UpdateSortInfo (name : QualifiedName) (expressions : option (list SortExpression))
  | AddTableTag (name : QualifiedName) (key value : string)
  | RemoveTableTag (name : QualifiedName) (key : string)
  | AddColumnTag (name : QualifiedName) (column : list string) (key value : string)
  | RemoveColumnTag (name : QualifiedName) (column : list string) (key : string).

Definition run (op : tx_operation) : method Transaction unit :=
  match op with
  | CreateSchema name path s => Ops.create_schema name path s
  | DeleteSchema name cascade s => Ops.delete_schema name cascade s
  | CreateTable name columns p sort path tags s => Ops.create_table name columns p sort path tags s
  | CreateTransferTable name info retired => Ops.create_transfer_table name info retired
  | DeleteTable name s => Ops.delete_table name s
  | DeleteTableTransferringFileOwnership name =>
      Ops.delete_table_transferring_file_ownership name
  | CreateView name sql aliases tags s => Ops.create_view name sql aliases tags s
  | DeleteView name s => Ops.delete_view name s
  | CreateMacro name t implementations s => Ops.create_macro name t implementations s
  | DeleteMacro name t s => Ops.delete_macro name t s
  | WriteData name f => TableOps.write_table_data dialect metadata name f
  | WriteTransferDataFiles name files =>
      TableOps.write_table_transfer_data_files metadata name files
  | WriteInlineData name data => TableOps.write_table_inline_data dialect name data
  | RenameTable name new_name => TableOps.rename_table name new_name
  | UpdateSchema name columns => TableOps.update_table_schema db table_stats name columns
  | AddColumn name column parent => TableOps.add_table_column db name column parent
  | RemoveColumn name column => TableOps.remove_table_column name column
  | RenameColumn name column new_name => TableOps.rename_table_column name column new_name
  | UpdateColumnDtype name column d => TableOps.update_table_column_dtype db name column d
  | UpdateColumnDefault name column v => TableOps.update_table_column_default name column v
  | UpdateColumnNullability name column b =>
      TableOps.update_table_column_nullability table_stats name column b
  | UpdatePartitioning name columns => TableOps.update_table_partitioning name columns
  | UpdateSortInfo name expressions => TableOps.update_table_sort_info name expressions
  | AddTableTag name key value => TableOps.add_table_tag name key value
  | RemoveTableTag name key => TableOps.remove_table_tag name key
  | AddColumnTag name column key value => TableOps.add_table_column_tag name column key value
  | RemoveColumnTag name column key => TableOps.remove_table_column_tag name column key
  end.

Lemma keeps_create_table_inner name columns p sort path tags s retired :
  keeps (Ops.create_table_inner name columns p sort path tags s retired).
Proof. unfold Ops.create_table_inner; keeps. Qed.
Lemma keeps_delete_table name s : keeps (Ops.delete_table name s).
Proof. unfold Ops.delete_table, Ops.delete_table_inner; keeps. Qed.
Lemma keeps_delete_view name s : keeps (Ops.delete_view name s).
Proof. unfold Ops.delete_view; keeps. Qed.
Lemma keeps_delete_macro name t s : keeps (Ops.delete_macro name t s).
Proof. unfold Ops.delete_macro; keeps. Qed.
#[local] Hint Resolve keeps_create_table_inner keeps_delete_table keeps_delete_view
  keeps_delete_macro : ducklake.
Lemma keeps_delete_schema name cascade s : keeps (Ops.delete_schema name cascade s).
Proof. unfold Ops.delete_schema; keeps. Qed.
#[local] Hint Resolve keeps_delete_schema : ducklake.

Lemma keeps_push_column_update c : keeps (TableOps.push_column_update c).
Proof. unfold TableOps.push_column_update; keeps. Qed.
Lemma keeps_table_ref name : keeps (TableOps.table_ref name).
Proof. unfold TableOps.table_ref; keeps. Qed.
Lemma keeps_column_ref name column : keeps (TableOps.column_ref name column).
Proof. unfold TableOps.column_ref, TableOps.table_ref; keeps. Qed.
#[local] Hint Resolve keeps_push_column_update keeps_table_ref keeps_column_ref : ducklake.

Lemma keeps_write_transfer name files :
  keeps (TableOps.write_table_transfer_data_files metadata name files).
Proof. unfold TableOps.write_table_transfer_data_files; keeps. Qed.
Lemma keeps_add_table_column name column parent :
  keeps (TableOps.add_table_column db name column parent).
Proof. unfold TableOps.add_table_column; keeps. Qed.
Lemma keeps_remove_table_column name column : keeps (TableOps.remove_table_column name column).
Proof. unfold TableOps.remove_table_column; keeps. Qed.
#[local] Hint Resolve keeps_write_transfer keeps_add_table_column keeps_remove_table_column
  : ducklake.

Lemma keeps_dtype_recursive fuel name column existing target :
  keeps (TableOps.update_table_column_dtype_recursive db st_panic fuel name column existing target).
Proof.
  revert column existing target; induction fuel as [|fuel IH]; intros column existing target;
    cbn [TableOps.update_table_column_dtype_recursive]; keeps.
Qed.
#[local] Hint Resolve keeps_dtype_recursive : ducklake.
Lemma keeps_update_dtype name column d :
  keeps (TableOps.update_table_column_dtype db name column d).
Proof. unfold TableOps.update_table_column_dtype; keeps. Qed.
Lemma keeps_update_default name column v :
  keeps (TableOps.update_table_column_default name column v).
Proof. unfold TableOps.update_table_column_default; keeps. Qed.
Lemma keeps_update_nullability name column b :
  keeps (TableOps.update_table_column_nullability table_stats name column b).
Proof. unfold TableOps.update_table_column_nullability; keeps. Qed.
#[local] Hint Resolve keeps_update_dtype keeps_update_default keeps_update_nullability : ducklake.
Lemma keeps_update_columns name item :
  keeps (TableOps.update_columns db table_stats name item).
Proof. unfold TableOps.update_columns; keeps. Qed.
#[local] Hint Resolve keeps_update_columns : ducklake.

Lemma keeps_run op : keeps (run op).
Proof.
  destruct op; cbn [run]; auto with ducklake.
  all: unfold Ops.create_schema, Ops.create_view, Ops.create_macro,
    Ops.create_table, Ops.create_transfer_table,
    Ops.delete_table_transferring_file_ownership, Ops.delete_table_inner,
    TableOps.write_table_data, TableOps.write_table_data_files, TableOps.write_table_inline_data,
    TableOps.update_table_schema, TableOps.rename_table_column, TableOps.update_table_partitioning,
    TableOps.update_table_sort_info, TableOps.add_table_tag, TableOps.remove_table_tag,
    TableOps.add_table_column_tag, TableOps.remove_table_column_tag; keeps.
Qed.

(** The transaction after a sequence of operations, each of which may fail *)
Definition run_all (ops : list tx_operation) (tx : Transaction) : Transaction :=
  foldl (fun tx op => (run op tx).2) tx ops.

(** C19: whatever operations are run on a transaction, in any order and whether
    each succeeds, fails or panics, its catalog stays well formed, it keeps the
    snapshot and the author it started with, and its queue of changes only
    grows at the end. *)
Theorem operations_keep_transaction_consistent (ops : list tx_operation) (tx : Transaction)
  (Hwf : well_formed (Transaction.catalog tx)) :
  let tx' := run_all ops tx in
  well_formed (Transaction.catalog tx') /\
  Transaction.snapshot tx' = Transaction.snapshot tx /\
  Transaction.author_info tx' = Transaction.author_info tx /\
  Transaction.changes tx `prefix_of` Transaction.changes tx'.
Proof.
  cbn zeta; enough (evolves tx (run_all ops tx)) as [] by by split_and!; auto.
  revert tx Hwf; induction ops as [|op ops IH]; intros tx Hwf; [done|].
  change (run_all (op :: ops) tx) with (run_all ops (run op tx).2).
  pose proof (keeps_run op tx Hwf) as Hev; etrans; [exact Hev|]; apply IH; by apply Hev.
Qed.
End Operations.

(** ** Failed operations *)

Section Failures.
Context `{EXT : External}.
Implicit Types tx : Transaction.

(** A computation that queues nothing; one that always succeeds; one that
    queues nothing when it fails *)
Definition silent {A} (m : method Transaction A) : Prop :=
  forall tx, Transaction.changes (m tx).2 = Transaction.changes tx.
Definition succeeds {A} (m : method Transaction A) : Prop :=
  forall tx, is_ok (m tx).1 = true.
Definition clean {A} (m : method Transaction A) : Prop :=
  forall tx, is_ok (m tx).1 = false -> Transaction.changes (m tx).2 = Transaction.changes tx.

Lemma silent_read {A} (f : Catalog -> result A) : silent (Ops.read f).
Proof. by intros tx. Qed.
Lemma silent_get : silent st_get.
Proof. by intros tx. Qed.
Lemma silent_lift {A} (o : result A) : silent (st_lift o).
Proof. by intros tx. Qed.
Lemma silent_ret {A} (a : A) : silent (mret a).
Proof. by intros tx. Qed.
Lemma silent_on_catalog {A} (m : method Catalog A) : silent (Ops.on_catalog m).
Proof. intros tx; unfold Ops.on_catalog, st_zoom; by destruct (m _). Qed.
Lemma silent_bind {A B} (m : method Transaction A) (f : A -> method Transaction B) :
  silent m -> (forall a, silent (f a)) -> silent (m ≫= f).
Proof.
  intros Hm Hf tx; specialize (Hm tx); unfold mbind, stateful_bind.
  destruct (m tx) as [[a|e|] tx1]; cbn in *; [|done..]; by rewrite Hf.
Qed.

Lemma succeeds_push c : succeeds (Ops.push c).
Proof. by intros tx. Qed.
Lemma succeeds_ret {A} (a : A) : succeeds (mret a).
Proof. by intros tx. Qed.
Lemma succeeds_bind {A B} (m : method Transaction A) (f : A -> method Transaction B) :
  succeeds m -> (forall a, succeeds (f a)) -> succeeds (m ≫= f).
Proof.
  intros Hm Hf tx; specialize (Hm tx); unfold mbind, stateful_bind.
  destruct (m tx) as [[a|e|] tx1]; cbn in *; [|done..]; by apply Hf.
Qed.
Lemma succeeds_for {A} (body : A -> method Transaction unit) l :
  (forall x, succeeds (body x)) -> succeeds (st_for body l).
Proof. intros Hb; induction l; cbn; [apply succeeds_ret|by apply succeeds_bind]. Qed.
Lemma succeeds_when_some {A} (body : A -> method Transaction unit) o :
  (forall x, succeeds (body x)) -> succeeds (st_when_some body o).
Proof. intros Hb; destruct o; [apply Hb|apply succeeds_ret]. Qed.

Lemma clean_silent {A} (m : method Transaction A) : silent m -> clean m.
Proof. intros Hm tx _; apply Hm. Qed.
Lemma clean_succeeds {A} (m : method Transaction A) : succeeds m -> clean m.
Proof. intros Hm tx; by rewrite Hm. Qed.
Lemma clean_bind {A B} (m : method Transaction A) (f : A -> method Transaction B) :
  silent m -> (forall a, clean (f a)) -> clean (m ≫= f).
Proof.
  intros Hm Hf tx; specialize (Hm tx); unfold mbind, stateful_bind.
  destruct (m tx) as [[a|e|] tx1]; cbn in *; [|done..]; intros; by rewrite Hf.
Qed.
Lemma clean_throw {A} e : clean (A := A) (st_throw e).
Proof. by intros tx. Qed.
Lemma clean_guarded {A} (m : method Transaction A) : clean (TransactionGuard.guarded m).
Proof.
  intros tx; unfold TransactionGuard.guarded; by destruct (m tx) as [[a|e|] tx'].
Qed.
End Failures.
#[export] Hint Resolve silent_read silent_get silent_lift silent_ret silent_on_catalog silent_bind
  succeeds_push succeeds_ret succeeds_bind succeeds_for succeeds_when_some
  clean_throw clean_guarded : ducklake.

Ltac clean_step :=
  lazymatch goal with
  | |- silent (match ?x with _ => _ end) => destruct x
  | |- silent _ => auto 10 with ducklake
  | |- clean (TransactionGuard.guarded _) => apply clean_guarded
  | |- clean (match ?x with _ => _ end) => destruct x
  | |- clean (let _ := _ in _) => cbv zeta
  | |- clean _ =>
      first [ solve [apply clean_succeeds; auto 10 with ducklake]
            | solve [apply clean_throw]
            | apply clean_bind; [auto 10 with ducklake|intros ?]
            | solve [apply clean_silent; auto 10 with ducklake] ]
  end.

Section CleanOperations.
Context `{EXT : External} `{TXT : !ValueText} `{ENG : !RegexEngine} `{CMP : !SqlCompare}
  `{ENGINE : !SqlEngine} `{FT : !FloatText} `{HASH : HashOrder} `{FMT : !DataFormats}
  `{SQL : !SqlText}.
Context (dialect : Dialect) (metadata : Metadata) (db : Db)
  (table_stats : result (gmap Z TableStats)).

(** The operations that consist of several others and are not guarded *)
Definition cascades (op : tx_operation) : bool :=
  match op with DeleteSchema _ cascade _ => cascade | _ => false end.

(** The operations that run under a guard *)
Definition is_guarded (op : tx_operation) : bool :=
  match op with UpdateSchema _ _ | UpdateColumnDtype _ _ _ => true | _ => false end.

Lemma silent_table_ref name : silent (TableOps.table_ref name).
Proof. unfold TableOps.table_ref; auto with ducklake. Qed.
Lemma silent_column_ref name column : silent (TableOps.column_ref name column).
Proof. unfold TableOps.column_ref, TableOps.table_ref; auto with ducklake. Qed.
#[local] Hint Resolve silent_table_ref silent_column_ref : ducklake.
Lemma clean_push_column_update c : clean (TableOps.push_column_update c).
Proof. unfold TableOps.push_column_update; repeat clean_step. Qed.
#[local] Hint Resolve clean_push_column_update : ducklake.

Lemma clean_run op : cascades op = false -> clean (run dialect metadata db table_stats op).
Proof.
  destruct op; intros Hop; cbn [run cascades] in *; subst;
    unfold Ops.create_schema, Ops.delete_schema, Ops.create_view, Ops.delete_view, Ops.create_macro,
    Ops.delete_macro, Ops.create_table, Ops.create_transfer_table, Ops.create_table_inner,
    Ops.delete_table, Ops.delete_table_transferring_file_ownership, Ops.delete_table_inner,
    TableOps.write_table_data, TableOps.write_table_data_files,
    TableOps.write_table_transfer_data_files, TableOps.write_table_inline_data,
    TableOps.rename_table, TableOps.add_table_column, TableOps.remove_table_column,
    TableOps.update_table_schema, TableOps.rename_table_column, TableOps.update_table_column_dtype,
    TableOps.update_table_column_default, TableOps.update_table_column_nullability,
    TableOps.update_table_partitioning, TableOps.update_table_sort_info, TableOps.add_table_tag,
    TableOps.remove_table_tag, TableOps.add_table_column_tag, TableOps.remove_table_column_tag;
    repeat clean_step; auto with ducklake.
Qed.

Lemma guarded_run_restores op tx :
  is_guarded op = true -> well_formed (Transaction.catalog tx) ->
  is_ok (run dialect metadata db table_stats op tx).1 = false ->
  (run dialect metadata db table_stats op tx).2 = tx.
Proof.
  assert (Hread : forall A B (m : method Transaction A) (f : A -> method Transaction B),
    (forall tx, (m tx).2 = tx) -> (forall a, is_ok (f a tx).1 = false -> (f a tx).2 = tx) ->
    is_ok ((m ≫= f) tx).1 = false -> ((m ≫= f) tx).2 = tx).
  { intros A B m f Hm Hf; specialize (Hm tx); unfold mbind, stateful_bind.
    destruct (m tx) as [[a|e|] tx1]; cbn in *; subst; auto. }
  assert (Hcol : forall name column tx, (TableOps.column_ref name column tx).2 = tx).
  { intros name column tx'; unfold TableOps.column_ref, TableOps.table_ref, Ops.read.
    unfold mbind, stateful_bind, st_get, st_lift; by repeat case_match; simplify_eq. }
  intros Hop Hwf; destruct op; try done; cbn [run].
  - apply Hread; [done|intros r]; apply Hread; [done|intros schema].
    apply guarded_restores; [|done]; keeps; apply keeps_update_columns.
  - apply Hread; [apply Hcol|intros c]; apply Hread; [done|intros existing].
    apply guarded_restores; [|done]; apply keeps_dtype_recursive.
Qed.

(** C20: an operation that fails or panics queues nothing, so that the commit
    never sees half of it, the cascading deletion of a schema apart, which is
    a sequence of deletions. The schema and data type updates, which are made
    of many changes to the catalog, also restore the catalog. *)
Theorem failed_operation_leaves_no_trace (op : tx_operation) (tx : Transaction)
  (Hop : cascades op = false)
  (Hfail : is_ok (run dialect metadata db table_stats op tx).1 = false) :
  let tx' := (run dialect metadata db table_stats op tx).2 in
  Transaction.changes tx' = Transaction.changes tx /\
  (is_guarded op = true -> well_formed (Transaction.catalog tx) -> tx' = tx).
Proof.
  split; [by apply clean_run|]; intros Hg Hwf; by apply guarded_run_restores.
Qed.
End CleanOperations.

(** ** The recursion over data types ends *)

Section DtypeRecursion.
Context `{EXT : External} `{CMP : !SqlCompare} `{ENGINE : !SqlEngine} (db : Db).

Lemma st_for_ext {S E A} (f g : A -> stateful S E unit) l s :
  (forall x s, x ∈ l -> f x s = g x s) -> st_for f l s = st_for g l s.
Proof.
  revert s; induction l as [|x l IH]; intros s Hfg; cbn; [done|].
  unfold mbind, stateful_bind; rewrite (Hfg x s) by (by left).
  destruct (g x s) as [[[]|e|] s']; [|done..]; apply IH; intros y s'' Hy; apply Hfg; by right.
Qed.

Lemma bind_ext {S E A B} (m : stateful S E A) (f g : A -> stateful S E B) s :
  (forall a s, f a s = g a s) -> (m ≫= f) s = (m ≫= g) s.
Proof.
  intros Hfg; unfold mbind, stateful_bind; destruct (m s) as [[a|e|] s']; [apply Hfg|done..].
Qed.

Lemma depth_field c fields :
  c ∈ fields -> TableOps.depth (Column.dtype c) < TableOps.depth (DataType.Struct fields).
Proof.
  intros Hc; cbn; apply Nat.lt_succ_r; set (l := map _ fields).
  pose proof (proj1 (list_max_le l _) (le_n _)) as Hmax; rewrite List.Forall_forall in Hmax.
  apply Hmax, in_map_iff; exists c; split; [by destruct c|by apply list_elem_of_In].
Qed.
Lemma depth_positive d : 0 < TableOps.depth d.
Proof. destruct d; cbn; lia. Qed.

Lemma both_in_lhs (old new : Column) l r :
  Both old new ∈ iter_vec_diff l r Column.name -> old ∈ l.
Proof.
  intros Hin; unfold iter_vec_diff in Hin.
  destruct (merge_join_by_sides Column.name Column.name (sort_by_key str_leb Column.name l)
    (sort_by_key str_leb Column.name r)) as [H1 _].
  rewrite <- (sort_by_key_perm str_leb Column.name l), <- H1.
  apply list_elem_of_omap; by exists (Both old new).
Qed.

Lemma dtype_recursion_more exhausted exhausted' fuel fuel' name column existing target tx :
  TableOps.depth existing <= fuel -> TableOps.depth existing <= fuel' ->
  TableOps.update_table_column_dtype_recursive db exhausted fuel name column existing target tx =
  TableOps.update_table_column_dtype_recursive db exhausted' fuel' name column existing target tx.
Proof.
  revert fuel' column existing target tx; induction fuel as [|fuel IH];
    intros fuel' column existing target tx Hle Hle'; pose proof (depth_positive existing); [lia|].
  destruct fuel' as [|fuel']; [lia|]; cbn [TableOps.update_table_column_dtype_recursive].
  case_match; [done|]; case_match; [done|]; destruct existing; try done; destruct target; try done.
  - destruct inner as [n d nl t i v f]; cbn in Hle, Hle'; apply IH; cbn; lia.
  - apply st_for_ext; intros [old new|old|new] tx' Hitem; [|done..].
    apply both_in_lhs, depth_field in Hitem; apply IH; lia.
  - destruct key as [kn kd knl kt ki kv kf], value as [vn vd vnl vt vi vv vf].
    cbn in Hle, Hle'; unfold mbind, stateful_bind; cbn.
    rewrite (IH fuel') by lia.
    destruct (TableOps.update_table_column_dtype_recursive _ _ _ _ _ _ _ _) as [[[]|e|] tx'];
      [|done..]; apply IH; lia.
Qed.

(** C21: the recursion of a data type update ends. With as many steps as the nesting
    of the existing data type it never runs out of them: what it does when it would
    ([exhausted]) does not matter, nor do more steps; and that is the recursion the
    operation runs. *)
Theorem dtype_update_terminates (exhausted exhausted' : method Transaction unit) (fuel : nat)
    (name : QualifiedName) (column : list string) (existing target : DataType) (tx : Transaction)
    (Hfuel : TableOps.depth existing <= fuel) :
  TableOps.update_table_column_dtype_recursive db exhausted fuel name column existing target tx =
  TableOps.update_table_column_dtype_recursive db exhausted' (TableOps.depth existing) name column existing
    target tx.
Proof. by apply dtype_recursion_more. Qed.
End DtypeRecursion.

(** ** Registered files *)

Section Registration.
Context `{EXT : External} `{TXT : !ValueText} `{HASH : HashOrder} `{FMT : !DataFormats}.
Context (metadata : Metadata).

(** The columns of the statistics are live, and a column that must not be null
    has no nulls. *)
Definition stats_admissible {S} (null_count : S -> option Z) (c : Catalog) (r : TableRef)
    (schema : Schema) (stats : gmap ColumnRef S) : Prop :=
  forall col_ref s, stats !! col_ref = Some s -> exists column_id,
    Catalog.column_by_id c r column_id = Ok col_ref /\
    forall col, columns_by_id schema !! column_id = Some col -> Column.nullable col = false ->
      (default 0 (null_count s) <= 0)%Z.

Lemma resolved_stats_admissible {S} (null_count : S -> option Z) c r schema stats resolved :
  TableOps.resolve_column_stats null_count (columns_by_id schema) c r stats = Ok resolved ->
  stats_admissible null_count c r schema resolved.
Proof.
  unfold TableOps.resolve_column_stats; destruct (map_outcome _ _) as [l|e|] eqn:Hl; [|done..].
  cbn; intros [= <-] col_ref s Hs; apply elem_of_list_to_map_2, list_elem_of_lookup in Hs as [i Hi].
  apply map_outcome_Forall2 in Hl.
  destruct (Forall2_lookup_r _ _ _ _ _ Hl Hi) as ([id s'] & _ & Hid); exists id.
  destruct (columns_by_id schema !! id) as [col|].
  - destruct (negb _ && _) eqn:Hnull; [done|]; revert Hid.
    destruct (Catalog.column_by_id c r id) as [cr|e|]; cbn; [|done..]; intros [= -> ->].
    split; [done|]; intros ? [= <-] Hn; rewrite Hn in Hnull; cbn in Hnull; lia.
  - revert Hid; destruct (Catalog.column_by_id c r id) as [cr|e|]; cbn; [|done..].
    by intros [= -> ->].
Qed.

(** What the change says of a file of deletions, and of a data file *)
Definition registers_deletes (f : ScanDeleteFile.t) (committed : CommitDeleteFile.t) : Prop :=
  DucklakePath.from_str (ScanDeleteFile.path f) = Ok (CommitDeleteFile.path committed) /\
  CommitDeleteFile.encryption_key committed = ScanDeleteFile.encryption_key f /\
  CommitDeleteFile.num_deletes committed = ScanDeleteFile.num_deletes f.
Definition registers (c : Catalog) (r : TableRef) (schema : Schema) (f : TransferDataFile.t)
    (committed : CommitDataFile.t) : Prop :=
  let data_file := TransferDataFile.data_file f in
  DucklakePath.from_str (WriteDataFile.path data_file) = Ok (CommitDataFile.path committed) /\
  CommitDataFile.encryption_key committed = WriteDataFile.encryption_key data_file /\
  TableOps.is_encrypted f = Metadata.encrypted metadata /\
  CommitDataFile.inline_deletes committed = TransferDataFile.inline_deletes f /\
  Forall2 registers_deletes (TransferDataFile.delete_files f) (CommitDataFile.delete_files committed) /\
  (forall values, TransferDataFile.partition_values f = Some values ->
     CommitDataFile.partition_values committed = Some values) /\
  (forall stats, WriteDataFile.statistics data_file = Some stats ->
     CommitDataFile.num_rows committed = DataFileStatistics.num_rows stats) /\
  stats_admissible FileColumnStats.null_count c r schema (CommitDataFile.column_stats committed).

Lemma parse_path_from_str s path : Ops.parse_path s = Ok path -> DucklakePath.from_str s = Ok path.
Proof. unfold Ops.parse_path. by destruct (DucklakePath.from_str s) as [?|?|]; [intros [= ->]|..]. Qed.

Lemma commit_data_file_registers c r info base f path stats committed :
  Ops.parse_path (WriteDataFile.path (TransferDataFile.data_file f)) = Ok path ->
  TableOps.is_encrypted f = Metadata.encrypted metadata ->
  TableOps.file_statistics base path f = Ok stats ->
  TableOps.commit_data_file c r info f path stats = Ok committed ->
  registers c r (TableInfo.schema info) f committed.
Proof.
  unfold TableOps.commit_data_file, registers; intros Hp%parse_path_from_str Henc Hstats.
  destruct (TableOps.resolve_column_stats _ _ _ _ _) as [cs|e|] eqn:Hcs; cbn; [|done..].
  destruct (map_outcome _ _) as [ds|e|] eqn:Hds; cbn; [|done..]; intros [= <-]; cbn.
  apply map_outcome_Forall2 in Hds.
  split_and!; try done; try by eapply resolved_stats_admissible.
  - eapply Forall2_impl; [exact Hds|]. intros d d'. unfold TableOps.commit_delete_file.
    destruct (Ops.parse_path _) as [p|e|] eqn:Hd; [|done..]. cbn. intros [= <-].
    by apply parse_path_from_str in Hd.
  - by intros values ->.
  - intros stats' Hs. revert Hstats. unfold TableOps.file_statistics. rewrite Hs.
    destruct (infallible _); cbn; [by intros [= ->]|done..].
Qed.

(** Every file is listed, in order. *)
Lemma transfer_data_files_registers c name files r committed :
  TableOps.transfer_data_files metadata c name files = Ok (r, committed) ->
  exists schema, Catalog.table_by_name c name = Ok r /\ Catalog.table_schema c r = Ok schema /\
    Forall2 (registers c r schema) files committed.
Proof.
  unfold TableOps.transfer_data_files.
  destruct (Catalog.table_by_name _ name) as [r0|e|] eqn:Hr; cbn; [|done..].
  destruct (Metadata.data_path metadata) as [root|e|]; cbn; [|done..].
  destruct (Catalog.table_data_path _ _ _) as [base|e|]; cbn; [|done..].
  destruct (Catalog.table_info _ _) as [info|e|] eqn:Hinfo; cbn; [|done..].
  destruct (existsb _ _) eqn:Henc; cbn; [done|].
  destruct (map_outcome _ files) as [paths|e|] eqn:Hpaths; cbn; [|done..].
  destruct (map_outcome _ (zip files paths)) as [stats|e|] eqn:Hstats; cbn; [|done..].
  destruct (map_outcome _ (zip (zip files paths) stats)) as [out|e|] eqn:Hout; cbn; [|done..].
  intros [= <- <-].
  exists (TableInfo.schema info); split_and!; try done.
  - revert Hinfo; unfold Catalog.table_info; destruct (Catalog.table_name _ _); cbn; [|done..].
    destruct (Catalog.table_schema _ _); cbn; [|done..].
    destruct (Catalog.table_partitioning _ _); cbn; [|done..].
    destruct (Catalog.table_sort_info _ _); cbn; [|done..].
    destruct (Catalog.table_tags _ _); cbn; [|done..]; by intros [= <-].
  - apply map_outcome_Forall2 in Hpaths, Hstats, Hout.
    assert (Hall : Forall (fun f => TableOps.is_encrypted f = Metadata.encrypted metadata) files).
    { apply Forall_forall; intros f Hf; apply list_elem_of_In in Hf.
      apply not_true_iff_false in Henc.
      destruct (Bool.eqb (TableOps.is_encrypted f) (Metadata.encrypted metadata)) eqn:E.
      - by apply eqb_prop in E.
      - by destruct Henc; apply existsb_exists; exists f; rewrite E. }
    revert paths stats out Hpaths Hstats Hout Hall; clear.
    induction files as [|f fs IH]; intros paths stats out Hp Hs Ho Hall.
    + apply Forall2_nil_inv_l in Hp as ->; cbn in Ho; by apply Forall2_nil_inv_l in Ho as ->.
    + apply Forall2_cons_inv_l in Hp as (p & ps & Hp & Hps & ->); cbn in Hs.
      apply Forall2_cons_inv_l in Hs as (s & ss & Hs & Hss & ->); cbn in Ho.
      apply Forall2_cons_inv_l in Ho as (o & os & Ho & Hos & ->).
      apply Forall_cons in Hall as [Hf Hall].
      constructor; [by eapply commit_data_file_registers|]; by eapply IH.
Qed.

(** Registering files queues one change that lists every file in order, with
    the path, key, row count, partition values and deletions it is given; the files are encrypted exactly when the
    catalog is, their statistics are of live columns of the table, and no
    column that is not nullable has nulls. The catalog is untouched. *)
Theorem registered_files_are_admissible (name : QualifiedName) (files : list TransferDataFile.t)
  (tx tx' : Transaction)
  (Hrun : TableOps.write_table_transfer_data_files metadata name files tx = (Ok tt, tx')) :
  let c := Transaction.catalog tx in
  exists r schema committed,
    Catalog.table_by_name c name = Ok r /\ Catalog.table_schema c r = Ok schema /\
    Transaction.catalog tx' = c /\
    Transaction.changes tx' = Transaction.changes tx ++ [Change.WriteTableDataFiles r committed] /\
    Forall2 (registers c r schema) files committed.
Proof.
  revert Hrun; unfold TableOps.write_table_transfer_data_files, Ops.read, Ops.push.
  unfold mbind, stateful_bind, st_get, st_lift, st_modify.
  destruct (TableOps.transfer_data_files _ _ _ _) as [[r committed]|e|] eqn:Ht; [|done..].
  intros [= <-]. apply transfer_data_files_registers in Ht as (schema & Hr & Hs & Hall).
  by exists r, schema, committed.
Qed.
End Registration.

(** ** The queue is write-only *)

Section Blind.
Context `{EXT : External}.

(** A computation whose outcome and catalog do not depend on the queue *)
Definition blind {A} (m : method Transaction A) : Prop :=
  forall tx q, exists q', m (tx <| Transaction.changes := q |>) =
    ((m tx).1, (m tx).2 <| Transaction.changes := q' |>).

Lemma blind_bind {A B} (m : method Transaction A) (f : A -> method Transaction B) :
  blind m -> (forall a, blind (f a)) -> blind (m ≫= f).
Proof.
  intros Hm Hf tx q; destruct (Hm tx q) as [q' Hq]; unfold mbind, stateful_bind; rewrite Hq.
  destruct (m tx) as [[a|e|] tx']; cbn [fst snd]; [apply Hf|by exists q'..].
Qed.
Lemma blind_ret {A} (a : A) : blind (mret a).
Proof. intros tx q; by exists q. Qed.
Lemma blind_lift {A} (o : result A) : blind (st_lift o).
Proof. intros tx q; by exists q. Qed.
Lemma blind_throw {A} e : blind (A := A) (st_throw e).
Proof. intros tx q; by exists q. Qed.
Lemma blind_panic {A} : blind (A := A) st_panic.
Proof. intros tx q; by exists q. Qed.
Lemma blind_read {A} (f : Catalog -> result A) : blind (Ops.read f).
Proof. intros tx q; by exists q. Qed.
Lemma blind_push c : blind (Ops.push c).
Proof. intros tx q; by exists (q ++ [c]). Qed.
Lemma blind_on_catalog {A} (m : method Catalog A) : blind (Ops.on_catalog m).
Proof.
  intros tx q; exists q; unfold Ops.on_catalog, st_zoom; cbn.
  by destruct (m (Transaction.catalog tx)).
Qed.
Lemma blind_for {A} (body : A -> method Transaction unit) l :
  (forall x, blind (body x)) -> blind (st_for body l).
Proof. intros Hb; induction l; cbn; [apply blind_ret|by apply blind_bind]. Qed.
Lemma blind_when_some {A} (body : A -> method Transaction unit) o :
  (forall x, blind (body x)) -> blind (st_when_some body o).
Proof. intros Hb; destruct o; [apply Hb|apply blind_ret]. Qed.
Lemma blind_guarded {A} (m : method Transaction A) :
  blind m -> blind (TransactionGuard.guarded m).
Proof.
  intros Hm tx q; destruct (Hm tx q) as [q' Hq]; unfold TransactionGuard.guarded; rewrite Hq.
  destruct (m tx) as [[a|e|] tx']; cbn [fst snd]; [by exists q'|by exists q..].
Qed.
(** The catalog may be read at the start. *)
Lemma blind_get {A} (f : Transaction -> method Transaction A) :
  (forall tx, blind (f tx)) -> (forall tx q, f (tx <| Transaction.changes := q |>) = f tx) ->
  blind (st_get ≫= f).
Proof.
  intros Hf Heq tx q; unfold mbind, stateful_bind, st_get; rewrite Heq; apply Hf.
Qed.
End Blind.
#[export] Hint Resolve blind_ret blind_lift blind_throw blind_panic blind_read blind_push
  blind_on_catalog : ducklake.

Ltac blind_step :=
  lazymatch goal with
  | |- blind (st_get ≫= _) => apply blind_get; [intros ?|done]
  | |- blind (_ ≫= _) => apply blind_bind; [|intros ?]
  | |- blind (st_for _ _) => apply blind_for; intros ?
  | |- blind (st_when_some _ _) => apply blind_when_some; intros ?
  | |- blind (TransactionGuard.guarded _) => apply blind_guarded
  | |- blind (match ?x with _ => _ end) => destruct x
  | |- blind _ => first [solve [auto with ducklake] | progress cbv zeta]
  end.
Ltac blind := repeat blind_step; auto with ducklake.

Section BlindOperations.
Context `{EXT : External} `{TXT : !ValueText} `{ENG : !RegexEngine} `{CMP : !SqlCompare}
  `{ENGINE : !SqlEngine} `{FT : !FloatText} `{HASH : HashOrder} `{FMT : !DataFormats}
  `{SQL : !SqlText}.
Context (dialect : Dialect) (metadata : Metadata) (db : Db)
  (table_stats : result (gmap Z TableStats)).

Lemma blind_dtype_recursive fuel name column existing target :
  blind (TableOps.update_table_column_dtype_recursive db st_panic fuel name column existing target).
Proof.
  revert column existing target; induction fuel as [|fuel IH]; intros column existing target;
    cbn [TableOps.update_table_column_dtype_recursive]; unfold TableOps.push_column_update,
    TableOps.column_ref, TableOps.table_ref, TableOps.remove_table_column, TableOps.add_table_column,
    TableOps.column_ref, TableOps.table_ref; blind.
Qed.

Lemma blind_run op : blind (run dialect metadata db table_stats op).
Proof.
  pose proof blind_dtype_recursive.
  destruct op; cbn [run];
    unfold Ops.create_schema, Ops.delete_schema, Ops.create_view, Ops.delete_view, Ops.create_macro,
    Ops.delete_macro, Ops.create_table, Ops.create_transfer_table, Ops.create_table_inner,
    Ops.delete_table, Ops.delete_table_transferring_file_ownership, Ops.delete_table_inner,
    TableOps.write_table_data, TableOps.write_table_data_files,
    TableOps.write_table_transfer_data_files, TableOps.write_table_inline_data,
    TableOps.update_table_schema, TableOps.update_columns, TableOps.rename_table,
    TableOps.add_table_column, TableOps.remove_table_column, TableOps.rename_table_column,
    TableOps.update_table_column_dtype, TableOps.update_table_column_default,
    TableOps.update_table_column_nullability, TableOps.push_column_update,
    TableOps.update_table_partitioning, TableOps.update_table_sort_info, TableOps.add_table_tag,
    TableOps.remove_table_tag, TableOps.add_table_column_tag, TableOps.remove_table_column_tag,
    TableOps.column_ref, TableOps.table_ref; blind.
Qed.

(** The queue is write-only: what an operation answers and what it does to
    the catalog is the same whatever changes are already queued. In particular
    a column is declared not nullable by the statistics of the snapshot alone,
    whatever nulls the transaction has queued for it. *)
Theorem operations_ignore_queue (op : tx_operation) (tx : Transaction) (queued : list Change) :
  let '(res, tx') := run dialect metadata db table_stats op tx in
  let '(res', tx'') :=
    run dialect metadata db table_stats op (tx <| Transaction.changes := queued |>) in
  res' = res /\ Transaction.catalog tx'' = Transaction.catalog tx'.
Proof.
  destruct (blind_run op tx queued) as [q' ->]; by destruct (run _ _ _ _ op tx).
Qed.
End BlindOperations.

(** ** At a concrete transaction *)

#[export] Instance demo_float_text : FloatText := {| f64_from_str _ := None |}.
#[export] Instance demo_formats : DataFormats := {|
  read_file_statistics path _ := Err (InvalidPath (DucklakePath.as_str path) "no such file");
  match_to_schema batch _ := Ok batch;
  compute_record_batch_statistics _ _ := ∅;
|}.
#[export] Instance demo_sql_text : SqlText := {|
  normalize_select_query sql _ := Ok sql;
  known_sql_dialect d := bool_decide (d = "duckdb");
  is_scalar_macro_expression _ _ := true;
  is_single_query _ _ := true;
  decimal_scale _ := 0%Z;
  decimal_mantissa d := d;
  error_text _ := "error";
|}.

(** A transaction on the catalog with the table [main.t], which has no ID yet *)
Definition start : Transaction :=
  Transaction.new (SnapshotInfo.mk 1 (100 : Z) 1 1 (0 : Z)) catalog_with_table AuthorInfo.default.
Definition main_t : QualifiedName := QualifiedName.mk "main" "t".
Definition run_demo (op : tx_operation) (tx : Transaction) : outcome DucklakeError unit * Transaction :=
  run Dialect.Sqlite (Metadata.mk ∅ ∅ ∅) ∅ (Ok ∅) op tx.

(** Two columns are added, a data type is widened, the table is renamed; the
    operations on the old name then fail. *)
Definition session : list tx_operation := [
  AddColumn main_t (Column.new "a" DataType.Int32) [];
  AddColumn main_t (Column.new "b" (DataTypeOps.struct_ [Column.new "x" DataType.Int8])) [];
  UpdateColumnDtype main_t ["b"]
    (DataTypeOps.struct_ [Column.new "x" DataType.Int16; Column.new "y" DataType.Varchar]);
  RenameTable main_t "u"; RemoveTableTag main_t "k"; DeleteTable main_t Fail].

Lemma operations_keep_transaction_consistent_witness :
  let tx := run_all Dialect.Sqlite (Metadata.mk ∅ ∅ ∅) ∅ (Ok ∅) session start in
  length (Transaction.changes tx) = 5 /\ well_formed (Transaction.catalog tx).
Proof.
  split; [vm_compute; reflexivity|].
  apply (operations_keep_transaction_consistent Dialect.Sqlite (Metadata.mk ∅ ∅ ∅) ∅ (Ok ∅) session
    start catalog_with_table_wf).
Defined.

(** The second field of the struct has no cast: the first is restored. *)
Definition failing_update : tx_operation :=
  UpdateSchema main_t [Column.new "a" DataType.Int64; Column.new "b" DataType.Varchar].
Definition two_columns : Transaction :=
  run_all Dialect.Sqlite (Metadata.mk ∅ ∅ ∅) ∅ (Ok ∅) (take 2 session) start.

Lemma failed_operation_leaves_no_trace_witness :
  is_ok (run_demo failing_update two_columns).1 = false /\
  Transaction.changes (run_demo failing_update two_columns).2 = Transaction.changes two_columns.
Proof.
  split; [vm_compute; reflexivity|].
  apply (failed_operation_leaves_no_trace Dialect.Sqlite (Metadata.mk ∅ ∅ ∅) ∅ (Ok ∅)
    failing_update two_columns); [reflexivity|vm_compute; reflexivity].
Defined.

Lemma dtype_update_terminates_witness :
  let d := DataTypeOps.struct_ [Column.new "x" DataType.Int8] in
  let e := DataTypeOps.struct_ [Column.new "x" DataType.Int16] in
  let update exhausted fuel :=
    TableOps.update_table_column_dtype_recursive ∅ exhausted fuel main_t ["b"] d e two_columns in
  is_ok (update st_panic 2).1 = true /\ update (mret tt) 7 = update st_panic 2.
Proof.
  split; [vm_compute; reflexivity|].
  apply (dtype_update_terminates ∅ (mret tt) st_panic 7); cbn; lia.
Defined.

(** One file with statistics of the column [a], in a catalog under [data/] *)
Definition data_metadata : Metadata := Metadata.mk {["data_path" := "data/"]} ∅ ∅.
Definition one_file : list TransferDataFile.t := [
  TransferDataFile.mk (WriteDataFile.mk "f.parquet" None
    (Some (DataFileStatistics.mk 3 (Some 100%Z) None
       {[1%Z := FileColumnStats.mk None (Some (Value.Int32 1)) (Some (Value.Int32 7)) (Some 1%Z) None]}))
    None) None [] [5%Z]].

Lemma registered_files_are_admissible_witness :
  exists tx', TableOps.write_table_transfer_data_files data_metadata main_t one_file two_columns =
      (Ok tt, tx') /\
    exists r committed, Transaction.changes tx' =
      Transaction.changes two_columns ++ [Change.WriteTableDataFiles r committed] /\
      length committed = 1.
Proof.
  eexists; split; [vm_compute; reflexivity|].
  edestruct (registered_files_are_admissible data_metadata main_t one_file two_columns) as
    (r & schema & committed & _ & _ & _ & Hch & Hall); [vm_compute; reflexivity|].
  exists r, committed; split; [exact Hch|].
  symmetry; exact (Forall2_length _ _ _ Hall).
Defined.
