(* ===== verification/Batches.v ===== *)
(** * Batched statements have the effect of one statement ([db/batch.rs])

    Every operation of [Tx] on a list of keys or rows sends the list in pieces.
    The pieces cover the list in order, each stays below the bind limit, and
    together they do what a single unbounded statement would do. *)

From S2P Require Import Prelude Text Regex Identifier Types Instances Entities Dialect Database.

(** ** How a list is cut *)

Section Cutting.
Context `{EXT : External} {T : Type}.
Implicit Types (items : list T) (query : list T -> Statement).

Lemma fitting_count_Some fuel limit items query count c :
  1 <= count -> fitting_count fuel limit items query count = Some c ->
  1 <= c <= count /\ (Z.of_nat (bind_count (query (take c items))) <= limit)%Z.
Proof.
  revert count. induction fuel as [|fuel IH]; intros count Hc; cbn [fitting_count];
    destruct (Z.leb_spec (Z.of_nat (bind_count (query (take count items)))) limit);
    try (intros; simplify_eq; lia);
    destruct (Nat.eqb_spec count 1); try done.
  intros Hf. apply IH in Hf; [|apply (Nat.div_le_lower_bound count 2 1); lia].
  destruct Hf as [[Hf1 Hf2] Hf3]. split; [|done].
  pose proof (Nat.div_lt count 2 ltac:(lia) ltac:(lia)). lia.
Qed.

Lemma fitting_count_None fuel limit items query count :
  1 <= count <= fuel -> fitting_count fuel limit items query count = None ->
  (limit < Z.of_nat (bind_count (query (take 1 items))))%Z.
Proof.
  revert count. induction fuel as [|fuel IH]; intros count Hc; [lia|]. cbn [fitting_count].
  destruct (Z.leb_spec (Z.of_nat (bind_count (query (take count items)))) limit); [done|].
  destruct (Nat.eqb_spec count 1) as [->|]; [done|]. apply IH.
  pose proof (Nat.div_lt count 2 ltac:(lia) ltac:(lia)). split; [apply (Nat.div_le_lower_bound count 2 1)|]; lia.
Qed.

(** The batches of [items]: the pieces, and the item that fits no statement *)
Definition fits (dialect : Dialect) (max_items : Z) query (piece : list T) : Prop :=
  piece <> [] /\ (Z.of_nat (length piece) <= max_items)%Z /\
  (Z.of_nat (bind_count (query piece)) <= Dialect.max_bind_params dialect)%Z.

Lemma batch_queries_pieces fuel dialect max_items items query :
  (1 <= max_items)%Z -> length items <= fuel ->
  exists pieces, Forall (fits dialect max_items query) pieces /\
    ((batch_queries fuel dialect max_items items query = (fun p => Ok (query p)) <$> pieces /\
      items = concat pieces) \/
     (exists x rest, items = concat pieces ++ x :: rest /\
      (Dialect.max_bind_params dialect < Z.of_nat (bind_count (query [x])))%Z /\
      batch_queries fuel dialect max_items items query =
        ((fun p => Ok (query p)) <$> pieces) ++ [Err batch_error])).
Proof.
  intros Hmax. revert items. induction fuel as [|fuel IH]; intros items Hf.
  { destruct items; [|cbn in Hf; lia]. exists []. split; [constructor|by left]. }
  destruct items as [|x items]; [exists []; split; [constructor|by left]|].
  cbn [batch_queries]. set (count := Z.to_nat (Z.min (Z.of_nat (length (x :: items))) max_items)).
  assert (1 <= count <= length (x :: items) /\ (Z.of_nat count <= max_items)%Z) as [Hc Hm]
    by (subst count; cbn [length]; lia).
  destruct (fitting_count count (Dialect.max_bind_params dialect) (x :: items) query count)
    as [c|] eqn:E.
  - apply fitting_count_Some in E as [Hcc Hb]; [|lia].
    destruct (IH (drop c (x :: items))) as (pieces & Hp & Hcase).
    { rewrite length_drop. cbn [length] in Hf |- *. lia. }
    assert (fits dialect max_items query (take c (x :: items))) as Hfit.
    { split; [|split]; [|rewrite length_take; lia|done].
      destruct c as [|c]; [lia|done]. }
    exists (take c (x :: items) :: pieces). split; [by constructor|].
    destruct Hcase as [[Hq Hi]|(y & rest & Hi & Hy & Hq)].
    + left. rewrite Hq. split; [done|]. cbn [concat]. by rewrite <-Hi, take_drop.
    + right. exists y, rest. rewrite Hq. split; [|done].
      cbn [concat]. by rewrite <-app_assoc, <-Hi, take_drop.
  - apply fitting_count_None in E; [|lia]. exists []. split; [constructor|]. right.
    exists x, items. done.
Qed.

Lemma max_rows_positive {E} dialect keys max :
  @Dialect.max_rows_per_key_batch E dialect keys = Ok max -> (1 <= max)%Z.
Proof.
  unfold Dialect.max_rows_per_key_batch. case_decide; [done|].
  intros Hok. destruct dialect; [| |case_decide]; simplify_eq/=; lia.
Qed.

(** C14: the batches of an operation cover its items in order, none is empty,
    none exceeds the row limit of the dialect and none binds more parameters
    than the dialect allows; only when a single item alone binds too many does
    the operation end in an error, after the batches before that item. The
    halving search always terminates with one of the two. *)
Theorem batches_cover_items (dialect : Dialect) (keys : nat) (max : Z) (items : list T)
    (query : list T -> Statement)
    (Hmax : @Dialect.max_rows_per_key_batch DucklakeError dialect keys = Ok max) :
  exists pieces,
    Forall (fun p => p <> [] /\ (Z.of_nat (length p) <= max)%Z /\
      (Z.of_nat (bind_count (query p)) <= Dialect.max_bind_params dialect)%Z) pieces /\
    ((batch_queries (length items) dialect max items query = (fun p => Ok (query p)) <$> pieces /\
      items = concat pieces) \/
     (exists x rest, items = concat pieces ++ x :: rest /\
      (Dialect.max_bind_params dialect < Z.of_nat (bind_count (query [x])))%Z /\
      batch_queries (length items) dialect max items query =
        ((fun p => Ok (query p)) <$> pieces) ++ [Err batch_error])).
Proof. by apply batch_queries_pieces; [eapply max_rows_positive|]. Qed.
End Cutting.

(** Two composite keys and two rows per statement at most *)
Lemma batches_cover_items_witness :
  @Dialect.max_rows_per_key_batch DucklakeError Dialect.Sqlite 2 = Ok 256%Z /\
  exists pieces : list (list nat),
    Forall (fun p => p <> [] /\ (Z.of_nat (length p) <= 256)%Z /\
      (Z.of_nat (bind_count (Statement.Delete "t" (Cond.Any ((fun _ => [("a", SNull)]) <$> p))))
         <= Dialect.max_bind_params Dialect.Sqlite)%Z) pieces /\
    ((batch_queries 3 Dialect.Sqlite 256 [1; 2; 3]
        (fun p => Statement.Delete "t" (Cond.Any ((fun _ => [("a", SNull)]) <$> p)))
      = (fun p => Ok (Statement.Delete "t" (Cond.Any ((fun _ => [("a", SNull)]) <$> p)))) <$> pieces /\
      [1; 2; 3] = concat pieces) \/
     (exists x rest, [1; 2; 3] = concat pieces ++ x :: rest /\
      (Dialect.max_bind_params Dialect.Sqlite < Z.of_nat (bind_count
         (Statement.Delete "t" (Cond.Any ((fun _ : nat => [("a", SNull)]) <$> [x])))))%Z /\
      batch_queries 3 Dialect.Sqlite 256 [1; 2; 3]
        (fun p => Statement.Delete "t" (Cond.Any ((fun _ => [("a", SNull)]) <$> p)))
      = ((fun p => Ok (Statement.Delete "t" (Cond.Any ((fun _ => [("a", SNull)]) <$> p)))) <$> pieces)
        ++ [Err batch_error])).
Proof.
  split; [reflexivity|].
  apply (batches_cover_items Dialect.Sqlite 2 256 [1; 2; 3]
    (fun p => Statement.Delete "t" (Cond.Any ((fun _ => [("a", SNull)]) <$> p)))).
  reflexivity.
Defined.

(** ** Running the pieces *)

Section Running.
Context `{EXT : External} `{CMP : !SqlCompare} `{ENGINE : !SqlEngine}.

(** The effects of statements, one after the other *)
Fixpoint effects (l : list Statement) (db : Db) : option Db :=
  match l with
  | [] => Some db
  | s :: l => effect s db ≫= effects l
  end.

Lemma exec_Ok s db u db' : Tx.exec s db = (Ok u, db') -> effect s db = Some db'.
Proof.
  unfold Tx.exec. destruct (execute s db) eqn:E; [|done..].
  intros H. simplify_eq. by apply execute_effect.
Qed.

Lemma st_for_exec l db u db' :
  st_for (fun q => s ← st_lift q; Tx.exec s) (Ok <$> l) db = (Ok u, db') ->
  effects l db = Some db'.
Proof.
  revert db. induction l as [|s l IH]; intros db; [intros H; by injection H as _ ->|].
  cbn. unfold mbind, stateful_bind at 1. cbn.
  unfold mbind, stateful_bind at 1, st_lift.
  destruct (Tx.exec s db) as [[[]| |] db1] eqn:E; [|done..].
  apply exec_Ok in E. rewrite E. cbn. apply IH.
Qed.

Lemma st_for_exec_map {T} (q : T -> Statement) l db u db' :
  st_for (fun x => Tx.exec (q x)) l db = (Ok u, db') -> effects (q <$> l) db = Some db'.
Proof.
  revert db. induction l as [|x l IH]; intros db; [intros H; by injection H as _ ->|].
  cbn. unfold mbind, stateful_bind.
  destruct (Tx.exec (q x) db) as [[[]| |] db1] eqn:E; [|done..].
  apply exec_Ok in E. rewrite E. cbn. apply IH.
Qed.

Lemma st_for_err l (e : DucklakeError) db u db' :
  st_for (fun q => s ← st_lift q; Tx.exec s) ((Ok <$> l) ++ [Err e]) db <> (Ok u, db').
Proof.
  revert db. induction l as [|s l IH]; intros db; [done|].
  cbn. unfold mbind, stateful_bind at 1. cbn.
  unfold mbind, stateful_bind at 1, st_lift.
  destruct (Tx.exec s db) as [[[]| |] db1] eqn:E; [|done..]. apply IH.
Qed.

Lemma execute_batches_Ok {T} dialect keys max (items : list T) query db u db' :
  @Dialect.max_rows_per_key_batch DucklakeError dialect keys = Ok max ->
  Tx.execute_batches dialect max items query db = (Ok u, db') ->
  exists pieces, items = concat pieces /\ Forall (fun p => p <> []) pieces /\
    effects (query <$> pieces) db = Some db'.
Proof.
  intros Hmax. unfold Tx.execute_batches.
  destruct (batch_queries_pieces (length items) dialect max items query) as (pieces & Hp & H);
    [by eapply max_rows_positive|done|].
  assert (Forall (fun p => p <> []) pieces) as Hne.
  { eapply Forall_impl; [exact Hp|]. by intros p []. }
  destruct H as [[-> Hi]|(x & rest & Hi & Hx & ->)].
  - intros Hr. exists pieces. split; [done|]. split; [done|].
    apply (st_for_exec _ _ u). by rewrite <-list_fmap_compose.
  - intros Hr. exfalso. revert Hr.
    replace ((fun p => Ok (query p)) <$> pieces) with (Ok (E := DucklakeError) <$> (query <$> pieces))
      by (by rewrite <-list_fmap_compose).
    apply st_for_err.
Qed.

(** When two consecutive pieces do what their concatenation does, all of them
    do what the whole list does. *)
Lemma effects_merge {T} (query : list T -> Statement) pieces db db' :
  (forall a b db db1 db2, a <> [] -> b <> [] -> effect (query a) db = Some db1 ->
     effect (query b) db1 = Some db2 -> effect (query (a ++ b)) db = Some db2) ->
  Forall (fun p => p <> []) pieces -> pieces <> [] ->
  effects (query <$> pieces) db = Some db' -> effect (query (concat pieces)) db = Some db'.
Proof.
  intros Hm Hne. revert db. induction Hne as [|p pieces Hp Hne IH]; intros db Hn; [done|].
  cbn. destruct (effect (query p) db) as [db1|] eqn:E; [|done]. cbn.
  destruct pieces as [|p' pieces]; [cbn; intros; simplify_eq; by rewrite app_nil_r|].
  intros Hr. eapply Hm; [done| |done|by apply IH].
  cbn. intros [-> _]%app_nil. by inversion Hne.
Qed.

Lemma concat_nonempty {T} (pieces : list (list T)) : concat pieces <> [] -> pieces <> [].
Proof. by intros H ->. Qed.

(** What a batched operation does when it succeeds: nothing for no items, and
    otherwise the effect of the single statement for all of them. *)
Lemma execute_batches_single {T} dialect keys max (items : list T) query db u db' :
  @Dialect.max_rows_per_key_batch DucklakeError dialect keys = Ok max ->
  (forall a b db db1 db2, a <> [] -> b <> [] -> effect (query a) db = Some db1 ->
     effect (query b) db1 = Some db2 -> effect (query (a ++ b)) db = Some db2) ->
  Tx.execute_batches dialect max items query db = (Ok u, db') ->
  if decide (items = []) then db' = db else effect (query items) db = Some db'.
Proof.
  intros Hmax Hm (pieces & -> & Hne & He)%(execute_batches_Ok _ keys); [|done]. case_decide as Hi.
  - destruct pieces as [|p pieces]; [cbn in He; by simplify_eq|].
    inversion Hne; subst. by destruct p.
  - apply effects_merge; [done..|by apply concat_nonempty|done].
Qed.

(** *** Conditions *)

Lemma holds_matching_rows_app keys rows1 rows2 r :
  holds (matching_rows keys (rows1 ++ rows2)) r =
  holds (matching_rows keys rows1) r || holds (matching_rows keys rows2) r.
Proof.
  unfold matching_rows. destruct keys as [|key [|key' keys]]; cbn.
  - by rewrite fmap_app, existsb_app.
  - by rewrite omap_app, existsb_app.
  - by rewrite fmap_app, existsb_app.
Qed.

(** *** The effect on one table *)

Lemma update_rows_of_Some table f db db' :
  update_rows_of table f db = Some db' <->
  exists t, db !! table = Some t /\ primary_key_ok (t <| DbTable.rows := f t |>) = true /\
    db' = <[table := t <| DbTable.rows := f t |>]> db.
Proof.
  unfold update_rows_of. destruct (db !! table) as [t|]; cbn.
  - case_match; split.
    + intros. simplify_eq. eauto.
    + intros (t' & [= <-] & _ & ->). done.
    + done.
    + intros (t' & [= <-] & ? & ->). congruence.
  - split; [done|]. by intros (t' & ? & _).
Qed.

(** Two updates of one table in a row are the update by their composition. *)
Lemma update_rows_of_compose table (f g h : DbTable -> list row) db db1 db2 :
  (forall t, g (t <| DbTable.rows := f t |>) = h t) ->
  update_rows_of table f db = Some db1 -> update_rows_of table g db1 = Some db2 ->
  update_rows_of table h db = Some db2.
Proof.
  intros Hh (t & Ht & _ & ->)%update_rows_of_Some (t' & Ht' & Hk & ->)%update_rows_of_Some.
  rewrite lookup_insert_eq in Ht'. simplify_eq. rewrite Hh in Hk |- *.
  apply update_rows_of_Some. exists t. split; [done|]. split; [done|].
  by rewrite insert_insert_eq.
Qed.

(** [delete_rows] with more keys than one statement can hold deletes
    exactly the rows one statement with all keys would delete. *)
Theorem delete_rows_single (dialect : Dialect) (table : string) (keys : list string)
    (rows : list (list SqlValue)) (db db' : Db) (u : unit)
    (Hrun : Tx.delete_rows dialect table keys rows db = (Ok u, db')) :
  if decide (rows = []) then db' = db
  else exists t, db !! table = Some t /\
    db' = <[table := t <| DbTable.rows :=
      List.filter (fun r => negb (holds (matching_rows keys rows) r)) (DbTable.rows t) |>]> db.
Proof.
  revert Hrun. unfold Tx.delete_rows, mbind, stateful_bind, st_lift.
  destruct (Dialect.max_rows_per_key_batch dialect (length keys)) as [max| |] eqn:Hmax; [|done..].
  intros Hrun. apply (execute_batches_single _ _ _ _ _ _ _ _ Hmax) in Hrun.
  - case_decide; [done|]. cbn in Hrun. apply update_rows_of_Some in Hrun as (t & Ht & _ & ->). eauto.
  - intros a b db0 db1 db2 _ _. cbn. apply update_rows_of_compose. intros t. cbn.
    rewrite filter_bool_filter. apply filter_bool_ext. intros r _.
    by rewrite holds_matching_rows_app, negb_orb, andb_comm.
Qed.

(** *** Insertion in chunks *)

Lemma chunks_concat {A} fuel n (rows : list A) :
  0 < n -> length rows <= fuel -> concat (Tx.chunks fuel n rows) = rows.
Proof.
  intros Hn. revert rows. induction fuel as [|fuel IH]; intros rows Hf.
  { destruct rows; [done|cbn in Hf; lia]. }
  cbn [Tx.chunks]. destruct (take n rows) as [|x chunk] eqn:E.
  - destruct rows; [done|]. destruct n; [lia|done].
  - cbn [concat]. rewrite IH, <-E; [by rewrite take_drop|].
    rewrite length_drop. destruct rows; [by rewrite take_nil in E|]. cbn in Hf |- *. lia.
Qed.

Lemma chunks_elem {A} fuel n (rows : list A) chunk :
  chunk ∈ Tx.chunks fuel n rows -> chunk ⊆ rows.
Proof.
  revert rows. induction fuel as [|fuel IH]; intros rows; [by intros ?%elem_of_nil|].
  cbn [Tx.chunks]. destruct (take n rows) as [|x l] eqn:E; [by intros ?%elem_of_nil|].
  rewrite <-E. intros [->|Hc]%elem_of_cons y Hy.
  - rewrite <-(take_drop n rows). apply elem_of_app. by left.
  - rewrite <-(take_drop n rows). apply elem_of_app. right. by eapply IH.
Qed.

Lemma insert_rows_Ok dialect table columns rows db u db' :
  (Z.of_nat (length columns) <= Dialect.max_bind_params dialect)%Z ->
  Tx.insert_rows dialect table columns rows db = (Ok u, db') ->
  if decide (rows = []) then db' = db
  else exists t, db !! table = Some t /\ primary_key_ok (t <| DbTable.rows ::=
      fun old => old ++ (zip columns <$> rows) |>) = true /\
    db' = <[table := t <| DbTable.rows ::= fun old => old ++ (zip columns <$> rows) |>]> db.
Proof.
  intros Hlen. unfold Tx.insert_rows. case_decide as Hrows; [intros H; by injection H as _ ->|].
  case_decide as Hcols; [done|]. cbv zeta.
  match goal with |- context [if ?b then _ else _] => destruct b end.
  { intros (t & Ht & Hk & ->)%exec_Ok%update_rows_of_Some. eauto. }
  set (n := Z.to_nat _). intros Hrun.
  assert (0 < n) as Hn.
  { subst n. destruct columns; [done|]. apply (Z2Nat.inj_lt 0).
    - lia.
    - apply Z.div_pos; [by destruct dialect|]. cbn. lia.
    - apply Z.div_str_pos. cbn [length] in *. lia. }
  assert (effects (Statement.Insert table columns <$> Tx.chunks (length rows) n rows) db = Some db')
    as He.
  { by eapply st_for_exec_map. }
  pose proof (chunks_concat (length rows) n rows Hn ltac:(lia)) as Hconcat.
  rewrite <-Hconcat. apply (effects_merge (fun rows => Statement.Insert table columns rows)) in He.
  - cbn in He. by apply update_rows_of_Some in He.
  - intros a b db0 db1 db2 _ _. cbn. apply update_rows_of_compose. intros t. cbn.
    by rewrite fmap_app, app_assoc.
  - apply Forall_forall. intros chunk Hin ->. clear -Hin Hn.
    revert Hin. generalize (length rows) as fuel. intros fuel. revert rows.
    induction fuel as [|fuel IH]; intros rows; cbn; [by intros ?%elem_of_nil|].
    case_match eqn:E; [by intros ?%elem_of_nil|].
    intros [Hx|Hx]%elem_of_cons; [done|by apply IH in Hx].
  - apply concat_nonempty. by rewrite Hconcat.
Qed.

(** Inserting buffered rows appends exactly those rows, in their order,
    however they are split into [INSERT]s or sent by [COPY]; with no rows nothing
    is sent. *)
Theorem insert_rows_appends (dialect : Dialect) (table : string) (columns : list string)
    (rows : list (list SqlValue)) (db db' : Db) (u : unit)
    (Hcolumns : (Z.of_nat (length columns) <= Dialect.max_bind_params dialect)%Z)
    (Hrun : Tx.insert_rows dialect table columns rows db = (Ok u, db')) :
  if decide (rows = []) then db' = db
  else exists t, db !! table = Some t /\
    db' = <[table := t <| DbTable.rows ::= fun old => old ++ (zip columns <$> rows) |>]> db.
Proof.
  pose proof (insert_rows_Ok _ _ _ _ _ _ _ Hcolumns Hrun) as H. case_decide; [done|].
  destruct H as (t & Ht & _ & ->). eauto.
Qed.

(** Constant assignments to rows that a filter selects, when the filter rejects
    the assigned rows *)
Lemma update_matching_compose table values filter keys :
  (forall r, holds filter (update_row values r) = false) ->
  forall a b db db1 db2, a <> [] -> b <> [] ->
    effect (Statement.Update table values (Cond.And filter (matching_rows keys a))) db = Some db1 ->
    effect (Statement.Update table values (Cond.And filter (matching_rows keys b))) db1 = Some db2 ->
    effect (Statement.Update table values (Cond.And filter (matching_rows keys (a ++ b)))) db
      = Some db2.
Proof.
  intros Hf a b db db1 db2 _ _. cbn [effect]. apply update_rows_of_compose. intros t.
  cbn [DbTable.rows]. change (DbTable.rows (t <| DbTable.rows := ?x |>)) with x.
  rewrite <-list_fmap_compose. apply list_fmap_ext. intros _ r _. unfold compose. cbn [holds].
  rewrite holds_matching_rows_app.
  destruct (holds filter r) eqn:E; cbn.
  - destruct (holds (matching_rows keys a) r); cbn; [by rewrite Hf|by rewrite E].
  - by rewrite E.
Qed.
End Running.

(** A deletion by key from a table of two rows *)
Lemma delete_rows_single_witness :
  let t := DbTable.mk ["id"] None [[("id", SInt 1)]; [("id", SInt 2)]] in
  let db : Db := {["t" := t]} in
  let db' : Db := <["t" := DbTable.mk ["id"] None [[("id", SInt 1)]]]> db in
  Tx.delete_rows Dialect.Sqlite "t" ["id"] [[SInt 2]; [SInt 3]] db = (Ok tt, db') /\
  if decide ([[SInt 2]; [SInt 3]] = []) then db' = db
  else exists t, db !! "t" = Some t /\
    db' = <["t" := t <| DbTable.rows := List.filter (fun r =>
      negb (holds (matching_rows ["id"] [[SInt 2]; [SInt 3]]) r)) (DbTable.rows t) |>]> db.
Proof.
  assert (Tx.delete_rows Dialect.Sqlite "t" ["id"] [[SInt 2]; [SInt 3]]
            {["t" := DbTable.mk ["id"] None [[("id", SInt 1)]; [("id", SInt 2)]]]}
          = (Ok tt, <["t" := DbTable.mk ["id"] None [[("id", SInt 1)]]]>
               {["t" := DbTable.mk ["id"] None [[("id", SInt 1)]; [("id", SInt 2)]]]})) as H
    by (vm_compute; reflexivity).
  split; [exact H|]. exact (delete_rows_single _ _ _ _ _ _ _ H).
Defined.

(** Two rows appended to a table of one *)
Lemma insert_rows_appends_witness :
  let db : Db := {["t" := DbTable.mk ["id"] None [[("id", SInt 1)]]]} in
  let db' : Db :=
    <["t" := DbTable.mk ["id"] None [[("id", SInt 1)]; [("id", SInt 2)]; [("id", SInt 3)]]]> db in
  (Z.of_nat (length ["id"]) <= Dialect.max_bind_params Dialect.Postgres)%Z /\
  if decide ([[SInt 2]; [SInt 3]] = []) then db' = db
  else exists t, db !! "t" = Some t /\
    db' = <["t" := t <| DbTable.rows ::= fun old => old ++ (zip ["id"] <$> [[SInt 2]; [SInt 3]]) |>]> db.
Proof.
  split; [vm_compute; discriminate|].
  apply (insert_rows_appends Dialect.Postgres "t" ["id"] [[SInt 2]; [SInt 3]]
    {["t" := DbTable.mk ["id"] None [[("id", SInt 1)]]]} _ tt).
  - vm_compute. discriminate.
  - vm_compute. reflexivity.
Defined.
