(* ===== verification/Persist.v ===== *)
(** * Writing the collected changes ([transaction/transaction_changes.rs])

    The statements of one commit, in the order the source sends them: rows of
    dropped, renamed and edited entities are retired by setting their end
    snapshot, new rows are inserted, and the statistics are written last. *)

From S2P Require Import Prelude Text Regex Identifier Types Entities CatalogColumns Catalog.
From S2P Require Import TableStats CommitState Dialect TransactionChanges Database.

(** The database transaction and the commit state it reads *)
Module Writer.
Record t `{External} : Type := mk { db : Db; state : CommitState }.
#[global] Arguments mk {_} db state.
Definition eta `{External} (w : t) : t := mk (db w) (state w).
#[export] Instance set_db `{External} : Setter db := ltac:(mk_setter eta db).
#[export] Instance set_state `{External} : Setter state := ltac:(mk_setter eta state).
End Writer.
#[export] Existing Instances Writer.set_db Writer.set_state.
Abbreviation Writer := Writer.t.

Module Persist.
Section Persist.
Context `{EXT : External} `{CMP : !SqlCompare} `{ENGINE : !SqlEngine} `{TXT : !ValueText}
  `{HASH : HashOrder}.
Context (dialect : Dialect).

Definition tx {A} (m : method Db A) : method Writer A :=
  st_zoom Writer.db (fun db self => self <| Writer.db := db |>) m.
Definition on_state {A} (m : method CommitState A) : method Writer A :=
  st_zoom Writer.state (fun state self => self <| Writer.state := state |>) m.

(** Key rows of one column *)
Definition id_rows (ids : list Z) : list (list SqlValue) := (fun id => [to_sql id]) <$> ids.

Definition retire_rows (snapshot_id : Z) (table : string) (keys : list string)
    (rows : list (list SqlValue)) : method Db unit :=
  Tx.update_matching_rows dialect table keys rows [("end_snapshot", to_sql snapshot_id)]
    (Cond.IsNull "end_snapshot").

Definition persist_table_renames (snapshot_id : Z) (renames : gmap Z string) : method Db unit :=
  Tx.copy_rows_with_updates dialect (TABLE DucklakeTable) (COLUMNS DucklakeTable)
    ["table_id"] ["table_name"]
    ((fun '(id, name) => ([to_sql id], [to_sql name])) <$> hash_iter renames)
    [("begin_snapshot", to_sql snapshot_id); ("end_snapshot", SNull)]
    (Cond.Eq "end_snapshot" (to_sql snapshot_id)).

(** ** Tags *)

(** One round: the next edit of every object that has one left. *)
Definition tag_round {K E} (key_values : K -> string -> list SqlValue)
    (entity : K -> string -> string -> E) (pending : list (K * list TagChange.t))
    : list (list SqlValue) * list E * list (K * list TagChange.t) :=
  (omap (fun '(key, changes) => (fun c => key_values key (TagChange.key c)) <$> head changes) pending,
   omap (fun '(key, changes) => c ← head changes; v ← TagChange.value c;
           Some (entity key (TagChange.key c) v)) pending,
   (fun '(key, changes) => (key, tail changes)) <$> pending).

(** The [loop]: it ends in the first round without edits, after at most one
    round more than the longest list of edits. *)
Fixpoint tag_rounds {K E} `{!Entity E} (fuel : nat) (snapshot_id : Z) (table : string)
    (keys : list string) (key_values : K -> string -> list SqlValue)
    (entity : K -> string -> string -> E) (pending : list (K * list TagChange.t))
    : method Db unit :=
  match fuel with
  | 0 => st_panic
  | S fuel =>
      let '(retirements, inserts, pending) := tag_round key_values entity pending in
      if decide (retirements = []) then mret tt
      else
        retire_rows snapshot_id table keys retirements ;;
        Tx.insert_entities dialect inserts ;;
        tag_rounds fuel snapshot_id table keys key_values entity pending
  end.

Definition longest {K} (pending : list (K * list TagChange.t)) : nat :=
  foldr Nat.max 0 (length <$> pending.*2).

Definition persist_tags {K E} `{Countable K} `{!Entity E} (snapshot_id : Z) (table : string)
    (keys : list string) (changes : gmap K (list TagChange.t))
    (key_values : K -> string -> list SqlValue) (entity : K -> string -> string -> E)
    : method Db unit :=
  let pending := hash_iter changes in
  tag_rounds (S (longest pending)) snapshot_id table keys key_values entity pending.

(** ** Files *)

Definition persist_inline_deletes (table_id : Z) (deletes : list DucklakeInlinedDelete)
    : method Db unit :=
  let name := DucklakeInlinedDelete_table_name table_id in
  Tx.exec (Statement.CreateTable name
    ((fun c => (c, Dialect.column_type_i64 dialect)) <$> COLUMNS DucklakeInlinedDelete)
    (PRIMARY_KEY DucklakeInlinedDelete) true) ;;
  Tx.insert_entities_into dialect name deletes.

Definition persist_files (files : FileChanges) : method Db unit :=
  Tx.insert_entities dialect (FileChanges.data_files files) ;;
  Tx.insert_entities dialect (FileChanges.partition_values files) ;;
  Tx.insert_entities dialect (FileChanges.column_stats files) ;;
  Tx.insert_entities dialect (FileChanges.delete_files files) ;;
  st_for (fun '(table_id, deletes) => persist_inline_deletes table_id deletes)
    (hash_iter (FileChanges.inline_deletes files)).

(** ** Inlined data *)

Definition create_inline_table (schema_version : Z) (table_id : Z) (schema : Schema)
    : method Db (Z * string) :=
  let name := DucklakeInlinedData_table_name table_id schema_version in
  columns ← st_lift (map_outcome (fun '(column, info) =>
      ty ← Dialect.column_type_for_data_inlining dialect (Column.dtype info);
      mret (column, ty)) (Schema.columns schema));
  Tx.exec (Statement.CreateTable name
    (((fun c => (c, Dialect.column_type_i64 dialect)) <$> COLUMNS DucklakeInlinedData) ++ columns)
    None false) ;;
  mret (table_id, name).

(** The registration with the highest schema version per table *)
Definition latest_registrations (tables : list DucklakeInlinedDataTables)
    : gmap Z DucklakeInlinedDataTables :=
  foldl (fun latest table =>
    let id := DucklakeInlinedDataTables.table_id table in
    match latest !! id with
    | Some previous =>
        if (DucklakeInlinedDataTables.schema_version previous
            <? DucklakeInlinedDataTables.schema_version table)%Z
        then <[id := table]> latest else latest
    | None => <[id := table]> latest
    end) ∅ tables.

Definition row_not_found : DucklakeError :=
  Database false false
    "no rows returned by a query that expected to return at least one row".

Definition write_inline_data (tables : gmap Z Schema) (data : gmap Z (list RecordBatch))
    (schema_version : Z) : method Db unit :=
  created ← st_map (fun '(table_id, schema) => create_inline_table schema_version table_id schema)
              (hash_iter tables);
  Tx.insert_entities dialect ((fun '(table_id, name) =>
    DucklakeInlinedDataTables.mk table_id name schema_version) <$> created) ;;
  let names : gmap Z string := list_to_map created in
  let existing := List.filter (fun id => negb (bool_decide (is_Some (names !! id))))
                    (hash_iter data).*1 in
  registered ← Tx.fetch_rows (E := DucklakeInlinedDataTables) dialect ["table_id"]
                 (id_rows existing);
  let names := (DucklakeInlinedDataTables.table_name <$> latest_registrations registered)
                 ∪ names in
  st_for (fun '(table_id, batches) =>
    name ← st_lift (ok_or row_not_found (names !! table_id));
    st_for (Tx.insert_all_arrow dialect name) batches) (hash_iter data).

Definition persist_inline_data (tables : gmap Z Schema) (data : gmap Z (list RecordBatch))
    (schema_version : Z) : method Db unit :=
  match dialect with
  | Dialect.MySql => if decide (data = ∅) then mret tt else st_panic
  | _ => write_inline_data tables data schema_version
  end.

(** ** Statistics *)

Definition column_stats_entity (table_id column_id : Z) (s : ColumnStats)
    : DucklakeTableColumnStats :=
  DucklakeTableColumnStats.mk table_id column_id (ColumnStats.contains_null s)
    (ColumnStats.contains_nan s) (value_to_string <$> ColumnStats.min_value s)
    (value_to_string <$> ColumnStats.max_value s) None.

Record StatsRows : Type := mk_StatsRows {
  new_tables : list DucklakeTableStats;
  updated_tables : list (list SqlValue * list SqlValue);
  new_columns : list DucklakeTableColumnStats;
  updated_columns : list (list SqlValue * list SqlValue);
}.

(** The rows of one column, appended to the ones collected so far *)
Definition column_stats_rows (table_id : Z) (acc : StatsRows) (column_id : Z)
    : method CommitState StatsRows :=
  CommitState.update_table_stats table_id (TableStats.update_column_stats column_id id) ;;
  stats ← CommitState.get_table_stats table_id;
  s ← st_lift (unwrap (TableStats.column_stats stats !! column_id));
  let e := column_stats_entity table_id column_id s in
  mret
    (if ColumnStats.is_persisted s then
       mk_StatsRows (new_tables acc) (updated_tables acc) (new_columns acc)
         (updated_columns acc ++
           [([to_sql table_id; to_sql column_id],
             [to_sql (DucklakeTableColumnStats.contains_null e);
              to_sql (DucklakeTableColumnStats.contains_nan e);
              to_sql (DucklakeTableColumnStats.min_value e);
              to_sql (DucklakeTableColumnStats.max_value e)])])
     else
       mk_StatsRows (new_tables acc) (updated_tables acc) (new_columns acc ++ [e])
         (updated_columns acc)).

Fixpoint fold_method {S A B} (f : B -> A -> method S B) (acc : B) (l : list A) : method S B :=
  match l with
  | [] => mret acc
  | x :: l => acc ← f acc x; fold_method f acc l
  end.

Definition table_stats_rows (acc : StatsRows) (written : Z * gset Z)
    : method CommitState StatsRows :=
  let '(table_id, column_ids) := written in
  state ← st_get;
  let changed := List.filter (CommitState.column_stats_changed state table_id)
                   (hash_iter_set column_ids) in
  stats ← CommitState.get_table_stats table_id;
  let e := DucklakeTableStats.mk table_id (TableStats.record_count stats)
             (TableStats.next_row_id stats) (TableStats.file_size_bytes stats) in
  let acc :=
    if TableStats.is_persisted stats then
      mk_StatsRows (new_tables acc)
        (updated_tables acc ++
          [([to_sql table_id],
            [to_sql (DucklakeTableStats.record_count e);
             to_sql (DucklakeTableStats.next_row_id e);
             to_sql (DucklakeTableStats.file_size_bytes e)])])
        (new_columns acc) (updated_columns acc)
    else
      mk_StatsRows (new_tables acc ++ [e]) (updated_tables acc) (new_columns acc)
        (updated_columns acc) in
  fold_method (column_stats_rows table_id) acc changed.

Definition persist_statistics (written_columns : gmap Z (gset Z)) : method Writer unit :=
  rows ← on_state (fold_method table_stats_rows (mk_StatsRows [] [] [] [])
                     (hash_iter written_columns));
  tx (
    Tx.insert_entities dialect (new_tables rows) ;;
    Tx.insert_entities dialect (new_columns rows) ;;
    Tx.update_rows dialect (TABLE DucklakeTableStats) ["table_id"]
      ["record_count"; "next_row_id"; "file_size_bytes"] (updated_tables rows) ;;
    Tx.update_rows dialect (TABLE DucklakeTableColumnStats) ["table_id"; "column_id"]
      ["contains_null"; "contains_nan"; "min_value"; "max_value"] (updated_columns rows)).

(** ** [TransactionChanges::persist] *)

Definition delete_detached (ids : list Z) : method Db unit :=
  Tx.delete_rows dialect (TABLE DucklakeFileColumnStats) ["table_id"] (id_rows ids) ;;
  Tx.delete_rows dialect (TABLE DucklakeFilePartitionValue) ["table_id"] (id_rows ids) ;;
  Tx.delete_rows dialect (TABLE DucklakeDataFile) ["table_id"] (id_rows ids) ;;
  Tx.delete_rows dialect (TABLE DucklakeDeleteFile) ["table_id"] (id_rows ids).

Definition retire_entities (snapshot_id : Z) (c : TransactionChanges) : method Db unit :=
  let dropped_tables := hash_iter_set (TransactionChanges.dropped_tables c) in
  let dropped_schemas := hash_iter_set (TransactionChanges.dropped_schemas c) in
  let dropped_views := hash_iter_set (TransactionChanges.dropped_views c) in
  let retire table key ids := retire_rows snapshot_id table [key] (id_rows ids) in
  retire (TABLE DucklakeTable) "table_id"
    (dropped_tables ++ (hash_iter (TransactionChanges.renamed_tables c)).*1) ;;
  retire (TABLE DucklakeSchema) "schema_id" dropped_schemas ;;
  retire (TABLE DucklakeView) "view_id" dropped_views ;;
  retire (TABLE DucklakeMacro) "macro_id" (hash_iter_set (TransactionChanges.dropped_macros c)) ;;
  retire (TABLE DucklakeColumn) "table_id" dropped_tables ;;
  retire (TABLE DucklakeColumnTag) "table_id" dropped_tables ;;
  retire (TABLE DucklakeDataFile) "table_id" dropped_tables ;;
  retire (TABLE DucklakeDeleteFile) "table_id" dropped_tables ;;
  retire (TABLE DucklakePartitionInfo) "table_id"
    (dropped_tables ++ hash_iter_set (TransactionChanges.retired_partition_tables c)) ;;
  retire (TABLE DucklakeSortInfo) "table_id"
    (dropped_tables ++ hash_iter_set (TransactionChanges.retired_sort_tables c)) ;;
  retire (TABLE DucklakeTag) "object_id" (dropped_tables ++ dropped_schemas ++ dropped_views) ;;
  retire_rows snapshot_id (TABLE DucklakeColumn) ["table_id"; "column_id"]
    ((fun '(table, column) => [to_sql table; to_sql column])
       <$> hash_iter_set (TransactionChanges.retired_columns c)).

Definition insert_entities (snapshot_id : Z) (c : TransactionChanges) : method Db unit :=
  Tx.insert_entities dialect (TransactionChanges.new_schemas c) ;;
  persist_table_renames snapshot_id (TransactionChanges.renamed_tables c) ;;
  Tx.insert_entities dialect (TransactionChanges.new_tables c) ;;
  Tx.insert_entities dialect (TransactionChanges.new_views c) ;;
  Tx.insert_entities dialect (TransactionChanges.new_macros c) ;;
  Tx.insert_entities dialect (TransactionChanges.new_macro_impls c) ;;
  Tx.insert_entities dialect (TransactionChanges.new_macro_parameters c) ;;
  Tx.insert_entities dialect (TransactionChanges.new_columns c) ;;
  Tx.insert_entities dialect (TransactionChanges.new_partition_info c) ;;
  Tx.insert_entities dialect (TransactionChanges.new_partition_columns c) ;;
  Tx.insert_entities dialect (TransactionChanges.new_sort_info c) ;;
  Tx.insert_entities dialect (TransactionChanges.new_sort_expressions c) ;;
  Tx.insert_entities dialect (TransactionChanges.new_tags c) ;;
  Tx.insert_entities dialect (TransactionChanges.new_column_tags c).

Definition persist_all_tags (snapshot_id : Z) (c : TransactionChanges) : method Db unit :=
  persist_tags snapshot_id (TABLE DucklakeTag) ["object_id"; "key"]
    (TransactionChanges.table_tags c)
    (fun id key => [to_sql id; to_sql key])
    (fun object_id key value => DucklakeTag.mk object_id snapshot_id None key value) ;;
  persist_tags snapshot_id (TABLE DucklakeColumnTag) ["table_id"; "column_id"; "key"]
    (TransactionChanges.column_tags c)
    (fun '(table, column) key => [to_sql table; to_sql column; to_sql key])
    (fun '(table_id, column_id) key value =>
       DucklakeColumnTag.mk table_id column_id snapshot_id None key value).

Definition persist (c : TransactionChanges) : method Writer unit :=
  state ← st_gets Writer.state;
  let snapshot_id := CommitState.snapshot_id state in
  tx (delete_detached (hash_iter_set (TransactionChanges.detached_tables c))) ;;
  tx (retire_entities snapshot_id c) ;;
  tx (insert_entities snapshot_id c) ;;
  tx (persist_all_tags snapshot_id c) ;;
  tx (persist_files (TransactionChanges.files c)) ;;
  tx (persist_inline_data (TransactionChanges.inline_tables c) (TransactionChanges.inline_data c)
        (CommitState.schema_version state)) ;;
  persist_statistics (TransactionChanges.written_columns c).
End Persist.
End Persist.
