(* ===== verification/Stamps.v ===== *)
(** * The rows of a commit carry its snapshot

    Every versioned row the executors collect begins at the snapshot of the
    commit: an invariant of [Change_apply] and [ChangeSet_apply]. *)

From S2P Require Import Prelude Triple Text Regex Identifier Types Instances Entities.
From S2P Require Import CatalogColumns Catalog TableStats CommitState Change AppliedChange.
From S2P Require Import Dialect TransactionChanges Executors Database.

Section Stamps.
Context `{EXT : External}.

Definition stamped {E} `{!Entity E} (s0 : Z) (e : E) : Prop :=
  field "begin_snapshot" (to_row e) = SInt s0.

(** Every versioned row begins at [s0]; files are detached and batches are
    inlined only if [detach] and [inline] allow it. *)
Record Stamped (detach inline : Prop) (s0 : Z) (c : TransactionChanges) : Prop := {
  stamped_schemas : Forall (stamped s0) (TransactionChanges.new_schemas c);
  stamped_tables : Forall (stamped s0) (TransactionChanges.new_tables c);
  stamped_views : Forall (stamped s0) (TransactionChanges.new_views c);
  stamped_macros : Forall (stamped s0) (TransactionChanges.new_macros c);
  stamped_columns : Forall (stamped s0) (TransactionChanges.new_columns c);
  stamped_partition_info : Forall (stamped s0) (TransactionChanges.new_partition_info c);
  stamped_sort_info : Forall (stamped s0) (TransactionChanges.new_sort_info c);
  stamped_tags : Forall (stamped s0) (TransactionChanges.new_tags c);
  stamped_column_tags : Forall (stamped s0) (TransactionChanges.new_column_tags c);
  stamped_data_files : Forall (stamped s0) (FileChanges.data_files (TransactionChanges.files c));
  stamped_delete_files : Forall (stamped s0) (FileChanges.delete_files (TransactionChanges.files c));
  stamped_detached : detach \/ TransactionChanges.detached_tables c = ∅;
  stamped_inline : inline \/ TransactionChanges.inline_data c = ∅;
}.

Lemma Stamped_default detach inline s0 : Stamped detach inline s0 TransactionChanges.default.
Proof. split; first [apply Forall_nil_2|by right]. Qed.

Definition on_snapshot (s0 : Z) (st : CommitState) : Prop := CommitState.snapshot_id st = s0.
Definition at_snapshot (detach inline : Prop) (s0 : Z) (a : Attempt) : Prop :=
  on_snapshot s0 (Attempt.state a) /\ Stamped detach inline s0 (Attempt.changes a).

(** ** The commit state keeps its snapshot *)

Lemma on_snapshot_catalog {A} s0 (m : method Catalog A) :
  triple (on_snapshot s0) (CommitState.on_catalog m) any.
Proof. by apply triple_zoom with (J := any). Qed.

Lemma on_snapshot_known_or_fresh s0 known resolve :
  triple (on_snapshot s0) (CommitState.known_or_fresh known resolve) any.
Proof.
  unfold CommitState.known_or_fresh, CommitState.catalog_id.
  repeat (triple_step; try done). apply on_snapshot_catalog.
Qed.

Lemma on_snapshot_column_id s0 r : triple (on_snapshot s0) (CommitState.column_id r) any.
Proof. unfold CommitState.column_id. repeat (triple_step; try done). Qed.
Lemma on_snapshot_file_id s0 : triple (on_snapshot s0) CommitState.file_id any.
Proof. unfold CommitState.file_id. repeat (triple_step; try done). Qed.
Lemma on_snapshot_catalog_id s0 : triple (on_snapshot s0) CommitState.catalog_id any.
Proof. unfold CommitState.catalog_id. repeat (triple_step; try done). Qed.
Lemma on_snapshot_get_table_stats s0 id :
  triple (on_snapshot s0) (CommitState.get_table_stats id) any.
Proof. unfold CommitState.get_table_stats. repeat (triple_step; try done). Qed.
Lemma on_snapshot_update_table_stats s0 id f :
  triple (on_snapshot s0) (CommitState.update_table_stats id f) any.
Proof.
  unfold CommitState.update_table_stats. triple_step; [apply on_snapshot_get_table_stats|].
  by repeat triple_step.
Qed.
End Stamps.

#[export] Hint Resolve on_snapshot_known_or_fresh on_snapshot_column_id on_snapshot_file_id
  on_snapshot_catalog_id on_snapshot_get_table_stats on_snapshot_update_table_stats : ducklake.

(** [Stamped] after a change of one field: new rows begin at the snapshot. *)
Ltac solve_stamped_rows :=
  first
    [ done
    | apply Forall_app; split; [done|solve_stamped_rows]
    | apply Forall_fmap, Forall_true; reflexivity
    | repeat constructor; reflexivity ].
Ltac solve_stamped := intros ? []; constructor; cbn; solve [solve_stamped_rows].

Section Executors.
Context `{EXT : External} `{ENV : !Environment} `{TXT : !ValueText} `{HASH : HashOrder}.
Context (detach inline : Prop).

Lemma at_snapshot_on_state {A} (s0 : Z) (m : method CommitState A) :
  triple (on_snapshot s0) m any -> triple (at_snapshot detach inline s0) (executors.on_state m) any.
Proof.
  intros Hm. eapply triple_zoom; [| |exact Hm].
  - by intros s [].
  - intros s t [] ?. by split.
Qed.

Lemma at_snapshot_collect s0 f :
  (forall c, Stamped detach inline s0 c -> Stamped detach inline s0 (f c)) ->
  triple (at_snapshot detach inline s0) (executors.collect f) any.
Proof. intros Hf. apply triple_modify. intros a []. split; [done|]. by apply Hf. Qed.

Lemma at_snapshot_id s0 : triple (at_snapshot detach inline s0) executors.snapshot_id (eq s0).
Proof. apply triple_gets. by intros a []. Qed.

Lemma at_snapshot_uuid s0 : triple (at_snapshot detach inline s0) executors.uuid_now_v7 any.
Proof. unfold executors.uuid_now_v7. by repeat triple_step. Qed.
End Executors.

#[export] Hint Resolve at_snapshot_on_state at_snapshot_id at_snapshot_uuid : ducklake.

(** One step through an executor *)
Ltac stamp_step :=
  first
    [ apply at_snapshot_id | apply at_snapshot_uuid
    | apply at_snapshot_on_state; (unfold CommitState.table_id, CommitState.schema_id,
        CommitState.view_id, CommitState.macro_id, CommitState.partition_id,
        CommitState.sort_info_id in *; solve [auto with ducklake])
    | apply at_snapshot_collect; solve [solve_stamped]
    | triple_step ].
Ltac stamp := repeat (subst; stamp_step; try done).

Section ApplyStamps.
Context `{EXT : External} `{ENV : !Environment} `{TXT : !ValueText} `{HASH : HashOrder}.
Context (detach inline : Prop).
Local Abbreviation keeps m := (forall s0 : Z, triple (at_snapshot detach inline s0) m any).

Lemma stamp_create_schema r name path : keeps (executors.create_schema r name path).
Proof. intros s0. unfold executors.create_schema, executors.schema_id. stamp. Qed.
Lemma stamp_delete_schema r : keeps (executors.delete_schema r).
Proof. intros s0. unfold executors.delete_schema, executors.schema_id. stamp. Qed.
Lemma stamp_create_tags id tags : keeps (executors.create_tags id tags).
Proof. intros s0. unfold executors.create_tags. stamp. Qed.
Hint Resolve stamp_create_tags : ducklake.
Lemma stamp_create_view r v name sql dialect aliases tags :
  keeps (executors.create_view r v name sql dialect aliases tags).
Proof.
  intros s0. unfold executors.create_view, executors.schema_id. stamp. apply stamp_create_tags.
Qed.
Lemma stamp_delete_view r : keeps (executors.delete_view r).
Proof. intros s0. unfold executors.delete_view. stamp. Qed.
Lemma stamp_create_macro r m name ty impls : keeps (executors.create_macro r m name ty impls).
Proof. intros s0. unfold executors.create_macro, executors.schema_id. stamp. Qed.
Lemma stamp_delete_macro r : keeps (executors.delete_macro r).
Proof. intros s0. unfold executors.delete_macro. stamp. Qed.

(** *** Tables and columns *)

Lemma column_row_stamped s0 table_id parent ids i flat row :
  executors.column_row s0 table_id parent ids i flat = Ok row ->
  stamped s0 row.1 /\ Forall (stamped s0) row.2.
Proof.
  unfold executors.column_row, mbind, outcome_bind.
  destruct (unwrap (ids !! i)); [|done..].
  destruct (executors.to_default_value_columns _ _) as [[??]?].
  destruct (option_outcome _ _); [|done..]. intros [= <-]. split; [reflexivity|].
  by apply Forall_fmap, Forall_true.
Qed.

Lemma map_outcome_Forall {E A B} (f : A -> outcome E B) (P : B -> Prop) l ys :
  (forall x y, f x = Ok y -> P y) -> map_outcome f l = Ok ys -> Forall P ys.
Proof.
  intros Hf. revert ys. induction l as [|x l IH]; intros ys; cbn; [by intros [= <-]|].
  unfold mbind, outcome_bind. destruct (f x) eqn:Hx; [|done..].
  destruct (map_outcome f l); [|done..]. intros [= <-]. constructor; eauto.
Qed.

Lemma stamp_add_column_to_buffers s0 table_id parent refs column :
  triple (at_snapshot detach inline s0) (executors.add_column_to_buffers table_id parent refs column)
    (fun rows => Forall (stamped s0) rows.1 /\ Forall (stamped s0) rows.2).
Proof.
  unfold executors.add_column_to_buffers, executors.column_id.
  eapply triple_bind with (P := any); [stamp|]. intros parent_id _.
  eapply triple_bind; [stamp|]. intros ids _. cbv beta.
  eapply triple_bind; [apply at_snapshot_id|]. intros ? <-.
  eapply (triple_bind _ _ _ (Forall (fun row => stamped s0 row.1 /\ Forall (stamped s0) row.2))).
  - apply triple_lift. intros rows. apply map_outcome_Forall.
    intros [i flat] row. apply column_row_stamped.
  - intros rows Hrows. apply triple_ret. cbn. split.
    + apply Forall_fmap. eapply Forall_impl; [done|]. by intros ? [].
    + apply Forall_concat, Forall_fmap. eapply Forall_impl; [done|]. by intros ? [].
Qed.
Hint Resolve stamp_add_column_to_buffers : ducklake.

Lemma stamp_create_partitioning r table_id refs columns :
  keeps (executors.create_partitioning r table_id refs columns).
Proof. intros s0. unfold executors.create_partitioning, executors.column_id. stamp. Qed.
Lemma stamp_create_partitioning_if r table_id refs columns :
  keeps (executors.create_partitioning_if r table_id refs columns).
Proof.
  intros s0. unfold executors.create_partitioning_if. stamp. apply stamp_create_partitioning.
Qed.
Lemma stamp_create_sort_info table_id expressions :
  keeps (executors.create_sort_info table_id expressions).
Proof. intros s0. unfold executors.create_sort_info. stamp. Qed.

Lemma stamp_create_table r t refs prefs name columns retired pcolumns sort_info path tags :
  keeps (executors.create_table r t refs prefs name columns retired pcolumns sort_info path tags).
Proof.
  intros s0. unfold executors.create_table, executors.table_id, executors.schema_id.
  eapply triple_bind; [stamp|]. intros table_id _.
  eapply triple_bind; [stamp|]. intros schema_id _.
  eapply triple_bind; [apply at_snapshot_id|]. intros ? <-.
  eapply triple_bind; [stamp|]. intros uuid _. cbv zeta.
  eapply triple_bind; [stamp|]. intros _ _.
  eapply triple_bind.
  { apply triple_map. intros [column crefs] _. apply stamp_add_column_to_buffers. }
  intros rows Hrows. cbv beta zeta.
  assert (Forall (stamped s0) (concat rows.*1) /\ Forall (stamped s0) (concat rows.*2))
    as [Hcolumns Htags].
  { split; apply Forall_concat, Forall_fmap; (eapply Forall_impl; [done|]); by intros ? []. }
  eapply triple_bind.
  { apply at_snapshot_collect. intros c []; constructor; cbn; try done.
    apply Forall_app; split; [done|]. apply Forall_app; split; [done|].
    by apply Forall_fmap, Forall_true. }
  intros _ _. eapply triple_bind.
  { apply at_snapshot_collect. intros c []; constructor; cbn; try done.
    by apply Forall_app; split. }
  intros _ _. eapply triple_bind; [apply stamp_create_partitioning_if|].
  intros _ _. eapply triple_bind.
  { apply triple_when_some. intros ? _. apply stamp_create_sort_info. }
  intros _ _. case_match; [by apply triple_ret|apply stamp_create_tags].
Qed.

(** Updates in place keep the stamp: none of them writes [begin_snapshot]. *)
Lemma stamped_fmap {E} `{!Entity E} s0 (f : E -> E) l :
  (forall e, stamped s0 e -> stamped s0 (f e)) ->
  Forall (stamped s0) l -> Forall (stamped s0) (f <$> l).
Proof. intros Hf Hl. apply Forall_fmap. eapply Forall_impl; [done|]. apply Hf. Qed.

Lemma update_first_Forall {A} (P : A -> Prop) p f l l' :
  (forall x, P x -> P (f x)) -> Forall P l -> executors.update_first p f l = Some l' -> Forall P l'.
Proof.
  intros Hf Hl. revert l'. induction Hl as [|x l Hx Hl IH]; intros l'; [done|]. cbn.
  destruct (p x); [intros [= <-]; constructor; auto|].
  destruct (executors.update_first p f l) as [l''|]; [|done]. intros [= <-]. constructor; auto.
Qed.

Lemma stamp_rename_table r name : keeps (executors.rename_table r name).
Proof.
  intros s0. unfold executors.rename_table, executors.table_id.
  eapply triple_bind; [stamp|]. intros table_id _. apply at_snapshot_collect.
  intros c Hc. case_match eqn:Hu; [|by destruct Hc; constructor].
  destruct Hc. constructor; cbn; try done. by eapply update_first_Forall; [| |exact Hu].
Qed.

Lemma stamp_update_table_partitioning r refs columns :
  keeps (executors.update_table_partitioning r refs columns).
Proof.
  intros s0. unfold executors.update_table_partitioning, executors.table_id.
  eapply triple_bind; [stamp|]. intros table_id _.
  eapply triple_bind; [apply at_snapshot_id|]. intros ? <-.
  eapply triple_bind; [stamp|]. intros _ _.
  eapply triple_bind; [|intros _ _; apply stamp_create_partitioning_if].
  apply at_snapshot_collect. intros c []. constructor; cbn; try done.
  apply stamped_fmap; [|done]. intros e He. by case_match.
Qed.

Lemma stamp_update_table_sort_info r expressions :
  keeps (executors.update_table_sort_info r expressions).
Proof.
  intros s0. unfold executors.update_table_sort_info, executors.table_id.
  eapply triple_bind; [stamp|]. intros table_id _.
  eapply triple_bind; [apply at_snapshot_id|]. intros ? <-.
  eapply triple_bind; [stamp|]. intros _ _.
  eapply triple_bind.
  - apply at_snapshot_collect. intros c []. constructor; cbn; try done.
    apply stamped_fmap; [|done]. intros e He. by case_match.
  - intros _ _. apply triple_when_some. intros ? _. apply stamp_create_sort_info.
Qed.

Lemma stamp_delete_table r detach_files :
  (detach_files = true -> detach) -> keeps (executors.delete_table r detach_files).
Proof.
  intros Hd s0. unfold executors.delete_table, executors.table_id.
  eapply triple_bind; [stamp|]. intros table_id _.
  eapply triple_bind; [stamp|]. intros _ _. destruct detach_files; [|by apply triple_ret].
  apply at_snapshot_collect. intros c []; constructor; cbn; try done. left. by apply Hd.
Qed.
Lemma stamp_change_table_tag r change : keeps (executors.change_table_tag r change).
Proof. intros s0. unfold executors.change_table_tag, executors.table_id. stamp. Qed.
Lemma stamp_change_column_tag r change : keeps (executors.change_column_tag r change).
Proof.
  intros s0. unfold executors.change_column_tag, executors.table_id, executors.column_id. stamp.
Qed.

Lemma stamp_add_table_column parent refs column :
  keeps (executors.add_table_column parent refs column).
Proof.
  intros s0. unfold executors.add_table_column, executors.table_id.
  eapply triple_bind; [stamp|]. intros first _.
  eapply triple_bind; [stamp|]. intros table_id _.
  eapply triple_bind; [apply stamp_add_column_to_buffers|]. intros [columns tags] [Hc Ht].
  eapply triple_bind.
  { apply at_snapshot_collect. intros c []; constructor; cbn; try done. by apply Forall_app. }
  intros _ _. eapply triple_bind.
  { apply at_snapshot_collect. intros c []; constructor; cbn; try done. by apply Forall_app. }
  intros _ _. stamp.
Qed.

Lemma stamp_update_table_column parent r column :
  keeps (executors.update_table_column parent r column).
Proof.
  intros s0. unfold executors.update_table_column, executors.table_id, executors.column_id.
  eapply triple_bind; [stamp|]. intros table_id _.
  eapply triple_bind; [stamp|]. intros id _.
  eapply triple_bind; [stamp|]. intros _ _.
  eapply triple_bind.
  { apply at_snapshot_collect. intros c []; constructor; cbn; try done.
    apply Forall_forall. intros e [He _]%elem_of_filter_bool. by eapply Forall_forall. }
  intros _ _. eapply triple_bind; [apply stamp_add_column_to_buffers|].
  intros [columns tags] [Hc Ht].
  apply at_snapshot_collect. intros c []; constructor; cbn; try done. by apply Forall_app.
Qed.

Lemma stamp_remove_table_column r : keeps (executors.remove_table_column r).
Proof.
  intros s0. unfold executors.remove_table_column, executors.table_id, executors.column_id.
  eapply triple_bind; [stamp|]. intros table_id _.
  eapply triple_bind; [stamp|]. intros id _.
  eapply triple_bind; [apply at_snapshot_id|]. intros ? <-.
  eapply triple_bind; [stamp|]. intros _ _.
  apply at_snapshot_collect. intros c []; constructor; cbn; try done.
  apply stamped_fmap; [|done]. intros e He. by case_match.
Qed.

(** *** Data *)

Lemma stamp_update_table_stats_from_file table_id f :
  keeps (executors.update_table_stats_from_file table_id f).
Proof.
  intros s0. unfold executors.update_table_stats_from_file, executors.update_column_stats,
    executors.column_id. stamp.
Qed.
Lemma stamp_update_table_stats_from_inline_data table_id d :
  keeps (executors.update_table_stats_from_inline_data table_id d).
Proof.
  intros s0. unfold executors.update_table_stats_from_inline_data, executors.update_column_stats,
    executors.column_id. cbv zeta. stamp.
Qed.
Lemma stamp_next_row_id table_id : keeps (executors.next_row_id table_id).
Proof. intros s0. unfold executors.next_row_id. stamp. Qed.

Lemma stamp_collect_files s0 f :
  (forall c, Forall (stamped s0) (FileChanges.data_files c) ->
     Forall (stamped s0) (FileChanges.delete_files c) ->
     Forall (stamped s0) (FileChanges.data_files (f c)) /\
     Forall (stamped s0) (FileChanges.delete_files (f c))) ->
  triple (at_snapshot detach inline s0) (executors.collect_files f) any.
Proof.
  intros Hf. apply at_snapshot_collect. intros c [].
  destruct (Hf (TransactionChanges.files c)); [done..|]. by constructor.
Qed.

Lemma stamp_write_delete_file table_id file_id f :
  keeps (executors.write_delete_file table_id file_id f).
Proof.
  intros s0. unfold executors.write_delete_file.
  eapply triple_bind; [stamp|]. intros id _.
  eapply triple_bind; [apply at_snapshot_id|]. intros ? <-.
  apply stamp_collect_files. intros c Hd Hf. cbn. split; [done|].
  apply Forall_app; split; [done|]. by repeat constructor.
Qed.

Lemma stamp_write_column_stats table_id file_id r s :
  keeps (executors.write_column_stats table_id file_id r s).
Proof.
  intros s0. unfold executors.write_column_stats, executors.column_id.
  eapply triple_bind; [stamp|]. intros id _.
  eapply triple_bind; [|intros _ _; by apply triple_ret].
  by apply stamp_collect_files.
Qed.

Lemma stamp_write_data_file r table_id f : keeps (executors.write_data_file r table_id f).
Proof.
  intros s0. unfold executors.write_data_file.
  eapply triple_bind; [stamp|]. intros file_id _.
  eapply triple_bind; [apply stamp_next_row_id|]. intros start _.
  eapply triple_bind; [apply stamp_update_table_stats_from_file|]. intros _ _.
  eapply triple_bind; [apply at_snapshot_id|]. intros ? <-.
  eapply triple_bind; [stamp|]. intros partition_id _.
  eapply triple_bind.
  { apply stamp_collect_files. intros c Hd Hf. cbn. split; [|done].
    apply Forall_app; split; [done|]. by repeat constructor. }
  intros _ _. eapply triple_bind.
  { apply triple_for. intros ? _. apply stamp_write_delete_file. }
  intros _ _. eapply (triple_bind _ _ _ any).
  { case_match; [by apply triple_ret|]. by apply stamp_collect_files. }
  intros _ _. eapply triple_bind.
  { apply triple_when_some. intros ? _. by apply stamp_collect_files. }
  intros _ _. eapply triple_any, (triple_map _ _ _ any). intros [column_ref stats] _.
  apply stamp_write_column_stats.
Qed.

Lemma stamp_record_written_columns table_id columns :
  keeps (executors.record_written_columns table_id columns).
Proof. intros s0. unfold executors.record_written_columns. stamp. Qed.

Lemma stamp_write_table_data r files : keeps (executors.write_table_data r files).
Proof.
  intros s0. unfold executors.write_table_data, executors.table_id.
  eapply triple_bind; [stamp|]. intros table_id _.
  eapply triple_bind; [|intros columns _; apply stamp_record_written_columns].
  apply (triple_map _ _ _ any). intros f _. apply stamp_write_data_file.
Qed.

Lemma stamp_write_inline_batch table_id d :
  inline -> keeps (executors.write_inline_batch table_id d).
Proof.
  intros Hi s0. unfold executors.write_inline_batch.
  eapply triple_bind; [apply stamp_next_row_id|]. intros start _. cbv zeta.
  eapply triple_bind; [apply stamp_update_table_stats_from_inline_data|]. intros _ _.
  eapply triple_bind; [apply at_snapshot_id|]. intros ? <-.
  eapply (triple_bind _ _ _ any); [by apply triple_lift|]. intros batch _.
  eapply triple_bind.
  { apply at_snapshot_collect. intros c []; constructor; cbn; try done. by left. }
  intros _ _.
  eapply triple_any, (triple_map _ _ _ any). intros column_ref _. unfold executors.column_id. stamp.
Qed.

Lemma stamp_write_table_inline_data r data :
  inline -> keeps (executors.write_table_inline_data r data).
Proof.
  intros Hi s0. unfold executors.write_table_inline_data, executors.table_id.
  eapply triple_bind; [stamp|]. intros table_id _.
  eapply triple_bind; [|intros columns _; apply stamp_record_written_columns].
  apply (triple_map _ _ _ any). intros f _. by apply stamp_write_inline_batch.
Qed.

Lemma stamp_table_schema r : keeps (executors.table_schema r).
Proof. intros s0. unfold executors.table_schema. stamp. Qed.

Lemma stamp_create_inlined_data_table r dialect :
  keeps (executors.create_inlined_data_table r dialect).
Proof.
  intros s0. unfold executors.create_inlined_data_table, executors.table_id.
  eapply triple_bind; [stamp|]. intros table_id _.
  eapply triple_bind; [apply stamp_table_schema|]. intros schema _. stamp.
Qed.

(** *** All changes *)

Definition allowed (c : Change) : Prop :=
  match c with
  | Change.DeleteTable _ true => detach
  | Change.WriteTableInlineData _ _ => inline
  | _ => True
  end.

Lemma stamp_Change_apply c : allowed c -> keeps (Change_apply c).
Proof.
  intros Ha s0. destruct c; cbn [Change_apply].
  - apply stamp_create_schema.
  - apply stamp_delete_schema.
  - apply stamp_create_table.
  - apply stamp_write_table_data.
  - by apply stamp_write_table_inline_data.
  - apply stamp_rename_table.
  - apply stamp_update_table_partitioning.
  - apply stamp_update_table_sort_info.
  - apply stamp_delete_table. by intros ->.
  - apply stamp_change_table_tag.
  - apply stamp_change_table_tag.
  - apply stamp_create_view.
  - apply stamp_delete_view.
  - apply stamp_create_macro.
  - apply stamp_delete_macro.
  - apply stamp_add_table_column.
  - apply stamp_update_table_column.
  - apply stamp_remove_table_column.
  - apply stamp_change_column_tag.
  - apply stamp_change_column_tag.
Qed.

Lemma stamp_ChangeSet_apply `{ITER : !Itertools} changes dialect :
  Forall allowed changes -> keeps (ChangeSet_apply changes dialect).
Proof.
  rewrite Forall_forall. intros Ha s0. unfold ChangeSet_apply.
  eapply triple_bind.
  { apply triple_for. intros c _. destruct c; cbn; try by apply triple_ret.
    eapply triple_bind; [apply stamp_table_schema|]. intros schema _. stamp. }
  intros _ _. eapply triple_bind.
  { apply triple_for. intros c Hc. by apply stamp_Change_apply, Ha. }
  intros _ _. eapply triple_bind.
  { apply triple_for. intros r _. apply stamp_create_inlined_data_table. }
  intros _ _. stamp.
Qed.
End ApplyStamps.
