(* ===== verification/History.v ===== *)
(** * Writing a commit keeps the past ([transaction/transaction_changes.rs])

    The rows earlier snapshots see are untouched by [persist]: what it inserts
    begins at the new snapshot, and what it retires ends there. *)

From S2P Require Import Prelude Triple Text Regex Identifier Types Instances Entities.
From S2P Require Import CatalogColumns Catalog TableStats CommitState Dialect.
From S2P Require Import TransactionChanges Executors Database Batches Persist Stamps.

(** ** What a snapshot sees of a table *)

Section History.
Context `{EXT : External}.

(** A row without the column that retiring it writes *)
Definition content (r : row) : row :=
  List.filter (fun c => negb (bool_decide (c.1 = "end_snapshot"))) r.

Definition visible (snapshot_id : Z) (rows : list row) : list row :=
  content <$> List.filter (row_visible snapshot_id) rows.

Definition seen (db : Db) (table : string) (snapshot_id : Z) : list row :=
  match db !! table with
  | Some t => visible snapshot_id (DbTable.rows t)
  | None => []
  end.

Definition same_past (s0 : Z) (table : string) (db db' : Db) : Prop :=
  forall s, (s < s0)%Z -> seen db' table s = seen db table s.

(** The tables whose rows live from one snapshot to another *)
Definition versioned_tables : list string :=
  [TABLE DucklakeSchema; TABLE DucklakeTable; TABLE DucklakeView; TABLE DucklakeMacro;
   TABLE DucklakeColumn; TABLE DucklakeColumnTag; TABLE DucklakeTag; TABLE DucklakeDataFile;
   TABLE DucklakeDeleteFile; TABLE DucklakePartitionInfo; TABLE DucklakeSortInfo].

(** The tables that only the end of a commit writes *)
Definition snapshot_tables : list string :=
  [TABLE DucklakeSnapshot; TABLE DucklakeSnapshotChanges; TABLE DucklakeSchemaVersions].

Lemma same_past_refl s0 table db : same_past s0 table db db.
Proof. done. Qed.
Lemma same_past_trans s0 table db1 db2 db3 :
  same_past s0 table db1 db2 -> same_past s0 table db2 db3 -> same_past s0 table db1 db3.
Proof. intros H1 H2 s Hs. by rewrite H2, H1. Qed.

(** ** Rows *)

Lemma field_set_field_eq c v (r : row) : field c (set_field c v r) = v.
Proof. unfold field, set_field. rewrite IndexMap.get_insert. by rewrite decide_True. Qed.
Lemma field_set_field_ne c c' v (r : row) : c <> c' -> field c (set_field c' v r) = field c r.
Proof.
  intros Hc. unfold field, set_field. rewrite IndexMap.get_insert. by rewrite decide_False.
Qed.

Lemma content_set_end v (r : row) : content (set_field "end_snapshot" v r) = content r.
Proof.
  unfold content, set_field. induction r as [|[c x] r IH]; [done|]. cbn.
  case_decide as Hc; cbn; rewrite ?IH; [|done]. subst. done.
Qed.

(** Retiring an open row at [s0] changes nothing before [s0]. *)
Lemma retired_visible s0 s (r : row) :
  (s < s0)%Z -> is_null (field "end_snapshot" r) = true ->
  row_visible s (set_field "end_snapshot" (SInt s0) r) = row_visible s r.
Proof.
  intros Hs Hn. unfold row_visible. rewrite field_set_field_eq, field_set_field_ne by done.
  destruct (field "end_snapshot" r); try done. destruct (field "begin_snapshot" r); try done.
  unfold filter_for_snapshot. destruct (Z.ltb_spec s s0); [|lia]. done.
Qed.

Lemma stamped_invisible s0 s (r : row) :
  (s < s0)%Z -> field "begin_snapshot" r = SInt s0 -> row_visible s r = false.
Proof.
  intros Hs Hb. unfold row_visible. rewrite Hb. unfold filter_for_snapshot.
  destruct (Z.leb_spec s0 s); [lia|]. by destruct (field "end_snapshot" r).
Qed.

Lemma visible_app s rows rows' : visible s (rows ++ rows') = visible s rows ++ visible s rows'.
Proof. unfold visible. by rewrite List.filter_app, fmap_app. Qed.

Lemma visible_stamped s0 s rows :
  (s < s0)%Z -> Forall (fun r => field "begin_snapshot" r = SInt s0) rows -> visible s rows = [].
Proof.
  intros Hs Hr. unfold visible. induction Hr as [|r rows Hb _ IH]; [done|]. cbn.
  by rewrite (stamped_invisible s0 s r).
Qed.

Lemma visible_retire s0 s p rows :
  (s < s0)%Z -> (forall r, p r = true -> is_null (field "end_snapshot" r) = true) ->
  visible s ((fun r => if p r then set_field "end_snapshot" (SInt s0) r else r) <$> rows)
    = visible s rows.
Proof.
  intros Hs Hp. unfold visible. induction rows as [|r rows IH]; [done|]. cbn.
  destruct (p r) eqn:E.
  - rewrite retired_visible by auto. destruct (row_visible s r); cbn; [|done].
    by rewrite content_set_end, IH.
  - destruct (row_visible s r); cbn; by rewrite IH.
Qed.
End History.

(** ** Statements *)

Section Statements.
Context `{EXT : External} `{CMP : !SqlCompare} `{ENGINE : !SqlEngine}.
Context (s0 : Z).

Definition begins_now (columns : list string) (values : list SqlValue) : Prop :=
  field "begin_snapshot" (zip columns values) = SInt s0.

(** Rows of a versioned table begin at the snapshot, other rows go to tables
    that are not versioned. *)
Definition insertable (t : string) (columns : list string) (rows : list (list SqlValue)) : Prop :=
  t ∉ snapshot_tables /\ (t ∉ versioned_tables \/ Forall (begins_now columns) rows).

(** The forms of the statements [persist] sends *)
Inductive commit_statement : Statement -> Prop :=
  | commit_select t cond : commit_statement (Statement.Select t cond)
  | commit_create t columns pk b : commit_statement (Statement.CreateTable t columns pk b)
  | commit_insert t columns rows :
      insertable t columns rows -> commit_statement (Statement.Insert t columns rows)
  | commit_copy t columns rows :
      insertable t columns rows -> commit_statement (Statement.Copy t columns rows)
  | commit_retire t keys :
      t ∈ versioned_tables ->
      commit_statement (Statement.Update t [("end_snapshot", Expr.Val (SInt s0))]
        (Cond.And (Cond.IsNull "end_snapshot") keys))
  | commit_update t values cond :
      t ∉ versioned_tables -> t ∉ snapshot_tables -> commit_statement (Statement.Update t values cond)
  | commit_insert_select t columns exprs cond :
      t ∉ snapshot_tables ->
      (forall r, begins_now columns ((fun e => eval_expr e r) <$> exprs)) ->
      commit_statement (Statement.InsertSelect t columns exprs cond).

Lemma versioned_not_snapshot t : t ∈ versioned_tables -> t ∉ snapshot_tables.
Proof.
  intros Hv. assert (Forall (fun t => t ∉ snapshot_tables) versioned_tables) as Hall
    by (by apply (bool_decide_unpack _); vm_compute).
  rewrite Forall_forall in Hall. by apply Hall.
Qed.

(** *** They keep the past *)

Lemma seen_update_rows_of table t f db db' :
  update_rows_of t f db = Some db' ->
  (t = table -> forall s x, (s < s0)%Z -> visible s (f x) = visible s (DbTable.rows x)) ->
  same_past s0 table db db'.
Proof.
  intros (x & Hx & _ & ->)%update_rows_of_Some Hf s Hs. unfold seen.
  destruct (decide (t = table)) as [->|Hne].
  - rewrite lookup_insert_eq, Hx. by apply Hf.
  - by rewrite lookup_insert_ne.
Qed.

Lemma seen_append table t columns rows db db' :
  table ∈ versioned_tables -> insertable t columns rows ->
  update_rows_of t (fun x => DbTable.rows x ++ (zip columns <$> rows)) db = Some db' ->
  same_past s0 table db db'.
Proof.
  intros Hv [_ Hr] Hu. eapply seen_update_rows_of; [exact Hu|]. intros -> s x Hs.
  destruct Hr as [Hr|Hr]; [done|].
  rewrite visible_app, (visible_stamped s0 s (zip columns <$> rows)), app_nil_r; [done|done|].
  by apply Forall_fmap.
Qed.

Lemma effect_keeps_past table s db db' :
  table ∈ versioned_tables -> commit_statement s -> effect s db = Some db' ->
  same_past s0 table db db'.
Proof.
  intros Hv Hk. destruct Hk as [t cond|t columns pk b|t columns rows Hr|t columns rows Hr|
    t keys Ht|t values cond Ht _|t columns exprs cond Ht Hr].
  - cbn. case_match; [|done]. by intros [= <-].
  - cbn. case_match eqn:Ht; [case_match; [|done]; by intros [= <-]|]. case_match; [|done].
    intros [= <-] s Hs. unfold seen. destruct (decide (t = table)) as [->|Hne].
    + by rewrite lookup_insert_eq, Ht.
    + by rewrite lookup_insert_ne.
  - by apply seen_append.
  - by apply seen_append.
  - intros Hu. eapply seen_update_rows_of; [exact Hu|]. intros -> s x Hs.
    apply (visible_retire s0 s (fun r => is_null (field "end_snapshot" r) && holds keys r)); [done|].
    by intros r [? _]%andb_prop.
  - intros Hu. eapply seen_update_rows_of; [exact Hu|]. by intros ->.
  - intros Hu. eapply seen_update_rows_of; [exact Hu|]. intros -> s x Hs. cbn.
    rewrite visible_app, (visible_stamped s0 s (_ <$> List.filter _ _)), app_nil_r; [done|done|].
    apply Forall_fmap, Forall_true. intros r. apply Hr.
Qed.

(** *** They leave the tables of snapshots alone *)

Lemma update_rows_of_other t table f db db' :
  update_rows_of t f db = Some db' -> t <> table -> db' !! table = db !! table.
Proof. intros (x & _ & _ & ->)%update_rows_of_Some Ht. by apply lookup_insert_ne. Qed.

Lemma effect_keeps_snapshots table x s db db' :
  table ∈ snapshot_tables -> commit_statement s -> effect s db = Some db' ->
  db !! table = Some x -> db' !! table = Some x.
Proof.
  intros Hv Hk He Hx. rewrite <-Hx.
  assert (forall t, t ∉ snapshot_tables -> t <> table) as Hne by (intros t Ht ->; done).
  destruct Hk as [t cond|t columns pk b|t columns rows [Hr _]|t columns rows [Hr _]|
    t keys Ht|t values cond _ Ht|t columns exprs cond Ht Hr].
  - cbn in He. case_match; [|done]. by simplify_eq.
  - cbn in He. case_match eqn:Ht; [case_match; [|done]; by simplify_eq|]. case_match; [|done].
    simplify_eq. apply lookup_insert_ne. intros ->. congruence.
  - eapply update_rows_of_other; [exact He|auto].
  - eapply update_rows_of_other; [exact He|auto].
  - eapply update_rows_of_other; [exact He|auto using versioned_not_snapshot].
  - eapply update_rows_of_other; [exact He|auto].
  - eapply update_rows_of_other; [exact He|auto].
Qed.

(** ** Methods of a database transaction *)

(** An invariant of the database that such statements keep *)
Context (I : Db -> Prop)
  (Hkeep : forall s db db', commit_statement s -> effect s db = Some db' -> I db -> I db').
Local Abbreviation keeps m := (triple I m any).

Lemma keeps_exec s : commit_statement s -> keeps (Tx.exec s).
Proof.
  intros Hk db Hd. unfold Tx.exec. destruct (execute s db) as [db'| |] eqn:E; cbn; [|by split..].
  split; [|done]. eapply Hkeep; [exact Hk|by apply execute_effect|done].
Qed.

Lemma batch_queries_elem {T} fuel dialect max (items : list T) query q :
  q ∈ batch_queries fuel dialect max items query ->
  (exists piece, q = Ok (query piece)) \/ q = Err batch_error.
Proof.
  revert items. induction fuel as [|fuel IH]; intros items; [by destruct items; intros ?%elem_of_nil|].
  destruct items as [|x items]; cbn [batch_queries]; [by intros ?%elem_of_nil|].
  case_match.
  - intros [->|Hq]%elem_of_cons; [eauto|by apply IH in Hq].
  - intros ->%list_elem_of_singleton. by right.
Qed.

Lemma keeps_execute_batches {T} dialect max (items : list T) query :
  (forall piece, commit_statement (query piece)) ->
  keeps (Tx.execute_batches dialect max items query).
Proof.
  intros Hq. unfold Tx.execute_batches. apply triple_for. intros q Hin.
  apply batch_queries_elem in Hin as [[piece ->]| ->].
  - eapply (triple_bind _ _ _ (eq (query piece))); [apply triple_lift; by intros ? [= <-]|].
    intros ? <-. by apply keeps_exec.
  - eapply (triple_bind _ _ _ (fun _ => False)); [by apply triple_lift|done].
Qed.

Lemma keeps_retire_rows dialect t keys rows :
  t ∈ versioned_tables -> keeps (Persist.retire_rows dialect s0 t keys rows).
Proof.
  intros Ht. unfold Persist.retire_rows, Tx.update_matching_rows.
  eapply triple_bind; [by apply (triple_lift _ _ any)|]. intros max _.
  apply keeps_execute_batches. intros piece. by apply commit_retire.
Qed.

Lemma keeps_update_rows dialect t keys columns rows :
  t ∉ versioned_tables -> t ∉ snapshot_tables ->
  keeps (Tx.update_rows dialect t keys columns rows).
Proof.
  intros Hv Ht. unfold Tx.update_rows.
  eapply triple_bind; [by apply (triple_lift _ _ any)|]. intros max _.
  apply keeps_execute_batches. intros piece. by apply commit_update.
Qed.

Lemma keeps_delete_nothing dialect t keys : keeps (Tx.delete_rows dialect t keys []).
Proof.
  unfold Tx.delete_rows.
  eapply triple_bind; [by apply (triple_lift _ _ any)|]. intros max _. by apply triple_ret.
Qed.

Lemma keeps_insert_rows dialect t columns rows :
  insertable t columns rows -> keeps (Tx.insert_rows dialect t columns rows).
Proof.
  intros Hr. unfold Tx.insert_rows.
  case_decide; [by apply triple_ret|]. case_decide; [by apply triple_panic|]. cbv zeta.
  match goal with |- triple _ (if ?b then _ else _) _ => destruct b end.
  - by apply keeps_exec, commit_copy.
  - apply triple_for. intros chunk Hc. apply keeps_exec, commit_insert.
    destruct Hr as [Ht Hr]. split; [done|]. destruct Hr as [Hr|Hr]; [by left|right].
    rewrite Forall_forall in Hr. apply Forall_forall. intros r Hin. apply Hr.
    by eapply chunks_elem.
Qed.

Lemma keeps_insert_stamped {E} `{!Entity E} dialect (entities : list E) :
  TABLE E ∉ snapshot_tables -> Forall (stamped s0) entities ->
  keeps (Tx.insert_entities dialect entities).
Proof.
  intros Ht He. apply keeps_insert_rows. split; [done|]. right. by apply Forall_fmap.
Qed.

Lemma keeps_insert_other {E} `{!Entity E} dialect t (entities : list E) :
  t ∉ snapshot_tables -> t ∉ versioned_tables ->
  keeps (Tx.insert_entities_into dialect t entities).
Proof. intros Ht Hv. apply keeps_insert_rows. split; [done|by left]. Qed.
End Statements.

(** ** [persist] *)

Section PersistKeeps.
Context `{EXT : External} `{CMP : !SqlCompare} `{ENGINE : !SqlEngine} `{TXT : !ValueText}
  `{HASH : HashOrder}.
Context (dialect : Dialect) (s0 : Z) (I : Db -> Prop)
  (Hkeep : forall s db db', commit_statement s0 s -> effect s db = Some db' -> I db -> I db').
Local Abbreviation keeps m := (triple I m any).

(** Membership of a table name in a list of names is decided by evaluation. *)
Ltac table_name := apply (bool_decide_unpack _); vm_compute; exact Logic.I.
Ltac insert_stamped := apply (keeps_insert_stamped s0 I Hkeep); [table_name|done].
Ltac insert_other := apply (keeps_insert_other s0 I Hkeep); table_name.

Lemma inlined_delete_name id :
  DucklakeInlinedDelete_table_name id ∉ snapshot_tables /\
  DucklakeInlinedDelete_table_name id ∉ versioned_tables.
Proof.
  unfold DucklakeInlinedDelete_table_name, versioned_tables, snapshot_tables.
  rewrite !elem_of_cons, elem_of_nil. split; intros H; by repeat destruct H as [H|H].
Qed.

Lemma keeps_renames renames : keeps (Persist.persist_table_renames dialect s0 renames).
Proof.
  unfold Persist.persist_table_renames, Tx.copy_rows_with_updates.
  eapply triple_bind; [by apply (triple_lift _ _ any)|]. intros max _.
  apply (keeps_execute_batches s0 I Hkeep). intros piece.
  apply commit_insert_select; [table_name|]. intros r. reflexivity.
Qed.

Lemma keeps_tag_rounds {K E} `{!Entity E} fuel t keys key_values (entity : K -> string -> string -> E)
    pending :
  t ∈ versioned_tables -> TABLE E ∉ snapshot_tables ->
  (forall k key v, stamped s0 (entity k key v)) ->
  keeps (Persist.tag_rounds dialect fuel s0 t keys key_values entity pending).
Proof.
  intros Ht HE He. revert pending. induction fuel as [|fuel IH]; intros pending;
    [by apply triple_panic|].
  cbn [Persist.tag_rounds]. unfold Persist.tag_round.
  case_decide; [by apply triple_ret|].
  eapply triple_bind; [by apply (keeps_retire_rows s0 I Hkeep)|]. intros _ _.
  eapply triple_bind; [|intros _ _; apply IH].
  apply (keeps_insert_stamped s0 I Hkeep); [done|]. apply Forall_forall.
  intros e ([k changes] & _ & Ho)%list_elem_of_omap.
  destruct changes as [|c changes]; cbn in Ho; [done|].
  destruct (TagChange.value c); simplify_eq/=. apply He.
Qed.

Lemma keeps_files files :
  Forall (stamped s0) (FileChanges.data_files files) ->
  Forall (stamped s0) (FileChanges.delete_files files) ->
  keeps (Persist.persist_files dialect files).
Proof.
  intros Hd Hf. unfold Persist.persist_files.
  eapply triple_bind; [insert_stamped|]. intros _ _.
  eapply triple_bind; [insert_other|]. intros _ _.
  eapply triple_bind; [insert_other|]. intros _ _.
  eapply triple_bind; [insert_stamped|]. intros _ _.
  apply triple_for. intros [id deletes] _. unfold Persist.persist_inline_deletes. cbv zeta.
  eapply triple_bind; [apply (keeps_exec s0 I Hkeep), commit_create|]. intros _ _.
  apply (keeps_insert_other s0 I Hkeep); apply inlined_delete_name.
Qed.

Lemma hash_iter_empty {K V} `{Countable K} : hash_iter (∅ : gmap K V) = [].
Proof. apply Permutation_nil. by rewrite hash_iter_perm, map_to_list_empty. Qed.
Lemma hash_iter_set_empty {K} `{Countable K} : hash_iter_set (∅ : gset K) = [].
Proof. apply Permutation_nil. by rewrite hash_iter_set_perm, elements_empty. Qed.

Lemma keeps_fetch_rows {E} `{!Entity E} keys rows :
  keeps (Tx.fetch_rows (E := E) dialect keys rows).
Proof.
  unfold Tx.fetch_rows.
  eapply triple_bind; [by apply (triple_lift _ _ any)|]. intros max _.
  eapply (triple_bind _ _ _ any); [|intros; by apply triple_ret].
  apply (triple_any _ _ (Forall any)), (triple_map _ _ _ any). intros q _.
  eapply triple_bind; [by apply (triple_lift _ _ any)|]. intros s _.
  eapply triple_bind; [apply triple_get|]. intros db _.
  destruct s; try by apply triple_panic.
  eapply triple_bind; [by apply (triple_lift _ _ any)|]. intros rows' _. by apply triple_lift.
Qed.

Lemma keeps_create_inline_table version id schema :
  keeps (Persist.create_inline_table dialect version id schema).
Proof.
  unfold Persist.create_inline_table. cbv zeta.
  eapply triple_bind; [by apply (triple_lift _ _ any)|]. intros columns _.
  eapply triple_bind; [apply (keeps_exec s0 I Hkeep), commit_create|]. intros _ _.
  by apply triple_ret.
Qed.

Lemma keeps_write_inline_data tables version :
  keeps (Persist.write_inline_data dialect tables ∅ version).
Proof.
  unfold Persist.write_inline_data. rewrite hash_iter_empty.
  eapply (triple_bind _ _ _ any).
  { apply (triple_any _ _ (Forall any)), (triple_map _ _ _ any). intros [id schema] _.
    apply keeps_create_inline_table. }
  intros created _. eapply triple_bind; [insert_other|]. intros _ _.
  cbv zeta. eapply triple_bind; [apply keeps_fetch_rows|]. intros registered _. by apply triple_ret.
Qed.

Lemma keeps_inline_data tables version : keeps (Persist.persist_inline_data dialect tables ∅ version).
Proof.
  unfold Persist.persist_inline_data.
  pose proof (keeps_write_inline_data tables version) as Hwrite. revert Hwrite.
  generalize (Persist.write_inline_data dialect tables ∅ version) as m. intros m Hm.
  destruct dialect; [done| |done]. by case_decide; [apply triple_ret|].
Qed.

Definition writing (w : Writer) : Prop := I (Writer.db w) /\ on_snapshot s0 (Writer.state w).

Lemma keeps_tx {A} (m : method Db A) : keeps m -> triple writing (Persist.tx m) any.
Proof.
  intros Hm. eapply triple_zoom; [| |exact Hm].
  - by intros w [].
  - intros w db [] Hd. by split.
Qed.

Lemma on_snapshot_table_stats_rows acc written :
  triple (on_snapshot s0) (Persist.table_stats_rows acc written) any.
Proof.
  destruct written as [id columns]. unfold Persist.table_stats_rows.
  eapply triple_bind; [apply triple_get|]. intros st _.
  eapply triple_bind; [apply on_snapshot_get_table_stats|]. intros stats _. cbv zeta.
  match goal with
  | |- triple _ (Persist.fold_method _ ?acc ?changed) _ => generalize acc, changed
  end.
  intros acc' l. revert acc'. induction l as [|c l IH]; intros acc'; [by apply triple_ret|].
  cbn. eapply (triple_bind _ _ _ any); [|intros; apply IH].
  unfold Persist.column_stats_rows.
  eapply triple_bind; [apply on_snapshot_update_table_stats|]. intros _ _.
  eapply triple_bind; [apply on_snapshot_get_table_stats|]. intros stats' _.
  eapply triple_bind; [by apply (triple_lift _ _ any)|]. intros s _. cbv zeta.
  by apply triple_ret.
Qed.

Lemma keeps_statistics written : triple writing (Persist.persist_statistics dialect written) any.
Proof.
  unfold Persist.persist_statistics. eapply (triple_bind _ _ _ any).
  - eapply triple_zoom with (J := on_snapshot s0); [by intros w []|by intros w st [] ?|].
    generalize (Persist.mk_StatsRows [] [] [] []).
    induction (hash_iter written) as [|x l IH]; intros acc; [by apply triple_ret|]. cbn.
    eapply triple_bind; [apply on_snapshot_table_stats_rows|]. intros. apply IH.
  - intros rows _. apply keeps_tx.
    eapply triple_bind; [insert_other|]. intros _ _.
    eapply triple_bind; [insert_other|]. intros _ _.
    eapply triple_bind; [apply (keeps_update_rows s0 I Hkeep); table_name|]. intros _ _.
    apply (keeps_update_rows s0 I Hkeep); table_name.
Qed.

(** Only detached tables lose rows, and only inlined rows go to tables whose
    name is read from the database; without them [persist] sends nothing but
    statements of the forms above. *)
Lemma keeps_persist (c : TransactionChanges) :
  Stamped False False s0 c -> triple writing (Persist.persist dialect c) any.
Proof.
  intros []. destruct stamped_detached as [[]|Hdetached], stamped_inline as [[]|Hinline].
  unfold Persist.persist. rewrite Hdetached, Hinline, hash_iter_set_empty.
  eapply (triple_bind _ _ _ (on_snapshot s0)); [apply triple_gets; by intros w []|].
  intros state Hstate. cbv zeta. rewrite Hstate.
  eapply triple_bind.
  { apply keeps_tx. unfold Persist.delete_detached. cbn [Persist.id_rows fmap list_fmap].
    do 3 (eapply triple_bind; [apply keeps_delete_nothing|intros _ _]). apply keeps_delete_nothing. }
  intros _ _. eapply triple_bind.
  { apply keeps_tx. unfold Persist.retire_entities. cbv zeta.
    do 11 (eapply triple_bind; [apply (keeps_retire_rows s0 I Hkeep); table_name|intros _ _]).
    apply (keeps_retire_rows s0 I Hkeep); table_name. }
  intros _ _. eapply triple_bind.
  { apply keeps_tx. unfold Persist.insert_entities.
    eapply triple_bind; [insert_stamped|intros _ _].
    eapply triple_bind; [apply keeps_renames|intros _ _].
    do 11 (eapply triple_bind; [first [insert_stamped|insert_other]|intros _ _]).
    insert_stamped. }
  intros _ _. eapply triple_bind.
  { apply keeps_tx. unfold Persist.persist_all_tags, Persist.persist_tags.
    eapply triple_bind; [apply keeps_tag_rounds; [table_name|table_name|done]|intros _ _].
    apply keeps_tag_rounds; [table_name|table_name|by intros [] key v]. }
  intros _ _. eapply triple_bind; [by apply keeps_tx, keeps_files|].
  intros _ _. eapply triple_bind; [apply keeps_tx, keeps_inline_data|].
  intros _ _. apply keeps_statistics.
Qed.
End PersistKeeps.
