(* ===== verification/Commit.v ===== *)
(** * Committing a transaction ([transaction/mod.rs], [caches/snapshot.rs])

    A commit draws the IDs of the next snapshot, writes the changes in one
    database transaction, and relies on the primary key of the snapshot table:
    when another client committed first the insertion fails, the changes made
    since are checked for conflicts and the commit is attempted again. *)

From S2P Require Import Prelude Text Regex Identifier Types Instances Entities CatalogColumns.
From S2P Require Import Catalog TableStats CommitState Change AppliedChange Dialect.
From S2P Require Import TransactionChanges Executors Database Load Persist Transactions.

(** ** The client and its database *)

(** The database, the head of the snapshot cache, the interactions with the
    database so far, the state of the current attempt. *)
Module Client.
Record t `{External} : Type := mk {
  db : Db;
  current : SnapshotInfo;
  clock : nat;
  attempt : Attempt;
}.
#[global] Arguments mk {_} db current clock attempt.
Definition eta `{External} (c : t) : t := mk (db c) (current c) (clock c) (attempt c).
#[export] Instance set_db `{External} : Setter db := ltac:(mk_setter eta db).
#[export] Instance set_current `{External} : Setter current := ltac:(mk_setter eta current).
#[export] Instance set_clock `{External} : Setter clock := ltac:(mk_setter eta clock).
#[export] Instance set_attempt `{External} : Setter attempt := ltac:(mk_setter eta attempt).
End Client.
#[export] Existing Instances Client.set_db Client.set_current Client.set_clock Client.set_attempt.
Abbreviation Client := Client.t.

(** A lazy value shared by the caches of the process ([primitives/lazy.rs]):
    somebody has already loaded it, or it will be loaded for the snapshot it was
    created for. *)
Inductive Lazy (A : Type) : Type :=
  | Initialised (value : A)
  | LoadsAt (snapshot_id : Z).
Arguments Initialised {A} value.
Arguments LoadsAt {A} snapshot_id.

(** What happens around the client, by the number of its interactions so far:
    what other clients do to the database before an interaction, whether a
    [BEGIN] or [COMMIT] fails, the wall clock, and what the shared caches hold
    for a snapshot. *)
Class Surroundings `{External} : Type := {
  others : nat -> Db -> Db;
  begin_fails : nat -> option DucklakeError;
  commit_fails : nat -> option DucklakeError;
  now : nat -> DateTimeUtc;
  catalog_cache : nat -> SnapshotInfo -> Lazy Catalog;
  table_stats_cache : nat -> SnapshotInfo -> Lazy (gmap Z TableStats);
}.

Module Commit.
Section Commit.
Context `{EXT : External} `{ENV : !Environment} `{TXT : !ValueText} `{HASH : HashOrder}
  `{ITER : !Itertools} `{ENG : !RegexEngine} `{CMP : !SqlCompare} `{ENGINE : !SqlEngine}
  `{AROUND : !Surroundings}.
Context (dialect : Dialect).

Definition on_attempt {A} (m : method Attempt A) : method Client A :=
  st_zoom Client.attempt (fun a self => self <| Client.attempt := a |>) m.
Definition on_state {A} (m : method CommitState A) : method Client A :=
  on_attempt (executors.on_state m).

(** Other clients are at work until the next interaction with the database. *)
Definition interact : method Client nat :=
  self ← st_get;
  let n := Client.clock self in
  st_modify (fun self => self <| Client.db ::= others n |>) ;;
  st_modify (fun self => self <| Client.clock ::= S |>) ;;
  mret n.

(** A query, at its own moment *)
Definition query {A} (q : Db -> result A) : method Client A :=
  interact ;;
  db ← st_gets Client.db;
  st_lift (q db).

(** ** Loading a snapshot

    The queries run concurrently; any interleaving with other clients is one of
    the queries in some order, here the order of the source. *)

Definition fetch_catalog (snapshot_id : Z) : method Client Fetched :=
  schemas ← query (snapshot_query DucklakeSchema snapshot_id);
  tables ← query (snapshot_query DucklakeTable snapshot_id);
  views ← query (snapshot_query DucklakeView snapshot_id);
  macros ← query (snapshot_query DucklakeMacro snapshot_id);
  macro_impls ← query (in_active DucklakeMacroImpl DucklakeMacro "macro_id" snapshot_id);
  macro_parameters ← query (in_active DucklakeMacroParameters DucklakeMacro "macro_id" snapshot_id);
  columns ← query (snapshot_query DucklakeColumn snapshot_id);
  tags ← query (snapshot_query DucklakeTag snapshot_id);
  column_tags ← query (snapshot_query DucklakeColumnTag snapshot_id);
  partition_infos ← query (snapshot_query DucklakePartitionInfo snapshot_id);
  partition_columns ← query (fetch_all DucklakePartitionColumn);
  sort_infos ← query (snapshot_query DucklakeSortInfo snapshot_id);
  sort_expressions ← query (in_active DucklakeSortExpression DucklakeSortInfo "sort_id" snapshot_id);
  mret (mk_Fetched schemas tables views macros macro_impls macro_parameters columns tags column_tags
    partition_infos partition_columns sort_infos sort_expressions).

(** [Catalog::load] *)
Definition load_catalog (snapshot_id : Z) : method Client Catalog :=
  f ← fetch_catalog snapshot_id; st_lift (build_catalog f).

(** [SnapshotTableStats::load] *)
Definition load_table_stats (catalog : Catalog) (snapshot_id : Z)
    : method Client (gmap Z TableStats) :=
  tables ← query (join_active DucklakeTableStats DucklakeTable ["table_id"] snapshot_id);
  columns ← query (join_active DucklakeTableColumnStats DucklakeColumn ["table_id"; "column_id"]
                     snapshot_id);
  st_lift (build_table_stats catalog tables columns).

Definition get_lazy {A} (lazy : Lazy A) (init : Z -> method Client A) : method Client A :=
  match lazy with Initialised value => mret value | LoadsAt id => init id end.

(** [Snapshot::catalog], [Snapshot::table_stats] *)
Definition snapshot_catalog (info : SnapshotInfo) : method Client Catalog :=
  n ← st_gets Client.clock; get_lazy (catalog_cache n info) load_catalog.
Definition snapshot_table_stats (info : SnapshotInfo) : method Client (gmap Z TableStats) :=
  catalog ← snapshot_catalog info;
  n ← st_gets Client.clock; get_lazy (table_stats_cache n info) (load_table_stats catalog).

(** ** The snapshot cache *)

(** [SnapshotCache::insert_snapshot]: the head never moves backwards. *)
Definition insert_snapshot (info : SnapshotInfo) : method Client SnapshotInfo :=
  self ← st_get;
  let current := Client.current self in
  if decide (SnapshotInfo.id current = SnapshotInfo.id info) then mret current
  else
    (if decide (SnapshotInfo.id current < SnapshotInfo.id info)%Z
     then st_modify (fun self => self <| Client.current := info |>) else mret tt) ;;
    mret info.

(** [ORDER BY snapshot_id DESC LIMIT 1] *)
Definition latest_of (snapshots : list DucklakeSnapshot) : option DucklakeSnapshot :=
  foldr (fun s best =>
    match best with
    | Some b => if (DucklakeSnapshot.snapshot_id b <=? DucklakeSnapshot.snapshot_id s)%Z
                then Some s else best
    | None => Some s
    end) None snapshots.

(** [SnapshotInfo::load_latest] *)
Definition load_latest (db : Db) : result SnapshotInfo :=
  rows ← select (TABLE DucklakeSnapshot) any_row db;
  snapshots ← Tx.decode_rows rows;
  SnapshotInfo.from_snapshot <$> ok_or Persist.row_not_found (latest_of snapshots).

(** [SnapshotCache::get_latest] *)
Definition get_latest : method Client SnapshotInfo :=
  info ← query load_latest; insert_snapshot info.

(** ** The changes of other commits *)

(** The change sets of the snapshots in a range, bounds included *)
Definition changes_between (from_snapshot to_snapshot : Z) (db : Db)
    : result (list AppliedChangeSet) :=
  rows ← select (TABLE DucklakeSnapshotChanges)
           (Cond.Between "snapshot_id" (to_sql from_snapshot) (to_sql to_snapshot)) db;
  changes ← Tx.decode_rows rows;
  map_outcome (fun c => AppliedChangeSet.from_str (DucklakeSnapshotChanges.changes_made c)) changes.

Definition get_snapshot_changes (from_snapshot to_snapshot : Z)
    : method Client (list AppliedChangeSet) :=
  query (changes_between (i64_add from_snapshot 1) to_snapshot).

(** ** One attempt *)

Definition finalize_commit (time : DateTimeUtc) (state : CommitState)
    (applied_changes : AppliedChangeSet) (table_ids_with_schema_changes : list Z)
    (author : AuthorInfo.t) : method Db SnapshotInfo :=
  let snapshot_id := CommitState.snapshot_id state in
  let schema_version := CommitState.schema_version state in
  let snapshot := CommitState.to_snapshot time state in
  Tx.insert_entity snapshot ;;
  Tx.insert_entity (DucklakeSnapshotChanges.mk snapshot_id
    (AppliedChangeSet.to_string applied_changes) (AuthorInfo.author author)
    (AuthorInfo.message author) (AuthorInfo.extra_info author)) ;;
  Tx.insert_entities dialect ((fun table_id =>
    DucklakeSchemaVersions.mk snapshot_id schema_version (Some table_id))
      <$> table_ids_with_schema_changes) ;;
  mret (SnapshotInfo.from_snapshot snapshot).

(** The statements between [BEGIN] and [COMMIT] *)
Definition write_changes (time : DateTimeUtc) (changes : TransactionChanges)
    (applied_changes : AppliedChangeSet) (table_ids_with_schema_changes : list Z)
    (author : AuthorInfo.t) : method Writer SnapshotInfo :=
  Persist.persist dialect changes ;;
  state ← st_gets Writer.state;
  Persist.tx (finalize_commit time state applied_changes table_ids_with_schema_changes author).

(** A database transaction: what it wrote is visible when the commit succeeds,
    and rolled back otherwise; the commit state keeps what happened to it. *)
Definition run_transaction {A} (m : method Writer A) (n : nat) : method Client A :=
  fun self =>
    let a := Client.attempt self in
    let '(res, w) := m (Writer.mk (Client.db self) (Attempt.state a)) in
    let self := self <| Client.attempt := a <| Attempt.state := Writer.state w |> |> in
    match res with
    | Ok x =>
        match commit_fails n with
        | Some e => (Err e, self)
        | None => (Ok x, self <| Client.db := Writer.db w |>)
        end
    | res => (res, self)
    end.

Definition fails {S} (e : option DucklakeError) : method S unit :=
  st_lift match e with Some e => Err e | None => Ok tt end.

Definition in_transaction {A} (m : method Writer A) : method Client A :=
  n ← interact; fails (begin_fails n) ;; run_transaction m n.

Definition apply_changes (change_set : list Change) (author : AuthorInfo.t)
    : method Client SnapshotInfo :=
  on_attempt (ChangeSet_apply change_set dialect) ;;
  applied_changes ← on_state (applied_change_set change_set);
  inline_writes ← on_state (table_ids_with_inline_data_writes change_set);
  created ← on_state (created_table_ids change_set);
  schema_changes ← on_state (table_ids_with_schema_changes change_set);
  if existsb (fun id => bool_decide (id ∈ schema_changes) && negb (bool_decide (id ∈ created)))
       inline_writes
  then st_panic
  else
    self ← st_get;
    in_transaction (write_changes (now (Client.clock self))
      (Attempt.changes (Client.attempt self)) applied_changes schema_changes author).

(** ** The retry loop *)

Definition max_retry_count : nat := 10.

(** The guard of the retry arm: [a || b && i < max_retry_count] *)
Definition retries (i : nat) (e : DucklakeError) : bool :=
  match e with
  | Database unique_violation table_already_exists _ =>
      unique_violation || table_already_exists && (i <? max_retry_count)
  | _ => false
  end.

(** The state of a fresh attempt on [latest] *)
Definition start_attempt (tx : Transaction) (change_set : list Change) (latest : SnapshotInfo)
    : method Client unit :=
  table_stats ← (if ChangeSet.requires_table_stats change_set then
                   stats ← snapshot_table_stats latest; mret (Some stats)
                 else mret None);
  st_modify (fun self => self <| Client.attempt ::= fun a =>
    Attempt.mk TransactionChanges.default
      (CommitState.new latest (Transaction.catalog tx) (ChangeSet.changes_schema change_set)
         table_stats) (Attempt.uuids a) |>).

(** What was committed since the transaction began must not conflict. *)
Definition resolve_conflicts (tx : Transaction) (change_set : list Change)
    : method Client SnapshotInfo :=
  latest ← get_latest;
  changes_made ← get_snapshot_changes (SnapshotInfo.id (Transaction.snapshot tx))
                   (SnapshotInfo.id latest);
  tx_changes ← on_state (applied_change_set change_set);
  st_for (fun change =>
    st_lift (AppliedChangeSet.check_conflict tx_changes change (Transaction.catalog tx)))
    changes_made ;;
  mret latest.

(** The [match] on the result of an attempt; [again] continues the loop. *)
Definition handle_result (i : nat) (tx : Transaction) (change_set : list Change)
    (again : SnapshotInfo -> method Client unit)
    (res : outcome DucklakeError SnapshotInfo) : method Client unit :=
  match res with
  | Ok snapshot => insert_snapshot snapshot ;; mret tt
  | Err e =>
      if retries i e then latest ← resolve_conflicts tx change_set; again latest
      else st_throw e
  | Panic => st_panic
  end.

(** The result of a method as a value *)
Definition st_result {S A} (m : method S A) : method S (outcome DucklakeError A) :=
  fun s => let '(r, s) := m s in (Ok r, s).

Fixpoint attempts (n i : nat) (tx : Transaction) (change_set : list Change)
    (latest : SnapshotInfo) : method Client unit :=
  match n with
  | 0 => st_throw RetriesExceeded
  | S n =>
      start_attempt tx change_set latest ;;
      res ← st_result (apply_changes change_set (Transaction.author_info tx));
      handle_result i tx change_set (attempts n (S i) tx change_set) res
  end.

(** [Transaction::commit] *)
Definition commit (tx : Transaction) : method Client unit :=
  let change_set := ChangeSet.new (Transaction.changes tx) in
  if ChangeSet.is_empty change_set then mret tt
  else attempts (max_retry_count + 1) 0 tx change_set (Transaction.snapshot tx).
End Commit.
End Commit.
