(* ===== verification/Demo.v ===== *)
(** * A small catalog database

    A database at snapshot 1 with one schema, a client on it and surroundings
    where nobody else is at work: concrete inputs for the theorems on commits. *)

From S2P Require Import Prelude Text Regex Identifier Types Instances Entities CatalogColumns.
From S2P Require Import Catalog TableStats CommitState Change AppliedChange Dialect.
From S2P Require Import TransactionChanges Executors Database Persist Transactions Commit.

Definition demo_table (E : Type) `{!Entity E} (rows : list E) : string * DbTable :=
  (TABLE E, DbTable.mk (COLUMNS E) (PRIMARY_KEY E) (to_row <$> rows)).

Definition demo_snapshot : DucklakeSnapshot :=
  DucklakeSnapshot.mk 1 (100 : Z) 1 1 0.
Definition demo_path (p : string) : DucklakePath := DucklakePath.Relative p.

(** Schema [main] with ID 0 *)
Definition demo_main : DucklakeSchema := DucklakeSchema.mk 0 None 1 None "main" "main/" true.

Definition demo_db : Db := list_to_map [
  demo_table DucklakeSnapshot [demo_snapshot];
  demo_table DucklakeSnapshotChanges [DucklakeSnapshotChanges.mk 1 "" None None None];
  demo_table DucklakeSchemaVersions []; demo_table DucklakeSchema [demo_main];
  demo_table DucklakeTable []; demo_table DucklakeView []; demo_table DucklakeMacro [];
  demo_table DucklakeMacroImpl []; demo_table DucklakeMacroParameters [];
  demo_table DucklakeColumn []; demo_table DucklakeTag []; demo_table DucklakeColumnTag [];
  demo_table DucklakeDataFile []; demo_table DucklakeDeleteFile [];
  demo_table DucklakeFileColumnStats []; demo_table DucklakeFilePartitionValue [];
  demo_table DucklakePartitionInfo []; demo_table DucklakePartitionColumn [];
  demo_table DucklakeSortInfo []; demo_table DucklakeSortExpression [];
  demo_table DucklakeTableStats []; demo_table DucklakeTableColumnStats [];
  demo_table DucklakeInlinedDataTables []].

(** Nobody else is at work, and nothing fails. *)
#[export] Instance demo_surroundings : Surroundings := {|
  others _ db := db;
  begin_fails _ := None;
  commit_fails _ := None;
  now n := Z.of_nat n;
  catalog_cache _ info := LoadsAt (SnapshotInfo.id info);
  table_stats_cache _ info := LoadsAt (SnapshotInfo.id info);
|}.

(** The catalog at snapshot 1; in the transaction [main] was deleted and a
    schema [sales] was added. *)
Definition demo_session : method Catalog SchemaRef :=
  main ← Catalog.add_schema "main" (demo_path "main/");
  Catalog.resolve_schema_id main 0 ;;
  Catalog.delete_schema main ;;
  Catalog.add_schema "sales" (demo_path "sales/").
Definition demo_catalog : Catalog := (demo_session Catalog.empty).2.
Definition demo_changes : list Change := [
  Change.DeleteSchema (SchemaRef.mk 0);
  Change.CreateSchema (SchemaRef.mk 1) "sales" (demo_path "sales/")].
Definition demo_transaction : Transaction :=
  Transaction.mk (SnapshotInfo.from_snapshot demo_snapshot) demo_catalog demo_changes
    AuthorInfo.default.

(** A client about to start its first attempt *)
Definition demo_client : Client :=
  Client.mk demo_db (SnapshotInfo.from_snapshot demo_snapshot) 0
    (Attempt.mk TransactionChanges.default
       (CommitState.new (SnapshotInfo.from_snapshot demo_snapshot) demo_catalog true None) 0).

(** The value and the final state of a run that succeeds *)
Definition run_ok {S E A} (m : stateful S E A) (s : S) : option (A * S) :=
  match m s with (Ok a, s) => Some (a, s) | _ => None end.

(** ** A rival

    Another client commits a schema [name] before the first interaction of this
    one: the first attempt finds snapshot 2 taken. *)

Definition rival_session (name : string) : method Catalog SchemaRef :=
  main ← Catalog.add_schema "main" (demo_path "main/");
  Catalog.resolve_schema_id main 0 ;;
  Catalog.add_schema name (demo_path (name +:+ "/")).
Definition rival_transaction (name : string) : Transaction :=
  Transaction.mk (SnapshotInfo.from_snapshot demo_snapshot) (rival_session name Catalog.empty).2
    [Change.CreateSchema (SchemaRef.mk 1) name (demo_path (name +:+ "/"))] AuthorInfo.default.
Definition rival_db (name : string) : Db :=
  Client.db (Commit.commit Dialect.Sqlite (rival_transaction name) demo_client).2.

Definition contended (name : string) : Surroundings := {|
  others n db := if n is 0 then rival_db name else db;
  begin_fails _ := None;
  commit_fails _ := None;
  now n := Z.of_nat n;
  catalog_cache _ info := LoadsAt (SnapshotInfo.id info);
  table_stats_cache _ info := LoadsAt (SnapshotInfo.id info);
|}.

(** What the client's commit does in the presence of the rival *)
Definition contended_commit (name : string) : outcome DucklakeError unit * Client :=
  Commit.commit (AROUND := contended name) Dialect.Sqlite demo_transaction demo_client.

(** ** Two transactions that each create a table

    Each creates a table of its own in [main] and sets a tag on it. *)

Definition table_session (name : string)
    : method Catalog (SchemaRef * TableRef * list (list ColumnRef) * option (list ColumnRef)) :=
  main ← Catalog.add_schema "main" (demo_path "main/");
  Catalog.resolve_schema_id main 0 ;;
  refs ← Catalog.add_table (TableInfo.mk (QualifiedName.mk "main" name)
           (Schema.mk [("id", Column.new "id" DataType.Int64)]) None None ∅)
           (demo_path (name +:+ "/")) None;
  Catalog.add_table_tag refs.1.1.2 (Tag.mk "owner" name) ;;
  mret refs.
Definition table_transaction (name : string) : Transaction :=
  Transaction.mk (SnapshotInfo.from_snapshot demo_snapshot) (table_session name Catalog.empty).2
    [Change.CreateTable (SchemaRef.mk 0) (TableRef.mk 0) [[ColumnRef.mk (TableRef.mk 0) 0]] None
       (QualifiedName.mk "main" name) [Column.new "id" DataType.Int64] [] None None
       (demo_path (name +:+ "/")) ∅;
     Change.AddTableTag (TableRef.mk 0) (Tag.mk "owner" name)] AuthorInfo.default.
Definition table_rival_db (name : string) : Db :=
  Client.db (Commit.commit Dialect.Sqlite (table_transaction name) demo_client).2.
Definition table_contended (name : string) : Surroundings := {|
  others n db := if n is 0 then table_rival_db name else db;
  begin_fails _ := None;
  commit_fails _ := None;
  now n := Z.of_nat n;
  catalog_cache _ info := LoadsAt (SnapshotInfo.id info);
  table_stats_cache _ info := LoadsAt (SnapshotInfo.id info);
|}.
