(* ===== verification/CommitFacts.v ===== *)
(** * What a commit guarantees ([transaction/mod.rs]) *)

From S2P Require Import Prelude Triple Text Regex Identifier Types Instances Entities.
From S2P Require Import CatalogColumns Catalog TableStats CommitState Change AppliedChange.
From S2P Require Import Dialect TransactionChanges Executors Database Batches Persist Stamps.
From S2P Require Import History Transactions Commit.

(** ** Inversion of successful runs *)

Section CommitFacts.
Context `{EXT : External} `{ENV : !Environment} `{TXT : !ValueText} `{HASH : HashOrder}
  `{ITER : !Itertools} `{ENG : !RegexEngine} `{CMP : !SqlCompare} `{ENGINE : !SqlEngine}
  `{AROUND : !Surroundings}.
Context (dialect : Dialect).

(** ** An attempt up to its database transaction *)

(** The attempt works on its own state; the database is not touched. *)
Definition preparing (s0 : Z) (db0 : Db) (n0 : nat) (c : Client) : Prop :=
  at_snapshot False False s0 (Client.attempt c) /\ Client.db c = db0 /\ Client.clock c = n0.

Lemma preparing_attempt {A} s0 db0 n0 (m : method Attempt A) :
  triple (at_snapshot False False s0) m any -> triple (preparing s0 db0 n0) (Commit.on_attempt m) any.
Proof.
  intros Hm. eapply triple_zoom; [| |exact Hm].
  - by intros c [].
  - by intros c a (_ & ? & ?) Ha.
Qed.

Lemma preparing_state {A} s0 db0 n0 (m : method CommitState A) :
  triple (on_snapshot s0) m any -> triple (preparing s0 db0 n0) (Commit.on_state m) any.
Proof. intros Hm. by apply preparing_attempt, at_snapshot_on_state. Qed.

Lemma on_snapshot_table_id s0 r : triple (on_snapshot s0) (CommitState.table_id r) any.
Proof. apply on_snapshot_known_or_fresh. Qed.

Lemma on_snapshot_table_ids s0 l : triple (on_snapshot s0) (st_map CommitState.table_id l) any.
Proof.
  apply (triple_any _ _ (Forall any)), (triple_map _ _ _ any). intros r _.
  apply on_snapshot_table_id.
Qed.

Lemma on_snapshot_applied s0 c : triple (on_snapshot s0) (Change_applied_change c) any.
Proof.
  destruct c; cbn; try by apply triple_ret.
  all: try (eapply triple_bind;
    [apply on_snapshot_known_or_fresh|intros; try case_match; by apply triple_ret]).
  eapply triple_bind; [by apply (triple_lift _ _ any)|]. intros first _.
  eapply triple_bind; [apply on_snapshot_known_or_fresh|intros; by apply triple_ret].
Qed.

Lemma on_snapshot_applied_set s0 l : triple (on_snapshot s0) (applied_change_set l) any.
Proof.
  unfold applied_change_set. eapply (triple_bind _ _ _ any); [|intros; by apply triple_ret].
  apply (triple_any _ _ (Forall any)), (triple_map _ _ _ any). intros c _.
  apply on_snapshot_applied.
Qed.

(** What a successful attempt did: it prepared the changes, and wrote them in a
    transaction on the database as other clients had left it. *)
Lemma apply_changes_Ok s0 cs author c info c' :
  Forall (allowed False False) cs ->
  preparing s0 (Client.db c) (Client.clock c) c ->
  Commit.apply_changes dialect cs author c = (Ok info, c') ->
  exists a time applied ids w,
    at_snapshot False False s0 a /\
    Commit.write_changes dialect time (Attempt.changes a) applied ids author
      (Writer.mk (others (Client.clock c) (Client.db c)) (Attempt.state a)) = (Ok info, w) /\
    Client.db c' = Writer.db w.
Proof.
  intros Hallowed Hprep. unfold Commit.apply_changes.
  intros ([] & c1 & H1 & (applied & c2 & H2 & (inline_ids & c3 & H3 & (created & c4 & H4 &
    (ids & c5 & H5 & Hrun)%bind_Ok)%bind_Ok)%bind_Ok)%bind_Ok)%bind_Ok.
  apply (triple_run (preparing s0 (Client.db c) (Client.clock c)) _ any) in H1 as [Hc1 _];
    [|by apply preparing_attempt, stamp_ChangeSet_apply|done].
  apply (triple_run (preparing s0 (Client.db c) (Client.clock c)) _ any) in H2 as [Hc2 _];
    [|by apply preparing_state, on_snapshot_applied_set|done].
  apply (triple_run (preparing s0 (Client.db c) (Client.clock c)) _ any) in H3 as [Hc3 _];
    [|apply preparing_state; eapply triple_bind; [apply on_snapshot_table_ids|intros; by apply triple_ret]|done].
  apply (triple_run (preparing s0 (Client.db c) (Client.clock c)) _ any) in H4 as [Hc4 _];
    [|by apply preparing_state, on_snapshot_table_ids|done].
  apply (triple_run (preparing s0 (Client.db c) (Client.clock c)) _ any) in H5 as [Hc5 _];
    [|by apply preparing_state, on_snapshot_table_ids|done].
  revert Hrun. case_match; [done|]. destruct Hc5 as (Hat & Hdb & Hclock).
  unfold mbind at 1, stateful_bind at 1, st_get at 1. unfold Commit.in_transaction, Commit.interact.
  unfold mbind, stateful_bind, st_get, st_modify, mret, stateful_ret. cbn.
  unfold Commit.fails, st_lift. destruct (begin_fails (Client.clock c5)); [done|].
  unfold Commit.run_transaction. cbn. rewrite Hclock, Hdb.
  destruct (Commit.write_changes _ _ _ _ _ _ _) as [[x| |] w] eqn:Hw; [|done..].
  destruct (commit_fails (Client.clock c)); [done|]. intros [= <- <-].
  exists (Client.attempt c5). eauto 10.
Qed.

(** ** The end of the transaction *)

Lemma insert_entity_Ok {E} `{!Entity E} (e : E) db u db' :
  Tx.insert_entity e db = (Ok u, db') ->
  exists t, db !! TABLE E = Some t /\
    primary_key_ok (t <| DbTable.rows ::= fun l => l ++ [to_row e] |>) = true /\
    db' = <[TABLE E := t <| DbTable.rows ::= fun l => l ++ [to_row e] |>]> db.
Proof. intros H%exec_Ok. by apply update_rows_of_Some in H. Qed.

Lemma insert_entities_other {E} `{!Entity E} (l : list E) db u db' table :
  (Z.of_nat (length (COLUMNS E)) <= Dialect.max_bind_params dialect)%Z ->
  Tx.insert_entities dialect l db = (Ok u, db') -> TABLE E <> table -> db' !! table = db !! table.
Proof.
  intros Hlen Hi Hne. apply insert_rows_Ok in Hi; [|done]. case_decide; [by subst|].
  destruct Hi as (t & _ & _ & ->). by apply lookup_insert_ne.
Qed.

Lemma finalize_commit_Ok time state applied ids author db info db' :
  Commit.finalize_commit dialect time state applied ids author db = (Ok info, db') ->
  let snapshot := CommitState.to_snapshot time state in
  info = SnapshotInfo.from_snapshot snapshot /\
  (forall table, table ∉ snapshot_tables -> db' !! table = db !! table) /\
  exists t, db !! TABLE DucklakeSnapshot = Some t /\
    primary_key_ok (t <| DbTable.rows ::= fun l => l ++ [to_row snapshot] |>) = true /\
    db' !! TABLE DucklakeSnapshot = Some (t <| DbTable.rows ::= fun l => l ++ [to_row snapshot] |>).
Proof.
  unfold Commit.finalize_commit. cbv zeta.
  intros ([] & db1 & H1 & ([] & db2 & H2 & ([] & db3 & H3 & H)%bind_Ok)%bind_Ok)%bind_Ok.
  cbn in H. injection H as <- <-. split; [done|].
  apply insert_entity_Ok in H1 as (t & Ht & Hk & ->).
  apply insert_entity_Ok in H2 as (t2 & Ht2 & _ & ->).
  match type of H3 with
  | _ ?before = (_, ?after) => assert (forall table, TABLE DucklakeSchemaVersions <> table ->
      after !! table = before !! table) as H3'
  end.
  { intros table Hne. refine (insert_entities_other _ _ _ _ table _ H3 Hne); by destruct dialect. }
  split.
  - intros table Hout. unfold snapshot_tables in Hout. rewrite !not_elem_of_cons in Hout.
    destruct Hout as (Ha & Hb & Hc & _).
    by rewrite H3', !lookup_insert_ne by congruence.
  - exists t. split; [done|]. split; [done|].
    rewrite H3' by done. rewrite lookup_insert_ne by done. by rewrite lookup_insert_eq.
Qed.

Lemma write_changes_Ok s0 (I : Db -> Prop) time changes applied ids author w info w' :
  (forall s db db', commit_statement s0 s -> effect s db = Some db' -> I db -> I db') ->
  Stamped False False s0 changes -> on_snapshot s0 (Writer.state w) -> I (Writer.db w) ->
  Commit.write_changes dialect time changes applied ids author w = (Ok info, w') ->
  exists db state, I db /\ on_snapshot s0 state /\
    Commit.finalize_commit dialect time state applied ids author db = (Ok info, Writer.db w').
Proof.
  intros HI Hst Hw Hdb. unfold Commit.write_changes.
  intros ([] & w1 & H1 & (state & w2 & H2 & H3)%bind_Ok)%bind_Ok.
  apply (triple_run (writing s0 I) _ any) in H1 as [[Hd1 Hs1] _]; [|by apply keeps_persist|done].
  unfold st_gets in H2. injection H2 as <- <-.
  unfold Persist.tx, st_zoom in H3.
  destruct (Commit.finalize_commit _ _ _ _ _ _ _) as [r db] eqn:Hf. injection H3 as -> <-.
  exists (Writer.db w1), (Writer.state w1). done.
Qed.

(** A fresh attempt: nothing collected yet *)
Definition fresh (c : Client) : Prop :=
  Attempt.changes (Client.attempt c) = TransactionChanges.default.

(** The snapshot an attempt is about to create *)
Definition new_snapshot_id (c : Client) : Z :=
  CommitState.snapshot_id (Attempt.state (Client.attempt c)).

Lemma fresh_preparing c :
  fresh c -> preparing (new_snapshot_id c) (Client.db c) (Client.clock c) c.
Proof.
  intros Hf. split; [|done]. split; [done|]. rewrite Hf. apply Stamped_default.
Qed.

(** A successful attempt leaves what every earlier snapshot sees of the versioned
    catalog tables exactly as other clients left it. *)
Lemma attempt_keeps_past (change_set : list Change) (author : AuthorInfo.t) (client client' : Client)
    (info : SnapshotInfo) (table : string) (s : Z)
    (Hallowed : Forall (allowed False False) change_set)
    (Hfresh : fresh client)
    (Hrun : Commit.apply_changes dialect change_set author client = (Ok info, client'))
    (Htable : table ∈ versioned_tables)
    (Hs : (s < new_snapshot_id client)%Z) :
  seen (Client.db client') table s = seen (others (Client.clock client) (Client.db client)) table s.
Proof.
  apply (apply_changes_Ok (new_snapshot_id client)) in Hrun
    as (a & time & applied & ids & w & [Hat Hst] & Hw & ->); [|done|by apply fresh_preparing].
  set (db0 := others _ _) in *.
  apply (write_changes_Ok (new_snapshot_id client) (same_past (new_snapshot_id client) table db0))
    in Hw as (db & state & Hpast & _ & Hf); [| |done|done|done].
  - apply finalize_commit_Ok in Hf as (_ & Hother & _).
    rewrite <-(Hpast s Hs). unfold seen.
    by rewrite Hother by (by apply versioned_not_snapshot).
  - intros q db1 db2 Hq He Hp. eapply same_past_trans; [exact Hp|].
    by eapply effect_keeps_past.
Qed.

(** It appends exactly one row to the snapshot table. *)
Lemma attempt_appends_snapshot (change_set : list Change) (author : AuthorInfo.t)
    (client client' : Client) (info : SnapshotInfo) (before : DbTable)
    (Hallowed : Forall (allowed False False) change_set)
    (Hfresh : fresh client)
    (Hrun : Commit.apply_changes dialect change_set author client = (Ok info, client'))
    (Hbefore : others (Client.clock client) (Client.db client) !! TABLE DucklakeSnapshot = Some before) :
  exists snapshot : DucklakeSnapshot,
    info = SnapshotInfo.from_snapshot snapshot /\
    DucklakeSnapshot.snapshot_id snapshot = new_snapshot_id client /\
    primary_key_ok (before <| DbTable.rows ::= fun l => l ++ [to_row snapshot] |>) = true /\
    Client.db client' !! TABLE DucklakeSnapshot =
      Some (before <| DbTable.rows ::= fun rows => rows ++ [to_row snapshot] |>).
Proof.
  apply (apply_changes_Ok (new_snapshot_id client)) in Hrun
    as (a & time & applied & ids & w & [Hat Hst] & Hw & ->); [|done|by apply fresh_preparing].
  set (db0 := others _ _) in *.
  apply (write_changes_Ok (new_snapshot_id client)
    (fun db => db !! TABLE DucklakeSnapshot = Some before))
    in Hw as (db & state & Hx & Hstate & Hf); [| |done|done|done].
  - apply finalize_commit_Ok in Hf as (Hinfo & _ & t & Ht & Hk & Hw).
    rewrite Hx in Ht. injection Ht as <-. by exists (CommitState.to_snapshot time state).
  - intros q db1 db2 Hq He Hp. eapply effect_keeps_snapshots; [|done..]. by left.
Qed.

(** It appends exactly one row to the snapshot table, whose number nobody has used. *)
Lemma attempt_appends_fresh_snapshot (change_set : list Change) (author : AuthorInfo.t)
    (client client' : Client) (info : SnapshotInfo) (before : DbTable)
    (Hallowed : Forall (allowed False False) change_set)
    (Hfresh : fresh client)
    (Hrun : Commit.apply_changes dialect change_set author client = (Ok info, client'))
    (Hbefore : others (Client.clock client) (Client.db client) !! TABLE DucklakeSnapshot = Some before)
    (Hkey : DbTable.primary_key before = PRIMARY_KEY DucklakeSnapshot) :
  exists snapshot : DucklakeSnapshot,
    info = SnapshotInfo.from_snapshot snapshot /\
    DucklakeSnapshot.snapshot_id snapshot = new_snapshot_id client /\
    Client.db client' !! TABLE DucklakeSnapshot =
      Some (before <| DbTable.rows ::= fun rows => rows ++ [to_row snapshot] |>) /\
    Forall (fun r => field "snapshot_id" r <> SInt (new_snapshot_id client)) (DbTable.rows before).
Proof.
  destruct (attempt_appends_snapshot _ _ _ _ _ before Hallowed Hfresh Hrun Hbefore) as (snapshot & Hinfo & Hid & Hk & Hdb).
  exists snapshot. do 3 (split; [done|]). rewrite <-Hid.
  unfold primary_key_ok in Hk. cbn [DbTable.primary_key] in Hk.
  change (DbTable.primary_key (before <| DbTable.rows ::= _ |>)) with (DbTable.primary_key before) in Hk.
  rewrite Hkey in Hk. cbn -[unique_keys to_row] in Hk.
  revert Hk. generalize (DbTable.rows before) as rows.
  induction rows as [|r rows IH]; [constructor|]. cbn [app unique_keys].
  intros [Hn Hu]%andb_prop. constructor; [|by apply IH].
  intros Hr. apply negb_true_iff in Hn.
  assert (existsb (fun r' => sql_eq (field "snapshot_id" r) (field "snapshot_id" r'))
    (rows ++ [to_row snapshot]) = true) as Hex; [|congruence].
  apply existsb_exists. exists (to_row snapshot). split.
  - apply list_elem_of_In, elem_of_app. right. by left.
  - rewrite Hr.
    change (field "snapshot_id" (to_row snapshot)) with (SInt (DucklakeSnapshot.snapshot_id snapshot)).
    rewrite sql_eq_int. apply Z.eqb_refl.
Qed.
End CommitFacts.
