(* ===== verification/StatsKey.v ===== *)
(** * The key of cached statistics ([transaction/changes/change.rs], [caches/table_stats.rs])

    The statistics of tables are cached under the schema version and the next
    file ID of a snapshot. How many file IDs a commit draws decides whether the
    snapshot it creates shares the cached statistics of the one before. *)

From S2P Require Import Prelude Triple Text Regex Identifier Types Instances Entities.
From S2P Require Import CatalogColumns Catalog TableStats CommitState Change AppliedChange.
From S2P Require Import Dialect TransactionChanges Executors Database Persist Transactions Commit.
From S2P Require Import CommitFacts Demo.

(** ** How many file IDs a change set draws *)

Section Count.
Context `{EXT : External}.
Implicit Types (cs : list Change).

(** One for each data file and one for each of its delete files *)
Definition data_file_ids (f : CommitDataFile.t) : nat :=
  S (length (CommitDataFile.delete_files f)).
Definition written_files (c : Change) : list CommitDataFile.t :=
  match c with Change.WriteTableDataFiles _ files => files | _ => [] end.
Definition change_file_ids (c : Change) : nat := list_sum (data_file_ids <$> written_files c).
Definition change_set_file_ids cs : nat :=
  list_sum (change_file_ids <$> cs) +
  (if ChangeSet.contains_inline_data_writes_and_no_file_writes cs then 1 else 0).

(** The sequence after [n] more IDs *)
Definition advance (n : nat) (id : Z) : Z := Nat.iter n (fun id => i64_add id 1) id.

Lemma advance_add m n id : advance (m + n) id = advance n (advance m id).
Proof.
  unfold advance. rewrite Nat.add_comm. apply Nat.iter_add.
Qed.

Lemma advance_exact n id : in_i64 id -> in_i64 (id + Z.of_nat n) -> advance n id = (id + Z.of_nat n)%Z.
Proof.
  unfold in_i64. intros Hid. induction n as [|n IH]; intros Hn; [cbn; lia|].
  change (advance (S n) id) with (i64_add (advance n id) 1).
  rewrite IH by lia. rewrite i64_add_exact; [lia|unfold in_i64; lia].
Qed.
End Count.

(** ** Methods that draw a known number of file IDs *)

Section Draws.
Context `{EXT : External} `{ENV : !Environment} `{TXT : !ValueText} `{HASH : HashOrder}.

(** The snapshot number, the schema version and the file sequence of an attempt *)
Definition numbers (st : CommitState) : Z * Z * Z :=
  (CommitState.snapshot_id st, CommitState.schema_version st, CommitState.next_file_id st).
Definition advance_numbers (n : nat) (k : Z * Z * Z) : Z * Z * Z := (k.1, advance n k.2).

Definition numbered_at (k : Z * Z * Z) (st : CommitState) : Prop := numbers st = k.
Definition attempt_at (k : Z * Z * Z) (a : Attempt) : Prop := numbers (Attempt.state a) = k.

(** [m] draws [n] file IDs when it succeeds, and leaves the other numbers. *)
Definition draws {A} (n : nat) (m : method Attempt A) : Prop :=
  forall a x a', m a = (Ok x, a') ->
    numbers (Attempt.state a') = advance_numbers n (numbers (Attempt.state a)).

Lemma draws_none {A} (m : method Attempt A) :
  (forall k, triple (attempt_at k) m any) -> draws 0 m.
Proof.
  intros Hm a x a' Hr. eapply (triple_run (attempt_at (numbers (Attempt.state a)))) in Hr as [Ha _].
  - rewrite Ha. by destruct (numbers _) as [[??]?].
  - apply Hm.
  - done.
Qed.

Lemma draws_ret {A} (x : A) : draws 0 (mret x).
Proof. apply draws_none. intros k. by apply triple_ret. Qed.

Lemma draws_bind {A B} m n (x : method Attempt A) (f : A -> method Attempt B) :
  draws m x -> (forall a, draws n (f a)) -> draws (m + n) (x ≫= f).
Proof.
  intros Hx Hf a y a' (z & a1 & H1 & H2)%bind_Ok. apply Hx in H1. apply Hf in H2.
  rewrite H2, H1. unfold advance_numbers. cbn. by rewrite advance_add.
Qed.

Lemma draws_for {A} (f : A -> method Attempt unit) (count : A -> nat) (l : list A) :
  (forall x, draws (count x) (f x)) -> draws (list_sum (count <$> l)) (st_for f l).
Proof.
  intros Hf. induction l as [|x l IH]; [apply draws_ret|].
  cbn [fmap list_fmap list_sum]. apply draws_bind; [apply Hf|]. by intros _.
Qed.

Lemma draws_map {A B} (f : A -> method Attempt B) (count : A -> nat) (l : list A) :
  (forall x, draws (count x) (f x)) -> draws (list_sum (count <$> l)) (st_map f l).
Proof.
  intros Hf. induction l as [|x l IH]; [apply draws_ret|].
  cbn [fmap list_fmap list_sum]. apply draws_bind; [apply Hf|]. intros y.
  rewrite <-(Nat.add_0_r (list_sum _)). apply draws_bind; [done|]. intros ys. apply draws_ret.
Qed.

Lemma draws_file_id : draws 1 (executors.on_state CommitState.file_id).
Proof.
  intros a x a'. unfold executors.on_state, st_zoom, CommitState.file_id.
  cbn. by intros [= <- <-].
Qed.

(** *** Methods of the commit state that draw none *)

Lemma numbered_at_catalog {A} k (m : method Catalog A) :
  triple (numbered_at k) (CommitState.on_catalog m) any.
Proof. by apply triple_zoom with (J := any). Qed.
Lemma numbered_at_known_or_fresh k known resolve :
  triple (numbered_at k) (CommitState.known_or_fresh known resolve) any.
Proof.
  unfold CommitState.known_or_fresh, CommitState.catalog_id.
  repeat (triple_step; try done). apply numbered_at_catalog.
Qed.
Lemma numbered_at_catalog_id k : triple (numbered_at k) CommitState.catalog_id any.
Proof. unfold CommitState.catalog_id. repeat (triple_step; try done). Qed.
Lemma numbered_at_column_id k r : triple (numbered_at k) (CommitState.column_id r) any.
Proof. unfold CommitState.column_id. repeat (triple_step; try done). Qed.
Lemma numbered_at_get_table_stats k id :
  triple (numbered_at k) (CommitState.get_table_stats id) any.
Proof. unfold CommitState.get_table_stats. repeat (triple_step; try done). Qed.
Lemma numbered_at_update_table_stats k id f :
  triple (numbered_at k) (CommitState.update_table_stats id f) any.
Proof.
  unfold CommitState.update_table_stats. triple_step; [apply numbered_at_get_table_stats|].
  by repeat triple_step.
Qed.

Lemma attempt_at_on_state {A} k (m : method CommitState A) :
  triple (numbered_at k) m any -> triple (attempt_at k) (executors.on_state m) any.
Proof. intros Hm. by eapply triple_zoom; [| |exact Hm]. Qed.
Lemma attempt_at_collect k f : triple (attempt_at k) (executors.collect f) any.
Proof. by apply triple_modify. Qed.
End Draws.

#[export] Hint Resolve numbered_at_known_or_fresh numbered_at_catalog_id numbered_at_column_id
  numbered_at_get_table_stats numbered_at_update_table_stats : ducklake.

(** Evaluate an executor that draws no file ID. *)
Ltac draws_nothing :=
  repeat first
    [ apply attempt_at_collect
    | apply attempt_at_on_state;
      (unfold CommitState.table_id, CommitState.schema_id, CommitState.view_id,
         CommitState.macro_id, CommitState.partition_id, CommitState.sort_info_id in *;
       solve [auto with ducklake])
    | done
    | eapply (triple_bind _ _ _ any); [|intros ? _; cbv beta zeta]
    | apply (triple_any _ _ (Forall any)), (triple_map _ _ _ any); intros ? _
    | triple_step ].

Section Changes.
Context `{EXT : External} `{ENV : !Environment} `{TXT : !ValueText} `{HASH : HashOrder}.
Local Abbreviation quiet m := (forall k : Z * Z * Z, triple (attempt_at k) m any).

Lemma quiet_tags id tags : quiet (executors.create_tags id tags).
Proof. intros k. unfold executors.create_tags, executors.snapshot_id. draws_nothing. Qed.
Lemma quiet_buffers table_id parent refs column :
  quiet (executors.add_column_to_buffers table_id parent refs column).
Proof.
  intros k. unfold executors.add_column_to_buffers, executors.column_id, executors.snapshot_id.
  draws_nothing.
Qed.
Lemma quiet_partitioning r table_id refs columns :
  quiet (executors.create_partitioning_if r table_id refs columns).
Proof.
  intros k. unfold executors.create_partitioning_if, executors.create_partitioning,
    executors.column_id, executors.snapshot_id. draws_nothing.
Qed.
Lemma quiet_sort_info table_id expressions : quiet (executors.create_sort_info table_id expressions).
Proof. intros k. unfold executors.create_sort_info, executors.snapshot_id. draws_nothing. Qed.
Lemma quiet_file_stats table_id f : quiet (executors.update_table_stats_from_file table_id f).
Proof.
  intros k. unfold executors.update_table_stats_from_file, executors.update_column_stats,
    executors.column_id. draws_nothing.
Qed.
Lemma quiet_inline_stats table_id d :
  quiet (executors.update_table_stats_from_inline_data table_id d).
Proof.
  intros k. unfold executors.update_table_stats_from_inline_data, executors.update_column_stats,
    executors.column_id. draws_nothing.
Qed.
End Changes.

#[export] Hint Resolve quiet_tags quiet_buffers quiet_partitioning quiet_sort_info
  quiet_file_stats quiet_inline_stats : ducklake.

Section Apply.
Context `{EXT : External} `{ENV : !Environment} `{TXT : !ValueText} `{HASH : HashOrder}.

(** Every change but the registration of files draws no file ID. *)
Lemma quiet_Change_apply k c :
  (forall r files, c <> Change.WriteTableDataFiles r files) ->
  triple (attempt_at k) (Change_apply c) any.
Proof.
  intros Hc. destruct c; try (by edestruct Hc); cbn [Change_apply];
    unfold executors.create_schema, executors.delete_schema, executors.create_table,
      executors.rename_table, executors.update_table_partitioning, executors.update_table_sort_info,
      executors.delete_table, executors.add_table_tag, executors.remove_table_tag,
      executors.change_table_tag, executors.create_view, executors.delete_view,
      executors.create_macro, executors.delete_macro, executors.add_table_column,
      executors.update_table_column, executors.remove_table_column, executors.add_table_column_tag,
      executors.remove_table_column_tag, executors.change_column_tag,
      executors.write_table_inline_data, executors.write_inline_batch,
      executors.record_written_columns, executors.next_row_id, executors.uuid_now_v7,
      executors.schema_id, executors.table_id, executors.column_id, executors.snapshot_id;
    repeat first [progress draws_nothing | solve [eapply triple_any; auto with ducklake]].
Qed.

Lemma list_sum_ones {A} (l : list A) : list_sum ((fun _ => 1) <$> l) = length l.
Proof. induction l as [|x l IH]; [done|]. cbn. f_equal. exact IH. Qed.

Lemma draws_write_data_file r table_id f :
  draws (data_file_ids f) (executors.write_data_file r table_id f).
Proof.
  unfold executors.write_data_file, data_file_ids.
  set (n := length (CommitDataFile.delete_files f)).
  apply (draws_bind 1 n); [apply draws_file_id|]. intros file_id.
  apply (draws_bind 0 n); [apply draws_none; intros k; unfold executors.next_row_id; draws_nothing|].
  intros start. apply (draws_bind 0 n); [apply draws_none, quiet_file_stats|]. intros _.
  apply (draws_bind 0 n); [apply draws_none; intros k; unfold executors.snapshot_id; draws_nothing|].
  intros id. apply (draws_bind 0 n); [apply draws_none; intros k; draws_nothing|]. intros partition_id.
  apply (draws_bind 0 n); [apply draws_none; intros k; unfold executors.collect_files; draws_nothing|].
  intros _. rewrite <-(Nat.add_0_r n). apply draws_bind.
  - unfold n. rewrite <-(list_sum_ones (CommitDataFile.delete_files f)).
    apply draws_for. intros d. unfold executors.write_delete_file.
    apply (draws_bind 1 0); [apply draws_file_id|]. intros d_id. apply draws_none. intros k.
    unfold executors.snapshot_id, executors.collect_files. draws_nothing.
  - intros _. apply draws_none. intros k.
    unfold executors.collect_files, executors.write_column_stats, executors.column_id,
      executors.collect_files.
    draws_nothing.
Qed.

Lemma draws_Change_apply c : draws (change_file_ids c) (Change_apply c).
Proof.
  destruct c; try (apply draws_none; intros k; by apply quiet_Change_apply).
  cbn [Change_apply]. unfold executors.write_table_data, change_file_ids. cbn [written_files].
  apply (draws_bind 0); [apply draws_none; intros k; unfold executors.table_id; draws_nothing|].
  intros id. rewrite <-(Nat.add_0_r (list_sum _)).
  apply draws_bind; [apply draws_map, draws_write_data_file|]. intros columns.
  apply draws_none. intros k. unfold executors.record_written_columns. draws_nothing.
Qed.

Context `{ITER : !Itertools}.

Lemma draws_ChangeSet_apply cs dialect :
  draws (change_set_file_ids cs) (ChangeSet_apply cs dialect).
Proof.
  unfold ChangeSet_apply, change_set_file_ids.
  apply (draws_bind 0).
  { apply draws_none. intros k. unfold check_inline_write, executors.table_schema. draws_nothing. }
  intros _. apply draws_bind; [apply draws_for, draws_Change_apply|]. intros _.
  apply (draws_bind 0).
  { apply draws_none. intros k. unfold executors.create_inlined_data_table, executors.table_id,
      executors.table_schema. draws_nothing. }
  intros _. case_match; [|apply draws_ret]. apply (draws_bind 1 0); [apply draws_file_id|].
  intros _. apply draws_ret.
Qed.
End Apply.

(** ** The snapshot an attempt creates *)

Section Attempt.
Context `{EXT : External} `{ENV : !Environment} `{TXT : !ValueText} `{HASH : HashOrder}
  `{ITER : !Itertools} `{ENG : !RegexEngine} `{CMP : !SqlCompare} `{ENGINE : !SqlEngine}
  `{AROUND : !Surroundings}.
Context (dialect : Dialect).

Definition writer_at (k : Z * Z * Z) (w : Writer) : Prop := numbers (Writer.state w) = k.

(** After the changes are collected, an attempt only resolves IDs. *)
Definition collected (k : Z * Z * Z) (changes : TransactionChanges) (db : Db) (n : nat)
    (c : Client) : Prop :=
  attempt_at k (Client.attempt c) /\ Attempt.changes (Client.attempt c) = changes /\
  Client.db c = db /\ Client.clock c = n.

Lemma triple_fold_method {S A B} (I : S -> Prop) (f : B -> A -> method S B) acc l :
  (forall acc x, triple I (f acc x) any) -> triple I (Persist.fold_method f acc l) any.
Proof.
  intros Hf. revert acc. induction l as [|x l IH]; intros acc; [by apply triple_ret|].
  cbn. eapply triple_bind; [apply Hf|]. intros acc' _. apply IH.
Qed.

Lemma writer_at_tx {A} k (m : method Db A) : triple (writer_at k) (Persist.tx m) any.
Proof. by apply triple_zoom with (J := any). Qed.

Lemma quiet_persist k c : triple (writer_at k) (Persist.persist dialect c) any.
Proof.
  unfold Persist.persist, Persist.persist_statistics.
  eapply (triple_bind _ _ _ any); [by apply triple_gets|]. intros state _. cbv zeta.
  repeat (eapply triple_bind; [apply writer_at_tx|intros _ _]).
  eapply (triple_bind _ _ _ any); [|intros rows _; apply writer_at_tx].
  eapply triple_zoom with (J := numbered_at k); [by intros w|by intros w st|].
  apply triple_fold_method. intros acc [id columns]. unfold Persist.table_stats_rows.
  eapply (triple_bind _ _ _ any); [eapply triple_any, triple_get|]. intros st _.
  eapply triple_bind; [apply numbered_at_get_table_stats|]. intros stats _. cbv zeta.
  apply triple_fold_method. intros acc' column. unfold Persist.column_stats_rows.
  eapply triple_bind; [apply numbered_at_update_table_stats|]. intros _ _.
  eapply triple_bind; [apply numbered_at_get_table_stats|]. intros stats' _.
  eapply triple_bind; [by apply (triple_lift _ _ any)|]. intros s _. by apply triple_ret.
Qed.

Lemma collected_state {A} k changes db n (m : method CommitState A) :
  triple (numbered_at k) m any -> triple (collected k changes db n) (Commit.on_state m) any.
Proof.
  intros Hm. unfold Commit.on_state, executors.on_state, Commit.on_attempt.
  eapply (triple_zoom _ (fun a => attempt_at k a /\ Attempt.changes a = changes)).
  - by intros c (? & ? & _).
  - by intros c a (_ & _ & ? & ?) [].
  - eapply triple_zoom; [| |exact Hm]; [by intros a []|by intros a st []].
Qed.

Lemma numbered_at_table_ids k l : triple (numbered_at k) (st_map CommitState.table_id l) any.
Proof.
  apply (triple_any _ _ (Forall any)), (triple_map _ _ _ any). intros r _.
  apply numbered_at_known_or_fresh.
Qed.
Lemma numbered_at_applied k l : triple (numbered_at k) (applied_change_set l) any.
Proof.
  unfold applied_change_set. eapply (triple_bind _ _ _ any); [|intros; by apply triple_ret].
  apply (triple_any _ _ (Forall any)), (triple_map _ _ _ any). intros c _.
  destruct c; cbn [Change_applied_change]; repeat first
    [ apply triple_ret; done | apply numbered_at_known_or_fresh
    | eapply (triple_bind _ _ _ any); [|intros ? _] | by apply (triple_lift _ _ any) | case_match ].
Qed.

(** What a successful attempt did: it collected the changes, resolved some IDs,
    and wrote the changes to the database as other clients had left it. *)
Lemma apply_changes_run cs author c info c' :
  Commit.apply_changes dialect cs author c = (Ok info, c') ->
  exists a1 a time applied ids w,
    ChangeSet_apply cs dialect (Client.attempt c) = (Ok tt, a1) /\
    Attempt.changes a = Attempt.changes a1 /\
    numbers (Attempt.state a) = numbers (Attempt.state a1) /\
    Commit.write_changes dialect time (Attempt.changes a) applied ids author
      (Writer.mk (others (Client.clock c) (Client.db c)) (Attempt.state a)) = (Ok info, w) /\
    Client.db c' = Writer.db w.
Proof.
  unfold Commit.apply_changes.
  intros ([] & c1 & H1 & (applied & c2 & H2 & (inline_ids & c3 & H3 & (created & c4 & H4 &
    (ids & c5 & H5 & Hrun)%bind_Ok)%bind_Ok)%bind_Ok)%bind_Ok)%bind_Ok.
  unfold Commit.on_attempt, st_zoom in H1.
  destruct (ChangeSet_apply cs dialect (Client.attempt c)) as [r a1] eqn:Ha.
  injection H1 as -> <-.
  set (J := collected (numbers (Attempt.state a1)) (Attempt.changes a1) (Client.db c) (Client.clock c)).
  apply (triple_run J _ any) in H2 as [Hc2 _]; [|by apply collected_state, numbered_at_applied|done].
  apply (triple_run J _ any) in H3 as [Hc3 _];
    [|apply collected_state; eapply triple_bind; [apply numbered_at_table_ids|intros; by apply triple_ret]|done].
  apply (triple_run J _ any) in H4 as [Hc4 _]; [|by apply collected_state, numbered_at_table_ids|done].
  apply (triple_run J _ any) in H5 as [(Hk & Hch & Hdb & Hclock) _];
    [|by apply collected_state, numbered_at_table_ids|done].
  revert Hrun. case_match; [done|].
  unfold mbind at 1, stateful_bind at 1, st_get at 1. unfold Commit.in_transaction, Commit.interact.
  unfold mbind, stateful_bind, st_get, st_modify, mret, stateful_ret. cbn.
  unfold Commit.fails, st_lift. destruct (begin_fails (Client.clock c5)); [done|].
  unfold Commit.run_transaction. cbn. rewrite Hclock, Hdb.
  destruct (Commit.write_changes _ _ _ _ _ _ _) as [[x| |] w] eqn:Hw; [|done..].
  destruct (commit_fails (Client.clock c)); [done|]. intros [= <- <-].
  exists a1, (Client.attempt c5). eauto 10.
Qed.

(** The snapshot of a successful attempt has the numbers of its state after the
    file IDs of the change set were drawn. *)
Lemma apply_changes_numbers cs author c info c' :
  Commit.apply_changes dialect cs author c = (Ok info, c') ->
  (SnapshotInfo.id info, SnapshotInfo.schema_version info, SnapshotInfo.next_file_id info) =
  advance_numbers (change_set_file_ids cs) (numbers (Attempt.state (Client.attempt c))).
Proof.
  intros (a1 & a & time & applied & ids & w & Ha & _ & Hk & Hw & _)%apply_changes_run.
  apply draws_ChangeSet_apply in Ha. rewrite <-Ha, <-Hk. unfold Commit.write_changes in Hw.
  apply bind_Ok in Hw as ([] & w1 &
    [Hw1 _]%(triple_run (writer_at (numbers (Attempt.state a))) _ any) & Hw2);
    [|apply quiet_persist|done].
  apply bind_Ok in Hw2 as (st & w2 & Hst & Hw3). unfold st_gets in Hst. injection Hst as <- <-.
  unfold Persist.tx, st_zoom in Hw3.
  destruct (Commit.finalize_commit _ _ _ _ _ _ _) as [r db] eqn:Hf. injection Hw3 as -> <-.
  apply finalize_commit_Ok in Hf as [-> _]. exact Hw1.
Qed.

Lemma attempt_numbers cs author latest catalog stats c info c' :
  Attempt.state (Client.attempt c) =
    CommitState.new latest catalog (ChangeSet.changes_schema cs) stats ->
  Commit.apply_changes dialect cs author c = (Ok info, c') ->
  in_i64 (SnapshotInfo.id latest + 1) -> in_i64 (SnapshotInfo.schema_version latest) ->
  in_i64 (SnapshotInfo.schema_version latest + 1) ->
  SnapshotInfo.id info = (SnapshotInfo.id latest + 1)%Z /\
  SnapshotInfo.schema_version info =
    (SnapshotInfo.schema_version latest + Z.b2z (ChangeSet.changes_schema cs))%Z.
Proof.
  intros Hstart Hrun%apply_changes_numbers Hid Hsv Hsv'. rewrite Hstart in Hrun.
  unfold numbers, advance_numbers in Hrun. cbn -[advance i64_add] in Hrun. injection Hrun as -> -> _.
  rewrite !i64_add_exact; [done| |done]. destruct (ChangeSet.changes_schema cs); [done|].
  cbn. by rewrite Z.add_0_r.
Qed.
End Attempt.

(** ** When a snapshot shares the statistics of its base *)

Section Key.
Context `{EXT : External} `{ENV : !Environment} `{TXT : !ValueText} `{HASH : HashOrder}
  `{ITER : !Itertools} `{ENG : !RegexEngine} `{CMP : !SqlCompare} `{ENGINE : !SqlEngine}
  `{AROUND : !Surroundings}.
Implicit Types (cs : list Change).

(** Files are registered, but there are none. *)
Definition registers_no_file cs : Prop :=
  Exists (fun c => match c with Change.WriteTableDataFiles _ _ => True | _ => False end) cs /\
  Forall (fun c => written_files c = []) cs.

Lemma change_file_ids_zero c : change_file_ids c = 0 <-> written_files c = [].
Proof. unfold change_file_ids. destruct (written_files c); [done|]. by split. Qed.

Lemma sum_file_ids_zero cs :
  list_sum (change_file_ids <$> cs) = 0 <-> Forall (fun c => written_files c = []) cs.
Proof.
  induction cs as [|c cs IH]; [by split|]. rewrite Forall_cons, <-IH, <-change_file_ids_zero.
  cbn [fmap list_fmap]. change (list_sum (change_file_ids c :: (change_file_ids <$> cs)))
    with (change_file_ids c + list_sum (change_file_ids <$> cs)). lia.
Qed.

(** A change set that writes data draws no file ID exactly when it registers files
    without naming any. *)
Lemma change_set_file_ids_zero cs :
  ChangeSet.requires_table_stats cs = true ->
  change_set_file_ids cs = 0 <-> registers_no_file cs.
Proof.
  unfold change_set_file_ids, registers_no_file, ChangeSet.requires_table_stats,
    ChangeSet.contains_inline_data_writes_and_no_file_writes.
  intros Hw. rewrite <-sum_file_ids_zero.
  assert (Exists (fun c => match c with Change.WriteTableDataFiles _ _ => True | _ => False end) cs
    <-> existsb (fun c => match c with Change.WriteTableDataFiles _ _ => true | _ => false end) cs = true)
    as ->.
  { rewrite existsb_exists, Exists_exists. setoid_rewrite list_elem_of_In.
    split; intros (c & Hc & Hm); exists c; (split; [done|]); by destruct c. }
  destruct (existsb (fun c => match c with Change.WriteTableDataFiles _ _ => true | _ => false end) cs) eqn:Hf.
  - rewrite andb_false_r. cbn [negb]. lia.
  - assert (existsb (fun c => match c with Change.WriteTableInlineData _ _ => true | _ => false end) cs
      = true) as ->.
    { apply existsb_exists in Hw as (c & Hc & Hm). apply existsb_exists. exists c. split; [done|].
      destruct c; try done. exfalso. eapply not_true_iff_false; [exact Hf|].
      apply existsb_exists. eauto. }
    cbn. lia.
Qed.

(** C8: the snapshot a data commit creates continues the file sequence of its base
    by the files it registers, and has the key under which the statistics of
    its base are cached only in one case: the schema does not change, and the
    transaction has a change that writes data files but none that names a file.
    Whatever inlined rows it writes besides, the cached statistics then stay those
    from before the commit; inlined rows without such a change draw a file ID, and
    the key is another. *)
Theorem statistics_key_advances (dialect : Dialect) (cs : list Change) (author : AuthorInfo.t)
    (latest : SnapshotInfo) (catalog : Catalog) (stats : option (gmap Z TableStats))
    (client client' : Client) (info : SnapshotInfo)
    (Hstart : Attempt.state (Client.attempt client) =
      CommitState.new latest catalog (ChangeSet.changes_schema cs) stats)
    (Hrun : Commit.apply_changes dialect cs author client = (Ok info, client'))
    (Hwrites : ChangeSet.requires_table_stats cs = true)
    (Hversion : in_i64 (SnapshotInfo.schema_version latest) /\
      in_i64 (SnapshotInfo.schema_version latest + 1))
    (Hfiles : in_i64 (SnapshotInfo.next_file_id latest) /\
      in_i64 (SnapshotInfo.next_file_id latest + Z.of_nat (change_set_file_ids cs))) :
  SnapshotInfo.next_file_id info =
    (SnapshotInfo.next_file_id latest + Z.of_nat (change_set_file_ids cs))%Z /\
  ((SnapshotInfo.schema_version info, SnapshotInfo.next_file_id info) =
     (SnapshotInfo.schema_version latest, SnapshotInfo.next_file_id latest) <->
   ChangeSet.changes_schema cs = false /\ registers_no_file cs).
Proof.
  apply apply_changes_numbers in Hrun. rewrite Hstart in Hrun.
  unfold numbers, advance_numbers in Hrun. cbn -[advance i64_add] in Hrun.
  injection Hrun as _ Hsv Hnf. rewrite advance_exact in Hnf by tauto.
  split; [done|]. rewrite <-change_set_file_ids_zero by done. rewrite Hnf, Hsv.
  destruct (ChangeSet.changes_schema cs); cbn -[i64_add].
  - rewrite i64_add_exact by tauto. split; [|by intros []]. intros [= H _]. lia.
  - rewrite i64_add_exact by (rewrite Z.add_0_r; tauto). split.
    + intros [= _ H]. split; [done|lia].
    + intros [_ ->]. f_equal; lia.
Qed.
End Key.

(** ** A transaction that registers no files and inlines a row *)

Definition orders_client : Client :=
  (Commit.commit Dialect.Sqlite (table_transaction "orders") demo_client).2.
Definition orders_inline : list Change := [
  Change.WriteTableDataFiles (TableRef.mk 0) [];
  Change.WriteTableInlineData (TableRef.mk 0) [CommitInlineData.mk (1 : RecordBatch) ∅]].
Definition orders_catalog : Catalog := CommitState.catalog (Attempt.state (Client.attempt orders_client)).
Definition orders_attempt : Client :=
  Client.mk (Client.db orders_client) (Client.current orders_client) 0
    (Attempt.mk TransactionChanges.default
       (CommitState.new (Client.current orders_client) orders_catalog
          (ChangeSet.changes_schema orders_inline) (Some ∅)) 0).

Definition stats_rows (c : Client) : option (list row) :=
  DbTable.rows <$> Client.db c !! TABLE DucklakeTableStats.

(** The statistics of the table gain a row. *)
Lemma orders_inline_runs :
  match Commit.apply_changes Dialect.Sqlite orders_inline AuthorInfo.default orders_attempt with
  | (Ok _, client') => stats_rows orders_attempt = Some [] /\ length <$> stats_rows client' = Some 1
  | _ => False
  end.
Proof. vm_compute. by split. Qed.

Lemma orders_start :
  Attempt.state (Client.attempt orders_attempt) = CommitState.new (Client.current orders_client)
    orders_catalog (ChangeSet.changes_schema orders_inline) (Some ∅).
Proof. reflexivity. Qed.

Lemma orders_bounds :
  (in_i64 (SnapshotInfo.schema_version (Client.current orders_client)) /\
   in_i64 (SnapshotInfo.schema_version (Client.current orders_client) + 1)) /\
  (in_i64 (SnapshotInfo.next_file_id (Client.current orders_client)) /\
   in_i64 (SnapshotInfo.next_file_id (Client.current orders_client) +
     Z.of_nat (change_set_file_ids orders_inline))).
Proof. split; split; split; vm_compute; discriminate. Qed.

(** The statistics change, and their key stays the same. *)
Lemma statistics_key_advances_witness : exists info client',
  Commit.apply_changes Dialect.Sqlite orders_inline AuthorInfo.default orders_attempt = (Ok info, client') /\
  stats_rows orders_attempt = Some [] /\ length <$> stats_rows client' = Some 1 /\
  (SnapshotInfo.schema_version info, SnapshotInfo.next_file_id info) =
    (SnapshotInfo.schema_version (Client.current orders_client),
     SnapshotInfo.next_file_id (Client.current orders_client)).
Proof.
  pose proof orders_inline_runs as Hrun.
  destruct (Commit.apply_changes _ _ _ _) as [[info| |] client'] eqn:He;
    [|contradiction..].
  exists info, client'. destruct Hrun as [H1 H2]. split; [exact eq_refl|]. split; [exact H1|].
  split; [exact H2|].
  apply (statistics_key_advances Dialect.Sqlite orders_inline AuthorInfo.default
    (Client.current orders_client) orders_catalog (Some ∅) orders_attempt client' info
    orders_start He eq_refl (proj1 orders_bounds) (proj2 orders_bounds)).
  split; [reflexivity|]. split; [left; exact I|by repeat constructor].
Defined.
