(* ===== verification/DataCommit.v ===== *)
(** * Commits that only write data ([transaction/mod.rs], [caches/catalog.rs])

    The catalog of a snapshot is cached under its schema version. A commit that
    does not change the schema keeps the version, so it must not write any table
    the catalog is loaded from: the statements of such a commit are followed to
    the tables they write. *)

From S2P Require Import Prelude Triple Text Regex Identifier Types Instances Entities.
From S2P Require Import CatalogColumns Catalog TableStats CommitState Change AppliedChange.
From S2P Require Import Dialect TransactionChanges Executors Database Load Batches Persist Stamps.
From S2P Require Import History Transactions Commit Demo CommitFacts StatsKey.

(** The tables [Catalog::load] reads *)
Definition catalog_tables : list string :=
  [TABLE DucklakeSchema; TABLE DucklakeTable; TABLE DucklakeView; TABLE DucklakeMacro;
   TABLE DucklakeMacroImpl; TABLE DucklakeMacroParameters; TABLE DucklakeColumn;
   TABLE DucklakeTag; TABLE DucklakeColumnTag; TABLE DucklakePartitionInfo;
   TABLE DucklakePartitionColumn; TABLE DucklakeSortInfo; TABLE DucklakeSortExpression].

(** Those, the registrations of inlined data tables, and the tables only the end
    of a commit writes: what the changes of a data commit do not touch *)
Definition kept_tables : list string :=
  TABLE DucklakeInlinedDataTables :: catalog_tables ++ snapshot_tables.

Section Frame.
Context `{EXT : External} `{CMP : !SqlCompare} `{ENGINE : !SqlEngine}.

(** ** The table a statement writes *)

Definition written_table (s : Statement) : option string :=
  match s with
  | Statement.Select _ _ => None
  | Statement.Delete t _ | Statement.Update t _ _ | Statement.Insert t _ _
  | Statement.InsertSelect t _ _ _ | Statement.Copy t _ _ | Statement.CreateTable t _ _ _ => Some t
  end.

Lemma effect_frame s db db' table :
  effect s db = Some db' -> written_table s <> Some table -> db' !! table = db !! table.
Proof.
  destruct s; cbn [effect written_table]; intros He Hw;
    try (eapply update_rows_of_other; [exact He|congruence]).
  - case_match; [by simplify_eq|done].
  - case_match; [case_match; by simplify_eq|]. case_match; [|done]. simplify_eq.
    apply lookup_insert_ne. congruence.
Qed.

(** The kept tables are those of [db0]. *)
Definition kept (db0 db : Db) : Prop := forall table, table ∈ kept_tables -> db !! table = db0 !! table.

Context (dialect : Dialect) (db0 : Db).
Local Abbreviation keeps m := (triple (kept db0) m any).

Lemma kept_exec s : (forall t, written_table s = Some t -> t ∉ kept_tables) -> keeps (Tx.exec s).
Proof.
  intros Hs db Hd. unfold Tx.exec. destruct (execute s db) as [db'| |] eqn:E; cbn; [|by split..].
  split; [|done]. intros table Ht. rewrite <-(Hd table Ht).
  eapply effect_frame; [by apply execute_effect|]. intros Hw. by eapply Hs.
Qed.

Lemma kept_execute_batches {T} max (items : list T) query t :
  (forall piece, written_table (query piece) = Some t) -> t ∉ kept_tables \/ items = [] ->
  keeps (Tx.execute_batches dialect max items query).
Proof.
  intros Hq Ht. unfold Tx.execute_batches. apply triple_for. intros q Hin.
  destruct Ht as [Ht| ->]; [|by apply elem_of_nil in Hin].
  apply batch_queries_elem in Hin as [[piece ->]| ->].
  - eapply (triple_bind _ _ _ (eq (query piece))); [apply triple_lift; by intros ? [= <-]|].
    intros ? <-. apply kept_exec. intros t' Hw. rewrite Hq in Hw. by simplify_eq.
  - eapply (triple_bind _ _ _ (fun _ => False)); [by apply triple_lift|done].
Qed.

Lemma kept_delete_rows t keys rows :
  t ∉ kept_tables \/ rows = [] -> keeps (Tx.delete_rows dialect t keys rows).
Proof.
  intros Ht. unfold Tx.delete_rows.
  eapply triple_bind; [by apply (triple_lift _ _ any)|]. intros max _.
  by eapply kept_execute_batches.
Qed.
Lemma kept_retire_rows id t keys rows :
  t ∉ kept_tables \/ rows = [] -> keeps (Persist.retire_rows dialect id t keys rows).
Proof.
  intros Ht. unfold Persist.retire_rows, Tx.update_matching_rows.
  eapply triple_bind; [by apply (triple_lift _ _ any)|]. intros max _.
  by eapply kept_execute_batches.
Qed.
Lemma kept_update_rows t keys columns rows :
  t ∉ kept_tables -> keeps (Tx.update_rows dialect t keys columns rows).
Proof.
  intros Ht. unfold Tx.update_rows.
  eapply triple_bind; [by apply (triple_lift _ _ any)|]. intros max _.
  eapply kept_execute_batches; [done|by left].
Qed.
Lemma kept_no_renames `{HASH : HashOrder} id : keeps (Persist.persist_table_renames dialect id ∅).
Proof.
  unfold Persist.persist_table_renames, Tx.copy_rows_with_updates. rewrite hash_iter_empty.
  eapply triple_bind; [by apply (triple_lift _ _ any)|]. intros max _.
  eapply kept_execute_batches; [done|by right].
Qed.

Lemma kept_insert_rows t columns rows :
  t ∉ kept_tables \/ rows = [] -> keeps (Tx.insert_rows dialect t columns rows).
Proof.
  intros Ht. unfold Tx.insert_rows. case_decide; [by apply triple_ret|].
  destruct Ht as [Ht|Ht]; [|done]. case_decide; [by apply triple_panic|]. cbv zeta.
  match goal with |- triple _ (if ?b then _ else _) _ => destruct b end.
  - apply kept_exec. by intros t' [= <-].
  - apply triple_for. intros chunk _. apply kept_exec. by intros t' [= <-].
Qed.
Lemma kept_insert_entities_into {E} `{!Entity E} t (l : list E) :
  t ∉ kept_tables \/ l = [] -> keeps (Tx.insert_entities_into dialect t l).
Proof. intros Ht. apply kept_insert_rows. destruct Ht as [Ht| ->]; [by left|by right]. Qed.

Lemma kept_insert_all_arrow t b : t ∉ kept_tables -> keeps (Tx.insert_all_arrow dialect t b).
Proof.
  intros Ht. unfold Tx.insert_all_arrow. destruct (rows_of_batch b) as [columns rows].
  case_match; [by apply triple_ret|].
  destruct dialect; try by apply triple_panic.
  all: apply kept_exec; by intros t' [= <-].
Qed.

(** ** Inlined data

    The tables inlined rows go to are named by the registrations. *)
Definition names_apart (db : Db) : Prop :=
  forall t r e, db !! TABLE DucklakeInlinedDataTables = Some t -> r ∈ DbTable.rows t ->
    from_row r = Some e -> DucklakeInlinedDataTables.table_name e ∉ kept_tables.

Definition apart (e : DucklakeInlinedDataTables) : Prop :=
  DucklakeInlinedDataTables.table_name e ∉ kept_tables.

Lemma map_outcome_elems {E A B} (f : A -> outcome E B) (P : B -> Prop) l ys :
  (forall x y, x ∈ l -> f x = Ok y -> P y) -> map_outcome f l = Ok ys -> Forall P ys.
Proof.
  revert ys. induction l as [|x l IH]; intros ys Hf; cbn; [by intros [= <-]|].
  unfold mbind, outcome_bind. destruct (f x) eqn:Hx; [|done..].
  destruct (map_outcome f l) eqn:Hl; [|done..]. intros [= <-]. constructor.
  - eapply Hf; [by left|done].
  - apply IH; [|done]. intros y z Hy. apply Hf. by right.
Qed.

Lemma kept_fetch_registrations rows :
  names_apart db0 ->
  triple (kept db0) (Tx.fetch_rows (E := DucklakeInlinedDataTables) dialect ["table_id"] rows)
    (Forall apart).
Proof.
  intros Hn. unfold Tx.fetch_rows.
  eapply triple_bind; [by apply (triple_lift _ _ any)|]. intros max _.
  eapply (triple_bind _ _ _ (Forall (Forall apart))).
  2: { intros results Hr. apply triple_ret, Forall_concat, Hr. }
  apply triple_map. intros q Hin.
  apply batch_queries_elem in Hin as [[piece ->]| ->].
  2: { eapply (triple_bind _ _ _ (fun _ => False)); [by apply triple_lift|done]. }
  eapply (triple_bind _ _ _ (eq _)); [apply triple_lift; by intros ? [= <-]|]. intros ? <-.
  eapply (triple_bind _ _ _ (kept db0)); [apply triple_get|]. intros db Hdb.
  eapply (triple_bind _ _ _ (fun rows => select _ _ db = Ok rows)); [by apply triple_lift|].
  intros found Hfound. apply triple_lift. unfold Tx.decode_rows. intros es.
  apply map_outcome_elems. intros r e Hr He.
  apply select_rows in Hfound as (t & Ht & Hp). rewrite Hdb in Ht by (by left).
  rewrite Hp in Hr. apply elem_of_filter_bool in Hr as [Hr _].
  unfold ok_or in He. destruct (from_row r) as [e'|] eqn:Hd; [|done]. injection He as ->.
  by eapply Hn.
Qed.
End Frame.

(** Membership of a table name in a list of names is decided by evaluation. *)
Ltac not_kept := apply (bool_decide_unpack _); vm_compute; exact Logic.I.

(** ** Writing the changes of a data commit *)

Section PersistData.
Context `{EXT : External} `{CMP : !SqlCompare} `{ENGINE : !SqlEngine} `{TXT : !ValueText}
  `{HASH : HashOrder}.
Context (dialect : Dialect) (db0 : Db).
Local Abbreviation keeps m := (triple (kept db0) m any).

(** Only files, inlined batches and statistics *)
Record data_only (c : TransactionChanges) : Prop := {
  no_new_schemas : TransactionChanges.new_schemas c = [];
  no_new_tables : TransactionChanges.new_tables c = [];
  no_new_views : TransactionChanges.new_views c = [];
  no_new_macros : TransactionChanges.new_macros c = [];
  no_new_macro_impls : TransactionChanges.new_macro_impls c = [];
  no_new_macro_parameters : TransactionChanges.new_macro_parameters c = [];
  no_new_columns : TransactionChanges.new_columns c = [];
  no_new_partition_info : TransactionChanges.new_partition_info c = [];
  no_new_partition_columns : TransactionChanges.new_partition_columns c = [];
  no_new_sort_info : TransactionChanges.new_sort_info c = [];
  no_new_sort_expressions : TransactionChanges.new_sort_expressions c = [];
  no_new_tags : TransactionChanges.new_tags c = [];
  no_new_column_tags : TransactionChanges.new_column_tags c = [];
  no_dropped_schemas : TransactionChanges.dropped_schemas c = ∅;
  no_dropped_tables : TransactionChanges.dropped_tables c = ∅;
  no_dropped_views : TransactionChanges.dropped_views c = ∅;
  no_dropped_macros : TransactionChanges.dropped_macros c = ∅;
  no_detached_tables : TransactionChanges.detached_tables c = ∅;
  no_renamed_tables : TransactionChanges.renamed_tables c = ∅;
  no_retired_partition_tables : TransactionChanges.retired_partition_tables c = ∅;
  no_retired_sort_tables : TransactionChanges.retired_sort_tables c = ∅;
  no_retired_columns : TransactionChanges.retired_columns c = ∅;
  no_table_tags : TransactionChanges.table_tags c = ∅;
  no_column_tags : TransactionChanges.column_tags c = ∅;
  no_inline_tables : TransactionChanges.inline_tables c = ∅;
}.

Lemma data_only_default : data_only TransactionChanges.default.
Proof. by split. Qed.

Lemma inlined_delete_not_kept id : DucklakeInlinedDelete_table_name id ∉ kept_tables.
Proof.
  unfold DucklakeInlinedDelete_table_name, kept_tables, catalog_tables, snapshot_tables. cbn [app].
  rewrite !elem_of_cons, elem_of_nil. intros H. by repeat destruct H as [H|H].
Qed.

Lemma kept_files files : keeps (Persist.persist_files dialect files).
Proof.
  unfold Persist.persist_files.
  do 4 (eapply triple_bind; [apply kept_insert_entities_into; left; not_kept|intros _ _]).
  apply triple_for. intros [id deletes] _. unfold Persist.persist_inline_deletes. cbv zeta.
  eapply triple_bind.
  - apply kept_exec. intros t [= <-]. apply inlined_delete_not_kept.
  - intros _ _. apply kept_insert_entities_into. left. apply inlined_delete_not_kept.
Qed.

Lemma latest_registrations_elem tables id e :
  Persist.latest_registrations tables !! id = Some e -> e ∈ tables.
Proof.
  unfold Persist.latest_registrations.
  assert (forall l (m : gmap Z DucklakeInlinedDataTables), (forall id e, m !! id = Some e -> e ∈ tables) -> (forall e, e ∈ l -> e ∈ tables) ->
    foldl (fun latest table =>
      let id := DucklakeInlinedDataTables.table_id table in
      match latest !! id with
      | Some previous =>
          if (DucklakeInlinedDataTables.schema_version previous
              <? DucklakeInlinedDataTables.schema_version table)%Z
          then <[id := table]> latest else latest
      | None => <[id := table]> latest
      end) m l !! id = Some e -> e ∈ tables) as H.
  2: { apply H; [|done]. intros ?? He. by rewrite lookup_empty in He. }
  induction l as [|x l IH]; intros m Hm Hl; cbn [foldl]; [apply Hm|].
  apply IH; [|intros e' He'; apply Hl; by right]. intros id' e'. cbv zeta.
  assert (<[DucklakeInlinedDataTables.table_id x := x]> m !! id' = Some e' -> e' ∈ tables) as Hx.
  { intros [[_ <-]|[_ He]]%lookup_insert_Some; [apply Hl; by left|by eapply Hm]. }
  case_match; [|done]. case_match; [done|]. apply Hm.
Qed.

Lemma kept_inline_data data version :
  names_apart db0 -> keeps (Persist.persist_inline_data dialect ∅ data version).
Proof.
  intros Hn. unfold Persist.persist_inline_data.
  assert (keeps (Persist.write_inline_data dialect ∅ data version)) as Hw.
  { unfold Persist.write_inline_data. rewrite hash_iter_empty. cbn [st_map].
    eapply (triple_bind _ _ _ (eq [])); [by apply triple_ret|]. intros ? <-.
    eapply triple_bind; [by apply kept_insert_entities_into; right|]. intros _ _. cbv zeta.
    eapply triple_bind; [by apply kept_fetch_registrations|]. intros registered Hr.
    apply triple_for. intros [id batches] _.
    eapply (triple_bind _ _ _ (fun name => name ∉ kept_tables)).
    - apply triple_lift. intros name. unfold ok_or. case_match eqn:Hname; [|done].
      intros [= ->]. rewrite right_id_L in Hname by apply _.
      rewrite lookup_fmap in Hname. apply fmap_Some in Hname as (e & He & ->).
      rewrite Forall_forall in Hr. apply Hr. by eapply latest_registrations_elem.
    - intros name Hname. apply triple_for. intros b _. by apply kept_insert_all_arrow. }
  revert Hw. generalize (Persist.write_inline_data dialect ∅ data version) as m. intros m Hm.
  destruct dialect; [done| |done]. by case_decide; [apply triple_ret|apply triple_panic].
Qed.

Definition writing_data (w : Writer) : Prop := kept db0 (Writer.db w).

Lemma kept_tx {A} (m : method Db A) : keeps m -> triple writing_data (Persist.tx m) any.
Proof. intros Hm. by eapply triple_zoom; [| |exact Hm]. Qed.

Lemma kept_no_tag_rounds {K E} `{!Entity E} id t keys key_values (entity : K -> string -> string -> E) :
  keeps (Persist.tag_rounds dialect 1 id t keys key_values entity []).
Proof. by apply triple_ret. Qed.

Lemma kept_statistics written : triple writing_data (Persist.persist_statistics dialect written) any.
Proof.
  unfold Persist.persist_statistics. eapply (triple_bind _ _ _ any).
  - by eapply triple_zoom with (J := any).
  - intros rows _. apply kept_tx.
    do 2 (eapply triple_bind; [apply kept_insert_entities_into; left; not_kept|intros _ _]).
    eapply triple_bind; [apply kept_update_rows; not_kept|]. intros _ _.
    apply kept_update_rows. not_kept.
Qed.

Lemma kept_persist c :
  names_apart db0 -> data_only c -> triple writing_data (Persist.persist dialect c) any.
Proof.
  intros Hn Hc. unfold Persist.persist.
  eapply (triple_bind _ _ _ any); [by apply triple_gets|]. intros state _. cbv zeta.
  eapply triple_bind.
  { apply kept_tx. unfold Persist.delete_detached. rewrite no_detached_tables, hash_iter_set_empty by done.
    do 3 (eapply triple_bind; [by apply kept_delete_rows; right|intros _ _]).
    by apply kept_delete_rows; right. }
  intros _ _. eapply triple_bind.
  { apply kept_tx. unfold Persist.retire_entities. cbv zeta.
    rewrite no_dropped_tables, no_dropped_schemas, no_dropped_views, no_dropped_macros,
      no_retired_partition_tables, no_retired_sort_tables, no_retired_columns, no_renamed_tables,
      !hash_iter_set_empty, !hash_iter_empty by done.
    do 11 (eapply triple_bind; [by apply kept_retire_rows; right|intros _ _]).
    by apply kept_retire_rows; right. }
  intros _ _. eapply triple_bind.
  { apply kept_tx. unfold Persist.insert_entities. rewrite no_renamed_tables by done.
    eapply triple_bind; [by apply kept_insert_entities_into; right; apply no_new_schemas|intros _ _].
    eapply triple_bind; [apply kept_no_renames|intros _ _].
    do 11 (eapply triple_bind; [apply kept_insert_entities_into; right; by destruct Hc|intros _ _]).
    apply kept_insert_entities_into; right; by destruct Hc. }
  intros _ _. eapply triple_bind.
  { apply kept_tx. unfold Persist.persist_all_tags, Persist.persist_tags.
    rewrite no_table_tags, no_column_tags, !hash_iter_empty by done.
    eapply triple_bind; [apply kept_no_tag_rounds|intros _ _]. apply kept_no_tag_rounds. }
  intros _ _. eapply triple_bind; [apply kept_tx, kept_files|].
  intros _ _. eapply triple_bind.
  { apply kept_tx. rewrite no_inline_tables by done. by apply kept_inline_data. }
  intros _ _. apply kept_statistics.
Qed.
End PersistData.

(** ** What a data change collects *)

Section Collect.
Context `{EXT : External} `{ENV : !Environment} `{TXT : !ValueText} `{HASH : HashOrder}
  `{ITER : !Itertools}.

Definition collects_data (a : Attempt) : Prop := data_only (Attempt.changes a).

Lemma collects_data_on_state {A} (m : method CommitState A) :
  triple collects_data (executors.on_state m) any.
Proof. by eapply triple_zoom with (J := any). Qed.
Lemma collects_data_collect f :
  (forall c, data_only c -> data_only (f c)) -> triple collects_data (executors.collect f) any.
Proof. intros Hf. apply triple_modify. intros a. apply Hf. Qed.

Ltac collecting :=
  repeat first
    [ apply collects_data_on_state
    | apply collects_data_collect; intros c Hc; destruct Hc; by constructor
    | done
    | eapply (triple_bind _ _ _ any); [|intros ? _; cbv beta zeta]
    | apply (triple_any _ _ (Forall any)), (triple_map _ _ _ any); intros ? _
    | triple_step ].

Lemma collects_data_file r table_id f :
  triple collects_data (executors.write_data_file r table_id f) any.
Proof.
  unfold executors.write_data_file, executors.write_delete_file, executors.write_column_stats,
    executors.next_row_id, executors.update_table_stats_from_file, executors.update_column_stats,
    executors.snapshot_id, executors.column_id, executors.collect_files.
  collecting.
Qed.
Lemma collects_data_batch table_id d :
  triple collects_data (executors.write_inline_batch table_id d) any.
Proof.
  unfold executors.write_inline_batch, executors.update_table_stats_from_inline_data,
    executors.update_column_stats, executors.next_row_id, executors.snapshot_id, executors.column_id.
  collecting.
Qed.
Lemma collects_data_written table_id columns :
  triple collects_data (executors.record_written_columns table_id columns) any.
Proof. unfold executors.record_written_columns. collecting. Qed.

Lemma collects_data_change c :
  Change.changes_schema c = false -> triple collects_data (Change_apply c) any.
Proof.
  intros Hc. destruct c; try done; cbn [Change_apply].
  - unfold executors.write_table_data, executors.table_id.
    eapply triple_bind; [apply collects_data_on_state|]. intros id _.
    eapply (triple_bind _ _ _ any); [|intros columns _; apply collects_data_written].
    apply (triple_any _ _ (Forall any)), (triple_map _ _ _ any). intros f _. apply collects_data_file.
  - unfold executors.write_table_inline_data, executors.table_id.
    eapply triple_bind; [apply collects_data_on_state|]. intros id _.
    eapply (triple_bind _ _ _ any); [|intros columns _; apply collects_data_written].
    apply (triple_any _ _ (Forall any)), (triple_map _ _ _ any). intros d _. apply collects_data_batch.
Qed.

Lemma no_schema_changes cs :
  ChangeSet.changes_schema cs = false -> ChangeSet.table_refs_with_schema_changes cs = [].
Proof.
  unfold ChangeSet.changes_schema, ChangeSet.table_refs_with_schema_changes. intros Hc.
  replace (omap Change.table_ref_with_schema_change cs) with (@nil TableRef); [apply unique_by_nil|].
  induction cs as [|c cs IH]; [done|]. cbn in Hc. apply orb_false_iff in Hc as [Hc Hcs].
  cbn. rewrite <-IH by done. by destruct c.
Qed.

Lemma collects_data_ChangeSet cs dialect :
  ChangeSet.changes_schema cs = false -> triple collects_data (ChangeSet_apply cs dialect) any.
Proof.
  intros Hcs. unfold ChangeSet_apply. rewrite no_schema_changes by done.
  eapply triple_bind.
  { apply triple_for. intros c _. destruct c; cbn [check_inline_write]; unfold executors.table_schema;
      collecting. }
  intros _ _. eapply triple_bind.
  { apply triple_for. intros c Hc. apply collects_data_change.
    unfold ChangeSet.changes_schema in Hcs. destruct (Change.changes_schema c) eqn:E; [|done].
    rewrite <-Hcs. symmetry. apply existsb_exists. exists c. split; [by apply list_elem_of_In|done]. }
  intros _ _. eapply triple_bind; [apply triple_for; by intros ? ?%elem_of_nil|].
  intros _ _. collecting.
Qed.
End Collect.

(** ** What the catalog of the new snapshot is loaded from *)

Section DataCommit.
Context `{EXT : External} `{ENV : !Environment} `{TXT : !ValueText} `{HASH : HashOrder}
  `{ITER : !Itertools} `{ENG : !RegexEngine} `{CMP : !SqlCompare} `{ENGINE : !SqlEngine}
  `{AROUND : !Surroundings}.
Context (dialect : Dialect).

(** No row of a catalog table begins or ends at snapshot [n]. *)
Definition unstamped (db : Db) (n : Z) : Prop :=
  forall table t r, table ∈ catalog_tables -> db !! table = Some t -> r ∈ DbTable.rows t ->
    field "begin_snapshot" r <> SInt n /\ field "end_snapshot" r <> SInt n.

Lemma unstamped_visible n (r : row) :
  field "begin_snapshot" r <> SInt (n + 1) -> field "end_snapshot" r <> SInt (n + 1) ->
  row_visible (n + 1) r = row_visible n r.
Proof.
  unfold row_visible. intros Hb He.
  destruct (field "begin_snapshot" r) as [| |b| | |]; try done.
  assert (b <> n + 1)%Z by congruence. unfold filter_for_snapshot.
  replace (b <=? n + 1)%Z with (b <=? n)%Z by lia.
  destruct (field "end_snapshot" r) as [| |e| | |]; try done.
  assert (e <> n + 1)%Z by congruence. f_equal. lia.
Qed.

Lemma unstamped_seen db n table :
  table ∈ catalog_tables -> unstamped db (n + 1) -> seen db table (n + 1) = seen db table n.
Proof.
  intros Ht Hu. unfold seen. destruct (db !! table) as [t|] eqn:Hdb; [|done].
  unfold visible. f_equal. specialize (fun r => Hu _ _ r Ht Hdb) as Hu'; clear Hu; rename Hu' into Hu. clear Ht Hdb. revert Hu.
  induction (DbTable.rows t) as [|r rows IH]; intros Hu; [done|]. cbn.
  destruct (Hu r) as [Hb He]; [by left|]. rewrite unstamped_visible by done.
  rewrite IH; [done|]. intros r' Hr'. apply Hu. by right.
Qed.

Lemma catalog_table_kept table : table ∈ catalog_tables -> table ∈ kept_tables.
Proof. intros Ht. right. apply elem_of_app. by left. Qed.
Lemma catalog_table_not_snapshot table : table ∈ catalog_tables -> table ∉ snapshot_tables.
Proof.
  intros Ht. assert (Forall (fun t => t ∉ snapshot_tables) catalog_tables) as Hall by not_kept.
  rewrite Forall_forall in Hall. by apply Hall.
Qed.

(** The changes of the attempt leave the kept tables alone; then it ends. *)
Lemma data_attempt_finalizes cs author (client client' : Client) info :
  ChangeSet.changes_schema cs = false -> fresh client ->
  names_apart (others (Client.clock client) (Client.db client)) ->
  Commit.apply_changes dialect cs author client = (Ok info, client') ->
  exists db time state applied ids,
    kept (others (Client.clock client) (Client.db client)) db /\
    Commit.finalize_commit dialect time state applied ids author db = (Ok info, Client.db client').
Proof.
  intros Hcs Hfresh Hnames (a1 & a & time & applied & ids & w & Ha & Hch & _ & Hw & ->)%apply_changes_run.
  apply (triple_run collects_data _ any) in Ha as [Ha1 _]; [|by apply collects_data_ChangeSet|].
  2: { unfold collects_data. rewrite Hfresh. apply data_only_default. }
  unfold collects_data in Ha1. rewrite <-Hch in Ha1.
  set (before := others _ _) in *. unfold Commit.write_changes in Hw.
  apply bind_Ok in Hw as ([] & w1 & [Hw1 _]%(triple_run (writing_data before) _ any) & Hw2);
    [|by apply kept_persist|done].
  apply bind_Ok in Hw2 as (st & w2 & Hst & Hw3). unfold st_gets in Hst. injection Hst as <- <-.
  unfold Persist.tx, st_zoom in Hw3.
  destruct (Commit.finalize_commit _ _ _ _ _ _ _) as [r db] eqn:Hf. injection Hw3 as -> <-.
  by exists (Writer.db w1), time, (Writer.state w1), applied, ids.
Qed.

Lemma data_attempt_keeps cs author (client client' : Client) info table :
  ChangeSet.changes_schema cs = false -> fresh client ->
  names_apart (others (Client.clock client) (Client.db client)) ->
  Commit.apply_changes dialect cs author client = (Ok info, client') ->
  table ∈ catalog_tables ->
  Client.db client' !! table = others (Client.clock client) (Client.db client) !! table.
Proof.
  intros Hcs Hfresh Hnames (db & time & state & applied & ids & Hkept & Hf)%data_attempt_finalizes Ht;
    [|done..].
  apply finalize_commit_Ok in Hf as (_ & Hother & _).
  rewrite Hother by (by apply catalog_table_not_snapshot). by apply Hkept, catalog_table_kept.
Qed.

(** The boolean checks behind both conditions on a database *)
Definition not_at (n : Z) (v : SqlValue) : bool :=
  match v with SInt k => negb (Z.eqb k n) | _ => true end.
Lemma not_at_spec n v : not_at n v = true -> v <> SInt n.
Proof. intros Hv ->. cbn in Hv. by rewrite Z.eqb_refl in Hv. Qed.
Definition unstampedb (db : Db) (n : Z) : bool :=
  forallb (fun table => match db !! table with
    | Some t => forallb (fun r => not_at n (field "begin_snapshot" r) && not_at n (field "end_snapshot" r))
                  (DbTable.rows t)
    | None => true
    end) catalog_tables.
Lemma unstampedb_spec db n : unstampedb db n = true -> unstamped db n.
Proof.
  intros Hu table t r Ht Hdb Hr. unfold unstampedb in Hu. rewrite forallb_forall in Hu.
  apply list_elem_of_In in Ht, Hr. specialize (Hu table Ht). rewrite Hdb, forallb_forall in Hu.
  specialize (Hu r Hr). apply andb_prop in Hu as [Hb He].
  split; by apply not_at_spec.
Qed.
Definition names_apartb (db : Db) : bool :=
  match db !! TABLE DucklakeInlinedDataTables with
  | Some t => forallb (fun r => match from_row (E := DucklakeInlinedDataTables) r with
      | Some e => negb (bool_decide (DucklakeInlinedDataTables.table_name e ∈ kept_tables))
      | None => true
      end) (DbTable.rows t)
  | None => true
  end.
Lemma names_apartb_spec db : names_apartb db = true -> names_apart db.
Proof.
  unfold names_apartb. intros Hn t r e Ht Hr He. rewrite Ht, forallb_forall in Hn.
  apply list_elem_of_In in Hr. specialize (Hn r Hr). rewrite He in Hn.
  by apply negb_true_iff, bool_decide_eq_false in Hn.
Qed.

(** The schema version identifies the catalog. A successful attempt whose
    changes do not change the schema creates a snapshot with the schema version
    of its base, leaves every table the catalog is loaded from as other clients
    left it, and the new snapshot sees of each exactly what its base saw - as long
    as nobody stamped rows with the number of the new snapshot and no inlined
    data table is registered under the name of a catalog table. *)
Theorem data_commit_keeps_catalog (cs : list Change) (author : AuthorInfo.t)
    (latest : SnapshotInfo) (catalog : Catalog) (stats : option (gmap Z TableStats))
    (client client' : Client) (info : SnapshotInfo)
    (Hschema : ChangeSet.changes_schema cs = false)
    (Hfresh : fresh client)
    (Hstart : Attempt.state (Client.attempt client) = CommitState.new latest catalog false stats)
    (Hrun : Commit.apply_changes dialect cs author client = (Ok info, client'))
    (Hnames : names_apart (others (Client.clock client) (Client.db client)))
    (Hbounds : in_i64 (SnapshotInfo.id latest + 1) /\ in_i64 (SnapshotInfo.schema_version latest) /\
      in_i64 (SnapshotInfo.schema_version latest + 1))
    (Hnew : unstamped (others (Client.clock client) (Client.db client)) (SnapshotInfo.id latest + 1)) :
  SnapshotInfo.schema_version info = SnapshotInfo.schema_version latest /\
  SnapshotInfo.id info = (SnapshotInfo.id latest + 1)%Z /\
  forall table, table ∈ catalog_tables ->
    Client.db client' !! table = others (Client.clock client) (Client.db client) !! table /\
    seen (Client.db client') table (SnapshotInfo.id info) =
      seen (others (Client.clock client) (Client.db client)) table (SnapshotInfo.id latest).
Proof.
  rewrite <-Hschema in Hstart. destruct Hbounds as (Hb1 & Hb2 & Hb3).
  destruct (attempt_numbers _ _ _ _ _ _ _ _ _ Hstart Hrun Hb1 Hb2 Hb3) as [Hid Hsv].
  rewrite Hschema, Z.add_0_r in Hsv. split; [done|]. split; [done|]. intros table Ht.
  assert (Client.db client' !! table = others (Client.clock client) (Client.db client) !! table)
    as Hsame by (by eapply data_attempt_keeps).
  split; [done|]. rewrite Hid. unfold seen at 1. rewrite Hsame. by apply unstamped_seen.
Qed.
End DataCommit.

(** ** A commit of one inlined row *)

Definition orders_row : list Change :=
  [Change.WriteTableInlineData (TableRef.mk 0) [CommitInlineData.mk (1 : RecordBatch) ∅]].

Lemma orders_row_runs :
  match Commit.apply_changes Dialect.Sqlite orders_row AuthorInfo.default orders_attempt with
  | (Ok _, client') => stats_rows orders_attempt = Some [] /\ length <$> stats_rows client' = Some 1
  | _ => False
  end.
Proof. vm_compute. by split. Qed.
Lemma orders_names : names_apart (Client.db orders_attempt).
Proof. apply names_apartb_spec. vm_compute. reflexivity. Qed.
Lemma orders_unstamped :
  unstamped (Client.db orders_attempt) (SnapshotInfo.id (Client.current orders_client) + 1).
Proof. apply unstampedb_spec. vm_compute. reflexivity. Qed.
Lemma orders_numbers : in_i64 (SnapshotInfo.id (Client.current orders_client) + 1) /\
  in_i64 (SnapshotInfo.schema_version (Client.current orders_client)) /\
  in_i64 (SnapshotInfo.schema_version (Client.current orders_client) + 1).
Proof. split; [|split]; split; vm_compute; discriminate. Qed.

(** The commit writes a row of statistics, and the new snapshot sees the same table. *)
Lemma data_commit_keeps_catalog_witness : exists info client',
  Commit.apply_changes Dialect.Sqlite orders_row AuthorInfo.default orders_attempt = (Ok info, client') /\
  length <$> stats_rows client' = Some 1 /\
  seen (Client.db client') (TABLE DucklakeTable) (SnapshotInfo.id info) =
    seen (Client.db orders_attempt) (TABLE DucklakeTable) (SnapshotInfo.id (Client.current orders_client)).
Proof.
  pose proof orders_row_runs as Hrun.
  destruct (Commit.apply_changes _ _ _ _) as [[info| |] client'] eqn:He; [|contradiction..].
  exists info, client'. split; [exact eq_refl|]. split; [exact (proj2 Hrun)|].
  refine (proj2 (proj2 (proj2 (data_commit_keeps_catalog Dialect.Sqlite orders_row AuthorInfo.default
    (Client.current orders_client) orders_catalog (Some ∅) orders_attempt client' info
    eq_refl eq_refl orders_start He orders_names orders_numbers orders_unstamped)) _ _)).
  right. left.
Defined.
