(* ===== verification/Retry.v ===== *)
(** * The retry loop ([transaction/mod.rs], [Transaction::commit])

    What a commit as a whole does: a failed one leaves the database to the
    other clients, a successful one is a single successful attempt. *)

From S2P Require Import Prelude Triple Text Regex Identifier Types Instances Entities.
From S2P Require Import CatalogColumns Catalog TableStats CommitState Change AppliedChange.
From S2P Require Import Dialect TransactionChanges Executors Database Load Batches Persist Stamps.
From S2P Require Import History Transactions Commit CommitFacts Demo.

Section Retry.
Context `{EXT : External} `{ENV : !Environment} `{TXT : !ValueText} `{HASH : HashOrder}
  `{ITER : !Itertools} `{ENG : !RegexEngine} `{CMP : !SqlCompare} `{ENGINE : !SqlEngine}
  `{AROUND : !Surroundings}.
Context (dialect : Dialect).

(** ** The database between two interactions of the client *)

(** What other clients made of a database in [k] interactions from the [n]th on *)
Fixpoint others_from (n k : nat) (db : Db) : Db :=
  match k with 0 => db | S k => others_from (S n) k (others n db) end.

Lemma others_from_snoc n k db : others_from n (S k) db = others (n + k) (others_from n k db).
Proof.
  revert n db. induction k as [|k IH]; intros n db; [cbn; by rewrite Nat.add_0_r|].
  change (others_from n (S (S k)) db) with (others_from (S n) (S k) (others n db)).
  rewrite IH. by replace (n + S k) with (S n + k) by lia.
Qed.

(** The client has not written to the database: only others have. *)
Definition untouched (c0 c : Client) : Prop :=
  exists k, Client.clock c = Client.clock c0 + k /\
    Client.db c = others_from (Client.clock c0) k (Client.db c0).

Lemma untouched_refl c : untouched c c.
Proof. exists 0. split; [lia|done]. Qed.

Lemma untouched_interact c0 : triple (untouched c0) Commit.interact any.
Proof.
  intros c (k & Hk & Hd). split; [|done]. exists (S k). cbn [others_from].
  split; [change (S (Client.clock c) = Client.clock c0 + S k); lia|].
  change (others_from (S (Client.clock c0)) k (others (Client.clock c0) (Client.db c0)))
    with (others_from (Client.clock c0) (S k) (Client.db c0)). rewrite others_from_snoc, <-Hd, <-Hk.
  reflexivity.
Qed.

Lemma untouched_query {A} c0 (q : Db -> result A) : triple (untouched c0) (Commit.query q) any.
Proof.
  unfold Commit.query. eapply triple_bind; [apply untouched_interact|]. intros _ _.
  eapply (triple_bind _ _ _ any); [by apply triple_gets|]. intros db _. by apply triple_lift.
Qed.

Lemma untouched_attempt {A} c0 (m : method Attempt A) :
  triple (untouched c0) (Commit.on_attempt m) any.
Proof. by apply triple_zoom with (J := any). Qed.
Lemma untouched_state {A} c0 (m : method CommitState A) :
  triple (untouched c0) (Commit.on_state m) any.
Proof. apply untouched_attempt. Qed.

Lemma untouched_insert_snapshot c0 info : triple (untouched c0) (Commit.insert_snapshot info) any.
Proof.
  unfold Commit.insert_snapshot. eapply triple_bind; [apply triple_get|]. intros c _. cbv zeta.
  case_decide; [by apply triple_ret|]. eapply (triple_bind _ _ _ any).
  - case_decide; [|by apply triple_ret]. by apply triple_modify.
  - intros _ _. by apply triple_ret.
Qed.
End Retry.

#[export] Hint Resolve untouched_interact untouched_query untouched_attempt untouched_state
  untouched_insert_snapshot : ducklake.

(** A step of a method that only reads *)
Ltac reading :=
  repeat (first
    [ solve [auto with ducklake]
    | apply (triple_lift _ _ any); done
    | apply (triple_gets _ _ any); done
    | eapply triple_bind; [|intros ? _]
    | apply (triple_ret _ _ any); done ]).

Section Outcome.
Context `{EXT : External} `{ENV : !Environment} `{TXT : !ValueText} `{HASH : HashOrder}
  `{ITER : !Itertools} `{ENG : !RegexEngine} `{CMP : !SqlCompare} `{ENGINE : !SqlEngine}
  `{AROUND : !Surroundings}.
Context (dialect : Dialect).

Lemma untouched_load_catalog c0 id : triple (untouched c0) (Commit.load_catalog id) any.
Proof. unfold Commit.load_catalog, Commit.fetch_catalog. reading. Qed.
Lemma untouched_load_table_stats c0 catalog id :
  triple (untouched c0) (Commit.load_table_stats catalog id) any.
Proof. unfold Commit.load_table_stats. reading. Qed.

Lemma untouched_table_stats c0 info : triple (untouched c0) (Commit.snapshot_table_stats info) any.
Proof.
  unfold Commit.snapshot_table_stats, Commit.snapshot_catalog.
  eapply (triple_bind _ _ _ any).
  - eapply (triple_bind _ _ _ any); [by apply triple_gets|]. intros n _.
    destruct (catalog_cache n info); [by apply triple_ret|apply untouched_load_catalog].
  - intros catalog _. eapply (triple_bind _ _ _ any); [by apply triple_gets|]. intros n _.
    destruct (table_stats_cache n info); [by apply triple_ret|apply untouched_load_table_stats].
Qed.

Lemma untouched_start_attempt c0 tx cs latest :
  triple (untouched c0) (Commit.start_attempt tx cs latest) any.
Proof.
  unfold Commit.start_attempt. eapply (triple_bind _ _ _ any).
  - destruct (ChangeSet.requires_table_stats cs); [|by apply triple_ret].
    eapply triple_bind; [apply untouched_table_stats|].
    intros stats _. by apply triple_ret.
  - intros stats _. by apply triple_modify.
Qed.

Lemma untouched_resolve c0 tx cs : triple (untouched c0) (Commit.resolve_conflicts tx cs) any.
Proof.
  unfold Commit.resolve_conflicts, Commit.get_latest, Commit.get_snapshot_changes.
  eapply triple_bind; [eapply triple_bind; [apply untouched_query|intros info _; apply untouched_insert_snapshot]|].
  intros latest _. eapply (triple_bind _ _ _ any); [reading|]. intros changes _.
  eapply triple_bind; [apply untouched_state|]. intros applied _.
  eapply triple_bind; [|intros _ _; by apply triple_ret].
  apply triple_for. intros change _. by apply (triple_lift _ _ any).
Qed.

(** ** One attempt *)

(** An attempt that does not succeed has not written anything: its database
    transaction is rolled back. *)
Lemma bind_cases {S E A B} (m : stateful S E A) (f : A -> stateful S E B) s r s' :
  (m ≫= f) s = (r, s') ->
  (exists a s1, m s = (Ok a, s1) /\ f a s1 = (r, s')) \/
  (is_ok r = false /\ exists r0, is_ok r0 = false /\ m s = (r0, s')).
Proof.
  unfold mbind, stateful_bind. destruct (m s) as [[a|e|] s1].
  - eauto.
  - intros [= <- <-]. right. split; [done|]. by exists (Err e).
  - intros [= <- <-]. right. split; [done|]. by exists Panic.
Qed.

(** [I] holds after [m] when it does not succeed. *)
Definition failing_keeps {S A} (I : S -> Prop) (m : method S A) : Prop :=
  forall s r s', I s -> m s = (r, s') -> is_ok r = false -> I s'.

Lemma failing_keeps_triple {S A} (I : S -> Prop) (m : method S A) Q :
  triple I m Q -> failing_keeps I m.
Proof. intros Hm s r s' Hs He _. by eapply triple_run in He as [? _]. Qed.

Lemma failing_keeps_bind {S A B} (I : S -> Prop) (m : method S A) (f : A -> method S B) Q :
  triple I m Q -> (forall a, Q a -> failing_keeps I (f a)) -> failing_keeps I (m ≫= f).
Proof.
  intros Hm Hf s r s' Hs [(a & s1 & H1 & H2)|(_ & r0 & _ & H1)]%bind_cases Hr.
  - eapply triple_run in H1 as [Hi Hq]; [|exact Hm|done]. eapply Hf; eauto.
  - by eapply triple_run in H1 as [? _].
Qed.

Lemma failing_run_transaction {A} c0 (m : method Writer A) n :
  failing_keeps (untouched c0) (Commit.run_transaction m n).
Proof.
  intros c r c' Hc. unfold Commit.run_transaction.
  destruct (m _) as [[x| |] w]; [|by intros [= <- <-]..].
  destruct (commit_fails n); [by intros [= <- <-]|by intros [= <- <-]].
Qed.

Lemma failing_apply_changes c0 cs author :
  failing_keeps (untouched c0) (Commit.apply_changes dialect cs author).
Proof.
  unfold Commit.apply_changes.
  eapply failing_keeps_bind; [apply untouched_attempt|]. intros _ _.
  do 4 (eapply failing_keeps_bind; [apply untouched_state|]; intros ? _).
  match goal with |- failing_keeps _ (if ?b then _ else _) => destruct b end;
    [by eapply failing_keeps_triple, (triple_panic _ any)|].
  eapply failing_keeps_bind; [apply triple_get|]. intros c _. unfold Commit.in_transaction.
  eapply failing_keeps_bind; [apply untouched_interact|]. intros n _.
  eapply failing_keeps_bind; [by apply (triple_lift _ _ any)|]. intros _ _.
  apply failing_run_transaction.
Qed.

(** ** What a successful commit is *)

Lemma untouched_trans c0 c1 c2 : untouched c0 c1 -> untouched c1 c2 -> untouched c0 c2.
Proof.
  intros (k1 & Hk1 & Hd1) (k2 & Hk2 & Hd2). exists (k1 + k2). split; [lia|].
  rewrite Hd2, Hd1, Hk1. generalize (Client.db c0), (Client.clock c0). clear.
  induction k1 as [|k1 IH]; intros db n; [cbn; by rewrite Nat.add_0_r|]. cbn.
  rewrite <-IH. by replace (n + S k1) with (S n + k1) by lia.
Qed.

(** The attempt starts from a snapshot: nothing collected, the next number. *)
Definition based_on (tx : Transaction) (latest : SnapshotInfo) (c : Client) : Prop :=
  exists stats, Attempt.changes (Client.attempt c) = TransactionChanges.default /\
    Attempt.state (Client.attempt c) = CommitState.new latest (Transaction.catalog tx)
      (ChangeSet.changes_schema (ChangeSet.new (Transaction.changes tx))) stats.

(** After the attempt that ended at [failed], [latest] was the newest snapshot at some
    moment, and none of the change sets committed since the transaction began and up
    to it conflicts with the changes of the transaction, named by the IDs that
    attempt had resolved. *)
Definition cleared (tx : Transaction) (latest : SnapshotInfo) (failed c : Client) : Prop :=
  exists c1 c2 info st' tx_changes sets,
    untouched failed c1 /\ untouched c1 c2 /\ untouched c2 c /\
    Commit.load_latest (Client.db c1) = Ok info /\ SnapshotInfo.id latest = SnapshotInfo.id info /\
    Commit.changes_between (i64_add (SnapshotInfo.id (Transaction.snapshot tx)) 1)
      (SnapshotInfo.id latest) (Client.db c2) = Ok sets /\
    applied_change_set (ChangeSet.new (Transaction.changes tx)) (Attempt.state (Client.attempt failed)) =
      (Ok tx_changes, st') /\
    Forall (fun set => AppliedChangeSet.check_conflict tx_changes set (Transaction.catalog tx) = Ok tt)
      sets.

(** The snapshots attempts are based on, with the client that starts the attempt:
    the first one on the snapshot of the transaction, each later one on a snapshot
    that was cleared after an attempt that failed in a way that is retried. *)
Inductive base_of (tx : Transaction) (c0 : Client) : SnapshotInfo -> Client -> Prop :=
  | base_first : base_of tx c0 (Transaction.snapshot tx) c0
  | base_again i latest started before failed e latest' c :
      base_of tx c0 latest started ->
      Commit.start_attempt tx (ChangeSet.new (Transaction.changes tx)) latest started = (Ok tt, before) ->
      based_on tx latest before ->
      Commit.apply_changes dialect (ChangeSet.new (Transaction.changes tx)) (Transaction.author_info tx)
        before = (Err e, failed) ->
      Commit.retries i e = true ->
      cleared tx latest' failed c ->
      base_of tx c0 latest' c.

Lemma query_Ok {A} (q : Db -> result A) c a c' :
  Commit.query q c = (Ok a, c') ->
  untouched c c' /\ q (Client.db c') = Ok a /\ Client.attempt c' = Client.attempt c.
Proof.
  intros Hq. split; [by eapply triple_run in Hq as [? _]; [|apply untouched_query|apply untouched_refl]|].
  revert Hq. unfold Commit.query. intros (n & c1 & H1 & (db & c2 & H2 & H3)%bind_Ok)%bind_Ok.
  unfold Commit.interact, mbind, stateful_bind, st_get, st_modify in H1. injection H1 as <- <-.
  unfold st_gets in H2. injection H2 as <- <-. unfold st_lift in H3. by injection H3 as H3 <-.
Qed.

Lemma st_for_checks {S A} (f : A -> outcome DucklakeError unit) (l : list A) (s : S) u s' :
  st_for (fun x => st_lift (f x)) l s = (Ok u, s') -> Forall (fun x => f x = Ok tt) l /\ s' = s.
Proof.
  revert s. induction l as [|x l IH]; intros s; [intros [= <- <-]; split; [constructor|done]|].
  cbn. intros ([] & s1 & H1 & H2)%bind_Ok. unfold st_lift in H1. injection H1 as H1 <-.
  apply IH in H2 as [? ->]. split; [by constructor|done].
Qed.

Lemma insert_snapshot_Ok info c latest c' :
  Commit.insert_snapshot info c = (Ok latest, c') ->
  SnapshotInfo.id latest = SnapshotInfo.id info /\ Client.db c' = Client.db c /\
  Client.clock c' = Client.clock c /\ Client.attempt c' = Client.attempt c.
Proof.
  unfold Commit.insert_snapshot. intros (c1 & c2 & H1 & H2)%bind_Ok.
  unfold st_get in H1. injection H1 as <- <-. cbv zeta in H2. case_decide as Hid.
  - cbn in H2. by injection H2 as <- <-.
  - apply bind_Ok in H2 as ([] & c3 & H3 & H4). cbn in H4. injection H4 as <- <-.
    case_decide; cbn in H3; injection H3 as <-; done.
Qed.

Lemma resolve_conflicts_Ok tx c latest c' :
  Commit.resolve_conflicts tx (ChangeSet.new (Transaction.changes tx)) c = (Ok latest, c') ->
  untouched c c' /\ cleared tx latest c c'.
Proof.
  intros Hr. assert (untouched c c') as Hc.
  { by eapply triple_run in Hr as [? _]; [|apply untouched_resolve|apply untouched_refl]. }
  split; [done|]. revert Hr. unfold Commit.resolve_conflicts, Commit.get_latest, Commit.get_snapshot_changes.
  intros (latest' & c2 & H2 & (sets & c3 & H3 & (tx_changes & c4 & H4 & H5)%bind_Ok)%bind_Ok)%bind_Ok.
  apply bind_Ok in H2 as (info & c1 & (Hu1 & Hq1 & Ha1)%query_Ok & (Hid & Hd & Hk & Ha)%insert_snapshot_Ok).
  apply query_Ok in H3 as (Hu3 & Hq3 & Ha3).
  apply bind_Ok in H5 as ([] & c5 & [Hall ->]%st_for_checks & H6). cbn in H6. injection H6 as -> ->.
  unfold Commit.on_state, executors.on_state, Commit.on_attempt, st_zoom in H4.
  destruct (applied_change_set _ _) as [res st'] eqn:Happ. injection H4 as -> <-.
  exists c1, c3, info, st', tx_changes, sets.
  split; [done|]. split.
  { destruct Hu3 as (k & Hk3 & Hd3). exists k. rewrite <-Hk, <-Hd. done. }
  split; [exists 0; split; [cbn; lia|done]|]. do 3 (split; [done|]). split; [|done].
  by rewrite <-Ha1, <-Ha, <-Ha3.
Qed.

Lemma start_attempt_Ok tx latest c u c' :
  Commit.start_attempt tx (ChangeSet.new (Transaction.changes tx)) latest c = (Ok u, c') ->
  untouched c c' /\ based_on tx latest c'.
Proof.
  intros Hr. split.
  { by eapply triple_run in Hr as [? _]; [|apply untouched_start_attempt|apply untouched_refl]. }
  revert Hr. unfold Commit.start_attempt. intros (stats & c1 & _ & H2)%bind_Ok.
  unfold st_modify in H2. injection H2 as _ <-. by exists stats.
Qed.

(** The successful attempt of a commit, from the client that starts it *)
Definition committed_attempt (tx : Transaction) (c0 c' : Client) (latest : SnapshotInfo)
    (started before after : Client) (info : SnapshotInfo) : Prop :=
  base_of tx c0 latest started /\
  Commit.start_attempt tx (ChangeSet.new (Transaction.changes tx)) latest started = (Ok tt, before) /\
  based_on tx latest before /\ untouched c0 before /\
  Commit.apply_changes dialect (ChangeSet.new (Transaction.changes tx)) (Transaction.author_info tx)
    before = (Ok info, after) /\
  Client.db c' = Client.db after.
Definition one_attempt (tx : Transaction) (c0 c' : Client) : Prop :=
  exists latest started before after info, committed_attempt tx c0 c' latest started before after info.

Lemma insert_snapshot_total info c : exists latest c', Commit.insert_snapshot info c = (Ok latest, c').
Proof.
  unfold Commit.insert_snapshot, mbind, stateful_bind, st_get. cbv zeta.
  case_decide; [by eexists _, _|]. case_decide; by eexists _, _.
Qed.

Lemma attempts_outcome tx c0 n : forall i latest c r c',
  untouched c0 c -> base_of tx c0 latest c ->
  Commit.attempts dialect n i tx (ChangeSet.new (Transaction.changes tx)) latest c = (r, c') ->
  if is_ok r then one_attempt tx c0 c' else untouched c0 c'.
Proof.
  induction n as [|n IH]; intros i latest c r c' Hc Hlatest; [by intros [= <- <-]|].
  cbn [Commit.attempts].
  intros [([] & c1 & H1 & H2)|(Hr & r0 & _ & H1)]%bind_cases.
  2: { rewrite Hr. by eapply triple_run in H1 as [? _]; [|apply untouched_start_attempt|]. }
  pose proof (start_attempt_Ok _ _ _ _ _ H1) as [Hc1 Hbased].
  assert (untouched c0 c1) as Hc01 by (by eapply untouched_trans).
  unfold mbind at 1, stateful_bind at 1, Commit.st_result in H2.
  destruct (Commit.apply_changes _ _ _ c1) as [res c2] eqn:Ha. destruct res as [info|e|].
  - cbn [Commit.handle_result] in H2. destruct (insert_snapshot_total info c2) as (l & c3 & H3).
    unfold mbind, stateful_bind in H2. rewrite H3 in H2. injection H2 as <- <-. cbn [is_ok].
    apply insert_snapshot_Ok in H3 as (_ & Hd & _ & _). by exists latest, c, c1, c2, info.
  - assert (untouched c0 c2) as Hc2 by (by eapply failing_apply_changes).
    cbn [Commit.handle_result] in H2. destruct (Commit.retries i e) eqn:Hretry; [|by injection H2 as <- <-].
    apply bind_cases in H2 as [(latest' & c3 & H3 & H4)|(Hr & r0 & _ & H3)].
    + apply resolve_conflicts_Ok in H3 as [Hc3 Hcl].
      eapply IH; [by eapply untouched_trans| |exact H4]. by eapply base_again.
    + rewrite Hr. by eapply triple_run in H3 as [? _]; [|apply untouched_resolve|].
  - assert (untouched c0 c2) as Hc2 by (by eapply failing_apply_changes).
    by injection H2 as <- <-.
Qed.

Lemma commit_cases tx c r c' :
  Commit.commit dialect tx c = (r, c') ->
  if is_ok r then (ChangeSet.new (Transaction.changes tx) = [] /\ c' = c) \/ one_attempt tx c c'
  else untouched c c'.
Proof.
  unfold Commit.commit. cbv zeta.
  destruct (decide (ChangeSet.new (Transaction.changes tx) = [])) as [Hcs|Hcs].
  - rewrite Hcs. cbn. intros [= <- <-]. by left.
  - assert (ChangeSet.is_empty (ChangeSet.new (Transaction.changes tx)) = false) as -> by (by destruct (ChangeSet.new _)).
    intros Ha. apply (attempts_outcome tx c) in Ha; [|apply untouched_refl|constructor].
    destruct (is_ok r); [by right|done].
Qed.
End Outcome.

(** ** Properties *)

Section Properties.
Context `{EXT : External} `{ENV : !Environment} `{TXT : !ValueText} `{HASH : HashOrder}
  `{ITER : !Itertools} `{ENG : !RegexEngine} `{CMP : !SqlCompare} `{ENGINE : !SqlEngine}
  `{AROUND : !Surroundings}.
Context (dialect : Dialect).

(** C4: a commit that fails (an error or a panic, on any path: loading, conflict
    checks, statements, [BEGIN] or [COMMIT], all retries used up) has written
    nothing: the database is exactly what the other clients made of it. *)
Theorem failed_commit_writes_nothing (tx : Transaction) (client client' : Client)
    (res : outcome DucklakeError unit)
    (Hrun : Commit.commit dialect tx client = (res, client')) (Hfails : is_ok res = false) :
  Client.db client' = others_from (Client.clock client)
    (Client.clock client' - Client.clock client) (Client.db client).
Proof.
  apply commit_cases in Hrun. rewrite Hfails in Hrun. destruct Hrun as (k & Hk & Hd).
  rewrite Hd. f_equal. lia.
Qed.

(** C1: a successful commit of a nonempty change set is one successful attempt.
    That attempt is the last of a chain: the first is based on the snapshot the
    transaction began with, and each later one follows an attempt that failed with
    an error that is retried and starts from a snapshot that was the newest one
    after that failure, when every change set committed since the transaction began
    was read, parsed and found free of conflicts with the changes of the
    transaction, under the IDs that the failed attempt had given them. Everything
    before the successful attempt left the database to the other clients. *)
Theorem commit_is_one_cleared_attempt (tx : Transaction) (client client' : Client) (u : unit)
    (Hrun : Commit.commit dialect tx client = (Ok u, client')) :
  (ChangeSet.new (Transaction.changes tx) = [] /\ client' = client) \/
  exists latest started before after info,
    base_of dialect tx client latest started /\
    Commit.start_attempt tx (ChangeSet.new (Transaction.changes tx)) latest started = (Ok tt, before) /\
    based_on tx latest before /\ untouched client before /\
    Commit.apply_changes dialect (ChangeSet.new (Transaction.changes tx))
      (Transaction.author_info tx) before = (Ok info, after) /\
    Client.db client' = Client.db after.
Proof. by apply commit_cases in Hrun. Qed.

(** The database as other clients left it when the successful attempt began its
    transaction *)
Definition database_at (client : Client) (k : nat) : Db :=
  others_from (Client.clock client) k (Client.db client).

Lemma committed_attempt_begin tx c c' latest started before after info :
  committed_attempt dialect tx c c' latest started before after info ->
  exists k, others (Client.clock before) (Client.db before) = database_at c k.
Proof.
  intros (_ & _ & _ & (k & Hk & Hd) & _ & _). exists (S k).
  unfold database_at. by rewrite others_from_snoc, <-Hk, <-Hd.
Qed.

(** C2: time travel. Whatever the number of retries, a successful commit appends one
    row to the snapshot table, and every snapshot with a smaller number than that row
    sees of the versioned catalog tables exactly what the other clients had left it
    when the attempt began its transaction: the same rows with the same content, for
    schemas, tables, views, macros, columns, tags, data files, delete files,
    partitionings and sort orders. The number is one more than that of the snapshot
    the successful attempt was based on. (Change sets that write inlined rows or
    detach files are not part of the statement, nor are empty ones.) *)
Theorem commit_keeps_past (tx : Transaction) (client client' : Client) (u : unit)
    (Hallowed : Forall (allowed False False) (ChangeSet.new (Transaction.changes tx)))
    (Hsome : ChangeSet.new (Transaction.changes tx) <> [])
    (Hexists : forall k, is_Some (database_at client k !! TABLE DucklakeSnapshot))
    (Hrun : Commit.commit dialect tx client = (Ok u, client')) :
  exists latest started before after info k table0 snapshot,
    committed_attempt dialect tx client client' latest started before after info /\
    database_at client k !! TABLE DucklakeSnapshot = Some table0 /\
    Client.db client' !! TABLE DucklakeSnapshot =
      Some (table0 <| DbTable.rows ::= fun rows => rows ++ [to_row snapshot] |>) /\
    DucklakeSnapshot.snapshot_id snapshot = i64_add (SnapshotInfo.id latest) 1 /\
    forall table s,
      table ∈ versioned_tables -> (s < DucklakeSnapshot.snapshot_id snapshot)%Z ->
      seen (Client.db client') table s = seen (database_at client k) table s.
Proof.
  apply commit_cases in Hrun as [[? _]|(latest & started & before & after & info & Hone)]; [done|].
  destruct (committed_attempt_begin _ _ _ _ _ _ _ _ Hone) as [k Hk].
  pose proof Hone as (_ & _ & (stats & Hc & Hs) & _ & Ha & Hd).
  destruct (Hexists k) as [table0 Ht]. rewrite <-Hk in Ht.
  destruct (attempt_appends_snapshot dialect _ _ _ _ _ table0 Hallowed Hc Ha Ht) as (snapshot & _ & Hid & _ & Hdb).
  assert (DucklakeSnapshot.snapshot_id snapshot = i64_add (SnapshotInfo.id latest) 1) as Hn.
  { rewrite Hid. unfold new_snapshot_id. by rewrite Hs. }
  exists latest, started, before, after, info, k, table0, snapshot. rewrite Hd, <-Hk.
  do 4 (split; [done|]). intros table s Htable Hlt.
  eapply attempt_keeps_past; [exact Hallowed|exact Hc|exact Ha|done|]. by rewrite <-Hid.
Qed.

(** C3: optimistic concurrency. Whatever the number of retries, a successful
    commit appends exactly one row to the snapshot table as the other clients left
    it when the attempt began its transaction, numbered one more than the snapshot
    the successful attempt was based on - that of the transaction, or the one the
    last conflict check was made against - and (as [snapshot_id] is the primary key)
    no other client had created a snapshot with that number: two commits never
    produce the same snapshot. (Change sets that write inlined rows or detach files
    are not part of the statement, nor are empty ones.) *)
Theorem commit_appends_fresh_snapshot (tx : Transaction) (client client' : Client) (u : unit)
    (Hallowed : Forall (allowed False False) (ChangeSet.new (Transaction.changes tx)))
    (Hsome : ChangeSet.new (Transaction.changes tx) <> [])
    (Hkey : forall k t, database_at client k !! TABLE DucklakeSnapshot = Some t ->
       DbTable.primary_key t = PRIMARY_KEY DucklakeSnapshot)
    (Hexists : forall k, is_Some (database_at client k !! TABLE DucklakeSnapshot))
    (Hrun : Commit.commit dialect tx client = (Ok u, client')) :
  exists latest started before after info k table0 snapshot,
    committed_attempt dialect tx client client' latest started before after info /\
    database_at client k !! TABLE DucklakeSnapshot = Some table0 /\
    DucklakeSnapshot.snapshot_id snapshot = i64_add (SnapshotInfo.id latest) 1 /\
    info = SnapshotInfo.from_snapshot snapshot /\
    Client.db client' !! TABLE DucklakeSnapshot =
      Some (table0 <| DbTable.rows ::= fun rows => rows ++ [to_row snapshot] |>) /\
    Forall (fun r => field "snapshot_id" r <> SInt (DucklakeSnapshot.snapshot_id snapshot))
      (DbTable.rows table0).
Proof.
  apply commit_cases in Hrun as [[? _]|(latest & started & before & after & info & Hone)]; [done|].
  destruct (committed_attempt_begin _ _ _ _ _ _ _ _ Hone) as [k Hk].
  pose proof Hone as (_ & _ & (stats & Hc & Hs) & _ & Ha & Hd).
  destruct (Hexists k) as [table0 Ht]. rewrite <-Hk in Ht.
  destruct (attempt_appends_fresh_snapshot dialect _ _ _ _ _ table0 Hallowed Hc Ha) as (snapshot & Hinfo & Hid & Hdb & Hf).
  { done. }
  { eapply Hkey. by rewrite <-Hk. }
  unfold new_snapshot_id in *. rewrite Hs in *. cbn in Hid, Hf.
  exists latest, started, before, after, info, k, table0, snapshot. rewrite Hd, <-Hk, Hid. done.
Qed.
End Properties.

(** Two transactions that touch nothing in common can conflict. Each creates
    a table of its own and tags it; the rival commits first and its table gets
    the ID the failed attempt had drawn for the other one, so that the tag of the
    transaction counts as an alteration of the rival's table. The attempt without
    a rival succeeds. *)
Theorem drawn_id_conflicts_with_rival :
  (Commit.commit Dialect.Sqlite (table_transaction "a") demo_client).1 = Ok tt /\
  (Commit.commit (AROUND := table_contended "b") Dialect.Sqlite (table_transaction "a") demo_client).1
    = Err (TransactionConflict "attempting to alter table with ID 1 but it was altered").
Proof. split; vm_compute; reflexivity. Qed.

(** ** Witnesses *)

(** A rival creates a schema with the same name: the commit fails. *)
Lemma failed_commit_writes_nothing_witness :
  Client.db (contended_commit "sales").2 = rival_db "sales".
Proof.
  destruct (contended_commit "sales") as [res client'] eqn:Hrun.
  assert (is_ok res = false) as Hfails.
  { change res with ((res, client').1). rewrite <-Hrun. vm_compute. reflexivity. }
  assert (Client.clock client' = 3) as Hclock.
  { change client' with ((res, client').2). rewrite <-Hrun. vm_compute. reflexivity. }
  cbn [snd]. etransitivity.
  - exact (failed_commit_writes_nothing (AROUND := contended "sales") Dialect.Sqlite demo_transaction
      demo_client client' res Hrun Hfails).
  - rewrite Hclock. reflexivity.
Defined.

(** A rival creates another schema: the second attempt succeeds. *)
Lemma contended_succeeds : exists u client', contended_commit "hr" = (Ok u, client').
Proof. eexists _, _. vm_compute. reflexivity. Qed.

Lemma commit_is_one_cleared_attempt_witness : exists u client',
  contended_commit "hr" = (Ok u, client') /\
  ((ChangeSet.new (Transaction.changes demo_transaction) = [] /\ client' = demo_client) \/
   exists latest started before after info,
     committed_attempt (AROUND := contended "hr") Dialect.Sqlite demo_transaction demo_client client'
       latest started before after info).
Proof.
  destruct contended_succeeds as (u & client' & Hrun). exists u, client'. split; [exact Hrun|].
  exact (commit_is_one_cleared_attempt (AROUND := contended "hr") Dialect.Sqlite demo_transaction
    demo_client client' u Hrun).
Defined.

Lemma demo_allowed : Forall (allowed False False) (ChangeSet.new (Transaction.changes demo_transaction)).
Proof. change (ChangeSet.new _) with demo_changes. repeat constructor. Qed.

(** The database of the contended client is at every moment one of two. *)
Lemma contended_databases name k :
  database_at (AROUND := contended name) demo_client k = demo_db \/
  database_at (AROUND := contended name) demo_client k = rival_db name.
Proof.
  destruct k as [|k]; [by left|]. right. unfold database_at. cbn [others_from demo_client Client.clock Client.db].
  change (others 0 demo_db) with (rival_db name).
  assert (forall n, others_from (AROUND := contended name) (S n) k (rival_db name) = rival_db name) as ->; [|done].
  induction k as [|k IH]; intros n; [done|]. exact (IH (S n)).
Qed.

(** In both the snapshot table is there, with its primary key. *)
Lemma contended_snapshots k :
  DbTable.primary_key <$> database_at (AROUND := contended "hr") demo_client k !! TABLE DucklakeSnapshot =
    Some (PRIMARY_KEY DucklakeSnapshot).
Proof. destruct (contended_databases "hr" k) as [He|He]; rewrite He; vm_compute; reflexivity. Qed.

Lemma contended_exists k :
  is_Some (database_at (AROUND := contended "hr") demo_client k !! TABLE DucklakeSnapshot).
Proof.
  pose proof (contended_snapshots k) as H. destruct (_ !! _) as [t|]; [by exists t|discriminate H].
Qed.

(** The second attempt is based on snapshot 2 of the rival and creates snapshot 3. *)
Lemma commit_keeps_past_witness : exists u client' latest k snapshot,
  contended_commit "hr" = (Ok u, client') /\
  DucklakeSnapshot.snapshot_id snapshot = i64_add (SnapshotInfo.id latest) 1 /\
  ((1 < DucklakeSnapshot.snapshot_id snapshot)%Z ->
   seen (Client.db client') (TABLE DucklakeSchema) 1 =
   seen (database_at (AROUND := contended "hr") demo_client k) (TABLE DucklakeSchema) 1).
Proof.
  destruct contended_succeeds as (u & client' & Hrun).
  destruct (commit_keeps_past (AROUND := contended "hr") Dialect.Sqlite demo_transaction demo_client client' u
    demo_allowed ltac:(discriminate) contended_exists Hrun)
    as (latest & started & before & after & info & k & table0 & snapshot & _ & _ & _ & Hid & Hseen).
  exists u, client', latest, k, snapshot. split; [exact Hrun|]. split; [exact Hid|].
  intros Hs. apply Hseen; [left|exact Hs].
Defined.

Lemma commit_appends_fresh_snapshot_witness : exists u client' latest k table0 snapshot,
  contended_commit "hr" = (Ok u, client') /\
  database_at (AROUND := contended "hr") demo_client k !! TABLE DucklakeSnapshot = Some table0 /\
  DucklakeSnapshot.snapshot_id snapshot = i64_add (SnapshotInfo.id latest) 1 /\
  Client.db client' !! TABLE DucklakeSnapshot =
    Some (table0 <| DbTable.rows ::= fun rows => rows ++ [to_row snapshot] |>).
Proof.
  destruct contended_succeeds as (u & client' & Hrun).
  destruct (commit_appends_fresh_snapshot (AROUND := contended "hr") Dialect.Sqlite demo_transaction
    demo_client client' u demo_allowed ltac:(discriminate))
    as (latest & started & before & after & info & k & table0 & snapshot & _ & Hb & Hid & _ & Hdb & _).
  - intros k t Ht. pose proof (contended_snapshots k) as H. rewrite Ht in H. by injection H.
  - apply contended_exists.
  - exact Hrun.
  - exists u, client', latest, k, table0, snapshot. split; [exact Hrun|]. split; [exact Hb|].
    split; [exact Hid|exact Hdb].
Defined.
