(* ===== verification/Expire.v ===== *)
(** * Expiring snapshots ([maintenance/expire_snapshots.rs], [maintenance/utils.rs])

    Snapshots are deleted, and with them what only they could see: versions of
    catalog objects, tables none of whose versions is left, and files, which are
    scheduled for deletion. The conditions of the deletions have subqueries. *)

From S2P Require Import Prelude Text Regex Identifier Types Instances Entities CatalogColumns.
From S2P Require Import Catalog CommitState Dialect Database Load Metadata Batches.

(** ** Conditions with subqueries *)

Module Where.
Inductive t `{External} : Type :=
  | Plain (c : Cond)
  | Lt (column : string) (v : SqlValue)
  | IsNotNull (column : string)
  (* [column IN (SELECT id FROM table)] *)
  | InTable (column table : string)
  (* [column <> (SELECT MAX(column) FROM table)] *)
  | NotMax (column table : string)
  (* [NOT EXISTS (SELECT .. FROM table WHERE column >= begin AND column < end)] *)
  | NoneBetween (table column begin_ end_ : string)
  (* [NOT EXISTS (SELECT 1 FROM table WHERE table.ref_column = column)] *)
  | NotReferenced (column table ref_column : string)
  (* [NOT EXISTS (SELECT 1 FROM table WHERE table.column = column AND NOT cond)] *)
  | NoneOther (table column : string) (cond : t)
  | And (a b : t).
End Where.
Abbreviation Where := Where.t.

Section Eval.
Context `{EXT : External} `{CMP : !SqlCompare}.

Definition rows_of (db : Db) (table : string) : list row :=
  match db !! table with Some t => DbTable.rows t | None => [] end.

Lemma rows_of_insert (db : Db) table t table' :
  rows_of (<[table := t]> db) table' =
    if decide (table = table') then DbTable.rows t else rows_of (db : Db) table'.
Proof.
  unfold rows_of; case_decide as H; [by subst; rewrite lookup_insert_eq|].
  by rewrite lookup_insert_ne.
Qed.
Lemma rows_of_delete (db : Db) table table' :
  rows_of (delete table db) table' = if decide (table = table') then [] else rows_of (db : Db) table'.
Proof.
  unfold rows_of; case_decide as H; [by subst; rewrite lookup_delete_eq|].
  by rewrite lookup_delete_ne.
Qed.
Lemma rows_of_lookup (db : Db) table t : db !! table = Some t -> rows_of (db : Db) table = DbTable.rows t.
Proof. unfold rows_of; by intros ->. Qed.

(** SQL's [<] *)
Definition sql_lt (a b : SqlValue) : bool := sql_le a b && negb (sql_eq a b).

(** [<] of chrono's [DateTime<Utc>] *)
Definition before (a b : DateTimeUtc) : bool :=
  match leaf_cmp DateTimeUtc a b with Lt => true | _ => false end.

(** [SELECT MAX(column)] of an integer column *)
Definition max_int (column : string) (rows : list row) : option Z :=
  foldr (fun r acc => match field column r with
                      | SInt z => Some match acc with Some m => Z.max z m | None => z end
                      | _ => acc
                      end) None rows.

(** Where the condition is true of a row, on the database the statement sees *)
Fixpoint eval_where (db : Db) (w : Where) (r : row) : bool :=
  match w with
  | Where.Plain c => holds c r
  | Where.Lt column v => sql_lt (field column r) v
  | Where.IsNotNull column => negb (is_null (field column r))
  | Where.InTable column table =>
      existsb (fun x => sql_eq (field column r) (field "id" x)) (rows_of db table)
  | Where.NotMax column table =>
      match field column r, max_int column (rows_of db table) with
      | SInt z, Some m => negb (Z.eqb z m)
      | _, _ => false
      end
  | Where.NoneBetween table column begin_ end_ =>
      negb (existsb (fun x => sql_le (field begin_ r) (field column x) &&
                              sql_lt (field column x) (field end_ r)) (rows_of db table))
  | Where.NotReferenced column table ref_column =>
      negb (existsb (fun x => sql_eq (field ref_column x) (field column r)) (rows_of db table))
  | Where.NoneOther table column cond =>
      negb (existsb (fun x => sql_eq (field column x) (field column r) &&
                              negb (eval_where db cond x)) (rows_of db table))
  | Where.And a b => eval_where db a r && eval_where db b r
  end.
End Eval.

(** What the databases document: times are compared chronologically. *)
Class TimeCompare `{External} `{!SqlCompare} : Prop := {
  sql_lt_time a b : sql_lt (STime a) (STime b) = before a b;
}.
#[export] Instance demo_times : TimeCompare (H := demo_external).
Proof.
  constructor; intros a b; unfold sql_lt, before; cbn.
  rewrite Z.leb_compare, Z.eqb_compare; by destruct (Z.compare a b).
Qed.

(** The engine on such statements: a failure for any reason, or the effect *)
Class MaintenanceEngine `{External} `{!SqlCompare} : Type := {
  delete_where : string -> Where -> Db -> result Db;
  delete_where_effect table w db db' : delete_where table w db = Ok db' ->
    exists t, db !! table = Some t /\
      db' = <[table := t <| DbTable.rows ::=
                List.filter (fun r => negb (eval_where db w r)) |>]> db;
  select_where : string -> Where -> Db -> result (list row);
  select_where_rows table w db rows : select_where table w db = Ok rows ->
    exists t, db !! table = Some t /\
      rows ≡ₚ List.filter (eval_where db w) (DbTable.rows t);
  drop_table : string -> Db -> result Db;
  drop_table_effect table db db' : drop_table table db = Ok db' ->
    is_Some (db !! table) /\ db' = delete table db;
}.

(** The engine that never fails without a reason *)
Definition no_such_table `{External} : DucklakeError := Database false false "no such table".
Definition demo_delete_where (table : string) (w : Where) (db : Db) : result Db :=
  match db !! table with
  | Some t => Ok (<[table := t <| DbTable.rows ::=
                List.filter (fun r => negb (eval_where db w r)) |>]> db)
  | None => Err no_such_table
  end.
Definition demo_select_where (table : string) (w : Where) (db : Db) : result (list row) :=
  match db !! table with
  | Some t => Ok (List.filter (eval_where db w) (DbTable.rows t))
  | None => Err no_such_table
  end.
Definition demo_drop_table (table : string) (db : Db) : result Db :=
  match db !! table with Some _ => Ok (delete table db) | None => Err no_such_table end.

Lemma demo_delete_where_effect table w db db' : demo_delete_where table w db = Ok db' ->
  exists t, db !! table = Some t /\
    db' = <[table := t <| DbTable.rows ::=
              List.filter (fun r => negb (eval_where db w r)) |>]> db.
Proof. unfold demo_delete_where; destruct (db !! table); [intros [= <-]; eauto|done]. Qed.
Lemma demo_select_where_rows table w db rows : demo_select_where table w db = Ok rows ->
  exists t, db !! table = Some t /\
    rows ≡ₚ List.filter (eval_where db w) (DbTable.rows t).
Proof. unfold demo_select_where; destruct (db !! table); [intros [= <-]; eauto|done]. Qed.
Lemma demo_drop_table_effect table db db' : demo_drop_table table db = Ok db' ->
  is_Some (db !! table) /\ db' = delete table db.
Proof. unfold demo_drop_table; destruct (db !! table); [intros [= <-]; eauto|done]. Qed.

#[export] Instance demo_maintenance : MaintenanceEngine := {|
  delete_where := demo_delete_where;
  delete_where_effect := demo_delete_where_effect;
  select_where := demo_select_where;
  select_where_rows := demo_select_where_rows;
  drop_table := demo_drop_table;
  drop_table_effect := demo_drop_table_effect;
|}.

Inductive DryRun : Type := Yes | No.

(** [SnapshotMetadata] *)
Module SnapshotMetadata.
Record t `{External} : Type := mk { id : Z; timestamp : DateTimeUtc }.
#[global] Arguments mk {_} id timestamp.
Definition from_snapshot `{External} (s : DucklakeSnapshot) : t :=
  mk (DucklakeSnapshot.snapshot_id s) (DucklakeSnapshot.snapshot_time s).
End SnapshotMetadata.

Definition VERSION_ID_LOOKUP_TABLE : string := "__ducklake_expired_version_ids".
Definition SNAPSHOT_ID_LOOKUP_TABLE : string := "__ducklake_expired_snapshot_ids".
Definition TABLE_ID_LOOKUP_TABLE : string := "__ducklake_expired_table_ids".
Definition DATA_FILE_ID_LOOKUP_TABLE : string := "__ducklake_expired_data_file_ids".

(** ** Lookup tables ([utils.rs]) *)

Module Maintenance.
Section Maintenance.
Context `{EXT : External} `{CMP : !SqlCompare} `{ENGINE : !SqlEngine} `{MAINT : !MaintenanceEngine}.
Context (dialect : Dialect).

Definition delete_rows_where (table : string) (w : Where) : method Db unit :=
  fun db => match delete_where table w db with
            | Ok db' => (Ok tt, db') | Err e => (Err e, db) | Panic => (Panic, db)
            end.
Definition drop (table : string) : method Db unit :=
  fun db => match drop_table table db with
            | Ok db' => (Ok tt, db') | Err e => (Err e, db) | Panic => (Panic, db)
            end.
Definition fetch_where (table : string) (w : Where) : method Db (list row) :=
  db ← st_get; st_lift (select_where table w db).

(** Decoding a column of a selected row *)
Definition decode {A} `{!ToSql A} (column : string) (r : row) : result A :=
  ok_or (Database false false "column decoding error") (get_column column r).

Definition column_type_i64 : ColumnType :=
  match dialect with Dialect.Sqlite => ColumnType.Custom "bigint" | _ => ColumnType.BigInteger end.

Definition new_lookup (name : string) (ids : list Z) : method Db unit :=
  Tx.exec (Statement.CreateTable name [("id", column_type_i64)] None false) ;;
  Tx.insert_rows dialect name ["id"] ((fun id => [to_sql id]) <$> ids).

Definition condition_is_in (column lookup : string) : Where := Where.InTable column lookup.

(** ** Conditions *)

Definition condition_inactive_snapshot : Where :=
  Where.And (Where.IsNotNull "end_snapshot")
    (Where.NoneBetween (TABLE DucklakeSnapshot) "snapshot_id" "begin_snapshot" "end_snapshot").
Definition condition_not_exists_in_reference (column table ref_column : string) : Where :=
  Where.NotReferenced column table ref_column.

Inductive SnapshotFilter : Type :=
  | OlderThan (timestamp : DateTimeUtc)
  | Versions (versions : list Z).

(** The condition, and the lookup table it created *)
Definition filter_condition (f : SnapshotFilter) : method Db (Where * option string) :=
  match f with
  | OlderThan timestamp => mret (Where.Lt "snapshot_time" (to_sql timestamp), None)
  | Versions versions =>
      new_lookup VERSION_ID_LOOKUP_TABLE versions ;;
      mret (condition_is_in "snapshot_id" VERSION_ID_LOOKUP_TABLE, Some VERSION_ID_LOOKUP_TABLE)
  end.

(** ** Snapshots *)

Definition find_expired_snapshots (f : SnapshotFilter) : method Db (list DucklakeSnapshot) :=
  '(condition, version_lookup) ← filter_condition f;
  rows ← fetch_where (TABLE DucklakeSnapshot)
           (Where.And condition (Where.NotMax "snapshot_id" (TABLE DucklakeSnapshot)));
  snapshots ← st_lift (Tx.decode_rows rows);
  st_when_some drop version_lookup ;;
  mret snapshots.

Definition delete_snapshots (snapshot_ids : string) : method Db unit :=
  delete_rows_where (TABLE DucklakeSnapshot) (condition_is_in "snapshot_id" snapshot_ids).

(** ** Tables *)

(** [SELECT DISTINCT table_id]: every version of the table is out of reach. *)
Definition find_expired_tables : method Db unit :=
  rows ← fetch_where (TABLE DucklakeTable)
           (Where.And condition_inactive_snapshot
              (Where.NoneOther (TABLE DucklakeTable) "table_id" condition_inactive_snapshot));
  table_ids ← st_lift (map_outcome (decode "table_id") rows);
  new_lookup TABLE_ID_LOOKUP_TABLE (remove_dups table_ids).

(** The tables whose rows belong to a table, by [table_id] *)
Definition table_dependents : list string :=
  [TABLE DucklakeColumnMapping; TABLE DucklakeColumnTag; TABLE DucklakeColumn;
   TABLE DucklakeInlinedDataTables; TABLE DucklakePartitionColumn; TABLE DucklakePartitionInfo;
   TABLE DucklakeSchemaVersions; TABLE DucklakeSortExpression; TABLE DucklakeSortInfo;
   TABLE DucklakeTableColumnStats; TABLE DucklakeTableStats; TABLE DucklakeTable].

Definition delete_tables (table_ids : string) : method Db unit :=
  rows ← fetch_where (TABLE DucklakeInlinedDataTables) (condition_is_in "table_id" table_ids);
  inlined_data_tables ← st_lift (map_outcome (decode "table_name") rows);
  st_for drop inlined_data_tables ;;
  st_for (fun table => delete_rows_where table (condition_is_in "table_id" table_ids))
    table_dependents.

(** ** Files *)

Record ExpiredFile : Type := mk_file {
  file_id : Z; file_table_id : Z; file_path : string; file_path_is_relative : bool;
}.
Definition expired_file (id_column : string) (r : row) : result ExpiredFile :=
  id ← decode id_column r;
  table_id ← decode "table_id" r;
  path ← decode "path" r;
  path_is_relative ← decode "path_is_relative" r;
  mret (mk_file id table_id path path_is_relative).

Definition join_paths (base : DucklakePath) (schema table : string * bool) : result DucklakePath :=
  schema_path ← infallible (DucklakePath.new schema.1 schema.2);
  table_path ← infallible (DucklakePath.new table.1 table.2);
  path ← infallible (DucklakePath.join base schema_path);
  infallible (DucklakePath.join path table_path).

(** A version of the table joined with a version of its schema; the first row
    of the result is taken. *)
Definition query_table_data_path (table_id : Z) (base_data_path : DucklakePath) (db : Db)
    : result DucklakePath :=
  tables ← select (TABLE DucklakeTable) (Cond.Eq "table_id" (to_sql table_id)) db;
  schemas ← select (TABLE DucklakeSchema) any_row db;
  let joined := tables ≫= fun t =>
    (fun s => (s, t)) <$> List.filter (fun s => sql_eq (field "schema_id" s) (field "schema_id" t))
                            schemas in
  '(s, t) ← ok_or (Database false false "no rows returned by a query") (head joined);
  schema_path ← decode "path" s;
  schema_relative ← decode "path_is_relative" s;
  table_path ← decode "path" t;
  table_relative ← decode "path_is_relative" t;
  join_paths base_data_path (schema_path, schema_relative) (table_path, table_relative).

(** The data path of a table, from the catalog if it has the table *)
Definition expired_table_path (catalog : Catalog) (data_path : DucklakePath) (db : Db) (table_id : Z)
    : result DucklakePath :=
  match Catalog.table_by_id catalog table_id with
  | Ok r => Catalog.table_data_path catalog r data_path
  | _ => query_table_data_path table_id data_path db
  end.

Definition strip_prefix (prefix s : string) : option string :=
  if String.prefix prefix s then Some (String.substring (String.length prefix)
    (String.length s - String.length prefix) s) else None.

Definition build_deletion_file_path (path : DucklakePath) (table_id : Z)
    (path_by_table_id : gmap Z DucklakePath) (base_data_path : DucklakePath) : result DucklakePath :=
  if DucklakePath.is_absolute path then mret path
  else
    table_data_path ← unwrap (path_by_table_id !! table_id);
    full_path ← infallible (DucklakePath.join table_data_path path);
    mret match strip_prefix (DucklakePath.as_str base_data_path) (DucklakePath.as_str full_path) with
         | Some suffix => DucklakePath.Relative suffix
         | None => full_path
         end.

Definition scheduled_file (now : DateTimeUtc) (path_by_table_id : gmap Z DucklakePath)
    (data_path : DucklakePath) (f : ExpiredFile) : result DucklakeFilesScheduledForDeletion :=
  path ← infallible (DucklakePath.new (file_path f) (file_path_is_relative f));
  full_path ← build_deletion_file_path path (file_table_id f) path_by_table_id data_path;
  mret (DucklakeFilesScheduledForDeletion.mk (file_id f) (DucklakePath.as_str full_path)
          (DucklakePath.is_relative full_path) now).

Definition find_expired_files (table id_column : string) : method Db (list ExpiredFile) :=
  rows ← fetch_where table condition_inactive_snapshot;
  st_lift (map_outcome (expired_file id_column) rows).

Definition mark_data_files_for_deletion (catalog : Catalog) (data_path : DucklakePath)
    (now : DateTimeUtc) : method Db unit :=
  data_files ← find_expired_files (TABLE DucklakeDataFile) "data_file_id";
  delete_files ← find_expired_files (TABLE DucklakeDeleteFile) "delete_file_id";
  let expired := data_files ++ delete_files in
  db ← st_get;
  paths ← st_lift (map_outcome (fun table_id =>
            path ← expired_table_path catalog data_path db table_id; mret (table_id, path))
            (unique (file_table_id <$> expired)));
  scheduled ← st_lift (map_outcome (scheduled_file now (list_to_map paths) data_path) expired);
  Tx.insert_entities dialect scheduled ;;
  new_lookup DATA_FILE_ID_LOOKUP_TABLE (file_id <$> expired) ;;
  delete_rows_where (TABLE DucklakeDataFile)
    (condition_is_in "data_file_id" DATA_FILE_ID_LOOKUP_TABLE) ;;
  delete_rows_where (TABLE DucklakeDeleteFile)
    (condition_is_in "delete_file_id" DATA_FILE_ID_LOOKUP_TABLE) ;;
  drop DATA_FILE_ID_LOOKUP_TABLE.

(** ** Other catalog objects *)

Definition delete_from_catalog_table (table : string) : method Db unit :=
  delete_rows_where table condition_inactive_snapshot.
Definition delete_from_dependent_table (table ref_table column : string) : method Db unit :=
  delete_rows_where table (condition_not_exists_in_reference column ref_table column).
Definition delete_scoped_metadata (scope ref_table column : string) : method Db unit :=
  delete_rows_where (TABLE DucklakeMetadata)
    (Where.And (Where.Plain (Cond.Eq "scope" (to_sql scope)))
       (condition_not_exists_in_reference "scope_id" ref_table column)).

Definition delete_expired_catalog_objects : method Db unit :=
  st_for delete_from_catalog_table
    [TABLE DucklakeSchema; TABLE DucklakeTag; TABLE DucklakeMacro; TABLE DucklakeView] ;;
  delete_from_dependent_table (TABLE DucklakeSnapshotChanges) (TABLE DucklakeSnapshot) "snapshot_id" ;;
  delete_from_dependent_table (TABLE DucklakeNameMapping) (TABLE DucklakeColumnMapping) "mapping_id" ;;
  delete_from_dependent_table (TABLE DucklakeMacroImpl) (TABLE DucklakeMacro) "macro_id" ;;
  delete_from_dependent_table (TABLE DucklakeMacroParameters) (TABLE DucklakeMacro) "macro_id" ;;
  delete_from_dependent_table (TABLE DucklakeFileColumnStats) (TABLE DucklakeDataFile) "data_file_id" ;;
  delete_from_dependent_table (TABLE DucklakeFileVariantStats) (TABLE DucklakeDataFile) "data_file_id" ;;
  delete_from_dependent_table (TABLE DucklakeFilePartitionValue) (TABLE DucklakeDataFile)
    "data_file_id" ;;
  delete_scoped_metadata "table" (TABLE DucklakeTable) "table_id" ;;
  delete_scoped_metadata "schema" (TABLE DucklakeSchema) "schema_id".

(** ** Orchestration *)

Definition expire_snapshots (catalog : Catalog) (data_path : DucklakePath) (now : DateTimeUtc)
    (snapshot_ids : string) : method Db unit :=
  delete_snapshots snapshot_ids ;;
  find_expired_tables ;;
  mark_data_files_for_deletion catalog data_path now ;;
  delete_tables TABLE_ID_LOOKUP_TABLE ;;
  delete_expired_catalog_objects ;;
  drop TABLE_ID_LOOKUP_TABLE.

(** The body of the database transaction; [catalog] is there unless it is a dry
    run. *)
Definition expire_in_transaction (catalog : option Catalog) (metadata : Metadata)
    (now : DateTimeUtc) (f : SnapshotFilter) : method Db (list DucklakeSnapshot) :=
  snapshots ← find_expired_snapshots f;
  st_when_some (fun catalog =>
    data_path ← st_lift (Metadata.data_path metadata);
    new_lookup SNAPSHOT_ID_LOOKUP_TABLE (DucklakeSnapshot.snapshot_id <$> snapshots) ;;
    expire_snapshots catalog data_path now SNAPSHOT_ID_LOOKUP_TABLE ;;
    drop SNAPSHOT_ID_LOOKUP_TABLE) catalog ;;
  mret snapshots.

(** A database transaction around [m]: [BEGIN], and [COMMIT] or [ROLLBACK] with
    the answers of the database. What it writes comes after the creation of a lookup
    table. *)
Definition in_transaction {A} (begin_error end_error : option DucklakeError) (commit : bool)
    (m : method Db A) : method Db A :=
  fun db =>
    match begin_error with
    | Some e => (Err e, db)
    | None =>
        match m db with
        | (Ok a, db') =>
            match end_error with
            | Some e => (Err e, left_behind dialect true db db')
            | None => (Ok a, if commit then db' else left_behind dialect true db db')
            end
        | (res, db') => (res, left_behind dialect true db db')
        end
    end.

(** [latest] is the catalog of the latest snapshot of a writable connection. *)
Definition expire_snapshots_filtered (begin_error end_error : option DucklakeError)
    (latest : result Catalog) (metadata : Metadata) (now : DateTimeUtc)
    (f : SnapshotFilter) (dry_run : DryRun) : method Db (list SnapshotMetadata.t) :=
  catalog ← st_lift (match dry_run with
                     | No => c ← latest; mret (Some c)
                     | Yes => mret None
                     end);
  snapshots ← in_transaction begin_error end_error
                (match dry_run with No => true | Yes => false end)
                (expire_in_transaction catalog metadata now f);
  mret (SnapshotMetadata.from_snapshot <$> snapshots).

(** [Ducklake::expire_snapshots]: [ago] is the current time less an interval. *)
Definition expire_configured `{!ValueText} (ago : Interval.t -> DateTimeUtc)
    (begin_error end_error : option DucklakeError)
    (latest : result Catalog) (metadata : Metadata) (now : DateTimeUtc) (dry_run : DryRun)
    : method Db (list SnapshotMetadata.t) :=
  match Metadata.expire_older_than metadata with
  | None => mret []
  | Some interval =>
      expire_snapshots_filtered begin_error end_error latest metadata now
        (OlderThan (ago interval)) dry_run
  end.

(** [expire_snapshots_versions] and [expire_snapshots_older_than] *)
Definition expire_snapshots_versions (begin_error end_error : option DucklakeError)
    (latest : result Catalog) (metadata : Metadata) (now : DateTimeUtc) (versions : list Z)
    (dry_run : DryRun) : method Db (list SnapshotMetadata.t) :=
  expire_snapshots_filtered begin_error end_error latest metadata now (Versions versions) dry_run.
Definition expire_snapshots_older_than (begin_error end_error : option DucklakeError)
    (latest : result Catalog) (metadata : Metadata) (now : DateTimeUtc) (timestamp : DateTimeUtc)
    (dry_run : DryRun) : method Db (list SnapshotMetadata.t) :=
  expire_snapshots_filtered begin_error end_error latest metadata now (OlderThan timestamp) dry_run.
End Maintenance.
End Maintenance.

(** An element is known by a value that no two have. *)
Lemma elem_of_once {A B} (f : A -> B) (rows : list A) r r' :
  NoDup (f <$> rows) -> r ∈ rows -> r' ∈ rows -> f r = f r' -> r = r'.
Proof.
  intros Hnd [i Hi]%list_elem_of_lookup [j Hj]%list_elem_of_lookup Heq.
  assert (i = j) as ->; [|congruence].
  eapply (NoDup_lookup (f <$> rows) i j (f r)); [done|..]; rewrite list_lookup_fmap.
  - by rewrite Hi.
  - by rewrite Hj, Heq.
Qed.

(** Columns of integers *)
Lemma get_column_Z `{External} column r (z : Z) :
  get_column column r = Some z -> field column r = SInt z.
Proof.
  unfold get_column, field; destruct (IndexMap.get column r) as [v|]; [|done].
  by destruct v; cbn; intros [= ->].
Qed.
Lemma decode_Z `{External} column r (z : Z) : Maintenance.decode column r = Ok z -> field column r = SInt z.
Proof.
  unfold Maintenance.decode; destruct (get_column column r) eqn:E; [|done]; intros [= ->].
  by apply get_column_Z.
Qed.

(** ** What the statements that succeed have done *)

Section Statements.
Context `{EXT : External} `{CMP : !SqlCompare} `{ENGINE : !SqlEngine} `{MAINT : !MaintenanceEngine}.
Implicit Types db : Db.

Lemma new_lookup_Ok dialect name ids db u db' :
  Maintenance.new_lookup dialect name ids db = (Ok u, db') ->
  rows_of db' name = (fun z => [("id", SInt z)]) <$> ids /\
  forall table, table <> name -> db' !! table = db !! table.
Proof.
  unfold Maintenance.new_lookup; intros ([] & db1 & He%exec_Ok & Hi)%bind_Ok.
  cbn [effect] in He; destruct (db !! name) as [t|] eqn:Ht; [done|].
  case_bool_decide; [|done]; injection He as <-.
  apply insert_rows_Ok in Hi; [|by destruct dialect]; case_decide as Hnil.
  - subst db'; split; [|intros; by rewrite lookup_insert_ne].
    apply fmap_nil_inv in Hnil as ->; by rewrite rows_of_insert, decide_True.
  - destruct Hi as (t & Htab & _ & ->); rewrite lookup_insert_eq in Htab; injection Htab as <-.
    split; [|intros; by rewrite !lookup_insert_ne].
    rewrite rows_of_insert, decide_True by done; cbn.
    by rewrite <- list_fmap_compose.
Qed.

Lemma delete_rows_where_Ok table w db u db' :
  Maintenance.delete_rows_where table w db = (Ok u, db') ->
  rows_of db' table = List.filter (fun r => negb (eval_where db w r)) (rows_of db table) /\
  forall table', table' <> table -> db' !! table' = db !! table'.
Proof.
  unfold Maintenance.delete_rows_where; destruct (delete_where table w db) as [d| |] eqn:E; [|done..].
  intros [= _ ->]; apply delete_where_effect in E as (t & Ht & ->); split.
  - rewrite rows_of_insert, decide_True by done; by rewrite (rows_of_lookup _ _ _ Ht).
  - intros table' Hne; by rewrite lookup_insert_ne.
Qed.

Lemma drop_Ok table db u db' :
  Maintenance.drop table db = (Ok u, db') -> db' = delete table db.
Proof.
  unfold Maintenance.drop; destruct (drop_table table db) as [d| |] eqn:E; [|done..].
  intros [= _ ->]; by apply drop_table_effect in E as [_ ->].
Qed.

(** Being in a lookup table of IDs *)
Lemma in_lookup db name ids column r (v : Z) :
  rows_of db name = (fun z => [("id", SInt z)]) <$> ids -> field column r = SInt v ->
  eval_where db (Maintenance.condition_is_in column name) r = bool_decide (v ∈ ids).
Proof.
  intros Hids Hv; cbn; rewrite Hids, Hv; apply eq_bool_prop_intro; rewrite bool_decide_spec.
  rewrite Is_true_true, existsb_exists; split.
  - intros (y & (z & -> & Hz)%list_elem_of_In%list_elem_of_fmap & Heq).
    change (field "id" [("id", SInt z)]) with (SInt z) in Heq.
    by rewrite sql_eq_int in Heq; apply Z.eqb_eq in Heq as ->.
  - intros Hin; exists [("id", SInt v)]; split.
    + apply list_elem_of_In, list_elem_of_fmap; by exists v.
    + change (field "id" [("id", SInt v)]) with (SInt v); by rewrite sql_eq_int, Z.eqb_refl.
Qed.
End Statements.
