(* ===== verification/ExpireFacts.v ===== *)
(** * What expiring snapshots keeps

    [kept s db]: the invariant of the whole operation for a snapshot [s] that is
    not expired: the snapshot is there, its rows of every versioned table are
    those of the start, and no lookup table names anything it can see. *)

From S2P Require Import Prelude Triple Text Regex Identifier Types Instances Entities.
From S2P Require Import CatalogColumns Catalog TableStats CommitState Dialect TransactionChanges.
From S2P Require Import Executors Database Load Metadata Batches Persist Stamps History Transactions Commit Demo Expire.

(** ** Statements under any invariant *)

Section Frames.
Context `{EXT : External} `{CMP : !SqlCompare} `{ENGINE : !SqlEngine} `{MAINT : !MaintenanceEngine}.
Context (dialect : Dialect) (I : Db -> Prop).

Lemma triple_exec st :
  (forall db db', I db -> effect st db = Some db' -> I db') -> triple I (Tx.exec st) any.
Proof.
  intros He db Hk; split; [|done]; unfold Tx.exec.
  destruct (execute st db) eqn:E; [|done..]; cbn; apply execute_effect in E; eauto.
Qed.

Lemma triple_insert_rows table columns rows :
  (forall db t chunk, I db -> db !! table = Some t -> chunk ⊆ rows ->
     I (<[table := t <| DbTable.rows := DbTable.rows t ++ (zip columns <$> chunk) |>]> db)) ->
  triple I (Tx.insert_rows dialect table columns rows) any.
Proof.
  intros Hi; assert (Hinsert : forall chunk st, chunk ⊆ rows ->
    st = Statement.Insert table columns chunk \/ st = Statement.Copy table columns chunk ->
    triple I (Tx.exec st) any).
  { intros chunk st Hchunk Hst; apply triple_exec; intros db db' Hk He.
    destruct Hst as [-> | ->]; cbn [effect] in He;
      apply update_rows_of_Some in He as (t & ? & _ & ->); by apply Hi. }
  unfold Tx.insert_rows; case_decide; [by apply triple_ret|]; case_decide; [by apply triple_panic|].
  cbv zeta; case_match; [by apply (Hinsert rows); [done|right]|].
  apply triple_for; intros chunk Hc; apply (Hinsert chunk); [by eapply chunks_elem|by left].
Qed.

Lemma triple_create_lookup name ids :
  (forall db t, I db -> (db !! name = None \/ is_Some (db !! name)) ->
     (forall y, y ∈ DbTable.rows t -> y ∈ rows_of db name \/ exists z, z ∈ ids /\ y = [("id", SInt z)]) ->
     I (<[name := t]> db)) ->
  triple I (Maintenance.new_lookup dialect name ids) any.
Proof.
  intros Hi; unfold Maintenance.new_lookup; eapply triple_bind.
  - apply triple_exec; intros db db' Hk; cbn [effect].
    destruct (db !! name) as [t|] eqn:Ht; [done|]; case_bool_decide; [|done]; intros [= <-].
    apply Hi; [done|by left|]; cbn; by intros y ?%elem_of_nil.
  - intros _ _; apply triple_insert_rows; intros db t chunk Hk Ht Hchunk.
    apply Hi; [done|by right; eexists|]; cbn; intros y [Hy|Hy]%elem_of_app.
    + left; unfold rows_of; by rewrite Ht.
    + apply list_elem_of_fmap in Hy as (values & -> & Hv%Hchunk).
      apply list_elem_of_fmap in Hv as (z & -> & Hz); right; by exists z.
Qed.
End Frames.

Section Expire.
Context `{EXT : External} `{CMP : !SqlCompare} `{ENGINE : !SqlEngine} `{MAINT : !MaintenanceEngine}.
Context (dialect : Dialect) (db0 : Db) (s : Z).
Implicit Types db : Db.

Definition SNAPSHOT : string := TABLE DucklakeSnapshot.
Definition lookups : list string :=
  [SNAPSHOT_ID_LOOKUP_TABLE; TABLE_ID_LOOKUP_TABLE; DATA_FILE_ID_LOOKUP_TABLE].
Definition child_tables : list string :=
  [TABLE DucklakeColumn; TABLE DucklakeColumnTag; TABLE DucklakePartitionInfo;
   TABLE DucklakeSortInfo; TABLE DucklakeTable].

(** *** What holds of a catalog database *)

(** A row of a table's part is seen together with the table. *)
Definition children_visible : Prop :=
  forall table r, table ∈ child_tables -> r ∈ rows_of db0 table -> row_visible s r = true ->
    exists t r', field "table_id" r = SInt t /\ r' ∈ rows_of db0 (TABLE DucklakeTable) /\
      row_visible s r' = true /\ field "table_id" r' = SInt t.

(** Data files and delete files have distinct IDs. *)
Definition file_ids : list SqlValue :=
  (field "data_file_id" <$> rows_of db0 (TABLE DucklakeDataFile)) ++
  (field "delete_file_id" <$> rows_of db0 (TABLE DucklakeDeleteFile)).
Definition files_numbered : Prop := exists ids, file_ids = SInt <$> ids /\ NoDup ids.

(** Inlined data is in tables of its own. *)
Definition inlined_tables_apart : Prop :=
  forall r n, r ∈ rows_of db0 (TABLE DucklakeInlinedDataTables) ->
    field "table_name" r = SText n -> n ∉ SNAPSHOT :: TABLE DucklakeInlinedDataTables :: versioned_tables.

(** *** The invariant *)

Definition lookup_ok (name : string) (z : Z) : Prop :=
  (name = SNAPSHOT_ID_LOOKUP_TABLE -> z <> s) /\
  (name = TABLE_ID_LOOKUP_TABLE -> forall r, r ∈ rows_of db0 (TABLE DucklakeTable) ->
     row_visible s r = true -> field "table_id" r <> SInt z) /\
  (name = DATA_FILE_ID_LOOKUP_TABLE ->
     (forall r, r ∈ rows_of db0 (TABLE DucklakeDataFile) -> row_visible s r = true ->
        field "data_file_id" r <> SInt z) /\
     (forall r, r ∈ rows_of db0 (TABLE DucklakeDeleteFile) -> row_visible s r = true ->
        field "delete_file_id" r <> SInt z)).

Record kept db : Prop := {
  kept_snapshot : exists x, x ∈ rows_of db SNAPSHOT /\ field "snapshot_id" x = SInt s;
  kept_seen table : table ∈ versioned_tables ->
    List.filter (row_visible s) (rows_of db table) = List.filter (row_visible s) (rows_of db0 table);
  kept_rows table : table ∈ TABLE DucklakeInlinedDataTables :: versioned_tables ->
    rows_of db table ⊆ rows_of db0 table;
  kept_lookups name y : name ∈ lookups -> y ∈ rows_of db name ->
    exists z, field "id" y = SInt z /\ lookup_ok name z;
}.

(** The rows of the tables that matter are those of another database. *)
Lemma kept_same db db' :
  kept db -> (forall table, table ∈ SNAPSHOT :: TABLE DucklakeInlinedDataTables :: versioned_tables ->
                rows_of db' table = rows_of db table) ->
  (forall name y, name ∈ lookups -> y ∈ rows_of db' name ->
     exists z, field "id" y = SInt z /\ lookup_ok name z) -> kept db'.
Proof.
  intros [Hs Hv Hr Hl] Hsame Hlook; split; auto.
  - rewrite Hsame by (by left); done.
  - intros table Ht; rewrite Hsame by (by do 2 right); by apply Hv.
  - intros table Ht; rewrite Hsame by (by right); by apply Hr.
Qed.

(** A row that the snapshot sees was there at the start. *)
Lemma kept_visible db table r :
  kept db -> table ∈ versioned_tables -> r ∈ rows_of db table -> r ∈ rows_of db0 table.
Proof. intros [_ _ Hr _] Ht; apply Hr; by right. Qed.
Lemma visible_kept db table r :
  kept db -> table ∈ versioned_tables -> r ∈ rows_of db0 table -> row_visible s r = true ->
  r ∈ rows_of db table.
Proof.
  intros [_ Hv _ _] Ht Hin Hvis.
  assert (r ∈ List.filter (row_visible s) (rows_of db0 table)) as Hf by by apply elem_of_filter_bool.
  rewrite <- Hv in Hf by done; by apply elem_of_filter_bool in Hf as [? _].
Qed.

(** *** Conditions that spare what the snapshot sees *)

Lemma active_for_snapshot db r :
  kept db -> row_visible s r = true ->
  eval_where db Maintenance.condition_inactive_snapshot r = false.
Proof.
  intros [(x & Hx & Hid) _ _ _] Hv; cbn [eval_where Maintenance.condition_inactive_snapshot].
  unfold row_visible in Hv.
  destruct (field "begin_snapshot" r) as [| |b| | |] eqn:Hb; try done.
  destruct (field "end_snapshot" r) as [| |e| | |] eqn:He; try done; cbn [is_null negb andb].
  unfold filter_for_snapshot in Hv; apply andb_prop in Hv as [Hbs Hse].
  apply negb_false_iff, existsb_exists; exists x; split; [by apply list_elem_of_In|].
  unfold sql_lt; rewrite Hid, !sql_le_int, sql_eq_int.
  apply Z.leb_le in Hbs; apply Z.ltb_lt in Hse.
  apply andb_true_intro; split; [by apply Z.leb_le|].
  apply andb_true_intro; split; [apply Z.leb_le; lia|]; apply negb_true_iff, Z.eqb_neq; lia.
Qed.

Lemma not_in_lookup db name column r :
  kept db -> name ∈ lookups ->
  (exists v, field column r = SInt v /\ forall z, lookup_ok name z -> v <> z) ->
  eval_where db (Maintenance.condition_is_in column name) r = false.
Proof.
  intros Hk Hn (v & Hv & Hfree); cbn; rewrite Hv; apply not_true_iff_false.
  rewrite existsb_exists; intros (y & Hy & Heq); apply list_elem_of_In in Hy.
  destruct (kept_lookups _ Hk name y Hn Hy) as (z & Hz & Hok).
  rewrite Hz, sql_eq_int in Heq; apply Z.eqb_eq in Heq; by apply (Hfree z).
Qed.

(** *** Statements *)

Lemma triple_delete table w :
  table <> SNAPSHOT -> (table ∈ versioned_tables -> forall db r, kept db -> r ∈ rows_of db table ->
     row_visible s r = true -> eval_where db w r = false) ->
  triple kept (Maintenance.delete_rows_where table w) any.
Proof.
  intros Hs Hw db Hk; split; [|done]; unfold Maintenance.delete_rows_where.
  destruct (delete_where table w db) as [db'| |] eqn:E; [|done..]; cbn.
  apply delete_where_effect in E as (t & Ht & ->).
  pose proof (rows_of_lookup _ _ _ Ht) as Hrows.
  destruct Hk as [Hsnap Hv Hr Hl] eqn:Hk'; clear Hk'; split.
  - rewrite rows_of_insert, decide_False by done; done.
  - intros table' Ht'; rewrite rows_of_insert; case_decide as Heq; [|by apply Hv]; subst table'.
    cbn; rewrite filter_bool_filter, <- Hrows, <- (Hv _ Ht'); apply filter_bool_ext.
    intros r Hin; destruct (row_visible s r) eqn:Hvis; [|by rewrite andb_false_r].
    rewrite (Hw Ht' db r) by (done || by split); done.
  - intros table' Ht'; rewrite rows_of_insert; case_decide as Heq; [|by apply Hr]; subst table'.
    cbn; rewrite <- Hrows; etrans; [|by apply Hr]; intros r Hin.
    by apply elem_of_filter_bool in Hin as [? _].
  - intros name y Hn; rewrite rows_of_insert; case_decide as Heq; [|by apply Hl]; subst name.
    cbn; rewrite <- Hrows; intros [Hy _]%elem_of_filter_bool; by apply Hl.
Qed.

Lemma lookup_apart name : name ∈ lookups ->
  name ∉ SNAPSHOT :: TABLE DucklakeInlinedDataTables :: versioned_tables.
Proof.
  intros Hn; assert (Forall (fun n =>
    n ∉ SNAPSHOT :: TABLE DucklakeInlinedDataTables :: versioned_tables) lookups) as Hall.
  { apply (bool_decide_unpack _); vm_compute; exact I. }
  rewrite List.Forall_forall in Hall; apply Hall; by apply list_elem_of_In.
Qed.

Lemma triple_insert table columns rows :
  table ∉ lookups ++ SNAPSHOT :: TABLE DucklakeInlinedDataTables :: versioned_tables ->
  triple kept (Tx.insert_rows dialect table columns rows) any.
Proof.
  intros [Hl Ht]%not_elem_of_app; apply triple_insert_rows; intros db t chunk Hk Htab _.
  apply (kept_same db); [done| |].
  - intros table' Hin; rewrite rows_of_insert, decide_False; [done|by intros ->].
  - intros name y Hn; rewrite rows_of_insert, decide_False; [by apply kept_lookups|by intros ->].
Qed.

Lemma triple_new_lookup name ids :
  name ∉ SNAPSHOT :: TABLE DucklakeInlinedDataTables :: versioned_tables ->
  (name ∈ lookups -> Forall (lookup_ok name) ids) ->
  triple kept (Maintenance.new_lookup dialect name ids) any.
Proof.
  intros Hn Hids; apply triple_create_lookup; intros db t Hk _ Hrows.
  apply (kept_same db); [done| |].
  - intros table' Hin; rewrite rows_of_insert, decide_False; [done|by intros ->].
  - intros name' y Hn'; rewrite rows_of_insert; case_decide as Heq; [|by apply (kept_lookups db)].
    subst name'; intros [Hy|(z & Hz & ->)]%Hrows; [by apply (kept_lookups db)|].
    exists z; split; [done|]; specialize (Hids Hn'); rewrite List.Forall_forall in Hids.
    by apply Hids, list_elem_of_In.
Qed.

Lemma triple_drop name :
  name ∉ SNAPSHOT :: TABLE DucklakeInlinedDataTables :: versioned_tables ->
  triple kept (Maintenance.drop name) any.
Proof.
  intros Hn db Hk; split; [|done]; unfold Maintenance.drop.
  destruct (drop_table name db) as [db'| |] eqn:E; [|done..]; cbn.
  apply drop_table_effect in E as [_ ->]; apply (kept_same db); [done| |].
  - intros table Ht; rewrite rows_of_delete, decide_False; [done|by intros ->].
  - intros name' y Hn'; rewrite rows_of_delete; case_decide; [by intros ?%elem_of_nil|].
    by apply (kept_lookups db).
Qed.

(** The rows a query answers, on a database that keeps the snapshot *)
Lemma triple_fetch table w :
  triple kept (Maintenance.fetch_where table w) (fun rows => exists db, kept db /\
    rows ≡ₚ List.filter (eval_where db w) (rows_of db table)).
Proof.
  unfold Maintenance.fetch_where; eapply triple_bind; [apply triple_get|]; intros db Hk; cbv beta.
  apply triple_lift; intros rows Hrows.
  apply select_where_rows in Hrows as (t & Ht & Hrows); exists db; split; [done|].
  by rewrite (rows_of_lookup _ _ _ Ht).
Qed.

(** *** The steps *)

Lemma decode_text column r n : Maintenance.decode column r = Ok n -> field column r = SText n.
Proof.
  unfold Maintenance.decode, get_column, field; destruct (IndexMap.get column r) as [v|]; [|done].
  by destruct v; cbn; intros [= ->].
Qed.

Context (Hchildren : children_visible) (Hfiles : files_numbered) (Hinlined : inlined_tables_apart).

Lemma triple_find_expired_tables : triple kept (Maintenance.find_expired_tables dialect) any.
Proof.
  unfold Maintenance.find_expired_tables; eapply triple_bind; [apply triple_fetch|].
  intros rows (db & Hk & Hrows); cbv beta; eapply triple_bind.
  { apply triple_lift; intros ids Hids; exact (map_outcome_Forall2 _ _ _ Hids). }
  intros ids Hids; cbv beta; apply triple_new_lookup; [by apply lookup_apart; right; left|].
  intros _; apply List.Forall_forall; intros z Hz%list_elem_of_In; rewrite elem_of_remove_dups in Hz.
  apply list_elem_of_lookup in Hz as [i Hi].
  destruct (Forall2_lookup_r _ _ _ _ _ Hids Hi) as (r & Hr & Hdec); apply decode_Z in Hdec.
  apply list_elem_of_lookup_2 in Hr; rewrite Hrows in Hr.
  apply elem_of_filter_bool in Hr as [_ [_ Hnone]%andb_prop].
  split; [done|]; split; [|done]; intros _ r' Hr' Hvis Hid.
  change (negb (existsb (fun x => sql_eq (field "table_id" x) (field "table_id" r) &&
    negb (eval_where db Maintenance.condition_inactive_snapshot x))
    (rows_of db (TABLE DucklakeTable))) = true) in Hnone; apply negb_true_iff in Hnone.
  apply not_true_iff_false in Hnone; apply Hnone, existsb_exists; exists r'; split.
  - apply list_elem_of_In; by eapply visible_kept; [exact Hk|right; left| |].
  - rewrite Hid, Hdec, sql_eq_int, Z.eqb_refl; by rewrite (active_for_snapshot db r').
Qed.

Lemma unnumbered_twice (rows rows' : list row) column column' ids r r' z :
  (field column <$> rows) ++ (field column' <$> rows') = SInt <$> ids -> NoDup ids ->
  r ∈ rows -> r' ∈ rows' -> field column r = SInt z -> field column' r' <> SInt z.
Proof.
  intros Heq Hnd Hr Hr' Hz Hz'.
  assert (HN : NoDup ((field column <$> rows) ++ (field column' <$> rows'))).
  { rewrite Heq; apply NoDup_fmap_2; [by intros ?? [= ->]|done]. }
  apply NoDup_app in HN as (_ & Hdisj & _); apply (Hdisj (SInt z)).
  - rewrite <- Hz; by apply list_elem_of_fmap_2.
  - rewrite <- Hz'; by apply list_elem_of_fmap_2.
Qed.
(** Files found to be expired have IDs of no file the snapshot sees. *)
Definition expired_id (z : Z) : Prop :=
  (exists r, r ∈ rows_of db0 (TABLE DucklakeDataFile) /\ field "data_file_id" r = SInt z /\
     row_visible s r = false) \/
  (exists r, r ∈ rows_of db0 (TABLE DucklakeDeleteFile) /\ field "delete_file_id" r = SInt z /\
     row_visible s r = false).

Lemma expired_id_ok z : expired_id z -> lookup_ok DATA_FILE_ID_LOOKUP_TABLE z.
Proof.
  intros He; split; [done|]; split; [done|]; intros _.
  destruct Hfiles as (ids & Hids & Hnd); unfold file_ids in Hids.
  assert (HN : NoDup ((field "data_file_id" <$> rows_of db0 (TABLE DucklakeDataFile)) ++
    (field "delete_file_id" <$> rows_of db0 (TABLE DucklakeDeleteFile)))).
  { rewrite Hids; apply NoDup_fmap_2; [by intros ?? [= ->]|done]. }
  apply NoDup_app in HN as (HN1 & _ & HN2).
  split; intros r' Hr' Hvis Hz; destruct He as [(r & Hr & Hid & Hinv)|(r & Hr & Hid & Hinv)].
  - assert (r = r') as -> by (eapply (elem_of_once _ _ _ _ HN1); congruence). congruence.
  - exact (unnumbered_twice _ _ _ _ ids r' r z Hids Hnd Hr' Hr Hz Hid).
  - exact (unnumbered_twice _ _ _ _ ids r r' z Hids Hnd Hr Hr' Hid Hz).
  - assert (r = r') as -> by (eapply (elem_of_once _ _ _ _ HN2); congruence). congruence.
Qed.

Lemma triple_find_expired_files table id_column :
  table ∈ versioned_tables ->
  triple kept (Maintenance.find_expired_files table id_column) (Forall (fun f =>
    exists r, r ∈ rows_of db0 table /\ field id_column r = SInt (Maintenance.file_id f) /\
      row_visible s r = false)).
Proof.
  intros Ht; unfold Maintenance.find_expired_files; eapply triple_bind; [apply triple_fetch|].
  intros rows (db & Hk & Hrows); cbv beta; apply triple_lift; intros files Hfound.
  apply map_outcome_Forall2 in Hfound; apply List.Forall_forall.
  intros f [i Hi]%list_elem_of_In%list_elem_of_lookup.
  destruct (Forall2_lookup_r _ _ _ _ _ Hfound Hi) as (r & Hr & Hdec).
  apply list_elem_of_lookup_2 in Hr; rewrite Hrows in Hr.
  apply elem_of_filter_bool in Hr as [Hr Hinactive]; exists r; split_and!.
  - by eapply kept_visible.
  - revert Hdec; unfold Maintenance.expired_file.
    destruct (Maintenance.decode id_column r) as [id| |] eqn:Hid; cbn; [|done..].
    apply decode_Z in Hid.
    destruct (Maintenance.decode "table_id" r) as [t| |]; cbn; [|done..].
    destruct (Maintenance.decode "path" r) as [p| |]; cbn; [|done..].
    destruct (Maintenance.decode "path_is_relative" r) as [b| |]; cbn; [|done..].
    unfold mret, outcome_ret; by intros [= <-].
  - destruct (row_visible s r) eqn:Hv; [|done]; by rewrite (active_for_snapshot db) in Hinactive.
Qed.

Ltac in_list := apply (bool_decide_unpack _); vm_compute; exact I.

Lemma triple_delete_other table w :
  table ∉ SNAPSHOT :: versioned_tables -> triple kept (Maintenance.delete_rows_where table w) any.
Proof. intros [? ?]%not_elem_of_cons; by apply triple_delete. Qed.

Lemma triple_mark_data_files `{!Itertools} catalog data_path now :
  triple kept (Maintenance.mark_data_files_for_deletion dialect catalog data_path now) any.
Proof.
  unfold Maintenance.mark_data_files_for_deletion; eapply triple_bind.
  { apply triple_find_expired_files; in_list. }
  intros data Hdata; cbv beta; eapply triple_bind.
  { apply triple_find_expired_files; in_list. }
  intros deletes Hdeletes; cbv beta zeta; eapply triple_bind; [apply triple_get|].
  intros db _; cbv beta; eapply triple_bind; [by apply (triple_lift _ _ any)|].
  intros paths _; cbv beta; eapply triple_bind; [by apply (triple_lift _ _ any)|].
  intros scheduled _; cbv beta; eapply triple_bind.
  { apply triple_insert; in_list. }
  intros _ _; eapply triple_bind.
  { apply triple_new_lookup; [apply lookup_apart; in_list|]; intros _.
    assert (Forall expired_id (Maintenance.file_id <$> data ++ deletes)) as Hids.
    { rewrite fmap_app; apply Forall_app; split; apply Forall_fmap.
      - eapply List.Forall_impl; [|exact Hdata]; intros f ?; by left.
      - eapply List.Forall_impl; [|exact Hdeletes]; intros f ?; by right. }
    eapply List.Forall_impl; [|exact Hids]; exact expired_id_ok. }
  assert (Hfree : forall table column, table ∈ versioned_tables ->
    (forall r, r ∈ rows_of db0 table -> exists v, field column r = SInt v) ->
    (forall z, lookup_ok DATA_FILE_ID_LOOKUP_TABLE z -> forall r, r ∈ rows_of db0 table ->
       row_visible s r = true -> field column r <> SInt z) ->
    table <> SNAPSHOT ->
    triple kept (Maintenance.delete_rows_where table
      (Maintenance.condition_is_in column DATA_FILE_ID_LOOKUP_TABLE)) any).
  { intros table column Hv Hint Hok Hs; apply triple_delete; [done|]; intros _ db' r Hk Hr Hvis.
    pose proof (kept_visible _ _ _ Hk Hv Hr) as Hr0; destruct (Hint r Hr0) as [v Hid].
    apply not_in_lookup; [done|in_list|]; exists v; split; [done|]; intros z Hz ->.
    by eapply Hok. }
  assert (Hids : forall v, v ∈ file_ids -> exists z, v = SInt z).
  { destruct Hfiles as (ids & -> & _); intros v (z & -> & _)%list_elem_of_fmap; eauto. }
  intros _ _; eapply triple_bind.
  { apply Hfree; [in_list| | |done].
    - intros r Hr; apply Hids, elem_of_app; left; by apply list_elem_of_fmap_2.
    - intros z (_ & _ & Hz); by apply Hz. }
  intros _ _; eapply triple_bind; [|intros _ _; apply triple_drop; apply lookup_apart; in_list].
  apply Hfree; [in_list| | |done].
  - intros r Hr; apply Hids, elem_of_app; right; by apply list_elem_of_fmap_2.
  - intros z (_ & _ & Hz); by apply Hz.
Qed.

Lemma triple_delete_tables : triple kept (Maintenance.delete_tables TABLE_ID_LOOKUP_TABLE) any.
Proof.
  unfold Maintenance.delete_tables; eapply triple_bind; [apply triple_fetch|].
  intros rows (db & Hk & Hrows); cbv beta; eapply triple_bind.
  { apply triple_lift; intros names Hn; exact (map_outcome_Forall2 _ _ _ Hn). }
  intros names Hnames; cbv beta; eapply triple_bind.
  { apply triple_for; intros name [i Hi]%list_elem_of_lookup.
    destruct (Forall2_lookup_r _ _ _ _ _ Hnames Hi) as (r & Hr & Hdec); apply decode_text in Hdec.
    apply list_elem_of_lookup_2 in Hr; rewrite Hrows in Hr; apply elem_of_filter_bool in Hr as [Hr _].
    apply triple_drop, (Hinlined r); [|done]; apply (kept_rows _ Hk); [by left|done]. }
  intros _ _; apply triple_for; intros table Ht.
  destruct (decide (table ∈ child_tables)) as [Hc|Hc].
  - apply triple_delete; [by intros ->; revert Hc; in_list|]; intros Hv db' r Hk' Hr Hvis.
    destruct (Hchildren table r Hc (kept_visible _ _ _ Hk' Hv Hr) Hvis) as (t & r' & Hid & Hr' & Hvis' & Hid').
    apply not_in_lookup; [done|in_list|]; exists t; split; [done|].
    intros z (_ & Hz & _) ->; by apply (Hz eq_refl r').
  - apply triple_delete_other.
    assert (Forall (fun table => table ∉ child_tables -> table ∉ SNAPSHOT :: versioned_tables)
      Maintenance.table_dependents) as Hall by in_list.
    rewrite List.Forall_forall in Hall; by apply Hall; [apply list_elem_of_In|].
Qed.

Lemma triple_delete_catalog_objects : triple kept Maintenance.delete_expired_catalog_objects any.
Proof.
  unfold Maintenance.delete_expired_catalog_objects, Maintenance.delete_from_dependent_table,
    Maintenance.delete_scoped_metadata.
  eapply triple_bind.
  { apply triple_for; intros table Ht; apply triple_delete; [by intros ->; revert Ht; in_list|].
    intros _ db r Hk _ Hvis; by apply active_for_snapshot. }
  intros _ _.
  repeat (eapply triple_bind; [apply triple_delete_other; in_list|intros _ _]).
  apply triple_delete_other; in_list.
Qed.

Lemma triple_delete_snapshots :
  triple kept (Maintenance.delete_snapshots SNAPSHOT_ID_LOOKUP_TABLE) any.
Proof.
  intros db Hk; split; [|done]; unfold Maintenance.delete_snapshots, Maintenance.delete_rows_where.
  destruct (delete_where _ _ db) as [db'| |] eqn:E; [|done..]; cbn.
  apply delete_where_effect in E as (t & Ht & ->); fold SNAPSHOT in Ht |- *.
  pose proof (rows_of_lookup _ _ _ Ht) as Hrows; destruct (kept_snapshot _ Hk) as (x & Hx & Hid).
  split.
  - exists x; split; [|done]; rewrite rows_of_insert, decide_True by done; cbn.
    apply elem_of_filter_bool; split; [by rewrite <- Hrows|]; apply negb_true_iff.
    apply not_in_lookup; [done|in_list|]; exists s; split; [done|].
    intros z [Hz _] ->; by apply Hz.
  - intros table Hv; rewrite rows_of_insert, decide_False; [by apply kept_seen|].
    intros <-; revert Hv; in_list.
  - intros table Hv; rewrite rows_of_insert, decide_False; [by apply kept_rows|].
    intros <-; revert Hv; in_list.
  - intros name y Hn; rewrite rows_of_insert, decide_False; [by apply kept_lookups|].
    intros <-; revert Hn; in_list.
Qed.

Lemma triple_expire_snapshots `{!Itertools} catalog data_path now :
  triple kept (Maintenance.expire_snapshots dialect catalog data_path now SNAPSHOT_ID_LOOKUP_TABLE)
    any.
Proof.
  unfold Maintenance.expire_snapshots.
  eapply triple_bind; [apply triple_delete_snapshots|intros _ _].
  eapply triple_bind; [apply triple_find_expired_tables|intros _ _].
  eapply triple_bind; [apply triple_mark_data_files|intros _ _].
  eapply triple_bind; [apply triple_delete_tables|intros _ _].
  eapply triple_bind; [apply triple_delete_catalog_objects|intros _ _].
  apply triple_drop, lookup_apart; in_list.
Qed.

Lemma triple_filter_condition f :
  triple kept (Maintenance.filter_condition dialect f)
    (fun c => forall name, c.2 = Some name -> name = VERSION_ID_LOOKUP_TABLE).
Proof.
  destruct f; cbn [Maintenance.filter_condition]; [by apply triple_ret|].
  eapply triple_bind; [|intros _ _; apply triple_ret; by intros name [= <-]].
  apply triple_new_lookup; [in_list|]; intros Hin; exfalso; revert Hin; in_list.
Qed.

Lemma triple_find_expired_snapshots f :
  triple kept (Maintenance.find_expired_snapshots dialect f) any.
Proof.
  unfold Maintenance.find_expired_snapshots; eapply triple_bind; [apply triple_filter_condition|].
  intros [condition lookup] Hlookup; cbv beta zeta; eapply triple_bind.
  { eapply triple_any, triple_fetch. }
  intros rows _; eapply triple_bind; [by apply (triple_lift _ _ any)|]; intros snapshots _.
  eapply triple_bind; [|by intros; apply triple_ret].
  apply triple_when_some; intros name ->; rewrite (Hlookup name eq_refl); apply triple_drop; in_list.
Qed.

Lemma triple_expire `{!Itertools} catalog metadata now (snapshots : list DucklakeSnapshot) :
  s ∉ DucklakeSnapshot.snapshot_id <$> snapshots ->
  triple kept (st_when_some (fun catalog =>
    data_path ← st_lift (Metadata.data_path metadata);
    Maintenance.new_lookup dialect SNAPSHOT_ID_LOOKUP_TABLE
      (DucklakeSnapshot.snapshot_id <$> snapshots) ;;
    Maintenance.expire_snapshots dialect catalog data_path now SNAPSHOT_ID_LOOKUP_TABLE ;;
    Maintenance.drop SNAPSHOT_ID_LOOKUP_TABLE) catalog) any.
Proof.
  intros Hs; apply triple_when_some; intros c _.
  eapply triple_bind; [by apply (triple_lift _ _ any)|]; intros data_path _.
  eapply triple_bind.
  { apply triple_new_lookup; [apply lookup_apart; in_list|]; intros _.
    apply List.Forall_forall; intros z Hz%list_elem_of_In; split; [by intros _ ->|done]. }
  intros _ _; eapply triple_bind; [apply triple_expire_snapshots|]; intros _ _.
  apply triple_drop, lookup_apart; in_list.
Qed.
End Expire.

(** ** The whole operation *)

Section ExpireProperty.
Context `{EXT : External} `{CMP : !SqlCompare} `{ENGINE : !SqlEngine} `{MAINT : !MaintenanceEngine}
  `{ITER : !Itertools} `{TIMES : !TimeCompare}.
Implicit Types db : Db.

(** What holds of a catalog database before maintenance *)
Record maintained db : Prop := {
  m_children s : children_visible db s;
  m_files : files_numbered db;
  m_inlined : inlined_tables_apart db;
  m_lookups name : name ∈ lookups -> db !! name = None;
}.

Definition has_snapshot db (s : Z) : Prop :=
  exists x, x ∈ rows_of db (TABLE DucklakeSnapshot) /\ field "snapshot_id" x = SInt s.

Lemma seen_rows db table s :
  seen db table s = content <$> List.filter (row_visible s) (rows_of db table).
Proof. unfold seen, visible, rows_of; by destruct (db !! table). Qed.

Lemma kept_start db s : maintained db -> has_snapshot db s -> kept db s db.
Proof.
  intros [_ _ _ Hl] Hs; split; [done..|]; intros name y Hn.
  unfold rows_of; rewrite (Hl name Hn); by intros ?%elem_of_nil.
Qed.

Lemma max_int_cons column y rows :
  max_int column (y :: rows) =
    match field column y with
    | SInt z => Some match max_int column rows with Some m => Z.max z m | None => z end
    | _ => max_int column rows
    end.
Proof. done. Qed.
Lemma max_int_upper column rows z :
  (exists x, x ∈ rows /\ field column x = SInt z) ->
  exists m, max_int column rows = Some m /\ (z <= m)%Z.
Proof.
  intros (x & Hx & Hz); induction Hx as [x rows|x y rows _ IH]; rewrite max_int_cons.
  - rewrite Hz; destruct (max_int column rows); eexists; split; try reflexivity; lia.
  - destruct (IH Hz) as (m & Hm & Hle); rewrite Hm.
    destruct (field column y); eauto; eexists; split; [reflexivity|lia].
Qed.
Lemma max_int_attained column rows m :
  max_int column rows = Some m -> exists x, x ∈ rows /\ field column x = SInt m.
Proof.
  revert m; induction rows as [|y rows IH]; intros m; [done|]; rewrite max_int_cons.
  destruct (field column y) as [| |z| | |] eqn:Hy;
    try (intros H; destruct (IH m H) as (x & ? & ?); exists x; split; [by right|done]).
  destruct (max_int column rows) as [m'|]; intros [= <-].
  - destruct (Z.max_spec z m') as [[_ ->]|[_ ->]]; [|by exists y; split; [left|]].
    destruct (IH m' eq_refl) as (x & ? & ?); exists x; split; [by right|done].
  - by exists y; split; [left|].
Qed.

Lemma decoded_snapshot r (x : DucklakeSnapshot) :
  from_row r = Some x -> field "snapshot_id" r = SInt (DucklakeSnapshot.snapshot_id x).
Proof.
  cbn; destruct (get_column "snapshot_id" r) as [z|] eqn:Hz; cbn; [|done].
  destruct (get_column "snapshot_time" r); cbn; [|done].
  destruct (get_column "schema_version" r); cbn; [|done].
  destruct (get_column "next_catalog_id" r); cbn; [|done].
  destruct (get_column "next_file_id" r); cbn; [|done].
  intros [= <-]; by apply get_column_Z.
Qed.

Lemma decoded_snapshot_time r (x : DucklakeSnapshot) :
  from_row r = Some x -> field "snapshot_time" r = STime (DucklakeSnapshot.snapshot_time x).
Proof.
  cbn; destruct (get_column "snapshot_id" r); cbn; [|done].
  destruct (get_column "snapshot_time" r) as [t|] eqn:Ht; cbn; [|done].
  destruct (get_column "schema_version" r); cbn; [|done].
  destruct (get_column "next_catalog_id" r); cbn; [|done].
  destruct (get_column "next_file_id" r); cbn; [|done].
  intros [= <-]; revert Ht; cbn; unfold get_column, field; destruct (IndexMap.get _ r) as [v|]; [|done].
  by destruct v; cbn; intros [= ->].
Qed.

(** What the filter asks for: the snapshots made before the time, or those listed *)
Definition asked (f : Maintenance.SnapshotFilter) (x : DucklakeSnapshot) : Prop :=
  match f with
  | Maintenance.OlderThan timestamp => before (DucklakeSnapshot.snapshot_time x) timestamp = true
  | Maintenance.Versions versions => DucklakeSnapshot.snapshot_id x ∈ versions
  end.

(** A snapshot of the database that is asked for and not the latest *)
Definition expirable db (f : Maintenance.SnapshotFilter) (x : DucklakeSnapshot) : Prop :=
  exists r, r ∈ rows_of db (TABLE DucklakeSnapshot) /\ from_row r = Some x /\ asked f x /\
    exists z, has_snapshot db z /\ (DucklakeSnapshot.snapshot_id x < z)%Z.

Lemma filter_asks dialect f db condition lookup db' :
  Maintenance.filter_condition dialect f db = (Ok (condition, lookup), db') ->
  db' !! TABLE DucklakeSnapshot = db !! TABLE DucklakeSnapshot /\
  forall r (x : DucklakeSnapshot), from_row r = Some x ->
    eval_where db' condition r = true <-> asked f x.
Proof.
  destruct f as [timestamp|versions]; cbn [Maintenance.filter_condition asked].
  - intros [= <- _ <-]; split; [done|]; intros r x Hx; cbn [eval_where].
    by rewrite (decoded_snapshot_time _ _ Hx), sql_lt_time.
  - intros ([] & db1 & [Hids Hsame]%new_lookup_Ok & H)%bind_Ok; injection H as <- _ <-.
    split; [by apply Hsame|]; intros r x Hx.
    by rewrite (in_lookup _ _ _ _ _ _ Hids (decoded_snapshot _ _ Hx)), bool_decide_eq_true.
Qed.

Lemma not_max_iff db r z :
  field "snapshot_id" r = SInt z -> r ∈ rows_of db (TABLE DucklakeSnapshot) ->
  eval_where db (Where.NotMax "snapshot_id" (TABLE DucklakeSnapshot)) r = true <->
  exists z', has_snapshot db z' /\ (z < z')%Z.
Proof.
  intros Hz Hr; cbn [eval_where]; rewrite Hz.
  destruct (max_int_upper "snapshot_id" (rows_of db (TABLE DucklakeSnapshot)) z) as (m & Hm & Hle); [by exists r|].
  rewrite Hm, negb_true_iff, Z.eqb_neq; split.
  - intros Hne; destruct (max_int_attained _ _ _ Hm) as (y & Hy & Hid); exists m; split; [by exists y|lia].
  - intros (z' & Hz' & Hlt); destruct (max_int_upper _ _ _ Hz') as (m' & Hm' & Hle').
    rewrite Hm in Hm'; injection Hm' as <-; lia.
Qed.

(** The snapshots found are those that are asked for, the latest apart. *)
Lemma found_snapshots dialect f db db' snapshots :
  Maintenance.find_expired_snapshots dialect f db = (Ok snapshots, db') ->
  forall x, x ∈ snapshots <-> expirable db f x.
Proof.
  unfold Maintenance.find_expired_snapshots.
  intros ([condition lookup] & db1 & [Hsame Hasks]%filter_asks & (rows & db2 & H2 & (found & db3 & H3 & H4)%bind_Ok)%bind_Ok)%bind_Ok.
  assert (found = snapshots) as -> by (apply bind_Ok in H4 as ([] & db4 & _ & H4); by injection H4).
  apply bind_Ok in H2 as (d & db2' & H2 & H2'); injection H2 as <- <-.
  unfold st_lift in H2'; injection H2' as Hrows <-; apply select_where_rows in Hrows as (t & Ht & Hrows).
  assert (rows_of db1 (TABLE DucklakeSnapshot) = rows_of db (TABLE DucklakeSnapshot)) as Htab
    by (unfold rows_of; by rewrite Hsame).
  unfold st_lift in H3; injection H3 as Hdec <-; apply map_outcome_Forall2 in Hdec.
  assert (forall z, has_snapshot db1 z <-> has_snapshot db z) as Hhas by (intros z; unfold has_snapshot; by rewrite Htab).
  assert (rows_of db1 (TABLE DucklakeSnapshot) = DbTable.rows t) as Htable by exact (rows_of_lookup db1 _ t Ht).
  assert (forall r (x : DucklakeSnapshot), from_row r = Some x -> r ∈ rows <-> r ∈ rows_of db (TABLE DucklakeSnapshot) /\ asked f x /\
    exists z, has_snapshot db z /\ (DucklakeSnapshot.snapshot_id x < z)%Z) as Hin.
  { intros r x Hx; rewrite Hrows, elem_of_filter_bool, <- Htable, Htab.
    cbn [eval_where]; rewrite andb_true_iff, (Hasks _ _ Hx).
    assert (r ∈ rows_of db (TABLE DucklakeSnapshot) ->
      eval_where db1 (Where.NotMax "snapshot_id" (TABLE DucklakeSnapshot)) r = true <->
      exists z, has_snapshot db z /\ (DucklakeSnapshot.snapshot_id x < z)%Z) as Hmax.
    { intros Hr; rewrite (not_max_iff db1 r _ (decoded_snapshot _ _ Hx)) by by rewrite Htab.
      by setoid_rewrite Hhas. }
    cbn [eval_where] in Hmax; naive_solver. }
  intros x; split.
  - intros [i Hi]%list_elem_of_lookup.
    destruct (Forall2_lookup_r _ _ _ _ _ Hdec Hi) as (r & Hr & Hx).
    assert (from_row r = Some x) as Hfrom by (destruct (from_row r); cbn in Hx; congruence).
    apply list_elem_of_lookup_2, (Hin _ _ Hfrom) in Hr as (? & ? & ?); by exists r.
  - intros (r & Hr & Hfrom & Hasked & Hmax).
    assert (r ∈ rows) as [i Hi]%list_elem_of_lookup by (apply (Hin _ _ Hfrom); done).
    destruct (Forall2_lookup_l _ _ _ _ _ Hdec Hi) as (x' & Hx' & Hx).
    assert (x' = x) as -> by (rewrite Hfrom in Hx; cbn in Hx; congruence).
    by eapply list_elem_of_lookup_2.
Qed.

(** *** Snapshots that are deleted stay deleted *)

Section Shrinking.
Context (dialect : Dialect) (R : list row).

(** The rows of the snapshot table are among [R]. *)
Definition within db : Prop := rows_of db (TABLE DucklakeSnapshot) ⊆ R.

Lemma within_delete table w : triple within (Maintenance.delete_rows_where table w) any.
Proof.
  intros db Hdb; split; [|done]; unfold Maintenance.delete_rows_where.
  destruct (delete_where table w db) as [db'| |] eqn:E; [|done..]; cbn.
  apply delete_where_effect in E as (t & Ht & ->); unfold within; rewrite rows_of_insert.
  case_decide; [|done]; subst table; cbn; intros r [Hr _]%elem_of_filter_bool; apply Hdb.
  by rewrite (rows_of_lookup _ _ _ Ht).
Qed.
Lemma within_drop table : triple within (Maintenance.drop table) any.
Proof.
  intros db Hdb; split; [|done]; unfold Maintenance.drop.
  destruct (drop_table table db) as [db'| |] eqn:E; [|done..]; cbn.
  apply drop_table_effect in E as [_ ->]; unfold within; rewrite rows_of_delete.
  case_decide; [by intros r ?%elem_of_nil|done].
Qed.
Lemma within_lookup name ids :
  name <> TABLE DucklakeSnapshot -> triple within (Maintenance.new_lookup dialect name ids) any.
Proof.
  intros Hn; apply triple_create_lookup; intros db t Hdb _ _; unfold within.
  by rewrite rows_of_insert, decide_False.
Qed.
Lemma within_insert table columns rows :
  table <> TABLE DucklakeSnapshot -> triple within (Tx.insert_rows dialect table columns rows) any.
Proof.
  intros Hn; apply triple_insert_rows; intros db t chunk Hdb _ _; unfold within.
  by rewrite rows_of_insert, decide_False.
Qed.
Lemma within_fetch table w : triple within (Maintenance.fetch_where table w) any.
Proof.
  eapply triple_bind; [apply triple_get|]; intros db _; by apply (triple_lift _ _ any).
Qed.

Lemma within_expire catalog data_path now :
  triple within (
    Maintenance.find_expired_tables dialect ;;
    Maintenance.mark_data_files_for_deletion dialect catalog data_path now ;;
    Maintenance.delete_tables TABLE_ID_LOOKUP_TABLE ;;
    Maintenance.delete_expired_catalog_objects ;;
    Maintenance.drop TABLE_ID_LOOKUP_TABLE) any.
Proof.
  unfold Maintenance.find_expired_tables, Maintenance.mark_data_files_for_deletion, Maintenance.find_expired_files,
    Maintenance.delete_tables, Maintenance.delete_expired_catalog_objects, Maintenance.delete_from_dependent_table,
    Maintenance.delete_scoped_metadata, Maintenance.delete_from_catalog_table, Tx.insert_entities,
    Tx.insert_entities_into.
  repeat first
    [ apply within_delete | apply within_drop | apply within_fetch | by apply within_lookup
    | by apply within_insert | by apply (triple_lift _ _ any)
    | eapply triple_bind; [apply triple_get|intros ? _]
    | eapply (triple_bind _ _ _ any); [|intros ? _]
    | apply triple_for; intros ? _ ].
Qed.
End Shrinking.

(** After the deletion of the expired snapshots none of them is left. *)
Lemma expired_are_gone dialect catalog metadata now (snapshots : list DucklakeSnapshot) db u db' z :
  st_when_some (fun catalog =>
    data_path ← st_lift (Metadata.data_path metadata);
    Maintenance.new_lookup dialect SNAPSHOT_ID_LOOKUP_TABLE
      (DucklakeSnapshot.snapshot_id <$> snapshots) ;;
    Maintenance.expire_snapshots dialect catalog data_path now SNAPSHOT_ID_LOOKUP_TABLE ;;
    Maintenance.drop SNAPSHOT_ID_LOOKUP_TABLE) (Some catalog) db = (Ok u, db') ->
  z ∈ DucklakeSnapshot.snapshot_id <$> snapshots -> ~ has_snapshot db' z.
Proof.
  cbn [st_when_some]; intros (data_path & db0 & _ & ([] & db1 & [Hids _]%new_lookup_Ok & H)%bind_Ok)%bind_Ok Hz.
  apply bind_Ok in H as ([] & db3 & H & Hdrop); unfold Maintenance.expire_snapshots in H.
  apply bind_Ok in H as ([] & db2 & [Hrows _]%delete_rows_where_Ok & H).
  assert (forall r, r ∈ rows_of db2 (TABLE DucklakeSnapshot) -> field "snapshot_id" r <> SInt z) as Hgone.
  { intros r; rewrite Hrows, elem_of_filter_bool; intros [_ Hr] Hid; revert Hr.
    by rewrite (in_lookup _ _ _ _ _ _ Hids Hid), bool_decide_true. }
  assert (within (rows_of db2 (TABLE DucklakeSnapshot)) db') as Hwithin.
  { assert (within (rows_of db2 (TABLE DucklakeSnapshot)) db3) as H3.
    { by eapply triple_run in H as [? _]; [|apply within_expire|intros r]. }
    by eapply triple_run in Hdrop as [? _]; [|apply within_drop|]. }
  intros (r & Hr & Hid); by apply (Hgone r); [apply Hwithin|].
Qed.

(** C22: expiring snapshots keeps time travel to the others. When it succeeds, the
    snapshots it reports are exactly those that are asked for - made before the
    given time, or listed - less the latest; unless it is a dry run they are gone.
    Every other snapshot is still there and sees the same rows of every versioned
    table as before. A dry run changes nothing, and neither does a run that
    fails, in the databases that roll back changes of the schema (the operation
    creates tables for lookups, and MySQL then keeps what a failed run did). *)
Theorem expire_keeps_remaining (dialect : Dialect) (begin_error end_error : option DucklakeError)
  (latest : result Catalog) (metadata : Metadata) (now : DateTimeUtc)
  (f : Maintenance.SnapshotFilter) (dry_run : DryRun) (db : Db) (Hdb : maintained db) :
  match Maintenance.expire_snapshots_filtered dialect begin_error end_error latest metadata now f
          dry_run db with
  | (Ok expired, db') =>
      (forall e, e ∈ expired <-> exists x, expirable db f x /\ e = SnapshotMetadata.from_snapshot x) /\
      (dry_run = No -> forall e, e ∈ expired -> ~ has_snapshot db' (SnapshotMetadata.id e)) /\
      (forall s, has_snapshot db s -> s ∉ SnapshotMetadata.id <$> expired ->
         has_snapshot db' s /\
         forall table, table ∈ versioned_tables -> seen db' table s = seen db table s) /\
      (dry_run = Yes -> dialect <> Dialect.MySql -> db' = db)
  | (_, db') => dialect <> Dialect.MySql -> db' = db
  end.
Proof.
  destruct (Maintenance.expire_snapshots_filtered _ _ _ _ _ _ _ _ db) as [res db'] eqn:Hrun.
  revert Hrun; unfold Maintenance.expire_snapshots_filtered.
  unfold mbind at 1, stateful_bind at 1, st_lift at 1.
  destruct (match dry_run with Yes => _ | No => _ end) as [catalog|e|] eqn:Hcat; [|by intros [= <- <-]..].
  unfold mbind at 1, stateful_bind at 1, Maintenance.in_transaction.
  destruct begin_error as [e|]; [by intros [= <- <-]|].
  destruct (Maintenance.expire_in_transaction _ _ _ _ _ db) as [[snapshots|e|] db1] eqn:Htx;
    [|intros [= <- <-]; apply left_behind_nothing..].
  destruct end_error as [e|]; [intros [= <- <-]; apply left_behind_nothing|].
  unfold mret, stateful_ret; intros [= <- <-].
  apply bind_Ok in Htx as (found & db2 & Hfind & Htx).
  apply bind_Ok in Htx as ([] & db3 & Hexpire & Htx); injection Htx as -> <-.
  assert (Hids : SnapshotMetadata.id <$> (SnapshotMetadata.from_snapshot <$> snapshots) =
    DucklakeSnapshot.snapshot_id <$> snapshots) by by rewrite <- list_fmap_compose.
  split_and!.
  - intros e; rewrite list_elem_of_fmap; setoid_rewrite (found_snapshots _ _ _ _ _ Hfind).
    split; intros (x & ? & ?); by exists x.
  - intros -> e He; apply (list_elem_of_fmap_2 SnapshotMetadata.id) in He; rewrite Hids in He.
    destruct latest as [c| |]; [|done..]; injection Hcat as <-.
    by apply (expired_are_gone _ _ _ _ _ _ _ _ _ Hexpire).
  - intros s Hs; rewrite Hids; intros Hnot.
    pose proof (kept_start db s Hdb Hs) as Hstart.
    assert (kept db s db3) as Hend.
    { destruct (triple_run _ _ _ _ _ _ (triple_find_expired_snapshots dialect db s f) Hstart Hfind) as [Hk _].
      destruct Hdb as [Hc Hf Hi _].
      exact (proj1 (triple_run _ _ _ _ _ _ (triple_expire dialect db s (Hc s) Hf Hi catalog metadata now
        snapshots Hnot) Hk Hexpire)). }
    assert (forall db', kept db s db' -> has_snapshot db' s /\
      forall table, table ∈ versioned_tables -> seen db' table s = seen db table s) as Hsees.
    { intros db' [Hsnap Hseen _ _]; split; [exact Hsnap|]; intros table Ht; by rewrite !seen_rows, Hseen. }
    apply Hsees; destruct dry_run; [|exact Hend].
    destruct dialect; [exact Hstart|exact Hend|exact Hstart].
  - intros ->; apply left_behind_nothing.
Qed.
End ExpireProperty.

(** ** At a concrete database *)

(** Three snapshots; a schema that the second one dropped, a schema, a table
    and a column that are still there *)
Definition expiring_db : Db := list_to_map [
  demo_table DucklakeSnapshot [DucklakeSnapshot.mk 1 (100 : Z) 1 1 0;
    DucklakeSnapshot.mk 2 (200 : Z) 2 2 0; DucklakeSnapshot.mk 3 (300 : Z) 3 3 0];
  demo_table DucklakeSnapshotChanges [DucklakeSnapshotChanges.mk 1 "" None None None];
  demo_table DucklakeSchemaVersions [];
  demo_table DucklakeSchema [DucklakeSchema.mk 0 None 1 None "main" "main/" true;
    DucklakeSchema.mk 1 None 1 (Some 2%Z) "old" "old/" true];
  demo_table DucklakeTable [DucklakeTable.mk 2 None 2 None 0 "t" "t/" true];
  demo_table DucklakeColumn [DucklakeColumn.mk 1 2 None 2 None "a" "int64" None None true None None None];
  demo_table DucklakeView []; demo_table DucklakeMacro [];
  demo_table DucklakeMacroImpl []; demo_table DucklakeMacroParameters [];
  demo_table DucklakeTag []; demo_table DucklakeColumnTag []; demo_table DucklakeColumnMapping [];
  demo_table DucklakeNameMapping []; demo_table DucklakeDataFile []; demo_table DucklakeDeleteFile [];
  demo_table DucklakeFileColumnStats []; demo_table DucklakeFileVariantStats [];
  demo_table DucklakeFilePartitionValue []; demo_table DucklakeFilesScheduledForDeletion [];
  demo_table DucklakePartitionInfo []; demo_table DucklakePartitionColumn [];
  demo_table DucklakeSortInfo []; demo_table DucklakeSortExpression [];
  demo_table DucklakeTableStats []; demo_table DucklakeTableColumnStats [];
  demo_table DucklakeInlinedDataTables []; demo_table DucklakeMetadata []].

Ltac by_rows H :=
  vm_compute in H;
  first [ by apply elem_of_nil in H
        | apply list_elem_of_singleton in H; subst; first [by left | by right] ].

Lemma expiring_db_maintained : maintained expiring_db.
Proof.
  split.
  - intros s table r Ht Hr Hvis; exists 2%Z, (to_row (DucklakeTable.mk 2 None 2 None 0 "t" "t/" true)).
    assert (r = to_row (DucklakeColumn.mk 1 2 None 2 None "a" "int64" None None true None None None) \/
            r = to_row (DucklakeTable.mk 2 None 2 None 0 "t" "t/" true)) as Hcase.
    { unfold child_tables in Ht.
      repeat (apply elem_of_cons in Ht as [->|Ht]; [by_rows Hr|]); by apply elem_of_nil in Ht. }
    split_and!; [by destruct Hcase as [-> | ->] | vm_compute; by left | | done].
    by destruct Hcase as [-> | ->].
  - exists []; split; [done|constructor].
  - intros r n Hr; by_rows Hr.
  - intros name Hn; unfold lookups in Hn; repeat (apply elem_of_cons in Hn as [->|Hn]; [done|]).
    by apply elem_of_nil in Hn.
Qed.

(** Versions 1 and 3 are asked for; only 1 may go. *)
Definition expire_demo : outcome DucklakeError (list SnapshotMetadata.t) * Db :=
  Maintenance.expire_snapshots_filtered Dialect.Sqlite None None (Ok Catalog.empty)
    (Metadata.mk ∅ ∅ ∅) (400 : Z) (Maintenance.Versions [1%Z; 3%Z]) No expiring_db.

Lemma expire_keeps_remaining_witness :
  SnapshotMetadata.id <$> default [] (match expire_demo.1 with Ok l => Some l | _ => None end) = [1%Z] /\
  seen expire_demo.2 (TABLE DucklakeColumn) 2 = seen expiring_db (TABLE DucklakeColumn) 2 /\
  length (rows_of expire_demo.2 (TABLE DucklakeSchema)) = 1.
Proof.
  split; [vm_compute; reflexivity|]; split; [|vm_compute; reflexivity].
  pose proof (expire_keeps_remaining Dialect.Sqlite None None (Ok Catalog.empty) (Metadata.mk ∅ ∅ ∅)
    (400 : Z) (Maintenance.Versions [1%Z; 3%Z]) No expiring_db expiring_db_maintained) as H.
  fold expire_demo in H.
  assert (exists l, expire_demo.1 = Ok l /\ SnapshotMetadata.id <$> l = [1%Z]) as (l & Hl & Hids).
  { eexists; split; vm_compute; reflexivity. }
  destruct expire_demo as [res db']; cbn in Hl; subst res; destruct H as (_ & _ & H & _).
  destruct (H 2%Z) as [_ Hseen].
  - eexists; split; [vm_compute; right; left|reflexivity].
  - rewrite Hids; intros Hin; by apply list_elem_of_singleton in Hin.
  - apply Hseen; by right; right; right; right; left.
Defined.
