(* ===== verification/Cleanup.v ===== *)
(** * Deleting files ([maintenance/cleanup_old_files.rs], [maintenance/delete_orphaned_files.rs])

    Files that were scheduled for deletion, and files below the data path that
    the catalog does not mention, are deleted from the object store. *)

From S2P Require Import Prelude Triple Text Regex Identifier Types Instances Entities.
From S2P Require Import CatalogColumns Catalog CommitState Dialect Database Load Metadata.
From S2P Require Import Batches Expire Demo.

(** ** The object store

    Objects have a location and a time of last modification. Deleting a stream
    of locations answers one result for each; only the given locations are
    affected, and one whose result is not a failure is gone. *)

Inductive Deletion `{External} : Type := Gone | Missing | Failed (e : DucklakeError).

Class ObjectStore `{External} : Type := {
  Location : Type;
  Location_eq_dec :: EqDecision Location;
  Location_countable :: Countable Location;
  resolve : DucklakePath -> result Location;
  display_location : DucklakePath -> Location -> string;
  list_objects : Location -> gmap Location DateTimeUtc -> result (list (Location * DateTimeUtc));
  list_objects_stored prefix store listing : list_objects prefix store = Ok listing ->
    Forall (fun o => store !! o.1 = Some o.2) listing;
  delete_stream : list Location -> gmap Location DateTimeUtc ->
    list Deletion * gmap Location DateTimeUtc;
  delete_stream_length locations store :
    length (delete_stream locations store).1 = length locations;
  delete_stream_others locations store l : l ∉ locations ->
    (delete_stream locations store).2 !! l = store !! l;
  delete_stream_gone locations store i l : locations !! i = Some l ->
    (forall e, (delete_stream locations store).1 !! i <> Some (Failed e)) ->
    (delete_stream locations store).2 !! l = None;
}.

Module Files.
(** The catalog database and the objects *)
Record t `{External} `{!ObjectStore} : Type := mk { db : Db; store : gmap Location DateTimeUtc }.
#[global] Arguments mk {_ _} db store.

Section Files.
Context `{EXT : External} `{CMP : !SqlCompare} `{ENGINE : !SqlEngine} `{MAINT : !MaintenanceEngine}
  `{TXT : !ValueText} `{DUR : !Durations} `{STORE : !ObjectStore}.
Context (dialect : Dialect) (metadata : Metadata) (writable : result unit).

Definition DATA_FILE_ID_LOOKUP_TABLE : string := "__ducklake_cleaned_up_data_file_ids".

(** The loop over the results: files that are already gone are tolerated. *)
Fixpoint first_failure (results : list Deletion) : result unit :=
  match results with
  | [] => Ok tt
  | Failed e :: _ => Err e
  | _ :: results => first_failure results
  end.
Definition delete_objects (locations : list Location) : method t unit :=
  fun self =>
    let '(results, store) := delete_stream locations (store self) in
    (first_failure results, mk (db self) store).

Definition on_db {A} (m : method Db A) : method t A :=
  st_zoom db (fun db self => mk db (store self)) m.

(** *** [cleanup_old_files] *)

Inductive CleanupFilter : Type := All | OlderThan (timestamp : DateTimeUtc).
Definition condition (f : CleanupFilter) : Where :=
  match f with
  | All => Where.Plain any_row
  | OlderThan timestamp => Where.Lt "schedule_start" (to_sql timestamp)
  end.

Definition decode_path (r : row) : result (string * bool) :=
  path ← Maintenance.decode "path" r;
  path_is_relative ← Maintenance.decode "path_is_relative" r;
  mret (path, path_is_relative).
(** The ID of a file, or of its table, and its path *)
Definition decode_file (id_column : string) (r : row) : result (Z * (string * bool)) :=
  id ← Maintenance.decode id_column r; path ← decode_path r; mret (id, path).
Definition full_path (base : DucklakePath) (p : string * bool) : result DucklakePath :=
  stored ← infallible (DucklakePath.new p.1 p.2);
  infallible (DucklakePath.join base stored).

Definition delete_files (paths : list DucklakePath) : method t unit :=
  match paths with
  | [] => mret tt
  | _ => locations ← st_lift (map_outcome resolve paths); delete_objects locations
  end.

Definition delete_scheduled_rows (file_ids : list Z) : method Db unit :=
  Maintenance.new_lookup dialect DATA_FILE_ID_LOOKUP_TABLE file_ids ;;
  Maintenance.delete_rows_where (TABLE DucklakeFilesScheduledForDeletion)
    (Maintenance.condition_is_in "data_file_id" DATA_FILE_ID_LOOKUP_TABLE) ;;
  Maintenance.drop DATA_FILE_ID_LOOKUP_TABLE.

Definition cleanup_old_files_filtered (begin_error commit_error : option DucklakeError)
    (f : CleanupFilter) (dry_run : DryRun) : method t (list string) :=
  data_path ← st_lift (Metadata.data_path metadata);
  rows ← on_db (Maintenance.fetch_where (TABLE DucklakeFilesScheduledForDeletion) (condition f));
  files ← st_lift (map_outcome (decode_file "data_file_id") rows);
  paths ← st_lift (map_outcome (full_path data_path) files.*2);
  match dry_run with
  | Yes => mret (DucklakePath.as_str <$> paths)
  | No =>
      st_lift writable ;;
      delete_files paths ;;
      on_db (Maintenance.in_transaction dialect begin_error commit_error true
        (delete_scheduled_rows files.*1)) ;;
      mret (DucklakePath.as_str <$> paths)
  end.

(** [ago] is the current time less an interval. *)
Definition cleanup_old_files (ago : Interval.t -> DateTimeUtc)
    (begin_error commit_error : option DucklakeError) (dry_run : DryRun) : method t (list string) :=
  cleanup_old_files_filtered begin_error commit_error
    (OlderThan (ago (Metadata.delete_older_than metadata))) dry_run.

Definition cleanup_old_files_older_than (begin_error commit_error : option DucklakeError)
    (timestamp : DateTimeUtc) (dry_run : DryRun) : method t (list string) :=
  cleanup_old_files_filtered begin_error commit_error (OlderThan timestamp) dry_run.
Definition cleanup_all_old_files (begin_error commit_error : option DucklakeError)
    (dry_run : DryRun) : method t (list string) :=
  cleanup_old_files_filtered begin_error commit_error All dry_run.

(** *** [delete_orphaned_files] *)

(** A data or delete file; its table is looked up in the latest catalog, and a
    table that is not there is a panic. *)
Definition referenced_file (catalog : Catalog) (data_path : DucklakePath) (f : Z * (string * bool))
    : result Location :=
  table ← infallible (Catalog.table_by_id catalog f.1);
  base ← Catalog.table_data_path catalog table data_path;
  path ← full_path base f.2;
  resolve path.

Definition referenced_scheduled (data_path : DucklakePath) (p : string * bool)
    : result Location :=
  path ← full_path data_path p; resolve path.

(** [UNION ALL] of the data files and the delete files, of every snapshot *)
Definition collect_referenced_locations (head : result Catalog) (data_path : DucklakePath) (db : Db)
    : result (gset Location) :=
  catalog ← head;
  data_files ← select_where (TABLE DucklakeDataFile) (Where.Plain any_row) db;
  delete_files ← select_where (TABLE DucklakeDeleteFile) (Where.Plain any_row) db;
  table_files ← map_outcome (decode_file "table_id") (data_files ++ delete_files);
  rows ← select_where (TABLE DucklakeFilesScheduledForDeletion) (Where.Plain any_row) db;
  scheduled_files ← map_outcome decode_path rows;
  table_locations ← map_outcome (referenced_file catalog data_path) table_files;
  scheduled_locations ← map_outcome (referenced_scheduled data_path) scheduled_files;
  mret (list_to_set (table_locations ++ scheduled_locations)).

Definition is_orphan (referenced : gset Location) (max_age : option DateTimeUtc)
    (o : Location * DateTimeUtc) : bool :=
  negb (bool_decide (o.1 ∈ referenced)) &&
  match max_age with
  | Some max_age => match leaf_cmp DateTimeUtc o.2 max_age with Lt => true | _ => false end
  | None => true
  end.

Definition delete_orphaned_files_filtered (head : result Catalog)
    (max_age : option DateTimeUtc) (dry_run : DryRun) : method t (list string) :=
  data_path ← st_lift (Metadata.data_path metadata);
  self ← st_get;
  referenced ← st_lift (collect_referenced_locations head data_path (db self));
  prefix ← st_lift (resolve data_path);
  listing ← st_lift (list_objects prefix (store self));
  let orphans := (List.filter (is_orphan referenced max_age) listing).*1 in
  match dry_run with
  | Yes => mret tt
  | No => st_lift writable ;; delete_objects orphans
  end ;;
  mret (display_location data_path <$> orphans).

Definition delete_orphaned_files (ago : Interval.t -> DateTimeUtc) (head : result Catalog)
    (dry_run : DryRun) : method t (list string) :=
  delete_orphaned_files_filtered head (Some (ago (Metadata.delete_older_than metadata))) dry_run.
Definition delete_orphaned_files_older_than (head : result Catalog) (timestamp : DateTimeUtc)
    (dry_run : DryRun) : method t (list string) :=
  delete_orphaned_files_filtered head (Some timestamp) dry_run.
Definition delete_all_orphaned_files (head : result Catalog) (dry_run : DryRun)
    : method t (list string) :=
  delete_orphaned_files_filtered head None dry_run.
End Files.
End Files.

(** ** What is deleted, and what is not *)

Section CleanupFacts.
Context `{EXT : External} `{CMP : !SqlCompare} `{ENGINE : !SqlEngine} `{MAINT : !MaintenanceEngine}
  `{TXT : !ValueText} `{DUR : !Durations} `{STORE : !ObjectStore} `{TIMES : !TimeCompare}.
Context (metadata : Metadata) (writable : result unit).
Implicit Types (self : Files.t) (db : Db) (l : Location).

Lemma first_failure_Ok results :
  Files.first_failure results = Ok tt -> forall i e, results !! i <> Some (Failed e).
Proof.
  induction results as [|[| |e0] results IH]; cbn; [done| | |done];
    intros Hok [|i] e; cbn; try done; by apply IH.
Qed.

(** Whatever happens, other objects are left alone; on success the given ones
    are gone. *)
Lemma delete_objects_spec locations self res self' :
  Files.delete_objects locations self = (res, self') ->
  Files.db self' = Files.db self /\
  (forall l, l ∉ locations -> Files.store self' !! l = Files.store self !! l) /\
  (res = Ok tt -> forall l, l ∈ locations -> Files.store self' !! l = None).
Proof.
  unfold Files.delete_objects.
  destruct (delete_stream locations (Files.store self)) as [results store'] eqn:E; intros [= <- <-].
  cbn; split_and!; [done| |].
  - intros l Hl; pose proof (delete_stream_others locations (Files.store self) l Hl) as H.
    by rewrite E in H.
  - intros Hok l [i Hi]%list_elem_of_lookup.
    pose proof (delete_stream_gone locations (Files.store self) i l Hi) as H; rewrite E in H.
    apply H; intros e; by apply first_failure_Ok.
Qed.

(** The catalog mentions an object: a data file or a delete file of any snapshot
    or a file scheduled for deletion has its location. *)
Definition mentioned (catalog : Catalog) (data_path : DucklakePath) db l : Prop :=
  (exists r, r ∈ rows_of db (TABLE DucklakeDataFile) ++ rows_of db (TABLE DucklakeDeleteFile) /\
     (Files.decode_file "table_id" r ≫= Files.referenced_file catalog data_path) = Ok l) \/
  (exists r, r ∈ rows_of db (TABLE DucklakeFilesScheduledForDeletion) /\
     (Files.decode_path r ≫= Files.referenced_scheduled data_path) = Ok l).

Lemma select_all table db rows :
  select_where table (Where.Plain any_row) db = Ok rows -> rows ≡ₚ rows_of db table.
Proof.
  intros (t & Ht & Hrows)%select_where_rows; rewrite Hrows, (rows_of_lookup _ _ _ Ht).
  rewrite filter_bool_all; [done|]; done.
Qed.

Lemma collected catalog data_path db refs l :
  Files.collect_referenced_locations (Ok catalog) data_path db = Ok refs ->
  mentioned catalog data_path db l -> l ∈ refs.
Proof.
  unfold Files.collect_referenced_locations; cbn [mbind outcome_bind].
  destruct (select_where (TABLE DucklakeDataFile) _ db) as [data| |] eqn:Hdata; cbn [mbind outcome_bind]; [|done..].
  destruct (select_where (TABLE DucklakeDeleteFile) _ db) as [deletes| |] eqn:Hdeletes; cbn [mbind outcome_bind]; [|done..].
  destruct (map_outcome _ (data ++ deletes)) as [files| |] eqn:Hfiles; cbn [mbind outcome_bind]; [|done..].
  destruct (select_where (TABLE DucklakeFilesScheduledForDeletion) _ db) as [rows| |] eqn:Hrows;
    cbn [mbind outcome_bind]; [|done..].
  destruct (map_outcome Files.decode_path rows) as [paths| |] eqn:Hpaths; cbn [mbind outcome_bind]; [|done..].
  destruct (map_outcome (Files.referenced_file _ _) files) as [ls| |] eqn:Hls; cbn [mbind outcome_bind]; [|done..].
  destruct (map_outcome (Files.referenced_scheduled _) paths) as [ls'| |] eqn:Hls'; cbn [mbind outcome_bind]; [|done..].
  unfold mret, outcome_ret; intros [= <-] Hm; rewrite elem_of_list_to_set.
  assert (Hchain : forall A B C (f : A -> result B) (g : B -> result C) xs ys zs x z,
    map_outcome f xs = Ok ys -> map_outcome g ys = Ok zs -> x ∈ xs -> (f x ≫= g) = Ok z -> z ∈ zs).
  { intros A B C f g xs ys zs x z Hf%map_outcome_Forall2 Hg%map_outcome_Forall2.
    intros [i Hi]%list_elem_of_lookup Hx.
    destruct (Forall2_lookup_l _ _ _ _ _ Hf Hi) as (y & Hy & Hfx).
    destruct (Forall2_lookup_l _ _ _ _ _ Hg Hy) as (z' & Hz & Hgy).
    rewrite Hfx in Hx; cbn in Hx; rewrite Hgy in Hx; injection Hx as <-.
    by eapply list_elem_of_lookup_2. }
  apply elem_of_app; destruct Hm as [(r & Hr & Hl)|(r & Hr & Hl)]; [left|right].
  - eapply Hchain; [exact Hfiles|exact Hls| |exact Hl].
    apply select_all in Hdata, Hdeletes; by rewrite Hdata, Hdeletes.
  - eapply Hchain; [exact Hpaths|exact Hls'| |exact Hl]; apply select_all in Hrows; by rewrite Hrows.
Qed.

(** C24: deleting orphaned files never deletes an object that the catalog
    mentions, in any snapshot or scheduled for deletion, nor one that was
    modified at or after the given time, whatever the outcome; it leaves the
    database alone, and a dry run leaves the objects alone. *)
Theorem orphans_are_unmentioned (head : result Catalog) (max_age : option DateTimeUtc)
    (dry_run : DryRun) (self : Files.t) (l : Location) (modified : DateTimeUtc)
    (Hl : Files.store self !! l = Some modified)
    (Hkeep : (exists catalog data_path, head = Ok catalog /\
                Metadata.data_path metadata = Ok data_path /\
                mentioned catalog data_path (Files.db self) l) \/
             (exists t, max_age = Some t /\ leaf_cmp DateTimeUtc modified t <> Lt) \/
             dry_run = Yes) :
  let self' := (Files.delete_orphaned_files_filtered metadata writable head max_age dry_run self).2 in
  Files.store self' !! l = Some modified /\ Files.db self' = Files.db self.
Proof.
  destruct (Files.delete_orphaned_files_filtered _ _ _ _ _ self) as [out self'] eqn:Hrun.
  cbn zeta; cbn [snd]; revert Hrun; unfold Files.delete_orphaned_files_filtered.
  unfold mbind at 1, stateful_bind at 1, st_lift at 1.
  destruct (Metadata.data_path metadata) as [data_path| |] eqn:Hpath; [|by intros [= <- <-]..].
  unfold mbind at 1, stateful_bind at 1, st_get at 1.
  unfold mbind at 1, stateful_bind at 1, st_lift at 1.
  destruct (Files.collect_referenced_locations head data_path (Files.db self)) as [refs| |] eqn:Hrefs;
    [|by intros [= <- <-]..].
  unfold mbind at 1, stateful_bind at 1, st_lift at 1.
  destruct (resolve data_path) as [prefix| |]; [|by intros [= <- <-]..].
  unfold mbind at 1, stateful_bind at 1, st_lift at 1.
  destruct (list_objects prefix (Files.store self)) as [listing| |] eqn:Hlist; [|by intros [= <- <-]..].
  unfold mbind at 1, stateful_bind at 1.
  destruct dry_run; [by intros [= <- <-]|]; unfold mbind at 1, stateful_bind at 1, st_lift at 1.
  destruct writable as [[]| |]; [|by intros [= <- <-]..].
  destruct (Files.delete_objects _ self) as [res self1] eqn:Hdel.
  apply delete_objects_spec in Hdel as (Hdb & Hothers & _); intros Hrun.
  assert (self' = self1) as -> by by destruct res as [[]| |]; injection Hrun.
  split; [|done].
  rewrite Hothers; [done|]; intros (o & -> & [Ho Horphan]%elem_of_filter_bool)%list_elem_of_fmap.
  pose proof (list_objects_stored _ _ _ Hlist) as Hstored; rewrite List.Forall_forall in Hstored.
  apply list_elem_of_In, Hstored in Ho; rewrite Hl in Ho; injection Ho as ->.
  unfold Files.is_orphan in Horphan; apply andb_prop in Horphan as [Href Hage].
  destruct Hkeep as [(catalog & data_path' & -> & Hpath' & Hm)|[(t & -> & Ht)|]]; [| |done].
  - injection Hpath' as <-; apply (collected _ _ _ _ _ Hrefs) in Hm.
    by rewrite bool_decide_true in Href.
  - by destruct (leaf_cmp DateTimeUtc o.2 t).
Qed.

(** One data file or delete file whose table the latest catalog does not
    have, because it was dropped and earlier snapshots still have it, makes
    every run of the deletion of orphaned files fail: the table is unwrapped. *)
Theorem dropped_table_blocks_orphans (head : result Catalog) (max_age : option DateTimeUtc)
    (dry_run : DryRun) (self : Files.t) (catalog : Catalog) (r : row) (table_id : Z)
    (Hhead : head = Ok catalog)
    (Hr : r ∈ rows_of (Files.db self) (TABLE DucklakeDataFile) ++
              rows_of (Files.db self) (TABLE DucklakeDeleteFile))
    (Hid : field "table_id" r = SInt table_id)
    (Hdropped : Arena.map_id (Catalog.table_arena catalog) table_id = None) :
  is_ok (Files.delete_orphaned_files_filtered metadata writable head max_age dry_run self).1 = false.
Proof.
  unfold Files.delete_orphaned_files_filtered; subst head.
  unfold mbind at 1, stateful_bind at 1, st_lift at 1.
  destruct (Metadata.data_path metadata) as [data_path| |] eqn:Hpath; [|done..].
  unfold mbind at 1, stateful_bind at 1, st_get at 1.
  unfold mbind at 1, stateful_bind at 1, st_lift at 1.
  destruct (Files.collect_referenced_locations _ _ _) as [refs| |] eqn:Hrefs; [|done..]; exfalso.
  revert Hrefs; unfold Files.collect_referenced_locations; cbn [mbind outcome_bind].
  destruct (select_where (TABLE DucklakeDataFile) _ _) as [data| |] eqn:Hdata; cbn [mbind outcome_bind]; [|done..].
  destruct (select_where (TABLE DucklakeDeleteFile) _ _) as [deletes| |] eqn:Hdeletes; cbn [mbind outcome_bind]; [|done..].
  destruct (map_outcome _ (data ++ deletes)) as [files| |] eqn:Hfiles; cbn [mbind outcome_bind]; [|done..].
  destruct (select_where (TABLE DucklakeFilesScheduledForDeletion) _ _) as [rows| |]; cbn [mbind outcome_bind]; [|done..].
  destruct (map_outcome Files.decode_path rows) as [paths| |]; cbn [mbind outcome_bind]; [|done..].
  destruct (map_outcome (Files.referenced_file _ _) files) as [ls| |] eqn:Hls; cbn [mbind outcome_bind]; [|done..].
  intros _; apply map_outcome_Forall2 in Hfiles, Hls; apply select_all in Hdata, Hdeletes.
  rewrite <- Hdata, <- Hdeletes in Hr; apply list_elem_of_lookup in Hr as [i Hi].
  destruct (Forall2_lookup_l _ _ _ _ _ Hfiles Hi) as (f & Hf & Hdec).
  destruct (Forall2_lookup_l _ _ _ _ _ Hls Hf) as (l & _ & Hl).
  assert (f.1 = table_id) as Hft.
  { revert Hdec; unfold Files.decode_file.
    destruct (Maintenance.decode "table_id" r) as [id| |] eqn:E; cbn [mbind outcome_bind]; [|done..].
    apply decode_Z in E; rewrite Hid in E; injection E as ->.
    destruct (Files.decode_path r); cbn; [|done..]; unfold mret, outcome_ret; by intros [= <-]. }
  revert Hl; unfold Files.referenced_file, Catalog.table_by_id; rewrite Hft, Hdropped; done.
Qed.

(** The rows that go are the scheduled ones with the given IDs. *)
Lemma deleted_scheduled_rows dialect ids db u db' :
  Files.delete_scheduled_rows dialect ids db = (Ok u, db') ->
  (forall r v, field "data_file_id" r = SInt v ->
     (r ∈ rows_of db' (TABLE DucklakeFilesScheduledForDeletion) <->
      r ∈ rows_of db (TABLE DucklakeFilesScheduledForDeletion) /\ v ∉ ids)) /\
  rows_of db' (TABLE DucklakeFilesScheduledForDeletion) ⊆
    rows_of db (TABLE DucklakeFilesScheduledForDeletion) /\
  (forall table, table ∉ [TABLE DucklakeFilesScheduledForDeletion; Files.DATA_FILE_ID_LOOKUP_TABLE] ->
     db' !! table = db !! table).
Proof.
  intros ([] & db1 & [Hids Hsame1]%new_lookup_Ok & ([] & db2 & [Hrows Hsame2]%delete_rows_where_Ok
    & ->%drop_Ok)%bind_Ok)%bind_Ok.
  assert (rows_of db1 (TABLE DucklakeFilesScheduledForDeletion) =
    rows_of db (TABLE DucklakeFilesScheduledForDeletion)) as Hsame by (unfold rows_of; by rewrite Hsame1).
  rewrite Hsame in Hrows; split_and!.
  - intros r v Hv; rewrite rows_of_delete, decide_False, Hrows, elem_of_filter_bool by done.
    rewrite (in_lookup db1 _ ids _ r v Hids Hv), negb_true_iff, bool_decide_eq_false; tauto.
  - rewrite rows_of_delete, decide_False, Hrows by done; by intros r [? _]%elem_of_filter_bool.
  - intros table [Ht Hl]%not_elem_of_cons.
    assert (table <> Files.DATA_FILE_ID_LOOKUP_TABLE) by by intros ->; apply Hl; left.
    by rewrite lookup_delete_ne, Hsame2, Hsame1.
Qed.

(** What the filter asks for: every scheduled file, or those that were scheduled
    before the time *)
Definition asked_for (f : Files.CleanupFilter) (r : row) : Prop :=
  match f with
  | Files.All => True
  | Files.OlderThan timestamp =>
      exists t, field "schedule_start" r = STime t /\ before t timestamp = true
  end.

(** The columns of scheduled files have their types, and their IDs are distinct. *)
Definition scheduled_files db : Prop :=
  (exists ids, field "data_file_id" <$> rows_of db (TABLE DucklakeFilesScheduledForDeletion) =
     SInt <$> ids /\ NoDup ids) /\
  forall r, r ∈ rows_of db (TABLE DucklakeFilesScheduledForDeletion) ->
    exists t, field "schedule_start" r = STime t.

Lemma condition_asks f r t :
  field "schedule_start" r = STime t ->
  forall db, eval_where db (Files.condition f) r = true <-> asked_for f r.
Proof.
  intros Ht db; destruct f as [|timestamp]; [done|]; cbn [Files.condition eval_where asked_for].
  rewrite Ht; change (to_sql timestamp) with (STime timestamp); rewrite sql_lt_time; split.
  - intros Hb; by exists t.
  - by intros (t' & [= <-] & Hb).
Qed.

(** A scheduled file that is asked for, at an object *)
Definition selected (f : Files.CleanupFilter) (data_path : DucklakePath) db l (r : row) : Prop :=
  r ∈ rows_of db (TABLE DucklakeFilesScheduledForDeletion) /\ asked_for f r /\
  (file ← Files.decode_file "data_file_id" r; Files.full_path data_path file.2 ≫= resolve) = Ok l.

(** Running a bind *)
Lemma lift_bind {S A B} (o : result A) (f : A -> method S B) (s : S) :
  (st_lift o ≫= f) s =
    match o with Ok a => f a s | Err e => (Err e, s) | Panic => (Panic, s) end.
Proof. by destruct o. Qed.
Lemma on_db_fetch table w self :
  Files.on_db (Maintenance.fetch_where table w) self = (select_where table w (Files.db self), self).
Proof. by destruct self. Qed.

(** The paths of selected rows *)
Lemma decode_file_id column r file :
  Files.decode_file column r = Ok file -> field column r = SInt file.1.
Proof.
  unfold Files.decode_file; destruct (Maintenance.decode column r) as [id| |] eqn:E; cbn [mbind outcome_bind]; [|done..].
  destruct (Files.decode_path r); cbn; [|done..]; unfold mret, outcome_ret; intros [= <-]; by apply decode_Z.
Qed.

Lemma selected_iff f data_path db rows files paths locations :
  scheduled_files db ->
  select_where (TABLE DucklakeFilesScheduledForDeletion) (Files.condition f) db = Ok rows ->
  map_outcome (Files.decode_file "data_file_id") rows = Ok files ->
  map_outcome (Files.full_path data_path) files.*2 = Ok paths ->
  map_outcome resolve paths = Ok locations ->
  (forall l, l ∈ locations <-> exists r, selected f data_path db l r) /\
  (forall r v, r ∈ rows_of db (TABLE DucklakeFilesScheduledForDeletion) ->
     field "data_file_id" r = SInt v -> (v ∈ files.*1 <-> asked_for f r)).
Proof.
  intros [(ids & Hids & Hnodup) Htimes] (t & Ht & Hrows)%select_where_rows Hfiles%map_outcome_Forall2
    Hpaths%map_outcome_Forall2 Hlocs%map_outcome_Forall2.
  pose proof (rows_of_lookup _ _ _ Ht) as Htable.
  assert (forall r, r ∈ rows <-> r ∈ rows_of db (TABLE DucklakeFilesScheduledForDeletion) /\ asked_for f r) as Hasked.
  { intros r; rewrite Hrows, elem_of_filter_bool, Htable; split.
    - intros [Hr Hw]; split; [done|]; destruct (Htimes r) as [time Htime]; [by rewrite Htable|].
      by apply (condition_asks f r time Htime db).
    - intros [Hr Hw]; split; [done|]; destruct (Htimes r) as [time Htime]; [by rewrite Htable|].
      by apply (condition_asks f r time Htime db). }
  split.
  - intros l; split.
    + intros [i Hi]%list_elem_of_lookup.
      destruct (Forall2_lookup_r _ _ _ _ _ Hlocs Hi) as (path & Hp & Hres).
      destruct (Forall2_lookup_r _ _ _ _ _ Hpaths Hp) as (file2 & Hfile & Hfull).
      apply list_lookup_fmap_Some in Hfile as (file & -> & Hfile).
      destruct (Forall2_lookup_r _ _ _ _ _ Hfiles Hfile) as (r & Hr & Hdec).
      apply list_elem_of_lookup_2, Hasked in Hr as [Hr Hw]; exists r; split_and!; [done..|].
      rewrite Hdec; cbn; by rewrite Hfull.
    + intros (r & Hr & Hw & Hl); assert (r ∈ rows) as [i Hi]%list_elem_of_lookup by by apply Hasked.
      destruct (Forall2_lookup_l _ _ _ _ _ Hfiles Hi) as (file & Hfile & Hdec).
      assert (files.*2 !! i = Some file.2) as Hfile2 by (by rewrite list_lookup_fmap, Hfile).
      destruct (Forall2_lookup_l _ _ _ _ _ Hpaths Hfile2) as (path & Hp & Hfull).
      destruct (Forall2_lookup_l _ _ _ _ _ Hlocs Hp) as (l' & Hl' & Hres).
      rewrite Hdec in Hl; cbn in Hl; rewrite Hfull in Hl; cbn in Hl; rewrite Hres in Hl.
      injection Hl as <-; by eapply list_elem_of_lookup_2.
  - intros r v Hr Hv; split.
    + intros (file & -> & [i Hi]%list_elem_of_lookup)%list_elem_of_fmap.
      destruct (Forall2_lookup_r _ _ _ _ _ Hfiles Hi) as (r' & Hr' & Hdec%decode_file_id).
      apply list_elem_of_lookup_2, Hasked in Hr' as [Hr' Hw].
      assert (r = r') as ->; [|done].
      eapply (elem_of_once (field "data_file_id")); [|done|done|congruence].
      rewrite Hids; apply NoDup_fmap_2; [by intros ?? [= ->]|done].
    + intros Hw; assert (r ∈ rows) as [i Hi]%list_elem_of_lookup by by apply Hasked.
      destruct (Forall2_lookup_l _ _ _ _ _ Hfiles Hi) as (file & Hfile & Hdec%decode_file_id).
      rewrite Hv in Hdec; injection Hdec as ->; apply list_elem_of_fmap; exists file.
      split; [done|by eapply list_elem_of_lookup_2].
Qed.

(** Deleting the files: without one nothing is resolved. *)
Lemma delete_files_spec paths self res self' :
  Files.delete_files paths self = (res, self') ->
  Files.db self' = Files.db self /\
  (self' = self \/ exists locations, map_outcome resolve paths = Ok locations /\
     forall l, l ∉ locations -> Files.store self' !! l = Files.store self !! l) /\
  (res = Ok tt -> exists locations, map_outcome resolve paths = Ok locations /\
     forall l, l ∈ locations -> Files.store self' !! l = None).
Proof.
  unfold Files.delete_files; destruct paths as [|p paths].
  { intros [= <- <-]; split_and!; [done|by left|intros _].
    exists []; split; [done|]; by intros l ?%elem_of_nil. }
  rewrite lift_bind; destruct (map_outcome resolve (p :: paths)) as [locs|e|];
    [|intros [= <- <-]; split_and!; [done|by left|done]..].
  intros (Hdb & Hothers & Hgone)%delete_objects_spec; split_and!; [done|right; eauto|].
  intros Hok; exists locs; eauto.
Qed.

(** C23: cleaning up deletes no object but those of scheduled files that are asked
    for - all, or those scheduled before the given time - whatever the outcome. The
    rows go only after the objects: a run that does not succeed leaves the database
    as it was (but for MySQL, which does not roll back the lookup table), so that it
    can be repeated; after one that does, the object of every
    such file is gone, and so are exactly the rows of these files: those of the
    others are still scheduled. *)
Theorem cleanup_deletes_selected (dialect : Dialect) (begin_error commit_error : option DucklakeError)
    (f : Files.CleanupFilter) (self : Files.t) (data_path : DucklakePath)
    (Hpath : Metadata.data_path metadata = Ok data_path) (Hscheduled : scheduled_files (Files.db self)) :
  let '(res, self') := Files.cleanup_old_files_filtered dialect metadata writable begin_error
                         commit_error f No self in
  (forall l, (forall r, ~ selected f data_path (Files.db self) l r) ->
     Files.store self' !! l = Files.store self !! l) /\
  (is_ok res = false -> dialect <> Dialect.MySql -> Files.db self' = Files.db self) /\
  (is_ok res = true ->
     (forall l r, selected f data_path (Files.db self) l r -> Files.store self' !! l = None) /\
     (forall r, r ∈ rows_of (Files.db self') (TABLE DucklakeFilesScheduledForDeletion) <->
        r ∈ rows_of (Files.db self) (TABLE DucklakeFilesScheduledForDeletion) /\ ~ asked_for f r)).
Proof.
  destruct (Files.cleanup_old_files_filtered _ _ _ _ _ _ _ self) as [res self'] eqn:Hrun; revert Hrun.
  unfold Files.cleanup_old_files_filtered; rewrite lift_bind, Hpath.
  unfold mbind at 1, stateful_bind at 1; rewrite on_db_fetch.
  destruct (select_where _ _ _) as [rows| |] eqn:Hrows; [|by intros [= <- <-]..].
  rewrite lift_bind; destruct (map_outcome (Files.decode_file _) rows) as [files| |] eqn:Hfiles;
    [|by intros [= <- <-]..].
  rewrite lift_bind; destruct (map_outcome (Files.full_path _) _) as [paths| |] eqn:Hpaths;
    [|by intros [= <- <-]..].
  rewrite lift_bind; destruct writable as [[]| |]; [|by intros [= <- <-]..].
  unfold mbind at 1, stateful_bind at 1.
  destruct (Files.delete_files paths self) as [res1 self1] eqn:Hdel.
  apply delete_files_spec in Hdel as (Hdb1 & Hothers & Hgone).
  assert (Hkept : forall l, (forall r, ~ selected f data_path (Files.db self) l r) ->
    Files.store self1 !! l = Files.store self !! l).
  { intros l Hl; destruct Hothers as [->|(locs & Hlocs & Hothers)]; [done|]; apply Hothers; intros Hin.
    eapply selected_iff in Hin as [r Hr]; [by apply (Hl r)|done..]. }
  destruct res1 as [[]| |]; [|by intros [= <- <-]..].
  destruct (Hgone eq_refl) as (locs & Hlocs & Hgone'); clear Hgone Hothers.
  unfold mbind at 1, stateful_bind at 1, Files.on_db, st_zoom, Maintenance.in_transaction.
  destruct begin_error as [e|]; [by intros [= <- <-]|].
  destruct (Files.delete_scheduled_rows dialect files.*1 (Files.db self1)) as [[[]| |] db'] eqn:Hrows';
    [|intros [= <- <-]; split_and!; [done|intros _ Hd; cbn; by rewrite left_behind_nothing|done]..].
  destruct commit_error as [e|];
    [intros [= <- <-]; split_and!; [done|intros _ Hd; cbn; by rewrite left_behind_nothing|done]|].
  intros [= <- <-]; cbn.
  rewrite Hdb1 in Hrows'; apply deleted_scheduled_rows in Hrows' as (Hdeleted & Hsub & _).
  destruct (selected_iff _ _ _ _ _ _ _ Hscheduled Hrows Hfiles Hpaths Hlocs) as [Hobjects Hids].
  split_and!; [done|done|intros _; split].
  - intros l r Hr; apply Hgone', Hobjects; by exists r.
  - assert (forall r, r ∈ rows_of (Files.db self) (TABLE DucklakeFilesScheduledForDeletion) ->
      exists v, field "data_file_id" r = SInt v) as Hint.
    { intros r Hr; destruct Hscheduled as [(ids & Heq & _) _].
      apply (list_elem_of_fmap_2 (field "data_file_id")) in Hr; rewrite Heq in Hr.
      apply list_elem_of_fmap in Hr as (v & ? & _); by exists v. }
    intros r; split.
    + intros Hr; destruct (Hint r (Hsub r Hr)) as [v Hv]; destruct (proj1 (Hdeleted r v Hv) Hr) as [Hr' Hnot].
      split; [done|]; intros Hw; by apply Hnot, (Hids r v Hr' Hv).
    + intros [Hr Hw]; destruct (Hint r Hr) as [v Hv]; apply (Hdeleted r v Hv); split; [done|].
      intros Hin; by apply Hw, (Hids r v Hr Hv).
Qed.
End CleanupFacts.

(** ** At a concrete store *)

(** Objects at their paths, in a store that never fails *)
Definition demo_list_objects (prefix : string) (store : gmap string (DateTimeUtc (External := demo_external)))
    : result (list (string * DateTimeUtc)) :=
  Ok (List.filter (fun o => String.prefix prefix o.1) (map_to_list store)).
Definition demo_delete_stream (locations : list string)
    (store : gmap string (DateTimeUtc (External := demo_external)))
    : list Deletion * gmap string (DateTimeUtc (External := demo_external)) :=
  ((fun _ => Gone) <$> locations, foldr delete store locations).

Lemma demo_list_objects_stored prefix store listing : demo_list_objects prefix store = Ok listing ->
  Forall (fun o => store !! o.1 = Some o.2) listing.
Proof.
  intros [= <-]; apply Forall_forall; intros [l v] [Ho _]%elem_of_filter_bool.
  by apply elem_of_map_to_list in Ho.
Qed.
Lemma demo_delete_stream_length locations store :
  length (demo_delete_stream locations store).1 = length locations.
Proof. apply length_fmap. Qed.
Lemma demo_delete_stream_others locations store l : l ∉ locations ->
  (demo_delete_stream locations store).2 !! l = store !! l.
Proof.
  cbn; induction locations as [|l' ls IH]; cbn; [done|].
  intros [Hne Hl]%not_elem_of_cons; rewrite lookup_delete_ne by congruence; by apply IH.
Qed.
Lemma demo_delete_stream_gone locations store i l : locations !! i = Some l ->
  (forall e, (demo_delete_stream locations store).1 !! i <> Some (Failed e)) ->
  (demo_delete_stream locations store).2 !! l = None.
Proof.
  intros Hl%list_elem_of_lookup_2 _; cbn; induction locations as [|l' ls IH]; [by apply elem_of_nil in Hl|].
  cbn; apply lookup_delete_None; destruct (decide (l' = l)) as [|Hne]; [by left|right].
  apply IH; by apply elem_of_cons in Hl as [->|].
Qed.

#[export] Instance demo_store : ObjectStore := {|
  Location := string;
  resolve path := Ok (DucklakePath.as_str path);
  display_location _ l := l;
  list_objects := demo_list_objects;
  list_objects_stored := demo_list_objects_stored;
  delete_stream := demo_delete_stream;
  delete_stream_length := demo_delete_stream_length;
  delete_stream_others := demo_delete_stream_others;
  delete_stream_gone := demo_delete_stream_gone;
|}.

Definition files_metadata : Metadata :=
  Metadata.mk {[keys.DATA_PATH := "lake/"]} ∅ ∅.

(** Two files scheduled for deletion, at times 100 and 900, a data file of
    a table that was dropped, and an object nobody knows *)
Definition scheduled_old : DucklakeFilesScheduledForDeletion :=
  DucklakeFilesScheduledForDeletion.mk 6 "old" true (100 : Z).
Definition scheduled_new : DucklakeFilesScheduledForDeletion :=
  DucklakeFilesScheduledForDeletion.mk 7 "new" true (900 : Z).
Definition dropped_file : DucklakeDataFile :=
  DucklakeDataFile.mk 5 2 1 (Some 2%Z) None "kept" true "parquet" 1 None None None None None None None.
Definition files_demo (data_files : list DucklakeDataFile) : Files.t :=
  Files.mk
    (list_to_map [demo_table DucklakeDataFile data_files; demo_table DucklakeDeleteFile [];
       demo_table DucklakeFilesScheduledForDeletion [scheduled_old; scheduled_new]])
    (list_to_map [("lake/kept", 50 : Z); ("lake/old", 50 : Z); ("lake/new", 50 : Z);
       ("lake/stray", 50 : Z)]).

Definition cleanup_demo : outcome DucklakeError (list string) * Files.t :=
  Files.cleanup_old_files_filtered Dialect.Sqlite files_metadata (Ok tt) None None
    (Files.OlderThan (500 : Z)) No (files_demo [dropped_file]).
Definition orphans_demo (data_files : list DucklakeDataFile) : outcome DucklakeError (list string) * Files.t :=
  Files.delete_orphaned_files_filtered files_metadata (Ok tt) (Ok Catalog.empty)
    (Some (500 : Z)) No (files_demo data_files).


Lemma files_demo_scheduled data_files : scheduled_files (Files.db (files_demo data_files)).
Proof.
  split.
  - exists [6; 7]%Z; split; [reflexivity|]; apply (bool_decide_unpack _); vm_compute; exact I.
  - intros r Hr; change (rows_of _ _) with
      [to_row scheduled_old; to_row scheduled_new] in Hr.
    apply elem_of_cons in Hr as [->|Hr]; [by eexists|].
    apply list_elem_of_singleton in Hr as ->; by eexists.
Qed.

(** The file scheduled at 100 goes, with its row; that scheduled at 900 stays. *)
Lemma cleanup_deletes_selected_witness :
  cleanup_demo.1 = Ok ["lake/old"] /\ Files.store cleanup_demo.2 !! "lake/old" = None /\
  to_row scheduled_old ∉
    rows_of (Files.db cleanup_demo.2) (TABLE DucklakeFilesScheduledForDeletion) /\
  to_row scheduled_new ∈
    rows_of (Files.db cleanup_demo.2) (TABLE DucklakeFilesScheduledForDeletion) /\
  Files.store cleanup_demo.2 !! "lake/new" = Some (50 : Z).
Proof.
  assert (Hok : cleanup_demo.1 = Ok ["lake/old"]) by (vm_compute; reflexivity).
  split; [exact Hok|].
  pose proof (cleanup_deletes_selected (EXT := demo_external) files_metadata (Ok tt) Dialect.Sqlite None None
    (Files.OlderThan (500 : Z)) (files_demo [dropped_file]) (DucklakePath.Relative "lake/") eq_refl
    (files_demo_scheduled _)) as H.
  fold cleanup_demo in H; destruct cleanup_demo as [res self'] eqn:E; cbn in Hok; subst res.
  destruct H as (_ & _ & H); destruct (H eq_refl) as [Hsel Hrows].
  assert (asked_for (Files.OlderThan (500 : Z)) (to_row scheduled_old)) as Hold.
  { exists (100 : Z); split; reflexivity. }
  split_and!.
  - apply (Hsel "lake/old" (to_row scheduled_old)); split_and!; [by left|exact Hold|vm_compute; reflexivity].
  - intros [_ Hnot]%Hrows; exact (Hnot Hold).
  - apply Hrows; split; [right; left|]; intros (t & [= <-] & Hb); discriminate Hb.
  - transitivity (Files.store cleanup_demo.2 !! "lake/new"); [by rewrite E|vm_compute; reflexivity].
Defined.

Lemma orphans_are_unmentioned_witness :
  (orphans_demo []).1 = Ok ["lake/kept"; "lake/stray"] /\
  Files.store (orphans_demo []).2 !! "lake/old" = Some (50 : Z).
Proof.
  split; [vm_compute; reflexivity|].
  refine (proj1 (orphans_are_unmentioned (EXT := demo_external) files_metadata (Ok tt) (Ok Catalog.empty) (Some (500 : Z)) No
    (files_demo []) "lake/old" (50 : Z) eq_refl _)).
  left; exists Catalog.empty, (DucklakePath.Relative "lake/"); split_and!; [done|done|].
  right; exists (to_row scheduled_old); split; [by left|vm_compute; reflexivity].
Defined.

Lemma dropped_table_blocks_orphans_witness :
  is_ok (orphans_demo []).1 = true /\ is_ok (orphans_demo [dropped_file]).1 = false.
Proof.
  split; [vm_compute; reflexivity|].
  apply (dropped_table_blocks_orphans (EXT := demo_external) files_metadata (Ok tt) (Ok Catalog.empty) (Some (500 : Z)) No
    (files_demo [dropped_file]) Catalog.empty (to_row dropped_file) 2);
    [done|by left|vm_compute; reflexivity|vm_compute; reflexivity].
Defined.
