(* ===== verification/Cache.v ===== *)
(** * The snapshot cache ([caches/], [primitives/weak_cache.rs])

    Snapshots share the catalogs and the statistics of tables through caches that
    do not keep them alive: a value is found under its key as long as somebody
    holds a snapshot that uses it. The heap of the process is explicit. *)

From S2P Require Import Prelude Text Regex Identifier Types Instances Entities CatalogColumns.
From S2P Require Import Catalog TableStats CommitState Dialect Database Load Persist Commit.

(** ** Weak pointers by key ([WeakCache]) *)

Module WeakCache.
Section WeakCache.
Context {K V : Type} `{Countable K}.

(** The map of weak pointers, and the heap of values they point into; a pointer
    can be upgraded while its value is alive. *)
Record t : Type := mk { values : gmap K nat; heap : list V }.

Definition new : t := mk ∅ [].

(** [values.retain(|_, v| v.strong_count() > 0)] *)
Definition retain (alive : nat -> bool) (m : gmap K nat) : gmap K nat :=
  filter (fun kv => alive kv.2 = true) m.

Definition insert_new (alive : nat -> bool) (key : K) (init : V) (self : t) : nat * t :=
  let p := length (heap self) in
  (p, mk (<[key := p]> (retain alive (values self))) (heap self ++ [init])).

Definition get_or_insert_with (alive : nat -> bool) (key : K) (init : V) (self : t) : nat * t :=
  match values self !! key with
  | Some p => if alive p then (p, self) else insert_new alive key init self
  | None => insert_new alive key init self
  end.
End WeakCache.
#[global] Arguments t _ _ {_ _}.
#[global] Arguments mk {_ _ _ _} values heap.
End WeakCache.

(** A lazily loaded value ([AsyncLazy]) with the snapshot its loader was created for *)
Module Cell.
Record t (A : Type) : Type := mk { loads_at : Z; value : option A }.
#[global] Arguments mk {A} loads_at value.
#[global] Arguments loads_at {A} _.
#[global] Arguments value {A} _.
End Cell.

(** [Snapshot]: what it shares is a pointer into the heap of its cache. *)
Module Snapshot.
Record t `{External} : Type := mk { info : SnapshotInfo; catalog : nat; table_stats : nat }.
#[global] Arguments mk {_} info catalog table_stats.
End Snapshot.
Abbreviation Snapshot := Snapshot.t.

(** The caches of a process, its heap of snapshots, the pointer to the head and
    the pointers the rest of the process holds *)
Module Process.
Record t `{External} : Type := mk {
  catalogs : WeakCache.t Z (Cell.t Catalog);
  stats : WeakCache.t (Z * Z) (Cell.t (gmap Z TableStats));
  snapshots : list Snapshot;
  current : nat;
  held : list nat;
}.
#[global] Arguments mk {_} catalogs stats snapshots current held.
Definition eta `{External} (p : t) : t :=
  mk (catalogs p) (stats p) (snapshots p) (current p) (held p).
#[export] Instance set_catalogs `{External} : Setter catalogs := ltac:(mk_setter eta catalogs).
#[export] Instance set_stats `{External} : Setter stats := ltac:(mk_setter eta stats).
#[export] Instance set_snapshots `{External} : Setter snapshots := ltac:(mk_setter eta snapshots).
#[export] Instance set_current `{External} : Setter current := ltac:(mk_setter eta current).
#[export] Instance set_held `{External} : Setter held := ltac:(mk_setter eta held).
End Process.
#[export] Existing Instances Process.set_catalogs Process.set_stats Process.set_snapshots
  Process.set_current Process.set_held.
Abbreviation Process := Process.t.

(** ** Finding snapshots ([SnapshotInfo]) *)

Section Lookup.
Context `{EXT : External} `{CMP : !SqlCompare} `{ENGINE : !SqlEngine}.

(** [ORDER BY column DESC LIMIT 1] *)
Definition greatest_by (column : string) (rows : list row) : option row :=
  foldr (fun r best =>
    match best with
    | Some b => if sql_le (field column b) (field column r) then Some r else best
    | None => Some r
    end) None rows.
(** [ORDER BY column ASC LIMIT 1] *)
Definition least_by (column : string) (rows : list row) : option row :=
  foldr (fun r best =>
    match best with
    | Some b => if sql_le (field column r) (field column b) then Some r else best
    | None => Some r
    end) None rows.

(** [fetch_one] into the entity of a snapshot *)
Definition fetched_snapshot (r : option row) : result SnapshotInfo :=
  r ← ok_or Persist.row_not_found r;
  s ← ok_or (Database false false "column decoding error") (from_row r);
  mret (SnapshotInfo.from_snapshot s).

Definition load_for_id (snapshot_id : Z) (db : Db) : result SnapshotInfo :=
  rows ← select (TABLE DucklakeSnapshot) (Cond.Eq "snapshot_id" (to_sql snapshot_id)) db;
  fetched_snapshot (head rows).

(** [WHERE snapshot_time <= timestamp] *)
Definition load_for_timestamp (timestamp : DateTimeUtc) (db : Db) : result SnapshotInfo :=
  rows ← select (TABLE DucklakeSnapshot) any_row db;
  fetched_snapshot (greatest_by "snapshot_time"
    (List.filter (fun r => sql_le (field "snapshot_time" r) (to_sql timestamp)) rows)).

Definition load_for_schema_version (schema_version : Z) (db : Db) : result (option SnapshotInfo) :=
  rows ← select (TABLE DucklakeSnapshot) (Cond.Eq "schema_version" (to_sql schema_version)) db;
  match greatest_by "snapshot_id" rows with
  | Some r => Some <$> fetched_snapshot (Some r)
  | None => mret None
  end.

(** The snapshots of the version are gone: the earliest one recorded for it stands
    for them; the other numbers are fake. [epoch] is 1970. *)
Definition synthesize_for_schema_version (epoch : DateTimeUtc) (schema_version : Z) (db : Db)
    : result SnapshotInfo :=
  rows ← select (TABLE DucklakeSchemaVersions) (Cond.Eq "schema_version" (to_sql schema_version)) db;
  r ← ok_or Persist.row_not_found (least_by "begin_snapshot" rows);
  begin_snapshot ← ok_or (Database false false "column decoding error") (get_column "begin_snapshot" r);
  mret (SnapshotInfo.mk begin_snapshot schema_version (-1) (-1) epoch).
End Lookup.

(** ** The cache ([SnapshotCache]) *)

Module SnapshotCache.
Section SnapshotCache.
Context `{EXT : External} `{CMP : !SqlCompare} `{ENGINE : !SqlEngine} `{ENG : !RegexEngine}
  `{TXT : !ValueText} `{HASH : HashOrder}.

Definition snapshot (self : Process) (p : nat) : option Snapshot := Process.snapshots self !! p.

(** A shared value is alive while a snapshot that uses it is held, by the cache
    itself or by others. *)
Definition roots (self : Process) : list nat := Process.current self :: Process.held self.
Definition alive (f : Snapshot -> nat) (self : Process) (cell : nat) : bool :=
  existsb (fun p => match snapshot self p with
                    | Some s => Nat.eqb (f s) cell
                    | None => false
                    end) (roots self).

(** [Snapshot::new], with [CatalogCache::get] and [TableStatsCache::get] *)
Definition new_snapshot (info : SnapshotInfo) : method Process nat :=
  self ← st_get;
  let id := SnapshotInfo.id info in
  let '(catalog, catalogs) := WeakCache.get_or_insert_with (alive Snapshot.catalog self)
    (SnapshotInfo.schema_version info) (Cell.mk id None) (Process.catalogs self) in
  let '(stats, stats_cache) := WeakCache.get_or_insert_with (alive Snapshot.table_stats self)
    (SnapshotInfo.schema_version info, SnapshotInfo.next_file_id info) (Cell.mk id None)
    (Process.stats self) in
  let p := length (Process.snapshots self) in
  st_modify (fun self => self <| Process.catalogs := catalogs |> <| Process.stats := stats_cache |>
    <| Process.snapshots ::= fun l => l ++ [Snapshot.mk info catalog stats] |>) ;;
  mret p.

(** The caller holds the snapshot a method returns. *)
Definition hold (p : nat) : method Process nat :=
  st_modify (fun self => self <| Process.held ::= fun l => p :: l |>) ;; mret p.

Definition info_of (p : nat) : method Process SnapshotInfo :=
  self ← st_get;
  s ← st_lift (unwrap (snapshot self p));
  mret (Snapshot.info s).

Definition get_current : method Process nat :=
  self ← st_get; hold (Process.current self).

(** The head never moves backwards. *)
Definition insert_snapshot (info : SnapshotInfo) : method Process nat :=
  self ← st_get;
  current ← info_of (Process.current self);
  if decide (SnapshotInfo.id current = SnapshotInfo.id info) then hold (Process.current self)
  else
    p ← new_snapshot info;
    (if decide (SnapshotInfo.id current < SnapshotInfo.id info)%Z
     then st_modify (fun self => self <| Process.current := p |>) else mret tt) ;;
    hold p.

Definition get_snapshot (info : SnapshotInfo) : method Process nat :=
  self ← st_get;
  current ← info_of (Process.current self);
  if decide (SnapshotInfo.id current = SnapshotInfo.id info) then hold (Process.current self)
  else p ← new_snapshot info; hold p.

(** [get_latest]: the latest snapshot of the database becomes the head. *)
Definition get_latest (db : Db) : method Process nat :=
  info ← st_lift (Commit.load_latest db); insert_snapshot info.

Definition get_for_schema_version (epoch : DateTimeUtc) (schema_version : Z) (db : Db)
    : method Process nat :=
  self ← st_get;
  current ← info_of (Process.current self);
  if decide (SnapshotInfo.schema_version current = schema_version) then hold (Process.current self)
  else
    found ← st_lift (load_for_schema_version schema_version db);
    match found with
    | Some info => get_snapshot info
    | None =>
        info ← st_lift (synthesize_for_schema_version epoch schema_version db);
        p ← new_snapshot info; hold p
    end.

(** [SnapshotCache::new]: the head is the given snapshot, or the latest one. *)
Definition new (travel : option SnapshotInfo) (db : Db) : result Process :=
  info ← match travel with Some info => Ok info | None => Commit.load_latest db end;
  mret (Process.mk
    (WeakCache.get_or_insert_with (fun _ => false) (SnapshotInfo.schema_version info)
       (Cell.mk (SnapshotInfo.id info) None) WeakCache.new).2
    (WeakCache.get_or_insert_with (fun _ => false)
       (SnapshotInfo.schema_version info, SnapshotInfo.next_file_id info)
       (Cell.mk (SnapshotInfo.id info) None) WeakCache.new).2
    [Snapshot.mk info 0 0] 0 []).

(** ** Loading what snapshots share *)

(** The rows a catalog is loaded from, on one state of the database *)
Definition fetch_catalog (snapshot_id : Z) (db : Db) : result Fetched :=
  schemas ← snapshot_query DucklakeSchema snapshot_id db;
  tables ← snapshot_query DucklakeTable snapshot_id db;
  views ← snapshot_query DucklakeView snapshot_id db;
  macros ← snapshot_query DucklakeMacro snapshot_id db;
  macro_impls ← in_active DucklakeMacroImpl DucklakeMacro "macro_id" snapshot_id db;
  macro_parameters ← in_active DucklakeMacroParameters DucklakeMacro "macro_id" snapshot_id db;
  columns ← snapshot_query DucklakeColumn snapshot_id db;
  tags ← snapshot_query DucklakeTag snapshot_id db;
  column_tags ← snapshot_query DucklakeColumnTag snapshot_id db;
  partition_infos ← snapshot_query DucklakePartitionInfo snapshot_id db;
  partition_columns ← fetch_all DucklakePartitionColumn db;
  sort_infos ← snapshot_query DucklakeSortInfo snapshot_id db;
  sort_expressions ← in_active DucklakeSortExpression DucklakeSortInfo "sort_id" snapshot_id db;
  mret (mk_Fetched schemas tables views macros macro_impls macro_parameters columns tags column_tags
    partition_infos partition_columns sort_infos sort_expressions).
Definition load_catalog (snapshot_id : Z) (db : Db) : result Catalog :=
  f ← fetch_catalog snapshot_id db; build_catalog f.

Definition load_table_stats (catalog : Catalog) (snapshot_id : Z) (db : Db)
    : result (gmap Z TableStats) :=
  tables ← join_active DucklakeTableStats DucklakeTable ["table_id"] snapshot_id db;
  columns ← join_active DucklakeTableColumnStats DucklakeColumn ["table_id"; "column_id"]
              snapshot_id db;
  build_table_stats catalog tables columns.

(** [OnceCell::get_or_try_init]: a failed initialisation leaves the cell empty. *)
Definition get_or_try_init {A} (cell : nat) (init : Z -> result A) : method (list (Cell.t A)) A :=
  heap ← st_get;
  c ← st_lift (unwrap (heap !! cell));
  match Cell.value c with
  | Some a => mret a
  | None =>
      a ← st_lift (init (Cell.loads_at c));
      st_modify (fun heap => <[cell := Cell.mk (Cell.loads_at c) (Some a)]> heap) ;;
      mret a
  end.

Definition on_catalogs {A} (m : method (list (Cell.t Catalog)) A) : method Process A :=
  st_zoom (fun self => WeakCache.heap (Process.catalogs self))
    (fun heap self => self <| Process.catalogs ::= fun c => WeakCache.mk (WeakCache.values c) heap |>) m.
Definition on_stats {A} (m : method (list (Cell.t (gmap Z TableStats))) A) : method Process A :=
  st_zoom (fun self => WeakCache.heap (Process.stats self))
    (fun heap self => self <| Process.stats ::= fun c => WeakCache.mk (WeakCache.values c) heap |>) m.

(** [Snapshot::catalog] and [Snapshot::table_stats] of the snapshot at [p] *)
Definition catalog (p : nat) (db : Db) : method Process Catalog :=
  self ← st_get;
  s ← st_lift (unwrap (snapshot self p));
  on_catalogs (get_or_try_init (Snapshot.catalog s) (fun id => load_catalog id db)).
Definition table_stats (p : nat) (db : Db) : method Process (gmap Z TableStats) :=
  c ← catalog p db;
  self ← st_get;
  s ← st_lift (unwrap (snapshot self p));
  on_stats (get_or_try_init (Snapshot.table_stats s) (fun id => load_table_stats c id db)).

(** Somebody lets go of a snapshot. *)
Definition release (p : nat) : method Process unit :=
  st_modify (fun self => self <| Process.held ::= fun l =>
    match list_find (eq p) l with Some (i, _) => delete i l | None => l end |>).
End SnapshotCache.
End SnapshotCache.
