(* ===== verification/CacheFacts.v ===== *)
(** * What the snapshot cache guarantees ([caches/])

    The process and its database as a transition system: methods of the cache
    run, snapshots are released, and other clients commit and expire snapshots
    at any moment. A catalog that is read through the cache was loaded from
    exactly the rows its snapshot sees, and the head never moves back. *)

From S2P Require Import Prelude Triple Text Regex Identifier Types Instances Entities.
From S2P Require Import CatalogColumns Catalog TableStats CommitState Dialect Database Load Persist.
From S2P Require Import Stamps History Transactions Commit Demo CommitFacts StatsKey DataCommit Cache.
From S2P Require Import Change Executors Expire ExpireFacts.

Section Contract.
Context `{EXT : External} `{CMP : !SqlCompare}.

(** ** The database under the cache *)

(** The versioned tables among those a catalog is loaded from *)
Definition view_tables : list string :=
  [TABLE DucklakeSchema; TABLE DucklakeTable; TABLE DucklakeView; TABLE DucklakeMacro;
   TABLE DucklakeColumn; TABLE DucklakeTag; TABLE DucklakeColumnTag; TABLE DucklakePartitionInfo;
   TABLE DucklakeSortInfo].

(** What a snapshot sees of the catalog *)
Definition view (db : Db) (snapshot_id : Z) : list (list row) :=
  (fun table => seen db table snapshot_id) <$> view_tables.

(** A snapshot of the schema version is still there. *)
Definition live (db : Db) (version : Z) : Prop :=
  exists r, r ∈ rows_of db (TABLE DucklakeSnapshot) /\ field "schema_version" r = SInt version.

(** The numbers and schema versions of the snapshots there have been so far *)
Abbreviation Known := (list (Z * Z)).

(** [known] covers the snapshots and the recorded schema versions of the database,
    and the snapshots of a version that is still there see the same catalog. *)
Record recorded (known : Known) (db : Db) : Prop := {
  snapshots_known r id version : r ∈ rows_of db (TABLE DucklakeSnapshot) ->
    field "snapshot_id" r = SInt id -> field "schema_version" r = SInt version ->
    (id, version) ∈ known;
  versions_known r id version : r ∈ rows_of db (TABLE DucklakeSchemaVersions) ->
    field "begin_snapshot" r = SInt id ->
    sql_eq (field "schema_version" r) (SInt version) = true -> (id, version) ∈ known;
  versions_agree id id' version : (id, version) ∈ known -> (id', version) ∈ known ->
    live db version -> view db id = view db id';
}.

(** What clients do to the database: snapshots are added and expired, and the
    snapshots of a version that is still there see what they saw. *)
Record evolves (known : Known) (db : Db) (known' : Known) (db' : Db) : Prop := {
  evolves_recorded : recorded known' db';
  evolves_known : known ⊆ known';
  evolves_live id version : (id, version) ∈ known -> live db' version -> live db version;
  evolves_view id version : (id, version) ∈ known -> live db' version -> view db' id = view db id;
}.
End Contract.

Section CacheFacts.
Context `{EXT : External} `{CMP : !SqlCompare} `{ENGINE : !SqlEngine} `{ENG : !RegexEngine}
  `{TXT : !ValueText} `{HASH : HashOrder}.

(** ** Steps *)

Definition known_info (known : list (Z * Z)) (info : SnapshotInfo) : Prop :=
  (SnapshotInfo.id info, SnapshotInfo.schema_version info) ∈ known.

(** The methods of the cache that other parts of the process call; snapshots are
    inserted and looked up by what was read from the database at some time. *)
Inductive operation (known : list (Z * Z)) (db : Db) : (Process -> Process) -> Prop :=
  | op_get_latest : operation known db (fun self => (SnapshotCache.get_latest db self).2)
  | op_get_current : operation known db (fun self => (SnapshotCache.get_current self).2)
  | op_insert info : known_info known info ->
      operation known db (fun self => (SnapshotCache.insert_snapshot info self).2)
  | op_get info : known_info known info ->
      operation known db (fun self => (SnapshotCache.get_snapshot info self).2)
  | op_get_for_schema_version epoch version :
      operation known db (fun self => (SnapshotCache.get_for_schema_version epoch version db self).2)
  | op_catalog p : operation known db (fun self => (SnapshotCache.catalog p db self).2)
  | op_table_stats p : operation known db (fun self => (SnapshotCache.table_stats p db self).2)
  | op_release p : operation known db (fun self => (SnapshotCache.release p self).2).

Record World : Type := mk_World { known : list (Z * Z); database : Db; process : Process }.

Inductive step : World -> World -> Prop :=
  | step_operation k db self f : operation k db f -> step (mk_World k db self) (mk_World k db (f self))
  | step_database k db k' db' self : evolves k db k' db' ->
      step (mk_World k db self) (mk_World k' db' self).

(** A process that connected to the latest snapshot or to one it looked up *)
Definition initial (w : World) : Prop :=
  recorded (known w) (database w) /\
  exists travel, SnapshotCache.new travel (database w) = Ok (process w) /\
    forall info, travel = Some info -> known_info (known w) info.

(** ** The invariant *)

(** The catalog in a cell was loaded from what its snapshot still sees. *)
Definition cell_ok (k : list (Z * Z)) (db : Db) (version : Z) (c : Cell.t Catalog) : Prop :=
  (Cell.loads_at c, version) ∈ k /\
  forall catalog, Cell.value c = Some catalog -> live db version ->
    exists db0, SnapshotCache.load_catalog (Cell.loads_at c) db0 = Ok catalog /\
      view db0 (Cell.loads_at c) = view db (Cell.loads_at c).

Definition points_to (k : list (Z * Z)) (db : Db) (self : Process) (version : Z) (p : nat) : Prop :=
  exists c, WeakCache.heap (Process.catalogs self) !! p = Some c /\ cell_ok k db version c.

Record coherent (k : list (Z * Z)) (db : Db) (self : Process) : Prop := {
  coherent_map version p : WeakCache.values (Process.catalogs self) !! version = Some p ->
    points_to k db self version p;
  coherent_snapshots p s : Process.snapshots self !! p = Some s ->
    known_info k (Snapshot.info s) /\
    points_to k db self (SnapshotInfo.schema_version (Snapshot.info s)) (Snapshot.catalog s);
}.

Lemma cell_ok_evolves k db k' db' version c :
  evolves k db k' db' -> cell_ok k db version c -> cell_ok k' db' version c.
Proof.
  intros He [Hk Hv]. split; [by apply (evolves_known _ _ _ _ He)|]. intros catalog Hc Hl.
  destruct (Hv catalog Hc) as (db0 & Hload & Hview); [by eapply evolves_live|].
  exists db0. split; [done|]. rewrite Hview. symmetry. by eapply evolves_view.
Qed.

Lemma coherent_evolves k db k' db' self :
  evolves k db k' db' -> coherent k db self -> coherent k' db' self.
Proof.
  intros He [Hm Hs]. split.
  - intros version p (c & Hc & Hok)%Hm. exists c. split; [done|]. by eapply cell_ok_evolves.
  - intros p s (Hk & c & Hc & Hok)%Hs. split; [by apply (evolves_known _ _ _ _ He)|].
    exists c. split; [done|]. by eapply cell_ok_evolves.
Qed.

(** *** Methods keep it *)

Context (k : list (Z * Z)) (db : Db) (Hrec : recorded k db).
Local Abbreviation keeps m := (triple (coherent k db) m any).

Lemma get_or_insert_pointer (alive : nat -> bool) version (c : Cell.t Catalog) cache p cache' :
  (forall v q, WeakCache.values cache !! v = Some q ->
     exists d, WeakCache.heap cache !! q = Some d /\ cell_ok k db v d) ->
  cell_ok k db version c ->
  WeakCache.get_or_insert_with alive version c cache = (p, cache') ->
  (exists d, WeakCache.heap cache' !! p = Some d /\ cell_ok k db version d) /\
  (forall v q, WeakCache.values cache' !! v = Some q ->
     exists d, WeakCache.heap cache' !! q = Some d /\ cell_ok k db v d) /\
  (forall q d, WeakCache.heap cache !! q = Some d -> WeakCache.heap cache' !! q = Some d).
Proof.
  intros Hm Hc. unfold WeakCache.get_or_insert_with, WeakCache.insert_new.
  assert (forall q d, WeakCache.heap cache !! q = Some d ->
    (WeakCache.heap cache ++ [c]) !! q = Some d) as Hgrow by (intros; by apply lookup_app_l_Some).
  assert ((WeakCache.heap cache ++ [c]) !! length (WeakCache.heap cache) = Some c) as Hnew
    by (by apply list_lookup_middle).
  assert (forall alive, (exists d, (WeakCache.heap cache ++ [c]) !! length (WeakCache.heap cache) = Some d /\
      cell_ok k db version d) /\
    (forall v q, (<[version := length (WeakCache.heap cache)]>
        (WeakCache.retain alive (WeakCache.values cache)) : gmap Z nat) !! v = Some q ->
      exists d, (WeakCache.heap cache ++ [c]) !! q = Some d /\ cell_ok k db v d)) as Hins.
  { intros al. split; [eauto|]. intros v q [[<- <-]|[_ Hq]]%lookup_insert_Some; [eauto|].
    apply map_lookup_filter_Some in Hq as [(d & Hd & Hok)%Hm _]. eauto. }
  destruct (WeakCache.values cache !! version) as [q|] eqn:Hq; [destruct (alive q)|];
    intros [= <- <-]; cbn; [|by destruct (Hins alive) as [? ?]..].
  apply Hm in Hq. split; [done|]. by split.
Qed.

Lemma keeps_new_snapshot info : known_info k info -> keeps (SnapshotCache.new_snapshot info).
Proof.
  intros Hinfo self [Hm Hs]. unfold SnapshotCache.new_snapshot, mbind, stateful_bind, st_get.
  destruct (WeakCache.get_or_insert_with _ _ _ (Process.catalogs self)) as [p cache] eqn:Hc.
  destruct (WeakCache.get_or_insert_with _ _ _ (Process.stats self)) as [q stats].
  cbn -[length app]. split; [|done].
  apply (get_or_insert_pointer _ _ _ _ _ _ Hm) in Hc as (Hp & Hmap & Hgrow); [|by split].
  split; cbn -[app].
  - done.
  - intros r s. rewrite lookup_app_Some. intros [Hr|[_ Hr]].
    + apply Hs in Hr as (Hk & d & Hd & Hok). split; [done|]. exists d. split; [|done]. by apply Hgrow.
    + apply list_lookup_singleton_Some in Hr as [_ <-]. by split.
Qed.

Lemma keeps_hold p : keeps (SnapshotCache.hold p).
Proof.
  unfold SnapshotCache.hold. eapply triple_bind; [|intros _ _; by apply triple_ret].
  apply triple_modify. by intros self [].
Qed.
Lemma keeps_info_of p : keeps (SnapshotCache.info_of p).
Proof.
  unfold SnapshotCache.info_of. eapply triple_bind; [apply triple_get|]. intros self _.
  eapply (triple_bind _ _ _ any); [by apply triple_lift|]. intros s _. by apply triple_ret.
Qed.

Lemma keeps_insert_snapshot info : known_info k info -> keeps (SnapshotCache.insert_snapshot info).
Proof.
  intros Hinfo. unfold SnapshotCache.insert_snapshot.
  eapply triple_bind; [apply triple_get|]. intros self _.
  eapply triple_bind; [apply keeps_info_of|]. intros current _.
  case_decide; [apply keeps_hold|].
  eapply triple_bind; [by apply keeps_new_snapshot|]. intros p _.
  eapply (triple_bind _ _ _ any); [|intros _ _; apply keeps_hold].
  case_decide; [|by apply triple_ret]. apply triple_modify. by intros self' [].
Qed.
Lemma keeps_get_snapshot info : known_info k info -> keeps (SnapshotCache.get_snapshot info).
Proof.
  intros Hinfo. unfold SnapshotCache.get_snapshot.
  eapply triple_bind; [apply triple_get|]. intros self _.
  eapply triple_bind; [apply keeps_info_of|]. intros current _.
  case_decide; [apply keeps_hold|].
  eapply triple_bind; [by apply keeps_new_snapshot|]. intros p _. apply keeps_hold.
Qed.

(** *** What is looked up in the database is known *)

Lemma decoded_version r (x : DucklakeSnapshot) :
  from_row r = Some x -> field "schema_version" r = SInt (DucklakeSnapshot.schema_version x).
Proof.
  cbn; destruct (get_column "snapshot_id" r) as [i|]; cbn; [|done].
  destruct (get_column "snapshot_time" r); cbn; [|done].
  destruct (get_column "schema_version" r) as [z|] eqn:Hz; cbn; [|done].
  destruct (get_column "next_catalog_id" r); cbn; [|done].
  destruct (get_column "next_file_id" r); cbn; [|done].
  intros [= <-]; by apply get_column_Z.
Qed.

Lemma known_row r (x : DucklakeSnapshot) :
  r ∈ rows_of db (TABLE DucklakeSnapshot) -> from_row r = Some x ->
  known_info k (SnapshotInfo.from_snapshot x).
Proof.
  intros Hr Hx. eapply snapshots_known; [exact Hrec|exact Hr|by apply decoded_snapshot|].
  by apply decoded_version.
Qed.

Lemma fetched_known r info :
  (forall r', r = Some r' -> r' ∈ rows_of db (TABLE DucklakeSnapshot)) ->
  fetched_snapshot r = Ok info -> known_info k info.
Proof.
  intros Hr. unfold fetched_snapshot, ok_or. destruct r as [r|]; [|done]. cbn [mbind outcome_bind].
  unfold mbind, outcome_bind. destruct (from_row r) as [x|] eqn:Hx; [|done]. intros [= <-].
  eapply known_row; [by apply Hr|done].
Qed.

Lemma selected_rows table cond rows r :
  select table cond db = Ok rows -> r ∈ rows -> r ∈ rows_of db table.
Proof.
  intros (t & Ht & Hp)%select_rows Hr. unfold rows_of. rewrite Ht. rewrite Hp in Hr.
  by apply elem_of_filter_bool in Hr as [? _].
Qed.

Lemma greatest_by_elem column (rows : list row) r : greatest_by column rows = Some r -> r ∈ rows.
Proof.
  revert r. induction rows as [|x rows IH]; intros r; [done|]. unfold greatest_by in *. cbn.
  match goal with |- context [foldr ?f None rows] => destruct (foldr f None rows) as [b|] end.
  - match goal with |- context [if ?c then _ else _] => destruct c end; intros Hr; injection Hr as <-; [by left|right; by apply IH].
  - intros Hr; injection Hr as <-; by left.
Qed.
Lemma least_by_elem column (rows : list row) r : least_by column rows = Some r -> r ∈ rows.
Proof.
  revert r. induction rows as [|x rows IH]; intros r; [done|]. unfold least_by in *. cbn.
  match goal with |- context [foldr ?f None rows] => destruct (foldr f None rows) as [b|] end.
  - match goal with |- context [if ?c then _ else _] => destruct c end; intros Hr; injection Hr as <-; [by left|right; by apply IH].
  - intros Hr; injection Hr as <-; by left.
Qed.
Lemma latest_of_elem l (x : DucklakeSnapshot) : Commit.latest_of l = Some x -> x ∈ l.
Proof.
  revert x. induction l as [|y l IH]; intros x; [done|]. unfold Commit.latest_of in *. cbn.
  match goal with |- context [foldr ?f None l] => destruct (foldr f None l) as [b|] end.
  - match goal with |- context [if ?c then _ else _] => destruct c end; intros Hr; injection Hr as <-; [by left|right; by apply IH].
  - intros Hr; injection Hr as <-; by left.
Qed.

Lemma load_latest_known info : Commit.load_latest db = Ok info -> known_info k info.
Proof.
  unfold Commit.load_latest, mbind, outcome_bind.
  destruct (select _ _ _) as [rows| |] eqn:Hrows; [|done..].
  destruct (Tx.decode_rows rows) as [l| |] eqn:Hl; [|done..].
  unfold ok_or. destruct (Commit.latest_of l) as [x|] eqn:Hx; [|done]. intros [= <-].
  apply latest_of_elem in Hx. apply map_outcome_Forall2 in Hl.
  apply list_elem_of_lookup in Hx as [i Hi].
  destruct (Forall2_lookup_r _ _ _ _ _ Hl Hi) as (r & Hr & Hd).
  eapply known_row; [eapply selected_rows; [exact Hrows|by eapply list_elem_of_lookup_2]|].
  destruct (from_row r); cbn in Hd; congruence.
Qed.

Lemma load_for_schema_version_known version info :
  load_for_schema_version version db = Ok (Some info) -> known_info k info.
Proof.
  unfold load_for_schema_version, mbind, outcome_bind.
  destruct (select _ _ _) as [rows| |] eqn:Hrows; [|done..].
  destruct (greatest_by _ rows) as [r|] eqn:Hr; [|done].
  destruct (fetched_snapshot (Some r)) as [i| |] eqn:Hi; [|done..]. intros [= <-].
  eapply fetched_known; [|exact Hi]. intros r' [= <-].
  eapply selected_rows; [exact Hrows|]. by eapply greatest_by_elem.
Qed.

Lemma synthesize_known epoch version info :
  synthesize_for_schema_version epoch version db = Ok info -> known_info k info.
Proof.
  unfold synthesize_for_schema_version, mbind, outcome_bind.
  destruct (select _ _ _) as [rows| |] eqn:Hrows; [|done..].
  unfold ok_or. destruct (least_by _ rows) as [r|] eqn:Hr; [|done].
  destruct (get_column (A := Z) "begin_snapshot" r) as [b|] eqn:Hb; [|done]. intros [= <-].
  apply least_by_elem in Hr. unfold known_info. cbn.
  eapply versions_known; [exact Hrec|by eapply selected_rows|by apply get_column_Z|].
  apply select_rows in Hrows as (t & _ & Hp). rewrite Hp in Hr.
  by apply elem_of_filter_bool in Hr as [_ Hr].
Qed.

(** *** Every operation keeps the cache coherent *)

Lemma keeps_get_current : keeps SnapshotCache.get_current.
Proof.
  unfold SnapshotCache.get_current. eapply triple_bind; [apply triple_get|].
  intros self _. apply keeps_hold.
Qed.

Lemma keeps_get_latest : keeps (SnapshotCache.get_latest db).
Proof.
  unfold SnapshotCache.get_latest.
  eapply (triple_bind _ _ _ (known_info k)); [apply triple_lift, load_latest_known|].
  intros info Hinfo. by apply keeps_insert_snapshot.
Qed.

Lemma keeps_get_for_schema_version epoch version :
  keeps (SnapshotCache.get_for_schema_version epoch version db).
Proof.
  unfold SnapshotCache.get_for_schema_version.
  eapply triple_bind; [apply triple_get|]. intros self _.
  eapply triple_bind; [apply keeps_info_of|]. intros current _.
  case_decide; [apply keeps_hold|].
  eapply (triple_bind _ _ _ (fun found => forall info, found = Some info -> known_info k info)).
  { apply triple_lift. intros found Hf info ->. by eapply load_for_schema_version_known. }
  intros [info|] Hinfo; [by apply keeps_get_snapshot, Hinfo|].
  eapply (triple_bind _ _ _ (known_info k)); [apply triple_lift, synthesize_known|].
  intros info Hi. eapply triple_bind; [by apply keeps_new_snapshot|]. intros p _. apply keeps_hold.
Qed.

Lemma keeps_catalog p : keeps (SnapshotCache.catalog p db).
Proof.
  unfold SnapshotCache.catalog. eapply triple_bind; [apply triple_get|]. intros self0 _.
  eapply (triple_bind _ _ _ any); [by apply triple_lift|]. intros s _.
  intros self [Hm Hs]. unfold SnapshotCache.on_catalogs, st_zoom, SnapshotCache.get_or_try_init.
  unfold mbind, stateful_bind, st_get, st_lift.
  destruct (WeakCache.heap (Process.catalogs self) !! Snapshot.catalog s) as [c|] eqn:Hc;
    cbn [unwrap]; [|by split; [split|]].
  destruct (Cell.value c) as [catalog|] eqn:Hv; [by split; [split|]|].
  destruct (SnapshotCache.load_catalog (Cell.loads_at c) db) as [catalog| |] eqn:Hl;
    [|by split; [split|]..].
  cbn -[insert]. split; [|done].
  assert (forall version q, points_to k db self version q ->
    exists d, (<[Snapshot.catalog s := Cell.mk (Cell.loads_at c) (Some catalog)]>
      (WeakCache.heap (Process.catalogs self))) !! q = Some d /\ cell_ok k db version d) as Hq.
  { intros version q (d & Hd & Hok). destruct (decide (Snapshot.catalog s = q)) as [<-|Hne].
    - exists (Cell.mk (Cell.loads_at c) (Some catalog)).
      rewrite list_lookup_insert_eq by (by eapply lookup_lt_Some). split; [done|].
      rewrite Hc in Hd. injection Hd as <-. destruct Hok as [Hk _]. split; [done|].
      intros x [= <-] _. by exists db.
    - exists d. by rewrite list_lookup_insert_ne. }
  split; cbn -[insert]; [by intros version q ?%Hm%Hq|].
  intros q s' [Hk Hp]%Hs. split; [done|]. by apply Hq.
Qed.

Lemma keeps_table_stats p : keeps (SnapshotCache.table_stats p db).
Proof.
  unfold SnapshotCache.table_stats. eapply triple_bind; [apply keeps_catalog|]. intros c _.
  eapply triple_bind; [apply triple_get|]. intros self _.
  eapply (triple_bind _ _ _ any); [by apply triple_lift|]. intros s _.
  eapply triple_zoom with (J := any); [done| |done]. by intros self' heap [].
Qed.

Lemma keeps_operation f self : operation k db f -> coherent k db self -> coherent k db (f self).
Proof.
  intros Hop Hself. destruct Hop; cbv beta.
  - by apply keeps_get_latest.
  - by apply keeps_get_current.
  - by apply keeps_insert_snapshot.
  - by apply keeps_get_snapshot.
  - by apply keeps_get_for_schema_version.
  - by apply keeps_catalog.
  - by apply keeps_table_stats.
  - by destruct Hself.
Qed.
End CacheFacts.

(** ** Reachable states *)

Section Reachable.
Context `{EXT : External} `{CMP : !SqlCompare} `{ENGINE : !SqlEngine} `{ENG : !RegexEngine}
  `{TXT : !ValueText} `{HASH : HashOrder}.

Definition reachable (w : World) : Prop := exists w0, initial w0 /\ rtc step w0 w.

Definition sound (w : World) : Prop :=
  recorded (known w) (database w) /\ coherent (known w) (database w) (process w).

Lemma initial_sound w : initial w -> sound w.
Proof.
  intros [Hrec (travel & Hnew & Htravel)]. split; [done|].
  unfold SnapshotCache.new, mbind, outcome_bind in Hnew.
  assert (exists info, known_info (known w) info /\ process w = Process.mk
    (WeakCache.get_or_insert_with (fun _ => false) (SnapshotInfo.schema_version info)
       (Cell.mk (SnapshotInfo.id info) None) WeakCache.new).2
    (WeakCache.get_or_insert_with (fun _ => false)
       (SnapshotInfo.schema_version info, SnapshotInfo.next_file_id info)
       (Cell.mk (SnapshotInfo.id info) None) WeakCache.new).2
    [Snapshot.mk info 0 0] 0 []) as (info & Hinfo & ->).
  { destruct travel as [info|].
    - injection Hnew as <-. exists info. split; [by apply Htravel|done].
    - destruct (Commit.load_latest (database w)) as [info| |] eqn:Hl; [|done..].
      injection Hnew as <-. exists info. split; [by eapply load_latest_known|done]. }
  assert (known_info (known w) info /\ cell_ok (known w) (database w)
    (SnapshotInfo.schema_version info) (Cell.mk (SnapshotInfo.id info) None)) as [_ Hok] by done.
  unfold WeakCache.get_or_insert_with. cbn [WeakCache.new WeakCache.values]. rewrite !lookup_empty.
  split; cbn -[insert lookup].
  - intros version p [[<- <-]|[_ Hv]]%lookup_insert_Some; [by eexists|].
    by apply map_lookup_filter_Some in Hv as [? _].
  - intros p s [-> <-]%list_lookup_singleton_Some. split; [done|]. by eexists.
Qed.

Lemma step_sound w w' : step w w' -> sound w -> sound w'.
Proof.
  intros Hs [Hrec Hco]. destruct Hs as [k db self f Hop|k db k' db' self He]; cbn in *.
  - split; [done|]. exact (keeps_operation k db Hrec f self Hop Hco).
  - split; [exact (evolves_recorded _ _ _ _ He)|]. exact (coherent_evolves _ _ _ _ _ He Hco).
Qed.

Lemma reachable_sound w : reachable w -> sound w.
Proof.
  intros (w0 & Hi & Hr). apply initial_sound in Hi. induction Hr as [w|w1 w2 w3 Hs _ IH]; [done|].
  by apply IH, (step_sound w1).
Qed.

(** C5: reading through the cache is as good as reading the database. However
    snapshots were looked up, shared and released, and whatever other clients
    committed and expired in between, the catalog the cache gives for a snapshot
    whose schema version is still there was loaded from exactly the rows that
    snapshot now sees, possibly on behalf of another snapshot and long ago. *)
Theorem cached_catalog_is_current (w : World) (p : nat) (s : Snapshot) (catalog : Catalog)
    (self : Process)
    (Hreach : reachable w)
    (Hsnapshot : SnapshotCache.snapshot (process w) p = Some s)
    (Hlive : live (database w) (SnapshotInfo.schema_version (Snapshot.info s)))
    (Hread : SnapshotCache.catalog p (database w) (process w) = (Ok catalog, self)) :
  exists id db0, SnapshotCache.load_catalog id db0 = Ok catalog /\
    view db0 id = view (database w) (SnapshotInfo.id (Snapshot.info s)).
Proof.
  apply reachable_sound in Hreach as [Hrec [_ Hs]].
  destruct (Hs p s Hsnapshot) as (Hk & c & Hc & Hck & Hcv).
  revert Hread. unfold SnapshotCache.catalog, mbind, stateful_bind, st_get, st_lift.
  rewrite Hsnapshot. cbn [unwrap]. unfold SnapshotCache.on_catalogs, st_zoom,
    SnapshotCache.get_or_try_init, mbind, stateful_bind, st_get, st_lift. rewrite Hc. cbn [unwrap].
  assert (view (database w) (Cell.loads_at c) = view (database w) (SnapshotInfo.id (Snapshot.info s)))
    as Hview by (by eapply versions_agree).
  destruct (Cell.value c) as [v|] eqn:Hv; [|].
  - intros [= <- _]. destruct (Hcv v eq_refl Hlive) as (db0 & Hl & Hv0).
    exists (Cell.loads_at c), db0. split; [done|]. by rewrite Hv0.
  - destruct (SnapshotCache.load_catalog _ _) as [v| |] eqn:Hl; [|done..]. intros [= <- _]. eauto.
Qed.

(** ** The head *)

(** The number of the head *)
Definition head_id (self : Process) : option Z :=
  SnapshotInfo.id ∘ Snapshot.info <$> SnapshotCache.snapshot self (Process.current self).

(** The head is at [n] or later. *)
Definition head_from (n : Z) (self : Process) : Prop := exists m, head_id self = Some m /\ (n <= m)%Z.

Section Head.
Context (n : Z).
Local Abbreviation keeps m := (triple (head_from n) m any).

(** A snapshot is added behind the others; *)
Lemma new_snapshot_adds info self :
  exists self', SnapshotCache.new_snapshot info self = (Ok (length (Process.snapshots self)), self') /\
    Process.current self' = Process.current self /\
    exists s, Process.snapshots self' = Process.snapshots self ++ [s] /\ Snapshot.info s = info.
Proof.
  unfold SnapshotCache.new_snapshot, mbind, stateful_bind, st_get.
  destruct (WeakCache.get_or_insert_with _ _ _ (Process.catalogs self)) as [p catalogs].
  destruct (WeakCache.get_or_insert_with _ _ _ (Process.stats self)) as [q stats].
  eexists. split; [done|]. cbn -[app]. split; [done|]. by eexists.
Qed.

Lemma head_kept self self' :
  Process.current self' = Process.current self ->
  Process.snapshots self `prefix_of` Process.snapshots self' ->
  head_from n self -> head_from n self'.
Proof.
  intros Hc [l Hl] (m & Hm & Hn). exists m. split; [|done]. revert Hm.
  unfold head_id, SnapshotCache.snapshot. rewrite Hc, Hl.
  destruct (Process.snapshots self !! Process.current self) as [s|] eqn:Hs; [|done].
  by rewrite (lookup_app_l_Some _ _ _ _ Hs).
Qed.

Lemma head_new_snapshot info : keeps (SnapshotCache.new_snapshot info).
Proof.
  intros self Hself. destruct (new_snapshot_adds info self) as (self' & -> & Hc & s & Hl & _).
  cbn [fst snd]. split; [|done]. apply (head_kept self); [exact Hc| |exact Hself]. rewrite Hl. by eexists.
Qed.

Lemma head_hold p : keeps (SnapshotCache.hold p).
Proof.
  unfold SnapshotCache.hold. eapply triple_bind; [|intros _ _; by apply triple_ret].
  apply triple_modify. by intros self Hself.
Qed.
Lemma head_info_of p : keeps (SnapshotCache.info_of p).
Proof.
  unfold SnapshotCache.info_of. eapply triple_bind; [apply triple_get|]. intros self _.
  eapply (triple_bind _ _ _ any); [by apply triple_lift|]. intros s _. by apply triple_ret.
Qed.

Lemma head_get_snapshot info : keeps (SnapshotCache.get_snapshot info).
Proof.
  unfold SnapshotCache.get_snapshot. eapply triple_bind; [apply triple_get|]. intros self _.
  eapply triple_bind; [apply head_info_of|]. intros current _. case_decide; [apply head_hold|].
  eapply triple_bind; [by apply head_new_snapshot|]. intros p _. apply head_hold.
Qed.

(** and moving the head to it only moves the head forward. *)
Lemma insert_snapshot_runs info self current :
  head_id self = Some current ->
  exists p self', SnapshotCache.insert_snapshot info self = (Ok p, self') /\
    head_id self' = Some (Z.max current (SnapshotInfo.id info)) /\
    SnapshotInfo.id ∘ Snapshot.info <$> SnapshotCache.snapshot self' p = Some (SnapshotInfo.id info).
Proof.
  unfold head_id, SnapshotCache.snapshot. intros Hh.
  unfold SnapshotCache.insert_snapshot, SnapshotCache.info_of, mbind, stateful_bind, st_get, st_lift.
  unfold SnapshotCache.snapshot.
  destruct (Process.snapshots self !! Process.current self) as [s|] eqn:Hs; [|done].
  injection Hh as Hh. cbn [compose] in Hh. cbn [unwrap mret stateful_ret]. rewrite Hh.
  case_decide as Heq.
  { do 2 eexists. split; [reflexivity|]. cbn. rewrite Hs. cbn. rewrite Hh, <-Heq. split; f_equal; lia. }
  destruct (new_snapshot_adds info self) as (self' & Hnew & Hc & s' & Hl & Hi).
  rewrite Hnew. cbn -[app lookup]. case_decide as Hlt; do 2 eexists; (split; [reflexivity|]);
    cbn -[app lookup]; unfold SnapshotCache.snapshot; cbn -[app lookup]; rewrite Hl.
  - rewrite list_lookup_middle by done. cbn. rewrite Hi. split; f_equal; lia.
  - rewrite Hc, (lookup_app_l_Some _ _ _ _ Hs), list_lookup_middle by done. cbn. rewrite Hi, Hh.
    split; f_equal; lia.
Qed.

Lemma head_insert_snapshot info : keeps (SnapshotCache.insert_snapshot info).
Proof.
  intros self (m & Hm & Hn). destruct (insert_snapshot_runs info self m Hm) as (p & self' & -> & Hh & _).
  split; [|done]. eexists. split; [exact Hh|]. lia.
Qed.

Lemma head_on_cells {T A} get put (m : method T A) :
  (forall t self, head_from n self -> head_from n (put t self)) -> keeps (st_zoom get put m).
Proof.
  intros Hput. apply (triple_zoom _ any); [done|by intros; apply Hput|]. by intros t _.
Qed.

Lemma head_catalog p db : keeps (SnapshotCache.catalog p db).
Proof.
  unfold SnapshotCache.catalog. eapply triple_bind; [apply triple_get|]. intros self _.
  eapply (triple_bind _ _ _ any); [by apply triple_lift|]. intros s _. by apply head_on_cells.
Qed.

Lemma head_get_latest db : keeps (SnapshotCache.get_latest db).
Proof.
  unfold SnapshotCache.get_latest. eapply (triple_bind _ _ _ any); [by apply triple_lift|].
  intros info _. apply head_insert_snapshot.
Qed.
Lemma head_get_current : keeps SnapshotCache.get_current.
Proof.
  unfold SnapshotCache.get_current. eapply triple_bind; [apply triple_get|].
  intros self _. apply head_hold.
Qed.
Lemma head_get_for_schema_version epoch version db :
  keeps (SnapshotCache.get_for_schema_version epoch version db).
Proof.
  unfold SnapshotCache.get_for_schema_version. eapply triple_bind; [apply triple_get|].
  intros self _. eapply triple_bind; [apply head_info_of|]. intros current _.
  case_decide; [apply head_hold|].
  eapply (triple_bind _ _ _ any); [by apply triple_lift|]. intros [info|] _; [apply head_get_snapshot|].
  eapply (triple_bind _ _ _ any); [by apply triple_lift|]. intros info _.
  eapply triple_bind; [by apply head_new_snapshot|]. intros p _. apply head_hold.
Qed.
Lemma head_table_stats p db : keeps (SnapshotCache.table_stats p db).
Proof.
  unfold SnapshotCache.table_stats. eapply triple_bind; [apply head_catalog|]. intros c _.
  eapply triple_bind; [apply triple_get|]. intros self _.
  eapply (triple_bind _ _ _ any); [by apply triple_lift|]. intros s _. by apply head_on_cells.
Qed.

Lemma head_operation k db f self : operation k db f -> head_from n self -> head_from n (f self).
Proof.
  intros Hop Hself. destruct Hop; cbv beta.
  - by apply head_get_latest.
  - by apply head_get_current.
  - by apply head_insert_snapshot.
  - by apply head_get_snapshot.
  - by apply head_get_for_schema_version.
  - by apply head_catalog.
  - by apply head_table_stats.
  - exact Hself.
Qed.

Lemma head_steps w w' : rtc step w w' -> head_from n (process w) -> head_from n (process w').
Proof.
  intros Hr. induction Hr as [|w1 w2 w3 Hs _ IH]; [done|]. intros Hh. apply IH.
  destruct Hs as [k db self f Hop|]; [|done]. by eapply head_operation.
Qed.
End Head.

Lemma initial_head w : initial w -> exists m, head_id (process w) = Some m.
Proof.
  intros [_ (travel & Hnew & _)]. unfold SnapshotCache.new, mbind, outcome_bind in Hnew.
  destruct (match travel with Some info => Ok info | None => _ end) as [info| |]; [|done..].
  injection Hnew as <-. by eexists.
Qed.

(** C7: a process catches up with the database and never falls behind again.
    Whatever happened before, and whatever happens until the process asks for the
    latest snapshot, if there is one then the process gets a snapshot with its
    number, and from then on its head is at that snapshot or a later one, and no
    earlier than any head it has had. *)
Theorem head_catches_up (w w' : World) (latest : SnapshotInfo)
    (Hreach : reachable w) (Hsteps : rtc step w w')
    (Hlatest : Commit.load_latest (database w') = Ok latest) :
  exists p self m m', SnapshotCache.get_latest (database w') (process w') = (Ok p, self) /\
    SnapshotInfo.id ∘ Snapshot.info <$> SnapshotCache.snapshot self p = Some (SnapshotInfo.id latest) /\
    head_id (process w) = Some m /\ head_id self = Some m' /\
    (Z.max m (SnapshotInfo.id latest) <= m')%Z /\
    forall w'', rtc step (mk_World (known w') (database w') self) w'' -> head_from m' (process w'').
Proof.
  destruct Hreach as (w0 & (m0 & Hm0)%initial_head & Hw).
  destruct (head_steps m0 _ _ Hw) as (m & Hm & _); [by exists m0|].
  destruct (head_steps m _ _ Hsteps) as (m1 & Hm1 & Hle); [by exists m|].
  destruct (insert_snapshot_runs latest (process w') m1 Hm1) as (p & self & Hrun & Hh & Hp).
  exists p, self, m, (Z.max m1 (SnapshotInfo.id latest)). split.
  { unfold SnapshotCache.get_latest, mbind, stateful_bind, st_lift. by rewrite Hlatest. }
  split; [exact Hp|]. split; [exact Hm|]. split; [exact Hh|]. split; [lia|].
  intros w'' Hr. apply (head_steps _ _ _ Hr). eexists. split; [exact Hh|done].
Qed.
End Reachable.

(** ** A process that reads the catalog of the demo database twice *)

Section Recorded.
Context `{EXT : External} `{CMP : !SqlCompare}.

(** The numbers two columns of a row hold are known. *)
Definition known_pair (k : list (Z * Z)) (column : string) (r : row) : bool :=
  match field column r, field "schema_version" r with
  | SInt id, SInt version => bool_decide ((id, version) ∈ k)
  | _, _ => false
  end.
Definition recordedb (k : list (Z * Z)) (db : Db) : bool :=
  forallb (known_pair k "snapshot_id") (rows_of db (TABLE DucklakeSnapshot)) &&
  forallb (known_pair k "begin_snapshot") (rows_of db (TABLE DucklakeSchemaVersions)) &&
  bool_decide (NoDup k.*2).

Lemma known_pair_spec k column (rows : list row) r id version :
  forallb (known_pair k column) rows = true -> r ∈ rows ->
  field column r = SInt id -> sql_eq (field "schema_version" r) (SInt version) = true ->
  (id, version) ∈ k.
Proof.
  rewrite forallb_forall. intros Hall Hr%list_elem_of_In Hid Hv. specialize (Hall r Hr).
  unfold known_pair in Hall. rewrite Hid in Hall.
  destruct (field "schema_version" r) as [| |z| | |]; try done.
  rewrite sql_eq_int in Hv. apply Z.eqb_eq in Hv as <-. by apply bool_decide_eq_true in Hall.
Qed.

Lemma recordedb_spec k db : recordedb k db = true -> recorded k db.
Proof.
  unfold recordedb. intros [[Hs Hv]%andb_prop Hk]%andb_prop. apply bool_decide_eq_true in Hk. split.
  - intros r id version Hr Hid Hsv. eapply known_pair_spec; [exact Hs|exact Hr|exact Hid|].
    by rewrite Hsv, sql_eq_int, Z.eqb_refl.
  - intros r id version Hr Hid Hsv. by eapply known_pair_spec.
  - intros id id' version [i Hi]%list_elem_of_lookup [j Hj]%list_elem_of_lookup _.
    assert (i = j) as <-; [|by rewrite Hi in Hj; injection Hj as ->].
    eapply NoDup_lookup; [exact Hk| |]; rewrite list_lookup_fmap; [by rewrite Hi|by rewrite Hj].
Qed.
End Recorded.

Definition orders_known : list (Z * Z) := [(1, 1); (2, 2)]%Z.
Definition orders_process : Process :=
  match SnapshotCache.new None (Client.db orders_client) with
  | Ok self => self
  | _ => Process.mk WeakCache.new WeakCache.new [] 0 []
  end.
Definition orders_world : World := mk_World orders_known (Client.db orders_client) orders_process.
(** The catalog of the head has been loaded. *)
Definition orders_read : World := mk_World orders_known (Client.db orders_client)
  (SnapshotCache.catalog 0 (Client.db orders_client) orders_process).2.

Lemma orders_recorded : recorded orders_known (Client.db orders_client).
Proof. apply recordedb_spec. vm_compute. reflexivity. Qed.
Lemma orders_initial : initial orders_world.
Proof.
  split; [exact orders_recorded|]. exists None. split; [|by intros].
  unfold orders_world, orders_process. cbn [process database].
  assert (is_Some (match SnapshotCache.new None (Client.db orders_client) with Ok s => Some s | _ => None end))
    as Hn by (vm_compute; by eexists).
  destruct (SnapshotCache.new None (Client.db orders_client)) as [s| |]; [exact eq_refl|by destruct Hn..].
Qed.
Lemma orders_read_step : step orders_world orders_read.
Proof. exact (step_operation _ _ _ _ (op_catalog _ _ 0)). Qed.
Lemma orders_reachable : reachable orders_read.
Proof. exists orders_world. split; [exact orders_initial|]. apply rtc_once, orders_read_step. Qed.
Lemma orders_live : live (Client.db orders_client) 2.
Proof.
  assert (existsb (fun r => match field "schema_version" r with SInt v => Z.eqb v 2 | _ => false end)
    (rows_of (Client.db orders_client) (TABLE DucklakeSnapshot)) = true) as He by (vm_compute; reflexivity).
  apply existsb_exists in He as (r & Hr & Hv). exists r. split; [by apply list_elem_of_In|].
  destruct (field "schema_version" r) as [| |z| | |]; try discriminate Hv. apply Z.eqb_eq in Hv. by rewrite Hv.
Qed.
(** Both reads give the table of the snapshot. *)
Lemma orders_reads :
  match SnapshotCache.snapshot (process orders_read) 0,
    SnapshotCache.catalog 0 (database orders_read) (process orders_read) with
  | Some s, (Ok catalog, _) =>
      SnapshotInfo.schema_version (Snapshot.info s) = 2%Z /\ SnapshotInfo.id (Snapshot.info s) = 2%Z /\
      (exists t, Catalog.list_tables catalog (SchemaRef.mk 0) = Ok [t])
  | _, _ => False
  end.
Proof. vm_compute. split; [exact eq_refl|]. split; [exact eq_refl|]. eexists. exact eq_refl. Qed.

Lemma cached_catalog_is_current_witness : exists catalog self,
  SnapshotCache.catalog 0 (database orders_read) (process orders_read) = (Ok catalog, self) /\
  exists id db0, SnapshotCache.load_catalog id db0 = Ok catalog /\
    view db0 id = view (Client.db orders_client) 2.
Proof.
  pose proof orders_reads as Hr.
  destruct (SnapshotCache.snapshot (process orders_read) 0) as [s|] eqn:Hs; [|contradiction].
  destruct (SnapshotCache.catalog _ _ _) as [[catalog| |] self] eqn:Hc; [|contradiction..].
  destruct Hr as (Hv & Hi & _). exists catalog, self. split; [exact eq_refl|].
  pose proof (cached_catalog_is_current orders_read 0 s catalog self orders_reachable Hs
    ltac:(rewrite Hv; exact orders_live) Hc) as Hcur.
  rewrite Hi in Hcur. exact Hcur.
Defined.

Lemma orders_latest : exists latest,
  Commit.load_latest (database orders_read) = Ok latest /\ SnapshotInfo.id latest = 2%Z.
Proof.
  assert (match Commit.load_latest (database orders_read) with
          | Ok latest => SnapshotInfo.id latest = 2%Z | _ => False end) as H by (vm_compute; reflexivity).
  destruct (Commit.load_latest (database orders_read)) as [l| |]; [by exists l|contradiction..].
Qed.

Lemma head_catches_up_witness : exists p self m',
  SnapshotCache.get_latest (database orders_read) (process orders_read) = (Ok p, self) /\
  head_id self = Some m' /\ (2 <= m')%Z.
Proof.
  destruct orders_latest as (latest & Hl & Hi).
  destruct (head_catches_up orders_read orders_read latest orders_reachable (rtc_refl _ _) Hl)
    as (p & self & m & m' & Hrun & _ & _ & Hh & Hle & _).
  exists p, self, m'. split; [exact Hrun|]. split; [exact Hh|]. lia.
Defined.
