(* ===== verification/CacheContract.v ===== *)
(** * Commits keep the contract of the snapshot cache ([transaction/mod.rs], [caches/])

    The cache relies on two facts about the database: a snapshot keeps seeing what
    it saw, and snapshots with one schema version see one catalog. Successful
    commits establish both for the snapshot they add. *)

From S2P Require Import Prelude Triple Text Regex Identifier Types Instances Entities.
From S2P Require Import CatalogColumns Catalog TableStats CommitState Change AppliedChange.
From S2P Require Import Dialect TransactionChanges Executors Database Load Batches Persist Stamps.
From S2P Require Import History Transactions Commit Demo CommitFacts StatsKey DataCommit Expire.
From S2P Require Import ExpireFacts Cache CacheFacts.

Section Finalize.
Context `{EXT : External} `{CMP : !SqlCompare} `{ENGINE : !SqlEngine} `{ITER : !Itertools}.
Context (dialect : Dialect).

Lemma rows_of_same (db db' : Db) table : db' !! table = db !! table -> rows_of db' table = rows_of db table.
Proof. unfold rows_of. by intros ->. Qed.

(** The end of a commit adds one snapshot, and schema versions of that snapshot. *)
Lemma finalize_commit_rows time state applied ids author db info db' :
  Commit.finalize_commit dialect time state applied ids author db = (Ok info, db') ->
  rows_of db' (TABLE DucklakeSnapshot) = rows_of db (TABLE DucklakeSnapshot) ++
    [to_row (CommitState.to_snapshot time state)] /\
  forall r, r ∈ rows_of db' (TABLE DucklakeSchemaVersions) ->
    r ∈ rows_of db (TABLE DucklakeSchemaVersions) \/
    (field "begin_snapshot" r = SInt (CommitState.snapshot_id state) /\
     field "schema_version" r = SInt (CommitState.schema_version state)).
Proof.
  intros Hf. split.
  - apply finalize_commit_Ok in Hf as (_ & _ & t & Ht & _ & Hw). unfold rows_of. by rewrite Hw, Ht.
  - unfold Commit.finalize_commit in Hf. cbv zeta in Hf.
    apply bind_Ok in Hf as ([] & db1 & H1 & ([] & db2 & H2 & ([] & db3 & H3 & H)%bind_Ok)%bind_Ok).
    cbn in H. injection H as _ <-.
    apply insert_entity_Ok in H1 as (t1 & _ & _ & ->). apply insert_entity_Ok in H2 as (t2 & _ & _ & ->).
    set (before := <[_ := _]> (<[_ := _]> db)) in H3.
    assert (rows_of before (TABLE DucklakeSchemaVersions) = rows_of db (TABLE DucklakeSchemaVersions)) as Hb.
    { apply rows_of_same. unfold before. by rewrite !lookup_insert_ne. }
    intros r. unfold Tx.insert_entities, Tx.insert_entities_into in H3.
    apply insert_rows_Ok in H3; [|by destruct dialect]. case_decide as Hnil; [subst; rewrite Hb; by left|].
    destruct H3 as (t & Ht & _ & ->). rewrite rows_of_insert. rewrite decide_True by done. cbn -[into_values].
    intros [Hr|Hr]%elem_of_app.
    + left. change (r ∈ rows_of db (TABLE DucklakeSchemaVersions)).
      by rewrite <-Hb, (rows_of_lookup _ _ _ Ht).
    + right. rewrite <-list_fmap_compose in Hr. apply list_elem_of_fmap in Hr as (e & -> & He).
      apply list_elem_of_fmap in He as (table_id & -> & _). by split.
Qed.

(** *** The numbers of the snapshots there have been *)

Lemma finalize_recorded k time state applied ids author before db info db' :
  recorded k before ->
  (forall table, table ∈ snapshot_tables -> rows_of db table = rows_of before table) ->
  Commit.finalize_commit dialect time state applied ids author db = (Ok info, db') ->
  let k' := (SnapshotInfo.id info, SnapshotInfo.schema_version info) :: k in
  (forall r id version, r ∈ rows_of db' (TABLE DucklakeSnapshot) ->
    field "snapshot_id" r = SInt id -> field "schema_version" r = SInt version -> (id, version) ∈ k') /\
  (forall r id version, r ∈ rows_of db' (TABLE DucklakeSchemaVersions) ->
    field "begin_snapshot" r = SInt id -> sql_eq (field "schema_version" r) (SInt version) = true ->
    (id, version) ∈ k') /\
  (forall version, live db' version -> version = SnapshotInfo.schema_version info \/ live before version).
Proof.
  intros Hrec Hsame Hf k'. pose proof (finalize_commit_rows _ _ _ _ _ _ _ _ Hf) as [Hsnap Hvers].
  apply finalize_commit_Ok in Hf as [-> _]. unfold k'. clear k'. split; [|split].
  - intros r id version Hr Hid Hv. rewrite Hsnap, Hsame in Hr by (by left).
    apply elem_of_app in Hr as [Hr| ->%list_elem_of_singleton].
    + right. by eapply snapshots_known.
    + injection Hid as <-. injection Hv as <-. left.
  - intros r id version [Hr|[Hb Hs]]%Hvers Hid Hv.
    + rewrite Hsame in Hr by (apply (bool_decide_unpack _); vm_compute; exact Logic.I).
      right. by eapply versions_known.
    + rewrite Hs, sql_eq_int in Hv. apply Z.eqb_eq in Hv as <-. rewrite Hb in Hid.
      injection Hid as <-. left.
  - intros version (r & Hr & Hv). rewrite Hsnap, Hsame in Hr by (by left).
    apply elem_of_app in Hr as [Hr| ->%list_elem_of_singleton]; [right; by exists r|].
    left. by injection Hv as <-.
Qed.
End Finalize.

Section Contract.
Context `{EXT : External} `{ENV : !Environment} `{TXT : !ValueText} `{HASH : HashOrder}
  `{ITER : !Itertools} `{ENG : !RegexEngine} `{CMP : !SqlCompare} `{ENGINE : !SqlEngine}
  `{AROUND : !Surroundings}.
Context (dialect : Dialect).

Lemma view_of_seen db i db' j :
  (forall table, table ∈ view_tables -> seen db' table j = seen db table i) -> view db' j = view db i.
Proof.
  intros Ht. unfold view. apply list_fmap_ext. intros n table Hn.
  apply Ht. by eapply list_elem_of_lookup_2.
Qed.

Lemma view_table_versioned table : table ∈ view_tables -> table ∈ versioned_tables.
Proof.
  intros Ht. assert (Forall (fun t => t ∈ versioned_tables) view_tables) as Hall by not_kept.
  rewrite Forall_forall in Hall. by apply Hall.
Qed.
Lemma view_table_catalog table : table ∈ view_tables -> table ∈ catalog_tables.
Proof.
  intros Ht. assert (Forall (fun t => t ∈ catalog_tables) view_tables) as Hall by not_kept.
  rewrite Forall_forall in Hall. by apply Hall.
Qed.

(** A commit that changes the schema starts a version of its own; *)
Lemma schema_commit_evolves k before (latest : SnapshotInfo) info db' :
  recorded k before ->
  (forall i v, (i, v) ∈ k -> (i <= SnapshotInfo.id latest)%Z /\ (v <= SnapshotInfo.schema_version latest)%Z) ->
  SnapshotInfo.schema_version info = (SnapshotInfo.schema_version latest + 1)%Z ->
  (forall i v, (i, v) ∈ k -> view db' i = view before i) ->
  forall (version : Z), (forall v, live db' v -> v = SnapshotInfo.schema_version info \/ live before v) ->
  forall id id', (id, version) ∈ (SnapshotInfo.id info, SnapshotInfo.schema_version info) :: k ->
    (id', version) ∈ (SnapshotInfo.id info, SnapshotInfo.schema_version info) :: k ->
    live db' version -> view db' id = view db' id'.
Proof.
  intros Hrec Hmax Hsv Hview version Hlive id id' H1 H2 Hl.
  apply elem_of_cons in H1 as [H1|H1]; apply elem_of_cons in H2 as [H2|H2]; simplify_eq; try done.
  - apply Hmax in H2 as [_ ?]. lia.
  - apply Hmax in H1 as [_ ?]. lia.
  - rewrite (Hview _ _ H1), (Hview _ _ H2). destruct (Hlive _ Hl) as [ -> |Hb].
    + apply Hmax in H1 as [_ ?]. lia.
    + by eapply versions_agree.
Qed.

(** one that does not continues the version of its base. *)
Lemma data_commit_agrees k before (latest : SnapshotInfo) info db' :
  recorded k before ->
  (SnapshotInfo.id latest, SnapshotInfo.schema_version latest) ∈ k ->
  live before (SnapshotInfo.schema_version latest) ->
  SnapshotInfo.schema_version info = SnapshotInfo.schema_version latest ->
  (forall i v, (i, v) ∈ k -> view db' i = view before i) ->
  view db' (SnapshotInfo.id info) = view before (SnapshotInfo.id latest) ->
  forall (version : Z), (forall v, live db' v -> v = SnapshotInfo.schema_version info \/ live before v) ->
  forall id id', (id, version) ∈ (SnapshotInfo.id info, SnapshotInfo.schema_version info) :: k ->
    (id', version) ∈ (SnapshotInfo.id info, SnapshotInfo.schema_version info) :: k ->
    live db' version -> view db' id = view db' id'.
Proof.
  intros Hrec Hlatest Hlb Hsv Hview Hnew version Hlive id id' H1 H2 Hl. rewrite Hsv in *.
  assert (live before version) as Hb by (destruct (Hlive _ Hl) as [ -> |]; done).
  assert (forall i, (i, version) ∈ (SnapshotInfo.id info, SnapshotInfo.schema_version latest) :: k ->
    exists j, (j, version) ∈ k /\ view db' i = view before j) as Hold.
  { intros i [[= -> ->]|Hi]%elem_of_cons; [by exists (SnapshotInfo.id latest)|].
    exists i. split; [done|]. by eapply Hview. }
  apply Hold in H1 as (j & Hj & ->). apply Hold in H2 as (j' & Hj' & ->). by eapply versions_agree.
Qed.

(** The two kinds of change sets the contract covers *)
Definition covered (cs : list Change) (before : Db) (new : Z) : Prop :=
  (ChangeSet.changes_schema cs = true /\ Forall (allowed False False) cs) \/
  (ChangeSet.changes_schema cs = false /\ names_apart before /\ unstamped before new).

(** A successful attempt ends on a database whose snapshot tables are those of
    [before]. *)
Lemma attempt_finalizes cs author (client client' : Client) info new :
  covered cs (others (Client.clock client) (Client.db client)) new -> fresh client ->
  (forall table, table ∈ snapshot_tables ->
    is_Some (others (Client.clock client) (Client.db client) !! table)) ->
  Commit.apply_changes dialect cs author client = (Ok info, client') ->
  exists db time state applied ids,
    (forall table, table ∈ snapshot_tables ->
      rows_of db table = rows_of (others (Client.clock client) (Client.db client)) table) /\
    Commit.finalize_commit dialect time state applied ids author db = (Ok info, Client.db client').
Proof.
  intros [[_ Hallowed]|(Hcs & Hnames & _)] Hfresh Htables Hrun.
  - apply (apply_changes_Ok dialect (new_snapshot_id client)) in Hrun
      as (a & time & applied & ids & w & [Hat Hst] & Hw & ->); [|done|by apply fresh_preparing].
    set (before := others _ _) in *.
    apply (write_changes_Ok dialect (new_snapshot_id client) (fun db => forall table x,
      table ∈ snapshot_tables -> before !! table = Some x -> db !! table = Some x)) in Hw
      as (db & state & Hx & _ & Hf); [| |done|done|by intros].
    + exists db, time, state, applied, ids. split; [|done]. intros table Ht.
      destruct (Htables table Ht) as [x Hbx]. apply rows_of_same. by rewrite (Hx table x Ht Hbx).
    + intros q db1 db2 Hq He Hp table x Ht Hbx. eapply effect_keeps_snapshots; eauto.
  - apply data_attempt_finalizes in Hrun as (db & time & state & applied & ids & Hkept & Hf); [|done..].
    exists db, time, state, applied, ids. split; [|done]. intros table Ht.
    apply rows_of_same, Hkept. right. apply elem_of_app. by right.
Qed.

(** What earlier snapshots saw of the catalog, they still see. *)
Lemma attempt_keeps_view cs author (client client' : Client) info i :
  covered cs (others (Client.clock client) (Client.db client)) (new_snapshot_id client) ->
  fresh client -> (i < new_snapshot_id client)%Z ->
  Commit.apply_changes dialect cs author client = (Ok info, client') ->
  view (Client.db client') i = view (others (Client.clock client) (Client.db client)) i.
Proof.
  intros [[_ Hallowed]|(Hcs & Hnames & _)] Hfresh Hi Hrun; apply view_of_seen; intros table Ht.
  - eapply attempt_keeps_past; try done. by apply view_table_versioned.
  - unfold seen. by erewrite data_attempt_keeps by (try done; by apply view_table_catalog).
Qed.

(** C6: commits implement what the snapshot cache assumes, for transactions that
    change the schema without inlined writes or detached files and for those that
    leave it alone on a database where inlined tables are named apart from the
    catalog's and nothing is stamped with the new number yet ([covered]). After a
    successful attempt of such a transaction on the latest snapshot, the snapshots there have been
    and the new one are known with their schema versions, every snapshot of a
    version that is still there sees the catalog it saw before, and any two
    snapshots of such a version see the same catalog. *)
Theorem commit_evolves (k : list (Z * Z)) (cs : list Change) (author : AuthorInfo.t)
    (latest : SnapshotInfo) (catalog : Catalog) (stats : option (gmap Z TableStats))
    (client client' : Client) (info : SnapshotInfo)
    (Hrec : recorded k (others (Client.clock client) (Client.db client)))
    (Hlatest : known_info k latest)
    (Hlive : live (others (Client.clock client) (Client.db client)) (SnapshotInfo.schema_version latest))
    (Hmax : forall i v, (i, v) ∈ k ->
      (i <= SnapshotInfo.id latest)%Z /\ (v <= SnapshotInfo.schema_version latest)%Z)
    (Htables : forall table, table ∈ snapshot_tables ->
      is_Some (others (Client.clock client) (Client.db client) !! table))
    (Hcovered : covered cs (others (Client.clock client) (Client.db client)) (SnapshotInfo.id latest + 1))
    (Hfresh : fresh client)
    (Hstart : Attempt.state (Client.attempt client) =
      CommitState.new latest catalog (ChangeSet.changes_schema cs) stats)
    (Hrun : Commit.apply_changes dialect cs author client = (Ok info, client'))
    (Hbounds : in_i64 (SnapshotInfo.id latest + 1) /\ in_i64 (SnapshotInfo.schema_version latest) /\
      in_i64 (SnapshotInfo.schema_version latest + 1)) :
  evolves k (others (Client.clock client) (Client.db client))
    ((SnapshotInfo.id info, SnapshotInfo.schema_version info) :: k) (Client.db client').
Proof.
  set (before := others _ _) in *.
  destruct Hbounds as (Hb1 & Hb2 & Hb3).
  destruct (attempt_numbers _ _ _ _ _ _ _ _ _ Hstart Hrun Hb1 Hb2 Hb3) as [Hid Hsv].
  assert (new_snapshot_id client = SnapshotInfo.id latest + 1)%Z as Hnew.
  { unfold new_snapshot_id. rewrite Hstart. by apply i64_add_exact. }
  assert (forall i v, (i, v) ∈ k -> view (Client.db client') i = view before i) as Hview.
  { intros i v Hi. apply Hmax in Hi as [Hi _].
    eapply attempt_keeps_view; try done; rewrite Hnew; [done|lia]. }
  destruct (attempt_finalizes _ _ _ _ _ _ Hcovered Hfresh Htables Hrun)
    as (db & time & state & applied & ids & Hsame & Hf).
  destruct (finalize_recorded dialect k _ _ _ _ _ before db info _ Hrec Hsame Hf) as (Hs & Hv & Hl).
  assert (forall i v, (i, v) ∈ k -> live (Client.db client') v -> live before v) as Hold.
  { intros i v Hi Hlv. destruct (Hl v Hlv) as [->|]; [|done]. apply Hmax in Hi as [_ Hi].
    rewrite Hsv in Hi |- *. destruct (ChangeSet.changes_schema cs); cbn [Z.b2z] in *; [lia|].
    by rewrite Z.add_0_r. }
  split; [|by intros x ?; right|done|by intros; eapply Hview]. split; [exact Hs|exact Hv|].
  intros i i' version. destruct Hcovered as [[Hcs _]|(Hcs & Hnames & Hun)].
  - apply (schema_commit_evolves k before latest info _ Hrec Hmax); [|exact Hview|exact Hl].
    by rewrite Hsv, Hcs.
  - assert (SnapshotInfo.schema_version info = SnapshotInfo.schema_version latest) as Hsv'.
    { by rewrite Hsv, Hcs, Z.add_0_r. }
    apply (data_commit_agrees k before latest info _ Hrec Hlatest Hlive Hsv' Hview); [|exact Hl].
    apply view_of_seen. intros table Ht%view_table_catalog. rewrite Hid. unfold seen at 1.
    rewrite (data_attempt_keeps dialect cs author client client' info table) by done.
    by apply unstamped_seen.
Qed.
End Contract.

(** ** A row for the demo table *)

Lemma orders_before : others (Client.clock orders_attempt) (Client.db orders_attempt) =
  Client.db orders_client.
Proof. vm_compute. reflexivity. Qed.
Lemma orders_known_latest : known_info orders_known (Client.current orders_client).
Proof. vm_compute. right. left. Qed.
Lemma orders_version : SnapshotInfo.id (Client.current orders_client) = 2%Z /\
  SnapshotInfo.schema_version (Client.current orders_client) = 2%Z.
Proof. vm_compute. split; exact eq_refl. Qed.
Lemma orders_tables : forall table, table ∈ snapshot_tables -> is_Some (Client.db orders_client !! table).
Proof.
  assert (forallb (fun table => bool_decide (is_Some (Client.db orders_client !! table))) snapshot_tables = true)
    as H by (vm_compute; reflexivity).
  rewrite forallb_forall in H. intros table Ht%list_elem_of_In%H. by apply bool_decide_eq_true in Ht.
Qed.
Lemma orders_fresh : fresh orders_attempt.
Proof. exact eq_refl. Qed.

Local Abbreviation base := (others (Client.clock orders_attempt) (Client.db orders_attempt)).
Lemma orders_base_recorded : recorded orders_known base.
Proof. rewrite orders_before. exact orders_recorded. Qed.
Lemma orders_base_live : live base (SnapshotInfo.schema_version (Client.current orders_client)).
Proof. rewrite orders_before, (proj2 orders_version). exact orders_live. Qed.
Lemma orders_base_tables table : table ∈ snapshot_tables -> is_Some (base !! table).
Proof. rewrite orders_before. apply orders_tables. Qed.
Lemma orders_latest_known (i v : Z) : (i, v) ∈ orders_known ->
  (i <= SnapshotInfo.id (Client.current orders_client))%Z /\
  (v <= SnapshotInfo.schema_version (Client.current orders_client))%Z.
Proof.
  rewrite (proj1 orders_version), (proj2 orders_version).
  unfold orders_known. rewrite !elem_of_cons, elem_of_nil.
  intros [[= -> ->]|[[= -> ->]|[]]]; lia.
Qed.
Lemma orders_covered :
  covered orders_row base (SnapshotInfo.id (Client.current orders_client) + 1).
Proof.
  right. split; [exact eq_refl|]. rewrite orders_before.
  assert (Client.db orders_client = Client.db orders_attempt) as -> by exact eq_refl.
  split; [exact orders_names|exact orders_unstamped].
Qed.

Lemma commit_evolves_witness : exists info client',
  Commit.apply_changes Dialect.Sqlite orders_row AuthorInfo.default orders_attempt = (Ok info, client') /\
  evolves orders_known base
    ((SnapshotInfo.id info, SnapshotInfo.schema_version info) :: orders_known) (Client.db client').
Proof.
  pose proof orders_row_runs as Hrun.
  destruct (Commit.apply_changes _ _ _ _) as [[info| |] client'] eqn:He; [|contradiction..].
  exists info, client'. split; [exact eq_refl|].
  exact (commit_evolves Dialect.Sqlite orders_known orders_row AuthorInfo.default
    (Client.current orders_client) orders_catalog (Some ∅) orders_attempt client' info
    orders_base_recorded orders_known_latest orders_base_live orders_latest_known orders_base_tables
    orders_covered orders_fresh orders_start He orders_numbers).
Defined.
