(* ===== verification/LoadedColumns.v ===== *)
(** * The columns of a loaded table ([catalog/typedefs/columns.rs])

    The arena of a table's columns is the list of the table's rows in their order,
    with the tree that the rows' parents form; maps from keys to positions. *)

From S2P Require Import Prelude Text Regex Identifier Types Instances Entities.
From S2P Require Import CatalogColumns Catalog TableStats CommitState Database Load.

(** ** Maps from keys to positions *)

Section Indexed.
Context {K R : Type} `{Countable K}.
Implicit Types (m : gmap K ArenaIdx) (rows : list R).

(** [m] leads each key to the row with that key, among the rows that are [mine]. *)
Definition indexed m (mine : R -> Prop) (key : R -> K) rows : Prop :=
  forall k i, m !! k = Some i <-> exists r, rows !! i = Some r /\ mine r /\ key r = k.

(** Half of it: what [m] leads to has the key. *)
Definition leads m (mine : R -> Prop) (key : R -> K) rows : Prop :=
  forall k i, m !! k = Some i -> exists r, rows !! i = Some r /\ mine r /\ key r = k.

Lemma leads_snoc m mine key rows r :
  leads m mine key rows -> mine r -> leads (<[key r := length rows]> m) mine key (rows ++ [r]).
Proof.
  intros Hm Hr k i [[<- <-]|[Hk (r' & Hr' & Hk')%Hm]]%lookup_insert_Some.
  - exists r. by rewrite list_lookup_middle.
  - exists r'. by rewrite (lookup_app_l_Some _ _ _ _ Hr').
Qed.
Lemma leads_other m mine key rows r : leads m mine key rows -> leads m mine key (rows ++ [r]).
Proof.
  intros Hm k i (r' & Hr' & Hk')%Hm. exists r'. by rewrite (lookup_app_l_Some _ _ _ _ Hr').
Qed.

Lemma indexed_empty mine key : indexed ∅ mine key [].
Proof. intros k i. rewrite lookup_empty. split; [done|]. by intros (r & Hr & _). Qed.

Lemma indexed_snoc m mine key rows r :
  indexed m mine key rows -> mine r -> (forall r', r' ∈ rows -> mine r' -> key r' <> key r) ->
  indexed (<[key r := length rows]> m) mine key (rows ++ [r]).
Proof.
  intros Hm Hr Hnew k i. rewrite lookup_insert_Some. split.
  - intros [[<- <-]|[Hk (r' & Hr' & Hmine & <-)%Hm]].
    + exists r. by rewrite list_lookup_middle.
    + exists r'. by rewrite (lookup_app_l_Some _ _ _ _ Hr').
  - intros (r' & Hr' & Hmine & <-). apply lookup_app_Some in Hr' as [Hr'|[Hge Hr']].
    + right. split; [|apply Hm; eauto]. apply not_eq_sym. eapply Hnew; [|done].
      by eapply list_elem_of_lookup_2.
    + apply list_lookup_singleton_Some in Hr' as [Hi <-]. left. split; [done|lia].
Qed.

Lemma indexed_other m mine key rows r :
  indexed m mine key rows -> ~ mine r -> indexed m mine key (rows ++ [r]).
Proof.
  intros Hm Hr k i. rewrite (Hm k i). split; intros (r' & Hr' & Hmine & Hk).
  - exists r'. by rewrite (lookup_app_l_Some _ _ _ _ Hr').
  - apply lookup_app_Some in Hr' as [Hr'|[Hge Hr']]; [by exists r'|].
    by apply list_lookup_singleton_Some in Hr' as [_ <-].
Qed.
End Indexed.

(** A loop keeps an invariant of the elements it has done. *)
Lemma fold_outcome_prefix {E S A} (f : S -> A -> outcome E S) (I : list A -> S -> Prop)
    (l : list A) (s s' : S) :
  I [] s ->
  (forall done x s s', done ++ [x] `prefix_of` l -> I done s -> f s x = Ok s' -> I (done ++ [x]) s') ->
  fold_outcome f s l = Ok s' -> I l s'.
Proof.
  intros Hi Hstep. assert (forall todo done s, l = done ++ todo -> I done s ->
    fold_outcome f s todo = Ok s' -> I l s') as Hgo; [|by apply (Hgo l [])].
  clear Hi s. induction todo as [|x todo IH]; intros done s Hl Hs.
  - rewrite app_nil_r in Hl. subst. by intros [= <-].
  - cbn. unfold mbind, outcome_bind. destruct (f s x) as [s1| |] eqn:Hf; [|done..].
    apply (IH (done ++ [x])); [by rewrite <-app_assoc|].
    apply (Hstep done x s); [|done..]. exists todo. by rewrite <-app_assoc.
Qed.

Lemma NoDup_fresh {A K} (key : A -> K) l done x :
  NoDup (key <$> l) -> done ++ [x] `prefix_of` l -> forall y, y ∈ done -> key y <> key x.
Proof.
  intros Hl [rest ->] y Hy Hk. rewrite !fmap_app in Hl. apply NoDup_app in Hl as [Hl _].
  apply NoDup_app in Hl as (_ & Hdone & _). apply (Hdone (key y)); [by apply list_elem_of_fmap_2|].
  rewrite Hk. left.
Qed.

Lemma outcome_bind_Ok {E A B} (m : outcome E A) (f : A -> outcome E B) b :
  m ≫= f = Ok b -> exists a, m = Ok a /\ f a = Ok b.
Proof. unfold mbind, outcome_bind. destruct m; [by eauto|done..]. Qed.

Lemma Forall2_snoc {A B} (P : A -> B -> Prop) l k x y :
  Forall2 P l k -> P x y -> Forall2 P (l ++ [x]) (k ++ [y]).
Proof. intros Hl Hx. apply Forall2_app; [done|]. by constructor. Qed.

Lemma outcome_fmap_Ok {E A B} (f : A -> B) (m : outcome E A) b : f <$> m = Ok b -> exists a, m = Ok a /\ b = f a.
Proof. unfold fmap, outcome_fmap. destruct m; [|done..]. intros [= <-]. by eexists. Qed.

(** ** Columns and their tree *)

Section Columns.
Context `{EXT : External} `{ENG : !RegexEngine} `{TXT : !ValueText}.
Implicit Types (rows : list DucklakeColumn).

(** The rows of a table below a column, with their positions *)
Definition children_of rows (parent : Z) : list (DucklakeColumn * ArenaIdx) :=
  List.filter (fun c => bool_decide (DucklakeColumn.parent_column c.1 = Some parent))
    (imap (fun i row => (row, i)) rows).

(** The data type of a row: a primitive one, or the tree of its children *)
Definition type_reflects rows (row : DucklakeColumn) (d : CatalogDataType) : Prop :=
  let own := children_of rows (DucklakeColumn.column_id row) in
  match d with
  | CatalogDataType.Primitive p => DataTypeOps.parse_primitive (DucklakeColumn.column_type row) = Ok p
  | CatalogDataType.List item => DucklakeColumn.column_type row = "list" /\ own.*2 = [item]
  | CatalogDataType.Struct fields =>
      DucklakeColumn.column_type row = "struct" /\
      fields = (fun c => (DucklakeColumn.column_name c.1, c.2)) <$>
        sort_by_key option_Z_leb (fun c => DucklakeColumn.column_order c.1) own /\ NoDup fields.*1
  | CatalogDataType.Map key value =>
      DucklakeColumn.column_type row = "map" /\ exists k v, own ≡ₚ [(k, key); (v, value)] /\
        DucklakeColumn.column_name k = "key" /\ DucklakeColumn.column_name v <> "key"
  end.

(** The tags of a column among those of its table *)
Definition tags_of (tags : list DucklakeColumnTag) (column_id : Z) : list DucklakeColumnTag :=
  List.filter (fun t => Z.eqb (DucklakeColumnTag.column_id t) column_id) tags.

Record column_reflects rows (tags : list DucklakeColumnTag) (row : DucklakeColumn) (c : CatalogColumn) : Prop := {
  cr_id : CatalogColumn.id c = DucklakeColumn.column_id row;
  cr_name : CatalogColumn.name c = DucklakeColumn.column_name row;
  cr_nullable : CatalogColumn.nullable c = DucklakeColumn.nulls_allowed row;
  cr_dtype : type_reflects rows row (CatalogColumn.dtype c);
  cr_parent : match DucklakeColumn.parent_column row, CatalogColumn.parent_column c with
    | None, None => True
    | Some p, Some i => exists r, rows !! i = Some r /\ DucklakeColumn.column_id r = p
    | _, _ => False
    end;
  cr_tags : CatalogColumn.tags c = Tags_from_iter ((fun t => Tag.mk (DucklakeColumnTag.key t)
    (DucklakeColumnTag.value t)) <$> tags_of tags (DucklakeColumn.column_id row));
  cr_initial : match DucklakeColumn.initial_default row with
    | None => CatalogColumn.initial_default c = None
    | Some s => exists p, CatalogColumn.dtype c = CatalogDataType.Primitive p /\
        value_parse p s = Ok (CatalogColumn.initial_default c)
    end;
}.

(** The names of the columns that have no parent, with their positions *)
Definition roots_of rows : list (string * ArenaIdx) :=
  omap (fun c => match DucklakeColumn.parent_column c.1 with
    | None => Some (DucklakeColumn.column_name c.1, c.2) | Some _ => None end)
    (imap (fun i row => (row, i)) rows).

(** The columns of the rows of a table, in the order of their rows *)
Record columns_reflect (table_rows : list DucklakeColumn) (tags : list DucklakeColumnTag)
    (c : CatalogColumns) (rows := sort_by_key option_Z_leb DucklakeColumn.column_order table_rows) : Prop := {
  cs_arena : Forall2 (column_reflects rows tags) rows (CatalogColumns.arena c);
  cs_roots : CatalogColumns.root_columns c = roots_of rows;
  cs_root_names : NoDup (CatalogColumns.root_columns c).*1;
  cs_ids : indexed (CatalogColumns.by_id c) (fun _ => True) DucklakeColumn.column_id rows;
}.

(** *** Positions *)

Lemma imap_last {A B} (f : nat -> A -> B) l x : imap f (l ++ [x]) = imap f l ++ [f (length l) x].
Proof. rewrite imap_app. cbn. by rewrite Nat.add_0_r. Qed.

Lemma id_to_arena_idx_indexed rows : NoDup (DucklakeColumn.column_id <$> rows) ->
  indexed (id_to_arena_idx rows) (fun _ => True) DucklakeColumn.column_id rows.
Proof.
  induction rows as [|row rows IH] using rev_ind; [intros _; apply indexed_empty|].
  rewrite fmap_app. intros (HN & Hd & _)%NoDup_app. unfold id_to_arena_idx. rewrite imap_last, foldl_app. cbn.
  apply indexed_snoc; [by apply IH|done|]. intros r' Hr' _ Heq. apply (Hd (DucklakeColumn.column_id r')).
  - by apply list_elem_of_fmap_2.
  - rewrite Heq. left.
Qed.

Lemma children_by_parent rows p : default [] (children_by_parent_id rows !! p) = children_of rows p.
Proof.
  induction rows as [|row rows IH] using rev_ind; [done|].
  unfold children_by_parent_id, children_of in *. rewrite !imap_last, foldl_app, List.filter_app. cbn.
  destruct (DucklakeColumn.parent_column row) as [q|]; cbn.
  - destruct (decide (q = p)) as [->|Hq].
    + rewrite lookup_insert_eq, bool_decide_true by done. cbn. by rewrite IH.
    + rewrite lookup_insert_ne, bool_decide_false by congruence. by rewrite app_nil_r.
  - by rewrite app_nil_r.
Qed.

Lemma roots_snoc rows row : roots_of (rows ++ [row]) = roots_of rows ++
  match DucklakeColumn.parent_column row with
  | None => [(DucklakeColumn.column_name row, length rows)] | Some _ => [] end.
Proof. unfold roots_of. rewrite imap_last, omap_app. cbn. by destruct (DucklakeColumn.parent_column row). Qed.

(** *** Data types *)

Lemma struct_dtype_fields own fields : struct_dtype own = Ok (CatalogDataType.Struct fields) ->
  fields = (fun c => (DucklakeColumn.column_name c.1, c.2)) <$>
    sort_by_key option_Z_leb (fun c => DucklakeColumn.column_order c.1) own /\ NoDup fields.*1.
Proof.
  unfold struct_dtype. cbv zeta. generalize (sort_by_key option_Z_leb (fun c : DucklakeColumn * ArenaIdx => DucklakeColumn.column_order c.1) own) as l.
  intros l H. apply outcome_fmap_Ok in H as (fields' & H & [= <-]).
  apply (fold_outcome_prefix _ (fun l (fields : list (string * ArenaIdx)) =>
    fields = (fun c => (DucklakeColumn.column_name c.1, c.2)) <$> l /\ NoDup fields.*1)) in H; [done|by split; [|constructor]|].
  intros done [row i] fs fs' _ [-> HN] Hx. destruct (IndexMap.contains_key _ _) eqn:Hc; [done|]. injection Hx as <-.
  apply IndexMap.contains_key_false in Hc. rewrite IndexMap.insert_fresh by done. split; [by rewrite fmap_app|].
  rewrite fmap_app. apply NoDup_app. split; [done|]. split; [|apply NoDup_singleton].
  intros x Hx ->%list_elem_of_singleton. done.
Qed.

Lemma load_dtype_reflects rows row children d rest :
  default [] (children !! DucklakeColumn.column_id row) = children_of rows (DucklakeColumn.column_id row) ->
  load_dtype row children = Ok (d, rest) ->
  type_reflects rows row d /\
  (rest = children \/ rest = delete (DucklakeColumn.column_id row) children).
Proof.
  intros Hc. unfold load_dtype, take_group. rewrite Hc. cbv zeta. unfold type_reflects.
  repeat case_decide; intros (d' & Hd & [= <- <-])%outcome_bind_Ok; (split; [|by auto]).
  - unfold list_dtype in Hd. destruct (children_of _ _) as [|[r i] [|? ?]]; [done| |done]. by injection Hd as <-.
  - pose proof Hd as Hd'. apply outcome_fmap_Ok in Hd' as (fields & _ & ->). split; [done|]. by apply struct_dtype_fields.
  - unfold map_dtype in Hd. case_decide as Hlen; [|done].
    destruct (children_of _ _) as [|[k i] [|[v j] [|? ?]]]; [done..| |done]. cbn in Hd.
    case_bool_decide as Hk; case_bool_decide as Hv; cbn in Hd; try done; injection Hd as <-.
    + split; [done|]. by exists k, v.
    + split; [done|]. exists v, k. split; [apply Permutation_swap|done].
  - done.
Qed.
(** *** The loop over the rows *)

(** What the loop has done with a prefix of the rows; the groups of the others are untouched. *)
Definition loaded_prefix rows (tags : list DucklakeColumnTag) (done : list DucklakeColumn)
    (acc : CatalogColumns * gmap Z (list (DucklakeColumn * ArenaIdx)) * list DucklakeColumnTag) : Prop :=
  Forall2 (column_reflects rows tags) done (CatalogColumns.arena acc.1.1) /\
  CatalogColumns.root_columns acc.1.1 = roots_of done /\ NoDup (roots_of done).*1 /\
  indexed (CatalogColumns.by_id acc.1.1) (fun _ => True) DucklakeColumn.column_id done /\
  forall p, p ∉ DucklakeColumn.column_id <$> done ->
    default [] (acc.1.2 !! p) = children_of rows p /\ tags_of acc.2 p = tags_of tags p.

Lemma tags_of_extract tags p q : p <> q -> tags_of (extract_tags q tags).2 p = tags_of tags p.
Proof.
  intros Hp. unfold extract_tags, tags_of. cbn. induction tags as [|t tags IH]; [done|]. cbn.
  destruct (Z.eqb_spec (DucklakeColumnTag.column_id t) q) as [->|Hq]; cbn; rewrite IH.
  - by rewrite (proj2 (Z.eqb_neq q p)) by congruence.
  - done.
Qed.

Lemma column_loaded rows tags row parent children own c rest tags' :
  default [] (children !! DucklakeColumn.column_id row) = children_of rows (DucklakeColumn.column_id row) ->
  tags_of own (DucklakeColumn.column_id row) = tags_of tags (DucklakeColumn.column_id row) ->
  match DucklakeColumn.parent_column row, parent with
  | None, None => True
  | Some p, Some i => exists r, rows !! i = Some r /\ DucklakeColumn.column_id r = p
  | _, _ => False
  end ->
  CatalogColumn_from_ducklake row parent children own = Ok (c, rest, tags') ->
  column_reflects rows tags row c /\ CatalogColumn.parent_column c = parent /\
  (forall p, p <> DucklakeColumn.column_id row -> rest !! p = children !! p /\ tags_of tags' p = tags_of own p).
Proof.
  intros Hc Ht Hp. unfold CatalogColumn_from_ducklake.
  intros ([d children'] & [Hd Hrest]%(load_dtype_reflects rows) & H)%outcome_bind_Ok; [|done].
  apply outcome_bind_Ok in H as (initial & Hi & H). apply outcome_bind_Ok in H as (dflt & _ & H).
  destruct (extract_tags _ own) as [own' tags''] eqn:E. injection H as <- <- <-. split; [split; cbn; try done|split; [done|]].
  - unfold extract_tags in E. injection E as <- _. by rewrite <-Ht.
  - unfold load_initial_default in Hi. destruct (DucklakeColumn.initial_default row); [|by injection Hi as <-].
    destruct d; [|done..]. by eexists.
  - intros p Hne. split.
    + destruct Hrest as [-> | ->]; [done|]. by rewrite lookup_delete_ne.
    + pose proof (tags_of_extract own p (DucklakeColumn.column_id row) Hne) as He. by rewrite E in He.
Qed.

Lemma load_column_prefix rows tags done row acc acc' :
  NoDup (DucklakeColumn.column_id <$> rows) -> done ++ [row] `prefix_of` rows ->
  loaded_prefix rows tags done acc -> load_column (id_to_arena_idx rows) acc row = Ok acc' ->
  loaded_prefix rows tags (done ++ [row]) acc'.
Proof.
  intros HN Hpre. pose proof (NoDup_fresh _ _ _ _ HN Hpre) as Hfresh.
  destruct acc as [[self children] own]. intros (Harena & Hroots & Hnames & Hids & Hothers). cbn [fst snd] in *.
  assert (DucklakeColumn.column_id row ∉ DucklakeColumn.column_id <$> done) as Hnew.
  { intros (y & Hy & Hin)%list_elem_of_fmap. by apply (Hfresh y Hin). }
  destruct (Hothers _ Hnew) as [Hchildren Htags].
  unfold load_column. intros (parent & Hparent & H)%outcome_bind_Ok.
  apply outcome_bind_Ok in H as ([[c rest] tags'] & Hc & H).
  eapply (column_loaded rows tags) in Hc as (Hc & Hpc & Hrest); [|exact Hchildren|exact Htags|].
  2: { destruct (DucklakeColumn.parent_column row) as [p|]; cbn in Hparent; [|by injection Hparent as <-].
       destruct (id_to_arena_idx rows !! p) as [i|] eqn:Hi; [|done]. injection Hparent as <-.
       apply (id_to_arena_idx_indexed rows HN) in Hi as (r & Hr & _ & Hid). by exists r. }
  pose proof (Forall2_length _ _ _ Harena) as Hlen.
  assert (forall self', CatalogColumns.arena self' = CatalogColumns.arena self ++ [c] ->
    CatalogColumns.by_id self' = <[CatalogColumn.id c := length (CatalogColumns.arena self)]> (CatalogColumns.by_id self) ->
    CatalogColumns.root_columns self' = roots_of (done ++ [row]) -> NoDup (roots_of (done ++ [row])).*1 ->
    loaded_prefix rows tags (done ++ [row]) (self', rest, tags')) as Hdone.
  { intros self' Ha Hb Hr HNr. split_and!; cbn [fst snd]; [|done|done| |].
    - rewrite Ha. by apply Forall2_snoc.
    - rewrite Hb, <-Hlen, (cr_id _ _ _ _ Hc). by apply indexed_snoc; [| |intros ? ? _; apply Hfresh].
    - intros p. rewrite fmap_app, not_elem_of_app. intros [Hp Hq]. cbn in Hq. 
      destruct (Hrest p) as [-> ->]; [set_solver|]. by apply Hothers. }
  pose proof (cr_parent _ _ _ _ Hc) as Hkind. rewrite Hpc in Hkind.
  destruct parent as [i|]; destruct (DucklakeColumn.parent_column row) eqn:Hrow; try done.
  - injection H as <-. apply Hdone; [done|done| |]; rewrite roots_snoc, Hrow, app_nil_r; done.
  - destruct (IndexMap.contains_key _ _) eqn:Hkey; [done|]. injection H as <-.
    apply IndexMap.contains_key_false in Hkey. cbn in Hkey. rewrite Hroots in Hkey.
    apply Hdone; [done|done| |]; rewrite roots_snoc, Hrow.
    + cbn -[length IndexMap.insert]. rewrite Hroots, IndexMap.insert_fresh by done. by rewrite Hlen.
    + rewrite fmap_app. apply NoDup_app. split; [done|]. split; [|apply NoDup_singleton].
      intros x Hx ->%list_elem_of_singleton. done.
Qed.

(** The columns of a table reflect its rows, whose IDs are distinct. *)
Lemma columns_loaded table_rows tags c :
  NoDup (DucklakeColumn.column_id <$> table_rows) ->
  CatalogColumns_from_ducklake table_rows tags = Ok c -> columns_reflect table_rows tags c.
Proof.
  intros HN. unfold CatalogColumns_from_ducklake. cbv zeta.
  pose proof (sort_by_key_perm option_Z_leb DucklakeColumn.column_order table_rows) as Hperm.
  rewrite <-Hperm in HN. set (rows := sort_by_key _ _ _) in *.
  intros ([[self children] own] & H & [= <-])%outcome_bind_Ok.
  apply (fold_outcome_prefix _ (loaded_prefix rows tags)) in H.
  - destruct H as (Harena & Hroots & Hnames & Hids & _). split; [done|done| |done]. by cbn in Hroots; rewrite Hroots.
  - split_and!; cbn; [constructor|done|constructor|apply indexed_empty|].
    intros p _. split; [apply children_by_parent|done].
  - intros done row acc acc'. by apply load_column_prefix.
Qed.
End Columns.
