(* ===== verification/LoadFacts.v ===== *)
(** * A loaded catalog reflects the rows it is loaded from ([catalog/load.rs])

    Names and IDs of a loaded catalog lead to exactly the rows that carry them,
    the catalog is well formed, and every entity has an ID. *)

From S2P Require Import Prelude Text Regex Identifier Types Instances Entities.
From S2P Require Import CatalogColumns Catalog CatalogFacts TableStats CommitState Database Load LoadedColumns.
From S2P Require Import Commit Demo StatsKey Cache.

(** ** What a catalog reflects *)

Section Reflects.
Context `{EXT : External}.
Implicit Types (c : Catalog).

Definition any_of {A} (_ : A) : Prop := True.

(** A macro with the type its implementations have *)
Abbreviation typed_macro := (DucklakeMacro * MacroType)%type.
Definition typed_macro_key (m : typed_macro) : string * MacroType :=
  (to_ascii_lowercase (DucklakeMacro.macro_name m.1), m.2).

Record reflects_schema (ts : list DucklakeTable) (vs : list DucklakeView) (ms : list typed_macro)
    (row : DucklakeSchema) (s : CatalogSchema.t) : Prop := {
  rs_id : CatalogSchema.id s = Some (DucklakeSchema.schema_id row);
  rs_name : CatalogSchema.name s = DucklakeSchema.schema_name row;
  rs_tables : indexed (CatalogSchema.tables s)
    (fun t => DucklakeTable.schema_id t = DucklakeSchema.schema_id row) DucklakeTable.table_name ts;
  rs_views : indexed (CatalogSchema.views s)
    (fun v => DucklakeView.schema_id v = DucklakeSchema.schema_id row) DucklakeView.view_name vs;
  rs_macros : leads (CatalogSchema.macros s)
    (fun m => DucklakeMacro.schema_id m.1 = DucklakeSchema.schema_id row) typed_macro_key ms;
  rs_named_macros m : m ∈ ms -> DucklakeMacro.schema_id m.1 = DucklakeSchema.schema_id row ->
    is_Some (CatalogSchema.macros s !! typed_macro_key m);
}.

(** The entity of a row, named after the row's schema *)
Definition reflects_entity {R A} (row_id row_schema : R -> Z) (row_name : R -> string)
    (id : A -> option Z) (name : A -> QualifiedName) (ss : list DucklakeSchema) (r : R) (a : A) : Prop :=
  id a = Some (row_id r) /\ exists s, s ∈ ss /\ DucklakeSchema.schema_id s = row_schema r /\
    name a = QualifiedName.mk (DucklakeSchema.schema_name s) (row_name r).

Record reflects c (ss : list DucklakeSchema) (ts : list DucklakeTable) (vs : list DucklakeView)
    (ms : list typed_macro) : Prop := {
  reflects_schemas : Forall2 (reflects_schema ts vs ms) ss (Arena.arena (Catalog.schema_arena c));
  reflects_names : indexed (Catalog.schemas c) any_of DucklakeSchema.schema_name ss;
  reflects_ids : indexed (Arena.by_id (Catalog.schema_arena c)) any_of DucklakeSchema.schema_id ss;
  reflects_tables : Forall2 (reflects_entity DucklakeTable.table_id DucklakeTable.schema_id
    DucklakeTable.table_name CatalogTable.id CatalogTable.name ss)
    ts (Arena.arena (Catalog.table_arena c));
  reflects_table_ids :
    indexed (Arena.by_id (Catalog.table_arena c)) any_of DucklakeTable.table_id ts;
  reflects_views : Forall2 (reflects_entity DucklakeView.view_id DucklakeView.schema_id
    DucklakeView.view_name CatalogView.id CatalogView.name ss)
    vs (Arena.arena (Catalog.view_arena c));
  reflects_view_ids :
    indexed (Arena.by_id (Catalog.view_arena c)) any_of DucklakeView.view_id vs;
  reflects_macros : Forall2 (fun (m : typed_macro) a => CatalogMacro.macro_type a = m.2 /\
    reflects_entity (fun m : typed_macro => DucklakeMacro.macro_id m.1)
      (fun m => DucklakeMacro.schema_id m.1) (fun m => DucklakeMacro.macro_name m.1)
      CatalogMacro.id CatalogMacro.name ss m a)
    ms (Arena.arena (Catalog.macro_arena c));
  reflects_macro_ids :
    indexed (Arena.by_id (Catalog.macro_arena c)) any_of (fun m => DucklakeMacro.macro_id m.1) ms;
}.

Lemma reflects_empty : reflects Catalog.empty [] [] [] [].
Proof. split; cbn; try constructor; apply indexed_empty. Qed.

(** *** Rows are added *)

Lemma reflects_entity_mono {R A} (row_id row_schema : R -> Z) row_name (id : A -> option Z) name ss ss' r a :
  ss ⊆ ss' -> reflects_entity row_id row_schema row_name id name ss r a ->
  reflects_entity row_id row_schema row_name id name ss' r a.
Proof. intros Hs [Hid (s & Hin & H)]. split; [done|]. exists s. split; [by apply Hs|done]. Qed.

(** A schema a row belongs to *)
Lemma schema_of c ss ts vs ms id r :
  reflects c ss ts vs ms -> Catalog.schema_by_id c id = Ok r ->
  exists row s, ss !! SchemaRef.idx r = Some row /\ DucklakeSchema.schema_id row = id /\
    Arena.arena (Catalog.schema_arena c) !! SchemaRef.idx r = Some s /\
    reflects_schema ts vs ms row s.
Proof.
  intros Hc. unfold Catalog.schema_by_id, Arena.map_id.
  destruct (Arena.by_id _ !! id) as [i|] eqn:Hi; [|done]. intros [= <-]. cbn.
  apply (reflects_ids _ _ _ _ _ Hc) in Hi as (row & Hrow & _ & Hid).
  destruct (Forall2_lookup_l _ _ _ _ _ (reflects_schemas _ _ _ _ _ Hc) Hrow) as (s & Hs & Hr). eauto 10.
Qed.

(** One entry of the arena of schemas changes; the others see a row of another schema. *)
Lemma reflects_schemas_update ss ss_arena (P Q : DucklakeSchema -> CatalogSchema.t -> Prop) i row s s' :
  Forall2 P ss ss_arena -> ss !! i = Some row -> ss_arena !! i = Some s -> Q row s' ->
  (forall j row' t, ss !! j = Some row' -> j <> i -> P row' t -> Q row' t) ->
  Forall2 Q ss (<[i := s']> ss_arena).
Proof.
  intros HP Hrow Hs Hq Hothers. apply Forall2_same_length_lookup. split.
  - rewrite length_insert. by eapply Forall2_length.
  - intros j row' t Hj. rewrite list_lookup_insert_Some. intros [(<- & <- & _)|[Hne Ht]].
    + by rewrite Hrow in Hj; injection Hj as <-.
    + eapply Hothers; [exact Hj|done|]. eapply Forall2_lookup_lr; eauto.
Qed.

(** A row is added to the map of its schema. *)
Lemma reflects_schemas_add c ss ts vs ms ts' vs' ms' id (r : SchemaRef) row s (f : CatalogSchema.t -> CatalogSchema.t) :
  reflects c ss ts vs ms -> NoDup (DucklakeSchema.schema_id <$> ss) ->
  Catalog.schema_by_id c id = Ok r ->
  ss !! SchemaRef.idx r = Some row -> DucklakeSchema.schema_id row = id ->
  Arena.arena (Catalog.schema_arena c) !! SchemaRef.idx r = Some s ->
  (reflects_schema ts vs ms row s -> reflects_schema ts' vs' ms' row (f s)) ->
  (forall row' s', DucklakeSchema.schema_id row' <> id ->
     reflects_schema ts vs ms row' s' -> reflects_schema ts' vs' ms' row' s') ->
  Forall2 (reflects_schema ts' vs' ms') ss
    (<[SchemaRef.idx r := f s]> (Arena.arena (Catalog.schema_arena c))).
Proof.
  intros Hc Hids _ Hrow Hid Hs Hf Hothers.
  pose proof (reflects_schemas _ _ _ _ _ Hc) as Hall.
  eapply reflects_schemas_update; [exact Hall|exact Hrow|exact Hs| |].
  - apply Hf. by eapply Forall2_lookup_lr.
  - intros j row' s' Hj Hne. apply Hothers. intros Heq. apply Hne.
    eapply NoDup_lookup; [exact Hids| |]; rewrite list_lookup_fmap; [by rewrite Hj|].
    by rewrite Hrow; cbn; rewrite Hid, <-Heq.
Qed.

Lemma set_schema_reflects c ss row c' :
  reflects c ss [] [] [] ->
  (forall row', row' ∈ ss -> DucklakeSchema.schema_name row' <> DucklakeSchema.schema_name row) ->
  (forall row', row' ∈ ss -> DucklakeSchema.schema_id row' <> DucklakeSchema.schema_id row) ->
  set_schema c row = Ok c' -> reflects c' (ss ++ [row]) [] [] [].
Proof.
  intros Hc Hname Hid. unfold set_schema, mbind, outcome_bind.
  destruct (infallible _) as [path| |]; [|done..]. cbn -[length app insert]. intros [= <-].
  pose proof (Forall2_length _ _ _ (reflects_schemas _ _ _ _ _ Hc)) as Hlen.
  destruct Hc. split; cbn -[length app insert]; try done.
  - apply Forall2_snoc; [done|]. split; cbn; [done|done|by apply indexed_empty..|by intros k i|by intros m ?%elem_of_nil].
  - rewrite <-Hlen. by apply indexed_snoc; [| |intros ? ? _; apply Hname].
  - rewrite <-Hlen. by apply indexed_snoc; [| |intros ? ? _; apply Hid].
  - by inv reflects_tables0; constructor.
  - by inv reflects_views0; constructor.
  - by inv reflects_macros0; constructor.
Qed.
End Reflects.

Section Loading.
Context `{EXT : External} `{ENG : !RegexEngine} `{TXT : !ValueText}.
Implicit Types (c : Catalog).

(** *** One table, view or macro *)

(** The catalog with an entity pushed to an arena and its name added to a schema *)
Lemma update_schema_run (r : SchemaRef) (f : CatalogSchema.t -> CatalogSchema.t) c c' :
  run_on_catalog (Catalog.update_schema r f) c = Ok c' ->
  exists s, Arena.arena (Catalog.schema_arena c) !! SchemaRef.idx r = Some s /\
    c' = c <| Catalog.schema_arena := Arena.mk (<[SchemaRef.idx r := f s]>
      (Arena.arena (Catalog.schema_arena c))) (Arena.by_id (Catalog.schema_arena c)) |>.
Proof.
  unfold run_on_catalog, Catalog.update_schema, Catalog.update_arena, Arena.update.
  destruct (_ !! SchemaRef.idx r) as [s|]; [|done]. intros [= <-]. by exists s.
Qed.

Lemma schema_name_run c r name :
  Catalog.schema_name c r = Ok name ->
  exists s, Arena.arena (Catalog.schema_arena c) !! SchemaRef.idx r = Some s /\ CatalogSchema.name s = name.
Proof.
  unfold Catalog.schema_name, Catalog.schema_inner, Arena.get.
  destruct (_ !! SchemaRef.idx r) as [s|]; [|done]. intros [= <-]. by exists s.
Qed.

Lemma set_table_run c g row c' g' :
  set_table (c, g) row = Ok (c', g') ->
  exists r s t, Catalog.schema_by_id c (DucklakeTable.schema_id row) = Ok r /\
    Arena.arena (Catalog.schema_arena c) !! SchemaRef.idx r = Some s /\
    CatalogTable.id t = Some (DucklakeTable.table_id row) /\
    CatalogTable.name t = QualifiedName.mk (CatalogSchema.name s) (DucklakeTable.table_name row) /\
    c' = c <| Catalog.table_arena := (Arena.push t (Some (DucklakeTable.table_id row)) (Catalog.table_arena c)).2 |>
      <| Catalog.schema_arena := Arena.mk (<[SchemaRef.idx r := s <| CatalogSchema.tables ::=
          <[DucklakeTable.table_name row := length (Arena.arena (Catalog.table_arena c))]> |> ]>
        (Arena.arena (Catalog.schema_arena c))) (Arena.by_id (Catalog.schema_arena c)) |>.
Proof.
  unfold set_table. cbn [take_group]. unfold take_group. cbv zeta.
  intros (r & Hr%infallible_ok & H)%outcome_bind_Ok.
  apply outcome_bind_Ok in H as (cols & _ & H).
  apply outcome_bind_Ok in H as ([p g1] & _ & H).
  apply outcome_bind_Ok in H as ([i g2] & _ & H).
  apply outcome_bind_Ok in H as (schema_name & (s & Hs & <-)%schema_name_run & H).
  apply outcome_bind_Ok in H as (path & _ & H). cbn [Arena.push] in H.
  apply outcome_bind_Ok in H as (c1 & (s' & Hs' & ->)%update_schema_run & H).
  cbn -[length app insert] in Hs'. rewrite Hs in Hs'. injection Hs' as <-. injection H as <- _.
  eexists r, s, _. do 2 (split; [done|]). split; [|split]; [| |reflexivity]; done.
Qed.

Lemma set_view_run c g row c' g' :
  set_view (c, g) row = Ok (c', g') ->
  exists r s v, Catalog.schema_by_id c (DucklakeView.schema_id row) = Ok r /\
    Arena.arena (Catalog.schema_arena c) !! SchemaRef.idx r = Some s /\
    CatalogView.id v = Some (DucklakeView.view_id row) /\
    CatalogView.name v = QualifiedName.mk (CatalogSchema.name s) (DucklakeView.view_name row) /\
    c' = c <| Catalog.view_arena := (Arena.push v (Some (DucklakeView.view_id row)) (Catalog.view_arena c)).2 |>
      <| Catalog.schema_arena := Arena.mk (<[SchemaRef.idx r := s <| CatalogSchema.views ::=
          <[DucklakeView.view_name row := length (Arena.arena (Catalog.view_arena c))]> |> ]>
        (Arena.arena (Catalog.schema_arena c))) (Arena.by_id (Catalog.schema_arena c)) |>.
Proof.
  unfold set_view, take_group. cbv zeta.
  intros (r & Hr%infallible_ok & H)%outcome_bind_Ok.
  apply outcome_bind_Ok in H as (schema_name & (s & Hs & <-)%schema_name_run & H).
  apply outcome_bind_Ok in H as (aliases & _ & H). cbn [Arena.push] in H.
  apply outcome_bind_Ok in H as (c1 & (s' & Hs' & ->)%update_schema_run & H).
  cbn -[length app insert] in Hs'. rewrite Hs in Hs'. injection Hs' as <-. injection H as <- _.
  eexists r, s, _. do 2 (split; [done|]). split; [|split]; [| |reflexivity]; done.
Qed.

Lemma macro_from_ducklake_named id name impls parameters m rest :
  CatalogMacro_from_ducklake id name impls parameters = Ok (m, rest) ->
  CatalogMacro.id m = Some id /\ CatalogMacro.name m = name.
Proof.
  unfold CatalogMacro_from_ducklake. cbv zeta.
  intros (first & _ & (macro_type & _ & ([l p] & _ & H)%outcome_bind_Ok)%outcome_bind_Ok)%outcome_bind_Ok.
  by injection H as <- _.
Qed.

Lemma set_macro_run c impls parameters row c' impls' parameters' :
  set_macro (c, impls, parameters) row = Ok (c', impls', parameters') ->
  exists r s m, Catalog.schema_by_id c (DucklakeMacro.schema_id row) = Ok r /\
    Arena.arena (Catalog.schema_arena c) !! SchemaRef.idx r = Some s /\
    CatalogMacro.id m = Some (DucklakeMacro.macro_id row) /\
    CatalogMacro.name m = QualifiedName.mk (CatalogSchema.name s) (DucklakeMacro.macro_name row) /\
    c' = c <| Catalog.macro_arena := (Arena.push m (Some (DucklakeMacro.macro_id row)) (Catalog.macro_arena c)).2 |>
      <| Catalog.schema_arena := Arena.mk (<[SchemaRef.idx r := s <| CatalogSchema.macros ::=
          <[(to_ascii_lowercase (DucklakeMacro.macro_name row), CatalogMacro.macro_type m)
              := length (Arena.arena (Catalog.macro_arena c))]> |> ]>
        (Arena.arena (Catalog.schema_arena c))) (Arena.by_id (Catalog.schema_arena c)) |>.
Proof.
  unfold set_macro, take_group. cbv zeta.
  intros (r & Hr%infallible_ok & H)%outcome_bind_Ok.
  apply outcome_bind_Ok in H as (schema_name & (s & Hs & <-)%schema_name_run & H).
  apply outcome_bind_Ok in H as ([m rest] & [Hid Hname]%macro_from_ducklake_named & H). cbn [Arena.push] in H.
  apply outcome_bind_Ok in H as (c1 & (s' & Hs' & ->)%update_schema_run & H).
  cbn -[length app insert] in Hs'. rewrite Hs in Hs'. injection Hs' as <-. injection H as <- _ _.
  eexists r, s, m. do 4 (split; [done|]). reflexivity.
Qed.

Lemma row_lookup_schema c ss ts vs ms id r s :
  reflects c ss ts vs ms -> Catalog.schema_by_id c id = Ok r ->
  Arena.arena (Catalog.schema_arena c) !! SchemaRef.idx r = Some s ->
  exists row, ss !! SchemaRef.idx r = Some row /\ DucklakeSchema.schema_id row = id /\
    CatalogSchema.name s = DucklakeSchema.schema_name row.
Proof.
  intros Hc Hr Hs. destruct (schema_of _ _ _ _ _ _ _ Hc Hr) as (row & s' & Hrow & Hid & Hs' & Hrs).
  rewrite Hs in Hs'. injection Hs' as <-. exists row. split; [done|]. split; [done|]. apply Hrs.
Qed.

(** Two rows of one schema with different names *)
Definition apart_from {R} (schema : R -> Z) {K} (name : R -> K) (rows : list R) (r : R) : Prop :=
  forall r', r' ∈ rows -> schema r' = schema r -> name r' <> name r.

Lemma set_table_reflects c g ss ts vs ms row c' g' :
  reflects c ss ts vs ms -> NoDup (DucklakeSchema.schema_id <$> ss) ->
  apart_from DucklakeTable.schema_id DucklakeTable.table_name ts row ->
  (forall t, t ∈ ts -> DucklakeTable.table_id t <> DucklakeTable.table_id row) ->
  set_table (c, g) row = Ok (c', g') -> reflects c' ss (ts ++ [row]) vs ms.
Proof.
  intros Hc Hids Hname Hid (r & s & t & Hr & Hs & Htid & Htname & ->)%set_table_run.
  destruct (row_lookup_schema _ _ _ _ _ _ _ _ Hc Hr Hs) as (srow & Hsrow & Hsid & Hsname).
  pose proof (Forall2_length _ _ _ (reflects_tables _ _ _ _ _ Hc)) as Hlen.
  assert (Forall2 (reflects_schema (ts ++ [row]) vs ms) ss
    (<[SchemaRef.idx r := s <| CatalogSchema.tables ::=
      <[DucklakeTable.table_name row := length (Arena.arena (Catalog.table_arena c))]> |> ]>
      (Arena.arena (Catalog.schema_arena c)))) as Hschemas.
  { eapply (reflects_schemas_add c ss ts vs ms (ts ++ [row]) vs ms _ r srow s
      (fun s => s <| CatalogSchema.tables ::= _ |>)); try done.
    - intros []. split; cbn -[length app insert]; try done. rewrite <-Hlen.
      apply indexed_snoc; [done|by rewrite Hsid|]. intros r' Hr' Hm. by apply Hname; [|rewrite Hm].
    - intros row' s' Hne []. split; try done. apply indexed_other; [done|]. by apply not_eq_sym. }
  destruct Hc. split; cbn -[length app insert]; try done.
  - apply Forall2_snoc; [done|]. split; [done|]. exists srow.
    split; [by eapply list_elem_of_lookup_2|]. split; [done|]. by rewrite Htname, Hsname.
  - rewrite <-Hlen. by apply indexed_snoc; [| |intros ? ? _; apply Hid].
Qed.

Lemma set_view_reflects c g ss ts vs ms row c' g' :
  reflects c ss ts vs ms -> NoDup (DucklakeSchema.schema_id <$> ss) ->
  apart_from DucklakeView.schema_id DucklakeView.view_name vs row ->
  (forall t, t ∈ vs -> DucklakeView.view_id t <> DucklakeView.view_id row) ->
  set_view (c, g) row = Ok (c', g') -> reflects c' ss ts (vs ++ [row]) ms.
Proof.
  intros Hc Hids Hname Hid (r & s & t & Hr & Hs & Htid & Htname & ->)%set_view_run.
  destruct (row_lookup_schema _ _ _ _ _ _ _ _ Hc Hr Hs) as (srow & Hsrow & Hsid & Hsname).
  pose proof (Forall2_length _ _ _ (reflects_views _ _ _ _ _ Hc)) as Hlen.
  assert (Forall2 (reflects_schema ts (vs ++ [row]) ms) ss
    (<[SchemaRef.idx r := s <| CatalogSchema.views ::=
      <[DucklakeView.view_name row := length (Arena.arena (Catalog.view_arena c))]> |> ]>
      (Arena.arena (Catalog.schema_arena c)))) as Hschemas.
  { eapply (reflects_schemas_add c ss ts vs ms ts (vs ++ [row]) ms _ r srow s
      (fun s => s <| CatalogSchema.views ::= _ |>)); try done.
    - intros []. split; cbn -[length app insert]; try done. rewrite <-Hlen.
      apply indexed_snoc; [done|by rewrite Hsid|]. intros r' Hr' Hm. by apply Hname; [|rewrite Hm].
    - intros row' s' Hne []. split; try done. apply indexed_other; [done|]. by apply not_eq_sym. }
  destruct Hc. split; cbn -[length app insert]; try done.
  - apply Forall2_snoc; [done|]. split; [done|]. exists srow.
    split; [by eapply list_elem_of_lookup_2|]. split; [done|]. by rewrite Htname, Hsname.
  - rewrite <-Hlen. by apply indexed_snoc; [| |intros ? ? _; apply Hid].
Qed.

Lemma set_macro_reflects c impls parameters ss ts vs ms row c' impls' parameters' :
  reflects c ss ts vs ms -> NoDup (DucklakeSchema.schema_id <$> ss) ->
  (forall t, t ∈ ms -> DucklakeMacro.macro_id t.1 <> DucklakeMacro.macro_id row) ->
  set_macro (c, impls, parameters) row = Ok (c', impls', parameters') ->
  exists macro_type, reflects c' ss ts vs (ms ++ [(row, macro_type)]).
Proof.
  intros Hc Hids Hid (r & s & t & Hr & Hs & Htid & Htname & ->)%set_macro_run.
  exists (CatalogMacro.macro_type t). set (m := (row, CatalogMacro.macro_type t)).
  destruct (row_lookup_schema _ _ _ _ _ _ _ _ Hc Hr Hs) as (srow & Hsrow & Hsid & Hsname).
  pose proof (Forall2_length _ _ _ (reflects_macros _ _ _ _ _ Hc)) as Hlen.
  assert (Forall2 (reflects_schema ts vs (ms ++ [m])) ss
    (<[SchemaRef.idx r := s <| CatalogSchema.macros ::=
      <[typed_macro_key m := length (Arena.arena (Catalog.macro_arena c))]> |> ]>
      (Arena.arena (Catalog.schema_arena c)))) as Hschemas.
  { eapply (reflects_schemas_add c ss ts vs ms ts vs (ms ++ [m]) _ r srow s
      (fun s => s <| CatalogSchema.macros ::= _ |>)); try done.
    - intros []. split; cbn -[length app insert typed_macro_key]; try done; rewrite <-Hlen.
      + by apply leads_snoc; [|rewrite Hsid].
      + intros m' [Hm' | ->%list_elem_of_singleton]%elem_of_app Hmine; [|by rewrite lookup_insert_eq].
        destruct (decide (typed_macro_key m = typed_macro_key m')) as [->|Hk]; [by rewrite lookup_insert_eq|].
        rewrite lookup_insert_ne by done. by apply rs_named_macros0.
    - intros row' s' Hne []. split; try done; [by apply leads_other|].
      intros m' [Hm' | ->%list_elem_of_singleton]%elem_of_app Hmine; [by apply rs_named_macros0|by destruct Hne]. }
  destruct Hc. split; cbn -[length app insert]; try done.
  - apply Forall2_snoc; [done|]. split; [done|]. split; [done|]. exists srow.
    split; [by eapply list_elem_of_lookup_2|]. split; [done|]. by rewrite Htname, Hsname.
  - rewrite <-Hlen. apply (indexed_snoc _ any_of (fun m : DucklakeMacro * MacroType => DucklakeMacro.macro_id m.1) ms m);
      [done|done|]. intros ? ? _. by apply Hid.
Qed.

(** *** The whole catalog *)

(** What the database promises of the rows a snapshot sees *)
Record distinct (f : Fetched) : Prop := {
  schema_ids_distinct : NoDup (DucklakeSchema.schema_id <$> fetched_schemas f);
  schema_names_distinct : NoDup (DucklakeSchema.schema_name <$> fetched_schemas f);
  table_ids_distinct : NoDup (DucklakeTable.table_id <$> fetched_tables f);
  table_names_distinct :
    NoDup ((fun t => (DucklakeTable.schema_id t, DucklakeTable.table_name t)) <$> fetched_tables f);
  view_ids_distinct : NoDup (DucklakeView.view_id <$> fetched_views f);
  view_names_distinct :
    NoDup ((fun v => (DucklakeView.schema_id v, DucklakeView.view_name v)) <$> fetched_views f);
  macro_ids_distinct : NoDup (DucklakeMacro.macro_id <$> fetched_macros f);
  relations_distinct t v : t ∈ fetched_tables f -> v ∈ fetched_views f ->
    DucklakeTable.schema_id t = DucklakeView.schema_id v ->
    DucklakeTable.table_name t <> DucklakeView.view_name v;
}.

Lemma NoDup_apart {R K} (schema : R -> Z) (name : R -> K) l done x :
  NoDup ((fun r => (schema r, name r)) <$> l) -> done ++ [x] `prefix_of` l ->
  apart_from schema name done x.
Proof.
  intros Hl Hp y Hy Hs Hn. apply (NoDup_fresh _ _ _ _ Hl Hp y Hy). by rewrite Hs, Hn.
Qed.

Lemma build_catalog_reflects f c :
  distinct f -> build_catalog f = Ok c ->
  exists ms, ms.*1 = fetched_macros f /\
    reflects c (fetched_schemas f) (fetched_tables f) (fetched_views f) ms.
Proof.
  intros Hf. unfold build_catalog. cbv zeta.
  intros (c1 & H1 & H)%outcome_bind_Ok. apply outcome_bind_Ok in H as ([c2 g2] & H2 & H).
  apply outcome_bind_Ok in H as ([c3 g3] & H3 & H).
  apply outcome_bind_Ok in H as ([[c4 i4] p4] & H4 & H). injection H as <-.
  apply (fold_outcome_prefix _ (fun l c => reflects c l [] [] [])) in H1; [|apply reflects_empty|].
  2: { intros done x s s' Hp Hs. apply set_schema_reflects; [done| |];
       eapply NoDup_fresh; try done; apply Hf. }
  apply (fold_outcome_prefix _ (fun l (acc : Catalog * Grouped) =>
    reflects acc.1 (fetched_schemas f) l [] [])) in H2; [|done|].
  2: { intros done x [s g] [s' g'] Hp Hs. apply set_table_reflects; [done|apply Hf| |].
       - eapply NoDup_apart; [apply (table_names_distinct _ Hf)|done].
       - eapply NoDup_fresh; [apply (table_ids_distinct _ Hf)|done]. }
  apply (fold_outcome_prefix _ (fun l (acc : Catalog * Grouped) =>
    reflects acc.1 (fetched_schemas f) (fetched_tables f) l [])) in H3; [|done|].
  2: { intros done x [s g] [s' g'] Hp Hs. apply set_view_reflects; [done|apply Hf| |].
       - eapply NoDup_apart; [apply (view_names_distinct _ Hf)|done].
       - eapply NoDup_fresh; [apply (view_ids_distinct _ Hf)|done]. }
  apply (fold_outcome_prefix _ (fun l (acc : Catalog * gmap Z (list DucklakeMacroImpl) *
      gmap (Z * Z) (list DucklakeMacroParameters)) => exists ms, ms.*1 = l /\
    reflects acc.1.1 (fetched_schemas f) (fetched_tables f) (fetched_views f) ms)) in H4; [done|by exists []|].
  intros done x [[s i] p] [[s' i'] p'] Hp (ms & <- & Hs) Hx.
  eapply set_macro_reflects in Hx as [macro_type Hx]; [|exact Hs|apply Hf|].
  - exists (ms ++ [(x, macro_type)]). split; [by rewrite fmap_app|done].
  - intros m Hm. apply (NoDup_fresh _ _ _ _ (macro_ids_distinct _ Hf) Hp m.1).
    by apply list_elem_of_fmap_2.
Qed.

(** *** The columns of the tables *)

(** The rows of the columns of a table, and of their tags *)
Definition columns_of (f : Fetched) (id : Z) : list DucklakeColumn :=
  List.filter (fun r => bool_decide (DucklakeColumn.table_id r = id)) (fetched_columns f).
Definition column_tags_of (f : Fetched) (id : Z) : list DucklakeColumnTag :=
  List.filter (fun r => bool_decide (DucklakeColumnTag.table_id r = id)) (fetched_column_tags f).

Lemma load_partition_groups table cols g p g' : load_partition table cols g = Ok (p, g') ->
  columns g' = columns g /\ column_tags g' = column_tags g.
Proof.
  unfold load_partition, take_group. cbv zeta. destruct (default [] _) as [|info [|? ?]]; [by intros [= _ <-]| |done].
  case_decide; [done|]. intros (q & _ & [= _ <-])%outcome_bind_Ok. done.
Qed.
Lemma load_sort_info_groups table cols g p g' : load_sort_info table cols g = Ok (p, g') ->
  columns g' = columns g /\ column_tags g' = column_tags g.
Proof.
  unfold load_sort_info, take_group. cbv zeta. destruct (default [] _) as [|info [|? ?]]; [by intros [= _ <-]| |done].
  intros (q & _ & [= _ <-])%outcome_bind_Ok. done.
Qed.

Lemma set_table_columns c g row c' g' (id := DucklakeTable.table_id row) :
  set_table (c, g) row = Ok (c', g') ->
  exists t, Arena.arena (Catalog.table_arena c') = Arena.arena (Catalog.table_arena c) ++ [t] /\
    CatalogColumns_from_ducklake (default [] (columns g !! id)) (default [] (column_tags g !! id)) =
      Ok (CatalogTable.columns t) /\
    columns g' = delete id (columns g) /\ column_tags g' = delete id (column_tags g).
Proof.
  unfold set_table, take_group. cbv zeta.
  intros (r & _ & H)%outcome_bind_Ok. apply outcome_bind_Ok in H as (cols & Hcols & H).
  apply outcome_bind_Ok in H as ([p g1] & [Hc1 Ht1]%load_partition_groups & H).
  apply outcome_bind_Ok in H as ([i g2] & [Hc2 Ht2]%load_sort_info_groups & H).
  apply outcome_bind_Ok in H as (schema_name & _ & H).
  apply outcome_bind_Ok in H as (path & _ & H). cbn [Arena.push] in H.
  apply outcome_bind_Ok in H as (c1 & (s' & Hs' & ->)%update_schema_run & H). injection H as <- <-.
  eexists. split; [reflexivity|]. split; [exact Hcols|]. cbn. by rewrite Hc2, Hc1, Ht2, Ht1.
Qed.

(** What the loop over the tables has done; the groups of the others are untouched. *)
Definition tables_loaded (f : Fetched) (done : list DucklakeTable) (acc : Catalog * Grouped) : Prop :=
  Forall2 (fun t e => columns_reflect (columns_of f (DucklakeTable.table_id t))
    (column_tags_of f (DucklakeTable.table_id t)) (CatalogTable.columns e))
    done (Arena.arena (Catalog.table_arena acc.1)) /\
  forall id, id ∉ DucklakeTable.table_id <$> done ->
    default [] (columns acc.2 !! id) = columns_of f id /\
    default [] (column_tags acc.2 !! id) = column_tags_of f id.

Lemma set_table_loaded f done row acc acc' :
  NoDup (DucklakeTable.table_id <$> fetched_tables f) -> done ++ [row] `prefix_of` fetched_tables f ->
  NoDup (DucklakeColumn.column_id <$> columns_of f (DucklakeTable.table_id row)) ->
  tables_loaded f done acc -> set_table acc row = Ok acc' -> tables_loaded f (done ++ [row]) acc'.
Proof.
  intros HN Hpre Hcolumns [Hdone Hothers]. destruct acc as [c g], acc' as [c' g'].
  intros (t & Harena & Hcols & Hcs & Hts)%set_table_columns. cbn [fst snd] in *.
  destruct (Hothers (DucklakeTable.table_id row)) as [Hown Htags].
  { intros (y & Hy & Hin)%list_elem_of_fmap. by apply (NoDup_fresh _ _ _ _ HN Hpre y Hin). }
  split; cbn [fst snd].
  - rewrite Harena. apply Forall2_snoc; [done|]. rewrite Hown, Htags in Hcols. by apply columns_loaded.
  - intros id. rewrite fmap_app, not_elem_of_app. cbn. intros [Hid Hne].
    rewrite Hcs, Hts, !lookup_delete_ne by set_solver. by apply Hothers.
Qed.

(** *** The types of the macros *)

(** All implementations of the macro have the type, and it has one. *)
Definition has_macro_type (f : Fetched) (m : DucklakeMacro) (ty : MacroType) : Prop :=
  (exists i, i ∈ fetched_macro_impls f /\ DucklakeMacroImpl.macro_id i = DucklakeMacro.macro_id m) /\
  forall i, i ∈ fetched_macro_impls f -> DucklakeMacroImpl.macro_id i = DucklakeMacro.macro_id m ->
    MacroType_from_str (DucklakeMacroImpl.type_ i) = Ok ty.
Definition impls_of (f : Fetched) (id : Z) : list DucklakeMacroImpl :=
  List.filter (fun i => bool_decide (DucklakeMacroImpl.macro_id i = id)) (fetched_macro_impls f).

Lemma macro_from_ducklake_type id name impls parameters m rest :
  CatalogMacro_from_ducklake id name impls parameters = Ok (m, rest) ->
  impls <> [] /\ Forall (fun i => MacroType_from_str (DucklakeMacroImpl.type_ i) = Ok (CatalogMacro.macro_type m)) impls.
Proof.
  unfold CatalogMacro_from_ducklake. cbv zeta.
  pose proof (sort_by_key_perm Z.leb DucklakeMacroImpl.impl_id impls) as Hperm.
  intros (first & Hfirst & (ty & _ & ([l p] & H & [= <- _])%outcome_bind_Ok)%outcome_bind_Ok)%outcome_bind_Ok.
  split.
  - intros ->. done.
  - cbn. rewrite <-Hperm. apply (fold_outcome_prefix _ (fun l _ =>
      Forall (fun i => MacroType_from_str (DucklakeMacroImpl.type_ i) = Ok ty) l)) in H; [done|constructor|].
    intros done i [acc ps] acc' _ Hdone Hi. apply Forall_app. split; [done|]. constructor; [|constructor].
    unfold load_implementation in Hi. apply outcome_bind_Ok in Hi as (own & Hown & Hi).
    case_decide; [by subst|done].
Qed.

Definition macros_loaded (f : Fetched) (done : list DucklakeMacro)
    (acc : Catalog * gmap Z (list DucklakeMacroImpl) * gmap (Z * Z) (list DucklakeMacroParameters)) : Prop :=
  Forall2 (fun m e => has_macro_type f m (CatalogMacro.macro_type e)) done (Arena.arena (Catalog.macro_arena acc.1.1)) /\
  forall id, id ∉ DucklakeMacro.macro_id <$> done -> default [] (acc.1.2 !! id) = impls_of f id.

Lemma set_macro_loaded f done row acc acc' :
  NoDup (DucklakeMacro.macro_id <$> fetched_macros f) -> done ++ [row] `prefix_of` fetched_macros f ->
  macros_loaded f done acc -> set_macro acc row = Ok acc' ->
  macros_loaded f (done ++ [row]) acc' /\ Catalog.table_arena acc'.1.1 = Catalog.table_arena acc.1.1.
Proof.
  intros HN Hpre [Hdone Hothers]. destruct acc as [[c impls] parameters], acc' as [[c' impls'] parameters']. cbn [fst snd] in *.
  assert (DucklakeMacro.macro_id row ∉ DucklakeMacro.macro_id <$> done) as Hnew.
  { intros (y & Hy & Hin)%list_elem_of_fmap. by apply (NoDup_fresh _ _ _ _ HN Hpre y Hin). }
  unfold set_macro, take_group. cbv zeta.
  intros (r & _ & H)%outcome_bind_Ok. apply outcome_bind_Ok in H as (schema_name & _ & H).
  apply outcome_bind_Ok in H as ([m rest] & [Hne Hall]%macro_from_ducklake_type & H). cbn [Arena.push] in H.
  apply outcome_bind_Ok in H as (c1 & (s' & Hs' & ->)%update_schema_run & H). injection H as <- <- <-.
  rewrite (Hothers _ Hnew) in Hne, Hall. split; [split; cbn [fst snd]|done].
  - cbn -[app]. apply Forall2_snoc; [done|]. rewrite Forall_forall in Hall. unfold impls_of in *.
    setoid_rewrite list_elem_of_In in Hall. setoid_rewrite filter_In in Hall. setoid_rewrite bool_decide_eq_true in Hall.
    split; [|intros i Hi Hid; apply Hall; by rewrite <-list_elem_of_In].
    destruct (List.filter _ _) as [|i l] eqn:E; [done|]. exists i.
    assert (In i (i :: l)) as Hin by by left. rewrite <-E in Hin. apply filter_In in Hin as [? ?%bool_decide_eq_true].
    by rewrite list_elem_of_In.
  - intros id. rewrite fmap_app, not_elem_of_app. cbn. intros [Hid Hn].
    rewrite lookup_delete_ne by set_solver. by apply Hothers.
Qed.

(** The parts of the catalog that do not come from one row each *)
Lemma build_catalog_parts f c :
  distinct f ->
  (forall t, t ∈ fetched_tables f -> NoDup (DucklakeColumn.column_id <$> columns_of f (DucklakeTable.table_id t))) ->
  build_catalog f = Ok c ->
  Forall2 (fun t e => columns_reflect (columns_of f (DucklakeTable.table_id t))
    (column_tags_of f (DucklakeTable.table_id t)) (CatalogTable.columns e))
    (fetched_tables f) (Arena.arena (Catalog.table_arena c)) /\
  Forall2 (fun m e => has_macro_type f m (CatalogMacro.macro_type e))
    (fetched_macros f) (Arena.arena (Catalog.macro_arena c)).
Proof.
  intros Hf Hcolumns. unfold build_catalog. cbv zeta.
  intros (c1 & H1 & H)%outcome_bind_Ok. apply outcome_bind_Ok in H as ([c2 g2] & H2 & H).
  apply outcome_bind_Ok in H as ([c3 g3] & H3 & H).
  apply outcome_bind_Ok in H as ([[c4 i4] p4] & H4 & H). injection H as <-.
  assert (Catalog.table_arena c1 = Catalog.table_arena Catalog.empty /\ Catalog.macro_arena c1 = Catalog.macro_arena Catalog.empty) as [Ht1 Hm1].
  { apply (fold_outcome_prefix _ (fun _ c => Catalog.table_arena c = Catalog.table_arena Catalog.empty /\
      Catalog.macro_arena c = Catalog.macro_arena Catalog.empty)) in H1; [done|done|].
    intros _ x s s' _ Hs. unfold set_schema. intros (path & _ & [= <-])%outcome_bind_Ok. done. }
  apply (fold_outcome_prefix _ (fun l acc => tables_loaded f l acc /\ Catalog.macro_arena acc.1 = Catalog.macro_arena Catalog.empty)) in H2.
  2: { split; [|done]. split; cbn [fst snd]; [rewrite Ht1; constructor|]. intros id _. cbn. by rewrite !group_map_by_lookup. }
  2: { intros done x [s g] [s' g'] Hp [Hs Hm] Hx. split.
       - eapply set_table_loaded; try done; [apply Hf|]. apply Hcolumns. destruct Hp as [rest ->]. set_solver.
       - apply set_table_run in Hx as (? & ? & ? & _ & _ & _ & _ & ->). done. }
  destruct H2 as [[Htables _] Hm2].
  apply (fold_outcome_prefix _ (fun _ (acc : Catalog * Grouped) => Catalog.table_arena acc.1 = Catalog.table_arena c2 /\
    Catalog.macro_arena acc.1 = Catalog.macro_arena c2)) in H3 as [Ht3 Hm3]; [|done|].
  2: { intros _ x [s g] [s' g'] _ Hs (? & ? & ? & _ & _ & _ & _ & ->)%set_view_run. done. }
  apply (fold_outcome_prefix _ (fun l acc => macros_loaded f l acc /\ Catalog.table_arena acc.1.1 = Catalog.table_arena c3)) in H4.
  - destruct H4 as [[Hmacros _] Ht4]. split; [|done]. cbn [fst snd] in *. by rewrite Ht4, Ht3.
  - split; [|done]. split; cbn [fst snd] in *; [rewrite Hm3, Hm2; constructor|]. intros id _. cbn. by rewrite group_map_by_lookup.
  - intros done x acc acc' Hp [Hs Ht] Hx. eapply set_macro_loaded in Hx as [Hx Hx']; [|apply Hf|done..].
    split; [done|]. by rewrite Hx'.
Qed.

(** ** What names and IDs lead to *)

(** A relation of a schema with a qualified name *)
Definition row_named {R} (ss : list DucklakeSchema) (schema_id : R -> Z) (name : R -> string)
    (q : QualifiedName) (r : R) : Prop :=
  exists s, s ∈ ss /\ DucklakeSchema.schema_id s = schema_id r /\
    DucklakeSchema.schema_name s = QualifiedName.schema q /\ name r = QualifiedName.name q.

Lemma schema_found c ss ts vs ms name i :
  reflects c ss ts vs ms -> Catalog.schemas c !! name = Some i ->
  exists row s, ss !! i = Some row /\ DucklakeSchema.schema_name row = name /\
    Arena.arena (Catalog.schema_arena c) !! i = Some s /\ reflects_schema ts vs ms row s.
Proof.
  intros Hc (row & Hrow & _ & Hn)%(reflects_names _ _ _ _ _ Hc).
  destruct (Forall2_lookup_l _ _ _ _ _ (reflects_schemas _ _ _ _ _ Hc) Hrow) as (s & Hs & Hr). eauto 10.
Qed.

Lemma schema_present c ss ts vs ms s :
  reflects c ss ts vs ms -> s ∈ ss ->
  exists i e, Catalog.schemas c !! DucklakeSchema.schema_name s = Some i /\
    Arena.arena (Catalog.schema_arena c) !! i = Some e /\ reflects_schema ts vs ms s e.
Proof.
  intros Hc [i Hi]%list_elem_of_lookup.
  destruct (Forall2_lookup_l _ _ _ _ _ (reflects_schemas _ _ _ _ _ Hc) Hi) as (e & He & Hr).
  exists i, e. split; [|done]. apply (reflects_names _ _ _ _ _ Hc). by exists s.
Qed.

Lemma table_by_name_row c ss ts vs ms q r :
  reflects c ss ts vs ms ->
  Catalog.table_by_name c q = Ok r <->
  exists t, ts !! TableRef.idx r = Some t /\
    row_named ss DucklakeTable.schema_id DucklakeTable.table_name q t.
Proof.
  intros Hc. unfold Catalog.table_by_name, Catalog.schema_by_name, Catalog.schema_inner, Arena.get.
  split.
  - destruct (Catalog.schemas c !! _) as [i|] eqn:Hi; [|done]. cbn.
    destruct (schema_found _ _ _ _ _ _ _ Hc Hi) as (row & s & Hrow & Hn & -> & Hrs). cbn.
    destruct (CatalogSchema.tables s !! _) as [j|] eqn:Hj; [|done]. intros [= <-]. cbn.
    apply (rs_tables _ _ _ _ _ Hrs) in Hj as (t & Ht & Hts & Htn). exists t. split; [done|].
    exists row. split; [by eapply list_elem_of_lookup_2|done].
  - intros (t & Ht & s & Hs & Hid & Hsn & Hn).
    destruct (schema_present _ _ _ _ _ _ Hc Hs) as (i & e & Hi & He & Hrs).
    rewrite <-Hsn, Hi. cbn. rewrite He. cbn. destruct r as [j]. cbn in Ht.
    assert (CatalogSchema.tables e !! QualifiedName.name q = Some j) as ->; [|done].
    apply (rs_tables _ _ _ _ _ Hrs). by exists t.
Qed.

Lemma view_by_name_row c ss ts vs ms q r :
  reflects c ss ts vs ms ->
  Catalog.view_by_name c q = Ok r <->
  exists v, vs !! ViewRef.idx r = Some v /\
    row_named ss DucklakeView.schema_id DucklakeView.view_name q v.
Proof.
  intros Hc. unfold Catalog.view_by_name, Catalog.schema_by_name, Catalog.schema_inner, Arena.get.
  split.
  - destruct (Catalog.schemas c !! _) as [i|] eqn:Hi; [|done]. cbn.
    destruct (schema_found _ _ _ _ _ _ _ Hc Hi) as (row & s & Hrow & Hn & -> & Hrs). cbn.
    destruct (CatalogSchema.views s !! _) as [j|] eqn:Hj; [|done]. intros [= <-]. cbn.
    apply (rs_views _ _ _ _ _ Hrs) in Hj as (t & Ht & Hts & Htn). exists t. split; [done|].
    exists row. split; [by eapply list_elem_of_lookup_2|done].
  - intros (t & Ht & s & Hs & Hid & Hsn & Hn).
    destruct (schema_present _ _ _ _ _ _ Hc Hs) as (i & e & Hi & He & Hrs).
    rewrite <-Hsn, Hi. cbn. rewrite He. cbn. destruct r as [j]. cbn in Ht.
    assert (CatalogSchema.views e !! QualifiedName.name q = Some j) as ->; [|done].
    apply (rs_views _ _ _ _ _ Hrs). by exists t.
Qed.

Lemma table_id_row c ss ts vs ms r t :
  reflects c ss ts vs ms -> ts !! TableRef.idx r = Some t ->
  Catalog.table_id c r = Ok (Some (DucklakeTable.table_id t)).
Proof.
  intros Hc Ht. destruct (Forall2_lookup_l _ _ _ _ _ (reflects_tables _ _ _ _ _ Hc) Ht) as (e & He & Hid & _).
  unfold Catalog.table_id, Catalog.table_inner, Arena.get. rewrite He. cbn. by rewrite Hid.
Qed.
Lemma view_id_row c ss ts vs ms r v :
  reflects c ss ts vs ms -> vs !! ViewRef.idx r = Some v ->
  Catalog.view_id c r = Ok (Some (DucklakeView.view_id v)).
Proof.
  intros Hc Ht. destruct (Forall2_lookup_l _ _ _ _ _ (reflects_views _ _ _ _ _ Hc) Ht) as (e & He & Hid & _).
  unfold Catalog.view_id, Catalog.view_inner, Arena.get. rewrite He. cbn. by rewrite Hid.
Qed.

(** A macro is found by its schema and its name, whatever its case. *)
Definition macro_named (ss : list DucklakeSchema) (q : QualifiedName) (m : DucklakeMacro) : Prop :=
  row_named ss DucklakeMacro.schema_id (fun m => to_ascii_lowercase (DucklakeMacro.macro_name m))
    (QualifiedName.mk (QualifiedName.schema q) (to_ascii_lowercase (QualifiedName.name q))) m.

Lemma has_macro_type_unique f m ty ty' : has_macro_type f m ty -> has_macro_type f m ty' -> ty = ty'.
Proof.
  intros [(i & Hi & Hid) H] [_ H']. specialize (H i Hi Hid). rewrite (H' i Hi Hid) in H. by injection H.
Qed.

Section Macros.
Context (f : Fetched) (c : Catalog) (ts : list DucklakeTable) (vs : list DucklakeView) (ms : list (DucklakeMacro * MacroType)).
Context (Hms : ms.*1 = fetched_macros f) (Hc : reflects c (fetched_schemas f) ts vs ms).
Context (Htypes : Forall2 (fun m e => has_macro_type f m (CatalogMacro.macro_type e))
  (fetched_macros f) (Arena.arena (Catalog.macro_arena c))).

Lemma macro_row_typed i m : ms !! i = Some m -> fetched_macros f !! i = Some m.1 /\ has_macro_type f m.1 m.2.
Proof.
  intros Hm. assert (fetched_macros f !! i = Some m.1) as Hrow by (by rewrite <-Hms, list_lookup_fmap, Hm).
  split; [done|]. destruct (Forall2_lookup_l _ _ _ _ _ Htypes Hrow) as (e & He & Hty).
  destruct (Forall2_lookup_l _ _ _ _ _ (reflects_macros _ _ _ _ _ Hc) Hm) as (e' & He' & Heq & _).
  rewrite He in He'. injection He' as <-. by rewrite <-Heq.
Qed.

Lemma macro_by_name_row q ty r : Catalog.macro_by_name c q ty = Ok r ->
  exists m, m ∈ fetched_macros f /\ macro_named (fetched_schemas f) q m /\ has_macro_type f m ty /\
    Catalog.macro_id c r = Ok (Some (DucklakeMacro.macro_id m)).
Proof.
  unfold Catalog.macro_by_name, Catalog.schema_by_name, Catalog.schema_inner, Arena.get.
  destruct (Catalog.schemas c !! _) as [i|] eqn:Hi; [|done]. cbn.
  destruct (schema_found _ _ _ _ _ _ _ Hc Hi) as (row & s & Hrow & Hn & -> & Hrs). cbn.
  destruct (CatalogSchema.macros s !! _) as [j|] eqn:Hj; [|done]. intros [= <-].
  apply (rs_macros _ _ _ _ _ Hrs) in Hj as (m & Hm & Hmine & [= Hname Hty]).
  destruct (macro_row_typed _ _ Hm) as [Hin Htype]. rewrite Hty in Htype. exists m.1.
  split; [by eapply list_elem_of_lookup_2|]. split; [|split; [done|]].
  - exists row. split; [by eapply list_elem_of_lookup_2|done].
  - destruct (Forall2_lookup_l _ _ _ _ _ (reflects_macros _ _ _ _ _ Hc) Hm) as (e & He & _ & Hid & _).
    unfold Catalog.macro_id, Catalog.macro_inner, Arena.get. cbn. rewrite He. cbn. by rewrite Hid.
Qed.

Lemma macro_by_name_found q ty m : m ∈ fetched_macros f -> macro_named (fetched_schemas f) q m ->
  has_macro_type f m ty -> is_ok (Catalog.macro_by_name c q ty) = true.
Proof.
  intros [i Hi]%list_elem_of_lookup (s & Hs & Hid & Hsn & Hn) Hty. rewrite <-Hms, list_lookup_fmap in Hi.
  destruct (ms !! i) as [[m' ty']|] eqn:Hm; [|done]. injection Hi as ->.
  destruct (macro_row_typed _ _ Hm) as [_ Htype]. cbn in Htype.
  rewrite (has_macro_type_unique _ _ _ _ Hty Htype).
  destruct (schema_present _ _ _ _ _ _ Hc Hs) as (k & e & Hk & He & Hrs). cbn in Hsn, Hn.
  unfold Catalog.macro_by_name, Catalog.schema_by_name, Catalog.schema_inner, Arena.get.
  rewrite <-Hsn, Hk. cbn. rewrite He. cbn.
  destruct (rs_named_macros _ _ _ _ _ Hrs (m, ty')) as [j Hj]; [by eapply list_elem_of_lookup_2|done|].
  unfold typed_macro_key in Hj. cbn in Hj. rewrite <-Hn, Hj. done.
Qed.
End Macros.

(** An ID leads to an entity exactly when a row has it. *)
Lemma by_id_row {R} (m : gmap Z ArenaIdx) (row_id : R -> Z) rows id : indexed m any_of row_id rows ->
  is_Some (m !! id) <-> exists r, r ∈ rows /\ row_id r = id.
Proof.
  intros Hm. split.
  - intros [i (r & Hr & _ & Hid)%Hm]. exists r. split; [by eapply list_elem_of_lookup_2|done].
  - intros (r & [i Hi]%list_elem_of_lookup & Hid). exists i. apply Hm. by exists r.
Qed.

(** *** Well-formedness *)

Lemma registered_ids {R A} (id : A -> option Z) (row_id : R -> Z) (arena : Arena A) rows :
  Forall2 (fun r a => id a = Some (row_id r)) rows (Arena.arena arena) ->
  indexed (Arena.by_id arena) any_of row_id rows -> CatalogFacts.registered id arena.
Proof.
  intros Hall Hids z i (r & Hr & _ & <-)%Hids.
  destruct (Forall2_lookup_l _ _ _ _ _ Hall Hr) as (a & Ha & Hid). eauto.
Qed.

Lemma points_rows {R A} (entities : list A) (P : R -> A -> Prop) (wants : string -> A -> Prop)
    (m : gmap string ArenaIdx) mine name rows :
  Forall2 P rows entities -> indexed m mine name rows ->
  (forall r a, r ∈ rows -> mine r -> P r a -> wants (name r) a) -> points entities wants m.
Proof.
  intros Hall Hm Hw k i (r & Hr & Hmine & <-)%Hm.
  destruct (Forall2_lookup_l _ _ _ _ _ Hall Hr) as (a & Ha & HP). exists a. split; [done|].
  apply Hw; [by eapply list_elem_of_lookup_2|done..].
Qed.

(** Schemas of one ID are one schema. *)
Lemma same_schema ss s s' :
  NoDup (DucklakeSchema.schema_id <$> ss) -> s ∈ ss -> s' ∈ ss ->
  DucklakeSchema.schema_id s = DucklakeSchema.schema_id s' -> s = s'.
Proof.
  intros Hnd [i Hi]%list_elem_of_lookup [j Hj]%list_elem_of_lookup Hid.
  assert (i = j) as <-; [|by rewrite Hi in Hj; injection Hj].
  eapply NoDup_lookup; [exact Hnd| |]; rewrite list_lookup_fmap; [by rewrite Hi|by rewrite Hj, Hid].
Qed.

Lemma reflects_well_formed c ss ts vs ms :
  reflects c ss ts vs ms -> NoDup (DucklakeSchema.schema_id <$> ss) ->
  (forall t v, t ∈ ts -> v ∈ vs -> DucklakeTable.schema_id t = DucklakeView.schema_id v ->
     DucklakeTable.table_name t <> DucklakeView.view_name v) -> well_formed c.
Proof.
  intros Hc Hids Happart. split.
  2-5: eapply registered_ids; [|by destruct Hc]; eapply Forall2_impl; [apply Hc|]; cbn;
    first [by intros ? ? [] | by intros ? ? [_ []]].
  intros name i Hi. destruct (schema_found _ _ _ _ _ _ _ Hc Hi) as (row & s & Hrow & Hn & Hs & Hrs).
  exists s. split; [done|]. apply list_elem_of_lookup_2 in Hrow.
  assert (forall r' s', s' ∈ ss -> r' = DucklakeSchema.schema_id row -> DucklakeSchema.schema_id s' = r' ->
    DucklakeSchema.schema_name s' = name) as Hsame.
  { intros r' s' Hin -> Hid. by rewrite (same_schema _ _ _ Hids Hin Hrow Hid). }
  split.
  - rewrite <-Hn. apply Hrs.
  - eapply points_rows; [apply Hc|apply Hrs|]. cbn. intros t a _ Hm [_ (s' & Hin & Hid & Hname)].
    unfold names_table. rewrite Hname. f_equal. by eapply Hsame.
  - eapply points_rows; [apply Hc|apply Hrs|]. cbn. intros t a _ Hm [_ (s' & Hin & Hid & Hname)].
    unfold names_view. rewrite Hname. f_equal. by eapply Hsame.
  - intros k j (m & Hm & Hmine & <-)%(rs_macros _ _ _ _ _ Hrs).
    destruct (Forall2_lookup_l _ _ _ _ _ (reflects_macros _ _ _ _ _ Hc) Hm) as (a & Ha & Ht & _ & s' & Hin & Hid & Hname).
    exists a. split; [done|]. split; rewrite Hname; cbn; [by eapply Hsame|]. by rewrite Ht.
  - intros n j (t & Ht & Hts & <-)%(rs_tables _ _ _ _ _ Hrs).
    destruct (CatalogSchema.views s !! _) as [k|] eqn:Hk; [|done].
    apply (rs_views _ _ _ _ _ Hrs) in Hk as (v & Hv & Hvs & Hvn). exfalso.
    apply (Happart t v); [by eapply list_elem_of_lookup_2..|by rewrite Hts|done].
Qed.

(** C26: loading a catalog gives what the rows say. When the rows a snapshot sees
    have distinct IDs and names (of schemas, tables, views; of columns within their
    table; IDs of macros), the loaded catalog is well formed; a qualified name leads
    to a table or a view exactly when a row of the schema with that name has the
    name, and then to the ID of that row; a macro is found by name - whatever its
    case - and type exactly when a row has them, and what is found is such a row; an
    ID leads to a table, view or macro exactly when a row has it. The columns of a
    table are the rows with its ID in their order: each with its ID, name,
    nullability, tags and initial default, a primitive type that is the parsed one or
    a nested type over exactly the rows below it, and the rows without a parent as
    the columns of the table. *)
Theorem loaded_catalog_reflects_rows (f : Fetched) (c : Catalog)
    (Hdistinct : distinct f)
    (Hcolumns : forall t, t ∈ fetched_tables f ->
       NoDup (DucklakeColumn.column_id <$> columns_of f (DucklakeTable.table_id t)))
    (Hload : build_catalog f = Ok c) :
  well_formed c /\
  (forall q id, (r ← Catalog.table_by_name c q; Catalog.table_id c r) = Ok (Some id) <->
     exists t, t ∈ fetched_tables f /\ DucklakeTable.table_id t = id /\
       row_named (fetched_schemas f) DucklakeTable.schema_id DucklakeTable.table_name q t) /\
  (forall q id, (r ← Catalog.view_by_name c q; Catalog.view_id c r) = Ok (Some id) <->
     exists v, v ∈ fetched_views f /\ DucklakeView.view_id v = id /\
       row_named (fetched_schemas f) DucklakeView.schema_id DucklakeView.view_name q v) /\
  (forall q ty, is_ok (Catalog.macro_by_name c q ty) = true <->
     exists m, m ∈ fetched_macros f /\ macro_named (fetched_schemas f) q m /\ has_macro_type f m ty) /\
  (forall q ty r, Catalog.macro_by_name c q ty = Ok r ->
     exists m, m ∈ fetched_macros f /\ macro_named (fetched_schemas f) q m /\ has_macro_type f m ty /\
       Catalog.macro_id c r = Ok (Some (DucklakeMacro.macro_id m))) /\
  (forall id, is_ok (Catalog.table_by_id c id) = true <->
     exists t, t ∈ fetched_tables f /\ DucklakeTable.table_id t = id) /\
  (forall id, is_ok (Catalog.view_by_id c id) = true <->
     exists v, v ∈ fetched_views f /\ DucklakeView.view_id v = id) /\
  (forall id, is_ok (Catalog.macro_by_id c id) = true <->
     exists m, m ∈ fetched_macros f /\ DucklakeMacro.macro_id m = id) /\
  (forall t, t ∈ fetched_tables f -> exists r e,
     Catalog.table_by_id c (DucklakeTable.table_id t) = Ok r /\ Catalog.table_inner c r = Ok e /\
     columns_reflect (columns_of f (DucklakeTable.table_id t)) (column_tags_of f (DucklakeTable.table_id t))
       (CatalogTable.columns e)).
Proof.
  destruct (build_catalog_reflects f c Hdistinct Hload) as (ms & Hms & Hc).
  destruct (build_catalog_parts f c Hdistinct Hcolumns Hload) as [Htables Htypes].
  assert (forall A B (g : A -> B) (o : outcome DucklakeError A), is_ok (g <$> o) = is_ok o) as Hok by (by intros A B g []).
  assert (forall o e, is_ok (ok_or e o : result ArenaIdx) = true <-> is_Some o) as Hsome.
  { intros [i|] e; cbn; split; [by eexists|done|done|by intros []]. }
  split_and!.
  - eapply reflects_well_formed; [done|apply Hdistinct..].
  - intros q id. split.
    + intros (r & (t & Ht & Hn)%(table_by_name_row _ _ _ _ _ _ _ Hc) & Hid)%outcome_bind_Ok.
      rewrite (table_id_row _ _ _ _ _ _ _ Hc Ht) in Hid. injection Hid as Hid.
      exists t. split; [by eapply list_elem_of_lookup_2|done].
    + intros (t & [i Hi]%list_elem_of_lookup & <- & Hn).
      assert (Catalog.table_by_name c q = Ok (TableRef.mk i)) as ->
        by (eapply table_by_name_row; [done|by exists t]).
      by eapply (table_id_row _ _ _ _ _ (TableRef.mk i)).
  - intros q id. split.
    + intros (r & (t & Ht & Hn)%(view_by_name_row _ _ _ _ _ _ _ Hc) & Hid)%outcome_bind_Ok.
      rewrite (view_id_row _ _ _ _ _ _ _ Hc Ht) in Hid. injection Hid as Hid.
      exists t. split; [by eapply list_elem_of_lookup_2|done].
    + intros (t & [i Hi]%list_elem_of_lookup & <- & Hn).
      assert (Catalog.view_by_name c q = Ok (ViewRef.mk i)) as ->
        by (eapply view_by_name_row; [done|by exists t]).
      by eapply (view_id_row _ _ _ _ _ (ViewRef.mk i)).
  - intros q ty. split; [|intros (m & ? & ? & ?); by eapply macro_by_name_found].
    destruct (Catalog.macro_by_name c q ty) as [r| |] eqn:Hr; [|done..]. intros _.
    eapply macro_by_name_row in Hr as (m & ? & ? & ? & _); [|done..]. by exists m.
  - intros q ty r. by eapply macro_by_name_row.
  - intros id. unfold Catalog.table_by_id. rewrite Hok, Hsome. by apply by_id_row, (reflects_table_ids _ _ _ _ _ Hc).
  - intros id. unfold Catalog.view_by_id. rewrite Hok, Hsome. by apply by_id_row, (reflects_view_ids _ _ _ _ _ Hc).
  - intros id. unfold Catalog.macro_by_id. rewrite Hok, Hsome, <-Hms.
    etrans; [by apply (by_id_row _ _ _ _ (reflects_macro_ids _ _ _ _ _ Hc))|]. setoid_rewrite list_elem_of_fmap. split; [intros (m & ? & ?); exists m.1; eauto|intros (m & (m' & -> & ?) & ?); by exists m'].
  - intros t [i Hi]%list_elem_of_lookup. destruct (Forall2_lookup_l _ _ _ _ _ Htables Hi) as (e & He & Hcols).
    exists (TableRef.mk i), e. split_and!; [| |done].
    + unfold Catalog.table_by_id, Arena.map_id.
      by rewrite (proj2 (reflects_table_ids _ _ _ _ _ Hc (DucklakeTable.table_id t) i)) by (by exists t).
    + unfold Catalog.table_inner, Arena.get. cbn. by rewrite He.
Qed.
End Loading.

(** ** The catalog of the demo database *)

Section Distinct.
Context `{EXT : External}.

Definition distinctb (f : Fetched) : bool :=
  bool_decide (NoDup (DucklakeSchema.schema_id <$> fetched_schemas f)) &&
  bool_decide (NoDup (DucklakeSchema.schema_name <$> fetched_schemas f)) &&
  bool_decide (NoDup (DucklakeTable.table_id <$> fetched_tables f)) &&
  bool_decide (NoDup ((fun t => (DucklakeTable.schema_id t, DucklakeTable.table_name t)) <$> fetched_tables f)) &&
  bool_decide (NoDup (DucklakeView.view_id <$> fetched_views f)) &&
  bool_decide (NoDup ((fun v => (DucklakeView.schema_id v, DucklakeView.view_name v)) <$> fetched_views f)) &&
  bool_decide (NoDup (DucklakeMacro.macro_id <$> fetched_macros f)) &&
  forallb (fun t => forallb (fun v => negb
    (Z.eqb (DucklakeTable.schema_id t) (DucklakeView.schema_id v) &&
     String.eqb (DucklakeTable.table_name t) (DucklakeView.view_name v))) (fetched_views f)) (fetched_tables f).

Lemma distinctb_spec f : distinctb f = true -> distinct f.
Proof.
  unfold distinctb. rewrite !andb_true_iff, !bool_decide_eq_true.
  intros [[[[[[[? ?] ?] ?] ?] ?] ?] Hp]. split; try done. intros t v Ht Hv Hs Hn.
  rewrite forallb_forall in Hp. apply list_elem_of_In in Ht, Hv. specialize (Hp t Ht).
  rewrite forallb_forall in Hp. specialize (Hp v Hv). by rewrite Hs, Hn, Z.eqb_refl, String.eqb_refl in Hp.
Qed.
End Distinct.

Definition orders_fetched : Fetched :=
  match SnapshotCache.fetch_catalog 2 (Client.db orders_client) with
  | Ok f => f
  | _ => mk_Fetched [] [] [] [] [] [] [] [] [] [] [] [] []
  end.
Lemma orders_distinct : distinct orders_fetched.
Proof. apply distinctb_spec. vm_compute. reflexivity. Qed.
Lemma orders_loads :
  match build_catalog orders_fetched with
  | Ok c => (r ← Catalog.table_by_name c (QualifiedName.mk "main" "orders"); Catalog.table_id c r) = Ok (Some 1%Z)
  | _ => False
  end.
Proof. vm_compute. reflexivity. Qed.

Lemma orders_columns t : t ∈ fetched_tables orders_fetched ->
  NoDup (DucklakeColumn.column_id <$> columns_of orders_fetched (DucklakeTable.table_id t)).
Proof.
  assert (Forall (fun t => NoDup (DucklakeColumn.column_id <$> columns_of orders_fetched (DucklakeTable.table_id t)))
    (fetched_tables orders_fetched)) as H.
  { apply (bool_decide_unpack _). vm_compute. exact I. }
  by rewrite Forall_forall in H; apply H.
Qed.

Lemma loaded_catalog_reflects_rows_witness : exists c,
  build_catalog orders_fetched = Ok c /\ well_formed c /\
  exists t, t ∈ fetched_tables orders_fetched /\ DucklakeTable.table_id t = 1%Z /\
    row_named (fetched_schemas orders_fetched) DucklakeTable.schema_id DucklakeTable.table_name
      (QualifiedName.mk "main" "orders") t.
Proof.
  pose proof orders_loads as Hname.
  destruct (build_catalog orders_fetched) as [c| |] eqn:Hc; [|contradiction..].
  destruct (loaded_catalog_reflects_rows orders_fetched c orders_distinct orders_columns Hc) as (Hwf & Ht & _).
  exists c. split; [exact eq_refl|]. split; [exact Hwf|]. apply Ht. exact Hname.
Defined.
