(* ===== verification/Connection.v ===== *)
(** * Connections and handles ([ducklake.rs], [table.rs], [view/mod.rs], [macro_.rs])

    A connection reads the latest snapshot or is pinned to one, and may refuse
    writes; tables, views and macros are read through handles that remember
    their IDs. The caches of the process and the database are the state. *)

From S2P Require Import Prelude Text Regex Identifier Types Instances Entities CatalogColumns.
From S2P Require Import Catalog TableStats CommitState Change Dialect TransactionChanges Executors.
From S2P Require Import Database Metadata Load Transactions TransactionTable Persist Commit Expire Cache.

(** Time zones ([chrono_tz]) *)
Class TimeZones : Type := { Tz : Type; tz_name : Tz -> string }.

(** Whether an error says that a table does not exist, as each dialect words it *)
Class DatabaseErrors `{External} : Type := { is_table_not_found_error : DucklakeError -> bool }.

(** The access mode; a pinned snapshot is a pointer into the heap of the process. *)
Inductive ConnectionMode : Type :=
  | ReadWrite
  | ReadOnly
  | TimeTravel (travel_snapshot : nat).

(** What a snapshot is resolved for *)
Module SnapshotAccess.
Inductive t : Type := Write | Head | Any.
End SnapshotAccess.
Abbreviation SnapshotAccess := SnapshotAccess.t.

(** A connection; the pool and the caches it shares with others are the session. *)
Module DucklakeConnection.
Record t `{TimeZones} : Type := mk {
  storage_options : list (string * string);
  time_zone : Tz;
  mode : ConnectionMode;
}.
#[global] Arguments mk {_} storage_options time_zone mode.
End DucklakeConnection.
Abbreviation DucklakeConnection := DucklakeConnection.t.

(** Handles *)
Module Table.
Record t `{TimeZones} : Type := mk { conn : DucklakeConnection; schema_id : Z; id : Z }.
#[global] Arguments mk {_} conn schema_id id.
End Table.
Abbreviation Table := Table.t.
Module View.
Record t `{TimeZones} : Type := mk { conn : DucklakeConnection; id : Z }.
#[global] Arguments mk {_} conn id.
End View.
Abbreviation View := View.t.
Module Macro.
Record t `{TimeZones} : Type := mk { conn : DucklakeConnection; id : Z }.
#[global] Arguments mk {_} conn id.
End Macro.
Abbreviation Macro := Macro.t.

(** The snapshot cache, the metadata cache with the database, and what commits
    need: the interactions so far and the state of the last attempt *)
Module Session.
Record t `{External} : Type := mk {
  process : Process;
  metadata : MetadataCache.t;
  clock : nat;
  attempt : Attempt;
}.
#[global] Arguments mk {_} process metadata clock attempt.
Definition eta `{External} (s : t) : t := mk (process s) (metadata s) (clock s) (attempt s).
#[export] Instance set_process `{External} : Setter process := ltac:(mk_setter eta process).
#[export] Instance set_metadata `{External} : Setter metadata := ltac:(mk_setter eta metadata).
#[export] Instance set_clock `{External} : Setter clock := ltac:(mk_setter eta clock).
#[export] Instance set_attempt `{External} : Setter attempt := ltac:(mk_setter eta attempt).
Definition db `{External} (self : t) : Db := MetadataCache.db (metadata self).
End Session.
#[export] Existing Instances Session.set_process Session.set_metadata Session.set_clock Session.set_attempt.
#[export] Existing Instances MetadataCache.set_db MetadataCache.set_metadata.
Abbreviation Session := Session.t.

Module Ducklake.
Section Ducklake.
Context `{EXT : External} `{ENV : !Environment} `{TXT : !ValueText} `{HASH : HashOrder}
  `{ITER : !Itertools} `{ENG : !RegexEngine} `{CMP : !SqlCompare} `{ENGINE : !SqlEngine}
  `{AROUND : !Surroundings} `{FT : !FloatText} `{FMT : !DataFormats} `{SQL : !SqlText}
  `{DUR : !Durations} `{ZONES : !TimeZones}.
Context (dialect : Dialect) (begin_error commit_error : option DucklakeError).
Implicit Types (self : DucklakeConnection).

(** ** The session *)

Definition on_process {A} (m : Db -> method Process A) : method Session A :=
  db ← st_gets Session.db;
  st_zoom Session.process (fun p s => s <| Session.process := p |>) (m db).
Definition on_metadata {A} (m : method MetadataCache.t A) : method Session A :=
  st_zoom Session.metadata (fun c s => s <| Session.metadata := c |>) m.

(** The caller lets go of a snapshot when the scope ends, however it ends. *)
Definition scoped {A} (p : nat) (m : method Session A) : method Session A :=
  res ← Commit.st_result m;
  on_process (fun _ => SnapshotCache.release p) ;;
  st_lift res.

Definition snapshot_info (p : nat) : method Session SnapshotInfo :=
  on_process (fun _ => SnapshotCache.info_of p).
Definition snapshot_catalog (p : nat) : method Session Catalog :=
  on_process (SnapshotCache.catalog p).

(** ** Resolving snapshots *)

Definition check_writable self : result unit :=
  match DucklakeConnection.mode self with
  | ReadWrite => Ok tt
  | ReadOnly | TimeTravel _ => Err ReadonlyDucklake
  end.
Definition is_readonly self : bool :=
  match DucklakeConnection.mode self with ReadWrite => false | _ => true end.

Definition snapshot self (access : SnapshotAccess) : method Session nat :=
  match access, DucklakeConnection.mode self with
  | SnapshotAccess.Write, (ReadOnly | TimeTravel _) => st_throw ReadonlyDucklake
  | SnapshotAccess.Head, TimeTravel _ => st_throw SnapshotPinned
  | SnapshotAccess.Any, TimeTravel travel_snapshot =>
      on_process (fun _ => SnapshotCache.hold travel_snapshot)
  | _, (ReadWrite | ReadOnly) => on_process SnapshotCache.get_latest
  end.

Definition current_snapshot self : method Session nat :=
  match DucklakeConnection.mode self with
  | TimeTravel travel_snapshot => on_process (fun _ => SnapshotCache.hold travel_snapshot)
  | ReadWrite | ReadOnly => on_process (fun _ => SnapshotCache.get_current)
  end.

(** The catalog of a snapshot that is held while it is read *)
Definition read {A} (acquire : method Session nat) (f : Catalog -> result A) : method Session A :=
  p ← acquire; scoped p (c ← snapshot_catalog p; st_lift (f c)).

(** *** Time travel *)

Definition with_mode self (mode : ConnectionMode) : DucklakeConnection :=
  DucklakeConnection.mk (DucklakeConnection.storage_options self)
    (DucklakeConnection.time_zone self) mode.

Definition at_snapshot self (info : SnapshotInfo) : method Session DucklakeConnection :=
  p ← on_process (fun _ => SnapshotCache.get_snapshot info);
  mret (with_mode self (TimeTravel p)).
Definition at_snapshot_id self (snapshot_id : Z) : method Session DucklakeConnection :=
  s ← st_get;
  info ← st_lift (load_for_id snapshot_id (Session.db s));
  at_snapshot self info.
Definition at_snapshot_timestamp self (timestamp : DateTimeUtc) : method Session DucklakeConnection :=
  s ← st_get;
  info ← st_lift (load_for_timestamp timestamp (Session.db s));
  at_snapshot self info.

(** Time travel is already read-only and stays where it is. *)
Definition readonly self : DucklakeConnection :=
  with_mode self match DucklakeConnection.mode self with
                 | TimeTravel p => TimeTravel p
                 | _ => ReadOnly
                 end.

(** *** Listing snapshots *)

Definition describe (info : SnapshotInfo) : SnapshotMetadata.t :=
  SnapshotMetadata.mk (SnapshotInfo.id info) (SnapshotInfo.snapshot_time info).

Definition latest_snapshot self : method Session SnapshotMetadata.t :=
  p ← snapshot self SnapshotAccess.Head;
  scoped p (info ← snapshot_info p; mret (describe info)).

(** [ORDER BY snapshot_id DESC] *)
Definition all_snapshots (db : Db) : result (list SnapshotMetadata.t) :=
  snapshots ← fetch_all DucklakeSnapshot db;
  mret (SnapshotMetadata.from_snapshot <$>
    sort_by_key (fun a b => Z.leb b a) DucklakeSnapshot.snapshot_id snapshots).

Definition list_snapshots self : method Session (list SnapshotMetadata.t) :=
  match DucklakeConnection.mode self with
  | TimeTravel p => info ← snapshot_info p; mret [describe info]
  | _ => s ← st_get; st_lift (all_snapshots (Session.db s))
  end.

(** ** Finding tables, views and macros *)

(** A name as it is passed: converted, or the error of the conversion *)
Abbreviation name_arg := (result QualifiedName).

(** [None]: the entity has no ID yet. *)
Definition maybe_table_from_catalog self (c : Catalog) (name : QualifiedName) : result (option Table) :=
  r ← Catalog.schema_by_name c (QualifiedName.schema name);
  schema_id ← Catalog.schema_id c r;
  match schema_id with
  | None => mret None
  | Some schema_id =>
      r ← Catalog.table_by_name c name;
      table_id ← Catalog.table_id c r;
      mret ((fun id => Table.mk self schema_id id) <$> table_id)
  end.
Definition maybe_view_from_catalog self (c : Catalog) (name : QualifiedName) : result (option View) :=
  r ← Catalog.schema_by_name c (QualifiedName.schema name);
  schema_id ← Catalog.schema_id c r;
  match schema_id with
  | None => mret None
  | Some _ =>
      r ← Catalog.view_by_name c name;
      view_id ← Catalog.view_id c r;
      mret (View.mk self <$> view_id)
  end.
Definition maybe_macro_from_catalog self (c : Catalog) (name : QualifiedName) (macro_type : MacroType)
    : result (option Macro) :=
  r ← Catalog.schema_by_name c (QualifiedName.schema name);
  schema_id ← Catalog.schema_id c r;
  match schema_id with
  | None => mret None
  | Some _ =>
      r ← Catalog.macro_by_name c name macro_type;
      macro_id ← Catalog.macro_id c r;
      mret (Macro.mk self <$> macro_id)
  end.

Definition table self (name : name_arg) : method Session Table :=
  name ← st_lift name;
  read (snapshot self SnapshotAccess.Any) (fun c =>
    t ← maybe_table_from_catalog self c name; unwrap t).
Definition table_exists self (name : name_arg) : method Session bool :=
  name ← st_lift name;
  read (snapshot self SnapshotAccess.Any) (fun c => mret (is_ok (Catalog.table_by_name c name))).
Definition view self (name : name_arg) : method Session View :=
  name ← st_lift name;
  read (snapshot self SnapshotAccess.Any) (fun c =>
    v ← maybe_view_from_catalog self c name; unwrap v).
Definition macro_ self (name : name_arg) (macro_type : MacroType) : method Session Macro :=
  name ← st_lift name;
  read (snapshot self SnapshotAccess.Any) (fun c =>
    m ← maybe_macro_from_catalog self c name macro_type; unwrap m).

(** *** Listings *)

Definition list_tables_in_schema self (c : Catalog) (schema : SchemaRef) : result (list Table) :=
  tables ← Catalog.list_tables c schema;
  map_outcome (fun t =>
    schema_id ← Catalog.schema_id c schema;
    schema_id ← unwrap schema_id;
    table_id ← Catalog.table_id c t;
    table_id ← unwrap table_id;
    mret (Table.mk self schema_id table_id)) tables.
Definition list_views_in_schema self (c : Catalog) (schema : SchemaRef) : result (list View) :=
  views ← Catalog.list_views c schema;
  map_outcome (fun v => view_id ← Catalog.view_id c v; View.mk self <$> unwrap view_id) views.
Definition list_macros_in_schema self (c : Catalog) (schema : SchemaRef) : result (list Macro) :=
  macros ← Catalog.list_macros c schema;
  map_outcome (fun m => macro_id ← Catalog.macro_id c m; Macro.mk self <$> unwrap macro_id) macros.

(** One schema, or all of them *)
Definition in_schemas {A} (c : Catalog) (schema : option string) (list_ : SchemaRef -> result (list A))
    : result (list A) :=
  match schema with
  | Some name => r ← Catalog.schema_by_name c name; list_ r
  | None => lists ← map_outcome list_ (Catalog.list_schemas c); mret (concat lists)
  end.

Definition list_tables_from_catalog self (c : Catalog) (schema : option string) : result (list Table) :=
  in_schemas c schema (list_tables_in_schema self c).
Definition list_tables self (schema : option string) : method Session (list Table) :=
  read (snapshot self SnapshotAccess.Any) (fun c => list_tables_from_catalog self c schema).
Definition list_views self (schema : option string) : method Session (list View) :=
  read (snapshot self SnapshotAccess.Any) (fun c => in_schemas c schema (list_views_in_schema self c)).
Definition list_macros self (schema : option string) : method Session (list Macro) :=
  read (snapshot self SnapshotAccess.Any) (fun c => in_schemas c schema (list_macros_in_schema self c)).
Definition list_schemas self : method Session (list string) :=
  read (snapshot self SnapshotAccess.Any) (fun c =>
    map_outcome (Catalog.schema_name c) (Catalog.list_schemas c)).

(** ** Transactions *)

(** A transaction and the snapshot it holds *)
Definition transaction self (author_info : option AuthorInfo.t) : method Session (nat * Transaction) :=
  p ← snapshot self SnapshotAccess.Write;
  info ← snapshot_info p;
  c ← snapshot_catalog p;
  mret (p, Transaction.new info c (default AuthorInfo.default author_info)).

(** [Transaction::commit], on the head the process has *)
Definition commit (tx : Transaction) : method Session unit :=
  s ← st_get;
  head ← snapshot_info (Process.current (Session.process s));
  let '(res, client) := Commit.commit dialect tx
    (Client.mk (Session.db s) head (Session.clock s) (Session.attempt s)) in
  st_modify (fun s => s <| Session.metadata ::= fun m => m <| MetadataCache.db := Client.db client |> |>
    <| Session.clock := Client.clock client |> <| Session.attempt := Client.attempt client |>) ;;
  p ← on_process (fun _ => SnapshotCache.insert_snapshot (Client.current client));
  scoped p (st_lift res).

(** An operation on a transaction *)
Definition perform {A} (op : method Transaction A) (tx : Transaction) : result (A * Transaction) :=
  let '(res, tx) := op tx in a ← res; mret (a, tx).

(** [within_transaction!]: an operation sees the metadata, the database and the
    statistics of the snapshot. *)
Definition environment : Type := Metadata * Db * result (gmap Z TableStats).
Definition environment_of (p : nat) (s : Session) : environment :=
  (MetadataCache.metadata (Session.metadata s), Session.db s,
   (SnapshotCache.table_stats p (Session.db s) (Session.process s)).1).
Definition within_transaction {A} self (op : environment -> method Transaction A) : method Session A :=
  '(p, tx) ← transaction self None;
  scoped p (
    s ← st_get;
    '(a, tx) ← st_lift (perform (op (environment_of p s)) tx);
    commit tx ;;
    mret a).

Definition create_schema self (name : string) (path : option string) (if_exists : IfExistsStrategy)
    : method Session unit := within_transaction self (fun _ => Ops.create_schema name path if_exists).
Definition delete_schema self (name : string) (cascade : bool) (if_not_exists : IfExistsStrategy)
    : method Session unit := within_transaction self (fun _ => Ops.delete_schema name cascade if_not_exists).
Definition delete_table self (name : name_arg) (if_not_exists : IfExistsStrategy) : method Session unit :=
  within_transaction self (fun _ => name ← st_lift name; Ops.delete_table name if_not_exists).
Definition delete_view self (name : name_arg) (if_not_exists : IfExistsStrategy) : method Session unit :=
  within_transaction self (fun _ => name ← st_lift name; Ops.delete_view name if_not_exists).
Definition delete_macro self (name : name_arg) (macro_type : MacroType) (if_not_exists : IfExistsStrategy)
    : method Session unit :=
  within_transaction self (fun _ => name ← st_lift name; Ops.delete_macro name macro_type if_not_exists).

(** Creation: the handle is found before the commit when the entity was there
    already, and looked up afterwards when it is new. *)
Definition creating {H} self (op : method Transaction unit) (find : Catalog -> result (option H))
    (look_up : method Session H) : method Session H :=
  '(p, tx) ← transaction self None;
  handle ← scoped p (
    '(_, tx) ← st_lift (perform op tx);
    handle ← st_lift (find (Transaction.catalog tx));
    commit tx ;;
    mret handle);
  match handle with Some h => mret h | None => look_up end.

Definition create_table self (name : name_arg) (columns : list Column)
    (partition_columns : option (list PartitionColumn)) (sort_info : option (list SortExpression))
    (path : option string) (tags : option Tags) (if_exists : IfExistsStrategy) : method Session Table :=
  name ← st_lift name;
  creating self (Ops.create_table name columns partition_columns sort_info path tags if_exists)
    (fun c => maybe_table_from_catalog self c name) (table self (Ok name)).
Definition create_view self (name : name_arg) (sql : string) (column_aliases : option (list string))
    (tags : option Tags) (if_exists : IfExistsStrategy) : method Session View :=
  name ← st_lift name;
  creating self (Ops.create_view name sql column_aliases tags if_exists)
    (fun c => maybe_view_from_catalog self c name) (view self (Ok name)).
Definition create_macro self (name : name_arg) (macro_type : MacroType)
    (implementations : list MacroImplementation) (if_exists : IfExistsStrategy) : method Session Macro :=
  name ← st_lift name;
  creating self (Ops.create_macro name macro_type implementations if_exists)
    (fun c => maybe_macro_from_catalog self c name macro_type) (macro_ self (Ok name) macro_type).

(** ** Metadata *)

Definition metadata (s : Session) : Metadata := MetadataCache.metadata (Session.metadata s).
Definition global_metadata (s : Session) : result GlobalMetadata.t :=
  Metadata.global_metadata (metadata s).

(** The ID of a schema a setting is for *)
Definition scope_id self (schema_name : string) : method Session Z :=
  read (snapshot self SnapshotAccess.Any) (fun c =>
    r ← Catalog.schema_by_name c schema_name;
    schema_id ← Catalog.schema_id c r;
    unwrap schema_id).

Definition set_metadata self (key value : string) (schema : option string) : method Session unit :=
  st_lift (check_writable self) ;;
  match schema with
  | Some schema_name =>
      schema_id ← scope_id self schema_name;
      on_metadata (MetadataCache.set_schema begin_error commit_error schema_id key value)
  | None => on_metadata (MetadataCache.set_global begin_error commit_error key value)
  end.
Definition unset_metadata self (key : string) (schema : option string) : method Session unit :=
  st_lift (check_writable self) ;;
  match schema with
  | Some schema_name =>
      schema_id ← scope_id self schema_name;
      on_metadata (MetadataCache.unset_schema begin_error commit_error schema_id key)
  | None => on_metadata (MetadataCache.unset_global begin_error commit_error key)
  end.
Definition set_table_metadata self (key value : string) (table_id : Z) : method Session unit :=
  st_lift (check_writable self) ;;
  on_metadata (MetadataCache.set_table begin_error commit_error table_id key value).
Definition unset_table_metadata self (key : string) (table_id : Z) : method Session unit :=
  st_lift (check_writable self) ;;
  on_metadata (MetadataCache.unset_table begin_error commit_error table_id key).

(** ** Handles *)

(** What a handle shows of the head or the pinned snapshot *)
Definition table_read {A} (self : Table) (f : Catalog -> TableRef -> result A) : method Session A :=
  read (current_snapshot (Table.conn self)) (fun c =>
    r ← Catalog.table_by_id c (Table.id self); f c r).
Definition table_name (self : Table) : method Session QualifiedName := table_read self Catalog.table_name.
Definition table_columns (self : Table) : method Session (list Column) :=
  table_read self (fun c r => schema ← Catalog.table_schema c r; mret (Schema.columns schema).*2).
Definition table_partitioning (self : Table) : method Session (option (list PartitionColumn)) :=
  table_read self Catalog.table_partitioning.
Definition table_sort_info (self : Table) : method Session (option (list SortExpression)) :=
  table_read self Catalog.table_sort_info.
Definition table_tags (self : Table) : method Session Tags := table_read self Catalog.table_tags.
Definition table_metadata (self : Table) (s : Session) : TableMetadata.t :=
  Metadata.table_metadata (metadata s) (Some (Table.schema_id self)) (Some (Table.id self)).

Definition view_read {A} (self : View) (f : CatalogView.t -> A) : method Session A :=
  read (current_snapshot (View.conn self)) (fun c =>
    r ← Catalog.view_by_id c (View.id self); f <$> Catalog.view_inner c r).
Definition view_name (self : View) : method Session QualifiedName := view_read self CatalogView.name.
Definition view_sql (self : View) : method Session string := view_read self CatalogView.sql.
Definition view_column_aliases (self : View) : method Session (option (list string)) :=
  view_read self CatalogView.column_aliases.
Definition view_tags (self : View) : method Session Tags := view_read self CatalogView.tags.

Definition macro_read {A} (self : Macro) (f : CatalogMacro.t -> A) : method Session A :=
  read (current_snapshot (Macro.conn self)) (fun c =>
    r ← Catalog.macro_by_id c (Macro.id self); f <$> Catalog.macro_inner c r).
Definition macro_name (self : Macro) : method Session QualifiedName := macro_read self CatalogMacro.name.
Definition macro_type (self : Macro) : method Session MacroType := macro_read self CatalogMacro.macro_type.
Definition macro_implementations (self : Macro) : method Session (list MacroImplementation) :=
  macro_read self CatalogMacro.implementations.

(** *** Writing through a handle ([table.rs]) *)

(** [transaction_table]: the table may have been renamed since. *)
Definition transaction_table (self : Table) : method Transaction QualifiedName :=
  name ← Ops.read (fun c => r ← Catalog.table_by_id c (Table.id self); Catalog.table_name c r);
  Ops.read (fun c => Catalog.table_by_name c name) ;;
  mret name.
Definition within_table {A} (self : Table) (op : environment -> QualifiedName -> method Transaction A)
    : method Session A :=
  within_transaction (Table.conn self) (fun env => name ← transaction_table self; op env name).

(** A column as it is passed *)
Abbreviation column_arg := (result (list string)).

Definition env_metadata (env : environment) : Metadata := env.1.1.
Definition env_db (env : environment) : Db := env.1.2.
Definition env_stats (env : environment) : result (gmap Z TableStats) := env.2.

Definition write_data (self : Table)
    (write_fn : TableMetadata.t -> DataFilePathGenerator.t -> bool -> result (list WriteDataFile.t))
    : method Session unit :=
  within_table self (fun env name => TableOps.write_table_data dialect (env_metadata env) name write_fn).
Definition write_data_files (self : Table) (data_files : list WriteDataFile.t) : method Session unit :=
  within_table self (fun env name => TableOps.write_table_data_files (env_metadata env) name data_files).
Definition write_inline_data (self : Table) (data : list RecordBatch) : method Session unit :=
  within_table self (fun _ name => TableOps.write_table_inline_data dialect name data).

Definition rename (self : Table) (new_name : string) : method Session unit :=
  within_table self (fun _ name => TableOps.rename_table name new_name).
Definition update_partitioning (self : Table) (columns : option (list PartitionColumn)) : method Session unit :=
  within_table self (fun _ name => TableOps.update_table_partitioning name columns).
Definition update_sort_info (self : Table) (expressions : option (list SortExpression)) : method Session unit :=
  within_table self (fun _ name => TableOps.update_table_sort_info name expressions).
Definition rename_column (self : Table) (column : column_arg) (new_name : string) : method Session unit :=
  within_table self (fun _ name =>
    column ← st_lift column; TableOps.rename_table_column name column new_name).
Definition remove_column (self : Table) (column : column_arg) : method Session unit :=
  within_table self (fun _ name => column ← st_lift column; TableOps.remove_table_column name column).
Definition update_column_default (self : Table) (column : column_arg) (default_value : ColumnDefault)
    : method Session unit :=
  within_table self (fun _ name =>
    column ← st_lift column; TableOps.update_table_column_default name column default_value).
Definition add_tag (self : Table) (key value : string) : method Session unit :=
  within_table self (fun _ name => TableOps.add_table_tag name key value).
Definition remove_tag (self : Table) (key : string) : method Session unit :=
  within_table self (fun _ name => TableOps.remove_table_tag name key).
Definition add_column_tag (self : Table) (column : column_arg) (key value : string) : method Session unit :=
  within_table self (fun _ name =>
    column ← st_lift column; TableOps.add_table_column_tag name column key value).
Definition remove_column_tag (self : Table) (column : column_arg) (key : string) : method Session unit :=
  within_table self (fun _ name =>
    column ← st_lift column; TableOps.remove_table_column_tag name column key).
Definition add_column (self : Table) (column : Column) : method Session unit :=
  within_table self (fun env name => TableOps.add_table_column (env_db env) name column []).
Definition update_column_dtype (self : Table) (column : column_arg) (new_dtype : DataType)
    : method Session unit :=
  within_table self (fun env name =>
    column ← st_lift column; TableOps.update_table_column_dtype (env_db env) name column new_dtype).
Definition update_column_nullability (self : Table) (column : column_arg) (nullable : bool)
    : method Session unit :=
  within_table self (fun env name =>
    column ← st_lift column;
    TableOps.update_table_column_nullability (env_stats env) name column nullable).
Definition update_schema (self : Table) (columns : list Column) : method Session unit :=
  within_table self (fun env name =>
    TableOps.update_table_schema (env_db env) (env_stats env) name columns).

(** The metadata of the table, where its files go, whether rows can be inlined
    and whether files must be encrypted *)
Definition get_write_info (self : Table)
    : method Session (TableMetadata.t * DataFilePathGenerator.t * bool * bool) :=
  s ← st_get;
  let info := table_metadata self s in
  read (snapshot (Table.conn self) SnapshotAccess.Write) (fun c =>
    r ← Catalog.table_by_id c (Table.id self);
    root ← Metadata.data_path (metadata s);
    data_path ← Catalog.table_data_path c r root;
    schema ← Catalog.table_schema c r;
    mret (info, DataFilePathGenerator.mk data_path (TableMetadata.hive_file_pattern info),
          Dialect.supports_data_inlining dialect schema, Metadata.encrypted (metadata s))).

Definition table_set_metadata (self : Table) (key value : string) : method Session unit :=
  set_table_metadata (Table.conn self) key value (Table.id self).
Definition table_unset_metadata (self : Table) (key : string) : method Session unit :=
  unset_table_metadata (Table.conn self) key (Table.id self).
End Ducklake.
End Ducklake.
