(* ===== verification/ConnectionFacts.v ===== *)
(** * What connections and handles guarantee ([ducklake.rs], [table.rs])

    A pinned connection reads one catalog for as long as it lives and refuses
    every write; a handle that is found by a name leads back to it. *)

From S2P Require Import Prelude Triple Text Regex Identifier Types Instances Entities CatalogColumns.
From S2P Require Import Catalog CatalogFacts TableStats CommitState Change Dialect TransactionChanges.
From S2P Require Import Executors Database Metadata Load Transactions TransactionTable TransactionFacts Persist Commit.
From S2P Require Import Demo StatsKey Expire Cache CacheFacts LoadedColumns LoadFacts Connection.

(** ** A loaded catalog stays loaded *)

Section Loaded.
Context `{EXT : External} `{CMP : !SqlCompare} `{ENGINE : !SqlEngine} `{ENG : !RegexEngine}
  `{TXT : !ValueText} `{HASH : HashOrder}.

(** The snapshot at [p] shares a catalog that has been loaded. *)
Definition loaded (p : nat) (c : Catalog) (self : Process) : Prop :=
  exists s d, SnapshotCache.snapshot self p = Some s /\
    WeakCache.heap (Process.catalogs self) !! Snapshot.catalog s = Some d /\ Cell.value d = Some c.

Lemma loaded_read p c db self : loaded p c self -> SnapshotCache.catalog p db self = (Ok c, self).
Proof.
  intros (s & d & Hs & Hd & Hv). unfold SnapshotCache.catalog, mbind, stateful_bind, st_get, st_lift.
  rewrite Hs. cbn [unwrap]. unfold SnapshotCache.on_catalogs, st_zoom, SnapshotCache.get_or_try_init,
    mbind, stateful_bind, st_get, st_lift. rewrite Hd. cbn [unwrap]. rewrite Hv. cbn.
  by destruct self as [[? ?] ? ? ? ?].
Qed.

Lemma read_loaded p c db self self' : SnapshotCache.catalog p db self = (Ok c, self') -> loaded p c self'.
Proof.
  unfold SnapshotCache.catalog, mbind, stateful_bind, st_get, st_lift.
  destruct (SnapshotCache.snapshot self p) as [s|] eqn:Hs; [|done]. cbn [unwrap].
  unfold SnapshotCache.on_catalogs, st_zoom, SnapshotCache.get_or_try_init,
    mbind, stateful_bind, st_get, st_lift.
  destruct (WeakCache.heap (Process.catalogs self) !! Snapshot.catalog s) as [d|] eqn:Hd; [|done]. cbn [unwrap].
  destruct (Cell.value d) as [v|] eqn:Hv.
  - intros [= <- <-]. by exists s, d.
  - destruct (SnapshotCache.load_catalog _ _) as [v| |]; [|done..]. intros [= <- <-].
    exists s. eexists. split; [exact Hs|]. cbn -[insert].
    rewrite list_lookup_insert_eq by (by eapply lookup_lt_Some). by split.
Qed.

Section Kept.
Context (p : nat) (c : Catalog).
Local Abbreviation keeps m := (triple (loaded p c) m any).





End Kept.
End Loaded.

Section Connections.
Context `{EXT : External} `{ENV : !Environment} `{TXT : !ValueText} `{HASH : HashOrder}
  `{ITER : !Itertools} `{ENG : !RegexEngine} `{CMP : !SqlCompare} `{ENGINE : !SqlEngine}
  `{AROUND : !Surroundings} `{FT : !FloatText} `{FMT : !DataFormats} `{SQL : !SqlText}
  `{DUR : !Durations} `{ZONES : !TimeZones}.
Context (dialect : Dialect) (begin_error commit_error : option DucklakeError).
Implicit Types (conn : DucklakeConnection) (s : Session).

(** ** Reading *)

(** A snapshot that was acquired by holding it *)
Definition holding (acquire : method Session nat) (p : nat) s : Prop :=
  acquire s = (Ok p, s <| Session.process ::= fun self => self <| Process.held ::= fun l => p :: l |> |>).

Lemma first_found (p : nat) l :
  (fun l : list nat => match list_find (eq p) l with Some (i, _) => delete i l | None => l end) (p :: l) = l.
Proof. cbn. by rewrite decide_True. Qed.

Lemma scoped_read {A} acquire p c (f : Catalog -> result A) s :
  holding acquire p s -> loaded p c (Session.process s) -> Ducklake.read acquire f s = (f c, s).
Proof.
  intros Ha Hl. unfold Ducklake.read, mbind, stateful_bind. rewrite Ha.
  set (s1 := s <| Session.process ::= _ |>).
  assert (SnapshotCache.catalog p (Session.db s1) (Session.process s1) = (Ok c, Session.process s1)) as Hc.
  { apply loaded_read. destruct Hl as (x & d & Hx & Hd & Hv). by exists x, d. }
  unfold Ducklake.scoped, Ducklake.snapshot_catalog, Ducklake.on_process, Commit.st_result, mbind,
    stateful_bind, st_gets, st_get, st_lift, st_zoom, mret, stateful_ret.
  rewrite Hc. cbn -[list_find]. f_equal. subst s1. destruct s as [[] ? ? ?].
  unfold update_field, Session.set_process, Process.set_held. cbn -[list_find].
  pose proof first_found as Hf. cbn -[list_find] in Hf. by rewrite Hf.
Qed.

Lemma pinned_holding conn p s :
  DucklakeConnection.mode conn = TimeTravel p ->
  holding (Ducklake.snapshot conn SnapshotAccess.Any) p s /\ holding (Ducklake.current_snapshot conn) p s.
Proof.
  intros Hp. unfold holding, Ducklake.snapshot, Ducklake.current_snapshot. rewrite Hp. by split.
Qed.


(** ** Writing *)







(** ** Handles *)

(** The connection reads [c], whichever way it resolves its snapshot. *)
Definition settled conn (c : Catalog) s : Prop :=
  exists p, loaded p c (Session.process s) /\
    holding (Ducklake.snapshot conn SnapshotAccess.Any) p s /\ holding (Ducklake.current_snapshot conn) p s.

Lemma settled_pinned conn p c s :
  DucklakeConnection.mode conn = TimeTravel p -> loaded p c (Session.process s) -> settled conn c s.
Proof. intros Hp Hl. exists p. split; [done|]. by apply pinned_holding. Qed.

(** A connection that follows the head is settled while nobody commits. *)
Lemma settled_head conn c s info :
  (forall p, DucklakeConnection.mode conn <> TimeTravel p) ->
  Commit.load_latest (Session.db s) = Ok info ->
  head_id (Session.process s) = Some (SnapshotInfo.id info) ->
  loaded (Process.current (Session.process s)) c (Session.process s) -> settled conn c s.
Proof.
  intros Hp Hlatest Hhead Hl. exists (Process.current (Session.process s)). split; [done|].
  unfold holding, Ducklake.snapshot, Ducklake.current_snapshot.
  assert (Ducklake.on_process SnapshotCache.get_latest s =
    Ducklake.on_process (fun _ => SnapshotCache.get_current) s) as Hsame.
  { unfold Ducklake.on_process, SnapshotCache.get_latest, SnapshotCache.insert_snapshot,
      SnapshotCache.get_current, SnapshotCache.info_of, st_gets, st_get, st_lift, mbind, stateful_bind, st_zoom.
    rewrite Hlatest. unfold head_id in Hhead.
    destruct (SnapshotCache.snapshot _ _) as [x|]; [|done]. injection Hhead as Hhead. cbn in Hhead.
    cbn -[decide SnapshotCache.hold]. by rewrite decide_True. }
  destruct (DucklakeConnection.mode conn) as [| |p]; [| |by destruct (Hp p)]; by rewrite Hsame.
Qed.

Lemma settled_read {A} conn c (f : Catalog -> result A) s :
  settled conn c s ->
  Ducklake.read (Ducklake.snapshot conn SnapshotAccess.Any) f s = (f c, s) /\
  Ducklake.read (Ducklake.current_snapshot conn) f s = (f c, s).
Proof. intros (p & Hl & H1 & H2). by split; apply (scoped_read _ p). Qed.

Lemma schema_id_row c ss ts vs ms name r id :
  reflects c ss ts vs ms -> Catalog.schema_by_name c name = Ok r -> Catalog.schema_id c r = Ok id ->
  exists x, x ∈ ss /\ DucklakeSchema.schema_name x = name /\ id = Some (DucklakeSchema.schema_id x).
Proof.
  intros Hc. unfold Catalog.schema_by_name, Catalog.schema_id, Catalog.schema_inner, Arena.get.
  destruct (Catalog.schemas c !! name) as [i|] eqn:Hi; [|done]. intros [= <-]. cbn.
  destruct (schema_found _ _ _ _ _ _ _ Hc Hi) as (row & e & Hrow & Hn & -> & Hrs). intros [= <-].
  exists row. split; [by eapply list_elem_of_lookup_2|]. split; [done|]. apply Hrs.
Qed.

Lemma table_inner_row c ss ts vs ms r t :
  reflects c ss ts vs ms -> ts !! TableRef.idx r = Some t ->
  exists e x, Catalog.table_inner c r = Ok e /\ x ∈ ss /\ DucklakeSchema.schema_id x = DucklakeTable.schema_id t /\
    CatalogTable.name e = QualifiedName.mk (DucklakeSchema.schema_name x) (DucklakeTable.table_name t).
Proof.
  intros Hc Ht. destruct (Forall2_lookup_l _ _ _ _ _ (reflects_tables _ _ _ _ _ Hc) Ht) as (e & He & _ & s & Hs & Hid & Hn).
  exists e, s. unfold Catalog.table_inner, Arena.get. by rewrite He.
Qed.

Lemma table_by_id_row c ss ts vs ms i t :
  reflects c ss ts vs ms -> ts !! i = Some t ->
  Catalog.table_by_id c (DucklakeTable.table_id t) = Ok (TableRef.mk i).
Proof.
  intros Hc Ht. unfold Catalog.table_by_id, Arena.map_id.
  assert (Arena.by_id (Catalog.table_arena c) !! DucklakeTable.table_id t = Some i) as ->; [|done].
  apply (reflects_table_ids _ _ _ _ _ Hc). by exists t.
Qed.

(** What [table] finds *)
Lemma maybe_table_row conn c ss ts vs ms q i t :
  reflects c ss ts vs ms -> ts !! i = Some t -> row_named ss DucklakeTable.schema_id DucklakeTable.table_name q t ->
  Ducklake.maybe_table_from_catalog conn c q =
    Ok (Some (Table.mk conn (DucklakeTable.schema_id t) (DucklakeTable.table_id t))).
Proof.
  intros Hc Ht Hq. unfold Ducklake.maybe_table_from_catalog.
  assert (Catalog.table_by_name c q = Ok (TableRef.mk i)) as Hr by (eapply table_by_name_row; eauto).
  destruct Hq as (x & Hs & Hid & Hn & Hname).
  destruct (schema_present _ _ _ _ _ _ Hc Hs) as (j & e & Hj & He & Hrs). rewrite Hn in Hj.
  unfold Catalog.schema_by_name. rewrite Hj. cbn -[Catalog.table_by_name Catalog.table_id].
  unfold Catalog.schema_id, Catalog.schema_inner, Arena.get.
  cbn -[Catalog.table_by_name Catalog.table_id]. rewrite He.
  cbn -[Catalog.table_by_name Catalog.table_id]. rewrite (rs_id _ _ _ _ _ Hrs), Hr.
  cbn -[Catalog.table_id]. rewrite (table_id_row _ _ _ _ _ (TableRef.mk i) t Hc Ht). cbn. by rewrite Hid.
Qed.

(** A lookup that finds nothing is an error, not a panic. *)
Lemma maybe_table_none conn c ss ts vs ms q :
  reflects c ss ts vs ms -> (forall t, t ∈ ts -> ~ row_named ss DucklakeTable.schema_id DucklakeTable.table_name q t) ->
  exists e, Ducklake.maybe_table_from_catalog conn c q = Err e.
Proof.
  intros Hc Hnone. unfold Ducklake.maybe_table_from_catalog.
  destruct (Catalog.schemas c !! QualifiedName.schema q) as [i|] eqn:Hi.
  - destruct (schema_found _ _ _ _ _ _ _ Hc Hi) as (row & e & Hrow & Hn & He & Hrs).
    assert (Catalog.schema_by_name c (QualifiedName.schema q) = Ok (SchemaRef.mk i)) as Hs
      by (unfold Catalog.schema_by_name; by rewrite Hi).
    rewrite Hs. cbn -[Catalog.table_by_name Catalog.schema_id].
    unfold Catalog.schema_id, Catalog.schema_inner, Arena.get. cbn -[Catalog.table_by_name]. rewrite He.
    cbn -[Catalog.table_by_name]. rewrite (rs_id _ _ _ _ _ Hrs).
    destruct (Catalog.table_by_name c q) as [r|e'|] eqn:Hr; [|by eexists|].
    + apply (table_by_name_row _ _ _ _ _ _ _ Hc) in Hr as (t & Ht%list_elem_of_lookup_2 & Hq).
      by destruct (Hnone t Ht).
    + exfalso. revert Hr. unfold Catalog.table_by_name. rewrite Hs. cbn. unfold Catalog.schema_inner, Arena.get.
      cbn. rewrite He. cbn. by destruct (CatalogSchema.tables e !! _).
  - unfold Catalog.schema_by_name. rewrite Hi. by eexists.
Qed.

(** The name of the table of a row is the name it is found by. *)
Lemma table_name_row c ss ts vs ms q i t :
  reflects c ss ts vs ms -> NoDup (DucklakeSchema.schema_id <$> ss) -> ts !! i = Some t ->
  row_named ss DucklakeTable.schema_id DucklakeTable.table_name q t ->
  Catalog.table_name c (TableRef.mk i) = Ok q.
Proof.
  intros Hc Hids Ht (x & Hx & Hid & Hn & Hname).
  destruct (table_inner_row c ss ts vs ms (TableRef.mk i) t Hc Ht) as (e & x' & He & Hx' & Hid' & Hen).
  unfold Catalog.table_name. rewrite He. cbn. rewrite Hen, Hname.
  rewrite (same_schema ss x' x) by (done || by rewrite Hid'). rewrite Hn. by destruct q.
Qed.

(** *** Listings *)

Lemma map_outcome_all {E A B} (f : A -> outcome E B) (P : A -> B -> Prop) l :
  (forall x, x ∈ l -> exists y, f x = Ok y /\ P x y) -> exists ys, map_outcome f l = Ok ys /\ Forall2 P l ys.
Proof.
  induction l as [|x l IH]; intros Hf; [by exists []|].
  destruct (Hf x) as (y & Hy & Hp); [left|]. destruct IH as (ys & Hys & Hall); [intros; apply Hf; by right|].
  exists (y :: ys). cbn. rewrite Hy. cbn. rewrite Hys. split; [done|]. by constructor.
Qed.

(** The handles of one schema are those of its rows. *)
Lemma list_tables_in_schema_rows conn c ss ts vs ms i x :
  reflects c ss ts vs ms -> ss !! i = Some x ->
  exists hs, Ducklake.list_tables_in_schema conn c (SchemaRef.mk i) = Ok hs /\
    forall h, h ∈ hs <-> exists t, t ∈ ts /\ DucklakeTable.schema_id t = DucklakeSchema.schema_id x /\
      h = Table.mk conn (DucklakeTable.schema_id t) (DucklakeTable.table_id t).
Proof.
  intros Hc Hx.
  destruct (Forall2_lookup_l _ _ _ _ _ (reflects_schemas _ _ _ _ _ Hc) Hx) as (e & He & Hrs).
  set (refs := (fun p => TableRef.mk p.2) <$> map_to_list (CatalogSchema.tables e)).
  assert (forall r, r ∈ refs <-> exists t, ts !! TableRef.idx r = Some t /\
    DucklakeTable.schema_id t = DucklakeSchema.schema_id x) as Hrefs.
  { intros r. unfold refs. rewrite list_elem_of_fmap. split.
    - intros ([n j] & -> & (t & Ht & Hs & _)%elem_of_map_to_list%(rs_tables _ _ _ _ _ Hrs)). by exists t.
    - intros (t & Ht & Hs). exists (DucklakeTable.table_name t, TableRef.idx r). split; [by destruct r|].
      apply elem_of_map_to_list, (rs_tables _ _ _ _ _ Hrs). by exists t. }
  unfold Ducklake.list_tables_in_schema, Catalog.list_tables, Catalog.schema_inner, Arena.get.
  cbn -[map_outcome Catalog.schema_id Catalog.table_id]. rewrite He.
  cbn -[map_outcome Catalog.schema_id Catalog.table_id]. fold refs.
  match goal with |- context [map_outcome ?f refs] =>
    destruct (map_outcome_all f (fun r h => exists t, ts !! TableRef.idx r = Some t /\
      DucklakeTable.schema_id t = DucklakeSchema.schema_id x /\
      h = Table.mk conn (DucklakeTable.schema_id t) (DucklakeTable.table_id t)) refs) as (hs & Hhs & Hall)
  end.
  { intros r (t & Ht & Hs)%Hrefs. exists (Table.mk conn (DucklakeTable.schema_id t) (DucklakeTable.table_id t)).
    split; [|by exists t]. unfold Catalog.schema_id, Catalog.schema_inner, Arena.get.
    cbn -[Catalog.table_id]. rewrite He. cbn -[Catalog.table_id]. rewrite (rs_id _ _ _ _ _ Hrs).
    cbn -[Catalog.table_id]. rewrite (table_id_row _ _ _ _ _ _ _ Hc Ht). cbn. by rewrite Hs. }
  exists hs. split; [done|]. intros h. split.
  - intros [j Hj]%list_elem_of_lookup. destruct (Forall2_lookup_r _ _ _ _ _ Hall Hj) as (r & _ & t & Ht & H).
    exists t. split; [by eapply list_elem_of_lookup_2|done].
  - intros (t & [j Hj]%list_elem_of_lookup & Hs & ->).
    assert (TableRef.mk j ∈ refs) as [m Hm]%list_elem_of_lookup by (apply Hrefs; by exists t).
    destruct (Forall2_lookup_l _ _ _ _ _ Hall Hm) as (h & Hh & t' & Ht' & _ & ->).
    cbn in Ht'. rewrite Hj in Ht'. injection Ht' as <-. by eapply list_elem_of_lookup_2.
Qed.

Lemma list_tables_rows conn c ss ts vs ms :
  reflects c ss ts vs ms ->
  exists hs, Ducklake.list_tables_from_catalog conn c None = Ok hs /\
    forall h, h ∈ hs <-> exists t, t ∈ ts /\
      h = Table.mk conn (DucklakeTable.schema_id t) (DucklakeTable.table_id t).
Proof.
  intros Hc. unfold Ducklake.list_tables_from_catalog, Ducklake.in_schemas.
  destruct (map_outcome_all (Ducklake.list_tables_in_schema conn c) (fun r hs =>
    exists x, ss !! SchemaRef.idx r = Some x /\ forall h, h ∈ hs <-> exists t, t ∈ ts /\
      DucklakeTable.schema_id t = DucklakeSchema.schema_id x /\
      h = Table.mk conn (DucklakeTable.schema_id t) (DucklakeTable.table_id t))
    (Catalog.list_schemas c)) as (lists & Hlists & Hall).
  { intros r ([n i] & -> & Hi%elem_of_map_to_list)%list_elem_of_fmap.
    destruct (schema_found _ _ _ _ _ _ _ Hc Hi) as (x & e & Hx & _).
    destruct (list_tables_in_schema_rows conn c ss ts vs ms i x Hc Hx) as (hs & Hhs & Hh). eauto. }
  rewrite Hlists. exists (concat lists). split; [done|]. intros h. rewrite list_elem_of_In, in_concat. setoid_rewrite <-list_elem_of_In. split.
  - intros (hs & [i Hi]%list_elem_of_lookup & Hh).
    destruct (Forall2_lookup_r _ _ _ _ _ Hall Hi) as (r & _ & x & _ & Hx). apply Hx in Hh as (t & Ht & _ & ->).
    by exists t.
  - intros (t & Ht & ->). apply list_elem_of_lookup in Ht as [i Hi].
    destruct (Forall2_lookup_l _ _ _ _ _ (reflects_tables _ _ _ _ _ Hc) Hi) as (e & _ & _ & x & Hx & Hid & _).
    apply list_elem_of_lookup in Hx as [j Hx].
    assert (SchemaRef.mk j ∈ Catalog.list_schemas c) as [m Hm]%list_elem_of_lookup.
    { apply list_elem_of_fmap. exists (DucklakeSchema.schema_name x, j). split; [done|].
      apply elem_of_map_to_list, (reflects_names _ _ _ _ _ Hc). by exists x. }
    destruct (Forall2_lookup_l _ _ _ _ _ Hall Hm) as (hs & Hhs & x' & Hx' & Hh). exists hs.
    cbn in Hx'. rewrite Hx in Hx'. injection Hx' as <-.
    split; [by eapply list_elem_of_lookup_2|]. apply Hh. exists t.
    split; [by eapply list_elem_of_lookup_2|done].
Qed.

(** C28: handles lead back to what they were found by. On a connection that is
    pinned or at rest, whose catalog was loaded from distinct rows: a name that a
    row has gives a handle with the IDs of that row, and asking the handle for its
    name gives the name; any other name gives an error, never a panic; the listing
    holds exactly the handles of the rows; and nothing about the
    session changes. *)
Theorem handles_lead_back (conn : DucklakeConnection) (s : Session) (fetched : Fetched) (c : Catalog)
    (Hsettled : settled conn c s) (Hload : build_catalog fetched = Ok c) (Hdistinct : distinct fetched) :
  (forall q t, t ∈ fetched_tables fetched ->
     row_named (fetched_schemas fetched) DucklakeTable.schema_id DucklakeTable.table_name q t ->
     exists h, Ducklake.table conn (Ok q) s = (Ok h, s) /\ Ducklake.table_name h s = (Ok q, s) /\
       Table.id h = DucklakeTable.table_id t /\ Table.schema_id h = DucklakeTable.schema_id t) /\
  (forall q, (forall t, t ∈ fetched_tables fetched ->
       ~ row_named (fetched_schemas fetched) DucklakeTable.schema_id DucklakeTable.table_name q t) ->
     exists e, Ducklake.table conn (Ok q) s = (Err e, s)) /\
  (exists hs, Ducklake.list_tables conn None s = (Ok hs, s) /\
     forall h, h ∈ hs <-> exists t, t ∈ fetched_tables fetched /\
       h = Table.mk conn (DucklakeTable.schema_id t) (DucklakeTable.table_id t)).
Proof.
  destruct (build_catalog_reflects fetched c Hdistinct Hload) as (ms & _ & Hc).
  assert (forall q, Ducklake.table conn (Ok q) s =
    (t ← Ducklake.maybe_table_from_catalog conn c q; unwrap t, s)) as Htable.
  { intros q. exact (proj1 (settled_read conn c (fun c =>
      t ← Ducklake.maybe_table_from_catalog conn c q; unwrap t) s Hsettled)). }
  split; [|split].
  - intros q t [i Hi]%list_elem_of_lookup Hq.
    exists (Table.mk conn (DucklakeTable.schema_id t) (DucklakeTable.table_id t)).
    rewrite Htable, (maybe_table_row conn c _ _ _ _ q i t Hc Hi Hq). split; [done|]. split; [|done].
    unfold Ducklake.table_name, Ducklake.table_read. cbn [Table.conn Table.id].
    rewrite (proj2 (settled_read conn c _ s Hsettled)), (table_by_id_row c _ _ _ _ i t Hc Hi).
    f_equal. by apply (table_name_row c _ _ _ _ q i t Hc (schema_ids_distinct _ Hdistinct) Hi).
  - intros q Hnone. destruct (maybe_table_none conn c _ _ _ _ q Hc Hnone) as [e He].
    exists e. by rewrite Htable, He.
  - destruct (list_tables_rows conn c _ _ _ _ Hc) as (hs & Hhs & Hh). exists hs. split; [|done].
    unfold Ducklake.list_tables. by rewrite (proj1 (settled_read conn c _ s Hsettled)), Hhs.
Qed.
End Connections.

(** ** A connection pinned to the snapshot of the demo database *)

#[export] Instance demo_zones : TimeZones := {| Tz := string; tz_name s := s |}.

Definition orders_pinned : DucklakeConnection := DucklakeConnection.mk [] "UTC" (TimeTravel 0).
Definition orders_session (self : Process) : Session :=
  Session.mk self (MetadataCache.mk (Client.db orders_client) (Metadata.mk ∅ ∅ ∅)) 0
    (Client.attempt orders_client).
Definition orders_q : QualifiedName := QualifiedName.mk "main" "orders".

Lemma orders_catalog_loads :
  match SnapshotCache.catalog 0 (Client.db orders_client) orders_process with
  | (Ok c, _) => build_catalog orders_fetched = Ok c
  | _ => False
  end.
Proof. vm_compute. exact eq_refl. Qed.

Lemma orders_settled : exists c,
  build_catalog orders_fetched = Ok c /\ settled orders_pinned c (orders_session (process orders_read)).
Proof.
  pose proof orders_catalog_loads as Hb. unfold orders_read. cbn [process].
  destruct (SnapshotCache.catalog 0 (Client.db orders_client) orders_process) as [[c| |] self] eqn:Hc;
    [|contradiction..].
  exists c. split; [exact Hb|]. apply (settled_pinned _ 0); [exact eq_refl|].
  exact (read_loaded 0 c _ _ _ Hc).
Qed.

Lemma orders_row_named : exists t, t ∈ fetched_tables orders_fetched /\
  row_named (fetched_schemas orders_fetched) DucklakeTable.schema_id DucklakeTable.table_name orders_q t.
Proof.
  assert (existsb (fun t => existsb (fun x =>
    Z.eqb (DucklakeSchema.schema_id x) (DucklakeTable.schema_id t) &&
    String.eqb (DucklakeSchema.schema_name x) "main") (fetched_schemas orders_fetched) &&
    String.eqb (DucklakeTable.table_name t) "orders") (fetched_tables orders_fetched) = true) as H
    by (vm_compute; reflexivity).
  apply existsb_exists in H as (t & Ht & [(x & Hx & [Hid Hn]%andb_prop)%existsb_exists Hname]%andb_prop).
  exists t. split; [by apply list_elem_of_In|]. exists x. split; [by apply list_elem_of_In|].
  apply Z.eqb_eq in Hid. apply String.eqb_eq in Hn, Hname.
  split; [exact Hid|]. split; [exact Hn|exact Hname].
Qed.

Lemma handles_lead_back_witness : exists h,
  Ducklake.table orders_pinned (Ok orders_q) (orders_session (process orders_read)) =
    (Ok h, orders_session (process orders_read)) /\
  Ducklake.table_name h (orders_session (process orders_read)) =
    (Ok orders_q, orders_session (process orders_read)).
Proof.
  destruct orders_settled as (c & Hb & Hs). destruct orders_row_named as (t & Ht & Hq).
  destruct (handles_lead_back orders_pinned (orders_session (process orders_read)) orders_fetched c
    Hs Hb orders_distinct) as (Hfound & _).
  destruct (Hfound orders_q t Ht Hq) as (h & Hh & Hn & _). exists h. split; [exact Hh|exact Hn].
Defined.


