(* ===== verification/Scan.v ===== *)
(** * Scanning a table ([scan/], [table_statistics.rs])

    What a reader of a table needs: its data files with their statistics and
    deletions, the rows that are stored inline, and the totals a listing shows. *)

From S2P Require Import Prelude Text Regex Identifier Types Instances Entities CatalogColumns.
From S2P Require Import Catalog TableStats CommitState Dialect TransactionChanges Database Load Transactions.
From S2P Require Import Metadata Persist Commit Expire Cache Connection.

(** Record batches ([db/mod.rs], [io/arrow]): rows decoded to a schema, a batch
    matched to another schema with initial defaults for what it lacks; neither
    adds nor drops rows *)
Class ScanFormats `{External} : Type := {
  decode_batch : Schema -> list row -> result RecordBatch;
  decode_batch_rows schema rows batch : decode_batch schema rows = Ok batch -> num_rows batch = length rows;
  match_with_initial_defaults : RecordBatch -> Schema -> result RecordBatch;
  match_with_initial_defaults_rows batch schema batch' :
    match_with_initial_defaults batch schema = Ok batch' -> num_rows batch' = num_rows batch;
}.

(** [as usize] *)
Definition as_usize (z : Z) : Z := z mod 2 ^ 64.

Module ScanDataFile.
Record t `{External} : Type := mk {
  path : string;
  encryption_key : option string;
  statistics : DataFileStatistics.t;
  delete_files : list ScanDeleteFile.t;
  inline_deletes : option (list Z);
}.
#[global] Arguments mk {_} path encryption_key statistics delete_files inline_deletes.
End ScanDataFile.

Module ScanResult.
Record t `{External} : Type := mk { data_files : list ScanDataFile.t; inline_data : list RecordBatch }.
#[global] Arguments mk {_} data_files inline_data.
End ScanResult.

Module TableScan.
Record t `{External} : Type := mk { result : ScanResult.t; file_partition_ids : list (Z * option Z) }.
#[global] Arguments mk {_} result file_partition_ids.
End TableScan.

Module TableTransferScan.
Record t `{External} : Type := mk {
  result : ScanResult.t;
  partition_values : list (option (list (option string)));
}.
#[global] Arguments mk {_} result partition_values.
End TableTransferScan.

Module Scan.
Section Scan.
Context `{EXT : External} `{CMP : !SqlCompare} `{ENGINE : !SqlEngine} `{ENG : !RegexEngine}
  `{TXT : !ValueText} `{HASH : HashOrder} `{ERR : !DatabaseErrors} `{FMT : !ScanFormats}.
Context (epoch : DateTimeUtc).

(** ** Queries ([queries.rs]) *)

Definition of_table (E : Type) `{!Entity E} (table_id : Z) (db : Db) : result (list row) :=
  select (TABLE E) (Cond.Eq "table_id" (to_sql table_id)) db.

Definition build_data_files_query (table_id snapshot_id : Z) (db : Db) : result (list row) :=
  List.filter (row_visible snapshot_id) <$> of_table DucklakeDataFile table_id db.
Definition build_delete_files_query (table_id snapshot_id : Z) (db : Db) : result (list row) :=
  List.filter (row_visible snapshot_id) <$> of_table DucklakeDeleteFile table_id db.
Definition build_partition_values_query (table_id : Z) (db : Db) : result (list row) :=
  of_table DucklakeFilePartitionValue table_id db.
Definition build_inlined_data_tables_query (table_id : Z) (db : Db) : result (list row) :=
  of_table DucklakeInlinedDataTables table_id db.

(** A row once per partner with an equal [key] *)
Definition inner_join (key : string) (rows partners : list row) : list row :=
  rows ≫= fun r => (fun _ => r) <$> List.filter (fun a => sql_eq (field key r) (field key a)) partners.

Definition build_column_stats_query (table_id snapshot_id : Z) (db : Db) : result (list row) :=
  stats ← of_table DucklakeFileColumnStats table_id db;
  files ← visible_rows DucklakeDataFile snapshot_id db;
  mret (inner_join "data_file_id" stats files).

Definition build_inlined_deletes_query (table_id snapshot_id : Z) (db : Db) : result (list row) :=
  List.filter (fun r => sql_le (field "begin_snapshot" r) (to_sql snapshot_id)) <$>
    select (DucklakeInlinedDelete_table_name table_id) any_row db.

(** The columns of the visible rows, [ORDER BY row_id] *)
Definition build_inlined_data_query (table_name : string) (columns : list string) (snapshot_id : Z)
    (db : Db) : result (list row) :=
  rows ← select table_name any_row db;
  let visible := sort_by_key sql_le (field "row_id") (List.filter (row_visible snapshot_id) rows) in
  mret ((fun r => (fun c => (c, field c r)) <$> columns) <$> visible).

(** ** Parsing ([parsing.rs]) *)

(** A column that was dropped has no data type. *)
Definition parse_column_stats (stats : DucklakeFileColumnStats) (column_dtypes : gmap Z DataType)
    : result (option FileColumnStats.t) :=
  match column_dtypes !! DucklakeFileColumnStats.column_id stats with
  | Some dtype =>
      min_value ← parse_bound dtype (DucklakeFileColumnStats.min_value stats);
      max_value ← parse_bound dtype (DucklakeFileColumnStats.max_value stats);
      mret (Some (FileColumnStats.mk (as_usize <$> DucklakeFileColumnStats.column_size_bytes stats)
        min_value max_value (as_usize <$> DucklakeFileColumnStats.null_count stats)
        (DucklakeFileColumnStats.contains_nan stats)))
  | None => mret None
  end.

Definition parse_column_entry (column_dtypes : gmap Z DataType) (stat : DucklakeFileColumnStats)
    : result (option (Z * FileColumnStats.t)) :=
  s ← parse_column_stats stat column_dtypes;
  mret (fmap (M := option) (fun s => (DucklakeFileColumnStats.column_id stat, s)) s).

Definition full_path (base_path : DucklakePath) (path : string) (is_relative : bool) : result string :=
  path ← infallible (DucklakePath.new path is_relative);
  path ← infallible (DucklakePath.join base_path path);
  mret (DucklakePath.as_str path).

Definition parse_data_file (data_file : DucklakeDataFile) (column_stats : list DucklakeFileColumnStats)
    (column_dtypes : gmap Z DataType) (base_path : DucklakePath)
    : result (string * DataFileStatistics.t) :=
  stats ← map_outcome (parse_column_entry column_dtypes) column_stats;
  path ← full_path base_path (DucklakeDataFile.path data_file) (DucklakeDataFile.path_is_relative data_file);
  mret (path, DataFileStatistics.mk (as_usize (DucklakeDataFile.record_count data_file))
    (as_usize <$> DucklakeDataFile.file_size_bytes data_file)
    (as_usize <$> DucklakeDataFile.footer_size data_file)
    (list_to_map (reverse (omap id stats)))).

(** Another format than Parquet is [unimplemented!]. *)
Definition parse_delete_file (delete_file : DucklakeDeleteFile) (base_path : DucklakePath)
    : result ScanDeleteFile.t :=
  if decide (DucklakeDeleteFile.format delete_file = "parquet") then
    path ← full_path base_path (DucklakeDeleteFile.path delete_file)
             (DucklakeDeleteFile.path_is_relative delete_file);
    mret (ScanDeleteFile.mk path (DucklakeDeleteFile.encryption_key delete_file)
      (as_usize (default 0%Z (DucklakeDeleteFile.delete_count delete_file)))
      (as_usize <$> DucklakeDeleteFile.file_size_bytes delete_file)
      (as_usize <$> DucklakeDeleteFile.footer_size delete_file))
  else Panic.

(** ** The scan ([mod.rs]) *)

(** A table of inlined deletions exists once something was deleted. *)
Definition fetch_inlined_deletes (table_id snapshot_id : Z) (db : Db) : result (list DucklakeInlinedDelete) :=
  match build_inlined_deletes_query table_id snapshot_id db with
  | Ok rows => Tx.decode_rows rows
  | Err e => if is_table_not_found_error e then Ok [] else Err e
  | Panic => Panic
  end.

(** The rows of one inlined data table, read with the schema they were written
    with and matched to the schema of the scan *)
Definition read_inlined_data (table_id snapshot_id : Z) (target_schema : Schema)
    (table : DucklakeInlinedDataTables) (p : nat) (db : Db) : method Process RecordBatch :=
  c ← SnapshotCache.catalog p db;
  st_lift (
    r ← Catalog.table_by_id c table_id;
    schema ← Catalog.table_schema c r;
    rows ← build_inlined_data_query (DucklakeInlinedDataTables.table_name table)
             (Schema.columns schema).*1 snapshot_id db;
    batch ← decode_batch schema rows;
    match_with_initial_defaults batch target_schema).

(** One data file with what was deleted from it *)
Definition scan_data_file (data_path : DucklakePath) (column_dtypes : gmap Z DataType)
    (column_stats : gmap Z (list DucklakeFileColumnStats)) (delete_files : gmap Z (list DucklakeDeleteFile))
    (inline_deletes : gmap Z (list DucklakeInlinedDelete)) (file : DucklakeDataFile)
    : result ScanDataFile.t :=
  let file_id := DucklakeDataFile.data_file_id file in
  '(path, statistics) ← parse_data_file file (default [] (column_stats !! file_id)) column_dtypes data_path;
  delete_files ← map_outcome (fun f => parse_delete_file f data_path) (default [] (delete_files !! file_id));
  mret (ScanDataFile.mk path (DucklakeDataFile.encryption_key file) statistics delete_files
    (fmap (M := option) (fmap (M := list) DucklakeInlinedDelete.row_id) (inline_deletes !! file_id))).

Definition scan_table_inner (table_id : Z) (p : nat) (data_path : DucklakePath) (db : Db)
    : method Process TableScan.t :=
  info ← SnapshotCache.info_of p;
  let snapshot_id := SnapshotInfo.id info in
  c ← SnapshotCache.catalog p db;
  r ← st_lift (Catalog.table_by_id c table_id);
  column_dtypes ← st_lift (Catalog.table_column_data_types c r);
  target_schema ← st_lift (Catalog.table_schema c r);
  data_files ← st_lift (rows ← build_data_files_query table_id snapshot_id db; Tx.decode_rows rows);
  column_stats ← st_lift (rows ← build_column_stats_query table_id snapshot_id db; Tx.decode_rows rows);
  delete_files ← st_lift (rows ← build_delete_files_query table_id snapshot_id db; Tx.decode_rows rows);
  inlined_tables ← st_lift (rows ← build_inlined_data_tables_query table_id db; Tx.decode_rows rows);
  inline_deletes ← st_lift (fetch_inlined_deletes table_id snapshot_id db);
  snapshots ← st_map (fun t => SnapshotCache.get_for_schema_version epoch
    (DucklakeInlinedDataTables.schema_version t) db) inlined_tables;
  batches ← st_map (fun '(t, q) => read_inlined_data table_id snapshot_id target_schema t q db)
    (zip inlined_tables snapshots);
  let column_stats := group_map_by DucklakeFileColumnStats.data_file_id column_stats in
  let delete_files := group_map_by DucklakeDeleteFile.data_file_id delete_files in
  let inline_deletes := group_map_by DucklakeInlinedDelete.file_id inline_deletes in
  files ← st_lift (map_outcome
    (scan_data_file data_path column_dtypes column_stats delete_files inline_deletes) data_files);
  mret (TableScan.mk
    (ScanResult.mk files (List.filter (fun b => Nat.ltb 0 (num_rows b)) batches))
    ((fun f => (DucklakeDataFile.data_file_id f, DucklakeDataFile.partition_id f)) <$> data_files)).

Definition scan_table (table_id : Z) (p : nat) (data_path : DucklakePath) (db : Db)
    : method Process ScanResult.t :=
  scan ← scan_table_inner table_id p data_path db; mret (TableScan.result scan).

(** The values of a file are kept while the table is partitioned as the file is. *)
Definition transfer_partition_values (current : option Z)
    (acc : list (option (list (option string))) * gmap Z (list DucklakeFilePartitionValue))
    (file : Z * option Z) : list (option (list (option string))) * gmap Z (list DucklakeFilePartitionValue) :=
  let '(out, values) := acc in
  match file.2, current with
  | Some own, Some current =>
      if decide (own = current) then
        let '(own, values) := take_group file.1 values in
        (out ++ [Some (DucklakeFilePartitionValue.partition_value <$>
           sort_by_key Z.leb DucklakeFilePartitionValue.partition_key_index own)], values)
      else (out ++ [None], values)
  | _, _ => (out ++ [None], values)
  end.

Definition scan_table_for_transfer (table_id : Z) (p : nat) (data_path : DucklakePath) (db : Db)
    : method Process TableTransferScan.t :=
  c ← SnapshotCache.catalog p db;
  r ← st_lift (Catalog.table_by_id c table_id);
  current_partition_id ← st_lift (Catalog.partition_id c r);
  scan ← scan_table_inner table_id p data_path db;
  fetched ← st_lift (rows ← build_partition_values_query table_id db; Tx.decode_rows rows);
  let values := group_map_by DucklakeFilePartitionValue.data_file_id fetched in
  mret (TableTransferScan.mk (TableScan.result scan)
    (foldl (transfer_partition_values current_partition_id) ([], values)
       (TableScan.file_partition_ids scan)).1).
End Scan.
End Scan.

(** ** Totals ([table_statistics.rs]) *)

Module TableStatistics.
Record t : Type := mk {
  num_rows : Z;
  num_inline_rows : Z;
  num_deleted_rows : Z;
  num_data_files : Z;
  total_file_size_bytes : option Z;
  min_file_size_bytes : option Z;
  max_file_size_bytes : option Z;
}.
Definition eta (s : t) : t := mk (num_rows s) (num_inline_rows s) (num_deleted_rows s)
  (num_data_files s) (total_file_size_bytes s) (min_file_size_bytes s) (max_file_size_bytes s).
#[export] Instance set_num_rows : Setter num_rows := ltac:(mk_setter eta num_rows).
#[export] Instance set_num_inline_rows : Setter num_inline_rows := ltac:(mk_setter eta num_inline_rows).
#[export] Instance set_num_deleted_rows : Setter num_deleted_rows := ltac:(mk_setter eta num_deleted_rows).

Section TableStatistics.
Context `{EXT : External} `{CMP : !SqlCompare} `{ENGINE : !SqlEngine} `{HASH : HashOrder}.

(** *** Aggregates: [NULL]s do not count, a sum that is no [BIGINT] fails
    (MySQL's cast clamps it) *)

Definition integers (column : string) (rows : list row) : list Z :=
  omap (fun r => match field column r with SInt z => Some z | _ => None end) rows.
Definition total (l : list Z) : Z := foldr Z.add 0%Z l.
Definition sum_i64 (column : string) (rows : list row) : result (option Z) :=
  match integers column rows with
  | [] => Ok None
  | l => if decide (i64_min <= total l <= i64_max)%Z then Ok (Some (total l))
         else Err (Database false false "integer overflow")
  end.
Definition least (l : list Z) : option Z :=
  foldr (fun z acc => Some match acc with Some m => Z.min z m | None => z end) None l.
Definition greatest (l : list Z) : option Z :=
  foldr (fun z acc => Some match acc with Some m => Z.max z m | None => z end) None l.

(** [GROUP BY table_id]: the rows of each table that has one *)
Definition group_by_table (rows : list row) : list (Z * list row) :=
  (fun id => (id, List.filter (fun r => sql_eq (field "table_id" r) (SInt id)) rows)) <$>
    remove_dups (integers "table_id" rows).

Abbreviation statistics_map := (gmap Z t).

(** [stats.get_mut(&id).unwrap()] *)
Definition update_entry (id : Z) (f : t -> t) (stats : statistics_map) : result statistics_map :=
  entry ← unwrap (stats !! id); mret (<[id := f entry]> stats).

Definition of_tables (E : Type) `{!Entity E} (ids : list Z) (db : Db) : result (list row) :=
  select (TABLE E) (Cond.IsIn "table_id" (to_sql <$> ids)) db.

(** The totals of the data files of one table *)
Definition set_files (stats : statistics_map) (group : Z * list row) : result statistics_map :=
  let '(id, rows) := group in
  let sizes := integers "file_size_bytes" rows in
  num_rows ← sum_i64 "record_count" rows;
  num_rows ← ok_or (Database false false "column decoding error") num_rows;
  size ← sum_i64 "file_size_bytes" rows;
  update_entry id (fun entry => mk num_rows (num_inline_rows entry) (num_deleted_rows entry)
    (Z.of_nat (length rows)) (if decide (length rows = length sizes) then size else None)
    (least sizes) (greatest sizes)) stats.

Definition set_deletes (stats : statistics_map) (group : Z * list row) : result statistics_map :=
  let '(id, rows) := group in
  count ← sum_i64 "delete_count" rows;
  update_entry id (fun entry => entry <| num_deleted_rows := default 0%Z count |>) stats.

(** *** Counts in one query per batch *)

Definition BATCH_SIZE : nat := 128.

(** [SELECT .. UNION ALL SELECT ..] of a batch of counts *)
Abbreviation count_query := (Db -> result (Z * Z)).
Definition fetch_counts (queries : list count_query) (db : Db) : result (list (Z * Z)) :=
  counts ← map_outcome (map_outcome (fun q : count_query => q db))
             (Tx.chunks (length queries) BATCH_SIZE queries);
  mret (concat counts).

Definition count_inline (snapshot_id : Z) (table : DucklakeInlinedDataTables) : count_query :=
  fun db =>
    rows ← select (DucklakeInlinedDataTables.table_name table) any_row db;
    mret (DucklakeInlinedDataTables.table_id table,
          Z.of_nat (length (List.filter (row_visible snapshot_id) rows))).

(** [deletes.file_id = ducklake_data_file.data_file_id] *)
Definition count_inline_deletes (snapshot_id id : Z) : count_query :=
  fun db =>
    deletes ← select (DucklakeInlinedDelete_table_name id) any_row db;
    files ← select (TABLE DucklakeDataFile) (Cond.Eq "table_id" (to_sql id)) db;
    let files := List.filter (row_visible snapshot_id) files in
    let deletes := List.filter (fun r => sql_le (field "begin_snapshot" r) (to_sql snapshot_id)) deletes in
    mret (id, Z.of_nat (length (deletes ≫= fun r =>
      List.filter (fun f => sql_eq (field "file_id" r) (field "data_file_id" f)) files))).

Definition add_inline (stats : statistics_map) (count : Z * Z) : result statistics_map :=
  update_entry count.1 (fun entry => entry <| num_inline_rows ::= fun n => i64_add n count.2 |>) stats.
Definition add_deleted (stats : statistics_map) (count : Z * Z) : result statistics_map :=
  update_entry count.1 (fun entry => entry <| num_deleted_rows ::= fun n => i64_add n count.2 |>) stats.

(** [entry.num_rows += entry.num_inline_rows - entry.num_deleted_rows] *)
Definition net_rows (entry : t) : t :=
  entry <| num_rows ::= fun n =>
    i64_add n (wrap64 (num_inline_rows entry - num_deleted_rows entry)) |>.

(** The totals of the tables of a batch *)
Definition load_statistics (ids : list Z) (snapshot_id : Z) (db : Db) : result statistics_map :=
  let stats : statistics_map :=
    list_to_map ((fun id => (id, mk 0 0 0 0 (Some 0%Z) None None)) <$> ids) in
  file_rows ← of_tables DucklakeDataFile ids db;
  delete_rows ← of_tables DucklakeDeleteFile ids db;
  all_files ← visible_rows DucklakeDataFile snapshot_id db;
  inline_rows ← of_tables DucklakeInlinedDataTables ids db;
  inline ← Tx.decode_rows inline_rows;
  let files := group_by_table (List.filter (row_visible snapshot_id) file_rows) in
  let deletes := group_by_table
    (Scan.inner_join "data_file_id" (List.filter (row_visible snapshot_id) delete_rows) all_files) in
  stats ← fold_outcome set_files stats files;
  stats ← fold_outcome set_deletes stats deletes;
  counts ← fetch_counts (count_inline snapshot_id <$> inline) db;
  stats ← fold_outcome add_inline stats counts;
  stats ← (if existsb (fun kv => (0 <? num_data_files kv.2)%Z) (map_to_list stats) then
             let with_deletes := List.filter (fun id =>
               match stats !! id with
               | Some entry => negb (num_data_files entry =? 0)%Z &&
                   bool_decide (is_Some (db !! DucklakeInlinedDelete_table_name id))
               | None => false
               end) ids in
             counts ← fetch_counts (count_inline_deletes snapshot_id <$> with_deletes) db;
             fold_outcome add_deleted stats counts
           else mret stats);
  mret (net_rows <$> stats).

(** ** Listings ([list_tables_with_statistics]) *)

Definition load_all (ids : list Z) (snapshot_id : Z) (db : Db) : result statistics_map :=
  maps ← map_outcome (fun batch => load_statistics batch snapshot_id db)
           (Tx.chunks (length ids) BATCH_SIZE ids);
  mret (foldl (fun acc m => m ∪ acc) ∅ maps).

(** [statistics.remove(&table.id).unwrap()] *)
Fixpoint attach `{TimeZones} (tables : list Table) (statistics : statistics_map) : result (list (Table * t)) :=
  match tables with
  | [] => mret []
  | table :: tables =>
      stats ← unwrap (statistics !! Table.id table);
      rest ← attach tables (delete (Table.id table) statistics);
      mret ((table, stats) :: rest)
  end.
End TableStatistics.
End TableStatistics.
#[export] Existing Instances TableStatistics.set_num_rows TableStatistics.set_num_inline_rows
  TableStatistics.set_num_deleted_rows.
Abbreviation TableStatistics := TableStatistics.t.

Section Handles.
Context `{EXT : External} `{CMP : !SqlCompare} `{ENGINE : !SqlEngine} `{ENG : !RegexEngine}
  `{TXT : !ValueText} `{HASH : HashOrder} `{ERR : !DatabaseErrors} `{FMT : !ScanFormats} `{ZONES : !TimeZones}.
Context (epoch : DateTimeUtc).

Definition list_tables_with_statistics (self : DucklakeConnection) (schema : option string)
    : method Session (list (Table * TableStatistics)) :=
  p ← Ducklake.snapshot self SnapshotAccess.Any;
  Ducklake.scoped p (
    c ← Ducklake.snapshot_catalog p;
    tables ← st_lift (Ducklake.list_tables_from_catalog self c schema);
    info ← Ducklake.snapshot_info p;
    s ← st_get;
    statistics ← st_lift (TableStatistics.load_all (Table.id <$> tables) (SnapshotInfo.id info) (Session.db s));
    st_lift (TableStatistics.attach tables statistics)).

(** [Table::scan] *)
Definition table_scan (self : Table) : method Session ScanResult.t :=
  p ← Ducklake.snapshot (Table.conn self) SnapshotAccess.Any;
  Ducklake.scoped p (
    c ← Ducklake.snapshot_catalog p;
    s ← st_get;
    data_path ← st_lift (r ← Catalog.table_by_id c (Table.id self);
                         root ← Metadata.data_path (Ducklake.metadata s);
                         Catalog.table_data_path c r root);
    Ducklake.on_process (Scan.scan_table epoch (Table.id self) p data_path)).
End Handles.
