(* ===== verification/ScanFacts.v ===== *)
(** * The totals of a listing agree with the scan ([table_statistics.rs], [scan/])

    The numbers [load_statistics] computes with aggregate queries for many tables
    at once are those of the files, deletions and inlined rows that a scan of the
    table gives. *)

From S2P Require Import Prelude Triple Text Regex Identifier Types Instances Entities CatalogColumns.
From S2P Require Import Catalog TableStats CommitState Dialect Differences TransactionChanges Database Load.
From S2P Require Import Batches Transactions Metadata Persist Commit Demo StatsKey Expire Cache CacheFacts LoadedColumns LoadFacts Connection Scan.

(** ** Sums modulo [2 ^ 64] *)

Abbreviation zsum := TableStatistics.total.

Lemma zsum_cons x l : zsum (x :: l) = (x + zsum l)%Z.
Proof. done. Qed.
Lemma zsum_app l k : zsum (l ++ k) = (zsum l + zsum k)%Z.
Proof. induction l as [|x l IH]; [done|]. rewrite <-app_comm_cons, !zsum_cons, IH. lia. Qed.
#[export] Instance zsum_perm : Proper (Permutation ==> eq) zsum.
Proof. intros l k Hp. induction Hp; rewrite ?zsum_cons in *; lia. Qed.
Lemma zsum_map_zero {A} (l : list A) : zsum ((fun _ => 0%Z) <$> l) = 0%Z.
Proof. by induction l. Qed.

(** Counting pairs from either side *)
Lemma zsum_pairs {A B} (rel : A -> B -> bool) (w : A -> Z) (l : list A) (k : list B) :
  zsum ((fun b => zsum (w <$> List.filter (fun a => rel a b) l)) <$> k) =
  zsum ((fun a => w a * Z.of_nat (length (List.filter (rel a) k)))%Z <$> l).
Proof.
  induction l as [|a l IH]; [by apply zsum_map_zero|].
  rewrite fmap_cons, zsum_cons, <-IH. clear IH.
  induction k as [|b k IH]; [cbn; lia|]. rewrite !fmap_cons, !zsum_cons, IH.
  cbn [List.filter]. destruct (rel a b); rewrite ?fmap_cons, ?zsum_cons; cbn [length]; lia.
Qed.

Definition congruent (a b : Z) : Prop := wrap64 a = wrap64 b.
#[export] Instance congruent_equiv : Equivalence congruent.
Proof. split; unfold congruent; [done|by intros ? ?|]. intros ? ? ? -> . done. Qed.

Lemma congruent_mod a b : congruent a b <-> (a mod 2 ^ 64 = b mod 2 ^ 64)%Z.
Proof.
  unfold congruent, wrap64. split; intros H.
  - assert ((a + 2 ^ 63) mod 2 ^ 64 = (b + 2 ^ 63) mod 2 ^ 64)%Z as Hm by lia.
    replace a with (a + 2 ^ 63 - 2 ^ 63)%Z by lia. replace b with (b + 2 ^ 63 - 2 ^ 63)%Z by lia.
    by rewrite Zminus_mod, Hm, <-Zminus_mod.
  - f_equal. by rewrite Zplus_mod, H, <-Zplus_mod.
Qed.
Lemma wrap64_congruent z : congruent (wrap64 z) z.
Proof.
  apply congruent_mod. unfold wrap64.
  by rewrite Zminus_mod, Zmod_mod, <-Zminus_mod, Z.add_simpl_r.
Qed.
Lemma congruent_wrap a b : congruent a b -> wrap64 a = wrap64 b.
Proof. done. Qed.
Lemma as_usize_congruent z : congruent (as_usize z) z.
Proof. apply congruent_mod. unfold as_usize. by rewrite Zmod_mod. Qed.
#[export] Instance congruent_add : Proper (congruent ==> congruent ==> congruent) Z.add.
Proof.
  intros a a' Ha%congruent_mod b b' Hb%congruent_mod. apply congruent_mod.
  by rewrite Zplus_mod, Ha, Hb, <-Zplus_mod.
Qed.
#[export] Instance congruent_sub : Proper (congruent ==> congruent ==> congruent) Z.sub.
Proof.
  intros a a' Ha%congruent_mod b b' Hb%congruent_mod. apply congruent_mod.
  by rewrite Zminus_mod, Ha, Hb, <-Zminus_mod.
Qed.
Lemma zsum_congruent2 {A B} (f : A -> Z) (g : B -> Z) l k :
  Forall2 (fun a b => congruent (f a) (g b)) l k -> congruent (zsum (f <$> l)) (zsum (g <$> k)).
Proof.
  induction 1 as [|a b l k H _ IH]; [done|]. rewrite !fmap_cons, !zsum_cons. by rewrite H, IH.
Qed.
Lemma zsum_map_add {A} (f g : A -> Z) l :
  zsum ((fun x => f x + g x)%Z <$> l) = (zsum (f <$> l) + zsum (g <$> l))%Z.
Proof. induction l as [|x l IH]; [done|]. rewrite !fmap_cons, !zsum_cons, IH. lia. Qed.

(** ** Rows and entities *)

#[export] Instance filter_bool_perm {A} (p : A -> bool) :
  Proper (Permutation ==> Permutation) (List.filter p).
Proof.
  intros l0 k0. induction 1 as [|x l k _ IH|x y l|l k m _ IH1 _ IH2]; cbn; [done|by destruct (p x); rewrite IH| |by etrans].
  destruct (p x), (p y); by first [apply perm_swap|reflexivity].
Qed.

Lemma filter_bool_NoDup {A} (p : A -> bool) l : NoDup l -> NoDup (List.filter p l).
Proof. rewrite !NoDup_ListNoDup. apply List.NoDup_filter. Qed.

Section Rows.
Context `{EXT : External} `{CMP : !SqlCompare} `{ENGINE : !SqlEngine}.

Lemma get_column_option_Z column r (v : option Z) :
  get_column column r = Some v -> field column r = match v with Some z => SInt z | None => SNull end.
Proof.
  unfold get_column, field. destruct (IndexMap.get column r) as [x|]; [|done].
  by destruct x; cbn; intros [= <-].
Qed.

Lemma decode_rows_inv {E} `{!Entity E} rows (l : list E) :
  Tx.decode_rows rows = Ok l -> Forall2 (fun r e => from_row r = Some e) rows l.
Proof.
  intros H%map_outcome_Forall2. eapply Forall2_impl; [exact H|]. cbn. intros r e.
  destruct (from_row r); cbn; congruence.
Qed.

(** [SUM] of a column over rows: what is [NULL] adds nothing. *)
Definition weight (column : string) (r : row) : Z := match field column r with SInt z => z | _ => 0%Z end.
Lemma integers_sum column rows : zsum (TableStatistics.integers column rows) = zsum (weight column <$> rows).
Proof.
  unfold TableStatistics.integers, weight. induction rows as [|r rows IH]; [done|].
  rewrite fmap_cons, zsum_cons, <-IH. cbn [omap list_omap]. by destruct (field column r).
Qed.
Lemma sum_i64_Ok column rows s :
  TableStatistics.sum_i64 column rows = Ok s -> default 0%Z s = zsum (weight column <$> rows).
Proof.
  unfold TableStatistics.sum_i64. rewrite <-integers_sum.
  destruct (TableStatistics.integers column rows) as [|z l]; [by intros [= <-]|].
  case_decide; [|done]. by intros [= <-].
Qed.

Lemma sum_i64_range column rows s :
  TableStatistics.sum_i64 column rows = Ok s -> wrap64 (default 0%Z s) = default 0%Z s.
Proof.
  unfold TableStatistics.sum_i64. destruct (TableStatistics.integers column rows); [by intros [= <-]|].
  case_decide; [|done]. intros [= <-]. by apply wrap64_id.
Qed.

(** A join counts every partner. *)
Lemma inner_join_sum column key rows partners :
  zsum (weight column <$> Scan.inner_join key rows partners) =
  zsum ((fun r => weight column r * Z.of_nat (length
    (List.filter (fun a => sql_eq (field key r) (field key a)) partners)))%Z <$> rows).
Proof.
  unfold Scan.inner_join. induction rows as [|r rows IH]; [done|].
  rewrite bind_cons, fmap_app, fmap_cons, zsum_app, zsum_cons, IH. f_equal. clear IH.
  induction (List.filter _ partners) as [|a l IH]; [cbn; lia|].
  rewrite !fmap_cons, zsum_cons, IH. cbn [length]. lia.
Qed.
Lemma inner_join_filter key (p : row -> bool) rows partners :
  List.filter p (Scan.inner_join key rows partners) = Scan.inner_join key (List.filter p rows) partners.
Proof.
  unfold Scan.inner_join. induction rows as [|r rows IH]; [done|].
  rewrite bind_cons, List.filter_app, IH. cbn [List.filter]. destruct (p r) eqn:Hp.
  - rewrite bind_cons. f_equal. induction (List.filter _ partners) as [|a l IHl]; cbn; [done|].
    by rewrite Hp, IHl.
  - induction (List.filter (fun a => sql_eq (field key r) (field key a)) partners) as [|a l IHl];
      cbn; [done|]. by rewrite Hp, IHl.
Qed.

(** The rows of one table, among those of several *)
Definition of_id (id : Z) (r : row) : bool := sql_eq (field "table_id" r) (SInt id).
Lemma of_tables_filter ids id db (E : Type) `{!Entity E} all (p : row -> bool) :
  id ∈ ids -> TableStatistics.of_tables E ids db = Ok all ->
  List.filter (of_id id) (List.filter p all) ≡ₚ
    List.filter p (List.filter (of_id id) (rows_of db (TABLE E))).
Proof.
  intros Hid (t & Ht & Hall)%select_rows. unfold rows_of. rewrite Ht, Hall. clear Hall Ht.
  induction (DbTable.rows t) as [|r rows IH]; [done|]. cbn [List.filter holds].
  destruct (of_id id r) eqn:Hr.
  - assert (existsb (sql_eq (field "table_id" r)) (to_sql <$> ids) = true) as ->.
    { apply existsb_exists. exists (to_sql id). split; [|done].
      apply list_elem_of_In, list_elem_of_fmap. by exists id. }
    cbn [List.filter]. destruct (p r); cbn [List.filter]; [rewrite Hr|]; by try constructor.
  - destruct (existsb _ _); cbn [List.filter]; [|done].
    destruct (p r); cbn [List.filter]; [by rewrite Hr|done].
Qed.

(** The groups of a table: one, of all its rows, if there are any *)
Lemma group_of id rows :
  (forall r, r ∈ rows -> of_id id r = true -> field "table_id" r = SInt id) ->
  List.filter (fun g => bool_decide (g.1 = id)) (TableStatistics.group_by_table rows) =
  match List.filter (of_id id) rows with [] => [] | own => [(id, own)] end.
Proof.
  intros Hint. unfold TableStatistics.group_by_table.
  set (ids := remove_dups _).
  assert (id ∈ ids <-> List.filter (of_id id) rows <> []) as Hids.
  { unfold ids. rewrite elem_of_remove_dups. unfold TableStatistics.integers. rewrite list_elem_of_omap. split.
    - intros (r & Hr & Hz). destruct (field "table_id" r) eqn:Hf; try discriminate. injection Hz as ->.
      intros Hnil. assert (r ∈ List.filter (of_id id) rows) as Hin.
      { apply list_elem_of_In, filter_In. split; [by apply list_elem_of_In|].
        unfold of_id. rewrite Hf, sql_eq_int. apply Z.eqb_refl. }
      rewrite Hnil in Hin. by apply not_elem_of_nil in Hin.
    - destruct (List.filter (of_id id) rows) as [|r l] eqn:Hf; [done|]. intros _.
      assert (r ∈ List.filter (of_id id) rows) as Hin by (rewrite Hf; left).
      apply list_elem_of_In, filter_In in Hin as [Hin Hr]. apply list_elem_of_In in Hin.
      exists r. split; [done|]. by rewrite (Hint r Hin Hr). }
  assert (NoDup ids) as Hnd by apply NoDup_remove_dups. clearbody ids.
  assert (List.filter (fun g => bool_decide (g.1 = id))
      ((fun id => (id, List.filter (fun r => sql_eq (field "table_id" r) (SInt id)) rows)) <$> ids) =
    (fun id => (id, List.filter (of_id id) rows)) <$> (if decide (id ∈ ids) then [id] else [])) as ->.
  { clear Hids. induction Hnd as [|i ids Hi _ IH]; [done|]. rewrite fmap_cons. cbn [List.filter fst].
    rewrite IH. case_bool_decide as Hid.
    - subst i. rewrite (decide_False (P := id ∈ ids)), (decide_True (P := id ∈ id :: ids)); [done|by left|done].
    - destruct (decide (id ∈ ids)) as [Hin|Hin].
      + by rewrite decide_True by (by right).
      + by rewrite decide_False by (by intros [?|?]%elem_of_cons). }
  case_decide as Hin.
  - apply Hids in Hin. cbn [fmap list_fmap]. by destruct (List.filter (of_id id) rows).
  - destruct (List.filter (of_id id) rows); [done|]. destruct Hin. by apply Hids.
Qed.

(** *** What the columns of a decoded row hold *)

Ltac decoded_fields :=
  cbn; repeat match goal with
  | |- context [get_column ?c ?r] => let E := fresh "E" in destruct (get_column c r) eqn:E; cbn; [|discriminate]
  end; let H := fresh in intros H; injection H as <-.

Lemma decoded_data_file r (e : DucklakeDataFile) :
  from_row r = Some e ->
  field "data_file_id" r = SInt (DucklakeDataFile.data_file_id e) /\
  field "table_id" r = SInt (DucklakeDataFile.table_id e) /\
  field "record_count" r = SInt (DucklakeDataFile.record_count e).
Proof. decoded_fields. cbn. split_and!; by apply get_column_Z. Qed.
Lemma decoded_delete_file r (e : DucklakeDeleteFile) :
  from_row r = Some e ->
  field "data_file_id" r = SInt (DucklakeDeleteFile.data_file_id e) /\
  field "table_id" r = SInt (DucklakeDeleteFile.table_id e) /\
  weight "delete_count" r = default 0%Z (DucklakeDeleteFile.delete_count e).
Proof.
  decoded_fields. cbn. split_and!; [by apply get_column_Z..|].
  unfold weight. match goal with H : get_column "delete_count" r = Some ?o |- _ =>
    rewrite (get_column_option_Z _ _ _ H); by destruct o end.
Qed.
Lemma decoded_inlined_delete r (e : DucklakeInlinedDelete) :
  from_row r = Some e -> field "file_id" r = SInt (DucklakeInlinedDelete.file_id e).
Proof. decoded_fields. cbn. by apply get_column_Z. Qed.
Lemma decoded_inlined_table r (e : DucklakeInlinedDataTables) :
  from_row r = Some e -> field "table_id" r = SInt (DucklakeInlinedDataTables.table_id e).
Proof. decoded_fields. cbn. by apply get_column_Z. Qed.

Lemma decoded_in {E} `{!Entity E} rows (l : list E) r :
  Tx.decode_rows rows = Ok l -> r ∈ rows -> exists e, from_row r = Some e /\ e ∈ l.
Proof.
  intros Hd%decode_rows_inv [i Hi]%list_elem_of_lookup.
  destruct (Forall2_lookup_l _ _ _ _ _ Hd Hi) as (e & He & Hr).
  exists e. split; [done|]. by eapply list_elem_of_lookup_2.
Qed.

(** Decoding commutes with choosing and with the order of the rows. *)
Lemma decode_filter {E} `{!Entity E} (p : row -> bool) (q : E -> bool) rows (l : list E) :
  (forall r e, from_row r = Some e -> p r = q e) ->
  Tx.decode_rows rows = Ok l -> Tx.decode_rows (List.filter p rows) = Ok (List.filter q l).
Proof.
  intros Hpq. revert l. induction rows as [|r rows IH]; intros l; cbn [Tx.decode_rows map_outcome]; [by intros [= <-]|].
  unfold Tx.decode_rows in *. cbn [map_outcome].
  destruct (from_row r) as [e|] eqn:He; cbn; [|done].
  destruct (map_outcome _ rows) as [l'| |]; cbn; [|done..]. intros [= <-]. cbn.
  rewrite (Hpq _ _ He). destruct (q e); [|by apply IH]. cbn [map_outcome]. rewrite He. cbn.
  by rewrite (IH _ eq_refl).
Qed.
Lemma decode_perm {E} `{!Entity E} rows rows' (l l' : list E) :
  rows ≡ₚ rows' -> Tx.decode_rows rows = Ok l -> Tx.decode_rows rows' = Ok l' -> l ≡ₚ l'.
Proof.
  intros Hp Hl%decode_rows_inv Hl'%decode_rows_inv.
  destruct (Permutation_Forall2 Hp Hl) as (k & Hk & Hk'). rewrite Hk.
  assert (k = l') as ->; [|done]. clear -Hk' Hl'. revert l' Hl'.
  induction Hk' as [|r e rows k Hr _ IH]; intros l' Hl'; inversion_clear Hl'; [done|].
  f_equal; [congruence|by apply IH].
Qed.
End Rows.

(** ** The entry of one table through the updates of the totals *)

Section Entries.
Context `{EXT : External} `{CMP : !SqlCompare} `{ENGINE : !SqlEngine}.

(** A fold of updates by key changes an entry by the updates of its key. *)
Lemma fold_entries {X} (f : gmap Z TableStatistics -> X -> result (gmap Z TableStatistics))
    (key : X -> Z) (upd : X -> TableStatistics -> TableStatistics) l s s' id e :
  (forall x s s', f s x = Ok s' -> exists e, s !! key x = Some e /\ s' = <[key x := upd x e]> s) ->
  fold_outcome f s l = Ok s' -> s !! id = Some e ->
  s' !! id = Some (foldl (fun e x => upd x e) e (List.filter (fun x => bool_decide (key x = id)) l)).
Proof.
  intros Hf. revert s e. induction l as [|x l IH]; intros s e; cbn [fold_outcome]; [by intros [= <-]|].
  unfold mbind, outcome_bind. destruct (f s x) as [s1| |] eqn:Hx; [|done..].
  apply Hf in Hx as (e' & He' & ->). intros Hl He. cbn [List.filter]. case_bool_decide as Hk.
  - cbn [foldl]. apply (IH _ _ Hl). rewrite Hk in *. rewrite lookup_insert_eq. congruence.
  - apply (IH _ _ Hl). by rewrite lookup_insert_ne.
Qed.

Lemma update_entry_inv id f s s' :
  TableStatistics.update_entry id f s = Ok s' -> exists e, s !! id = Some e /\ s' = <[id := f e]> s.
Proof.
  unfold TableStatistics.update_entry. destruct (s !! id) as [e|]; [|done]. intros [= <-]. by exists e.
Qed.

(** Wrapping sums of counts *)
Lemma foldl_i64_add l n : n = wrap64 n -> foldl i64_add n l = wrap64 (n + zsum l).
Proof.
  revert n. induction l as [|x l IH]; intros n Hn; cbn [foldl]; [cbn; by rewrite Z.add_0_r|].
  unfold i64_add at 2. rewrite IH.
  - apply congruent_wrap. rewrite wrap64_congruent, zsum_cons. by rewrite Z.add_assoc.
  - symmetry. apply wrap64_congruent.
Qed.

Definition own_rows (id : Z) (rows : list row) : Prop :=
  forall r, r ∈ rows -> of_id id r = true -> field "table_id" r = SInt id.

Lemma files_entry rows id s s' e :
  own_rows id rows ->
  fold_outcome TableStatistics.set_files s (TableStatistics.group_by_table rows) = Ok s' ->
  s !! id = Some e -> TableStatistics.num_rows e = 0%Z -> TableStatistics.num_data_files e = 0%Z ->
  exists e', s' !! id = Some e' /\
    TableStatistics.num_rows e' = zsum (weight "record_count" <$> List.filter (of_id id) rows) /\
    TableStatistics.num_data_files e' = Z.of_nat (length (List.filter (of_id id) rows)) /\
    TableStatistics.num_inline_rows e' = TableStatistics.num_inline_rows e /\
    TableStatistics.num_deleted_rows e' = TableStatistics.num_deleted_rows e.
Proof.
  intros Hown Hfold He Hn Hd.
  pose (upd (g : Z * list row) (e : TableStatistics) := TableStatistics.mk (zsum (weight "record_count" <$> g.2))
    (TableStatistics.num_inline_rows e) (TableStatistics.num_deleted_rows e) (Z.of_nat (length g.2))
    (if decide (length g.2 = length (TableStatistics.integers "file_size_bytes" g.2)) then
       match TableStatistics.sum_i64 "file_size_bytes" g.2 with Ok size => size | _ => None end else None)
    (TableStatistics.least (TableStatistics.integers "file_size_bytes" g.2))
    (TableStatistics.greatest (TableStatistics.integers "file_size_bytes" g.2))).
  apply (fold_entries _ fst upd) with (id := id) (e := e) in Hfold; [|clear|done].
  - rewrite Hfold. eexists. split; [done|]. rewrite group_of by done.
    destruct (List.filter (of_id id) rows); cbn; [by rewrite Hn, Hd|done].
  - intros [i rows] s s'. unfold TableStatistics.set_files.
    destruct (TableStatistics.sum_i64 "record_count" rows) as [n| |] eqn:Hn; cbn; [|done..].
    destruct n as [n|]; cbn; [|done]. apply sum_i64_Ok in Hn. cbn in Hn.
    destruct (TableStatistics.sum_i64 "file_size_bytes" rows) as [size| |] eqn:Hs; cbn; [|done..].
    intros (e & He & ->)%update_entry_inv. exists e. split; [done|]. unfold upd. cbn. by rewrite Hs, Hn.
Qed.

Lemma deletes_entry rows id s s' e :
  own_rows id rows ->
  fold_outcome TableStatistics.set_deletes s (TableStatistics.group_by_table rows) = Ok s' ->
  s !! id = Some e -> TableStatistics.num_deleted_rows e = 0%Z ->
  exists e', s' !! id = Some e' /\
    TableStatistics.num_deleted_rows e' =
      wrap64 (zsum (weight "delete_count" <$> List.filter (of_id id) rows)) /\
    TableStatistics.num_rows e' = TableStatistics.num_rows e /\
    TableStatistics.num_data_files e' = TableStatistics.num_data_files e /\
    TableStatistics.num_inline_rows e' = TableStatistics.num_inline_rows e.
Proof.
  intros Hown Hfold He Hn.
  pose (upd (g : Z * list row) (e : TableStatistics) :=
    e <| TableStatistics.num_deleted_rows := wrap64 (zsum (weight "delete_count" <$> g.2)) |>).
  apply (fold_entries _ fst upd) with (id := id) (e := e) in Hfold; [|clear|done].
  - rewrite Hfold. eexists. split; [done|]. rewrite group_of by done.
    by destruct (List.filter (of_id id) rows).
  - intros [i rows] s s'. unfold TableStatistics.set_deletes.
    destruct (TableStatistics.sum_i64 "delete_count" rows) as [n| |] eqn:Hn; cbn; [|done..].
    intros (e & He & ->)%update_entry_inv. exists e. split; [done|].
    unfold upd. cbn [fst snd]. rewrite <-(sum_i64_Ok _ _ _ Hn), (sum_i64_range _ _ _ Hn). done.
Qed.

Lemma add_inline_entry counts id s s' e :
  fold_outcome TableStatistics.add_inline s counts = Ok s' ->
  s !! id = Some e -> TableStatistics.num_inline_rows e = 0%Z ->
  exists e', s' !! id = Some e' /\
    TableStatistics.num_inline_rows e' =
      wrap64 (zsum (snd <$> List.filter (fun c => bool_decide (c.1 = id)) counts)) /\
    TableStatistics.num_rows e' = TableStatistics.num_rows e /\
    TableStatistics.num_data_files e' = TableStatistics.num_data_files e /\
    TableStatistics.num_deleted_rows e' = TableStatistics.num_deleted_rows e.
Proof.
  intros Hfold He Hn.
  pose (upd (c : Z * Z) (e : TableStatistics) :=
    e <| TableStatistics.num_inline_rows ::= fun n => i64_add n c.2 |>).
  apply (fold_entries _ fst upd) with (id := id) (e := e) in Hfold;
    [|intros c s1 s2; by intros ?%update_entry_inv|done].
  rewrite Hfold. eexists. split; [done|]. clear -Hn.
  rewrite <-(Z.add_0_l (zsum _)), <-Hn, <-foldl_i64_add by (by rewrite Hn).
  generalize (List.filter (fun c => bool_decide (c.1 = id)) counts) as l. clear. intros l. revert e.
  induction l as [|c l IH]; intros e; [done|]. apply (IH (upd c e)).
Qed.
Lemma add_deleted_entry counts id s s' e :
  fold_outcome TableStatistics.add_deleted s counts = Ok s' ->
  s !! id = Some e -> TableStatistics.num_deleted_rows e = wrap64 (TableStatistics.num_deleted_rows e) ->
  exists e', s' !! id = Some e' /\
    TableStatistics.num_deleted_rows e' = wrap64 (TableStatistics.num_deleted_rows e +
      zsum (snd <$> List.filter (fun c => bool_decide (c.1 = id)) counts)) /\
    TableStatistics.num_rows e' = TableStatistics.num_rows e /\
    TableStatistics.num_data_files e' = TableStatistics.num_data_files e /\
    TableStatistics.num_inline_rows e' = TableStatistics.num_inline_rows e.
Proof.
  intros Hfold He Hn.
  pose (upd (c : Z * Z) (e : TableStatistics) :=
    e <| TableStatistics.num_deleted_rows ::= fun n => i64_add n c.2 |>).
  apply (fold_entries _ fst upd) with (id := id) (e := e) in Hfold;
    [|intros c s1 s2; by intros ?%update_entry_inv|done].
  rewrite Hfold. eexists. split; [done|]. rewrite <-foldl_i64_add by done. clear.
  generalize (List.filter (fun c => bool_decide (c.1 = id)) counts) as l. intros l. revert e.
  induction l as [|c l IH]; intros e; [done|]. apply (IH (upd c e)).
Qed.
End Entries.

(** ** The queries of both sides, from the rows of the database *)

Lemma zsum_Forall2 {A B} (f : A -> Z) (g : B -> Z) l k :
  Forall2 (fun a b => f a = g b) l k -> zsum (f <$> l) = zsum (g <$> k).
Proof. induction 1 as [|a b l k H _ IH]; [done|]. by rewrite !fmap_cons, !zsum_cons, H, IH. Qed.
Lemma filter_Forall2 {A B} (p : A -> bool) (q : B -> bool) l k :
  Forall2 (fun a b => p a = q b) l k -> length (List.filter p l) = length (List.filter q k).
Proof. induction 1 as [|a b l k H _ IH]; cbn; [done|]. rewrite H. destruct (q b); cbn; by rewrite IH. Qed.
Lemma length_bind {A B} (f : A -> list B) l :
  Z.of_nat (length (l ≫= f)) = zsum ((fun a => Z.of_nat (length (f a))) <$> l).
Proof. induction l as [|a l IH]; [done|]. rewrite bind_cons, fmap_cons, length_app, zsum_cons, <-IH. lia. Qed.
Lemma zsum_length {A} (l : list A) : zsum ((fun _ => 1%Z) <$> l) = Z.of_nat (length l).
Proof. induction l as [|x l IH]; [done|]. rewrite fmap_cons, zsum_cons, IH. cbn. lia. Qed.
Lemma zsum_filter {A} (p : A -> bool) (f : A -> Z) l :
  (forall x, x ∈ l -> p x = false -> f x = 0%Z) -> zsum (f <$> List.filter p l) = zsum (f <$> l).
Proof.
  induction l as [|x l IH]; intros Hz; [done|]. rewrite fmap_cons, zsum_cons. cbn [List.filter].
  rewrite <-IH by (intros y Hy; apply Hz; by right).
  destruct (p x) eqn:Hp; [by rewrite fmap_cons, zsum_cons|]. rewrite (Hz x (list_elem_of_here _ _) Hp). lia.
Qed.

Section Queries.
Context `{EXT : External} `{CMP : !SqlCompare} `{ENGINE : !SqlEngine} `{HASH : HashOrder}.

Lemma select_rows_of table cond db rows :
  select table cond db = Ok rows ->
  is_Some (db !! table) /\ rows ≡ₚ List.filter (holds cond) (rows_of db table).
Proof. intros (t & Ht & Hp)%select_rows. unfold rows_of. rewrite Ht. by eauto. Qed.
Lemma filter_true {A} (l : list A) : List.filter (fun _ => true) l = l.
Proof. induction l as [|x l IH]; cbn; congruence. Qed.
Lemma select_all_of table db rows :
  select table any_row db = Ok rows -> is_Some (db !! table) /\ rows ≡ₚ rows_of db table.
Proof.
  intros [? Hp]%select_rows_of. split; [done|]. rewrite Hp.
  rewrite (filter_bool_ext _ (fun _ => true)); [by rewrite filter_true|done].
Qed.

(** The rows of a table that a snapshot sees *)
Definition visible_count (n : Z) (db : Db) (table : string) : Z :=
  Z.of_nat (length (List.filter (row_visible n) (rows_of db table))).

Lemma count_inline_inv n t db c :
  TableStatistics.count_inline n t db = Ok c ->
  c = (DucklakeInlinedDataTables.table_id t, visible_count n db (DucklakeInlinedDataTables.table_name t)).
Proof.
  unfold TableStatistics.count_inline. intros (rows & Hrows & [= <-])%outcome_bind_Ok.
  apply select_all_of in Hrows as [_ Hp]. unfold visible_count. by rewrite Hp.
Qed.

(** What was deleted inline from the visible data files of a table *)
Definition deleted_before (n : Z) (r : row) : bool := sql_le (field "begin_snapshot" r) (to_sql n).
Lemma count_inline_deletes_inv n id db c :
  TableStatistics.count_inline_deletes n id db = Ok c ->
  c = (id, zsum ((fun r => Z.of_nat (length (List.filter
      (fun f => sql_eq (field "file_id" r) (field "data_file_id" f))
      (List.filter (row_visible n) (List.filter (of_id id) (rows_of db (TABLE DucklakeDataFile))))))) <$>
    List.filter (deleted_before n) (rows_of db (DucklakeInlinedDelete_table_name id)))).
Proof.
  unfold TableStatistics.count_inline_deletes.
  intros (deletes & [_ Hd]%select_all_of & H)%outcome_bind_Ok.
  apply outcome_bind_Ok in H as (files & [_ Hf]%select_rows_of & [= <-]).
  f_equal. rewrite length_bind, Hd. f_equal. apply list_fmap_ext. intros i r _. f_equal. by rewrite Hf.
Qed.

Lemma chunked_counts (queries : list (Db -> result (Z * Z))) db counts :
  TableStatistics.fetch_counts queries db = Ok counts -> Forall2 (fun q c => q db = Ok c) queries counts.
Proof.
  unfold TableStatistics.fetch_counts. intros (chunks & Hc%map_outcome_Forall2 & [= <-])%outcome_bind_Ok.
  rewrite <-(chunks_concat (length queries) TableStatistics.BATCH_SIZE queries) at 1;
    [|unfold TableStatistics.BATCH_SIZE; lia|done].
  induction Hc as [|chunk out chunks outs H%map_outcome_Forall2 _ IH]; [done|]. by apply Forall2_app.
Qed.

(** The count of one table among the counts of several *)
Lemma inline_counts n db inline counts id :
  TableStatistics.fetch_counts (TableStatistics.count_inline n <$> inline) db = Ok counts ->
  zsum (snd <$> List.filter (fun c => bool_decide (c.1 = id)) counts) =
  zsum ((fun t => visible_count n db (DucklakeInlinedDataTables.table_name t)) <$>
    List.filter (fun t => bool_decide (DucklakeInlinedDataTables.table_id t = id)) inline).
Proof.
  intros Hc%chunked_counts. apply Forall2_fmap_l in Hc.
  induction Hc as [|t c inline counts H%count_inline_inv _ IH]; [done|]. subst c. cbn [List.filter fst].
  case_bool_decide; [|done]. by rewrite !fmap_cons, !zsum_cons, IH.
Qed.
Lemma delete_counts n db ids counts id :
  NoDup ids ->
  TableStatistics.fetch_counts (TableStatistics.count_inline_deletes n <$> ids) db = Ok counts ->
  zsum (snd <$> List.filter (fun c => bool_decide (c.1 = id)) counts) =
  if decide (id ∈ ids) then zsum ((fun r => Z.of_nat (length (List.filter
      (fun f => sql_eq (field "file_id" r) (field "data_file_id" f))
      (List.filter (row_visible n) (List.filter (of_id id) (rows_of db (TABLE DucklakeDataFile))))))) <$>
    List.filter (deleted_before n) (rows_of db (DucklakeInlinedDelete_table_name id))) else 0%Z.
Proof.
  intros Hnd Hc%chunked_counts. apply Forall2_fmap_l in Hc. revert Hnd.
  induction Hc as [|i c ids counts H%count_inline_deletes_inv _ IH]; intros Hnd; [done|].
  apply NoDup_cons in Hnd as [Hi Hnd]. specialize (IH Hnd). subst c. cbn [List.filter fst].
  case_bool_decide as Hid.
  - subst i. rewrite fmap_cons, zsum_cons, IH, (decide_False (P := id ∈ ids)) by done.
    rewrite decide_True by (by left). apply Z.add_0_r.
  - rewrite IH. destruct (decide (id ∈ ids)) as [Hin|Hin].
    + by rewrite decide_True by (by right).
    + by rewrite decide_False by (by intros [?|?]%elem_of_cons).
Qed.

(** ** The totals of one table, from the rows of the database *)

Definition visible_of (E : Type) `{!Entity E} (n id : Z) (db : Db) : list row :=
  List.filter (row_visible n) (List.filter (of_id id) (rows_of db (TABLE E))).
Definition matching (key key' : string) (partners : list row) (r : row) : Z :=
  Z.of_nat (length (List.filter (fun f => sql_eq (field key r) (field key' f)) partners)).

(** Deletions a table's files know, and deletions stored inline *)
Definition file_deletions (n id : Z) (db : Db) : Z :=
  zsum ((fun d => weight "delete_count" d * matching "data_file_id" "data_file_id"
      (List.filter (row_visible n) (rows_of db (TABLE DucklakeDataFile))) d)%Z <$>
    visible_of DucklakeDeleteFile n id db).
Definition inlined_deletions (n id : Z) (db : Db) : Z :=
  zsum (matching "file_id" "data_file_id" (visible_of DucklakeDataFile n id db) <$>
    List.filter (deleted_before n) (rows_of db (DucklakeInlinedDelete_table_name id))).

Lemma own_rows_perm id rows rows' :
  List.filter (of_id id) rows ≡ₚ rows' -> (forall r, r ∈ rows' -> field "table_id" r = SInt id) -> own_rows id rows.
Proof.
  intros Hp Hr r Hin Hid. apply Hr. rewrite <-Hp. by apply elem_of_filter_bool.
Qed.
Lemma of_table_perm (E : Type) `{!Entity E} id db rows :
  Scan.of_table E id db = Ok rows -> rows ≡ₚ List.filter (of_id id) (rows_of db (TABLE E)).
Proof. by intros [_ ?]%select_rows_of. Qed.

Lemma initial_entry ids id (e : Z -> TableStatistics) :
  id ∈ ids -> (list_to_map ((fun i => (i, e i)) <$> ids) : gmap Z TableStatistics) !! id = Some (e id).
Proof.
  induction ids as [|i ids IH]; [by intros ?%not_elem_of_nil|]. intros Hin.
  rewrite fmap_cons. cbn [list_to_map foldr fst snd]. destruct (decide (i = id)) as [->|Hi].
  - apply lookup_insert_eq.
  - unfold uncurry. rewrite lookup_insert_ne by done. apply IH. by apply elem_of_cons in Hin as [?|?].
Qed.

Lemma inner_join_elem key rows partners r : r ∈ Scan.inner_join key rows partners -> r ∈ rows.
Proof.
  unfold Scan.inner_join. intros (r' & Hr & Hin)%list_elem_of_bind.
  by apply list_elem_of_fmap in Hr as (a & -> & _).
Qed.

(** The two totals of deletions *)
Lemma deletes_total n t ids db s s' e delete_rows all_files :
  t ∈ ids -> TableStatistics.of_tables DucklakeDeleteFile ids db = Ok delete_rows ->
  visible_rows DucklakeDataFile n db = Ok all_files ->
  (forall r, r ∈ visible_of DucklakeDeleteFile n t db -> field "table_id" r = SInt t) ->
  fold_outcome TableStatistics.set_deletes s (TableStatistics.group_by_table
    (Scan.inner_join "data_file_id" (List.filter (row_visible n) delete_rows) all_files)) = Ok s' ->
  s !! t = Some e -> TableStatistics.num_deleted_rows e = 0%Z ->
  exists e', s' !! t = Some e' /\
    TableStatistics.num_deleted_rows e' = wrap64 (file_deletions n t db) /\
    TableStatistics.num_rows e' = TableStatistics.num_rows e /\
    TableStatistics.num_data_files e' = TableStatistics.num_data_files e /\
    TableStatistics.num_inline_rows e' = TableStatistics.num_inline_rows e.
Proof.
  intros Hin Hdr Haf Hown Hfold He Hz.
  pose proof (of_tables_filter _ _ _ _ _ (row_visible n) Hin Hdr) as Hp.
  destruct (deletes_entry _ t _ _ _ ltac:(intros r Hr Hid; apply Hown; unfold visible_of; rewrite <-Hp;
    apply elem_of_filter_bool; split; [by eapply inner_join_elem|done]) Hfold He Hz)
    as (e' & He' & Hd & Hrest).
  exists e'. split; [done|]. split; [|done]. rewrite Hd. f_equal.
  rewrite inner_join_filter, inner_join_sum. unfold file_deletions.
  etransitivity; [apply zsum_perm, fmap_Permutation, Hp|]. fold (visible_of DucklakeDeleteFile n t db).
  f_equal. apply list_fmap_ext. intros i d _. unfold matching. do 2 f_equal.
  apply outcome_fmap_Ok in Haf as (rows & [_ Hr]%select_all_of & ->). by rewrite Hr.
Qed.

Lemma inline_deletes_total n t ids db (s s' : gmap Z TableStatistics) e :
  NoDup ids -> t ∈ ids ->
  (if existsb (fun kv => (0 <? TableStatistics.num_data_files kv.2)%Z) (map_to_list s) then
     counts ← TableStatistics.fetch_counts (TableStatistics.count_inline_deletes n <$> List.filter (fun id =>
       match s !! id with
       | Some entry => negb (TableStatistics.num_data_files entry =? 0)%Z &&
           bool_decide (is_Some (db !! DucklakeInlinedDelete_table_name id))
       | None => false
       end) ids) db;
     fold_outcome TableStatistics.add_deleted s counts
   else mret s) = Ok s' ->
  s !! t = Some e -> TableStatistics.num_deleted_rows e = wrap64 (TableStatistics.num_deleted_rows e) ->
  TableStatistics.num_data_files e = Z.of_nat (length (visible_of DucklakeDataFile n t db)) ->
  exists e', s' !! t = Some e' /\
    TableStatistics.num_deleted_rows e' =
      wrap64 (TableStatistics.num_deleted_rows e + inlined_deletions n t db) /\
    TableStatistics.num_rows e' = TableStatistics.num_rows e /\
    TableStatistics.num_data_files e' = TableStatistics.num_data_files e /\
    TableStatistics.num_inline_rows e' = TableStatistics.num_inline_rows e.
Proof.
  intros Hnd Hin Hrun He Hw Hfiles.
  assert (visible_of DucklakeDataFile n t db = [] \/ db !! DucklakeInlinedDelete_table_name t = None ->
    inlined_deletions n t db = 0%Z) as Hnone.
  { unfold inlined_deletions. intros [-> | Hn].
    - unfold matching. cbn [List.filter length]. apply zsum_map_zero.
    - unfold rows_of. by rewrite Hn. }
  destruct (existsb _ _) eqn:Hex.
  - apply outcome_bind_Ok in Hrun as (counts & Hc & Hrun).
    destruct (add_deleted_entry _ t _ _ _ Hrun He Hw) as (e' & He' & Hd & Hrest).
    exists e'. split; [done|]. split; [|done]. rewrite Hd. do 2 f_equal.
    rewrite (delete_counts _ _ _ _ t (filter_bool_NoDup _ _ Hnd) Hc). case_decide as Hf; [done|].
    symmetry. apply Hnone. rewrite elem_of_filter_bool, He in Hf.
    destruct (Z.eqb_spec (TableStatistics.num_data_files e) 0) as [Hz|Hz].
    + left. rewrite Hfiles in Hz. apply nil_length_inv. lia.
    + right. apply eq_None_not_Some. intros Hs. apply Hf. split; [done|]. by rewrite bool_decide_true.
  - injection Hrun as <-. exists e. split; [done|]. split; [|done].
    rewrite Hnone, Z.add_0_r; [done|]. left. rewrite <-not_true_iff_false, existsb_exists in Hex.
    apply nil_length_inv. destruct (decide (length (visible_of DucklakeDataFile n t db) = 0)) as [|Hl]; [done|].
    destruct Hex. exists (t, e). split; [by apply list_elem_of_In, elem_of_map_to_list|].
    apply Z.ltb_lt. cbn. lia.
Qed.

Lemma inline_total n t ids db inline_rows inline inlined counts :
  t ∈ ids -> TableStatistics.of_tables DucklakeInlinedDataTables ids db = Ok inline_rows ->
  Tx.decode_rows inline_rows = Ok inline ->
  (rows ← Scan.of_table DucklakeInlinedDataTables t db; Tx.decode_rows rows) = Ok inlined ->
  TableStatistics.fetch_counts (TableStatistics.count_inline n <$> inline) db = Ok counts ->
  zsum (snd <$> List.filter (fun c => bool_decide (c.1 = t)) counts) =
  zsum ((fun t => visible_count n db (DucklakeInlinedDataTables.table_name t)) <$> inlined).
Proof.
  intros Hin Hrows Hinline (own & [_ Hown]%select_rows_of & Hinlined)%outcome_bind_Ok Hc.
  rewrite (inline_counts _ _ _ _ t Hc). apply zsum_perm, fmap_Permutation.
  pose proof (of_tables_filter _ _ _ _ _ (fun _ => true) Hin Hrows) as Hp. rewrite !filter_true in Hp.
  apply (decode_perm (List.filter (of_id t) inline_rows) own); [by rewrite Hp|..|done].
  apply (decode_filter (of_id t)); [|done]. intros r e He%decoded_inlined_table.
  unfold of_id. rewrite He, sql_eq_int. by destruct (Z.eqb_spec (DucklakeInlinedDataTables.table_id e) t);
    [rewrite bool_decide_true|rewrite bool_decide_false].
Qed.

Lemma load_statistics_entry n t ids db m inlined :
  t ∈ ids -> NoDup ids -> TableStatistics.load_statistics ids n db = Ok m ->
  (rows ← Scan.of_table DucklakeInlinedDataTables t db; Tx.decode_rows rows) = Ok inlined ->
  (forall r, r ∈ visible_of DucklakeDataFile n t db -> field "table_id" r = SInt t) ->
  (forall r, r ∈ visible_of DucklakeDeleteFile n t db -> field "table_id" r = SInt t) ->
  exists st, m !! t = Some st /\
    TableStatistics.num_data_files st = Z.of_nat (length (visible_of DucklakeDataFile n t db)) /\
    TableStatistics.num_inline_rows st =
      wrap64 (zsum ((fun t => visible_count n db (DucklakeInlinedDataTables.table_name t)) <$> inlined)) /\
    TableStatistics.num_deleted_rows st =
      wrap64 (wrap64 (file_deletions n t db) + inlined_deletions n t db) /\
    TableStatistics.num_rows st = i64_add
      (zsum (weight "record_count" <$> visible_of DucklakeDataFile n t db))
      (wrap64 (TableStatistics.num_inline_rows st - TableStatistics.num_deleted_rows st)).
Proof.
  intros Hin Hnd Hload Hinlined Hfiles Hdeletes. unfold TableStatistics.load_statistics in Hload. cbv zeta in Hload.
  apply outcome_bind_Ok in Hload as (file_rows & Hfr & Hload).
  apply outcome_bind_Ok in Hload as (delete_rows & Hdr & Hload).
  apply outcome_bind_Ok in Hload as (all_files & Haf & Hload).
  apply outcome_bind_Ok in Hload as (inline_rows & Hir & Hload).
  apply outcome_bind_Ok in Hload as (inline & Hi & Hload).
  apply outcome_bind_Ok in Hload as (s1 & H1 & Hload).
  apply outcome_bind_Ok in Hload as (s2 & H2 & Hload).
  apply outcome_bind_Ok in Hload as (counts & Hc & Hload).
  apply outcome_bind_Ok in Hload as (s3 & H3 & Hload).
  apply outcome_bind_Ok in Hload as (s4 & H4 & Hload). injection Hload as <-.
  pose proof (of_tables_filter _ _ _ _ _ (row_visible n) Hin Hfr) as Hp.
  destruct (files_entry _ t _ _ _ (own_rows_perm _ _ _ Hp Hfiles) H1
    (initial_entry ids t _ Hin) eq_refl eq_refl) as (e1 & He1 & Hr1 & Hf1 & Hi1 & Hd1).
  destruct (deletes_total n t ids _ _ _ _ _ _ Hin Hdr Haf Hdeletes H2 He1 Hd1)
    as (e2 & He2 & Hd2 & Hr2 & Hf2 & Hi2).
  destruct (add_inline_entry _ t _ _ _ H3 He2 ltac:(by rewrite Hi2, Hi1))
    as (e3 & He3 & Hi3 & Hr3 & Hf3 & Hd3).
  assert (Z.of_nat (length (List.filter (of_id t) (List.filter (row_visible n) file_rows))) =
    Z.of_nat (length (visible_of DucklakeDataFile n t db))) as Hlen by (by rewrite Hp).
  destruct (inline_deletes_total n t ids _ _ _ _ Hnd Hin H4 He3
    ltac:(rewrite Hd3, Hd2; symmetry; apply wrap64_congruent) ltac:(by rewrite Hf3, Hf2, Hf1))
    as (e4 & He4 & Hd4 & Hr4 & Hf4 & Hi4).
  exists (TableStatistics.net_rows e4). rewrite lookup_fmap, He4. split; [done|].
  unfold TableStatistics.net_rows. cbn. split_and!.
  - by rewrite Hf4, Hf3, Hf2, Hf1.
  - rewrite Hi4, Hi3. f_equal. by eapply inline_total.
  - by rewrite Hd4, Hd3, Hd2.
  - rewrite Hr4, Hr3, Hr2, Hr1. f_equal. by apply zsum_perm, fmap_Permutation.
Qed.
End Queries.

(** ** What a scan gives *)

Lemma st_map_Ok {S E A B} (f : A -> stateful S E B) l ys s s' :
  st_map f l s = (Ok ys, s') -> Forall2 (fun x y => exists s1 s2, f x s1 = (Ok y, s2)) l ys.
Proof.
  revert ys s. induction l as [|x l IH]; intros ys s; cbn [st_map]; [by intros [= <- <-]|].
  intros (y & s1 & Hx & (ys' & s2 & Hl & [= <- <-])%bind_Ok)%bind_Ok.
  constructor; [by eauto|by eapply IH].
Qed.
Lemma st_lift_Ok {S E A} (m : outcome E A) (s s' : S) a : st_lift m s = (Ok a, s') -> m = Ok a /\ s' = s.
Proof. by intros [= -> ->]. Qed.

Section ScanParts.
Context `{EXT : External} `{CMP : !SqlCompare} `{ENGINE : !SqlEngine} `{ENG : !RegexEngine}
  `{TXT : !ValueText} `{HASH : HashOrder} `{ERR : !DatabaseErrors} `{FMT : !ScanFormats}.
Context (epoch : DateTimeUtc).

Lemma batch_rows id n schema t p db self self' b :
  Scan.read_inlined_data id n schema t p db self = (Ok b, self') ->
  Z.of_nat (num_rows b) = visible_count n db (DucklakeInlinedDataTables.table_name t).
Proof.
  unfold Scan.read_inlined_data. intros (c & s1 & _ & [H _]%st_lift_Ok)%bind_Ok.
  apply outcome_bind_Ok in H as (r & _ & H). apply outcome_bind_Ok in H as (schema' & _ & H).
  apply outcome_bind_Ok in H as (rows & Hrows & H). apply outcome_bind_Ok in H as (batch & Hb & Hm).
  rewrite (match_with_initial_defaults_rows _ _ _ Hm), (decode_batch_rows _ _ _ Hb).
  unfold Scan.build_inlined_data_query in Hrows.
  apply outcome_bind_Ok in Hrows as (all & [_ Hp]%select_all_of & [= <-]).
  unfold visible_count. by rewrite length_fmap, sort_by_key_perm, Hp.
Qed.

Lemma file_counts path dtypes stats deletes ideletes f out :
  Scan.scan_data_file path dtypes stats (group_map_by DucklakeDeleteFile.data_file_id deletes)
    (group_map_by DucklakeInlinedDelete.file_id ideletes) f = Ok out ->
  DataFileStatistics.num_rows (ScanDataFile.statistics out) = as_usize (DucklakeDataFile.record_count f) /\
  congruent (zsum (ScanDeleteFile.num_deletes <$> ScanDataFile.delete_files out))
    (zsum ((fun d => default 0%Z (DucklakeDeleteFile.delete_count d)) <$> List.filter (fun d =>
      bool_decide (DucklakeDeleteFile.data_file_id d = DucklakeDataFile.data_file_id f)) deletes)) /\
  length (default [] (ScanDataFile.inline_deletes out)) = length (List.filter (fun d =>
    bool_decide (DucklakeInlinedDelete.file_id d = DucklakeDataFile.data_file_id f)) ideletes).
Proof.
  unfold Scan.scan_data_file. cbv zeta. intros ([file_path statistics] & Hs & H)%outcome_bind_Ok.
  apply outcome_bind_Ok in H as (out_deletes & Hd & [= <-]). cbn.
  rewrite group_map_by_lookup in Hd. split_and!.
  - unfold Scan.parse_data_file in Hs. apply outcome_bind_Ok in Hs as (? & _ & Hs).
    by apply outcome_bind_Ok in Hs as (? & _ & [= _ <-]).
  - apply map_outcome_Forall2 in Hd. induction Hd as [|d o ds os Ho _ IH]; [done|].
    rewrite !fmap_cons, !zsum_cons, IH. f_equiv. unfold Scan.parse_delete_file in Ho. case_decide; [|done].
    apply outcome_bind_Ok in Ho as (? & _ & [= <-]). apply as_usize_congruent.
  - rewrite <-group_map_by_lookup. by destruct (group_map_by _ ideletes !! _); cbn; rewrite ?length_fmap.
Qed.

Lemma scan_parts id p path db self s scan self' :
  Process.snapshots self !! p = Some s ->
  Scan.scan_table_inner epoch id p path db self = (Ok scan, self') ->
  let n := SnapshotInfo.id (Snapshot.info s) in
  exists files deletes inlined ideletes batches dtypes stats,
    (rows ← Scan.build_data_files_query id n db; Tx.decode_rows rows) = Ok files /\
    (rows ← Scan.build_delete_files_query id n db; Tx.decode_rows rows) = Ok deletes /\
    (rows ← Scan.build_inlined_data_tables_query id db; Tx.decode_rows rows) = Ok inlined /\
    Scan.fetch_inlined_deletes id n db = Ok ideletes /\
    Forall2 (fun t b => Z.of_nat (num_rows b) = visible_count n db (DucklakeInlinedDataTables.table_name t))
      inlined batches /\
    Forall2 (fun f out => Scan.scan_data_file path dtypes stats
        (group_map_by DucklakeDeleteFile.data_file_id deletes)
        (group_map_by DucklakeInlinedDelete.file_id ideletes) f = Ok out)
      files (ScanResult.data_files (TableScan.result scan)) /\
    ScanResult.inline_data (TableScan.result scan) = List.filter (fun b => Nat.ltb 0 (num_rows b)) batches.
Proof.
  intros Hp Hrun n. unfold Scan.scan_table_inner in Hrun.
  apply bind_Ok in Hrun as (info & s1 & Hinfo & Hrun).
  assert (info = Snapshot.info s) as ->.
  { unfold SnapshotCache.info_of, mbind, stateful_bind, st_get, SnapshotCache.snapshot in Hinfo.
    rewrite Hp in Hinfo. by injection Hinfo as <- <-. }
  cbv zeta in Hrun. fold n in Hrun.
  apply bind_Ok in Hrun as (c & s2 & _ & Hrun).
  apply bind_Ok in Hrun as (r & s3 & _ & Hrun).
  apply bind_Ok in Hrun as (dtypes & s4 & _ & Hrun).
  apply bind_Ok in Hrun as (schema & s5 & _ & Hrun).
  apply bind_Ok in Hrun as (files & s6 & [Hfiles _]%st_lift_Ok & Hrun).
  apply bind_Ok in Hrun as (stats & s7 & _ & Hrun).
  apply bind_Ok in Hrun as (deletes & s8 & [Hdeletes _]%st_lift_Ok & Hrun).
  apply bind_Ok in Hrun as (inlined & s9 & [Hinlined _]%st_lift_Ok & Hrun).
  apply bind_Ok in Hrun as (ideletes & s10 & [Hideletes _]%st_lift_Ok & Hrun).
  apply bind_Ok in Hrun as (snapshots & s11 & Hsn%st_map_Ok & Hrun).
  apply bind_Ok in Hrun as (batches & s12 & Hb%st_map_Ok & Hrun).
  apply bind_Ok in Hrun as (out & s13 & [Hout _]%st_lift_Ok & [= <- <-]).
  apply Forall2_length in Hsn. apply map_outcome_Forall2 in Hout.
  exists files, deletes, inlined, ideletes, batches, dtypes,
    (group_map_by DucklakeFileColumnStats.data_file_id stats).
  split_and!; [done..| |done|done].
  clear -Hb Hsn. revert snapshots batches Hsn Hb.
  induction inlined as [|t inlined IH]; intros [|q snapshots] batches Hlen Hb; try discriminate.
  - by inversion_clear Hb.
  - cbn [zip zip_with] in Hb. inversion Hb as [|? b ? bs (? & ? & Hread) Hrest]; subst.
    constructor; [by eapply batch_rows|]. apply (IH snapshots); [by injection Hlen|done].
Qed.
End ScanParts.

(** ** The totals of a scan *)

Section Agreement.
Context `{EXT : External} `{CMP : !SqlCompare} `{ENGINE : !SqlEngine} `{ENG : !RegexEngine}
  `{TXT : !ValueText} `{HASH : HashOrder} `{ERR : !DatabaseErrors} `{FMT : !ScanFormats}.
Context (epoch : DateTimeUtc).

(** The rows of the files, the deletions from them, and the rows stored inline *)
Definition scanned_rows (r : ScanResult.t) : Z :=
  zsum ((fun f => DataFileStatistics.num_rows (ScanDataFile.statistics f)) <$> ScanResult.data_files r).
Definition scanned_deletes (r : ScanResult.t) : Z :=
  zsum ((fun f => zsum (ScanDeleteFile.num_deletes <$> ScanDataFile.delete_files f) +
    Z.of_nat (length (default [] (ScanDataFile.inline_deletes f))))%Z <$> ScanResult.data_files r).
Definition scanned_inline (r : ScanResult.t) : Z :=
  zsum ((fun b => Z.of_nat (num_rows b)) <$> ScanResult.inline_data r).

(** The deletions of a table concern files of the table. *)
Definition deletions_match (n id : Z) (db : Db) : Prop :=
  forall d f, d ∈ visible_of DucklakeDeleteFile n id db ->
    f ∈ List.filter (row_visible n) (rows_of db (TABLE DucklakeDataFile)) ->
    sql_eq (field "data_file_id" d) (field "data_file_id" f) = true -> of_id id f = true.

Lemma filter_swap {A} (p q : A -> bool) l : List.filter p (List.filter q l) = List.filter q (List.filter p l).
Proof.
  induction l as [|x l IH]; [done|]. cbn. destruct (p x) eqn:Hp, (q x) eqn:Hq; cbn; rewrite ?Hp, ?Hq, IH; done.
Qed.

(** The partners of a row, by the identifiers of the decoded rows *)
Lemma matching_decoded {A} key (rows : list row) (files : list DucklakeDataFile) (d : A) (id : A -> Z) r :
  Forall2 (fun r e => from_row r = Some e) rows files -> field key r = SInt (id d) ->
  matching key "data_file_id" rows r =
  Z.of_nat (length (List.filter (fun f => bool_decide (id d = DucklakeDataFile.data_file_id f)) files)).
Proof.
  intros Hf Hr. unfold matching. f_equal. apply filter_Forall2.
  eapply Forall2_impl; [exact Hf|]. intros f e (Hid & _)%decoded_data_file. rewrite Hid, Hr, sql_eq_int.
  by destruct (Z.eqb_spec (id d) (DucklakeDataFile.data_file_id e));
    [rewrite bool_decide_true|rewrite bool_decide_false].
Qed.

Lemma file_deletions_decoded n t db (drows frows : list row) (deletes : list DucklakeDeleteFile)
    (files : list DucklakeDataFile) :
  deletions_match n t db ->
  drows ≡ₚ visible_of DucklakeDeleteFile n t db -> frows ≡ₚ visible_of DucklakeDataFile n t db ->
  Forall2 (fun r e => from_row r = Some e) drows deletes ->
  Forall2 (fun r e => from_row r = Some e) frows files ->
  file_deletions n t db =
  zsum ((fun f => zsum ((fun d => default 0%Z (DucklakeDeleteFile.delete_count d)) <$> List.filter (fun d =>
    bool_decide (DucklakeDeleteFile.data_file_id d = DucklakeDataFile.data_file_id f)) deletes)) <$> files).
Proof.
  intros Hm Hd Hf Hdeletes Hfiles. unfold file_deletions.
  rewrite (zsum_pairs (fun d f => bool_decide (DucklakeDeleteFile.data_file_id d = DucklakeDataFile.data_file_id f))).
  etransitivity; [apply zsum_perm, fmap_Permutation; symmetry; exact Hd|].
  apply zsum_Forall2. apply Forall2_same_length_lookup. split; [by eapply Forall2_length|].
  intros i r d Hr Hde.
  destruct (Forall2_lookup_l _ _ _ _ _ Hdeletes Hr) as (d' & Hd' & He). simplify_eq.
  apply decoded_delete_file in He as (Hid & _ & Hw). rewrite Hw. f_equal.
  rewrite <-(matching_decoded "data_file_id" frows files d DucklakeDeleteFile.data_file_id r Hfiles Hid).
  unfold matching. f_equal. rewrite Hf. unfold visible_of.
  set (p := fun f => sql_eq _ _). rewrite (filter_swap (row_visible n) (of_id t)), (filter_swap p (of_id t)).
  rewrite (filter_bool_all (of_id t)); [done|]. intros f [Hfin Hmatch]%elem_of_filter_bool.
  apply (Hm r f); [|done|done]. rewrite <-Hd.
  by eapply list_elem_of_lookup_2.
Qed.

Lemma inlined_deletions_decoded n t db (drows frows : list row) (deletes : list DucklakeInlinedDelete)
    (files : list DucklakeDataFile) :
  drows ≡ₚ List.filter (deleted_before n) (rows_of db (DucklakeInlinedDelete_table_name t)) ->
  frows ≡ₚ visible_of DucklakeDataFile n t db ->
  Forall2 (fun r e => from_row r = Some e) drows deletes ->
  Forall2 (fun r e => from_row r = Some e) frows files ->
  inlined_deletions n t db =
  zsum ((fun f => Z.of_nat (length (List.filter (fun d =>
    bool_decide (DucklakeInlinedDelete.file_id d = DucklakeDataFile.data_file_id f)) deletes))) <$> files).
Proof.
  intros Hd Hf Hdeletes Hfiles. unfold inlined_deletions.
  transitivity (zsum ((fun f => zsum ((fun _ => 1%Z) <$> List.filter (fun d =>
      bool_decide (DucklakeInlinedDelete.file_id d = DucklakeDataFile.data_file_id f)) deletes)) <$> files));
    [|f_equal; apply list_fmap_ext; intros i f _; apply zsum_length].
  rewrite (zsum_pairs (fun d f => bool_decide (DucklakeInlinedDelete.file_id d = DucklakeDataFile.data_file_id f))).
  etransitivity; [apply zsum_perm, fmap_Permutation; symmetry; exact Hd|].
  apply zsum_Forall2. eapply Forall2_impl; [exact Hdeletes|]. intros r d Hr%decoded_inlined_delete.
  rewrite Z.mul_1_l.
  rewrite <-(matching_decoded "file_id" frows files d DucklakeInlinedDelete.file_id r Hfiles Hr).
  unfold matching. by rewrite Hf.
Qed.

Lemma own_table {E} `{!Entity E} (table_id : E -> Z) n id db rows (l : list E) :
  (forall r e, from_row r = Some e -> field "table_id" r = SInt (table_id e)) ->
  Tx.decode_rows rows = Ok l -> rows ≡ₚ visible_of E n id db ->
  forall x, x ∈ visible_of E n id db -> field "table_id" x = SInt id.
Proof.
  intros Hid Hl Hp x Hx. pose proof Hx as Hx'. rewrite <-Hp in Hx'.
  destruct (decoded_in _ _ _ Hl Hx') as (e & He%Hid & _).
  apply elem_of_filter_bool in Hx as [Hx _]. apply elem_of_filter_bool in Hx as [_ Hof]. unfold of_id in Hof.
  rewrite He, sql_eq_int in *. by apply Z.eqb_eq in Hof as ->.
Qed.

Lemma fetched_deletes t n db ideletes :
  (forall e, select (DucklakeInlinedDelete_table_name t) any_row db = Err e ->
    is_table_not_found_error e = true -> db !! DucklakeInlinedDelete_table_name t = None) ->
  Scan.fetch_inlined_deletes t n db = Ok ideletes ->
  exists rows, rows ≡ₚ List.filter (deleted_before n) (rows_of db (DucklakeInlinedDelete_table_name t)) /\
    Tx.decode_rows rows = Ok ideletes.
Proof.
  intros Hmissing. unfold Scan.fetch_inlined_deletes, Scan.build_inlined_deletes_query.
  destruct (select _ _ _) as [rows|e|] eqn:Hs; cbn [fmap outcome_fmap]; [|destruct (is_table_not_found_error e) eqn:He; [|done]|done].
  - apply select_all_of in Hs as [_ Hp]. intros Hd. exists (List.filter (deleted_before n) rows).
    split; [by rewrite Hp|done].
  - intros [= <-]. exists []. split; [|done]. unfold rows_of. by rewrite (Hmissing e eq_refl He).
Qed.

(** C29: the statistics of a listing are those of the scan. Whatever other tables
    are listed with a table: the aggregate queries count as many data files as the
    scan of the same snapshot returns, as many inlined rows as its batches hold, as
    many deletions as its delete files and inlined deletions make, and as many rows
    as remain (all modulo [2 ^ 64], the width both compute with). The deletions of a
    table concern its own files ([deletions_match]). *)
Theorem statistics_agree_with_scan t ids p path db self s r self' m :
  t ∈ ids -> NoDup ids -> Process.snapshots self !! p = Some s ->
  deletions_match (SnapshotInfo.id (Snapshot.info s)) t db ->
  (forall e, select (DucklakeInlinedDelete_table_name t) any_row db = Err e ->
    is_table_not_found_error e = true -> db !! DucklakeInlinedDelete_table_name t = None) ->
  Scan.scan_table epoch t p path db self = (Ok r, self') ->
  TableStatistics.load_statistics ids (SnapshotInfo.id (Snapshot.info s)) db = Ok m ->
  exists st, m !! t = Some st /\
    TableStatistics.num_data_files st = Z.of_nat (length (ScanResult.data_files r)) /\
    TableStatistics.num_inline_rows st = wrap64 (scanned_inline r) /\
    TableStatistics.num_deleted_rows st = wrap64 (scanned_deletes r) /\
    TableStatistics.num_rows st = wrap64 (scanned_rows r + scanned_inline r - scanned_deletes r).
Proof.
  intros Hin Hnd Hp Hm Hmissing (scan & s1 & Hscan & [= <- _])%bind_Ok Hload.
  set (n := SnapshotInfo.id (Snapshot.info s)) in *.
  destruct (scan_parts epoch t p path db self s scan s1 Hp Hscan)
    as (files & deletes & inlined & ideletes & batches & dtypes & stats & Hfiles & Hdeletes & Hinlined
      & Hideletes & Hb & Hout & Hbatches). fold n in Hfiles, Hdeletes, Hideletes, Hb.
  apply outcome_bind_Ok in Hfiles as (frows & Hf & Hfiles), Hdeletes as (drows & Hd & Hdeletes).
  apply outcome_fmap_Ok in Hf as (frows' & Hf%of_table_perm & ->), Hd as (drows' & Hd%of_table_perm & ->).
  apply (filter_bool_perm (row_visible n)) in Hf, Hd.
  destruct (fetched_deletes _ _ _ _ Hmissing Hideletes) as (irows & Hi & Hidec).
  destruct (load_statistics_entry n t ids db m inlined Hin Hnd Hload Hinlined
    (own_table DucklakeDataFile.table_id n t db _ _ (fun r e H => proj1 (proj2 (decoded_data_file r e H))) Hfiles Hf)
    (own_table DucklakeDeleteFile.table_id n t db _ _ (fun r e H => proj1 (proj2 (decoded_delete_file r e H))) Hdeletes Hd))
    as (st & Hst & Hnf & Hni & Hnd' & Hnr).
  pose proof (decode_rows_inv _ _ Hfiles) as Hfiles'. pose proof (decode_rows_inv _ _ Hdeletes) as Hdeletes'.
  rewrite (file_deletions_decoded n t db _ _ _ _ Hm Hd Hf Hdeletes' Hfiles') in Hnd'.
  rewrite (inlined_deletions_decoded n t db _ _ _ _ Hi Hf (decode_rows_inv _ _ Hidec) Hfiles') in Hnd'.
  assert (TableStatistics.num_inline_rows st = wrap64 (scanned_inline (TableScan.result scan))) as Hinline.
  { rewrite Hni. unfold scanned_inline. rewrite Hbatches, zsum_filter.
    - f_equal. apply zsum_Forall2. eapply Forall2_impl; [exact Hb|]. by intros.
    - intros b _ Hz%Nat.ltb_ge. lia. }
  assert (TableStatistics.num_deleted_rows st = wrap64 (scanned_deletes (TableScan.result scan))) as Hdeleted.
  { rewrite Hnd'. apply congruent_wrap. rewrite wrap64_congruent, <-zsum_map_add. unfold scanned_deletes.
    apply zsum_congruent2. eapply Forall2_impl; [exact Hout|].
    intros f out (_ & Hdel & Hinl)%file_counts. by rewrite Hdel, Hinl. }
  exists st. split; [done|]. split_and!; [|done|done|].
  - rewrite Hnf. rewrite <-(Forall2_length _ _ _ Hout), <-(Forall2_length _ _ _ Hfiles'). by rewrite Hf.
  - rewrite Hnr, Hinline, Hdeleted. apply congruent_wrap. rewrite !wrap64_congruent.
    rewrite Z.add_sub_assoc. f_equiv. f_equiv. unfold scanned_rows.
    transitivity (zsum (weight "record_count" <$> List.filter (row_visible n) frows')).
    { unfold congruent. f_equal. by apply zsum_perm, fmap_Permutation. }
    transitivity (zsum (DucklakeDataFile.record_count <$> files)).
    { unfold congruent. f_equal. apply zsum_Forall2. eapply Forall2_impl; [exact Hfiles'|].
      intros x f (_ & _ & Hc)%decoded_data_file. unfold weight. by rewrite Hc. }
    apply zsum_congruent2. eapply Forall2_impl; [exact Hout|].
    intros f out (Hn & _)%file_counts. rewrite Hn. symmetry. apply as_usize_congruent.
Qed.
End Agreement.

(** ** A table with a data file, deletions of both kinds and inlined rows *)

Definition demo_not_found (e : DucklakeError) : bool :=
  match e with Database _ _ msg => bool_decide (msg = "no such table") | _ => false end.
#[export] Instance demo_errors : DatabaseErrors := {| is_table_not_found_error := demo_not_found |}.
#[export] Program Instance demo_scan_formats : ScanFormats := {|
  decode_batch _ rows := Ok (length rows);
  match_with_initial_defaults batch _ := Ok batch;
|}.
Next Obligation. by intros _ rows batch [= <-]. Qed.
Next Obligation. by intros batch _ batch' [= <-]. Qed.

Definition orders_file : DucklakeDataFile :=
  DucklakeDataFile.mk 10 1 2 None None "a.parquet" true "parquet" 5 (Some 100%Z) None None None None None None.
Definition orders_delete_file : DucklakeDeleteFile :=
  DucklakeDeleteFile.mk 11 1 2 None 10 "b.parquet" true "parquet" (Some 2%Z) None None None None.
Definition orders_inlined_row (id : Z) : row :=
  [("row_id", SInt id); ("begin_snapshot", SInt 2); ("end_snapshot", SNull); ("id", SInt id)].
Definition orders_scanned_db : Db :=
  <["ducklake_data_file" := DbTable.mk (COLUMNS DucklakeDataFile) None [to_row orders_file]]>
  (<["ducklake_delete_file" := DbTable.mk (COLUMNS DucklakeDeleteFile) None [to_row orders_delete_file]]>
  (<["ducklake_inlined_data_1_2" := DbTable.mk ["row_id"; "begin_snapshot"; "end_snapshot"; "id"] None
       [orders_inlined_row 5; orders_inlined_row 6; orders_inlined_row 7]]>
  (<[DucklakeInlinedDelete_table_name 1 := DbTable.mk (COLUMNS DucklakeInlinedDelete) None
       [to_row (DucklakeInlinedDelete.mk 10 0 2)]]> (Client.db orders_client)))).

Definition orders_scan : method Process ScanResult.t :=
  Scan.scan_table (EXT := demo_external) (0%Z : Z) 1 0 (demo_path "data/") orders_scanned_db.

Lemma orders_scan_ok : exists r self', orders_scan orders_process = (Ok r, self').
Proof.
  assert (is_ok (orders_scan orders_process).1 = true) as H by (vm_compute; reflexivity).
  destruct (orders_scan orders_process) as [[r| |] self']; [by exists r, self'|discriminate..].
Qed.
Lemma orders_statistics_ok : exists m st,
  TableStatistics.load_statistics [1; 2]%Z 2 orders_scanned_db = Ok m /\ m !! 1%Z = Some st /\
  TableStatistics.num_rows st = 5%Z.
Proof.
  assert (match TableStatistics.load_statistics [1; 2]%Z 2 orders_scanned_db with
    | Ok m => match m !! 1%Z with Some st => TableStatistics.num_rows st = 5%Z | None => False end
    | _ => False end) as H by (vm_compute; reflexivity).
  destruct (TableStatistics.load_statistics _ _ _) as [m| |]; [|contradiction..].
  destruct (m !! 1%Z) as [st|] eqn:Hst; [|contradiction]. by exists m, st.
Qed.
Lemma orders_snapshot : exists s,
  Process.snapshots orders_process !! 0 = Some s /\ SnapshotInfo.id (Snapshot.info s) = 2%Z.
Proof.
  assert (match Process.snapshots orders_process !! 0 with
    | Some s => SnapshotInfo.id (Snapshot.info s) = 2%Z | None => False end) as H by (vm_compute; reflexivity).
  destruct (Process.snapshots orders_process !! 0) as [s|]; [by exists s|contradiction].
Qed.
Lemma orders_deletions_match : deletions_match 2 1 orders_scanned_db.
Proof.
  assert (forallb (fun d => forallb (fun f =>
      implb (sql_eq (field "data_file_id" d) (field "data_file_id" f)) (of_id 1 f))
    (List.filter (row_visible 2) (rows_of orders_scanned_db (TABLE DucklakeDataFile))))
    (visible_of DucklakeDeleteFile 2 1 orders_scanned_db) = true) as H by (vm_compute; reflexivity).
  rewrite forallb_forall in H. intros d f Hd%list_elem_of_In Hf%list_elem_of_In Heq.
  specialize (H d Hd). rewrite forallb_forall in H. specialize (H f Hf). by rewrite Heq in H.
Qed.
Lemma demo_select_err table cond db e : select table cond db = Err e -> is_Some (db !! table) -> False.
Proof. intros He [t Ht]. cbn in He. unfold demo_select in He. by rewrite Ht in He. Qed.
Lemma orders_deletes_exist :
  is_Some (orders_scanned_db !! DucklakeInlinedDelete_table_name 1).
Proof. apply (bool_decide_unpack _). vm_compute. exact Logic.I. Qed.

Lemma statistics_agree_with_scan_witness : exists r self',
  orders_scan orders_process = (Ok r, self') /\
  wrap64 (scanned_rows r + scanned_inline r - scanned_deletes r) = 5%Z.
Proof.
  destruct orders_scan_ok as (r & self' & Hscan). destruct orders_snapshot as (s & Hs & Hid).
  destruct orders_statistics_ok as (m & st & Hm & Hst & Hrows).
  exists r, self'. split; [exact Hscan|].
  destruct (statistics_agree_with_scan (EXT := demo_external) (0%Z : Z) 1 [1; 2]%Z 0 (demo_path "data/") orders_scanned_db
    orders_process s r self' m) as (st' & Hst' & _ & _ & _ & Hn).
  - by left.
  - repeat constructor; [by intros ?%list_elem_of_singleton|by intros ?%not_elem_of_nil].
  - exact Hs.
  - rewrite Hid. exact orders_deletions_match.
  - intros e He. destruct (demo_select_err _ _ _ _ He orders_deletes_exist).
  - exact Hscan.
  - rewrite Hid. exact Hm.
  - rewrite Hst in Hst'. injection Hst' as <-. rewrite <-Hn. exact Hrows.
Defined.
