(* ===== verification/Upgrades.v ===== *)
(** * Upgrading a catalog ([spec/upgrades/])

    The versions of the format, the statements that lead from one to the next,
    and the upgrade of a catalog: one database transaction per version, the
    recorded version last. *)

From S2P Require Import Prelude Text Types Instances Entities Dialect Database.
From S2P Require Import Load Metadata Persist Connection.

(** A transaction of the pool, which may change the schema with its first statement.
    Whether it can begin and commit may depend on the database. *)
Section InTransaction.
Context `{EXT : External}.
Context (dialect : Dialect) (begin_fails commit_fails : Db -> option DucklakeError).

Definition in_transaction {A} (changes_schema : bool) (m : method Db A) : method Db A := fun db =>
  match begin_fails db with
  | Some e => (Err e, db)
  | None =>
      match m db with
      | (Ok a, db') =>
          match commit_fails db' with
          | Some e => (Err e, left_behind dialect changes_schema db db')
          | None => (Ok a, db')
          end
      | (Err e, db') => (Err e, left_behind dialect changes_schema db db')
      | (Panic, db') => (Panic, left_behind dialect changes_schema db db')
      end
  end.
End InTransaction.

(** ** Statements that change the schema

    [Alter] and the updates that read other tables have constructors of their own. *)

Module Ddl.
Inductive t `{External} : Type :=
  | CreateTable (table : string) (columns : list (string * ColumnType))
  | AddColumn (table column : string) (type : ColumnType) (default : SqlValue)
  | RenameTable (from to : string)
  | DropColumn (table column : string)
  (* [column_id] of partition columns: from the position of a column to its ID *)
  | RankPartitionColumns
  (* the first snapshot of every schema version *)
  | FillSchemaVersions
  | MovePartialMax
  (* the schema versions that began with a table *)
  | FillTableSchemaVersions
  | Plain (s : Statement).
End Ddl.
Abbreviation Ddl := Ddl.t.

(** [CAST(text AS BIGINT)] of the engine *)
Class SqlCast `{External} : Type := { cast_bigint : string -> option Z }.

Section Effects.
Context `{EXT : External} `{CMP : !SqlCompare} `{CAST : !SqlCast}.

Definition alter (table : string) (f : DbTable -> option DbTable) (db : Db) : option Db :=
  t ← db !! table; t' ← f t; Some (<[table := t']> db).

Definition add_column (column : string) (default : SqlValue) (t : DbTable) : option DbTable :=
  if decide (column ∈ DbTable.columns t) then None
  else Some (DbTable.mk (DbTable.columns t ++ [column]) (DbTable.primary_key t)
    ((fun r => r ++ [(column, default)]) <$> DbTable.rows t)).
Definition drop_column (column : string) (t : DbTable) : option DbTable :=
  if decide (column ∈ DbTable.columns t) then
    Some (DbTable.mk (List.filter (fun c => bool_decide (c <> column)) (DbTable.columns t))
      (DbTable.primary_key t)
      (List.filter (fun kv => bool_decide (kv.1 <> column)) <$> DbTable.rows t))
  else None.

(** [ROW_NUMBER() OVER (PARTITION BY table_id ORDER BY column_order)] of the current
    root columns: the column of [table_id] at position [i] has number [i + 1]. *)
Definition ranked (columns : list row) (table_id : SqlValue) (i : Z) : option row :=
  if (i <? 0)%Z then None
  else sort_by_key sql_le (field "column_order") (List.filter (fun c =>
    is_null (field "parent_column" c) && is_null (field "end_snapshot" c) &&
    sql_eq (field "table_id" c) table_id) columns) !! Z.to_nat i.

Definition rank_partition_column (columns : list row) (r : row) : row :=
  match field "column_id" r with
  | SInt i => match ranked columns (field "table_id" r) i with
              | Some c => set_field "column_id" (field "column_id" c) r
              | None => r
              end
  | _ => r
  end.

(** [SELECT MIN(snapshot_id), schema_version .. GROUP BY schema_version] *)
Definition first_snapshots (snapshots : list row) : list row :=
  let ids version := omap (fun r => match field "schema_version" r, field "snapshot_id" r with
    | SInt v, SInt id => if decide (v = version) then Some id else None
    | _, _ => None
    end) snapshots in
  omap (fun version => match ids version with
    | [] => None
    | id :: ids => Some [("begin_snapshot", SInt (foldr Z.min id ids)); ("schema_version", SInt version)]
    end)
    (remove_dups (omap (fun r => match field "schema_version" r with SInt v => Some v | _ => None end) snapshots)).

(** Rows without [partial_max:] in [partial_file_info], those [REPLACE] does not
    change, stay as they are. *)
Definition move_partial_max (r : row) : option row :=
  match field "partial_file_info" r with
  | SText info =>
      if decide (replace "partial_max:" "" info = info) then Some r
      else z ← cast_bigint (replace "partial_max:" "" info); Some (set_field "partial_max" (SInt z) r)
  | _ => Some r
  end.

(** A version belongs to a table whose [begin_snapshot] lies between the
    [begin_snapshot] and the [begin_snapshot] of the table. *)
Definition table_schema_versions (versions tables : list row) : list row :=
  List.filter (fun sv => is_null (field "table_id" sv)) versions ≫= fun sv =>
    (fun t => [("table_id", field "table_id" t); ("begin_snapshot", field "begin_snapshot" t);
               ("schema_version", field "schema_version" sv)]) <$>
    List.filter (fun t => sql_le (field "begin_snapshot" t) (field "begin_snapshot" sv) &&
      sql_le (field "begin_snapshot" sv) (field "begin_snapshot" t)) tables.

Definition append_rows (rows : list row) (t : DbTable) : option DbTable :=
  Some (t <| DbTable.rows ::= fun old => old ++ rows |>).
Definition map_rows (f : row -> option row) (t : DbTable) : option DbTable :=
  rows ← mapM f (DbTable.rows t); Some (t <| DbTable.rows := rows |>).

Definition ddl_effect (s : Ddl) (db : Db) : option Db :=
  match s with
  | Ddl.CreateTable table columns =>
      match db !! table with
      | Some _ => None
      | None => Some (<[table := DbTable.mk columns.*1 None []]> db)
      end
  | Ddl.AddColumn table column _ default => alter table (add_column column default) db
  | Ddl.RenameTable from to =>
      t ← db !! from;
      match db !! to with Some _ => None | None => Some (<[to := t]> (delete from db)) end
  | Ddl.DropColumn table column => alter table (drop_column column) db
  | Ddl.RankPartitionColumns =>
      columns ← db !! "ducklake_column";
      alter "ducklake_partition_column"
        (map_rows (fun r => Some (rank_partition_column (DbTable.rows columns) r))) db
  | Ddl.FillSchemaVersions =>
      snapshots ← db !! "ducklake_snapshot";
      alter "ducklake_schema_versions" (append_rows (first_snapshots (DbTable.rows snapshots))) db
  | Ddl.MovePartialMax => alter "ducklake_data_file" (map_rows move_partial_max) db
  | Ddl.FillTableSchemaVersions =>
      versions ← db !! "ducklake_schema_versions";
      tables ← db !! "ducklake_table";
      alter "ducklake_schema_versions"
        (append_rows (table_schema_versions (DbTable.rows versions) (DbTable.rows tables))) db
  | Ddl.Plain s => effect s db
  end.
End Effects.

(** The engine runs such a statement with its effect, or fails. *)
Class UpgradeEngine `{External} `{!SqlCompare} `{!SqlCast} : Type := {
  run_ddl : Ddl -> Db -> result Db;
  run_ddl_effect s db db' : run_ddl s db = Ok db' -> ddl_effect s db = Some db';
}.

(** ** Versions ([DucklakeVersion]) *)

Definition SUPPORTED_VERSIONS : list string := ["0.1"; "0.2"; "0.3"; "0.4"; "1.0"].
Definition LATEST_VERSION : string := "1.0".

Module DucklakeVersion.
Record t : Type := mk { major : Z; minor : Z }.

Definition from_str `{External} (s : string) : result t :=
  match split_chars "."%char (chars s) with
  | [major; minor] =>
      major ← ok_or (InvalidVersion s) (u64_from_str (of_chars major));
      minor ← ok_or (InvalidVersion s) (u64_from_str (of_chars minor));
      mret (mk major minor)
  | _ => Err (InvalidVersion s)
  end.

(** The derived order *)
Definition ltb (a b : t) : bool :=
  (major a <? major b)%Z || ((major a =? major b)%Z && (minor a <? minor b)%Z).
End DucklakeVersion.
Abbreviation DucklakeVersion := DucklakeVersion.t.

(** ** Upgrades *)

Module Upgrades.
Inductive t : Type := V0_2 | V0_3 | V0_4 | V1_0.
Definition iter : list t := [V0_2; V0_3; V0_4; V1_0].
Definition version (u : t) : string :=
  match u with V0_2 => "0.2" | V0_3 => "0.3" | V0_4 => "0.4" | V1_0 => "1.0" end.

Section Upgrades.
Context `{EXT : External} `{CMP : !SqlCompare} `{CAST : !SqlCast} `{UPG : !UpgradeEngine}.
Context (dialect : Dialect) (begin_fails commit_fails : Db -> option DucklakeError).

Definition exec (s : Ddl) : method Db unit :=
  fun db => match run_ddl s db with
            | Ok db' => (Ok tt, db')
            | Err e => (Err e, db)
            | Panic => (Panic, db)
            end.

Abbreviation str := (Dialect.column_type_string dialect).
Abbreviation int := (Dialect.column_type_i64 dialect).
Abbreviation bool := (Dialect.column_type_bool dialect).

(** *** 0.2 *)

Definition v0_2_update_schema : list Ddl := [
  Ddl.AddColumn "ducklake_schema" "path" str (SText "");
  Ddl.AddColumn "ducklake_schema" "path_is_relative" bool (SBool true);
  Ddl.AddColumn "ducklake_table" "path" str (SText "");
  Ddl.AddColumn "ducklake_table" "path_is_relative" bool (SBool true);
  Ddl.AddColumn "ducklake_metadata" "scope" str SNull;
  Ddl.AddColumn "ducklake_metadata" "scope_id" int SNull;
  Ddl.AddColumn "ducklake_data_file" "mapping_id" int SNull;
  Ddl.CreateTable "ducklake_column_mapping" [("mapping_id", int); ("table_id", int); ("type", str)];
  Ddl.CreateTable "ducklake_name_mapping" [("mapping_id", int); ("column_id", int);
    ("source_name", str); ("target_field_id", int); ("parent_column", int)]].
Definition v0_2_upgrade_data : list Ddl := [Ddl.RankPartitionColumns].

(** *** 0.3 *)

Definition v0_3_update_schema : list Ddl := [
  Ddl.AddColumn "ducklake_name_mapping" "is_partition" bool (SBool false);
  Ddl.AddColumn "ducklake_snapshot_changes" "author" str SNull;
  Ddl.AddColumn "ducklake_snapshot_changes" "commit_message" str SNull;
  Ddl.AddColumn "ducklake_snapshot_changes" "commit_extra_info" str SNull;
  Ddl.CreateTable "ducklake_schema_versions" [("begin_snapshot", int); ("schema_version", int)];
  Ddl.RenameTable "ducklake_file_column_statistics" "ducklake_file_column_stats";
  Ddl.AddColumn "ducklake_file_column_stats" "extra_stats" str SNull;
  Ddl.AddColumn "ducklake_table_column_stats" "extra_stats" str SNull].
Definition v0_3_upgrade_data : list Ddl := [Ddl.FillSchemaVersions].

(** *** 0.4 *)

Definition v0_4_update_schema : list Ddl := [
  Ddl.AddColumn "ducklake_column" "default_value_type" str (SText "literal");
  Ddl.AddColumn "ducklake_column" "default_value_dialect" str SNull;
  Ddl.AddColumn "ducklake_data_file" "partial_max" int SNull;
  Ddl.AddColumn "ducklake_delete_file" "partial_max" int SNull;
  Ddl.AddColumn "ducklake_schema_versions" "table_id" int SNull;
  Ddl.CreateTable "ducklake_macro" [("schema_id", int); ("macro_id", int); ("macro_name", str);
    ("begin_snapshot", int); ("end_snapshot", int)];
  Ddl.CreateTable "ducklake_macro_impl" [("macro_id", int); ("impl_id", int); ("dialect", str);
    ("sql", str); ("type", str)];
  Ddl.CreateTable "ducklake_macro_parameters" [("macro_id", int); ("impl_id", int);
    ("column_id", int); ("parameter_name", str); ("parameter_type", str); ("default_value", str);
    ("default_value_type", str)];
  Ddl.CreateTable "ducklake_sort_info" [("sort_id", int); ("table_id", int);
    ("begin_snapshot", int); ("end_snapshot", int)];
  Ddl.CreateTable "ducklake_sort_expression" [("sort_id", int); ("table_id", int);
    ("sort_key_index", int); ("expression", str); ("dialect", str); ("sort_direction", str);
    ("null_order", str)];
  Ddl.CreateTable "ducklake_file_variant_stats" [("data_file_id", int); ("table_id", int);
    ("column_id", int); ("variant_path", str); ("shredded_type", str); ("column_size_bytes", int);
    ("value_count", int); ("null_count", int); ("min_value", str); ("max_value", str);
    ("contains_nan", bool); ("extra_stats", str)]].
Definition v0_4_upgrade_data : list Ddl := [
  Ddl.MovePartialMax;
  Ddl.DropColumn "ducklake_data_file" "partial_file_info";
  Ddl.FillTableSchemaVersions;
  Ddl.Plain (Statement.Delete "ducklake_schema_versions" (Cond.IsNull "table_id"))].

Definition statements (u : t) : list Ddl :=
  match u with
  | V0_2 => v0_2_update_schema ++ v0_2_upgrade_data
  | V0_3 => v0_3_update_schema ++ v0_3_upgrade_data
  | V0_4 => v0_4_update_schema ++ v0_4_upgrade_data
  | V1_0 => []
  end.
Definition upgrade_tables (u : t) : method Db unit := st_for exec (statements u).

Definition set_version (version : string) : method Db unit :=
  exec (Ddl.Plain (Statement.Update (TABLE DucklakeMetadata) [("value", Expr.Val (to_sql version))]
    (Cond.Eq "key" (to_sql keys.VERSION)))).

Definition upgrade (u : t) : method Db unit :=
  in_transaction dialect begin_fails commit_fails (match statements u with [] => false | _ => true end)
    (upgrade_tables u ;; set_version (version u)).

Definition upgrade_catalog (current_version : string) : method Db unit :=
  current ← st_lift (DucklakeVersion.from_str current_version);
  st_for (fun u =>
    target ← st_lift (DucklakeVersion.from_str (version u));
    if DucklakeVersion.ltb current target then upgrade u else mret tt) iter.
End Upgrades.
End Upgrades.
Abbreviation Upgrades := Upgrades.t.
