(* ===== verification/Lake.v ===== *)
(** * Creating and connecting to a catalog ([spec/init.rs], [options.rs], [ducklake.rs])

    The options of a connection, the tables and the first rows of a new catalog,
    and the checks before a connection is opened. *)

From S2P Require Import Prelude Text Regex Identifier Types Instances Entities CatalogColumns.
From S2P Require Import Catalog TableStats CommitState Dialect TransactionChanges Executors Database.
From S2P Require Import Metadata Load Persist Commit Cache Connection Upgrades.

(** ** Options ([options.rs]) *)

(** Durations in nanoseconds *)
Module DatabaseOptions.
Record t : Type := mk {
  max_connections : option Z;
  min_connections : Z;
  acquire_timeout : Z;
  test_before_acquire : bool;
  idle_timeout : option Z;
  max_lifetime : option Z;
}.
Definition from_secs (s : Z) : Z := s * 1000000000.
Definition default : t :=
  mk None 0 (from_secs 30) true (Some (from_secs (10 * 60))) (Some (from_secs (30 * 60))).
End DatabaseOptions.
Abbreviation DatabaseOptions := DatabaseOptions.t.

(** Time zones by name, and what a connection needs from the outside: connecting
    a pool, and whether an instant that far away exists *)
Class Servers `{External} `{TimeZones} : Type := {
  UTC : Tz;
  tz_parse : string -> option Tz;
  connect_pool : Dialect -> DatabaseOptions -> string -> result unit;
  instant_exists : Z -> bool;
}.

Module CreateOptions.
Record t `{TimeZones} : Type := mk {
  url : string; data_path : string; encrypted : bool; storage_options : list (string * string);
  time_zone : Tz; database_options : DatabaseOptions;
}.
#[global] Arguments mk {_} url data_path encrypted storage_options time_zone database_options.
Definition eta `{TimeZones} (o : t) : t := mk (url o) (data_path o) (encrypted o) (storage_options o)
  (time_zone o) (database_options o).
#[export] Instance set_encrypted `{TimeZones} : Setter encrypted := ltac:(mk_setter eta encrypted).
#[export] Instance set_storage_options `{TimeZones} : Setter storage_options := ltac:(mk_setter eta storage_options).
#[export] Instance set_time_zone `{TimeZones} : Setter time_zone := ltac:(mk_setter eta time_zone).
#[export] Instance set_database_options `{TimeZones} : Setter database_options :=
  ltac:(mk_setter eta database_options).
Section CreateOptions.
Context `{EXT : External} `{ZONES : TimeZones} `{SRV : !Servers}.

Definition new (url data_path : string) : t :=
  mk url data_path false [] UTC DatabaseOptions.default.
Definition with_encrypted (self : t) (value : bool) : t := self <| encrypted := value |>.
Definition with_time_zone (self : t) (name : string) : result t :=
  tz ← ok_or (InvalidTimeZone name) (tz_parse name); mret (self <| time_zone := tz |>).
Definition with_storage_option (self : t) (key value : string) : t :=
  self <| storage_options ::= fun l => l ++ [(key, value)] |>.
Definition with_storage_options (self : t) (options : list (string * string)) : t :=
  self <| storage_options ::= fun l => l ++ options |>.
Definition with_database_options (self : t) (options : DatabaseOptions) : t :=
  self <| database_options := options |>.
End CreateOptions.
End CreateOptions.
Abbreviation CreateOptions := CreateOptions.t.

Module ConnectionType.
Inductive t `{External} : Type :=
  | Latest
  | SnapshotId (id : Z)
  | SnapshotTimestamp (timestamp : DateTimeUtc).
End ConnectionType.
Abbreviation ConnectionType := ConnectionType.t.

Module ConnectOptions.
Record t `{External} `{TimeZones} : Type := mk {
  url : string; upgrade : bool; readonly : bool; storage_options : list (string * string);
  connection_type : ConnectionType; time_zone : Tz; database_options : DatabaseOptions;
}.
#[global] Arguments mk {_ _} url upgrade readonly storage_options connection_type time_zone database_options.
Definition eta `{External} `{TimeZones} (o : t) : t := mk (url o) (upgrade o) (readonly o)
  (storage_options o) (connection_type o) (time_zone o) (database_options o).
#[export] Instance set_upgrade `{External} `{TimeZones} : Setter upgrade := ltac:(mk_setter eta upgrade).
#[export] Instance set_readonly `{External} `{TimeZones} : Setter readonly := ltac:(mk_setter eta readonly).
#[export] Instance set_storage_options `{External} `{TimeZones} : Setter storage_options :=
  ltac:(mk_setter eta storage_options).
#[export] Instance set_connection_type `{External} `{TimeZones} : Setter connection_type :=
  ltac:(mk_setter eta connection_type).
#[export] Instance set_time_zone `{External} `{TimeZones} : Setter time_zone := ltac:(mk_setter eta time_zone).
#[export] Instance set_database_options `{External} `{TimeZones} : Setter database_options :=
  ltac:(mk_setter eta database_options).
Section ConnectOptions.
Context `{EXT : External} `{ZONES : TimeZones} `{SRV : !Servers}.

Definition new (url : string) : t :=
  mk url false false [] ConnectionType.Latest UTC DatabaseOptions.default.
Definition with_database_options (self : t) (options : DatabaseOptions) : t :=
  self <| database_options := options |>.
Definition with_time_zone (self : t) (name : string) : result t :=
  tz ← ok_or (InvalidTimeZone name) (tz_parse name); mret (self <| time_zone := tz |>).
Definition with_upgrade (self : t) (value : bool) : t := self <| upgrade := value |>.
Definition with_readonly (self : t) (value : bool) : t := self <| readonly := value |>.
Definition with_storage_option (self : t) (key value : string) : t :=
  self <| storage_options ::= fun l => l ++ [(key, value)] |>.
Definition with_storage_options (self : t) (options : list (string * string)) : t :=
  self <| storage_options ::= fun l => l ++ options |>.
Definition with_latest_snapshot (self : t) : t := self <| connection_type := ConnectionType.Latest |>.
Definition with_snapshot_id (self : t) (snapshot_id : Z) : t :=
  self <| connection_type := ConnectionType.SnapshotId snapshot_id |>.
Definition with_snapshot_timestamp (self : t) (timestamp : DateTimeUtc) : t :=
  self <| connection_type := ConnectionType.SnapshotTimestamp timestamp |>.
End ConnectOptions.
End ConnectOptions.
Abbreviation ConnectOptions := ConnectOptions.t.

(** ** The pool ([db/options.rs], [db/mod.rs]) *)

Module Pool.
Section Pool.
Context `{EXT : External} `{ZONES : TimeZones} `{SRV : !Servers}.

Definition positive (name : string) (duration : option Z) : result unit :=
  match duration with
  | Some d => if (d =? 0)%Z || negb (instant_exists d)
              then Err (InvalidDatabaseOptions (name +:+ " must be positive")) else mret tt
  | None => mret tt
  end.

Definition pool_options (self : DatabaseOptions) (default_max_connections : Z) : result unit :=
  let max_connections := default default_max_connections (DatabaseOptions.max_connections self) in
  if (max_connections =? 0)%Z
  then Err (InvalidDatabaseOptions "max_connections must be greater than zero")
  else if (max_connections <? DatabaseOptions.min_connections self)%Z
  then Err (InvalidDatabaseOptions "min_connections must not exceed max_connections")
  else
    positive "acquire_timeout" (Some (DatabaseOptions.acquire_timeout self)) ;;
    positive "idle_timeout" (DatabaseOptions.idle_timeout self) ;;
    positive "max_lifetime" (DatabaseOptions.max_lifetime self).

Definition connect (url : string) (options : DatabaseOptions) (dialect : Dialect)
    (default_max_connections : Z) : result Dialect :=
  pool_options options default_max_connections ;; connect_pool dialect options url ;; mret dialect.

Definition new (url : string) (options : DatabaseOptions) : result Dialect :=
  let connect := connect url options in
  if String.prefix "postgresql://" url || String.prefix "postgres://" url then connect Dialect.Postgres 4%Z
  else if String.prefix "mysql://" url then connect Dialect.MySql 4%Z
  else if String.prefix "sqlite://" url then connect Dialect.Sqlite 1%Z
  else Err (UnsupportedDatabase url).
End Pool.
End Pool.

(** ** The tables of a catalog ([sea_query_ext.rs], [entities.rs])

    The types of the columns by the types of the fields; [NOT NULL] is left out. *)

Module Kind.
Inductive t : Type := Text | Int | Bool | Time | Id.
Definition column_type (dialect : Dialect) (k : t) : ColumnType :=
  match k with
  | Text => Dialect.column_type_string dialect
  | Int => Dialect.column_type_i64 dialect
  | Bool => Dialect.column_type_bool dialect
  | Time => Dialect.column_type_date_time_with_time_zone dialect
  | Id => Dialect.column_type_uuid dialect
  end.
End Kind.

Class CreatableEntity (E : Type) : Type := column_kinds : list Kind.t.
#[export] Instance creatable_DucklakeColumn : CreatableEntity DucklakeColumn :=
  [Kind.Int; Kind.Int; Kind.Int; Kind.Int; Kind.Int; Kind.Text; Kind.Text; Kind.Text; Kind.Text;
   Kind.Bool; Kind.Int; Kind.Text; Kind.Text].
#[export] Instance creatable_DucklakeColumnMapping : CreatableEntity DucklakeColumnMapping :=
  [Kind.Int; Kind.Int; Kind.Text].
#[export] Instance creatable_DucklakeColumnTag : CreatableEntity DucklakeColumnTag :=
  [Kind.Int; Kind.Int; Kind.Int; Kind.Int; Kind.Text; Kind.Text].
#[export] Instance creatable_DucklakeDataFile : CreatableEntity DucklakeDataFile :=
  [Kind.Int; Kind.Int; Kind.Int; Kind.Int; Kind.Int; Kind.Text; Kind.Bool; Kind.Text; Kind.Int;
   Kind.Int; Kind.Int; Kind.Int; Kind.Int; Kind.Text; Kind.Int; Kind.Int].
#[export] Instance creatable_DucklakeDeleteFile : CreatableEntity DucklakeDeleteFile :=
  [Kind.Int; Kind.Int; Kind.Int; Kind.Int; Kind.Int; Kind.Text; Kind.Bool; Kind.Text; Kind.Int;
   Kind.Int; Kind.Int; Kind.Text; Kind.Int].
#[export] Instance creatable_DucklakeFileColumnStats : CreatableEntity DucklakeFileColumnStats :=
  [Kind.Int; Kind.Int; Kind.Int; Kind.Int; Kind.Int; Kind.Int; Kind.Text; Kind.Text; Kind.Bool;
   Kind.Text].
#[export] Instance creatable_DucklakeFilePartitionValue : CreatableEntity DucklakeFilePartitionValue :=
  [Kind.Int; Kind.Int; Kind.Int; Kind.Text].
#[export] Instance creatable_DucklakeFilesScheduledForDeletion `{External} : CreatableEntity DucklakeFilesScheduledForDeletion :=
  [Kind.Int; Kind.Text; Kind.Bool; Kind.Time].
#[export] Instance creatable_DucklakeInlinedDataTables : CreatableEntity DucklakeInlinedDataTables :=
  [Kind.Int; Kind.Text; Kind.Int].
#[export] Instance creatable_DucklakeMetadata : CreatableEntity DucklakeMetadata :=
  [Kind.Text; Kind.Text; Kind.Text; Kind.Int].
#[export] Instance creatable_DucklakeNameMapping : CreatableEntity DucklakeNameMapping :=
  [Kind.Int; Kind.Int; Kind.Text; Kind.Int; Kind.Int; Kind.Bool].
#[export] Instance creatable_DucklakePartitionColumn : CreatableEntity DucklakePartitionColumn :=
  [Kind.Int; Kind.Int; Kind.Int; Kind.Int; Kind.Text].
#[export] Instance creatable_DucklakePartitionInfo : CreatableEntity DucklakePartitionInfo :=
  [Kind.Int; Kind.Int; Kind.Int; Kind.Int].
#[export] Instance creatable_DucklakeSchema `{External} : CreatableEntity DucklakeSchema :=
  [Kind.Int; Kind.Id; Kind.Int; Kind.Int; Kind.Text; Kind.Text; Kind.Bool].
#[export] Instance creatable_DucklakeSchemaVersions : CreatableEntity DucklakeSchemaVersions :=
  [Kind.Int; Kind.Int; Kind.Int].
#[export] Instance creatable_DucklakeSnapshot `{External} : CreatableEntity DucklakeSnapshot :=
  [Kind.Int; Kind.Time; Kind.Int; Kind.Int; Kind.Int].
#[export] Instance creatable_DucklakeSnapshotChanges : CreatableEntity DucklakeSnapshotChanges :=
  [Kind.Int; Kind.Text; Kind.Text; Kind.Text; Kind.Text].
#[export] Instance creatable_DucklakeTable `{External} : CreatableEntity DucklakeTable :=
  [Kind.Int; Kind.Id; Kind.Int; Kind.Int; Kind.Int; Kind.Text; Kind.Text; Kind.Bool].
#[export] Instance creatable_DucklakeTableColumnStats : CreatableEntity DucklakeTableColumnStats :=
  [Kind.Int; Kind.Int; Kind.Bool; Kind.Bool; Kind.Text; Kind.Text; Kind.Text].
#[export] Instance creatable_DucklakeTableStats : CreatableEntity DucklakeTableStats :=
  [Kind.Int; Kind.Int; Kind.Int; Kind.Int].
#[export] Instance creatable_DucklakeTag : CreatableEntity DucklakeTag :=
  [Kind.Int; Kind.Int; Kind.Int; Kind.Text; Kind.Text].
#[export] Instance creatable_DucklakeView `{External} : CreatableEntity DucklakeView :=
  [Kind.Int; Kind.Id; Kind.Int; Kind.Int; Kind.Int; Kind.Text; Kind.Text; Kind.Text; Kind.Text].
#[export] Instance creatable_DucklakeMacro : CreatableEntity DucklakeMacro :=
  [Kind.Int; Kind.Int; Kind.Text; Kind.Int; Kind.Int].
#[export] Instance creatable_DucklakeMacroImpl : CreatableEntity DucklakeMacroImpl :=
  [Kind.Int; Kind.Int; Kind.Text; Kind.Text; Kind.Text].
#[export] Instance creatable_DucklakeMacroParameters : CreatableEntity DucklakeMacroParameters :=
  [Kind.Int; Kind.Int; Kind.Int; Kind.Text; Kind.Text; Kind.Text; Kind.Text].
#[export] Instance creatable_DucklakeSortInfo : CreatableEntity DucklakeSortInfo :=
  [Kind.Int; Kind.Int; Kind.Int; Kind.Int].
#[export] Instance creatable_DucklakeSortExpression : CreatableEntity DucklakeSortExpression :=
  [Kind.Int; Kind.Int; Kind.Int; Kind.Text; Kind.Text; Kind.Text; Kind.Text].
#[export] Instance creatable_DucklakeFileVariantStats : CreatableEntity DucklakeFileVariantStats :=
  [Kind.Int; Kind.Int; Kind.Int; Kind.Text; Kind.Text; Kind.Int; Kind.Int; Kind.Int; Kind.Text;
   Kind.Text; Kind.Bool; Kind.Text].

Definition create_entity `{External} (E : Type) `{!Entity E} `{!CreatableEntity E} (dialect : Dialect) : Statement :=
  Statement.CreateTable (TABLE E) (zip (COLUMNS E) (Kind.column_type dialect <$> column_kinds (E := E)))
    (PRIMARY_KEY E) false.

(** ** A new catalog ([init.rs]) *)

Module Init.
Module Config.
Record t : Type := mk { data_path : string; encrypted : bool }.
End Config.

Section Init.
Context `{EXT : External} `{ENV : !Environment} `{CMP : !SqlCompare} `{ENGINE : !SqlEngine}.
Context (dialect : Dialect) (begin_fails commit_fails : Db -> option DucklakeError).
(* the clock, and [CARGO_PKG_NAME CARGO_PKG_VERSION] *)
Context (now : DateTimeUtc) (created_by : string).

(** [create_table!], for each of *)
Definition catalog_tables : list Statement := [
  create_entity DucklakeColumn dialect; create_entity DucklakeColumnMapping dialect;
  create_entity DucklakeColumnTag dialect; create_entity DucklakeDataFile dialect;
  create_entity DucklakeDeleteFile dialect; create_entity DucklakeFileColumnStats dialect;
  create_entity DucklakeFilePartitionValue dialect;
  create_entity DucklakeFilesScheduledForDeletion dialect;
  create_entity DucklakeInlinedDataTables dialect; create_entity DucklakeMetadata dialect;
  create_entity DucklakeNameMapping dialect; create_entity DucklakePartitionColumn dialect;
  create_entity DucklakePartitionInfo dialect; create_entity DucklakeSchema dialect;
  create_entity DucklakeSchemaVersions dialect; create_entity DucklakeSnapshot dialect;
  create_entity DucklakeSnapshotChanges dialect; create_entity DucklakeTable dialect;
  create_entity DucklakeTableColumnStats dialect; create_entity DucklakeTableStats dialect;
  create_entity DucklakeTag dialect; create_entity DucklakeView dialect;
  create_entity DucklakeMacro dialect; create_entity DucklakeMacroImpl dialect;
  create_entity DucklakeMacroParameters dialect; create_entity DucklakeSortInfo dialect;
  create_entity DucklakeSortExpression dialect; create_entity DucklakeFileVariantStats dialect].
Definition create_tables : method Db unit := st_for Tx.exec catalog_tables.

Definition bool_to_string (b : bool) : string := if b then "true" else "false".

Definition metadata_rows (data_path : DucklakePath) (encrypted : bool) : list DucklakeMetadata := [
  DucklakeMetadata.mk keys.VERSION LATEST_VERSION None None;
  DucklakeMetadata.mk keys.CREATED_BY created_by None None;
  DucklakeMetadata.mk keys.DATA_PATH (DucklakePath.as_str (DucklakePath.ensure_directory data_path)) None None;
  DucklakeMetadata.mk keys.ENCRYPTED (bool_to_string encrypted) None None].
Definition main_schema : DucklakeSchema := DucklakeSchema.mk 0 (Some (now_v7 0)) 0 None "main" "main/" true.
Definition first_snapshot : DucklakeSnapshot := DucklakeSnapshot.mk 0 now 0 1 0.
Definition first_changes : DucklakeSnapshotChanges :=
  DucklakeSnapshotChanges.mk 0 ("created_schema:" +:+ String dquote ("main" +:+ String dquote EmptyString)) None None None.

(** [?] on a parse error of a URL *)
Definition parse_path (s : string) : result DucklakePath :=
  match DucklakePath.from_str s with Ok p => Ok p | Err e => Err (Parsing e) | Panic => Panic end.

Definition populate (data_path : string) (encrypted : bool) : method Db unit :=
  path ← st_lift (parse_path data_path);
  Tx.insert_entities dialect (metadata_rows path encrypted) ;;
  Tx.insert_entity main_schema ;;
  Tx.insert_entity first_snapshot ;;
  Tx.insert_entity first_changes.

Definition init_catalog (config : Config.t) : method Db unit :=
  in_transaction dialect begin_fails commit_fails true
    (create_tables ;; populate (Config.data_path config) (Config.encrypted config)).
End Init.
End Init.

(** ** Opening a connection ([ducklake.rs]) *)

Module Lake.
Section Lake.
Context `{EXT : External} `{ENV : !Environment} `{CMP : !SqlCompare} `{ENGINE : !SqlEngine}
  `{CAST : !SqlCast} `{UPG : !UpgradeEngine} `{ENG : !RegexEngine} `{TXT : !ValueText} `{HASH : HashOrder}
  `{ERR : !DatabaseErrors} `{ZONES : !TimeZones} `{SRV : !Servers}.
Context (begin_fails commit_fails : Db -> option DucklakeError).

(** A connection and its caches *)
Record t : Type := mk {
  conn : DucklakeConnection;
  snapshot_cache : Process;
  metadata_cache : Metadata;
}.

Definition new (travel_snapshot : option SnapshotInfo) (readonly : bool)
    (storage_options : list (string * string)) (time_zone : Tz) (db : Db) : result t :=
  snapshot_cache ← SnapshotCache.new travel_snapshot db;
  metadata_cache ← MetadataCache.new db;
  '(mode, snapshot_cache) ←
    (match travel_snapshot with
     | Some _ =>
         match SnapshotCache.get_current snapshot_cache with
         | (Ok p, snapshot_cache) => Ok (TimeTravel p, snapshot_cache)
         | (Err e, _) => Err e
         | (Panic, _) => Panic
         end
     | None => Ok (if readonly then ReadOnly else ReadWrite, snapshot_cache)
     end);
  mret (mk (DucklakeConnection.mk storage_options time_zone mode) snapshot_cache
    (MetadataCache.metadata metadata_cache)).

(** Only the version: the table may be of an old format. *)
Definition get_version (db : Db) : result string :=
  rows ← select (TABLE DucklakeMetadata) (Cond.Eq "key" (to_sql keys.VERSION)) db;
  r ← ok_or Persist.row_not_found (head rows);
  ok_or (Database false false "column decoding error") (get_column "value" r).

Definition init_catalog (url : string) (upgrade : bool) (database_options : DatabaseOptions)
    : method Db Dialect :=
  dialect ← st_lift (Pool.new url database_options);
  db ← st_get;
  version ← st_lift (match get_version db with
                     | Err e => if is_table_not_found_error e then Err CatalogNotInitialized else Err e
                     | res => res
                     end);
  if negb (bool_decide (version ∈ SUPPORTED_VERSIONS)) then st_throw (UnsupportedVersion version)
  else if negb (bool_decide (version = LATEST_VERSION)) && negb upgrade
  then st_throw (OutdatedVersion version LATEST_VERSION)
  else Upgrades.upgrade_catalog dialect begin_fails commit_fails version ;; mret dialect.

(** The database the URL leads to is the state. *)
Definition create (now : DateTimeUtc) (created_by : string) (options : CreateOptions) : method Db t :=
  dialect ← st_lift (Pool.new (CreateOptions.url options) (CreateOptions.database_options options));
  db ← st_get;
  if bool_decide (is_Some (db !! TABLE DucklakeMetadata)) then st_throw CatalogAlreadyInitialized
  else
    Init.init_catalog dialect begin_fails commit_fails now created_by
      (Init.Config.mk (CreateOptions.data_path options) (CreateOptions.encrypted options)) ;;
    db ← st_get;
    st_lift (new None false (CreateOptions.storage_options options) (CreateOptions.time_zone options) db).

Definition connect (options : ConnectOptions) : method Db t :=
  init_catalog (ConnectOptions.url options) (ConnectOptions.upgrade options)
    (ConnectOptions.database_options options) ;;
  db ← st_get;
  snapshot ← st_lift (match ConnectOptions.connection_type options with
                      | ConnectionType.Latest => mret None
                      | ConnectionType.SnapshotId id => Some <$> load_for_id id db
                      | ConnectionType.SnapshotTimestamp timestamp => Some <$> load_for_timestamp timestamp db
                      end);
  st_lift (new snapshot (ConnectOptions.readonly options) (ConnectOptions.storage_options options)
    (ConnectOptions.time_zone options) db).

(** [is_readonly] and [time_zone] of an open lake *)
Definition time_zone (self : t) : string := tz_name (DucklakeConnection.time_zone (conn self)).
End Lake.
End Lake.
