(* ===== verification/LakeFacts.v ===== *)
(** * What creating and connecting guarantee ([spec/init.rs], [spec/upgrades/], [ducklake.rs]) *)

From S2P Require Import Prelude Triple Text Regex Identifier Types Instances Entities CatalogColumns.
From S2P Require Import Catalog CatalogFacts TableStats CommitState Dialect TransactionChanges Executors Database.
From S2P Require Import Batches Metadata Load LoadedColumns LoadFacts Persist Commit StatsKey Expire Cache CacheFacts Connection.
From S2P Require Import ConnectionFacts MetadataFacts Scan ScanFacts Upgrades Lake.

(** ** Upgrades *)

Section Versions.
Context `{EXT : External} `{CMP : !SqlCompare} `{CAST : !SqlCast}.
Implicit Types db : Db.

Definition METADATA : string := TABLE DucklakeMetadata.
Definition is_version (r : row) : bool := sql_eq (field "key" r) (SText keys.VERSION).

(** The catalog records version [v], once. *)
Definition at_version (v : string) (db : Db) : Prop :=
  exists r, List.filter is_version (rows_of db METADATA) = [r] /\ field "value" r = SText v.

(** Statements that leave the recorded version alone *)
Definition spares_version (s : Ddl) : bool :=
  match s with
  | Ddl.CreateTable table _ => true
  | Ddl.AddColumn table column _ _ =>
      bool_decide (table <> METADATA) || bool_decide (column <> "key" /\ column <> "value")
  | Ddl.RenameTable from _ => bool_decide (from <> METADATA)
  | Ddl.DropColumn table _ => bool_decide (table <> METADATA)
  | Ddl.Plain (Statement.Delete table _) => bool_decide (table <> METADATA)
  | Ddl.Plain _ => false
  | _ => true
  end.

Lemma at_version_same db db' v :
  rows_of db' METADATA = rows_of db METADATA -> at_version v db -> at_version v db'.
Proof. intros Hr (r & Hf & Hv). exists r. by rewrite Hr. Qed.
Lemma alter_other table f db db' v :
  table <> METADATA -> alter table f db = Some db' -> at_version v db -> at_version v db'.
Proof.
  intros Ht. unfold alter. destruct (db !! table) as [t|]; [|done]. cbn.
  destruct (f t) as [t'|]; [|done]. intros [= <-]. apply at_version_same.
  unfold rows_of. by rewrite lookup_insert_ne.
Qed.

Lemma field_app column (r : row) c v : column <> c -> field column (r ++ [(c, v)]) = field column r.
Proof.
  intros Hc. unfold field. f_equal. rewrite IndexMap.get_app. destruct (IndexMap.get column r); [done|].
  cbn. by rewrite decide_False.
Qed.

Lemma filter_map_filter {A B} (p : B -> bool) (f : A -> B) l :
  List.filter p (f <$> l) = f <$> List.filter (fun a => p (f a)) l.
Proof. induction l as [|a l IH]; [done|]. cbn. rewrite IH. by destruct (p (f a)). Qed.

Ltac other_table := eapply alter_other; [|eassumption..]; vm_compute; discriminate.

Lemma spares_version_ok s db db' v :
  spares_version s = true -> ddl_effect s db = Some db' -> at_version v db -> at_version v db'.
Proof.
  intros Hs He Hv. pose proof Hv as (r & Hr & Hval). destruct s; cbn [ddl_effect spares_version] in *.
  - destruct (db !! table) eqn:Ht; [done|]. injection He as <-. apply (at_version_same db); [|done].
    unfold rows_of. destruct (decide (table = METADATA)) as [->|Hn]; [|by rewrite lookup_insert_ne].
    unfold rows_of in Hr. by rewrite Ht in Hr.
  - destruct (decide (table = METADATA)) as [->|Hn]; [|by eapply alter_other].
    apply orb_prop in Hs as [Hs|Hs]; [by apply bool_decide_eq_true in Hs|].
    apply bool_decide_eq_true in Hs as [Hk Hv'].
    unfold alter, add_column in He. destruct (db !! METADATA) as [t|] eqn:Ht; [|done]. cbn in He.
    case_decide; [done|]. injection He as <-.
    exists (r ++ [(column, default)]). split; [|by rewrite field_app].
    unfold rows_of in *. rewrite Ht in Hr. rewrite lookup_insert_eq. cbn [DbTable.rows].
    rewrite filter_map_filter, (filter_bool_ext _ is_version), Hr; [done|].
    intros x _. unfold is_version. by rewrite field_app.
  - destruct (db !! from) as [t|] eqn:Hf; [|done]. cbn in He. destruct (db !! to) eqn:Ht; [done|].
    injection He as <-. apply bool_decide_eq_true in Hs. apply (at_version_same db); [|done].
    unfold rows_of in *. rewrite lookup_insert_ne; [by rewrite lookup_delete_ne|].
    intros ->. by rewrite Ht in Hr.
  - apply bool_decide_eq_true in Hs. by eapply alter_other.
  - destruct (db !! "ducklake_column"); [|done]. cbn in He. other_table.
  - destruct (db !! "ducklake_snapshot"); [|done]. cbn in He. other_table.
  - other_table.
  - destruct (db !! "ducklake_schema_versions") eqn:?; [|done]. destruct (db !! "ducklake_table"); [|done].
    cbn in He. other_table.
  - destruct s; try done. apply bool_decide_eq_true in Hs. cbn in He.
    apply update_rows_of_Some in He as (t & Ht & _ & ->). apply (at_version_same db); [|done].
    unfold rows_of. by rewrite lookup_insert_ne.
Qed.
End Versions.

Section UpgradeFacts.
Context `{EXT : External} `{CMP : !SqlCompare} `{CAST : !SqlCast} `{UPG : !UpgradeEngine}.
Context (dialect : Dialect) (begin_fails commit_fails : Db -> option DucklakeError).
Implicit Types db : Db.

Lemma ddl_exec_Ok s u db db' : Upgrades.exec s db = (Ok u, db') -> ddl_effect s db = Some db'.
Proof. unfold Upgrades.exec. destruct (run_ddl s db) eqn:E; [intros [= _ <-]|done..]. by apply run_ddl_effect. Qed.

Lemma in_transaction_cases {A} b (m : method Db A) db res db' :
  in_transaction dialect begin_fails commit_fails b m db = (res, db') ->
  (exists a, res = Ok a /\ m db = (Ok a, db')) \/
  (is_ok res = false /\ (dialect <> Dialect.MySql -> db' = db)).
Proof.
  unfold in_transaction. destruct (begin_fails db); [intros [= <- <-]; by right|].
  destruct (m db) as [[a|e|] db1]; [|intros [= <- <-]; right; split; [done|apply left_behind_nothing]..].
  destruct (commit_fails db1); intros [= <- <-]; [right|left; by eexists].
  split; [done|apply left_behind_nothing].
Qed.

Lemma all_spare u : forallb spares_version (Upgrades.statements dialect u) = true.
Proof. by destruct u; vm_compute. Qed.

Lemma upgrade_tables_keep u v db x db' :
  Upgrades.upgrade_tables dialect u db = (Ok x, db') -> at_version v db -> at_version v db'.
Proof.
  unfold Upgrades.upgrade_tables. pose proof (all_spare u) as Hs. revert db Hs.
  induction (Upgrades.statements dialect u) as [|s l IH]; intros db; cbn [forallb st_for]; [by intros _ [= _ <-]|].
  intros [Hs Hl]%andb_prop (y & db1 & Hx%ddl_exec_Ok & Hrest)%bind_Ok Hv.
  apply (IH db1 Hl Hrest). by eapply spares_version_ok.
Qed.

Lemma set_version_ok v w db x db' :
  Upgrades.set_version w db = (Ok x, db') -> at_version v db -> at_version w db'.
Proof.
  intros He%ddl_exec_Ok (r & Hr & _). cbn in He.
  apply update_rows_of_Some in He as (t & Ht & _ & ->).
  unfold at_version, rows_of in *. change METADATA with "ducklake_metadata" in *.
  rewrite Ht in Hr. rewrite lookup_insert_eq.
  set (set := update_row [("value", Expr.Val (SText w))]).
  assert (forall r, is_version (set r) = is_version r) as Hset.
  { intros r'. unfold is_version, set, update_row, set_field, field. cbn [foldl eval_expr].
    rewrite IndexMap.get_insert. by destruct (decide ("value" = "key")). }
  assert (is_version r = true) as Hr'.
  { eapply (elem_of_filter_bool is_version). rewrite Hr. by left. }
  exists (set r). split.
  - unfold update_field, DbTable.set_rows. cbn [DbTable.rows]. rewrite filter_map_filter.
    rewrite (filter_bool_ext _ is_version), Hr.
    + cbn [fmap list_fmap]. f_equal. unfold is_version in Hr'. cbn in Hr'. by rewrite Hr'.
    + intros y _. cbn. fold (is_version y). destruct (is_version y) eqn:Hy; [|done].
      transitivity (is_version y); [apply Hset|done].
  - unfold set, update_row, set_field, field. cbn [foldl eval_expr]. by rewrite IndexMap.get_insert.
Qed.

Lemma upgrade_ok u v db x db' :
  Upgrades.upgrade dialect begin_fails commit_fails u db = (Ok x, db') ->
  at_version v db -> at_version (Upgrades.version u) db'.
Proof.
  intros [(a & _ & Hm)|[? _]]%in_transaction_cases Hv; [|done].
  apply bind_Ok in Hm as (y & db1 & Ht & Hs). eapply set_version_ok; [exact Hs|].
  by eapply upgrade_tables_keep.
Qed.

(** The upgrades that a catalog of a version still needs *)
Definition remaining (v : string) : list Upgrades :=
  match DucklakeVersion.from_str v with
  | Ok current => List.filter (fun u =>
      match DucklakeVersion.from_str (Upgrades.version u) with
      | Ok target => DucklakeVersion.ltb current target
      | _ => false
      end) Upgrades.iter
  | _ => []
  end.

Abbreviation run_upgrades := (st_for (Upgrades.upgrade dialect begin_fails commit_fails)).

Lemma upgrade_catalog_remaining v db :
  v ∈ SUPPORTED_VERSIONS ->
  Upgrades.upgrade_catalog dialect begin_fails commit_fails v db = run_upgrades (remaining v) db.
Proof.
  intros Hv. repeat (apply elem_of_cons in Hv as [->|Hv]; [reflexivity|]).
  by apply not_elem_of_nil in Hv.
Qed.

Lemma remaining_step v :
  v ∈ SUPPORTED_VERSIONS ->
  v = LATEST_VERSION /\ remaining v = [] \/
  exists u, remaining v = u :: remaining (Upgrades.version u) /\ Upgrades.version u ∈ SUPPORTED_VERSIONS.
Proof.
  intros Hv. repeat (apply elem_of_cons in Hv as [->|Hv]); [..|by apply not_elem_of_nil in Hv].
  1: right; exists Upgrades.V0_2. 2: right; exists Upgrades.V0_3. 3: right; exists Upgrades.V0_4.
  4: right; exists Upgrades.V1_0. 5: by left.
  all: split; [reflexivity|apply (bool_decide_unpack _); vm_compute; exact Logic.I].
Qed.

Lemma upgrade_fails u db res db' :
  dialect <> Dialect.MySql ->
  Upgrades.upgrade dialect begin_fails commit_fails u db = (res, db') -> res = Ok tt \/ db' = db.
Proof. intros Hd [([] & -> & _)|[_ Hdb]]%in_transaction_cases; [by left|right; by apply Hdb]. Qed.

Lemma run_upgrades_spec k v db res db' :
  dialect <> Dialect.MySql -> length (remaining v) = k -> v ∈ SUPPORTED_VERSIONS -> at_version v db ->
  run_upgrades (remaining v) db = (res, db') ->
  exists v' done, v' ∈ SUPPORTED_VERSIONS /\ at_version v' db' /\ remaining v = done ++ remaining v' /\
    run_upgrades done db = (Ok tt, db') /\ run_upgrades (remaining v') db' = (res, db') /\
    (res = Ok tt -> v' = LATEST_VERSION).
Proof.
  intros Hd. revert v db. induction k as [|k IH]; intros v db Hk Hv Hat Hrun;
    (destruct (remaining_step v Hv) as [[Hl Hr]|(u & Hr & Hu)]; rewrite Hr in *; [|try discriminate]).
  - injection Hrun as <- <-. exists v, []. rewrite Hr. by split_and!.
  - discriminate.
  - cbn [st_for] in Hrun. unfold mbind, stateful_bind in Hrun.
    destruct (Upgrades.upgrade dialect begin_fails commit_fails u db) as [[[]|e|] db1] eqn:Hup.
    + injection Hk as Hk.
      destruct (IH (Upgrades.version u) db1 Hk Hu (upgrade_ok _ _ _ _ _ Hup Hat) Hrun)
        as (v' & done & Hv' & Hat' & Hrem & Hdone & Hrest & Hok).
      exists v', (u :: done). split_and!; [done|done|by rewrite Hrem| |done|done].
      cbn [st_for]. unfold mbind, stateful_bind. by rewrite Hup.
    + injection Hrun as <- <-. destruct (upgrade_fails _ _ _ _ Hd Hup) as [?| ->]; [done|].
      exists v, []. rewrite Hr. split_and!; [done..| |done].
      cbn [st_for]. unfold mbind, stateful_bind. by rewrite Hup.
    + injection Hrun as <- <-. destruct (upgrade_fails _ _ _ _ Hd Hup) as [?| ->]; [done|].
      exists v, []. rewrite Hr. split_and!; [done..| |done].
      cbn [st_for]. unfold mbind, stateful_bind. by rewrite Hup.
Qed.
End UpgradeFacts.

Section Connecting.
Context `{EXT : External} `{ENV : !Environment} `{CMP : !SqlCompare} `{ENGINE : !SqlEngine}
  `{CAST : !SqlCast} `{UPG : !UpgradeEngine} `{ENG : !RegexEngine} `{TXT : !ValueText} `{HASH : HashOrder}
  `{ERR : !DatabaseErrors} `{ZONES : !TimeZones} `{SRV : !Servers}.
Context (begin_fails commit_fails : Db -> option DucklakeError).
Implicit Types db : Db.

Lemma get_version_at v w db : at_version v db -> Lake.get_version db = Ok w -> w = v.
Proof.
  intros (r & Hr & Hv). unfold Lake.get_version.
  destruct (select _ _ db) as [rows| |] eqn:Hs; cbn; [|done..].
  apply select_rows in Hs as (t & Ht & Hp). unfold rows_of, METADATA in Hr. rewrite Ht in Hr.
  change (List.filter (holds (Cond.Eq "key" (to_sql keys.VERSION))) (DbTable.rows t))
    with (List.filter is_version (DbTable.rows t)) in Hp. rewrite Hr in Hp.
  apply Permutation_singleton_r in Hp as ->. cbn.
  destruct (get_column "value" r) as [x|] eqn:Hx; cbn; [|done]. intros [= <-].
  unfold get_column in Hx. unfold field in Hv. destruct (IndexMap.get "value" r) as [y|]; cbn in *; [|done].
  subst y. cbn in Hx. congruence.
Qed.

(** C33: an upgrade that fails can be resumed, in the databases that roll back
    changes of the schema (MySQL does not). From any supported version an upgrade
    ends, whatever fails on the way, at a catalog that records a supported
    version: the upgrades up to it have been made, in order and completely, of the
    others nothing stays; after a success it is the latest version. The next
    connection reads exactly that version, and upgrading from it goes on with the
    upgrade that failed. *)
Theorem upgrade_resumes dialect v db res db'
    (Hdialect : dialect <> Dialect.MySql) (Hv : v ∈ SUPPORTED_VERSIONS) (Hat : at_version v db)
    (Hrun : Upgrades.upgrade_catalog dialect begin_fails commit_fails v db = (res, db')) :
  exists v' finished, v' ∈ SUPPORTED_VERSIONS /\ at_version v' db' /\
    remaining v = finished ++ remaining v' /\
    st_for (Upgrades.upgrade dialect begin_fails commit_fails) finished db = (Ok tt, db') /\
    (res = Ok tt -> v' = LATEST_VERSION) /\
    (forall w, Lake.get_version db' = Ok w -> w = v') /\
    Upgrades.upgrade_catalog dialect begin_fails commit_fails v' db' = (res, db').
Proof.
  rewrite upgrade_catalog_remaining in Hrun by done.
  destruct (run_upgrades_spec dialect begin_fails commit_fails _ v db res db' Hdialect eq_refl Hv Hat Hrun)
    as (v' & finished & Hv' & Hat' & Hrem & Hdone & Hrest & Hok).
  exists v', finished. split_and!; try done; [by intros w; apply get_version_at|].
  by rewrite upgrade_catalog_remaining.
Qed.

(** Connecting refuses what it cannot open, before it changes anything: a
    database without a catalog, a version that is not supported, an old version
    unless an upgrade was asked for; a catalog of the latest version is not written
    to at all; and a catalog is not created where there is one. *)
Theorem connect_guards (options : ConnectOptions) (create_options : CreateOptions)
    (now : DateTimeUtc) (created_by : string) (d d' : Dialect) db
    (Hpool : Pool.new (ConnectOptions.url options) (ConnectOptions.database_options options) = Ok d)
    (Hpool' : Pool.new (CreateOptions.url create_options) (CreateOptions.database_options create_options) = Ok d') :
  let connect := Lake.connect begin_fails commit_fails options in
  ((exists e, Lake.get_version db = Err e /\ is_table_not_found_error e = true) ->
    connect db = (Err CatalogNotInitialized, db)) /\
  (forall v, Lake.get_version db = Ok v ->
    (v ∉ SUPPORTED_VERSIONS -> connect db = (Err (UnsupportedVersion v), db)) /\
    (v ∈ SUPPORTED_VERSIONS -> v <> LATEST_VERSION -> ConnectOptions.upgrade options = false ->
      connect db = (Err (OutdatedVersion v LATEST_VERSION), db)) /\
    (v = LATEST_VERSION -> (connect db).2 = db)) /\
  (is_Some (db !! TABLE DucklakeMetadata) ->
    Lake.create begin_fails commit_fails now created_by create_options db = (Err CatalogAlreadyInitialized, db)).
Proof.
  cbv zeta. split; [|split].
  - intros (e & He & Hnf). unfold Lake.connect, Lake.init_catalog, mbind, stateful_bind, st_lift, st_get.
    by rewrite Hpool, He, Hnf.
  - intros v Hver. unfold Lake.connect, Lake.init_catalog, mbind, stateful_bind, st_lift, st_get.
    rewrite Hpool, Hver. split_and!.
    + intros Hns. by rewrite bool_decide_false.
    + intros Hs Hne Hup. by rewrite bool_decide_true, bool_decide_false, Hup.
    + intros ->. rewrite !bool_decide_true by first [done|apply (bool_decide_unpack _); vm_compute; exact Logic.I].
      cbn [negb andb]. rewrite upgrade_catalog_remaining by (apply (bool_decide_unpack _); vm_compute; exact Logic.I).
      change (remaining LATEST_VERSION) with (@nil Upgrades). cbn [st_for]. cbn.
      by repeat case_match.
  - intros Hs. unfold Lake.create, mbind, stateful_bind, st_lift, st_get. rewrite Hpool'.
    by rewrite bool_decide_true.
Qed.
End Connecting.

(** ** A created catalog *)

Section Created.
Context `{EXT : External} `{ENV : !Environment} `{CMP : !SqlCompare} `{ENGINE : !SqlEngine}
  `{CAST : !SqlCast} `{UPG : !UpgradeEngine} `{ENG : !RegexEngine} `{TXT : !ValueText} `{HASH : HashOrder}
  `{ERR : !DatabaseErrors} `{ZONES : !TimeZones} `{SRV : !Servers}.
Context (begin_fails commit_fails : Db -> option DucklakeError) (now : DateTimeUtc) (created_by : string).
Implicit Types db : Db.

Lemma create_statements_ok l u db db' :
  Forall (fun s => exists t columns pk, s = Statement.CreateTable t columns pk false) l ->
  st_for Tx.exec l db = (Ok u, db') ->
  (forall t x, db !! t = Some x -> db' !! t = Some x) /\
  (forall t columns pk, Statement.CreateTable t columns pk false ∈ l ->
    db !! t = None /\ rows_of db' t = [] /\ is_Some (db' !! t)).
Proof.
  intros Hl. revert db. induction Hl as [|s l (t & columns & pk & ->) _ IH]; intros db; cbn [st_for].
  { intros [= _ <-]. split; [done|]. by intros ??? ?%not_elem_of_nil. }
  intros (x & db1 & He%exec_Ok & Hrun)%bind_Ok. cbn in He.
  destruct (db !! t) eqn:Ht; [done|]. case_bool_decide; [|done]. injection He as <-.
  destruct (IH _ Hrun) as [Hkeep Hnew]. split.
  - intros t' x' Hx. apply Hkeep. by rewrite lookup_insert_ne by congruence.
  - intros t' columns' pk' [Heq|Hin]%elem_of_cons.
    + injection Heq as -> -> ->. split; [done|].
      unfold rows_of. by rewrite (Hkeep t _ (lookup_insert_eq _ _ _)).
    + destruct (Hnew _ _ _ Hin) as (Hn & Hr & Hs). split; [|done].
      destruct (decide (t' = t)) as [->|Hne]; [by rewrite lookup_insert_eq in Hn|].
      by rewrite lookup_insert_ne in Hn.
Qed.

(** The rows of a new catalog *)
Definition empty_tables : list string :=
  [TABLE DucklakeTable; TABLE DucklakeView; TABLE DucklakeMacro; TABLE DucklakeMacroImpl;
   TABLE DucklakeMacroParameters; TABLE DucklakeColumn; TABLE DucklakeTag; TABLE DucklakeColumnTag;
   TABLE DucklakePartitionInfo; TABLE DucklakePartitionColumn; TABLE DucklakeSortInfo;
   TABLE DucklakeSortExpression; TABLE DucklakeSchemaVersions].
Record created (path : DucklakePath) (encrypted : bool) (db : Db) : Prop := {
  created_metadata : rows_of db METADATA = to_row <$> Init.metadata_rows created_by path encrypted;
  created_schema : rows_of db (TABLE DucklakeSchema) = [to_row Init.main_schema];
  created_snapshot : rows_of db (TABLE DucklakeSnapshot) = [to_row (Init.first_snapshot now)];
  created_empty : Forall (fun t => rows_of db t = []) empty_tables;
}.

Ltac apart := vm_compute; discriminate.
Ltac in_catalog := unfold Init.catalog_tables;
  repeat first [apply list_elem_of_here | apply list_elem_of_further].

Lemma insert_entity_ok {E} `{!Entity E} (e : E) u db db' :
  Tx.insert_entity e db = (Ok u, db') ->
  rows_of db' (TABLE E) = rows_of db (TABLE E) ++ [to_row e] /\
  forall t, t <> TABLE E -> rows_of db' t = rows_of db t.
Proof.
  intros He%exec_Ok. cbn in He. apply update_rows_of_Some in He as (t & Ht & _ & ->).
  split; [|intros t' Hne; unfold rows_of; by rewrite lookup_insert_ne].
  unfold rows_of. by rewrite lookup_insert_eq, Ht.
Qed.
Lemma insert_entities_ok {E} `{!Entity E} (dialect : Dialect) (l : list E) u db db' :
  (Z.of_nat (length (COLUMNS E)) <= Dialect.max_bind_params dialect)%Z ->
  Tx.insert_entities dialect l db = (Ok u, db') ->
  rows_of db' (TABLE E) = rows_of db (TABLE E) ++ (to_row <$> l) /\
  forall t, t <> TABLE E -> rows_of db' t = rows_of db t.
Proof.
  intros Hlen Hi%insert_rows_Ok; [|done]. case_decide as Hl.
  - subst. destruct l; [|done]. by rewrite app_nil_r.
  - destruct Hi as (t & Ht & _ & ->).
    split; [|intros t' Hne; unfold rows_of; by rewrite lookup_insert_ne].
    unfold rows_of. rewrite lookup_insert_eq, Ht. cbn. by rewrite <-list_fmap_compose.
Qed.

Lemma init_created dialect config u db db' :
  Init.init_catalog dialect begin_fails commit_fails now created_by config db = (Ok u, db') ->
  db !! METADATA = None /\
  exists path, Init.parse_path (Init.Config.data_path config) = Ok path /\
    created path (Init.Config.encrypted config) db'.
Proof.
  intros [(x & _ & Hm)|[? _]]%in_transaction_cases; [|done].
  apply bind_Ok in Hm as ([] & db1 & Hc & Hp).
  apply create_statements_ok in Hc as [_ Hnew].
  2: { unfold Init.catalog_tables. repeat (apply Forall_cons; split; [by eexists _, _, _|]). by constructor. }
  apply bind_Ok in Hp as (path & db2 & [Hpath ->]%st_lift_Ok & Hp).
  apply bind_Ok in Hp as (u1 & db2 & H1 & Hp). apply bind_Ok in Hp as (u2 & db3 & H2 & Hp).
  apply bind_Ok in Hp as (u3 & db4 & H3 & H4).
  apply insert_entities_ok in H1 as [H1 H1o]; [|by destruct dialect; vm_compute].
  apply insert_entity_ok in H2 as [H2 H2o], H3 as [H3 H3o], H4 as [H4 H4o].
  assert (forall E `{!Entity E} `{!CreatableEntity E}, create_entity E dialect ∈ Init.catalog_tables dialect ->
    db !! TABLE E = None /\ rows_of db1 (TABLE E) = []) as Hfresh.
  { intros E ?? Hin. destruct (Hnew _ _ _ Hin) as (? & ? & _). done. }
  split; [exact (proj1 (Hfresh DucklakeMetadata _ _ ltac:(in_catalog)))|]. exists path. split; [done|].
  split.
  - change METADATA with (TABLE DucklakeMetadata). rewrite H4o, H3o, H2o by apart. rewrite H1.
    by rewrite (proj2 (Hfresh DucklakeMetadata _ _ ltac:(in_catalog))).
  - rewrite H4o, H3o by apart. rewrite H2, H1o by apart.
    by rewrite (proj2 (Hfresh DucklakeSchema _ _ ltac:(in_catalog))).
  - rewrite H4o by apart. rewrite H3, H2o, H1o by apart.
    by rewrite (proj2 (Hfresh DucklakeSnapshot _ _ ltac:(in_catalog))).
  - unfold empty_tables.
    repeat (apply Forall_cons; split; [rewrite H4o, H3o, H2o, H1o by apart;
      match goal with |- rows_of _ (TABLE ?E) = _ => exact (proj2 (Hfresh E _ _ ltac:(in_catalog))) end|]).
    by constructor.
Qed.

Lemma stored_elem entries e :
  well_scoped entries -> e ∈ entries -> stored entries (address_of e) = Some (DucklakeMetadata.value e).
Proof.
  intros [_ Hu] Hin. induction entries as [|x entries IH]; [by apply not_elem_of_nil in Hin|].
  rewrite stored_cons. cbn in Hu. apply NoDup_cons in Hu as [Hx Hu].
  apply elem_of_cons in Hin as [->|Hin]; [by rewrite decide_True|].
  rewrite decide_False; [by apply IH|]. intros Heq. apply Hx. rewrite Heq. by apply list_elem_of_fmap_2.
Qed.

Lemma new_parts readonly storage_options time_zone db lake :
  Lake.new None readonly storage_options time_zone db = Ok lake ->
  SnapshotCache.new None db = Ok (Lake.snapshot_cache lake) /\
  MetadataCache.load db = Ok (Lake.metadata_cache lake).
Proof.
  unfold Lake.new. intros (p & Hp & H)%outcome_bind_Ok. apply outcome_bind_Ok in H as (m & Hm & [= <-]).
  split; [done|]. by apply outcome_bind_Ok in Hm as (md & Hmd & [= <-]).
Qed.

Lemma connect_latest connect_options lake lake' db db'' readonly storage_options time_zone :
  at_version LATEST_VERSION db -> Lake.new None readonly storage_options time_zone db = Ok lake ->
  ConnectOptions.connection_type connect_options = ConnectionType.Latest ->
  Lake.connect begin_fails commit_fails connect_options db = (Ok lake', db'') ->
  db'' = db /\ Lake.snapshot_cache lake' = Lake.snapshot_cache lake /\
  Lake.metadata_cache lake' = Lake.metadata_cache lake.
Proof.
  intros Hat Hnew Htype Hconn. unfold Lake.connect in Hconn.
  apply bind_Ok in Hconn as (d & db1 & Hinit & Hconn).
  assert (db1 = db) as ->.
  { unfold Lake.init_catalog in Hinit. apply bind_Ok in Hinit as (d' & db2 & [_ ->]%st_lift_Ok & Hinit).
    apply bind_Ok in Hinit as (? & ? & [= <- <-] & Hinit).
    apply bind_Ok in Hinit as (v & ? & [Hver ->]%st_lift_Ok & Hinit).
    assert (v = LATEST_VERSION) as ->.
    { apply (get_version_at LATEST_VERSION v db Hat).
      destruct (Lake.get_version db); [done|by destruct (is_table_not_found_error _)|done]. }
    rewrite !bool_decide_true in Hinit by first [done|apply (bool_decide_unpack _); vm_compute; exact Logic.I].
    cbn [negb andb] in Hinit. apply bind_Ok in Hinit as (? & ? & Hup & [= _ <-]).
    rewrite upgrade_catalog_remaining in Hup by (apply (bool_decide_unpack _); vm_compute; exact Logic.I).
    change (remaining LATEST_VERSION) with (@nil Upgrades) in Hup. by injection Hup as _ <-. }
  apply bind_Ok in Hconn as (? & ? & [= <- <-] & Hconn).
  apply bind_Ok in Hconn as (snapshot & ? & [Hs ->]%st_lift_Ok & [Hnew' ->]%st_lift_Ok).
  rewrite Htype in Hs. injection Hs as <-.
  apply new_parts in Hnew as [Hp Hm], Hnew' as [Hp' Hm']. split_and!; congruence.
Qed.

Section Consequences.
Context (path : DucklakePath) (encrypted : bool) (db : Db) (Hcreated : created path encrypted db).

Lemma empty_rows t : t ∈ empty_tables -> rows_of db t = [].
Proof. pose proof (created_empty _ _ _ Hcreated) as H. rewrite Forall_forall in H. apply H. Qed.

Lemma created_recorded : recorded [(0, 0)]%Z db.
Proof.
  split.
  - intros r id version. rewrite (created_snapshot _ _ _ Hcreated). intros ->%list_elem_of_singleton.
    intros [= <-] [= <-]. by left.
  - intros r id version. rewrite empty_rows; [by intros ?%not_elem_of_nil|].
    apply (bool_decide_unpack _). vm_compute. exact Logic.I.
  - intros id id' version [= -> ->]%list_elem_of_singleton [= ->]%list_elem_of_singleton. done.
Qed.

Lemma created_at_version : exact_text -> at_version LATEST_VERSION db.
Proof.
  intros Htext. unfold at_version. rewrite (created_metadata _ _ _ Hcreated), filter_map_filter.
  exists (to_row (DucklakeMetadata.mk keys.VERSION LATEST_VERSION None None)). split; [|done].
  rewrite (filter_bool_ext _ (fun e => bool_decide (DucklakeMetadata.key e = keys.VERSION))); [done|].
  intros e _. apply Htext.
Qed.

Lemma fetched_empty E `{!Entity E} cond rows :
  TABLE E ∈ empty_tables -> select (TABLE E) cond db = Ok rows -> rows = [].
Proof.
  intros Hin [_ Hp]%select_rows_of. rewrite (empty_rows _ Hin) in Hp. by apply Permutation_nil_r in Hp.
Qed.

Lemma snapshot_query_empty E `{!Entity E} n l :
  snapshot_query E n db = Ok l -> TABLE E ∈ empty_tables -> l = [].
Proof.
  unfold snapshot_query. intros (rows & Hr & Hd)%outcome_bind_Ok Hin.
  apply outcome_fmap_Ok in Hr as (all & Hr & ->). apply fetched_empty in Hr as ->; [|done].
  by injection Hd as <-.
Qed.
Lemma in_active_empty E F `{!Entity E} `{!Entity F} column n l :
  in_active E F column n db = Ok l -> TABLE E ∈ empty_tables -> l = [].
Proof.
  unfold in_active. intros (active & _ & H)%outcome_bind_Ok Hin.
  apply outcome_bind_Ok in H as (rows & Hr & Hd). apply fetched_empty in Hr as ->; [|done].
  by injection Hd as <-.
Qed.
Lemma fetch_all_empty E `{!Entity E} l : fetch_all E db = Ok l -> TABLE E ∈ empty_tables -> l = [].
Proof.
  unfold fetch_all. intros (rows & Hr & Hd)%outcome_bind_Ok Hin. apply fetched_empty in Hr as ->; [|done].
  by injection Hd as <-.
Qed.
Ltac in_empty := apply (bool_decide_unpack _); vm_compute; exact Logic.I.

Lemma fetched_main rows cond :
  select (TABLE DucklakeSchema) cond db = Ok rows -> cond = any_row -> rows = [to_row Init.main_schema].
Proof.
  intros Hs ->. apply select_all_of in Hs as [_ Hp]. rewrite (created_schema _ _ _ Hcreated) in Hp.
  by apply Permutation_singleton_r in Hp.
Qed.

Lemma created_fetches f :
  SnapshotCache.fetch_catalog 0 db = Ok f ->
  f = mk_Fetched [Init.main_schema] [] [] [] [] [] [] [] [] [] [] [] [].
Proof.
  unfold SnapshotCache.fetch_catalog. intros Hf.
  apply outcome_bind_Ok in Hf as (schemas & Hs & Hf).
  assert (schemas = [Init.main_schema]) as ->.
  { apply outcome_bind_Ok in Hs as (rows & Hr & Hs). apply outcome_fmap_Ok in Hr as (all & Hr & ->).
    apply fetched_main in Hr as ->; [|done]. vm_compute in Hs. by injection Hs as <-. }
  apply outcome_bind_Ok in Hf as (tables & Hs1 & Hf). apply outcome_bind_Ok in Hf as (views & Hs2 & Hf).
  apply outcome_bind_Ok in Hf as (macros & Hs3 & Hf). apply outcome_bind_Ok in Hf as (impls & Hs4 & Hf).
  apply outcome_bind_Ok in Hf as (parameters & Hs5 & Hf). apply outcome_bind_Ok in Hf as (columns & Hs6 & Hf).
  apply outcome_bind_Ok in Hf as (tags & Hs7 & Hf). apply outcome_bind_Ok in Hf as (column_tags & Hs8 & Hf).
  apply outcome_bind_Ok in Hf as (partitions & Hs9 & Hf). apply outcome_bind_Ok in Hf as (pcolumns & Hs10 & Hf).
  apply outcome_bind_Ok in Hf as (sorts & Hs11 & Hf). apply outcome_bind_Ok in Hf as (expressions & Hs12 & Hf).
  apply snapshot_query_empty in Hs1, Hs2, Hs3, Hs6, Hs7, Hs8, Hs9, Hs11; try in_empty.
  apply in_active_empty in Hs4, Hs5, Hs12; try in_empty. apply fetch_all_empty in Hs10; [|in_empty].
  subst. by injection Hf as <-.
Qed.

Lemma created_catalog c :
  SnapshotCache.load_catalog 0 db = Ok c ->
  map_outcome (Catalog.schema_name c) (Catalog.list_schemas c) = Ok ["main"] /\
  Arena.arena (Catalog.table_arena c) = [] /\ Arena.arena (Catalog.view_arena c) = [] /\
  Arena.arena (Catalog.macro_arena c) = [].
Proof.
  intros (f & ->%created_fetches & Hb)%outcome_bind_Ok. vm_compute in Hb. injection Hb as <-.
  split_and!; vm_compute; reflexivity.
Qed.

Lemma created_options m :
  MetadataCache.load db = Ok m ->
  Metadata.global m !! keys.DATA_PATH = Some (DucklakePath.as_str (DucklakePath.ensure_directory path)) /\
  Metadata.encrypted m = encrypted.
Proof.
  unfold MetadataCache.load. intros (rows & Hr & Hm)%outcome_bind_Ok.
  apply outcome_bind_Ok in Hm as (entries & He & Hm).
  apply select_all_of in Hr as [_ Hp]. change (TABLE DucklakeMetadata) with METADATA in Hp.
  rewrite (created_metadata _ _ _ Hcreated) in Hp.
  assert (entries ≡ₚ Init.metadata_rows created_by path encrypted) as Hentries.
  { eapply decode_perm; [exact Hp|exact He|]. reflexivity. }
  assert (well_scoped entries) as Hw.
  { split.
    - rewrite Hentries. repeat (apply Forall_cons; split; [done|]). by constructor.
    - rewrite (fmap_Permutation address_of _ _ Hentries). apply (bool_decide_unpack _). vm_compute. exact Logic.I. }
  destruct (new_cached entries Hw) as (m' & Hm' & Hc). rewrite Hm' in Hm. injection Hm as ->.
  assert (forall e, e ∈ Init.metadata_rows created_by path encrypted ->
    Metadata.global m !! DucklakeMetadata.key e = Some (DucklakeMetadata.value e)) as Hg.
  { intros e Hin.
    assert (address_of e = (DucklakeMetadata.key e, None, None)) as Ha.
    { unfold Init.metadata_rows in Hin.
      repeat (apply elem_of_cons in Hin as [->|Hin]; [done|]). by apply not_elem_of_nil in Hin. }
    rewrite <-Hentries in Hin. rewrite <-(stored_elem entries e Hw Hin), Ha, <-Hc; done. }
  split.
  - apply (Hg (DucklakeMetadata.mk keys.DATA_PATH _ None None)). do 2 right. by left.
  - pose proof (Hg (DucklakeMetadata.mk keys.ENCRYPTED (Init.bool_to_string encrypted) None None)
      ltac:(do 3 right; by left)) as He'. cbn [DucklakeMetadata.key DucklakeMetadata.value] in He'.
    unfold Metadata.encrypted. rewrite He'. by destruct encrypted.
Qed.
End Consequences.

(** C32: creating a lake gives a catalog everything else can start from. There was
    none before; the process is in the initial state of the cache's transition
    system, on a database whose only snapshot is 0; the catalog of that snapshot
    has the schema [main] and nothing else; the options the lake was created with
    are the ones its metadata gives; and connecting to it finds the latest version
    and opens the same lake without writing. *)
Theorem created_lake_is_initial (options : CreateOptions) db (lake : Lake.t) db'
    (Hcreate : Lake.create begin_fails commit_fails now created_by options db = (Ok lake, db')) :
  db !! TABLE DucklakeMetadata = None /\
  initial (mk_World [(0, 0)]%Z db' (Lake.snapshot_cache lake)) /\
  (forall c, SnapshotCache.load_catalog 0 db' = Ok c ->
    map_outcome (Catalog.schema_name c) (Catalog.list_schemas c) = Ok ["main"] /\
    Arena.arena (Catalog.table_arena c) = [] /\ Arena.arena (Catalog.view_arena c) = [] /\
    Arena.arena (Catalog.macro_arena c) = []) /\
  (exists path, Init.parse_path (CreateOptions.data_path options) = Ok path /\
    Metadata.global (Lake.metadata_cache lake) !! keys.DATA_PATH =
      Some (DucklakePath.as_str (DucklakePath.ensure_directory path))) /\
  Metadata.encrypted (Lake.metadata_cache lake) = CreateOptions.encrypted options /\
  (exact_text -> at_version LATEST_VERSION db' /\
    forall (connect_options : ConnectOptions) lake' db'',
      ConnectOptions.connection_type connect_options = ConnectionType.Latest ->
      Lake.connect begin_fails commit_fails connect_options db' = (Ok lake', db'') ->
      db'' = db' /\ Lake.snapshot_cache lake' = Lake.snapshot_cache lake /\
      Lake.metadata_cache lake' = Lake.metadata_cache lake).
Proof.
  unfold Lake.create in Hcreate. apply bind_Ok in Hcreate as (d & db0 & [_ ->]%st_lift_Ok & Hcreate).
  apply bind_Ok in Hcreate as (db1 & db2 & [= <- <-] & Hcreate).
  case_bool_decide as Hnone; [done|]. apply bind_Ok in Hcreate as (u & db1 & Hinit & Hcreate).
  apply bind_Ok in Hcreate as (db2 & db3 & [= <- <-] & [Hnew ->]%st_lift_Ok).
  apply init_created in Hinit as (Hmeta & path & Hpath & Hc). split; [done|].
  destruct (new_parts _ _ _ _ _ Hnew) as (Hcache & Hmd).
  split_and!.
  - split; [by eapply created_recorded|]. exists None. by split.
  - intros c. by apply (created_catalog path (CreateOptions.encrypted options)).
  - exists path. split; [done|]. by apply (created_options _ _ _ Hc).
  - by apply (created_options _ _ _ Hc).
  - intros Htext. pose proof (created_at_version _ _ _ Hc Htext) as Hat. split; [done|].
    intros copts lake' db'' Htype Hconn. by eapply connect_latest.
Qed.
End Created.

(** ** A server in memory *)

#[export] Instance demo_servers : Servers := {|
  UTC := "UTC";
  tz_parse s := Some s;
  connect_pool _ _ _ := Ok tt;
  instant_exists d := (d <? 2 ^ 63)%Z;
|}.
#[export] Instance demo_cast : SqlCast := {| cast_bigint := i64_from_str |}.
Definition demo_run_ddl (s : Ddl) (db : Db) : result Db :=
  ok_or (Database false false "constraint violation") (ddl_effect s db).
Lemma demo_run_ddl_effect s db db' : demo_run_ddl s db = Ok db' -> ddl_effect s db = Some db'.
Proof. unfold demo_run_ddl. destruct (ddl_effect s db); [by intros [= ->]|done]. Qed.
#[export] Instance demo_upgrade_engine : UpgradeEngine := {|
  run_ddl := demo_run_ddl; run_ddl_effect := demo_run_ddl_effect |}.

Definition demo_create : method Db Lake.t :=
  Lake.create (fun _ => None) (fun _ => None) (100%Z : Z) "ducklake 0.0.0"
    (CreateOptions.new "sqlite:///lake.db" "/data").

(** ** A lake, created and opened again; an old catalog *)

Lemma demo_create_ok : exists lake db', demo_create ∅ = (Ok lake, db').
Proof.
  assert (is_ok (demo_create ∅).1 = true) as H by (vm_compute; reflexivity).
  destruct (demo_create ∅) as [[lake| |] db']; [by exists lake, db'|discriminate..].
Qed.
Lemma created_lake_is_initial_witness : exists lake db',
  demo_create ∅ = (Ok lake, db') /\ initial (mk_World [(0, 0)]%Z db' (Lake.snapshot_cache lake)).
Proof.
  destruct demo_create_ok as (lake & db' & Hc). exists lake, db'. split; [exact Hc|].
  exact (proj1 (proj2 (created_lake_is_initial (fun _ => None) (fun _ => None) (100%Z : Z) "ducklake 0.0.0"
    (CreateOptions.new "sqlite:///lake.db" "/data") ∅ lake db' Hc))).
Defined.

(** A catalog of version 0.3 that lacks the tables the upgrade to 0.4 changes *)
Definition old_db : Db := <[TABLE DucklakeMetadata := DbTable.mk (COLUMNS DucklakeMetadata) None
  [to_row (DucklakeMetadata.mk "version" "0.3" None None)]]> ∅.
Lemma old_at_version : at_version "0.3" old_db.
Proof. eexists. split; vm_compute; reflexivity. Qed.

Lemma upgrade_resumes_witness :
  let run := Upgrades.upgrade_catalog Dialect.Sqlite (fun _ => None) (fun _ => None) "0.3" old_db in
  exists v', at_version v' run.2 /\
    Upgrades.upgrade_catalog Dialect.Sqlite (fun _ => None) (fun _ => None) v' run.2 = run.
Proof.
  cbv zeta.
  destruct (Upgrades.upgrade_catalog Dialect.Sqlite (fun _ => None) (fun _ => None) "0.3" old_db)
    as [res db'] eqn:Hrun.
  destruct (upgrade_resumes (fun _ => None) (fun _ => None) Dialect.Sqlite "0.3" old_db res db')
    as (v' & finished & _ & Hat & _ & _ & _ & _ & Hagain).
  - discriminate.
  - apply (bool_decide_unpack _). vm_compute. exact Logic.I.
  - exact old_at_version.
  - exact Hrun.
  - exists v'. split; [exact Hat|exact Hagain].
Defined.

(** A catalog of version 0.1, and an engine that refuses to create tables: for
    want of room or of rights, say *)
Definition first_db : Db := list_to_map [
  ("ducklake_schema", DbTable.mk ["schema_id"] None []); ("ducklake_table", DbTable.mk ["table_id"] None []);
  ("ducklake_data_file", DbTable.mk ["data_file_id"] None []);
  ("ducklake_column", DbTable.mk ["column_id"] None []);
  ("ducklake_partition_column", DbTable.mk ["column_id"] None []);
  ("ducklake_metadata", DbTable.mk ["key"; "value"] None [[("key", SText "version"); ("value", SText "0.1")]])].
Definition full_run_ddl (s : Ddl) (db : Db) : result Db :=
  match s with
  | Ddl.CreateTable _ _ => Err (Database false false "disk full")
  | _ => run_ddl s db
  end.
Lemma full_run_ddl_effect s db db' : full_run_ddl s db = Ok db' -> ddl_effect s db = Some db'.
Proof. destruct s; cbn [full_run_ddl]; try done; apply run_ddl_effect. Qed.
Definition full_engine : UpgradeEngine :=
  {| run_ddl := full_run_ddl; run_ddl_effect := full_run_ddl_effect |}.
Definition interrupted (dialect : Dialect) : Db :=
  (Upgrades.upgrade (UPG := full_engine) dialect (fun _ => None) (fun _ => None) Upgrades.V0_2 first_db).2.

(** An upgrade that is interrupted can be resumed unless the database is MySQL:
    there the columns that were added before the failure stay, and every later
    upgrade fails because they are there. *)
Theorem interrupted_mysql_upgrade_is_stuck :
  let resume dialect :=
    (Upgrades.upgrade dialect (fun _ => None) (fun _ => None) Upgrades.V0_2 (interrupted dialect)).1 in
  interrupted Dialect.Sqlite = first_db /\ resume Dialect.Sqlite = Ok tt /\
  interrupted Dialect.MySql <> first_db /\ is_ok (resume Dialect.MySql) = false.
Proof.
  cbv zeta. split_and!; [vm_compute; reflexivity|vm_compute; reflexivity| |vm_compute; reflexivity].
  intros H. apply (f_equal (fun db : Db => DbTable.columns <$> db !! "ducklake_schema")) in H.
  revert H. vm_compute. discriminate.
Qed.

Definition old_options : ConnectOptions := ConnectOptions.new "sqlite:///old.db".
Lemma old_version : Lake.get_version old_db = Ok "0.3".
Proof. vm_compute. reflexivity. Qed.
Lemma old_pool : Pool.new (ConnectOptions.url old_options) (ConnectOptions.database_options old_options) = Ok Dialect.Sqlite.
Proof. vm_compute. reflexivity. Qed.
Lemma new_pool :
  Pool.new (CreateOptions.url (CreateOptions.new "sqlite:///old.db" "/data"))
    (CreateOptions.database_options (CreateOptions.new "sqlite:///old.db" "/data")) = Ok Dialect.Sqlite.
Proof. vm_compute. reflexivity. Qed.
Lemma connect_guards_witness :
  Lake.connect (fun _ => None) (fun _ => None) old_options old_db = (Err (OutdatedVersion "0.3" "1.0"), old_db).
Proof.
  apply (connect_guards (fun _ => None) (fun _ => None) old_options
    (CreateOptions.new "sqlite:///old.db" "/data") (100%Z : Z) "" Dialect.Sqlite Dialect.Sqlite old_db old_pool new_pool).
  - exact old_version.
  - apply (bool_decide_unpack _). vm_compute. exact Logic.I.
  - discriminate.
  - reflexivity.
Defined.
