(* ===== verification/Transfer.v ===== *)
(** * Copying and moving tables between lakes ([transfer.rs], [io/mod.rs], [db/mod.rs])

    Tables of a source are created with their data in one transaction of a
    target; for a move, the source then drops them in a transaction of its own.
    The state is both sessions and the objects; on either side other clients are
    at work in between. *)

From S2P Require Import Prelude Text Regex Identifier Types Instances Entities CatalogColumns.
From S2P Require Import Catalog TableStats CommitState Change Dialect TransactionChanges Executors.
From S2P Require Import Database Metadata Load Transactions TransactionTable Persist Commit Expire Cache.
From S2P Require Import Connection Scan.

(** ** Which catalog a pool is connected to ([db/mod.rs]) *)

(** The file system: where a path leads to, and equality of paths *)
Class FileSystem : Type := {
  canonicalize : string -> option string;
  path_eqb : string -> string -> bool;
}.

(** The options the driver of a pool was connected with *)
Module Pooled.
Inductive t : Type :=
  | Postgres (host : string) (port : Z) (socket : option string) (database : option string) (username : string)
  | MySql (host : string) (port : Z) (socket : option string) (database : option string)
  | Sqlite (filename : string).

Definition dialect (self : t) : Dialect :=
  match self with
  | Postgres _ _ _ _ _ => Dialect.Postgres
  | MySql _ _ _ _ => Dialect.MySql
  | Sqlite _ => Dialect.Sqlite
  end.
End Pooled.
Abbreviation Pooled := Pooled.t.

Inductive ServerEndpoint : Type := Host (name : string) | Socket (path : string).

Module ServerCatalogKey.
Record t : Type := mk { endpoint : ServerEndpoint; port : Z; database : option string }.
Section ServerCatalogKey.
Context `{FS : !FileSystem}.

Definition normalized_path (path : string) : string := default path (canonicalize path).

(** A host that starts with a slash is the directory of a socket. *)
Definition new (host : string) (port : Z) (socket database : option string) : t :=
  let socket := match socket with
                | Some s => Some s
                | None => if is_absolute_path host then Some host else None
                end in
  let endpoint := match socket with
                  | Some socket => Socket (normalized_path socket)
                  | None => Host (to_ascii_lowercase host)
                  end in
  mk endpoint port database.

Definition endpoint_eqb (a b : ServerEndpoint) : bool :=
  match a, b with
  | Host a, Host b => bool_decide (a = b)
  | Socket a, Socket b => path_eqb a b
  | _, _ => false
  end.
Definition eqb (a b : t) : bool :=
  endpoint_eqb (endpoint a) (endpoint b) && (port a =? port b)%Z && bool_decide (database a = database b).

(** Without a database, Postgres connects to the one of the user. *)
Definition from_postgres (host : string) (port : Z) (socket database : option string) (username : string) : t :=
  new host port socket (match database with Some d => Some d | None => Some username end).

Definition is_same_catalog (self other : Pooled) : bool :=
  match self, other with
  | Pooled.Postgres h p s d u, Pooled.Postgres h' p' s' d' u' =>
      eqb (from_postgres h p s d u) (from_postgres h' p' s' d' u')
  | Pooled.MySql h p s d, Pooled.MySql h' p' s' d' => eqb (new h p s d) (new h' p' s' d')
  | Pooled.Sqlite f, Pooled.Sqlite f' => path_eqb (normalized_path f) (normalized_path f')
  | _, _ => false
  end.
End ServerCatalogKey.
End ServerCatalogKey.

(** ** Copying a file ([io/mod.rs]) *)

(** The object stores ([object_store]): places, a copy within one store, reading
    in chunks, and buffered uploads *)
Class ObjectTransfers `{External} : Type := {
  Objects : Type;
  Place : Type;
  Upload : Type;
  byte : Type;
  place : DucklakePath -> list (string * string) -> result Place;
  same_store : Place -> Place -> bool;
  store_copy : Place -> Place -> method Objects unit;
  store_get : Place -> method Objects (list (result (list byte)));
  upload : Place -> N -> Upload;
  put : list byte -> method (Upload * Objects) unit;
  abort_upload : method (Upload * Objects) unit;
  shutdown : method (Upload * Objects) unit;
  uuid_text : Uuid -> string;
}.

Module Io.
Section Io.
Context `{EXT : External} `{OBJ : !ObjectTransfers}.

Definition CHUNK_SIZE : N := 8 * 1024 * 1024.

(** [(0..len).step_by(CHUNK_SIZE)] *)
Definition offsets (len : N) : list N :=
  (fun i => N.of_nat i * CHUNK_SIZE)%N <$> seq 0 (N.to_nat ((len + (CHUNK_SIZE - 1)) / CHUNK_SIZE)).
(** [bytes.slice(offset..(offset + CHUNK_SIZE).min(len))] *)
Definition slice (bytes : list byte) (offset : N) : list byte :=
  let stop := N.min (offset + CHUNK_SIZE) (N.of_nat (length bytes)) in
  take (N.to_nat (stop - offset)) (drop (N.to_nat offset) bytes).
Definition slices (bytes : list byte) : list (list byte) :=
  slice bytes <$> offsets (N.of_nat (length bytes)).

Definition put_chunk (chunk : result (list byte)) : method (Upload * Objects) unit :=
  bytes ← st_lift chunk; st_for put (slices bytes).

(** A failed upload is aborted, and the error of the copy is kept. *)
Definition copy_stream (contents : list (result (list byte))) (destination : Place) : method Objects unit :=
  fun objects =>
    let '(res, (_, objects)) :=
      (res ← Commit.st_result (st_for put_chunk contents);
       match res with
       | Err e => Commit.st_result abort_upload ;; st_throw e
       | Panic => st_panic
       | Ok _ => shutdown
       end) (upload destination CHUNK_SIZE, objects) in
    (res, objects).

Definition copy_file (source : DucklakePath) (source_options : list (string * string))
    (destination : DucklakePath) (destination_options : list (string * string)) : method Objects unit :=
  source ← st_lift (place source source_options);
  destination ← st_lift (place destination destination_options);
  if same_store source destination then store_copy source destination
  else contents ← store_get source; copy_stream contents destination.
End Io.
End Io.

(** ** Transfers ([transfer.rs]) *)

(** A lake: its pool and its connection. The caches of its process, which the
    handles on its tables share, are a session. *)
Module Endpoint.
Record t `{TimeZones} : Type := mk { pool : Pooled; conn : DucklakeConnection }.
#[global] Arguments mk {_} pool conn.
End Endpoint.

(** A table to transfer, with the pool of its connection *)
Module TableTransfer.
Record t `{TimeZones} : Type := mk { pool : Pooled; table : Table; name : option QualifiedName }.
#[global] Arguments mk {_} pool table name.
End TableTransfer.

Module TableTransferInfo.
Record t `{External} : Type := mk {
  info : TableInfo.t;
  scan : TableTransferScan.t;
  retired_columns : list DucklakeColumn;
}.
#[global] Arguments mk {_} info scan retired_columns.
End TableTransferInfo.

(** Both sessions, the objects, and the UUIDs drawn so far *)
Module Lakes.
Record t `{External} `{!ObjectTransfers} : Type := mk {
  source : Session; target : Session; objects : Objects; drawn : nat;
}.
#[global] Arguments mk {_ _} source target objects drawn.
Definition eta `{External} `{!ObjectTransfers} (w : t) : t := mk (source w) (target w) (objects w) (drawn w).
#[export] Instance set_source `{External} `{!ObjectTransfers} : Setter source := ltac:(mk_setter eta source).
#[export] Instance set_target `{External} `{!ObjectTransfers} : Setter target := ltac:(mk_setter eta target).
#[export] Instance set_objects `{External} `{!ObjectTransfers} : Setter objects := ltac:(mk_setter eta objects).
#[export] Instance set_drawn `{External} `{!ObjectTransfers} : Setter drawn := ltac:(mk_setter eta drawn).
End Lakes.
#[export] Existing Instances Lakes.set_source Lakes.set_target Lakes.set_objects Lakes.set_drawn.
Abbreviation Lakes := Lakes.t.

Module Transfer.
Section Transfer.
Context `{EXT : External} `{ENV : !Environment} `{TXT : !ValueText} `{HASH : HashOrder}
  `{ITER : !Itertools} `{ENG : !RegexEngine} `{CMP : !SqlCompare} `{ENGINE : !SqlEngine}
  `{FT : !FloatText} `{FMT : !DataFormats} `{SQL : !SqlText} `{ZONES : !TimeZones} `{NAMES : !FileNames}
  `{ERR : !DatabaseErrors} `{SCAN : !ScanFormats} `{FS : !FileSystem} `{OBJ : !ObjectTransfers}.
Context (epoch : DateTimeUtc).
(* what happens around either session *)
Context (around_source around_target : Surroundings).

Definition on_source {A} (m : method Session A) : method Lakes A :=
  st_zoom Lakes.source (fun s w => w <| Lakes.source := s |>) m.
Definition on_target {A} (m : method Session A) : method Lakes A :=
  st_zoom Lakes.target (fun s w => w <| Lakes.target := s |>) m.
Definition on_objects {A} (m : method Objects A) : method Lakes A :=
  st_zoom Lakes.objects (fun o w => w <| Lakes.objects := o |>) m.

(** Other clients are at work until the next access. *)
Definition interact (around : Surroundings) : method Session unit :=
  s ← st_get;
  st_modify (fun s => s <| Session.metadata ::= fun m => m <| MetadataCache.db ::= others (Session.clock s) |> |>) ;;
  st_modify (fun s => s <| Session.clock ::= S |>).

(** *** What to transfer ([Table::transfer_info]) *)

Definition active_column_ids (columns : list Column) : list Z :=
  omap (fun flat => Column.field_id (Column.column flat)) (concat (Column.flatten <$> columns)).

(** [ORDER BY begin_snapshot DESC]: the last version of each column that is gone *)
Definition load_retired_columns (table_id : Z) (columns : list Column) (db : Db) : result (list DucklakeColumn) :=
  rows ← select (TABLE DucklakeColumn) (Cond.Eq "table_id" (to_sql table_id)) db;
  all ← Tx.decode_rows rows;
  mret (unique_by DucklakeColumn.column_id (List.filter (fun c =>
    negb (bool_decide (DucklakeColumn.column_id c ∈ active_column_ids columns)))
    (sort_by_key (fun a b => Z.leb b a) DucklakeColumn.begin_snapshot all))).

Definition transfer_info (self : Table) : method Session TableTransferInfo.t :=
  interact around_source ;;
  p ← Ducklake.snapshot (Table.conn self) SnapshotAccess.Any;
  Ducklake.scoped p (
    c ← Ducklake.snapshot_catalog p;
    r ← st_lift (Catalog.table_by_id c (Table.id self));
    info ← st_lift (Catalog.table_info c r);
    s ← st_get;
    data_path ← st_lift (root ← Metadata.data_path (Ducklake.metadata s); Catalog.table_data_path c r root);
    retired_columns ← st_lift (load_retired_columns (Table.id self)
      (Schema.columns (TableInfo.schema info)).*2 (Session.db s));
    scan ← Ducklake.on_process (Scan.scan_table_for_transfer epoch (Table.id self) p data_path);
    mret (TableTransferInfo.mk info scan retired_columns)).

(** *** Files *)

Definition generate_relative (generator : DataFilePathGenerator.t) : method Lakes string :=
  n ← st_gets Lakes.drawn;
  st_modify (fun w => w <| Lakes.drawn ::= S |>) ;;
  mret (DataFilePathGenerator.generate_relative generator (uuid_text (now_v7 n)) []).

Definition copy_transfer_file (source_options target_options : list (string * string))
    (generator : DataFilePathGenerator.t) (source_path : string) : method Lakes string :=
  source ← st_lift (Ops.parse_path source_path);
  relative_path ← generate_relative generator;
  base ← st_lift (Ops.parse_path (DucklakePath.as_str (DataFilePathGenerator.base_path generator)));
  destination ← st_lift (infallible (DucklakePath.join_str base relative_path));
  on_objects (Io.copy_file source source_options destination target_options) ;;
  mret relative_path.

(** The files as the target registers them: copies, or the files themselves *)
Definition transfer_file (copy : string -> method Lakes string)
    (file : ScanDataFile.t * option (list (option string))) : method Lakes TransferDataFile.t :=
  let '(data_file, partition_values) := file in
  path ← copy (ScanDataFile.path data_file);
  delete_files ← st_map (fun f =>
    path ← copy (ScanDeleteFile.path f);
    mret (ScanDeleteFile.mk path (ScanDeleteFile.encryption_key f) (ScanDeleteFile.num_deletes f)
      (ScanDeleteFile.file_size_bytes f) (ScanDeleteFile.footer_size_bytes f)))
    (ScanDataFile.delete_files data_file);
  mret (TransferDataFile.mk
    (WriteDataFile.mk path (ScanDataFile.encryption_key data_file) (Some (ScanDataFile.statistics data_file)) None)
    partition_values delete_files (default [] (ScanDataFile.inline_deletes data_file))).

Definition copying (copy_files : bool) (source_options target_options : list (string * string))
    (generator : DataFilePathGenerator.t) (path : string) : method Lakes string :=
  if copy_files then copy_transfer_file source_options target_options generator path else mret path.

(** *** One table, in the transaction of the target *)

Definition perform {A} (op : method Transaction A) (tx : Transaction) : method Lakes Transaction :=
  '(_, tx) ← st_lift (Ducklake.perform op tx); mret tx.

Definition transfer_table (copy_files : bool) (target : Endpoint.t)
    (transfer : TableTransfer.t * TableTransferInfo.t * QualifiedName) (tx : Transaction)
    : method Lakes Transaction :=
  let '(transfer, info, name) := transfer in
  let dialect := Pooled.dialect (Endpoint.pool target) in
  let scan := TableTransferInfo.scan info in
  tx ← perform (Ops.create_schema (QualifiedName.schema name) None Skip) tx;
  tx ← perform (Ops.create_transfer_table name (TableTransferInfo.info info)
                  (TableTransferInfo.retired_columns info)) tx;
  w ← st_get;
  let metadata := Ducklake.metadata (Lakes.target w) in
  '(_, generator, _, _) ← st_lift (TableOps.get_table_write_info dialect metadata name (Transaction.catalog tx));
  data_files ← st_map (transfer_file (copying copy_files
      (DucklakeConnection.storage_options (Table.conn (TableTransfer.table transfer)))
      (DucklakeConnection.storage_options (Endpoint.conn target)) generator))
    (zip (ScanResult.data_files (TableTransferScan.result scan)) (TableTransferScan.partition_values scan));
  tx ← match data_files with
       | [] => mret tx
       | _ => perform (TableOps.write_table_transfer_data_files metadata name data_files) tx
       end;
  match ScanResult.inline_data (TableTransferScan.result scan) with
  | [] => mret tx
  | data => perform (TableOps.write_table_inline_data dialect name data) tx
  end.

Fixpoint transfer_each (copy_files : bool) (target : Endpoint.t)
    (transfers : list (TableTransfer.t * TableTransferInfo.t * QualifiedName)) (tx : Transaction)
    : method Lakes Transaction :=
  match transfers with
  | [] => mret tx
  | transfer :: transfers =>
      tx ← transfer_table copy_files target transfer tx; transfer_each copy_files target transfers tx
  end.

(** The snapshot of the transaction is held until the end of the scope. *)
Definition scoped_target {A} (p : nat) (m : method Lakes A) : method Lakes A :=
  res ← Commit.st_result m;
  on_target (Ducklake.on_process (fun _ => SnapshotCache.release p)) ;;
  st_lift res.

Definition write_target (copy_files : bool) (target : Endpoint.t)
    (transfers : list (TableTransfer.t * TableTransferInfo.t * QualifiedName)) : method Lakes unit :=
  '(p, tx) ← on_target (interact around_target ;; Ducklake.transaction (Endpoint.conn target) None);
  scoped_target p (
    tx ← transfer_each copy_files target transfers tx;
    on_target (Ducklake.commit (AROUND := around_target) (Pooled.dialect (Endpoint.pool target)) tx)).

(** *** The source of a move *)

Definition head_id (self : DucklakeConnection) : method Session Z :=
  interact around_source ;;
  p ← Ducklake.snapshot self SnapshotAccess.Write;
  Ducklake.scoped p (info ← Ducklake.snapshot_info p; mret (SnapshotInfo.id info)).

(** A move begins at the head, and copying does not ask for it. *)
Definition begin_transfer (copy_files : bool) (source : Endpoint.t) : method Lakes (option Z) :=
  if copy_files then mret None
  else id ← on_source (head_id (Endpoint.conn source)); mret (Some id).

Definition drop_source (source : Endpoint.t) (names : list QualifiedName) : method Session unit :=
  interact around_source ;;
  '(p, tx) ← Ducklake.transaction (Endpoint.conn source) None;
  Ducklake.scoped p (
    '(_, tx) ← st_lift (Ducklake.perform (st_for Ops.delete_table_transferring_file_ownership names) tx);
    Ducklake.commit (AROUND := around_source) (Pooled.dialect (Endpoint.pool source)) tx).

Definition detach_source (source : Endpoint.t) (names : list QualifiedName) (snapshot_id : Z)
    : method Session unit :=
  id ← head_id (Endpoint.conn source);
  if negb (id =? snapshot_id)%Z then st_throw TableChangedDuringTransfer
  else drop_source source names.

(** *** The transfer *)

Definition invalid_transfer (reason : string) : DucklakeError := InvalidTableTransfer reason.

(** The checks before anything is read *)
Definition check_transfer (source target : Endpoint.t) (tables : list TableTransfer.t) (copy_files : bool)
    (source_metadata target_metadata : Metadata) : result unit :=
  let is_source pool := ServerCatalogKey.is_same_catalog pool (Endpoint.pool source) in
  if negb (forallb (fun t => is_source (TableTransfer.pool t)) tables)
  then Err (invalid_transfer "all tables must belong to the source DuckLake")
  else if is_source (Endpoint.pool target)
  then Err (invalid_transfer "the source and target must be different DuckLake catalogs")
  else if negb (Bool.eqb (Metadata.encrypted source_metadata) (Metadata.encrypted target_metadata))
  then Err (invalid_transfer "the source and target catalogs must use the same encryption setting")
  else if negb copy_files && negb (bool_decide (NoDup ((fun t => Table.id (TableTransfer.table t)) <$> tables)))
  then Err (invalid_transfer "a table cannot occur more than once in a move")
  else Ok tt.

(** The first name that was there before *)
Fixpoint repeated (seen : list QualifiedName) (names : list QualifiedName) : option QualifiedName :=
  match names with
  | [] => None
  | name :: names => if decide (name ∈ seen) then Some name else repeated (name :: seen) names
  end.

Definition target_names (tables : list TableTransfer.t) (source_names : list QualifiedName) : list QualifiedName :=
  (fun '(transfer, source_name) => default source_name (TableTransfer.name transfer)) <$> zip tables source_names.

Definition transfer_tables (source target : Endpoint.t) (tables : list TableTransfer.t) (copy_files : bool)
    : method Lakes (list Table) :=
  match tables with
  | [] => mret []
  | _ =>
    w ← st_get;
    st_lift (check_transfer source target tables copy_files
      (Ducklake.metadata (Lakes.source w)) (Ducklake.metadata (Lakes.target w))) ;;
    source_snapshot_id ← begin_transfer copy_files source;
    infos ← st_map (fun t => on_source (transfer_info (TableTransfer.table t))) tables;
    let source_names := (fun info => TableInfo.name (TableTransferInfo.info info)) <$> infos in
    let names := target_names tables source_names in
    match repeated [] names with
    | Some name => st_throw (invalid_transfer
        ("multiple tables target the same name '" +:+ QualifiedName.to_string name +:+ "'"))
    | None =>
        write_target copy_files target (zip (zip tables infos) names) ;;
        st_when_some (fun id => on_source (detach_source source source_names id)) source_snapshot_id ;;
        st_map (fun name => on_target (interact around_target ;; Ducklake.table (Endpoint.conn target) (Ok name))) names
    end
  end.

Definition copy_tables (source target : Endpoint.t) (tables : list TableTransfer.t) : method Lakes (list Table) :=
  transfer_tables source target tables true.
Definition move_tables (source target : Endpoint.t) (tables : list TableTransfer.t) : method Lakes (list Table) :=
  transfer_tables source target tables false.
End Transfer.
End Transfer.
