(* ===== verification/TransferFacts.v ===== *)
(** * What transfers guarantee ([transfer.rs])

    A transfer writes the target in one commit; the source is only written by a
    move, after that commit, and only at the snapshot the move began with. *)

From S2P Require Import Prelude Triple Text Regex Identifier Types Instances Entities CatalogColumns.
From S2P Require Import Catalog TableStats CommitState Change Dialect TransactionChanges Executors.
From S2P Require Import Database Metadata Load Transactions TransactionTable Persist Commit Demo Retry.
From S2P Require Import TransactionFacts Expire Cache CacheFacts Connection ConnectionFacts Scan ScanFacts Transfer.

(** ** Sessions that have not written *)

Section Sessions.
Context `{EXT : External} `{ENV : !Environment} `{TXT : !ValueText} `{HASH : HashOrder}
  `{ITER : !Itertools} `{ENG : !RegexEngine} `{CMP : !SqlCompare} `{ENGINE : !SqlEngine}
  `{FT : !FloatText} `{FMT : !DataFormats} `{SQL : !SqlText} `{ZONES : !TimeZones}
  `{ERR : !DatabaseErrors} `{SCAN : !ScanFormats}.
Context (epoch : DateTimeUtc) (around : Surroundings).
Implicit Types s : Session.

(** Only other clients have written to the database of the session. *)
Definition quiet s0 s : Prop :=
  exists k, Session.clock s = Session.clock s0 + k /\
    Session.db s = others_from (Session.clock s0) k (Session.db s0).

Lemma quiet_refl s : quiet s s.
Proof. exists 0. split; [lia|done]. Qed.
Lemma quiet_trans s0 s1 s2 : quiet s0 s1 -> quiet s1 s2 -> quiet s0 s2.
Proof.
  intros (k1 & Hk1 & Hd1) (k2 & Hk2 & Hd2). exists (k1 + k2). split; [lia|].
  rewrite Hd2, Hd1, Hk1. clear. generalize (Session.clock s0) (Session.db s0). intros n db. symmetry.
  induction k1 as [|k1 IH] in n, db |- *; [cbn; by rewrite Nat.add_0_r|].
  cbn [others_from Nat.add]. rewrite IH. f_equal. lia.
Qed.

Lemma quiet_interact s0 : triple (quiet s0) (Transfer.interact around) any.
Proof.
  intros s (k & Hk & Hd). split; [|done]. exists (S k).
  split; [change (S (Session.clock s) = Session.clock s0 + S k); lia|].
  rewrite others_from_snoc, <-Hd, <-Hk. reflexivity.
Qed.
Lemma quiet_process {A} s0 (m : Db -> method Process A) : triple (quiet s0) (Ducklake.on_process m) any.
Proof.
  unfold Ducklake.on_process. repeat triple_step; [by apply (triple_gets _ _ any)|].
  by apply triple_zoom with (J := any).
Qed.
Lemma quiet_scoped {A} s0 p (m : method Session A) :
  triple (quiet s0) m any -> triple (quiet s0) (Ducklake.scoped p m) any.
Proof.
  intros Hm. unfold Ducklake.scoped. eapply (triple_bind _ _ _ any).
  - intros s Hs. unfold Commit.st_result. destruct (Hm s Hs) as [Hs' _]. destruct (m s). by split.
  - intros res _. eapply triple_bind; [apply quiet_process|]. intros _ _. by apply triple_lift.
Qed.
Lemma quiet_snapshot s0 conn access : triple (quiet s0) (Ducklake.snapshot conn access) any.
Proof.
  unfold Ducklake.snapshot.
  destruct access, (DucklakeConnection.mode conn); first [apply quiet_process|apply triple_throw].
Qed.
Lemma quiet_read {A} s0 conn access (f : Catalog -> result A) :
  triple (quiet s0) (Ducklake.read (Ducklake.snapshot conn access) f) any.
Proof.
  unfold Ducklake.read. triple_step; [apply quiet_snapshot|]. apply quiet_scoped.
  triple_step; [apply quiet_process|]. by apply triple_lift.
Qed.
Lemma quiet_table s0 conn name : triple (quiet s0) (Ducklake.table conn name) any.
Proof. unfold Ducklake.table. triple_step; [by apply (triple_lift _ _ any)|apply quiet_read]. Qed.
Lemma quiet_transaction s0 conn author : triple (quiet s0) (Ducklake.transaction conn author) any.
Proof.
  unfold Ducklake.transaction. triple_step; [apply quiet_snapshot|].
  triple_step; [apply quiet_process|]. triple_step; [apply quiet_process|]. by apply triple_ret.
Qed.
Lemma quiet_head_id s0 conn : triple (quiet s0) (Transfer.head_id around conn) any.
Proof.
  unfold Transfer.head_id. triple_step; [apply quiet_interact|]. triple_step; [apply quiet_snapshot|].
  apply quiet_scoped. triple_step; [apply quiet_process|]. by apply triple_ret.
Qed.
Lemma quiet_transfer_info s0 table : triple (quiet s0) (Transfer.transfer_info epoch around table) any.
Proof.
  unfold Transfer.transfer_info. triple_step; [apply quiet_interact|]. triple_step; [apply quiet_snapshot|].
  apply quiet_scoped. triple_step; [apply quiet_process|].
  do 2 (triple_step; [by apply (triple_lift _ _ any)|]).
  eapply (triple_bind _ _ _ any); [eapply triple_any, triple_get|]. intros s _.
  do 2 (triple_step; [by apply (triple_lift _ _ any)|]).
  triple_step; [apply quiet_process|]. by apply triple_ret.
Qed.

(** The head was read before, so that it can be updated afterwards. *)
Lemma insert_head_runs head info self self' :
  SnapshotCache.info_of (Process.current self) self = (Ok head, self') ->
  exists p self1, SnapshotCache.insert_snapshot info self = (Ok p, self1).
Proof.
  intros Hc. assert (self' = self) as ->.
  { revert Hc. unfold SnapshotCache.info_of, mbind, stateful_bind, st_get, st_lift.
    destruct (SnapshotCache.snapshot self _); [|done]. cbn. by intros [= _ ->]. }
  unfold SnapshotCache.insert_snapshot. unfold mbind at 1, stateful_bind at 1, st_get at 1.
  unfold mbind at 1, stateful_bind at 1. rewrite Hc. case_decide; [by do 2 eexists|].
  unfold SnapshotCache.new_snapshot. unfold mbind at 1, stateful_bind at 1.
  unfold mbind at 1, stateful_bind at 1, st_get at 1.
  do 2 (destruct (WeakCache.get_or_insert_with _ _ _ _) as [? ?]).
  case_decide; by do 2 eexists.
Qed.

(** A commit that fails has not written. *)
Lemma failing_commit dialect tx s0 :
  failing_keeps (quiet s0) (Ducklake.commit (AROUND := around) dialect tx).
Proof.
  intros s r s' Hs. unfold Ducklake.commit. unfold mbind at 1, stateful_bind at 1, st_get at 1.
  intros [(head & s1 & Hh & H1)|(_ & r0 & _ & Hh)]%bind_cases Hr.
  2: { eapply triple_run in Hh as [? _]; [done|apply quiet_process|done]. }
  assert (s1 = s /\ exists self', SnapshotCache.info_of (Process.current (Session.process s))
    (Session.process s) = (Ok head, self')) as (-> & self' & Hi).
  { revert Hh. unfold Ducklake.snapshot_info, Ducklake.on_process, SnapshotCache.info_of, mbind,
      stateful_bind, st_gets, st_zoom, st_get, st_lift.
    destruct (SnapshotCache.snapshot (Session.process s) (Process.current (Session.process s))); [|done].
    cbn. intros [= -> <-]. split; [by destruct s|by eexists]. }
  destruct (Commit.commit dialect tx _) as [res client] eqn:Hcommit.
  revert H1. unfold mbind at 1, stateful_bind at 1, st_modify at 1.
  set (s2 := _ <| Session.attempt := _ |>). unfold mbind at 1, stateful_bind at 1.
  destruct (insert_head_runs head (Client.current client) _ _ Hi) as (p & self1 & Hp).
  assert (Ducklake.on_process (fun _ => SnapshotCache.insert_snapshot (Client.current client)) s2 =
    (Ok p, s2 <| Session.process := self1 |>)) as ->.
  { unfold Ducklake.on_process, mbind, stateful_bind, st_gets, st_zoom.
    change (Session.process s2) with (Session.process s). by rewrite Hp. }
  unfold Ducklake.scoped, mbind, stateful_bind, Commit.st_result, st_lift, Ducklake.on_process, st_gets,
    st_zoom, SnapshotCache.release, st_modify.
  intros [= -> <-].
  apply commit_cases in Hcommit. rewrite Hr in Hcommit. destruct Hcommit as (k & Hk & Hd).
  apply (quiet_trans _ s); [done|]. exists k. by split.
Qed.

Lemma failing_scoped {A} s0 p (m : method Session A) :
  failing_keeps (quiet s0) m -> failing_keeps (quiet s0) (Ducklake.scoped p m).
Proof.
  intros Hm s r s' Hs. unfold Ducklake.scoped, Commit.st_result, Ducklake.on_process, SnapshotCache.release,
    mbind, stateful_bind, st_gets, st_zoom, st_modify, st_lift.
  destruct (m s) as [res s1] eqn:E. intros [= -> <-] Hr. by apply (Hm _ _ _ Hs E) in Hr.
Qed.

Lemma failing_drop_source s0 source names : failing_keeps (quiet s0) (Transfer.drop_source around source names).
Proof.
  unfold Transfer.drop_source. eapply failing_keeps_bind; [apply quiet_interact|]. intros _ _.
  eapply failing_keeps_bind; [apply quiet_transaction|]. intros [p tx] _.
  apply failing_scoped. eapply failing_keeps_bind; [by apply (triple_lift _ _ any)|]. intros [? tx'] _.
  apply failing_commit.
Qed.
End Sessions.

(** ** Both sides *)

Section Transfers.
Context `{EXT : External} `{ENV : !Environment} `{TXT : !ValueText} `{HASH : HashOrder}
  `{ITER : !Itertools} `{ENG : !RegexEngine} `{CMP : !SqlCompare} `{ENGINE : !SqlEngine}
  `{FT : !FloatText} `{FMT : !DataFormats} `{SQL : !SqlText} `{ZONES : !TimeZones} `{NAMES : !FileNames}
  `{ERR : !DatabaseErrors} `{SCAN : !ScanFormats} `{FS : !FileSystem} `{OBJ : !ObjectTransfers}.
Context (epoch : DateTimeUtc) (around_source around_target : Surroundings).
Implicit Types w : Lakes.

(** Neither session has been used. *)
Definition same_sessions w0 w : Prop := Lakes.source w = Lakes.source w0 /\ Lakes.target w = Lakes.target w0.

Lemma same_copy_file w0 source_options target_options generator path :
  triple (same_sessions w0) (Transfer.copy_transfer_file source_options target_options generator path) any.
Proof.
  unfold Transfer.copy_transfer_file, Transfer.generate_relative.
  triple_step; [by apply (triple_lift _ _ any)|].
  eapply (triple_bind _ _ _ any).
  { eapply (triple_bind _ _ _ any); [by apply triple_gets|]. intros n _.
    eapply (triple_bind _ _ _ any); [by apply triple_modify|]. intros _ _. by apply triple_ret. }
  intros relative _. do 2 (triple_step; [by apply (triple_lift _ _ any)|]).
  eapply (triple_bind _ _ _ any); [by apply triple_zoom with (J := any)|]. intros _ _. by apply triple_ret.
Qed.
Lemma same_transfer_file w0 copy_files source_options target_options generator file :
  triple (same_sessions w0)
    (Transfer.transfer_file (Transfer.copying copy_files source_options target_options generator) file) any.
Proof.
  assert (forall path, triple (same_sessions w0)
    (Transfer.copying copy_files source_options target_options generator path) any) as Hc.
  { intros path. unfold Transfer.copying. destruct copy_files; [apply same_copy_file|by apply triple_ret]. }
  unfold Transfer.transfer_file. destruct file as [f values]. triple_step; [apply Hc|].
  eapply (triple_bind _ _ _ any).
  { eapply triple_any, (triple_map _ _ _ any). intros d _. triple_step; [apply Hc|]. by apply triple_ret. }
  intros deletes _. by apply triple_ret.
Qed.
Lemma same_perform {A} w0 (op : method Transaction A) tx : triple (same_sessions w0) (Transfer.perform op tx) any.
Proof.
  unfold Transfer.perform. triple_step; [by apply (triple_lift _ _ any)|]. destruct a as [? ?]. by apply triple_ret.
Qed.
Lemma same_transfer_each w0 copy_files target transfers : forall tx,
  triple (same_sessions w0) (Transfer.transfer_each copy_files target transfers tx) any.
Proof.
  induction transfers as [|[[transfer info] name] transfers IH]; intros tx; cbn [Transfer.transfer_each];
    [by apply triple_ret|].
  eapply (triple_bind _ _ _ any); [|intros tx' _; apply IH]. unfold Transfer.transfer_table.
  do 2 (triple_step; [apply same_perform|]).
  eapply (triple_bind _ _ _ any); [eapply triple_any, triple_get|]. intros w _. cbv beta zeta.
  eapply (triple_bind _ _ _ any); [by apply triple_lift|]. intros [[[? generator] ?] ?] _.
  eapply (triple_bind _ _ _ any).
  { eapply triple_any, (triple_map _ _ _ any). intros file _. apply same_transfer_file. }
  cbv beta. intros data_files _. eapply (triple_bind _ _ _ any).
  { destruct data_files; [by apply triple_ret|apply same_perform]. }
  intros tx' _. destruct (ScanResult.inline_data _); [by apply triple_ret|apply same_perform].
Qed.

Lemma on_target_quiet {A} (m : method Session A) w r w1 :
  (forall s0, triple (quiet around_target s0) m any) -> Transfer.on_target m w = (r, w1) ->
  Lakes.source w1 = Lakes.source w /\ quiet around_target (Lakes.target w) (Lakes.target w1).
Proof.
  intros Hm. unfold Transfer.on_target, st_zoom. destruct (m (Lakes.target w)) as [r1 s1] eqn:E.
  intros [= <- <-]. split; [done|]. eapply triple_run in E as [Hq _]; [exact Hq|apply Hm|apply quiet_refl].
Qed.
Lemma on_source_quiet {A} (m : method Session A) w r w1 :
  (forall s0, triple (quiet around_source s0) m any) -> Transfer.on_source m w = (r, w1) ->
  Lakes.target w1 = Lakes.target w /\ quiet around_source (Lakes.source w) (Lakes.source w1).
Proof.
  intros Hm. unfold Transfer.on_source, st_zoom. destruct (m (Lakes.source w)) as [r1 s1] eqn:E.
  intros [= <- <-]. split; [done|]. eapply triple_run in E as [Hq _]; [exact Hq|apply Hm|apply quiet_refl].
Qed.

Lemma scoped_target_run {A} p (m : method Lakes A) w r w' :
  Transfer.scoped_target p m w = (r, w') ->
  exists w2, m w = (r, w2) /\ Lakes.source w' = Lakes.source w2 /\
    quiet around_target (Lakes.target w2) (Lakes.target w').
Proof.
  unfold Transfer.scoped_target, Commit.st_result, Transfer.on_target, Ducklake.on_process,
    SnapshotCache.release, mbind, stateful_bind, st_gets, st_zoom, st_modify, st_lift.
  destruct (m w) as [res w2]. intros [= <- <-]. exists w2. split_and!; [done..|]. exists 0. split; [symmetry; apply Nat.add_0_r|done].
Qed.

(** Writing the target leaves the source alone, and writes in its commit only. *)
Lemma write_target_cases copy_files target transfers w r w' :
  Transfer.write_target around_target copy_files target transfers w = (r, w') ->
  Lakes.source w' = Lakes.source w /\
  (is_ok r = false -> quiet around_target (Lakes.target w) (Lakes.target w')).
Proof.
  unfold Transfer.write_target.
  intros [([p tx] & w1 & Hb & Hrun)|(_ & r0 & _ & Hb)]%bind_cases.
  all: apply on_target_quiet in Hb as [Hs1 Hq1];
    [|intros s0; eapply triple_bind; [apply quiet_interact|intros _ _; apply quiet_transaction]].
  2: by split.
  apply scoped_target_run in Hrun as (w2 & Hm & Hs2 & Hq2). rewrite Hs2. cut (Lakes.source w2 = Lakes.source w /\
    (is_ok r = false -> quiet around_target (Lakes.target w) (Lakes.target w2))).
  { intros [? Hq]. split; [done|]. intros Hr. eapply quiet_trans; [by apply Hq|exact Hq2]. }
  clear Hs2 Hq2.
  apply bind_cases in Hm as [(tx' & w3 & He & Hc)|(_ & r0 & _ & He)].
  all: destruct (triple_run _ _ _ _ _ _ (same_transfer_each w1 _ _ _ _) (conj eq_refl eq_refl) He) as [[Hsrc Htgt] _].
  2: { split; [by rewrite Hsrc|]. intros _. by rewrite Htgt. }
  revert Hc. unfold Transfer.on_target, st_zoom.
  destruct (Ducklake.commit _ tx' (Lakes.target w3)) as [r3 s3] eqn:Hcommit.
  intros [= <- <-]. split; [change (Lakes.source w3 = Lakes.source w); by rewrite Hsrc|].
  intros Hr. eapply (failing_commit _ _ _ (Lakes.target w)) in Hcommit; [exact (Hcommit Hr)|].
  by rewrite Htgt.
Qed.

Lemma quiet_infos (tables : list TableTransfer.t) : forall w r w',
  st_map (fun t => Transfer.on_source (Transfer.transfer_info epoch around_source (TableTransfer.table t)))
    tables w = (r, w') ->
  quiet around_source (Lakes.source w) (Lakes.source w') /\ Lakes.target w' = Lakes.target w /\
  (forall infos, r = Ok infos -> length infos = length tables).
Proof.
  induction tables as [|t tables IH]; intros w r w'; cbn [st_map].
  { intros [= <- <-]. split_and!; [apply quiet_refl|done|]. by intros infos [= <-]. }
  intros [(info & w1 & Hi & Hrun)|(Hr & r0 & _ & Hi)]%bind_cases.
  all: apply on_source_quiet in Hi as [Ht Hq]; [|intros s0; apply quiet_transfer_info].
  2: { split_and!; [done..|]. by intros infos ->. }
  apply bind_cases in Hrun as [(infos & w2 & Hi & Hrun)|(Hr & r0 & _ & Hi)].
  all: apply IH in Hi as (Hq' & Ht' & Hl).
  2: { split_and!; [by eapply quiet_trans|by rewrite Ht'|]. by intros infos' ->. }
  injection Hrun as <- <-. split_and!; [by eapply quiet_trans|by rewrite Ht'|].
  intros infos' [= <-]. cbn. by rewrite Hl.
Qed.

Lemma quiet_lookups conn (names : list QualifiedName) w r w' :
  st_map (fun name => Transfer.on_target (Transfer.interact around_target ;; Ducklake.table conn (Ok name)))
    names w = (r, w') ->
  Lakes.source w' = Lakes.source w /\ quiet around_target (Lakes.target w) (Lakes.target w').
Proof.
  intros Hrun. eapply (triple_run (fun v => Lakes.source v = Lakes.source w /\
    quiet around_target (Lakes.target w) (Lakes.target v))) in Hrun as [? _]; [done| |by split; [|apply quiet_refl]].
  eapply (triple_map _ _ _ any). intros name _.
  apply triple_zoom with (J := quiet around_target (Lakes.target w)); [by intros s [_ ?]|by intros s t [? _] ?|].
  eapply triple_bind; [apply quiet_interact|]. intros _ _. apply quiet_table.
Qed.

(** ** Outcomes *)

Definition nothing_written w w' : Prop :=
  quiet around_source (Lakes.source w) (Lakes.source w') /\
  quiet around_target (Lakes.target w) (Lakes.target w').

Definition transferred_names (transfers : list (TableTransfer.t * TableTransferInfo.t * QualifiedName))
    : list QualifiedName :=
  (fun t => TableInfo.name (TableTransferInfo.info t.1.2)) <$> transfers.

(** What became of the source of a move that began at snapshot [id], once the
    target was written *)
Definition source_outcome (source : Endpoint.t) (names : list QualifiedName) (id : Z) (s s' : Session)
    (changed failed : Prop) : Prop :=
  (quiet around_source s s' /\ failed /\
   forall id' s1, Transfer.head_id around_source (Endpoint.conn source) s = (Ok id', s1) -> id' <> id -> changed) \/
  (exists s1, Transfer.head_id around_source (Endpoint.conn source) s = (Ok id, s1) /\
     Transfer.drop_source around_source source names s1 = (Ok tt, s')).

Lemma detach_source_cases source names id s r s' :
  Transfer.detach_source around_source source names id s = (r, s') ->
  source_outcome source names id s s' (r = Err TableChangedDuringTransfer) (is_ok r = false).
Proof.
  unfold Transfer.detach_source. intros [(id' & s1 & Hh & Hrun)|(Hr & r0 & Hr0 & Hh)]%bind_cases.
  all: destruct (triple_run _ _ _ _ _ _ (quiet_head_id _ s _) (quiet_refl _ _) Hh) as [Hq _].
  2: { left. split_and!; [done..|]. intros id' s1 Hok. rewrite Hh in Hok. by injection Hok as ->. }
  destruct (id' =? id)%Z eqn:He; cbn [negb] in Hrun.
  - apply Z.eqb_eq in He as ->. destruct (is_ok r) eqn:Hr.
    { right. exists s1. destruct r as [[]| |]; [done..]. }
    left. split_and!; [|done|intros id' s2 Hok; rewrite Hh in Hok; by injection Hok as <- _].
    by eapply (failing_drop_source around_source s).
  - injection Hrun as <- <-. left. split_and!; [done..|]. by intros.
Qed.

Lemma begin_transfer copy_files source w r w' :
  Transfer.begin_transfer around_source copy_files source w = (r, w') ->
  quiet around_source (Lakes.source w) (Lakes.source w') /\ Lakes.target w' = Lakes.target w /\
  forall id, r = Ok id ->
    if copy_files then id = None
    else exists i s, id = Some i /\
      Transfer.head_id around_source (Endpoint.conn source) (Lakes.source w) = (Ok i, s).
Proof.
  unfold Transfer.begin_transfer.
  destruct copy_files; [intros [= <- <-]; split_and!; [apply quiet_refl|done|by intros id [= <-]]|].
  unfold Transfer.on_source, st_zoom, mbind, stateful_bind.
  destruct (Transfer.head_id _ _ (Lakes.source w)) as [r1 s1] eqn:Hh.
  destruct (triple_run _ _ _ _ _ _ (quiet_head_id _ (Lakes.source w) _) (quiet_refl _ _) Hh) as [Hq _].
  destruct r1 as [i| |]; intros [= <- <-]; split_and!; try done. intros id [= <-]. by exists i, s1.
Qed.

Lemma source_read w w' :
  quiet around_source (Lakes.source w) (Lakes.source w') -> Lakes.target w' = Lakes.target w ->
  nothing_written w w'.
Proof. intros Hq Ht. split; [done|]. rewrite Ht. apply quiet_refl. Qed.

(** The source, and the lookups in the target *)
Lemma finish_transfer source target source_names id names w res w' :
  (st_when_some (fun id => Transfer.on_source (Transfer.detach_source around_source source source_names id)) id ;;
   st_map (fun name => Transfer.on_target
     (Transfer.interact around_target ;; Ducklake.table (Endpoint.conn target) (Ok name))) names) w = (res, w') ->
  quiet around_target (Lakes.target w) (Lakes.target w') /\
  match id with
  | None => Lakes.source w' = Lakes.source w
  | Some id => source_outcome source source_names id (Lakes.source w) (Lakes.source w')
                 (res = Err TableChangedDuringTransfer) (is_ok res = false)
  end.
Proof.
  destruct id as [id|]; cbn [st_when_some].
  2: { intros [(? & w1 & [= _ <-] & Hrun)|(_ & r0 & Hr0 & [= <- _])]%bind_cases; [|done].
       by apply quiet_lookups in Hrun as [? ?]. }
  unfold Transfer.on_source, st_zoom. unfold mbind at 1, stateful_bind at 1.
  destruct (Transfer.detach_source _ _ _ _ (Lakes.source w)) as [r s1] eqn:Hd.
  apply detach_source_cases in Hd. destruct r as [u|e|].
  - intros Hrun. apply quiet_lookups in Hrun as [Hs Ht]. split; [exact Ht|]. rewrite Hs.
    destruct Hd as [(_ & ? & _)|Hd]; [done|by right].
  - intros [= <- <-]. split; [apply quiet_refl|]. destruct Hd as [(Hq & _ & Hc)|Hd]; [|by right].
    left. split_and!; [exact Hq|done|]. intros id' s2 Hh Hne. by specialize (Hc id' s2 Hh Hne) as [= ->].
  - intros [= <- <-]. split; [apply quiet_refl|]. destruct Hd as [(Hq & _ & Hc)|Hd]; [|by right].
    left. split_and!; [exact Hq|done|]. intros id' s2 Hh Hne. by specialize (Hc id' s2 Hh Hne).
Qed.

(** C30: a transfer is one commit to the target, followed for a move by one commit
    to the source, and no outcome is anything in between. Either neither lake has
    been written to by it (and it did not succeed, unless there was nothing to
    do), or every table was written to the target in one successful commit.
    After that, copying leaves the source alone; a move has compared the head of the
    source, found it to be the snapshot the move began with and then dropped all its
    tables in one successful commit (even if a lookup in the target fails after
    that), or it fails and leaves the source alone - with
    [TableChangedDuringTransfer] when the head had moved. The comparison comes
    before the commit to the source: what is added in between is dropped with the
    tables. *)
Theorem transfers_are_ordered (source target : Endpoint.t) (tables : list TableTransfer.t) (copy_files : bool)
    (w w' : Lakes) (res : outcome DucklakeError (list Table))
    (Hrun : Transfer.transfer_tables epoch around_source around_target source target tables copy_files w =
       (res, w')) :
  (nothing_written w w' /\ (is_ok res = true -> tables = [])) \/
  exists transfers w1 w2,
    transfers.*1.*1 = tables /\
    quiet around_source (Lakes.source w) (Lakes.source w1) /\ Lakes.target w1 = Lakes.target w /\
    Transfer.write_target around_target copy_files target transfers w1 = (Ok tt, w2) /\
    Lakes.source w2 = Lakes.source w1 /\
    quiet around_target (Lakes.target w2) (Lakes.target w') /\
    if copy_files then Lakes.source w' = Lakes.source w1
    else exists id s, Transfer.head_id around_source (Endpoint.conn source) (Lakes.source w) = (Ok id, s) /\
      source_outcome source (transferred_names transfers) id (Lakes.source w1) (Lakes.source w')
        (res = Err TableChangedDuringTransfer) (is_ok res = false).
Proof.
  unfold Transfer.transfer_tables in Hrun. destruct tables as [|t0 tables0] eqn:Htables.
  { injection Hrun as <- <-. left. split; [by split; apply quiet_refl|done]. }
  rewrite <-Htables in *. clear t0 tables0 Htables.
  apply bind_cases in Hrun as [(w0 & ? & Hget & Hrun)|(_ & r0 & Hr0 & Hget)];
    [injection Hget as -> <-|by injection Hget as <- _].
  apply bind_cases in Hrun as [([] & ? & Hcheck & Hrun)|(Hr & r0 & _ & Hcheck)].
  2: { injection Hcheck as _ <-. left. split; [by split; apply quiet_refl|by rewrite Hr]. }
  injection Hcheck as Hcheck <-.
  apply bind_cases in Hrun as [(id & w1 & Hid & Hrun)|(Hr & r0 & _ & Hid)].
  all: apply begin_transfer in Hid as (Hq & Ht & Hid).
  2: { left. split; [by apply source_read|by rewrite Hr]. }
  apply bind_cases in Hrun as [(infos & w2 & Hi & Hrun)|(Hr & r0 & _ & Hi)].
  all: apply quiet_infos in Hi as (Hq' & Ht' & Hl).
  all: rewrite Ht in Ht'; pose proof (quiet_trans _ _ _ _ Hq Hq') as Hquiet.
  2: { left. split; [by apply source_read|by rewrite Hr]. }
  specialize (Hid _ eq_refl). specialize (Hl _ eq_refl). cbv zeta in Hrun.
  revert Hrun. set (source_names := _ <$> infos). set (names := Transfer.target_names tables source_names).
  assert (length names = length tables) as Hnames.
  { unfold names, Transfer.target_names, source_names. rewrite length_fmap, length_zip, length_fmap, Hl. lia. }
  destruct (Transfer.repeated [] names).
  { intros [= <- <-]. left. split; [by apply source_read|done]. }
  intros [(u & w3 & Hw & Hrun)|(Hr & r0 & Hr0 & Hw)]%bind_cases.
  all: pose proof (write_target_cases _ _ _ _ _ _ Hw) as [Hs3 Hq3].
  2: { left. split; [|by rewrite Hr]. split; [by rewrite Hs3|]. specialize (Hq3 Hr0). by rewrite Ht' in Hq3. }
  right. exists (zip (zip tables infos) names), w2, w3. destruct u.
  destruct (finish_transfer _ _ _ _ _ _ _ _ Hrun) as [Htgt Hfin].
  split_and!; try done.
  { rewrite !fst_zip; [done|lia|rewrite length_zip; lia]. }
  destruct copy_files.
  - subst id. cbn in Hfin. by rewrite Hfin.
  - destruct Hid as (i & s & -> & Hh). exists i, s. split; [done|]. rewrite <-Hs3.
    replace (transferred_names _) with source_names; [exact Hfin|].
    unfold transferred_names, source_names. rewrite <-(snd_zip tables infos) at 1 by lia.
    rewrite <-(fst_zip (zip tables infos) names) at 1 by (rewrite length_zip; lia).
    by rewrite <-!list_fmap_compose.
Qed.
End Transfers.

(** ** What the target is given *)

Section Contents.
Context `{EXT : External} `{ENV : !Environment} `{TXT : !ValueText} `{HASH : HashOrder}
  `{ITER : !Itertools} `{ENG : !RegexEngine} `{CMP : !SqlCompare} `{ENGINE : !SqlEngine}
  `{FT : !FloatText} `{FMT : !DataFormats} `{SQL : !SqlText} `{ZONES : !TimeZones} `{NAMES : !FileNames}
  `{ERR : !DatabaseErrors} `{SCAN : !ScanFormats} `{FS : !FileSystem} `{OBJ : !ObjectTransfers}.
Context (epoch : DateTimeUtc) (around_source : Surroundings).
Implicit Types (w : Lakes) (tx : Transaction).

Lemma on_catalog_changes {A} (m : method Catalog A) tx r tx' :
  Ops.on_catalog m tx = (r, tx') -> Transaction.changes tx' = Transaction.changes tx.
Proof. unfold Ops.on_catalog, st_zoom. destruct (m _). by intros [= <- <-]. Qed.
Lemma read_Ok {A} (f : Catalog -> result A) tx a tx' :
  Ops.read f tx = (Ok a, tx') -> f (Transaction.catalog tx) = Ok a /\ tx' = tx.
Proof. unfold Ops.read, mbind, stateful_bind, st_get, st_lift. by intros [= -> <-]. Qed.

Definition creates_schema (name : string) (created : list Change) : Prop :=
  created = [] \/ exists r path, created = [Change.CreateSchema r name path].

Lemma create_schema_changes name path u tx tx' :
  Ops.create_schema name path Skip tx = (Ok u, tx') ->
  exists created, creates_schema name created /\ Transaction.changes tx' = Transaction.changes tx ++ created.
Proof.
  unfold Ops.create_schema. intros (tx0 & ? & [= <- <-] & Hrun)%bind_Ok.
  destruct (_ && _) in Hrun.
  { injection Hrun as <- <-. exists []. split; [by left|by rewrite app_nil_r]. }
  apply bind_Ok in Hrun as (p & ? & [_ ->]%st_lift_Ok & Hrun). cbv zeta in Hrun.
  apply bind_Ok in Hrun as (r & tx1 & Hc%on_catalog_changes & Hrun). injection Hrun as _ <-.
  eexists. split; [right; by do 2 eexists|]. cbn. by rewrite Hc.
Qed.

(** A table like the one of the source: columns, retired columns, partitioning,
    sort order and tags *)
Definition creates_like (info : TableTransferInfo.t) (name : QualifiedName) (change : Change) : Prop :=
  let t := TableTransferInfo.info info in
  exists s r columns partition path,
    change = Change.CreateTable s r columns partition name (Schema.columns (TableInfo.schema t)).*2
      (TableTransferInfo.retired_columns info) (TableInfo.partitioning t) (TableInfo.sort_info t) path
      (TableInfo.tags t).

Lemma create_transfer_table_changes info name u tx tx' :
  Ops.create_transfer_table name (TableTransferInfo.info info) (TableTransferInfo.retired_columns info) tx =
    (Ok u, tx') ->
  exists change, creates_like info name change /\
    Transaction.changes tx' = Transaction.changes tx ++ [change].
Proof.
  unfold Ops.create_transfer_table, Ops.create_table_inner. intros (tx0 & ? & [= <- <-] & Hrun)%bind_Ok.
  cbn [Ops.skips andb] in Hrun.
  apply bind_Ok in Hrun as (p & ? & [_ ->]%st_lift_Ok & Hrun). cbv zeta in Hrun.
  apply bind_Ok in Hrun as (schema & ? & [_ ->]%st_lift_Ok & Hrun).
  apply bind_Ok in Hrun as ([[[s r] columns] partition] & tx1 & Hc%on_catalog_changes & Hrun).
  injection Hrun as _ <-. eexists. split; [do 5 eexists; reflexivity|]. cbn. by rewrite Hc.
Qed.

Lemma perform_Ok {A} (op : method Transaction A) tx w tx' w' :
  Transfer.perform op tx w = (Ok tx', w') -> exists a, op tx = (Ok a, tx') /\ w' = w.
Proof.
  unfold Transfer.perform. intros ([a tx1] & ? & [Hop ->]%st_lift_Ok & [= <- <-])%bind_Ok. exists a.
  revert Hop. unfold Ducklake.perform. destruct (op tx) as [[?|?|] ?]; cbn; [by intros [= -> ->]|done..].
Qed.

(** What a committed file keeps of the file of the source: its key, its rows, the
    partition values, what was deleted from it; and where it is, unless it is copied *)
Definition carries (copy_files : bool) (file : ScanDataFile.t * option (list (option string)))
    (committed : CommitDataFile.t) : Prop :=
  let '(f, values) := file in
  (copy_files = false -> DucklakePath.from_str (ScanDataFile.path f) = Ok (CommitDataFile.path committed)) /\
  CommitDataFile.encryption_key committed = ScanDataFile.encryption_key f /\
  CommitDataFile.num_rows committed = DataFileStatistics.num_rows (ScanDataFile.statistics f) /\
  (forall own, values = Some own -> CommitDataFile.partition_values committed = Some own) /\
  CommitDataFile.inline_deletes committed = default [] (ScanDataFile.inline_deletes f) /\
  Forall2 (fun d d' =>
    (copy_files = false -> DucklakePath.from_str (ScanDeleteFile.path d) = Ok (CommitDeleteFile.path d')) /\
    CommitDeleteFile.encryption_key d' = ScanDeleteFile.encryption_key d /\
    CommitDeleteFile.num_deletes d' = ScanDeleteFile.num_deletes d)
    (ScanDataFile.delete_files f) (CommitDataFile.delete_files committed).

Lemma copying_Ok copy_files source_options target_options generator path path' w w' :
  Transfer.copying copy_files source_options target_options generator path w = (Ok path', w') ->
  copy_files = false -> path' = path.
Proof. intros Hrun ->. by injection Hrun as <- _. Qed.

Lemma transfer_file_carries metadata copy_files source_options target_options generator file f c r schema
    committed w w' :
  Transfer.transfer_file (Transfer.copying copy_files source_options target_options generator) file w =
    (Ok f, w') ->
  registers metadata c r schema f committed -> carries copy_files file committed.
Proof.
  destruct file as [data_file values]. unfold Transfer.transfer_file.
  intros (path & w1 & Hp & (deletes & w2 & Hd & [= <- _])%bind_Ok)%bind_Ok.
  intros (Hpath & Hkey & _ & Hinline & Hdel & Hvalues & Hrows & _). cbn in *.
  apply st_map_Ok in Hd. split_and!; [|done|by apply Hrows|done..|].
  { intros Hcopy. by rewrite <-(copying_Ok _ _ _ _ _ _ _ _ Hp Hcopy). }
  clear -Hd Hdel. revert deletes Hd Hdel. generalize (ScanDataFile.delete_files data_file) as l.
  generalize (CommitDataFile.delete_files committed) as out. intros out l. revert out.
  induction l as [|d l IH]; intros out deletes Hd Hdel.
  { apply Forall2_nil_inv_l in Hd as ->. by apply Forall2_nil_inv_l in Hdel as ->. }
  apply Forall2_cons_inv_l in Hd as (d1 & deletes' & (s1 & s2 & Hf) & Hd & ->).
  apply Forall2_cons_inv_l in Hdel as (d2 & out' & (H1 & H2 & H3) & Hdel & ->).
  apply bind_Ok in Hf as (p & s3 & Hp & [= <- _]). cbn in *.
  constructor; [|by eapply IH]. split_and!; [|done..].
  intros Hcopy. by rewrite <-(copying_Ok _ _ _ _ _ _ _ _ Hp Hcopy).
Qed.

(** A scan has partition values, or says that there are none, for every file. *)
Lemma transfer_values_length current (files : list (Z * option Z)) out values :
  length (foldl (Scan.transfer_partition_values current) (out, values) files).1 = length out + length files.
Proof.
  revert out values. induction files as [|[id own] files IH]; intros out values; cbn [foldl]; [cbn; lia|].
  assert (exists x values', Scan.transfer_partition_values current (out, values) (id, own) = (out ++ [x], values'))
    as (x & values' & ->).
  { unfold Scan.transfer_partition_values. cbn. destruct own, current; try by do 2 eexists.
    case_decide; [|by do 2 eexists].
    destruct (take_group id values). by do 2 eexists. }
  rewrite IH, length_app. cbn. lia.
Qed.

Lemma scan_inner_length id p path db self scan self' :
  Scan.scan_table_inner epoch id p path db self = (Ok scan, self') ->
  length (TableScan.file_partition_ids scan) = length (ScanResult.data_files (TableScan.result scan)).
Proof.
  unfold Scan.scan_table_inner. intros (? & ? & _ & H)%bind_Ok. cbv zeta in H.
  do 11 apply bind_Ok in H as (? & ? & _ & H). cbv zeta in H.
  apply bind_Ok in H as (files & ? & [Hf _]%st_lift_Ok & H). injection H as <- _. cbn.
  rewrite length_fmap. symmetry. by eapply Forall2_length, Forall2_flip, map_outcome_Forall2.
Qed.

Lemma scoped_Ok {A} p (m : method Session A) s a s' :
  Ducklake.scoped p m s = (Ok a, s') -> exists s1, m s = (Ok a, s1).
Proof.
  unfold Ducklake.scoped, Commit.st_result, Ducklake.on_process, SnapshotCache.release, mbind,
    stateful_bind, st_gets, st_zoom, st_modify, st_lift.
  destruct (m s) as [res s1]. intros [= -> _]. by exists s1.
Qed.

Lemma transfer_info_values table s info s' :
  Transfer.transfer_info epoch around_source table s = (Ok info, s') ->
  length (TableTransferScan.partition_values (TableTransferInfo.scan info)) =
  length (ScanResult.data_files (TableTransferScan.result (TableTransferInfo.scan info))).
Proof.
  unfold Transfer.transfer_info. intros (? & ? & _ & (p & s1 & _ & H)%bind_Ok)%bind_Ok.
  apply scoped_Ok in H as [s2 H].
  do 6 apply bind_Ok in H as (? & ? & _ & H).
  apply bind_Ok in H as (scan & s3 & Hscan & H). injection H as <- _. cbn [TableTransferInfo.scan].
  unfold Ducklake.on_process in Hscan. apply bind_Ok in Hscan as (db & ? & _ & Hscan).
  revert Hscan. unfold st_zoom. destruct (Scan.scan_table_for_transfer _ _ _ _ _ _) as [r self] eqn:E.
  intros [= -> _]. revert E. unfold Scan.scan_table_for_transfer. intros E.
  do 3 apply bind_Ok in E as (? & ? & _ & E). apply bind_Ok in E as (scan' & ? & Hinner & E).
  apply bind_Ok in E as (fetched & ? & _ & E). injection E as <- _.
  cbn [TableTransferScan.partition_values TableTransferScan.result].
  rewrite transfer_values_length. by eapply scan_inner_length.
Qed.

Definition writes_files (copy_files : bool) (files : list (ScanDataFile.t * option (list (option string))))
    (changes : list Change) : Prop :=
  (changes = [] /\ files = []) \/
  exists r committed, changes = [Change.WriteTableDataFiles r committed] /\
    Forall2 (carries copy_files) files committed.

Definition writes_rows (batches : list RecordBatch) (changes : list Change) : Prop :=
  (changes = [] /\ batches = []) \/
  exists r schema data, changes = [Change.WriteTableInlineData r data] /\
    Forall2 (fun batch d => match_to_schema batch schema = Ok (CommitInlineData.record_batch d)) batches data.

Lemma write_files_changes metadata copy_files source_options target_options generator name scanned files tx tx' u w w' :
  st_map (Transfer.transfer_file (Transfer.copying copy_files source_options target_options generator)) scanned w =
    (Ok files, w') ->
  TableOps.write_table_transfer_data_files metadata name files tx = (Ok u, tx') ->
  exists changes, Transaction.changes tx' = Transaction.changes tx ++ changes /\
    writes_files copy_files scanned changes.
Proof.
  intros Hf%st_map_Ok. unfold TableOps.write_table_transfer_data_files.
  intros ([r committed] & ? & [Ht ->]%read_Ok & [= _ <-])%bind_Ok.
  eexists. split; [reflexivity|]. right. exists r, committed. split; [done|].
  apply transfer_data_files_registers in Ht as (schema & _ & _ & Ht).
  revert files Hf committed Ht.
  induction scanned as [|f scanned IH]; intros files Hf committed Ht.
  { apply Forall2_nil_inv_l in Hf as ->. by apply Forall2_nil_inv_l in Ht as ->. }
  apply Forall2_cons_inv_l in Hf as (f1 & files' & (s1 & s2 & Hf) & Hl & ->).
  apply Forall2_cons_inv_l in Ht as (f2 & committed' & Hr & Ht & ->).
  constructor; [by eapply transfer_file_carries|by eapply IH].
Qed.

Lemma inline_changes dialect name data tx tx' u :
  TableOps.write_table_inline_data dialect name data tx = (Ok u, tx') ->
  exists changes, Transaction.changes tx' = Transaction.changes tx ++ changes /\ writes_rows data changes.
Proof.
  unfold TableOps.write_table_inline_data, TableOps.table_ref.
  intros (r & ? & [_ ->]%read_Ok & (schema & ? & [_ ->]%read_Ok & Hrun)%bind_Ok)%bind_Ok.
  destruct (negb _) in Hrun; [done|].
  apply bind_Ok in Hrun as (rows & ? & [Hd%map_outcome_Forall2 ->]%read_Ok & [= _ <-]).
  eexists. split; [reflexivity|]. right. exists r, schema, rows. split; [done|].
  eapply Forall2_impl; [exact Hd|]. intros b d. unfold TableOps.inline_data, mbind, outcome_bind.
  destruct (match_to_schema b schema); [|done..].
  destruct (TableOps.resolve_column_stats _ _ _ _ _); [by intros [= <-]|done..].
Qed.

(** C31: a transferred table arrives complete. The transaction of the target gets
    the schema when it is missing, one new table with the columns, retired column
    IDs, partitioning, sort order and tags of the source, one change with
    every data file of the scan in order - with its key, number of rows,
    partition values and deletions, and when files are moved with its path - and
    one with every batch of inlined rows, matched to the schema; nothing else but
    that schema. *)
Theorem transferred_table_is_complete (copy_files : bool) (target : Endpoint.t) (transfer : TableTransfer.t)
    (info : TableTransferInfo.t) (name : QualifiedName) (s s' : Session) (tx tx' : Transaction) (w w' : Lakes)
    (Hinfo : Transfer.transfer_info epoch around_source (TableTransfer.table transfer) s = (Ok info, s'))
    (Hrun : Transfer.transfer_table copy_files target (transfer, info, name) tx w = (Ok tx', w')) :
  let scan := TableTransferInfo.scan info in
  exists created table data inlined,
    Transaction.changes tx' = Transaction.changes tx ++ created ++ [table] ++ data ++ inlined /\
    creates_schema (QualifiedName.schema name) created /\
    creates_like info name table /\
    (exists files, files.*1 = ScanResult.data_files (TableTransferScan.result scan) /\
       files.*2 = TableTransferScan.partition_values scan /\ writes_files copy_files files data) /\
    writes_rows (ScanResult.inline_data (TableTransferScan.result scan)) inlined.
Proof.
  cbv zeta. apply transfer_info_values in Hinfo. unfold Transfer.transfer_table in Hrun. cbv zeta in Hrun.
  apply bind_Ok in Hrun as (tx1 & ? & (u1 & H1 & ->)%perform_Ok & Hrun).
  apply create_schema_changes in H1 as (created & Hcreated & H1).
  apply bind_Ok in Hrun as (tx2 & ? & (u2 & H2 & ->)%perform_Ok & Hrun).
  apply create_transfer_table_changes in H2 as (table & Htable & H2).
  apply bind_Ok in Hrun as (w1 & ? & [= <- <-] & Hrun). cbv zeta in Hrun.
  apply bind_Ok in Hrun as ([[[? generator] ?] ?] & ? & [_ ->]%st_lift_Ok & Hrun).
  apply bind_Ok in Hrun as (files & w2 & Hfiles & Hrun).
  apply bind_Ok in Hrun as (tx3 & w3 & H3 & Hrun).
  set (scanned := zip _ _) in Hfiles.
  assert (exists data, Transaction.changes tx3 = Transaction.changes tx2 ++ data /\
    writes_files copy_files scanned data) as (data & Hdata & Hwrites).
  { destruct files as [|f files].
    - injection H3 as <- _. exists []. rewrite app_nil_r. split; [done|]. left. split; [done|].
      by eapply Forall2_nil_inv_r, st_map_Ok.
    - apply perform_Ok in H3 as (u3 & H3 & _). by eapply write_files_changes. }
  assert (exists inlined, Transaction.changes tx' = Transaction.changes tx3 ++ inlined /\
    writes_rows (ScanResult.inline_data (TableTransferScan.result (TableTransferInfo.scan info))) inlined)
    as (inlined & Hinlined & Hrows).
  { destruct (ScanResult.inline_data _) as [|b1 batches].
    - injection Hrun as <- _. exists []. rewrite app_nil_r. split; [done|by left].
    - apply perform_Ok in Hrun as (u3 & H4 & _). by eapply inline_changes. }
  exists created, table, data, inlined. split_and!; [|done..| |done].
  - by rewrite Hinlined, Hdata, H2, H1, <-!app_assoc.
  - exists scanned. split_and!; [apply fst_zip; lia|apply snd_zip; lia|done].
Qed.
End Contents.

(** ** Two lakes; the table [orders] of the first is transferred *)

#[export] Instance demo_file_system : FileSystem := {|
  canonicalize _ := None; path_eqb a b := bool_decide (a = b) |}.
#[export] Instance demo_objects : ObjectTransfers := {|
  Objects := list DucklakePath; Place := DucklakePath; Upload := DucklakePath; byte := ascii;
  place p _ := Ok p; same_store _ _ := true;
  store_copy source destination := st_modify (fun l => l ++ [destination]);
  store_get source := mret [];
  upload p _ := p; put _ := mret tt; abort_upload := mret tt; shutdown := mret tt;
  uuid_text _ := "0" |}.
#[export] Instance demo_names : FileNames := {| percent_encode s := s |}.
Definition session_on (db : Db) : Session :=
  Session.mk match SnapshotCache.new None db with
             | Ok self => self
             | _ => Process.mk WeakCache.new WeakCache.new [] 0 []
             end (MetadataCache.mk db (Metadata.mk {["data_path" := "data/"]} ∅ ∅)) 0 (Client.attempt demo_client).
Definition demo_lakes : Lakes := Lakes.mk (session_on orders_scanned_db) (session_on demo_db) [] 0.
Definition demo_conn : DucklakeConnection := DucklakeConnection.mk [] "UTC" ReadWrite.
Definition demo_source : Endpoint.t := Endpoint.mk (Pooled.Sqlite "a.db") demo_conn.
Definition demo_target : Endpoint.t := Endpoint.mk (Pooled.Sqlite "b.db") demo_conn.
Definition demo_transfer : TableTransfer.t :=
  TableTransfer.mk (Pooled.Sqlite "a.db") (Table.mk demo_conn 0 1) None.
Definition demo_transfer_tables (around_source : Surroundings) (transfer : TableTransfer.t) (copy_files : bool)
    : method Lakes (list Table) :=
  Transfer.transfer_tables (EXT := demo_external) (0%Z : Z) around_source demo_surroundings
    demo_source demo_target [transfer] copy_files.

Lemma demo_move_ok : exists tables w,
  demo_transfer_tables demo_surroundings demo_transfer false demo_lakes = (Ok tables, w).
Proof.
  assert (is_ok (demo_transfer_tables demo_surroundings demo_transfer false demo_lakes).1 = true) as H
    by (vm_compute; reflexivity).
  destruct (demo_transfer_tables demo_surroundings demo_transfer false demo_lakes) as [[r| |] w];
    [by exists r, w|discriminate..].
Qed.

(** The move succeeds: both commits do. *)
Lemma transfers_are_ordered_witness : exists w transfers w1 w2 id s,
  Transfer.write_target (EXT := demo_external) demo_surroundings false demo_target transfers w1 = (Ok tt, w2) /\
  Transfer.head_id demo_surroundings demo_conn (Lakes.source w1) = (Ok id, s) /\
  Transfer.drop_source demo_surroundings demo_source (transferred_names transfers) s = (Ok tt, Lakes.source w).
Proof.
  destruct demo_move_ok as (tables & w & Hrun).
  destruct (transfers_are_ordered (EXT := demo_external) (0%Z : Z) demo_surroundings demo_surroundings
    demo_source demo_target [demo_transfer] false demo_lakes w (Ok tables) Hrun)
    as [[_ Hempty]|(transfers & w1 & w2 & _ & _ & _ & Hw & _ & _ & id & s & _ & Hout)].
  - discriminate (Hempty eq_refl).
  - destruct Hout as [(_ & Hfails & _)|(s1 & Hh & Hd)]; [discriminate Hfails|].
    exists w, transfers, w1, w2, id, s1. split; [exact Hw|]. split; [exact Hh|exact Hd].
Defined.

Definition demo_info : outcome DucklakeError TableTransferInfo.t * Session :=
  Transfer.transfer_info (EXT := demo_external) (0%Z : Z) demo_surroundings (Table.mk demo_conn 0 1)
    (Lakes.source demo_lakes).
Definition demo_transaction_run : outcome DucklakeError Transaction * Lakes :=
  match demo_info.1, Ducklake.transaction demo_conn None (Lakes.target demo_lakes) with
  | Ok info, (Ok (_, tx), _) =>
      Transfer.transfer_table (EXT := demo_external) true demo_target
        (demo_transfer, info, orders_q) tx demo_lakes
  | _, _ => (Panic, demo_lakes)
  end.

Lemma demo_transfer_table_ok : exists info s' p tx s1 tx' w',
  demo_info = (Ok info, s') /\ Ducklake.transaction demo_conn None (Lakes.target demo_lakes) = (Ok (p, tx), s1) /\
  Transfer.transfer_table (EXT := demo_external) true demo_target (demo_transfer, info, orders_q) tx demo_lakes =
    (Ok tx', w') /\
  length (Transaction.changes tx') = 3 /\ Transaction.changes tx = [].
Proof.
  assert (match demo_transaction_run.1 with
    | Ok tx' => length (Transaction.changes tx') = 3 | _ => False end) as H by (vm_compute; reflexivity).
  revert H. unfold demo_transaction_run.
  destruct demo_info as [[info| |] s']; [|contradiction..]. cbn [fst].
  assert (match Ducklake.transaction demo_conn None (Lakes.target demo_lakes) with
    | (Ok (_, tx), _) => Transaction.changes tx = [] | _ => False end) as H0 by (vm_compute; reflexivity).
  destruct (Ducklake.transaction demo_conn None (Lakes.target demo_lakes)) as [[[p tx]| |] s1]; [|contradiction..].
  destruct (Transfer.transfer_table _ _ _ _ _) as [[tx'| |] w'] eqn:E; cbn [fst]; [|contradiction..].
  intros Hl. exists info, s', p, tx, s1, tx', w'. by split_and!.
Qed.

(** Copied with its file, and with the inlined rows *)
Lemma transferred_table_is_complete_witness : exists table data inlined,
  length ([table] ++ data ++ inlined) <= 3 /\
  exists info, creates_like info orders_q table /\
    writes_rows (ScanResult.inline_data (TableTransferScan.result (TableTransferInfo.scan info))) inlined.
Proof.
  destruct demo_transfer_table_ok as (info & s' & p & tx & s1 & tx' & w' & Hinfo & _ & Hrun & Hl & Hnil).
  destruct (transferred_table_is_complete (EXT := demo_external) (0%Z : Z) demo_surroundings true demo_target
    demo_transfer info orders_q (Lakes.source demo_lakes) s' tx tx' demo_lakes w' Hinfo Hrun)
    as (created & table & data & inlined & Hch & _ & Htable & _ & Hrows).
  exists table, data, inlined. split.
  - rewrite <-Hl, Hch, Hnil. cbn [app]. rewrite length_app. apply Nat.le_add_l.
  - exists info. split; [exact Htable|exact Hrows].
Defined.

(** ** Data that a move loses *)

(** Snapshot 3 adds a file to the table. *)
Definition grown_snapshot : DucklakeSnapshot := DucklakeSnapshot.mk 3 (0%Z : Z) 2 2 12.
Definition grown_changes : DucklakeSnapshotChanges :=
  DucklakeSnapshotChanges.mk 3 "inserted_into_table:1" None None None.
Definition grown_file : DucklakeDataFile :=
  DucklakeDataFile.mk 12 1 3 None None "c.parquet" true "parquet" 7 (Some 100%Z) None None None None None None.
Definition grow (db : Db) : Db :=
  let add (table : string) (r : row) (db : Db) : Db :=
    alter (fun t => DbTable.mk (DbTable.columns t) (DbTable.primary_key t) (DbTable.rows t ++ [r])) table db in
  add "ducklake_snapshot" (to_row grown_snapshot)
  (add "ducklake_snapshot_changes" (to_row grown_changes)
  (add "ducklake_data_file" (to_row grown_file) db)).
Definition growing (m : nat) : Surroundings := {|
  others n db := if Nat.eqb n m then grow db else db;
  begin_fails _ := None; commit_fails _ := None; now n := Z.of_nat n;
  catalog_cache _ info := LoadsAt (SnapshotInfo.id info);
  table_stats_cache _ info := LoadsAt (SnapshotInfo.id info);
|}.
Definition visible_files (snapshot_id : Z) (db : Db) : list SqlValue :=
  field "path" <$> List.filter (row_visible snapshot_id) (rows_of db (TABLE DucklakeDataFile)).

(** Moving while the file is added before the [m]-th access to the source: the
    outcome, and the visible files in the source and in the target *)
Definition raced_move (m : nat) : outcome DucklakeError unit * list SqlValue * list SqlValue :=
  let '(res, w) := demo_transfer_tables (growing m) demo_transfer false demo_lakes in
  (_ ← res; mret tt, visible_files 4 (Session.db (Lakes.source w)), visible_files 2 (Session.db (Lakes.target w))).

(** Moving through a handle of a connection that is pinned to snapshot 2 after
    the file was added *)
Definition pinned_move : outcome DucklakeError unit * list SqlValue * list SqlValue :=
  match Ducklake.at_snapshot_id demo_conn 2 (session_on (grow orders_scanned_db)) with
  | (Ok conn, s) =>
      let '(res, w) := demo_transfer_tables demo_surroundings
        (TableTransfer.mk (Pooled.Sqlite "a.db") (Table.mk conn 0 1) None) false
        (Lakes.mk s (session_on demo_db) [] 0) in
      (_ ← res; mret tt, visible_files 4 (Session.db (Lakes.source w)), visible_files 2 (Session.db (Lakes.target w)))
  | _ => (Panic, [], [])
  end.

Definition file_a : SqlValue := SText "a.parquet".
Definition file_c : SqlValue := SText "c.parquet".
Definition moved_file (name : string) : SqlValue := SText ("data/main/orders/" +:+ name).

(** The guard of a move does not see every change of the source. A file that
    is added before the move begins arrives, and one that is added while the
    tables are read or the target is written makes the move fail; but one that
    is added after the head was compared, before the transaction of the source
    begins or even while it commits, is in neither lake after a successful move.
    So is every file that is newer than the snapshot a handle is pinned to. *)
Theorem moves_can_lose_files :
  raced_move 0 = (Ok tt, [], [moved_file "a.parquet"; moved_file "c.parquet"]) /\
  raced_move 2 = (Err TableChangedDuringTransfer, [file_a; file_c], [moved_file "a.parquet"]) /\
  raced_move 3 = (Ok tt, [], [moved_file "a.parquet"]) /\
  raced_move 4 = (Ok tt, [], [moved_file "a.parquet"]) /\
  visible_files 3 (grow orders_scanned_db) = [file_a; file_c] /\
  pinned_move = (Ok tt, [], [moved_file "a.parquet"]).
Proof. split_and!; vm_compute; reflexivity. Qed.
