(* ===== verification/Arrow.v ===== *)
(** * Schemas and Arrow schemas ([typedefs/schema/arrow.rs])

    The data types of Arrow, the field a column becomes and the column a field
    becomes. *)

From S2P Require Import Prelude Text Regex Identifier Types.

Inductive TimeUnit : Type := Second | Millisecond | Microsecond | Nanosecond.
#[export] Instance TimeUnit_eq_dec : EqDecision TimeUnit.
Proof. solve_decision. Defined.
Inductive IntervalUnit : Type := YearMonth | DayTime | MonthDayNano.

(** [arrow_schema::DataType] and [Field]; the data types nothing is converted from
    are their text. *)
Module ArrowType.
Inductive t : Type :=
  | Null | Boolean
  | Int8 | Int16 | Int32 | Int64 | UInt8 | UInt16 | UInt32 | UInt64
  | Float32 | Float64
  | Decimal128 (precision scale : Z)
  | Date32 | Time64 (unit : TimeUnit)
  | Timestamp (unit : TimeUnit) (timezone : option string)
  | Interval (unit : IntervalUnit)
  | Utf8 | LargeUtf8 | Utf8View
  | Binary | LargeBinary | BinaryView
  | FixedSizeBinary (size : Z)
  | List (inner : Field) | LargeList (inner : Field)
  | Struct (fields : list Field)
  | Map (entries : Field) (sorted : bool)
  | FixedSizeList (inner : Field) (size : Z) | ListView (inner : Field) | LargeListView (inner : Field)
  | Dictionary (key value : t)
  | Other (debug : string)
with Field : Type := mk_Field (name : string) (data_type : t) (nullable : bool) (metadata : gmap string string).
End ArrowType.
Abbreviation ArrowType := ArrowType.t.
Abbreviation Field := ArrowType.Field.

(** The text of a data type in errors, and the extension types: how their
    metadata is written, and what is accepted when it is read *)
Class Extensions : Type := {
  debug_type : ArrowType -> string;
  opaque_serialize : string -> string -> string;
  opaque_deserialize : option string -> option (string * string);
  opaque_deserialize_serialize type_name vendor :
    fst <$> opaque_deserialize (Some (opaque_serialize type_name vendor)) = Some type_name;
  json_metadata : option string;
  json_accepts : option string -> bool;
  json_accepts_metadata : json_accepts json_metadata = true;
  uuid_accepts : option string -> bool;
  uuid_accepts_none : uuid_accepts None = true;
}.

Module Field.
Section Field.
Context `{EXTENSIONS : Extensions}.

Definition new (name : string) (data_type : ArrowType) (nullable : bool) : Field :=
  ArrowType.mk_Field name data_type nullable ∅.
Definition new_struct (name : string) (fields : list Field) (nullable : bool) : Field :=
  new name (ArrowType.Struct fields) nullable.
Definition name (f : Field) : string := let '(ArrowType.mk_Field n _ _ _) := f in n.
Definition data_type (f : Field) : ArrowType := let '(ArrowType.mk_Field _ d _ _) := f in d.
Definition is_nullable (f : Field) : bool := let '(ArrowType.mk_Field _ _ b _) := f in b.
Definition metadata (f : Field) : gmap string string := let '(ArrowType.mk_Field _ _ _ m) := f in m.
Definition with_metadata (f : Field) (m : gmap string string) : Field :=
  ArrowType.mk_Field (name f) (data_type f) (is_nullable f) m.

Definition EXTENSION_NAME : string := "ARROW:extension:name".
Definition EXTENSION_METADATA : string := "ARROW:extension:metadata".

(** [with_extension_type]: the metadata of the type is added or removed. *)
Definition with_extension (f : Field) (extension : string) (m : option string) : Field :=
  with_metadata f (<[EXTENSION_NAME := extension]>
    (match m with
     | Some m => <[EXTENSION_METADATA := m]> (metadata f)
     | None => delete EXTENSION_METADATA (metadata f)
     end)).

Definition has_extension (f : Field) (extension : string) : bool :=
  bool_decide (metadata f !! EXTENSION_NAME = Some extension).

(** [try_extension_type]: the name, the metadata and the data type must fit. *)
Definition try_opaque (f : Field) : option string :=
  if has_extension f "arrow.opaque"
  then fst <$> opaque_deserialize (metadata f !! EXTENSION_METADATA) else None.
Definition is_json (f : Field) : bool :=
  has_extension f "arrow.json" && json_accepts (metadata f !! EXTENSION_METADATA) &&
  match data_type f with ArrowType.Utf8 | ArrowType.LargeUtf8 | ArrowType.Utf8View => true | _ => false end.
Definition is_uuid (f : Field) : bool :=
  has_extension f "arrow.uuid" && uuid_accepts (metadata f !! EXTENSION_METADATA) &&
  match data_type f with ArrowType.FixedSizeBinary 16 => true | _ => false end.
End Field.
End Field.

(** Machine conversions *)
Definition u8_as_i8 (z : Z) : Z := if decide (z < 128)%Z then z else (z - 256)%Z.
Definition i8_as_u8 (z : Z) : Z := (z mod 256)%Z.

Module ArrowSchema.
Section ArrowSchema.
Context `{EXT : External} `{EXTENSIONS : !Extensions}.

Definition PARQUET_FIELD_ID_KEY : string := "PARQUET:field_id".

Definition time_unit (precision : TimestampPrecision) : TimeUnit :=
  match precision with
  | Seconds => Second | Milliseconds => Millisecond | Microseconds => Microsecond | Nanoseconds => Nanosecond
  end.
Definition precision_of (unit : TimeUnit) : TimestampPrecision :=
  match unit with
  | Second => Seconds | Millisecond => Milliseconds | Microsecond => Microseconds | Nanosecond => Nanoseconds
  end.

(** ** Columns to fields *)

(** The extension type of a data type, or its metadata *)
Definition extend (dtype : DataType) (field : Field) : Field :=
  match dtype with
  | DataType.Int128 => Field.with_extension field "arrow.opaque" (Some (opaque_serialize "hugeint" "DuckLake"))
  | DataType.UInt128 => Field.with_extension field "arrow.opaque" (Some (opaque_serialize "uhugeint" "DuckLake"))
  | DataType.TimeTz => Field.with_extension field "arrow.opaque" (Some (opaque_serialize "time_tz" "DuckLake"))
  | DataType.Json => Field.with_extension field "arrow.json" json_metadata
  | DataType.Variant => Field.with_metadata field {["ARROW:extension:name" := "arrow.parquet.variant"]}
  | DataType.Geometry =>
      Field.with_metadata field {["ARROW:extension:name" := "geoarrow.wkb"; "ARROW:extension:metadata" := "{}"]}
  | DataType.Uuid => Field.with_extension field "arrow.uuid" None
  | _ => field
  end.

Definition with_field_id (field_id : option Z) (field : Field) : Field :=
  match field_id with
  | Some id => Field.with_metadata field (<[PARQUET_FIELD_ID_KEY := i64_to_string id]> (Field.metadata field))
  | None => field
  end.

Fixpoint to_arrow_field (c : Column) : Field :=
  match c with
  | DataType.mk_Column name dtype nullable _ _ _ field_id =>
      let data_type :=
        match dtype with
        | DataType.Boolean => ArrowType.Boolean
        | DataType.Int8 => ArrowType.Int8
        | DataType.Int16 => ArrowType.Int16
        | DataType.Int32 => ArrowType.Int32
        | DataType.Int64 => ArrowType.Int64
        | DataType.Int128 => ArrowType.FixedSizeBinary 16
        | DataType.UInt8 => ArrowType.UInt8
        | DataType.UInt16 => ArrowType.UInt16
        | DataType.UInt32 => ArrowType.UInt32
        | DataType.UInt64 => ArrowType.UInt64
        | DataType.UInt128 => ArrowType.FixedSizeBinary 16
        | DataType.Float32 => ArrowType.Float32
        | DataType.Float64 => ArrowType.Float64
        | DataType.Decimal precision scale => ArrowType.Decimal128 precision (u8_as_i8 scale)
        | DataType.Time => ArrowType.Time64 Microsecond
        | DataType.TimeTz => ArrowType.FixedSizeBinary 8
        | DataType.Date => ArrowType.Date32
        | DataType.Timestamp precision => ArrowType.Timestamp (time_unit precision) None
        | DataType.TimestampTz => ArrowType.Timestamp Microsecond (Some "UTC")
        | DataType.Interval => ArrowType.Interval MonthDayNano
        | DataType.Varchar => ArrowType.Utf8View
        | DataType.Blob | DataType.Geometry => ArrowType.LargeBinary
        | DataType.Json => ArrowType.Utf8View
        | DataType.Variant => ArrowType.Struct
            [Field.new "metadata" ArrowType.Binary false; Field.new "value" ArrowType.Binary true]
        | DataType.Uuid => ArrowType.FixedSizeBinary 16
        | DataType.List inner => ArrowType.LargeList (to_arrow_field inner)
        | DataType.Struct fields =>
            ArrowType.Struct
              ((fix go (fields : list Column) : list Field :=
                  match fields with [] => [] | f :: fields => to_arrow_field f :: go fields end) fields)
        | DataType.Map key value => ArrowType.Map
            (Field.new_struct "entries" [to_arrow_field key; to_arrow_field value] false) false
        end in
      with_field_id field_id (extend dtype (Field.new name data_type nullable))
  end.

(** [Schema::to_arrow] *)
Definition to_arrow (schema : Schema) : list Field :=
  (fun e => to_arrow_field e.2) <$> Schema.columns schema.

(** ** Fields to columns *)

Definition unsupported {A} (msg : string) : result A := Err (UnsupportedArrowDataType msg).

(** [Column::try_from(&ArrowField)] *)
Fixpoint try_from (field : Field) : result Column :=
  match field with
  | ArrowType.mk_Field name data_type nullable metadata =>
      dtype ←
        match data_type with
        | ArrowType.Boolean => Ok DataType.Boolean
        | ArrowType.Int8 => Ok DataType.Int8
        | ArrowType.Int16 => Ok DataType.Int16
        | ArrowType.Int32 => Ok DataType.Int32
        | ArrowType.Int64 => Ok DataType.Int64
        | ArrowType.UInt8 => Ok DataType.UInt8
        | ArrowType.UInt16 => Ok DataType.UInt16
        | ArrowType.UInt32 => Ok DataType.UInt32
        | ArrowType.UInt64 => Ok DataType.UInt64
        | ArrowType.Float32 => Ok DataType.Float32
        | ArrowType.Float64 => Ok DataType.Float64
        | ArrowType.Decimal128 precision scale => Ok (DataType.Decimal precision (i8_as_u8 scale))
        | ArrowType.Date32 => Ok DataType.Date
        | ArrowType.Time64 (Microsecond | Nanosecond) => Ok DataType.Time
        | ArrowType.FixedSizeBinary size =>
            if decide (size = 8%Z) then
              match Field.try_opaque field with
              | Some _ => Ok DataType.TimeTz
              | None => unsupported (debug_type data_type)
              end
            else if decide (size = 16%Z) then
              match Field.try_opaque field with
              | Some type_name =>
                  if decide (type_name = "hugeint") then Ok DataType.Int128
                  else if decide (type_name = "uhugeint") then Ok DataType.UInt128
                  else unsupported type_name
              | None => if Field.is_uuid field then Ok DataType.Uuid else unsupported (debug_type data_type)
              end
            else unsupported (debug_type data_type)
        | ArrowType.Timestamp unit None => Ok (DataType.Timestamp (precision_of unit))
        | ArrowType.Timestamp Microsecond (Some _) => Ok DataType.TimestampTz
        | ArrowType.Interval _ => Ok DataType.Interval
        | ArrowType.Utf8 | ArrowType.LargeUtf8 | ArrowType.Utf8View =>
            Ok (if Field.is_json field then DataType.Json else DataType.Varchar)
        | ArrowType.Binary | ArrowType.LargeBinary | ArrowType.BinaryView =>
            Ok (if Field.has_extension field "geoarrow.wkb" then DataType.Geometry else DataType.Blob)
        | ArrowType.List inner | ArrowType.LargeList inner =>
            inner ← try_from inner; mret (DataType.List (Column.with_name "element" inner))
        | ArrowType.Struct fields =>
            if Field.has_extension field "arrow.parquet.variant" then Ok DataType.Variant
            else
              columns ← (fix go (fields : list Field) : result (list Column) :=
                 match fields with
                 | [] => Ok []
                 | f :: fields => c ← try_from f; cs ← go fields; mret (c :: cs)
                 end) fields;
              mret (DataType.Struct columns)
        | ArrowType.Map (ArrowType.mk_Field _ entries _ _) _ =>
            match entries with
            | ArrowType.Struct (key :: value :: _) =>
                key ← try_from key; value ← try_from value; mret (DataType.Map key value)
            | ArrowType.Struct [key] => _ ← try_from key; Panic
            | _ => Panic
            end
        | ArrowType.Null | ArrowType.Time64 _ | ArrowType.Timestamp _ (Some _) | ArrowType.FixedSizeList _ _
        | ArrowType.ListView _ | ArrowType.LargeListView _ | ArrowType.Dictionary _ _ | ArrowType.Other _ =>
            unsupported (debug_type data_type)
        end;
      mret (DataType.mk_Column name dtype nullable ∅ None (ColumnDefault.Literal None)
        (id ← metadata !! PARQUET_FIELD_ID_KEY; i64_from_str id))
  end.
End ArrowSchema.
End ArrowSchema.
