(* ===== verification/ArrowFacts.v ===== *)
(** * Schemas survive Arrow ([typedefs/schema/arrow.rs])

    A column is read back from the field it becomes, up to what a field has no
    place for. *)

From S2P Require Import Prelude Text Regex Identifier Types Instances Literals Arrow.

Section ArrowFacts.
Context `{EXT : External} `{EXTENSIONS : !Extensions}.

(** What fields keep of a column: tags and defaults are gone, elements of lists
    are named so. *)
Fixpoint arrow_column (c : Column) : Column :=
  match c with
  | DataType.mk_Column name dtype nullable _ _ _ field_id =>
      let dtype :=
        match dtype with
        | DataType.List inner => DataType.List (Column.with_name "element" (arrow_column inner))
        | DataType.Struct fields =>
            DataType.Struct ((fix go (fields : list Column) : list Column :=
              match fields with [] => [] | f :: fields => arrow_column f :: go fields end) fields)
        | DataType.Map key value => DataType.Map (arrow_column key) (arrow_column value)
        | d => d
        end in
      DataType.mk_Column name dtype nullable ∅ None (ColumnDefault.Literal None) field_id
  end.

(** The numbers of a column are those of the program: scales are bytes, IDs are [i64]. *)
Fixpoint machine_column (c : Column) : Prop :=
  match c with
  | DataType.mk_Column _ dtype _ _ _ _ field_id =>
      match field_id with Some id => (i64_min <= id <= i64_max)%Z | None => True end /\
      match dtype with
      | DataType.Decimal _ scale => (0 <= scale < 256)%Z
      | DataType.List inner => machine_column inner
      | DataType.Struct fields =>
          (fix go (fields : list Column) : Prop :=
             match fields with [] => True | f :: fields => machine_column f /\ go fields end) fields
      | DataType.Map key value => machine_column key /\ machine_column value
      | _ => True
      end
  end.

(** The metadata of the field of a column *)
Definition extension_metadata (dtype : DataType) : gmap string string :=
  Field.metadata (ArrowSchema.extend dtype (Field.new "" ArrowType.Null true)).
Definition field_metadata (dtype : DataType) (field_id : option Z) : gmap string string :=
  match field_id with
  | Some id => <[ArrowSchema.PARQUET_FIELD_ID_KEY := i64_to_string id]> (extension_metadata dtype)
  | None => extension_metadata dtype
  end.

Lemma field_shape dtype field_id name data_type nullable :
  ArrowSchema.with_field_id field_id (ArrowSchema.extend dtype (Field.new name data_type nullable)) =
  ArrowType.mk_Field name data_type nullable (field_metadata dtype field_id).
Proof. by destruct field_id, dtype. Qed.

Lemma field_metadata_other dtype field_id k : k <> ArrowSchema.PARQUET_FIELD_ID_KEY ->
  field_metadata dtype field_id !! k = extension_metadata dtype !! k.
Proof. intros Hk. destruct field_id; [|done]. cbn. by rewrite lookup_insert_ne. Qed.

Lemma field_metadata_id dtype field_id :
  match field_id with Some id => (i64_min <= id <= i64_max)%Z | None => True end ->
  (id ← field_metadata dtype field_id !! ArrowSchema.PARQUET_FIELD_ID_KEY; i64_from_str id) = field_id.
Proof.
  intros Hid. destruct field_id as [id|].
  - cbn. rewrite lookup_insert_eq. cbn. by apply i64_from_to_string.
  - cbn. assert (extension_metadata dtype !! ArrowSchema.PARQUET_FIELD_ID_KEY = None) as ->; [|done].
    destruct dtype; try reflexivity; unfold extension_metadata, ArrowSchema.extend, Field.with_extension; cbn;
      try (destruct json_metadata); cbn; rewrite ?lookup_insert_ne, ?lookup_delete_ne by done; done.
Qed.

Lemma u8_roundtrip z : (0 <= z < 256)%Z -> i8_as_u8 (u8_as_i8 z) = z.
Proof.
  intros Hz. unfold i8_as_u8, u8_as_i8. case_decide; [by apply Z.mod_small|].
  replace (z - 256)%Z with (z + -1 * 256)%Z by lia. rewrite Z.mod_add by lia. by apply Z.mod_small.
Qed.

Lemma opaque_read name size nullable field_id dtype type_name :
  ArrowSchema.extend dtype = (fun f => Field.with_extension f "arrow.opaque" (Some (opaque_serialize type_name "DuckLake"))) ->
  Field.try_opaque (ArrowType.mk_Field name (ArrowType.FixedSizeBinary size) nullable (field_metadata dtype field_id)) =
    Some type_name.
Proof.
  intros He. unfold Field.try_opaque, Field.has_extension. cbn [Field.metadata].
  rewrite !field_metadata_other by done. unfold extension_metadata. rewrite He. cbn.
  rewrite lookup_insert_eq, bool_decide_true by done.
  rewrite lookup_insert_ne, lookup_insert_eq by done. by rewrite opaque_deserialize_serialize.
Qed.

Lemma plain_extension name data_type nullable field_id dtype extension :
  ArrowSchema.extend dtype = (fun f => f) ->
  Field.has_extension (ArrowType.mk_Field name data_type nullable (field_metadata dtype field_id)) extension = false.
Proof.
  intros He. unfold Field.has_extension. cbn [Field.metadata]. rewrite field_metadata_other by done.
  unfold extension_metadata. by rewrite He.
Qed.

Lemma json_field name nullable field_id :
  Field.is_json (ArrowType.mk_Field name ArrowType.Utf8View nullable (field_metadata DataType.Json field_id)) = true.
Proof.
  unfold Field.is_json, Field.has_extension. cbn [Field.metadata Field.data_type].
  rewrite !field_metadata_other by done. unfold extension_metadata. cbn.
  rewrite lookup_insert_eq, bool_decide_true by done. rewrite lookup_insert_ne by done.
  assert (forall m : gmap string string, m = ∅ -> (match json_metadata with
    | Some x => <[Field.EXTENSION_METADATA := x]> m
    | None => delete Field.EXTENSION_METADATA m end) !! Field.EXTENSION_METADATA = json_metadata) as Hj.
  { intros m _. destruct json_metadata; [by rewrite lookup_insert_eq|by rewrite lookup_delete_eq]. }
  rewrite Hj by done. by rewrite json_accepts_metadata.
Qed.
Lemma uuid_field name nullable field_id :
  let f := ArrowType.mk_Field name (ArrowType.FixedSizeBinary 16) nullable (field_metadata DataType.Uuid field_id) in
  Field.try_opaque f = None /\ Field.is_uuid f = true.
Proof.
  cbv zeta. unfold Field.try_opaque, Field.is_uuid, Field.has_extension. cbn [Field.metadata Field.data_type].
  rewrite !field_metadata_other by done. unfold extension_metadata. cbn.
  rewrite lookup_insert_eq. rewrite bool_decide_false by done. split; [done|].
  rewrite bool_decide_true by done. rewrite lookup_insert_ne by done. rewrite lookup_delete_eq.
  by rewrite uuid_accepts_none.
Qed.

Definition survives_arrow (c : Column) : Prop :=
  machine_column c -> ArrowSchema.try_from (ArrowSchema.to_arrow_field c) = Ok (arrow_column c).

Ltac field_shape :=
  unfold survives_arrow; cbn [ArrowSchema.to_arrow_field machine_column arrow_column]; rewrite field_shape;
  intros [Hid ?]; cbn [ArrowSchema.try_from].

Lemma all_survive c : survives_arrow c.
Proof.
  revert c. fix IH 1. intros [name dtype nullable tags initial default field_id].
  destruct dtype as [| | | | | | | | | | | | |p q| | | |pr| | | | | | | | |inner|fields|key val].
  all: try (field_shape; cbn [mbind outcome_bind]; by rewrite field_metadata_id).
  - field_shape. rewrite decide_False, decide_True by done. rewrite (opaque_read _ _ _ _ _ "hugeint") by done.
    cbn [mbind outcome_bind]. by rewrite field_metadata_id.
  - field_shape. rewrite decide_False, decide_True by done. rewrite (opaque_read _ _ _ _ _ "uhugeint") by done.
    rewrite decide_False by done. cbn [mbind outcome_bind]. by rewrite field_metadata_id.
  - field_shape. cbn [mbind outcome_bind]. rewrite field_metadata_id, u8_roundtrip by done. done.
  - field_shape. rewrite decide_True by done. rewrite (opaque_read _ _ _ _ _ "time_tz") by done.
    cbn [mbind outcome_bind]. by rewrite field_metadata_id.
  - field_shape. cbn [mbind outcome_bind]. rewrite field_metadata_id by done. by destruct pr.
  - field_shape. unfold Field.is_json. rewrite plain_extension by done. cbn [andb mbind outcome_bind].
    by rewrite field_metadata_id.
  - field_shape. rewrite plain_extension by done. cbn [mbind outcome_bind]. by rewrite field_metadata_id.
  - field_shape. rewrite json_field. cbn [mbind outcome_bind]. by rewrite field_metadata_id.
  - field_shape. unfold Field.has_extension. cbn [Field.metadata].
    rewrite (field_metadata_other _ _ Field.EXTENSION_NAME) by done. cbn [mbind outcome_bind]. by rewrite field_metadata_id.
  - field_shape. unfold Field.has_extension. cbn [Field.metadata].
    rewrite (field_metadata_other _ _ Field.EXTENSION_NAME) by done. cbn [mbind outcome_bind]. by rewrite field_metadata_id.
  - field_shape. rewrite decide_False, decide_True by done. destruct (uuid_field name nullable field_id) as [-> ->].
    cbn [mbind outcome_bind]. by rewrite field_metadata_id.
  - field_shape. rewrite (IH inner) by done. cbn [mbind outcome_bind mret outcome_ret]. by rewrite field_metadata_id.
  - field_shape. rewrite plain_extension by done.
    match goal with |- (mbind _ (mbind _ ?m) = _) => assert (m = Ok ((fix go (fields : list Column) :=
      match fields with [] => [] | f :: fields => arrow_column f :: go fields end) fields)) as -> end.
    { revert H. clear Hid. induction fields as [|f fields IHf]; [done|]. intros [Hf Hl].
      rewrite (IH f Hf). cbn [mbind outcome_bind]. by rewrite (IHf Hl). }
    cbn [mbind outcome_bind mret outcome_ret]. by rewrite field_metadata_id.
  - field_shape. destruct H as [Hk Hv]. cbn [Field.new_struct Field.new].
    rewrite (IH key Hk). cbn [mbind outcome_bind]. rewrite (IH val Hv).
    cbn [mbind outcome_bind mret outcome_ret]. by rewrite field_metadata_id.
Qed.

(** C35: a schema survives Arrow. The fields it becomes are read back as its
    columns - names, data types at every level of nesting, extension types
    included, nullability and field IDs; what is lost are tags and defaults, and
    the names of the elements of lists, which are [element] anyway. *)
Theorem schema_survives_arrow (schema : Schema)
    (Hmachine : Forall (fun e => machine_column e.2) (Schema.columns schema)) :
  map_outcome ArrowSchema.try_from (ArrowSchema.to_arrow schema) =
  Ok ((fun e => arrow_column e.2) <$> Schema.columns schema).
Proof.
  unfold ArrowSchema.to_arrow. induction Hmachine as [|[name c] l Hc Hl IH]; [done|].
  cbn [fmap list_fmap map_outcome]. cbn [snd] in Hc |- *. rewrite (all_survive c Hc). cbn [mbind outcome_bind].
  by rewrite IH.
Qed.
End ArrowFacts.

(** ** A schema with every kind of nesting *)

#[export] Program Instance demo_extensions : Extensions := {|
  debug_type _ := "unsupported";
  opaque_serialize type_name _ := type_name;
  opaque_deserialize m := fmap (M := option) (fun s => (s, "DuckLake")) m;
  json_metadata := None; json_accepts _ := true; uuid_accepts _ := true |}.
Next Obligation. done. Qed.
Next Obligation. done. Qed.
Next Obligation. done. Qed.

Definition arrow_schema : Schema :=
  let column id name dtype :=
    (name, DataType.mk_Column name dtype false {["k" := "v"]} None (ColumnDefault.Literal None) (Some id)) in
  let element dtype := DataType.mk_Column "item" dtype true ∅ None (ColumnDefault.Literal None) (Some 9%Z) in
  Schema.mk [column 1%Z "a" DataType.Int128; column 2%Z "b" (DataType.Decimal 18 200);
    column 3%Z "c" (DataType.List (element DataType.Uuid));
    column 4%Z "d" (DataType.Struct [element DataType.TimeTz; element DataType.Json]);
    column 5%Z "e" (DataType.Map (element DataType.Varchar) (element DataType.Geometry))].

Lemma schema_survives_arrow_witness :
  map_outcome ArrowSchema.try_from (ArrowSchema.to_arrow arrow_schema) =
    Ok ((fun e => arrow_column e.2) <$> Schema.columns arrow_schema).
Proof.
  apply (schema_survives_arrow (EXT := demo_external) arrow_schema).
  repeat constructor; cbn; repeat split; vm_compute; discriminate.
Defined.
