(* ===== verification/Physical.v ===== *)
(** * Logical values and their physical Arrow representation ([io/arrow/conversion.rs])

    Bytes are integers below 256, little-endian; arithmetic wraps at the width of
    the machine integers. *)

From S2P Require Import Prelude Text Regex Identifier Types Literals Values Arrow.

(** [chrono], [rust_decimal] and [uuid]: times by the seconds and nanoseconds
    since midnight, dates by days, instants by units since the epoch, decimals by
    their mantissa (out of range: a panic), UUIDs by their bytes *)
Class Instants `{External} : Type := {
  from_num_seconds_from_midnight_opt : Z -> Z -> option NaiveTime;
  num_seconds_from_midnight : NaiveTime -> Z;
  nanosecond : NaiveTime -> Z;
  to_naive_date_opt : Z -> option NaiveDate;
  from_naive_date : NaiveDate -> Z;
  from_timestamp_secs : Z -> option DateTimeUtc;
  from_timestamp_millis : Z -> option DateTimeUtc;
  from_timestamp_micros : Z -> option DateTimeUtc;
  from_timestamp_nanos : Z -> DateTimeUtc;
  timestamp : DateTimeUtc -> Z;
  timestamp_millis : DateTimeUtc -> Z;
  timestamp_micros : DateTimeUtc -> Z;
  timestamp_nanos_opt : DateTimeUtc -> option Z;
  from_i128_with_scale : Z -> Z -> option Decimal;
  mantissa : Decimal -> Z;
  uuid_from_slice : list Z -> option Uuid;
  uuid_as_bytes : Uuid -> list Z;
}.

(** ** Bytes *)

Definition to_le_bytes (n : nat) (z : Z) : list Z := (fun i => Z.land (Z.shiftr z (8 * Z.of_nat i)) 255) <$> seq 0 n.
Definition from_le_bytes (bytes : list Z) : Z := foldr (fun b acc => b + Z.shiftl acc 8)%Z 0%Z bytes.
(** The two's complement of width [w] *)
Definition as_signed (w z : Z) : Z := ((z + 2 ^ (w - 1)) mod 2 ^ w - 2 ^ (w - 1))%Z.
Definition as_i32 : Z -> Z := as_signed 32.
Definition cast_u32 (z : Z) : Z := (z mod 2 ^ 32)%Z.
Definition i64_mul (a b : Z) : Z := wrap64 (a * b).
Definition i64_sub (a b : Z) : Z := wrap64 (a - b).

(** [arrow_array::types::IntervalMonthDayNano] *)
Module MonthDayNano.
Record t : Type := mk { months : Z; days : Z; nanoseconds : Z }.
End MonthDayNano.

Module physical.
Section physical.
Context `{EXT : External} `{CHRONO : !Chrono} `{INSTANTS : !Instants}.

(** [value.try_into().unwrap()]: the slice must have the length. *)
Definition array_of (n : nat) (value : list Z) : result (list Z) :=
  if decide (length value = n) then Ok value else Panic.

Definition i128_from_physical (value : list Z) : result Z :=
  bytes ← array_of 16 value; mret (as_signed 128 (from_le_bytes bytes)).
Definition i128_into_physical (z : Z) : list Z := to_le_bytes 16 z.
Definition u128_from_physical (value : list Z) : result Z :=
  bytes ← array_of 16 value; mret (from_le_bytes bytes).
Definition u128_into_physical (z : Z) : list Z := to_le_bytes 16 z.

Definition decimal_from_physical (value scale : Z) : result Decimal := unwrap (from_i128_with_scale value scale).
Definition decimal_into_physical (d : Decimal) : Z := mantissa d.

Definition time_from_physical (unit : TimeUnit) (value : Z) : result NaiveTime :=
  '(secs, nanos) ← match unit with
                   | Microsecond => Ok (Z.quot value 1000000, i64_mul (Z.rem value 1000000) 1000)
                   | Nanosecond => Ok (Z.quot value 1000000000, Z.rem value 1000000000)
                   | _ => Panic
                   end;
  unwrap (from_num_seconds_from_midnight_opt (cast_u32 secs) (cast_u32 nanos)).
Definition time_into_physical (t : NaiveTime) : Z :=
  i64_add (i64_mul (num_seconds_from_midnight t) 1000000) (Z.quot (nanosecond t) 1000).

(** Five bytes of microseconds and three of the offset, whose sign is extended *)
Definition time_tz_from_physical (value : list Z) : result TimeWithTimezone.t :=
  if decide (8 <= length value) then
    let micros := as_signed 64 (from_le_bytes (take 5 value ++ [0; 0; 0]%Z)) in
    let offset := take 3 (drop 5 value) in
    let sign := if decide (Z.land (nth 2 offset 0%Z) 128 = 0%Z) then 0%Z else 255%Z in
    let offset_secs := as_i32 (from_le_bytes (offset ++ [sign])) in
    time ← time_from_physical Microsecond micros;
    offset ← unwrap (east_opt offset_secs);
    mret (TimeWithTimezone.mk time offset)
  else Panic.
Definition time_tz_into_physical (t : TimeWithTimezone.t) : list Z :=
  take 5 (to_le_bytes 8 (time_into_physical (TimeWithTimezone.time t))) ++
  take 3 (to_le_bytes 4 (local_minus_utc (TimeWithTimezone.offset t))).

Definition date_from_physical (value : Z) : result NaiveDate := unwrap (to_naive_date_opt value).
Definition date_into_physical (d : NaiveDate) : Z := from_naive_date d.

Definition timestamp_from_physical (unit : TimeUnit) (value : Z) : result NaiveDateTime :=
  naive_utc <$> match unit with
                | Second => unwrap (from_timestamp_secs value)
                | Millisecond => unwrap (from_timestamp_millis value)
                | Microsecond => unwrap (from_timestamp_micros value)
                | Nanosecond => Ok (from_timestamp_nanos value)
                end.
Definition timestamp_into_physical (unit : TimeUnit) (t : NaiveDateTime) : result Z :=
  match unit with
  | Second => Ok (timestamp (and_utc t))
  | Millisecond => Ok (timestamp_millis (and_utc t))
  | Microsecond => Ok (timestamp_micros (and_utc t))
  | Nanosecond => unwrap (timestamp_nanos_opt (and_utc t))
  end.

Definition timestamp_tz_from_physical (value : Z) : result DateTimeUtc :=
  t ← timestamp_from_physical Microsecond value; mret (and_utc t).
Definition timestamp_tz_into_physical (t : DateTimeUtc) : Z := timestamp_micros t.

Definition MICROS_PER_DAY : Z := 86400000000.

Definition interval_from_physical (value : MonthDayNano.t) : Interval.t :=
  let micros := i64_add (i64_mul (MonthDayNano.days value) MICROS_PER_DAY)
                        (Z.quot (MonthDayNano.nanoseconds value) 1000) in
  Interval.mk (Months_new (cast_u32 (MonthDayNano.months value))) (microseconds micros).
Definition interval_into_physical (i : Interval.t) : MonthDayNano.t :=
  let micros := default 0%Z (num_microseconds (Interval.delta i)) in
  let num_days := Z.quot micros MICROS_PER_DAY in
  let num_micros := i64_sub micros (i64_mul num_days MICROS_PER_DAY) in
  MonthDayNano.mk (as_i32 (as_u32 (Interval.months i))) (as_i32 num_days) (i64_mul num_micros 1000).

Definition uuid_from_physical (value : list Z) : result Uuid := unwrap (uuid_from_slice value).
Definition uuid_into_physical (u : Uuid) : list Z := uuid_as_bytes u.
End physical.
End physical.
