(* ===== verification/Arrays.v ===== *)
(** * Statistics of Arrow arrays ([io/arrow/aggregate.rs], [io/arrow/statistics.rs])

    Arrays as lists of optional physical values, nested ones with offsets and
    children; the bounds and null counts of the columns of a batch. *)

From Stdlib Require Import SpecFloat.
From S2P Require Import Prelude Text Regex Identifier Types Literals Values TableStats Arrow Physical.

(** ** Arrays ([arrow_array])

    The values of primitive arrays carry the data type of the array. The entries
    of a list or map array that belong to its slice are those between its first
    and its last offset. A list array has offsets of 32 or 64 bits; which is a matter
    of the data type beside it. *)
Module Array.
Inductive t : Type :=
  | Booleans (l : list (option bool))
  | Ints (data_type : ArrowType) (l : list (option Z))
  | Floats (data_type : ArrowType) (l : list (option spec_float))
  | Strings (data_type : ArrowType) (l : list (option string))
  | Bytes (data_type : ArrowType) (l : list (option (list Z)))
  | Intervals (l : list (option MonthDayNano.t))
  | List (offsets : list nat) (valid : list bool) (values : t)
  | Struct (valid : list bool) (fields : list t)
  | Map (offsets : list nat) (valid : list bool) (key value : t).

Definition count_none {A} (l : list (option A)) : nat := length (List.filter (fun o => negb (bool_decide (is_Some o))) l).
Definition null_count (self : t) : nat :=
  match self with
  | Booleans l => count_none l
  | Ints _ l => count_none l
  | Floats _ l => count_none l
  | Strings _ l => count_none l
  | Bytes _ l => count_none l
  | Intervals l => count_none l
  | List _ valid _ | Struct valid _ | Map _ valid _ _ => length (List.filter negb valid)
  end.
Definition len (self : t) : nat :=
  match self with
  | Booleans l => length l
  | Ints _ l => length l
  | Floats _ l => length l
  | Strings _ l => length l
  | Bytes _ l => length l
  | Intervals l => length l
  | List _ valid _ | Struct valid _ | Map _ valid _ _ => length valid
  end.

Definition window {A} (offset length : nat) (l : list A) : list A := take length (drop offset l).
(** [slice]: lists and maps keep their children whole. *)
Fixpoint slice (offset length : nat) (self : t) : t :=
  match self with
  | Booleans l => Booleans (window offset length l)
  | Ints d l => Ints d (window offset length l)
  | Floats d l => Floats d (window offset length l)
  | Strings d l => Strings d (window offset length l)
  | Bytes d l => Bytes d (window offset length l)
  | Intervals l => Intervals (window offset length l)
  | List offsets valid values => List (window offset (S length) offsets) (window offset length valid) values
  | Struct valid fields => Struct (window offset length valid) (map (slice offset length) fields)
  | Map offsets valid key value =>
      Map (window offset (S length) offsets) (window offset length valid) key value
  end.
End Array.
Abbreviation Array := Array.t.

(** ** Least and greatest values, and sums ([arrow_arith::aggregate]) *)

Class Ordering {A} (cmp : A -> A -> comparison) : Prop := {
  cmp_refl x : cmp x x = Eq;
  cmp_trans c x y z : c <> Eq -> cmp x y = c -> cmp y z = c -> cmp x z = c;
}.

(** [m] is in [l] and nothing in [l] is better; nulls are skipped. *)
Definition best_of {A} (cmp : A -> A -> comparison) (better : comparison) (l : list (option A)) (m : option A)
    : Prop :=
  match m with
  | None => Forall (eq None) l
  | Some m => Some m ∈ l /\ forall x, Some x ∈ l -> cmp x m <> better
  end.

(** The kernels. [extremum cmp Lt] is the [min], [extremum cmp Gt] the [max] of the
    type of array whose values [cmp] orders: [min] and [max] of primitive arrays,
    [min_boolean], [min_string], [min_binary], [min_fixed_size_binary] and so on. A
    sum of unsigned integers wraps around; of nothing there is no sum. *)
Class ArrowArith : Type := {
  extremum {A : Type} : (A -> A -> comparison) -> comparison -> list (option A) -> option A;
  extremum_best {A : Type} (cmp : A -> A -> comparison) (better : comparison) (l : list (option A)) :
    Ordering cmp -> better <> Eq -> best_of cmp better l (extremum cmp better l);
  sum_u64 : list (option Z) -> option Z;
  sum_u64_none l : Forall (eq None) l -> sum_u64 l = None;
  sum_u64_some l : ~ Forall (eq None) l -> sum_u64 l = Some (foldr (fun o s => default 0%Z o + s)%Z 0%Z l mod 2 ^ 64)%Z;
}.

Definition bool_cmp (a b : bool) : comparison :=
  match a, b with false, true => Lt | true, false => Gt | _, _ => Eq end.
(** [f64::total_cmp]: NaN is the greatest, the zeros are ordered. *)
Definition float_total_cmp (a b : spec_float) : comparison :=
  match a, b with
  | S754_nan, S754_nan => Eq
  | S754_nan, _ => Gt
  | _, S754_nan => Lt
  | S754_zero s, S754_zero s' => bool_cmp s' s
  | _, _ => default Eq (SFcompare a b)
  end.
(** The natural order of byte slices *)
Fixpoint slice_cmp (a b : list Z) : comparison :=
  match a, b with
  | [], [] => Eq
  | [], _ :: _ => Lt
  | _ :: _, [] => Gt
  | x :: a, y :: b => match Z.compare x y with Eq => slice_cmp a b | c => c end
  end.
Definition interval_cmp (a b : MonthDayNano.t) : comparison :=
  match Z.compare (MonthDayNano.months a) (MonthDayNano.months b) with
  | Eq => match Z.compare (MonthDayNano.days a) (MonthDayNano.days b) with
          | Eq => Z.compare (MonthDayNano.nanoseconds a) (MonthDayNano.nanoseconds b)
          | c => c
          end
  | c => c
  end.

Module aggregate.
Section aggregate.
Context `{EXT : External} `{CHRONO : !Chrono} `{INSTANTS : !Instants} `{ARITH : ArrowArith}.

(** [aggregate!]: the extreme value, as a logical value *)
Definition aggregate {A} (cmp : A -> A -> comparison) (better : comparison) (l : list (option A))
    (into_logical : A -> result Value) : result (option Value) :=
  option_outcome into_logical (extremum cmp better l).

Definition bytes_of (l : list Z) : list ascii := (fun z => ascii_of_N (Z.to_N z)) <$> l.

(** The [match] on the data type, with the arrays it can be downcast from; any
    other array is a panic. *)
Definition find_extremum (better : comparison) (data_type : DataType) (array : Array)
    : result (option Value) :=
  let ints make l := aggregate Z.compare better l (fun z => Ok (make z)) in
  let int_with {A} (from : Z -> result A) (make : A -> Value) l :=
    aggregate Z.compare better l (fun z => make <$> from z) in
  let bytes_with {A} (from : list Z -> result A) (make : A -> Value) l :=
    aggregate slice_cmp better l (fun b => make <$> from b) in
  let strings make l := aggregate Value.str_cmp better l (fun s => Ok (make s)) in
  let floats make l := aggregate float_total_cmp better l (fun f => Ok (make f)) in
  if decide (Array.len array = 0) then Ok None
  else
    match data_type, array with
    | DataType.Boolean, Array.Booleans l => aggregate bool_cmp better l (fun b => Ok (Value.Boolean b))
    | DataType.Int8, Array.Ints ArrowType.Int8 l => ints Value.Int8 l
    | DataType.Int16, Array.Ints ArrowType.Int16 l => ints Value.Int16 l
    | DataType.Int32, Array.Ints ArrowType.Int32 l => ints Value.Int32 l
    | DataType.Int64, Array.Ints ArrowType.Int64 l => ints Value.Int64 l
    | DataType.Int128, Array.Bytes (ArrowType.FixedSizeBinary _) l =>
        bytes_with physical.i128_from_physical Value.Int128 l
    | DataType.UInt8, Array.Ints ArrowType.UInt8 l => ints Value.UInt8 l
    | DataType.UInt16, Array.Ints ArrowType.UInt16 l => ints Value.UInt16 l
    | DataType.UInt32, Array.Ints ArrowType.UInt32 l => ints Value.UInt32 l
    | DataType.UInt64, Array.Ints ArrowType.UInt64 l => ints Value.UInt64 l
    | DataType.UInt128, Array.Bytes (ArrowType.FixedSizeBinary _) l =>
        bytes_with physical.u128_from_physical Value.UInt128 l
    | DataType.Float32, Array.Floats ArrowType.Float32 l => floats Value.Float32 l
    | DataType.Float64, Array.Floats ArrowType.Float64 l => floats Value.Float64 l
    | DataType.Decimal _ scale, Array.Ints (ArrowType.Decimal128 _ _) l =>
        int_with (fun z => physical.decimal_from_physical z scale) Value.Decimal l
    | DataType.Time, Array.Ints (ArrowType.Time64 (Microsecond | Nanosecond) as t) l =>
        int_with (physical.time_from_physical match t with ArrowType.Time64 u => u | _ => Microsecond end)
          Value.Time l
    | DataType.TimeTz, Array.Bytes (ArrowType.FixedSizeBinary _) l =>
        bytes_with physical.time_tz_from_physical Value.TimeTz l
    | DataType.Date, Array.Ints ArrowType.Date32 l => int_with physical.date_from_physical Value.Date l
    | DataType.Timestamp precision, Array.Ints (ArrowType.Timestamp _ _) l =>
        int_with (physical.timestamp_from_physical (ArrowSchema.time_unit precision)) Value.Timestamp l
    | DataType.TimestampTz, Array.Ints (ArrowType.Timestamp Microsecond _) l =>
        int_with physical.timestamp_tz_from_physical Value.TimestampTz l
    | DataType.Interval, Array.Intervals l =>
        aggregate interval_cmp better l (fun i => Ok (Value.Interval (physical.interval_from_physical i)))
    | DataType.Varchar, Array.Strings _ l => strings Value.Varchar l
    | DataType.Blob, Array.Bytes (ArrowType.Binary | ArrowType.LargeBinary | ArrowType.BinaryView) l =>
        aggregate slice_cmp better l (fun b => Ok (Value.Blob (bytes_of b)))
    | DataType.Json, Array.Strings _ l => strings Value.Varchar l
    | DataType.Uuid, Array.Bytes (ArrowType.FixedSizeBinary _) l =>
        bytes_with physical.uuid_from_physical Value.Uuid l
    | (DataType.Variant | DataType.Geometry | DataType.List _ | DataType.Struct _ | DataType.Map _ _), _ => Ok None
    | _, _ => Panic
    end.

Definition find_min : DataType -> Array -> result (option Value) := find_extremum Lt.
Definition find_max : DataType -> Array -> result (option Value) := find_extremum Gt.
End aggregate.
End aggregate.

(** ** Statistics of a batch *)

Module statistics.
Section statistics.
Context `{EXT : External} `{CHRONO : !Chrono} `{INSTANTS : !Instants} `{ARITH : ArrowArith}.

(** A leaf; without a field ID it has no statistics. *)
Definition leaf_statistics (dtype : DataType) (field_id : option Z) (array : Array)
    (stats : gmap Z ArrayColumnStats.t) : result (gmap Z ArrayColumnStats.t) :=
  match field_id with
  | None => Ok stats
  | Some id =>
      min_value ← aggregate.find_min dtype array;
      max_value ← aggregate.find_max dtype array;
      mret (<[id := ArrayColumnStats.mk min_value max_value (Some (Z.of_nat (Array.null_count array))) None]> stats)
  end.

(** [offsets\[0\]] and [offsets\[list.len()\]] *)
Definition covered (offsets : list nat) (len : nat) (values : Array) : result Array :=
  start ← unwrap (offsets !! 0);
  stop ← unwrap (offsets !! len);
  mret (Array.slice start (stop - start) values).

Fixpoint compute_array_statistics (column : Column) (array : Array) (stats : gmap Z ArrayColumnStats.t)
    : result (gmap Z ArrayColumnStats.t) :=
  match column with
  | DataType.mk_Column _ dtype _ _ _ _ field_id =>
      match dtype with
      | DataType.List inner =>
          match array with
          | Array.List offsets valid values =>
              child ← covered offsets (length valid) values;
              compute_array_statistics inner child stats
          | _ => Panic
          end
      | DataType.Struct fields =>
          match array with
          | Array.Struct _ columns =>
              (fix go (fields : list Column) (columns : list Array) (stats : gmap Z ArrayColumnStats.t) :=
                 match fields, columns with
                 | field :: fields, column :: columns =>
                     stats ← compute_array_statistics field column stats; go fields columns stats
                 | _, _ => Ok stats
                 end) fields columns stats
          | _ => Panic
          end
      | DataType.Map key value =>
          match array with
          | Array.Map _ _ keys values =>
              stats ← compute_array_statistics key keys stats;
              compute_array_statistics value values stats
          | _ => Panic
          end
      | _ => leaf_statistics dtype field_id array stats
      end
  end.

(** The columns of the batch the schema knows *)
Definition compute_record_batch_statistics (schema : Schema) (batch : list (string * Array))
    : result (gmap Z ArrayColumnStats.t) :=
  fold_outcome (fun stats '(name, array) =>
    match IndexMap.get name (Schema.columns schema) with
    | Some column => compute_array_statistics column array stats
    | None => Ok stats
    end) ∅ batch.
End statistics.
End statistics.
