(* ===== verification/ArraysFacts.v ===== *)
(** * What statistics of arrays say ([io/arrow/aggregate.rs], [io/arrow/statistics.rs], [io/arrow/conversion.rs])

    Bounds are exact where the physical order is the logical one, and physical
    values are read back. *)

From Stdlib Require Import SpecFloat.
From S2P Require Import Prelude Text Regex Identifier Types Instances Literals Values ValueFacts IntervalFacts.
From S2P Require Import TableStats Arrow Physical Arrays.

(** ** Orders *)

#[export] Instance Z_ordering : Ordering Z.compare.
Proof.
  split; [apply Z.compare_refl|]. intros [] x y z ?; [done| |].
  - rewrite !Z.compare_lt_iff. lia.
  - rewrite !Z.compare_gt_iff. lia.
Qed.
#[export] Instance bool_ordering : Ordering bool_cmp.
Proof. split; [by intros []|]. by intros c [] [] [] ? H1 H2; cbn in *; simplify_eq. Qed.
#[export] Instance str_ordering : Ordering Value.str_cmp.
Proof.
  unfold Value.str_cmp. split.
  - intros x. induction (chars x) as [|c l IH]; [done|]. cbn. by rewrite N.compare_refl.
  - intros c x y z Hc. generalize (chars x) (chars y) (chars z). clear x y z. intros a b d. revert b d.
    induction a as [|x a IH]; intros [|y b] [|z d]; cbn; try done; try congruence.
    destruct (N.compare_spec (N_of_ascii x) (N_of_ascii y)) as [H1|H1|H1];
      destruct (N.compare_spec (N_of_ascii y) (N_of_ascii z)) as [H2|H2|H2];
      destruct (N.compare_spec (N_of_ascii x) (N_of_ascii z)) as [H3|H3|H3];
      try lia; try congruence; try (intros <-; done); eauto.
Qed.

Section Bounds.
Context `{EXT : External} `{CHRONO : !Chrono} `{INSTANTS : !Instants} `{ARITH : ArrowArith}.

(** The values of an array whose physical order is the order of values *)
Definition logical_values (d : DataType) (array : Array) : option (list (option Value)) :=
  let all {A} (make : A -> Value) (l : list (option A)) : list (option Value) := fmap (M := option) make <$> l in
  match d, array with
  | DataType.Boolean, Array.Booleans l => Some (all Value.Boolean l)
  | DataType.Int8, Array.Ints ArrowType.Int8 l => Some (all Value.Int8 l)
  | DataType.Int16, Array.Ints ArrowType.Int16 l => Some (all Value.Int16 l)
  | DataType.Int32, Array.Ints ArrowType.Int32 l => Some (all Value.Int32 l)
  | DataType.Int64, Array.Ints ArrowType.Int64 l => Some (all Value.Int64 l)
  | DataType.UInt8, Array.Ints ArrowType.UInt8 l => Some (all Value.UInt8 l)
  | DataType.UInt16, Array.Ints ArrowType.UInt16 l => Some (all Value.UInt16 l)
  | DataType.UInt32, Array.Ints ArrowType.UInt32 l => Some (all Value.UInt32 l)
  | DataType.UInt64, Array.Ints ArrowType.UInt64 l => Some (all Value.UInt64 l)
  | DataType.Varchar, Array.Strings _ l => Some (all Value.Varchar l)
  | _, _ => None
  end.

(** A bound is one of the values, and no value is beyond it. *)
Definition is_bound (beyond : comparison) (vs : list (option Value)) (bound : option Value) : Prop :=
  match bound with
  | None => Forall (eq None) vs
  | Some b => Some b ∈ vs /\ forall v, Some v ∈ vs -> exists c, Value.partial_cmp v b = Some c /\ c <> beyond
  end.

Lemma bound_of {A} (cmp : A -> A -> comparison) `{!Ordering cmp} better (make : A -> Value) l :
  better <> Eq -> (forall x y, Value.partial_cmp (make x) (make y) = Some (cmp x y)) ->
  exists r, aggregate.aggregate cmp better l (fun x => Ok (make x)) = Ok r /\
    is_bound better (fmap (M := option) make <$> l) r.
Proof.
  intros Hb Hcmp. pose proof (extremum_best cmp better l _ Hb) as Hbest.
  unfold aggregate.aggregate. destruct (extremum cmp better l) as [m|]; cbn in *; eexists; split; [done| |done|].
  - destruct Hbest as [Hm Hl]. split; [apply list_elem_of_fmap; by exists (Some m)|].
    intros v (o & Ho & Hin)%list_elem_of_fmap. destruct o as [x|]; [|done]. injection Ho as ->.
    exists (cmp x m). split; [apply Hcmp|by apply Hl].
  - apply Forall_fmap. eapply Forall_impl; [exact Hbest|]. by intros o <-.
Qed.

Lemma find_bound d array vs better :
  better <> Eq -> logical_values d array = Some vs ->
  exists r, aggregate.find_extremum better d array = Ok r /\ is_bound better vs r.
Proof.
  intros Hb Hvs. unfold aggregate.find_extremum.
  destruct (decide (Array.len array = 0)) as [Hlen|_].
  { exists None. split; [done|]. destruct d, array as [l|t l|t l|t l|t l|l|? ? ?|? ?|? ? ? ?]; cbn in Hvs;
      repeat (first [done|case_match]); simplify_eq; cbn in Hlen; destruct l; done || constructor. }
  destruct d, array as [l|t l|t l|t l|t l|l|? ? ?|? ?|? ? ? ?]; cbn in Hvs; try done;
    try (destruct t; try done); injection Hvs as <-; cbv zeta beta; (eapply bound_of; [apply _|done|by intros]).
Qed.

(** The bounds of an array are exact for booleans, integers of at most 64
    bits and texts: the lower bound is one of the values and not greater than any,
    the upper bound is one of the values and not less than any, and there is none
    exactly when every value is null. *)
Theorem array_bounds_are_exact (d : DataType) (array : Array) (vs : list (option Value))
    (Hvs : logical_values d array = Some vs) :
  exists lower upper, aggregate.find_min d array = Ok lower /\ aggregate.find_max d array = Ok upper /\
    is_bound Lt vs lower /\ is_bound Gt vs upper /\ (lower = None <-> upper = None).
Proof.
  destruct (find_bound d array vs Lt) as (lower & Hmin & Hlower); [done..|].
  destruct (find_bound d array vs Gt) as (upper & Hmax & Hupper); [done..|].
  exists lower, upper. split_and!; try done.
  destruct lower as [l|], upper as [u|]; try done; exfalso; cbn in *.
  - destruct Hlower as [Hl _]. rewrite Forall_forall in Hupper. by specialize (Hupper _ Hl).
  - destruct Hupper as [Hu _]. rewrite Forall_forall in Hlower. by specialize (Hlower _ Hu).
Qed.
End Bounds.

(** ** Bytes *)

Lemma to_le_bytes_S n z : to_le_bytes (S n) z = (z mod 256)%Z :: to_le_bytes n (z / 256).
Proof.
  unfold to_le_bytes. cbn [seq]. rewrite fmap_cons. f_equal.
  - rewrite Z.mul_0_r, Z.shiftr_0_r. change 255%Z with (Z.ones 8). by rewrite Z.land_ones by lia.
  - rewrite <-seq_shift, <-list_fmap_compose. apply list_fmap_ext. intros _ i _. cbn.
    change 256%Z with (2 ^ 8)%Z. rewrite <-(Z.shiftr_div_pow2 z 8) by lia.
    rewrite Z.shiftr_shiftr by lia. do 2 f_equal. lia.
Qed.
Lemma length_to_le_bytes n z : length (to_le_bytes n z) = n.
Proof. unfold to_le_bytes. by rewrite length_fmap, length_seq. Qed.
Lemma take_to_le_bytes n m z : n <= m -> take n (to_le_bytes m z) = to_le_bytes n z.
Proof.
  revert m z. induction n as [|n IH]; intros m z Hm; [done|]. destruct m as [|m]; [lia|].
  rewrite !to_le_bytes_S. cbn [take]. by rewrite IH by lia.
Qed.
Lemma from_le_bytes_app a b :
  from_le_bytes (a ++ b) = (from_le_bytes a + 256 ^ Z.of_nat (length a) * from_le_bytes b)%Z.
Proof.
  induction a as [|x a IH]; [cbn [app length]; change (from_le_bytes []) with 0%Z; change (256 ^ Z.of_nat 0)%Z with 1%Z; lia|].
  cbn [app length]. unfold from_le_bytes in *. cbn [foldr]. rewrite IH, !Z.shiftl_mul_pow2 by lia.
  rewrite Nat2Z.inj_succ, Z.pow_succ_r by lia. change (2 ^ 8)%Z with 256%Z. ring.
Qed.
Lemma le_bytes_roundtrip n z : from_le_bytes (to_le_bytes n z) = (z mod 256 ^ Z.of_nat n)%Z.
Proof.
  revert z. induction n as [|n IH]; intros z; [by rewrite Z.mod_1_r|].
  rewrite to_le_bytes_S. unfold from_le_bytes in *. cbn [foldr]. rewrite IH, Z.shiftl_mul_pow2 by lia.
  rewrite Nat2Z.inj_succ, Z.pow_succ_r by lia. change (2 ^ 8)%Z with 256%Z.
  rewrite (Z.rem_mul_r z 256) by lia. ring.
Qed.
Lemma as_signed_mod w z : (0 < w)%Z -> (- 2 ^ (w - 1) <= z < 2 ^ (w - 1))%Z -> as_signed w (z mod 2 ^ w) = z.
Proof.
  intros Hw Hz. unfold as_signed. rewrite Zplus_mod_idemp_l.
  assert (2 ^ w = 2 * 2 ^ (w - 1))%Z as He by (rewrite <-Z.pow_succ_r by lia; f_equal; lia).
  rewrite Z.mod_small by lia. lia.
Qed.
Lemma as_signed_id w z : (0 < w)%Z -> (- 2 ^ (w - 1) <= z < 2 ^ (w - 1))%Z -> as_signed w z = z.
Proof.
  intros Hw Hz. unfold as_signed.
  assert (2 ^ w = 2 * 2 ^ (w - 1))%Z as He by (rewrite <-Z.pow_succ_r by lia; f_equal; lia).
  rewrite Z.mod_small by lia. lia.
Qed.

(** ** What [chrono] documents of times and offsets *)

Class InstantLaws `{External} `{!Chrono} `{!Instants} : Prop := {
  time_range t : (0 <= num_seconds_from_midnight t < 86400)%Z /\ (0 <= nanosecond t < 2000000000)%Z;
  time_exists s n : (0 <= s < 86400)%Z -> (0 <= n < 1000000000)%Z -> exists t,
    from_num_seconds_from_midnight_opt s n = Some t /\ num_seconds_from_midnight t = s /\ nanosecond t = n;
  time_beyond s n : (86400 <= s)%Z -> from_num_seconds_from_midnight_opt s n = None;
  east_range z o : east_opt z = Some o -> (-86400 < z < 86400)%Z;
}.

Section Roundtrips.
Context `{EXT : External} `{CHRONO : !Chrono} `{INSTANTS : !Instants}
  `{CLAWS : !ChronoLaws} `{LAWS : !InstantLaws}.

(** The sign of an offset is that of its third byte. *)
Lemma offset_reads o : (-86400 < o < 86400)%Z ->
  as_i32 (o mod 256 ^ Z.of_nat 3 + 256 ^ Z.of_nat 3 *
    from_le_bytes [if decide (Z.land (nth 2 (to_le_bytes 3 o) 0) 128 = 0)%Z then 0%Z else 255%Z]) = o.
Proof.
  intros Ho. change (256 ^ Z.of_nat 3)%Z with 16777216%Z. rewrite !to_le_bytes_S. cbn [nth].
  rewrite Z.div_div by lia. change (256 * 256)%Z with 65536%Z.
  assert (forall b, from_le_bytes [b] = b) as -> by (intros b; unfold from_le_bytes; cbn [foldr]; by rewrite Z.shiftl_0_l, Z.add_0_r).
  unfold as_i32, as_signed. destruct (decide (0 <= o)%Z).
  - assert ((o / 65536) mod 256 = 0 \/ (o / 65536) mod 256 = 1)%Z as [-> | ->].
    { assert (0 <= o / 65536 < 2)%Z by (split; [apply Z.div_pos; lia|apply Z.div_lt_upper_bound; lia]).
      rewrite Z.mod_small by lia. lia. }
    all: rewrite decide_True by done; rewrite (Z.mod_small o) by lia; rewrite Z.mod_small by lia; lia.
  - assert ((o / 65536) mod 256 = 254 \/ (o / 65536) mod 256 = 255)%Z as [-> | ->].
    { assert (-2 <= o / 65536 < 0)%Z by (split; [apply Z.div_le_lower_bound; lia|apply Z.div_lt_upper_bound; lia]).
      rewrite <-(Z.mod_add _ 1) by lia. rewrite Z.mod_small by lia. lia. }
    all: rewrite decide_False by done; rewrite <-(Z.mod_add o 1) by lia; rewrite (Z.mod_small (o + _)) by lia.
    all: replace (_ + 2 ^ (32 - 1))%Z with (o + 2 ^ 31 + 1 * 2 ^ 32)%Z by lia.
    all: rewrite Z.mod_add, Z.mod_small by lia; lia.
Qed.

(** The time with its nanoseconds cut to microseconds *)
Definition same_micros (t t' : NaiveTime) : Prop :=
  num_seconds_from_midnight t' = num_seconds_from_midnight t /\
  nanosecond t' = (nanosecond t - nanosecond t mod 1000)%Z.

Lemma time_micros t : (0 <= physical.time_into_physical t < 86402 * 1000000)%Z /\
  physical.time_into_physical t = (num_seconds_from_midnight t * 1000000 + nanosecond t / 1000)%Z.
Proof.
  destruct (time_range t) as [Hs Hn]. unfold physical.time_into_physical, i64_mul.
  rewrite Z.quot_div_nonneg by lia.
  assert (0 <= nanosecond t / 1000 < 2000000)%Z by (split; [apply Z.div_pos; lia|apply Z.div_lt_upper_bound; lia]).
  rewrite (wrap64_id (_ * _)) by (unfold in_i64, i64_min, i64_max; lia).
  rewrite i64_add_exact by (unfold in_i64, i64_min, i64_max; lia). lia.
Qed.

Lemma time_reads t : (nanosecond t < 1000000000)%Z ->
  exists t', physical.time_from_physical Microsecond (physical.time_into_physical t) = Ok t' /\ same_micros t t'.
Proof.
  intros Hleap. destruct (time_micros t) as [Hrange ->]. destruct (time_range t) as [Hs Hn].
  set (s := num_seconds_from_midnight t) in *. set (n := nanosecond t) in *.
  assert (0 <= n / 1000 < 1000000)%Z as Hm by (split; [apply Z.div_pos; lia|apply Z.div_lt_upper_bound; lia]).
  unfold physical.time_from_physical. cbn [mbind outcome_bind].
  rewrite Z.quot_div_nonneg, Z.rem_mod_nonneg by lia.
  rewrite Z.add_comm, Z.div_add, Z.mod_add by lia. rewrite (Z.div_small (n / 1000)), (Z.mod_small (n / 1000)) by lia.
  unfold i64_mul, cast_u32. rewrite wrap64_id by (unfold in_i64, i64_min, i64_max; lia).
  rewrite !Z.mod_small by lia. rewrite Z.add_0_l.
  destruct (time_exists s (n / 1000 * 1000)) as (t' & -> & Hs' & Hn'); [lia..|].
  exists t'. split; [done|]. split; [done|]. rewrite Hn'. fold n. pose proof (Z.div_mod n 1000 ltac:(lia)). lia.
Qed.

Lemma time_tz_reads t t' secs offset : east_opt secs = Some offset ->
  physical.time_from_physical Microsecond (physical.time_into_physical t) = Ok t' ->
  physical.time_tz_from_physical (physical.time_tz_into_physical (TimeWithTimezone.mk t offset)) =
    Ok (TimeWithTimezone.mk t' offset).
Proof.
  intros Heast Hread. destruct (time_micros t) as [Hm _]. pose proof (east_range _ _ Heast) as Ho.
  unfold physical.time_tz_from_physical, physical.time_tz_into_physical. cbn [TimeWithTimezone.time TimeWithTimezone.offset].
  set (m := physical.time_into_physical t) in *. rewrite (local_minus_utc_east _ _ Heast).
  rewrite !take_to_le_bytes by lia.
  rewrite decide_True by (rewrite length_app, !length_to_le_bytes; lia).
  rewrite take_app_length', drop_app_length' by (by rewrite length_to_le_bytes).
  rewrite (firstn_all2 (to_le_bytes 3 secs)) by (rewrite length_to_le_bytes; lia).
  cbv zeta. rewrite !from_le_bytes_app, !le_bytes_roundtrip, !length_to_le_bytes.
  change (from_le_bytes [0; 0; 0]%Z) with 0%Z. rewrite Z.mul_0_r, Z.add_0_r.
  change (256 ^ Z.of_nat 5)%Z with 1099511627776%Z. rewrite (Z.mod_small m) by lia.
  rewrite as_signed_id by lia. rewrite Hread. cbn [mbind outcome_bind].
  replace (as_i32 _) with secs; [by rewrite Heast|]. symmetry. apply offset_reads. lia.
Qed.

Lemma i128_reads z : (- 2 ^ 127 <= z < 2 ^ 127)%Z -> physical.i128_from_physical (physical.i128_into_physical z) = Ok z.
Proof.
  intros Hz. unfold physical.i128_from_physical, physical.i128_into_physical, physical.array_of.
  rewrite decide_True by apply length_to_le_bytes. cbn [mbind outcome_bind]. rewrite le_bytes_roundtrip.
  change (256 ^ Z.of_nat 16)%Z with (2 ^ 128)%Z. by rewrite as_signed_mod by lia.
Qed.
Lemma u128_reads z : (0 <= z < 2 ^ 128)%Z -> physical.u128_from_physical (physical.u128_into_physical z) = Ok z.
Proof.
  intros Hz. unfold physical.u128_from_physical, physical.u128_into_physical, physical.array_of.
  rewrite decide_True by apply length_to_le_bytes. cbn [mbind outcome_bind]. rewrite le_bytes_roundtrip.
  change (256 ^ Z.of_nat 16)%Z with (2 ^ 128)%Z. by rewrite Z.mod_small by lia.
Qed.

(** Days and the rest of the day are put together again. *)
Lemma interval_reads m us : (0 <= m < 2 ^ 32)%Z -> in_i64 us ->
  physical.interval_from_physical (physical.interval_into_physical (Interval.mk (Months_new m) (microseconds us))) =
    Interval.mk (Months_new m) (microseconds us).
Proof.
  intros Hm Hus. unfold physical.interval_from_physical, physical.interval_into_physical.
  cbn [Interval.months Interval.delta MonthDayNano.months MonthDayNano.days MonthDayNano.nanoseconds].
  rewrite as_u32_new, num_microseconds_of by done. change (default 0%Z (Some us)) with us. cbv zeta.
  pose proof (Z.quot_rem us physical.MICROS_PER_DAY ltac:(done)) as Hdiv.
  assert (0 <= us /\ 0 <= Z.rem us physical.MICROS_PER_DAY < physical.MICROS_PER_DAY \/
          us <= 0 /\ - physical.MICROS_PER_DAY < Z.rem us physical.MICROS_PER_DAY <= 0)%Z as Hrem.
  { destruct (Z.le_ge_cases 0 us); [left; split; [done|by apply Z.rem_bound_pos]|
      right; split; [done|by apply Z.rem_bound_pos_neg]]. }
  unfold in_i64, i64_min, i64_max in Hus. unfold i64_sub, i64_mul, cast_u32, as_i32, physical.MICROS_PER_DAY in *.
  set (q := Z.quot us _) in *. set (r := Z.rem us _) in *.
  assert (-106751991 <= q <= 106751991)%Z as Hq by lia.
rewrite (as_signed_id 32 q), (wrap64_id (q * _)) by (unfold in_i64, i64_min, i64_max; lia).
  replace (us - q * 86400000000)%Z with r by lia.
  rewrite (wrap64_id r) by (unfold in_i64, i64_min, i64_max; lia).
  rewrite (wrap64_id (r * 1000)) by (unfold in_i64, i64_min, i64_max; lia).
  rewrite Z.quot_mul by lia. rewrite i64_add_exact by (unfold in_i64, i64_min, i64_max; lia).
  replace (q * 86400000000 + r)%Z with us by lia. f_equal. f_equal.
  unfold as_signed. rewrite Zminus_mod_idemp_l. replace (m + 2 ^ (32 - 1) - 2 ^ (32 - 1))%Z with m by lia.
  by rewrite Z.mod_small by lia.
Qed.

(** The last second of a day with a leap second is read as the first one after it. *)
Lemma leap_panics t : num_seconds_from_midnight t = 86399%Z -> (1000000000 <= nanosecond t)%Z ->
  physical.time_from_physical Microsecond (physical.time_into_physical t) = Panic.
Proof.
  intros Hs Hn. destruct (time_micros t) as [Hrange Ht]. destruct (time_range t) as [_ Hn'].
  rewrite Hs in Ht. unfold physical.time_from_physical. cbn [mbind outcome_bind].
  assert (1000000 <= nanosecond t / 1000 < 2000000)%Z
    by (split; [apply Z.div_le_lower_bound; lia|apply Z.div_lt_upper_bound; lia]).
  rewrite Z.quot_div_nonneg by lia.
  replace (physical.time_into_physical t / 1000000)%Z with 86400%Z by (rewrite Ht; apply Z.div_unique with (r := (nanosecond t / 1000 - 1000000)%Z); lia).
  by rewrite time_beyond by done.
Qed.

(** C36: the physical representations the library computes itself are read back:
    128-bit integers of either sign, times and times with an offset (either sign)
    that are not in a leap second - nanoseconds below a thousand million - up to their
    microseconds, and intervals with any number of months and microseconds,
    whose days are split off. A leap second at the end of a day is written but the
    reader panics on it. *)
Theorem physical_values_read_back (t : NaiveTime) (secs : Z) (offset : FixedOffset) (Heast : east_opt secs = Some offset) :
  (forall z, (- 2 ^ 127 <= z < 2 ^ 127)%Z -> physical.i128_from_physical (physical.i128_into_physical z) = Ok z) /\
  (forall z, (0 <= z < 2 ^ 128)%Z -> physical.u128_from_physical (physical.u128_into_physical z) = Ok z) /\
  ((nanosecond t < 1000000000)%Z -> exists t', same_micros t t' /\
    physical.time_from_physical Microsecond (physical.time_into_physical t) = Ok t' /\
    physical.time_tz_from_physical (physical.time_tz_into_physical (TimeWithTimezone.mk t offset)) =
      Ok (TimeWithTimezone.mk t' offset)) /\
  (forall m us, (0 <= m < 2 ^ 32)%Z -> in_i64 us -> let i := Interval.mk (Months_new m) (microseconds us) in
    physical.interval_from_physical (physical.interval_into_physical i) = i) /\
  (num_seconds_from_midnight t = 86399%Z -> (1000000000 <= nanosecond t)%Z ->
    physical.time_from_physical Microsecond (physical.time_into_physical t) = Panic).
Proof.
  split_and!; [exact i128_reads|exact u128_reads| |exact interval_reads|apply leap_panics].
  intros Hleap. destruct (time_reads t Hleap) as (t1 & Hread & Hsame).
  exists t1. split_and!; [done..|]. by eapply time_tz_reads.
Qed.
End Roundtrips.

(** ** Concrete instants: a time is its seconds times two thousand million plus its nanoseconds *)

#[export] Instance demo_instants : Instants := {|
  from_num_seconds_from_midnight_opt s n :=
    if decide (0 <= s < 86400 /\ 0 <= n < 2000000000 /\ (n < 1000000000 \/ s mod 60 = 59))%Z
    then Some (s * 2000000000 + n)%Z else None;
  num_seconds_from_midnight t := (t / 2000000000 mod 86400)%Z;
  nanosecond t := (t mod 2000000000)%Z;
  to_naive_date_opt z := Some z;
  from_naive_date z := z;
  from_timestamp_secs s := Some (s * 1000000000)%Z;
  from_timestamp_millis s := Some (s * 1000000)%Z;
  from_timestamp_micros s := Some (s * 1000)%Z;
  from_timestamp_nanos s := s;
  timestamp z := (z / 1000000000)%Z;
  timestamp_millis z := (z / 1000000)%Z;
  timestamp_micros z := (z / 1000)%Z;
  timestamp_nanos_opt z := if decide (in_i64 z) then Some z else None;
  from_i128_with_scale z _ := if decide (Z.abs z < 2 ^ 96)%Z then Some z else None;
  mantissa z := z;
  uuid_from_slice l := if decide (length l = 16) then Some (from_le_bytes l) else None;
  uuid_as_bytes z := to_le_bytes 16 z;
|}.

#[export] Instance demo_instant_laws : InstantLaws.
Proof.
  split.
  - intros t. split; apply Z.mod_pos_bound; lia.
  - intros s n Hs Hn. cbn. rewrite decide_True by lia. eexists. split; [done|].
    rewrite Z.div_add_l, Z.div_small, Z.add_0_r, Z.mod_small by lia. split; [done|].
    by rewrite Z.add_comm, Z.mod_add, Z.mod_small by lia.
  - intros s n Hs. cbn. by rewrite decide_False by lia.
  - intros z o. cbn. case_decide; [lia|done].
Qed.

(** Twelve seconds after midnight, ten hours west of Greenwich *)
Lemma physical_values_read_back_witness :
  let t : NaiveTime := (12 * 2000000000 + 3456 : Z)%Z in
  physical.time_tz_from_physical (physical.time_tz_into_physical (TimeWithTimezone.mk t ((-36000) : Z)%Z)) =
    Ok (TimeWithTimezone.mk (12 * 2000000000 + 3000 : Z)%Z ((-36000) : Z)%Z) /\
  exists t', same_micros t t' /\ physical.time_from_physical Microsecond (physical.time_into_physical t) = Ok t'.
Proof.
  intros t. split; [vm_compute; reflexivity|].
  destruct (physical_values_read_back (EXT := demo_external) (CHRONO := demo_chrono) t (-36000) (-36000 : Z)%Z ltac:(vm_compute; reflexivity)) as (_ & _ & H & _).
  destruct (H ltac:(vm_compute; reflexivity)) as (t' & ? & ? & _). by exists t'.
Defined.

(** *** Kernels that compute *)

Section Kernels.
Context {A : Type} (cmp : A -> A -> comparison).

Definition demo_extremum (better : comparison) (l : list (option A)) : option A :=
  foldl (fun best o =>
    match o, best with
    | None, _ => best
    | Some x, None => Some x
    | Some x, Some b => if bool_decide (cmp x b = better) then Some x else best
    end) None l.

Lemma demo_extremum_best better l :
  Ordering cmp -> better <> Eq -> best_of cmp better l (demo_extremum better l).
Proof.
  intros Ho Hbetter. unfold demo_extremum. induction l as [|o l IH] using rev_ind; [constructor|].
  rewrite foldl_app. cbn [foldl]. set (best := foldl _ None l) in *.
  destruct o as [x|]; destruct best as [b|]; cbn in IH |- *.
  - destruct IH as [Hb Hl]. case_bool_decide as Hx; cbn.
    + split; [set_solver|]. intros y [Hy|Hy%list_elem_of_singleton]%elem_of_app.
      * intros Hyx. destruct (Hl y Hy). by eapply cmp_trans.
      * injection Hy as ->. by rewrite cmp_refl.
    + split; [set_solver|]. intros y [Hy|Hy%list_elem_of_singleton]%elem_of_app; [by apply Hl|].
      by injection Hy as ->.
  - split; [set_solver|]. intros y [Hy|Hy%list_elem_of_singleton]%elem_of_app.
    + rewrite Forall_forall in IH. by specialize (IH _ Hy).
    + injection Hy as ->. by rewrite cmp_refl.
  - destruct IH as [Hb Hl]. split; [set_solver|]. intros y [Hy|Hy%list_elem_of_singleton]%elem_of_app; [by apply Hl|done].
  - apply Forall_app. by split; [|constructor].
Qed.
End Kernels.

Definition demo_sum_u64 (l : list (option Z)) : option Z :=
  if decide (Forall (eq None) l) then None
  else Some (foldr (fun o s => default 0%Z o + s)%Z 0%Z l mod 2 ^ 64)%Z.
Lemma demo_sum_u64_none l : Forall (eq None) l -> demo_sum_u64 l = None.
Proof. intros. unfold demo_sum_u64. by rewrite decide_True. Qed.
Lemma demo_sum_u64_some l : ~ Forall (eq None) l ->
  demo_sum_u64 l = Some (foldr (fun o s => default 0%Z o + s)%Z 0%Z l mod 2 ^ 64)%Z.
Proof. intros. unfold demo_sum_u64. by rewrite decide_False. Qed.

#[export] Instance demo_arith : ArrowArith := {|
  extremum A := demo_extremum;
  extremum_best A := demo_extremum_best;
  sum_u64 := demo_sum_u64;
  sum_u64_none := demo_sum_u64_none;
  sum_u64_some := demo_sum_u64_some;
|}.

Lemma array_bounds_are_exact_witness :
  let array := Array.Ints ArrowType.Int32 [Some 3%Z; None; Some 1%Z] in
  aggregate.find_min DataType.Int32 array = Ok (Some (Value.Int32 1)) /\
  exists lower upper, aggregate.find_min DataType.Int32 array = Ok lower /\
    aggregate.find_max DataType.Int32 array = Ok upper /\ (lower = None <-> upper = None).
Proof.
  intros array. split; [reflexivity|].
  destruct (array_bounds_are_exact DataType.Int32 array [Some (Value.Int32 3); None; Some (Value.Int32 1)] eq_refl)
    as (l & u & H1 & H2 & _ & _ & H3). by exists l, u.
Defined.

(** The null count of the keys of a map column with two entries *)
Definition demo_map : Column :=
  DataType.mk_Column "m" (DataType.Map
    (DataType.mk_Column "key" DataType.Int64 false ∅ None (ColumnDefault.Literal None) (Some 2%Z))
    (DataType.mk_Column "value" DataType.Int64 true ∅ None (ColumnDefault.Literal None) (Some 3%Z))) true ∅ None (ColumnDefault.Literal None) (Some 1%Z).
Definition demo_entries : Array :=
  Array.Map [0; 1; 2] [true; true] (Array.Ints ArrowType.Int64 [Some 5%Z; Some 7%Z])
    (Array.Ints ArrowType.Int64 [Some 1%Z; None]).

(** Where bounds are not those of the values. The bytes of 128-bit integers are
    compared from the least significant one, so that of 1 and 256 the lower bound is
    256 and the upper bound 1. A map array cut to its first row gives the bounds and
    null counts of all its rows. The bounds of JSON texts are texts, which no stored
    JSON bound can be compared with. *)
Theorem array_bounds_can_be_wrong :
  (let array := Array.Bytes (ArrowType.FixedSizeBinary 16) (Some <$> [physical.i128_into_physical 1; physical.i128_into_physical 256]) in
   aggregate.find_min DataType.Int128 array = Ok (Some (Value.Int128 256)) /\
   aggregate.find_max DataType.Int128 array = Ok (Some (Value.Int128 1))) /\
  (exists stats, statistics.compute_array_statistics demo_map (Array.slice 0 1 demo_entries) ∅ = Ok stats /\
     stats !! 2%Z = Some (ArrayColumnStats.mk (Some (Value.Int64 5)) (Some (Value.Int64 7)) (Some 0%Z) None) /\
     stats !! 3%Z = Some (ArrayColumnStats.mk (Some (Value.Int64 1)) (Some (Value.Int64 1)) (Some 1%Z) None)) /\
  aggregate.find_min DataType.Json (Array.Strings ArrowType.Utf8 [Some "{}"]) = Ok (Some (Value.Varchar "{}")) /\
  Value.partial_cmp (Value.Varchar "{}") (Value.Json "{}") = None.
Proof. split; [split; reflexivity|]. split_and!; [by eexists|reflexivity|reflexivity]. Qed.
