(* ===== verification/Inlined.v ===== *)
(** * Rows that are stored in the catalog ([db/arrow/], [db/dialects/sqlite.rs], [db/dialects/postgres.rs])

    How the arrays of a batch become the arguments of an insertion, and how the
    rows that are read become arrays again. Nested values are stored as text in
    every database; which leaves are is the choice of the dialect. A cell is what
    is bound and what is read again: databases and drivers are third-party. A list
    array stands for arrays with offsets of either width; the sources take those of
    64 bits and panic on others, which matching to the schema rules out. *)

From Stdlib Require Import SpecFloat.
From S2P Require Import Prelude Text Regex Identifier Types Literals Values Dialect Arrow Physical Arrays.

(** ** Cells *)

Module SqlCell.
Inductive t `{External} : Type :=
  | Null
  | Boolean (b : bool)
  | Int (z : Z)
  | Float32 (f : spec_float)
  | Float64 (f : spec_float)
  | Decimal (d : Decimal)
  | Time (t : NaiveTime)
  | TimeTz (time : NaiveTime) (offset : FixedOffset)
  | Interval (months days microseconds : Z)
  | Bytes (l : list ascii)
  | Uuid (u : Uuid)
  | Text (s : string).
End SqlCell.
Abbreviation SqlCell := SqlCell.t.

Section Inlined.
Context `{EXT : External} `{ENG : !RegexEngine} `{SCALARS : !Scalars} `{CHRONO : !Chrono}.

(** [row.try_get]: nulls are read at any type, other cells at their own. *)
Definition try_get {A} (from : SqlCell -> option A) (cell : SqlCell) : result (option A) :=
  match cell with
  | SqlCell.Null => Ok None
  | cell => a ← ok_or (Database false false "ColumnDecode") (from cell); mret (Some a)
  end.
Definition as_bool (c : SqlCell) : option bool := match c with SqlCell.Boolean b => Some b | _ => None end.
Definition as_int (min max : Z) (c : SqlCell) : option Z :=
  match c with SqlCell.Int z => if decide (min <= z <= max)%Z then Some z else None | _ => None end.
Definition as_i8 : SqlCell -> option Z := as_int (- 2 ^ 7) (2 ^ 7 - 1).
Definition as_i16 : SqlCell -> option Z := as_int (- 2 ^ 15) (2 ^ 15 - 1).
Definition as_i32_cell : SqlCell -> option Z := as_int (- 2 ^ 31) (2 ^ 31 - 1).
Definition as_i64 : SqlCell -> option Z := as_int i64_min i64_max.
Definition as_u8 : SqlCell -> option Z := as_int 0 (2 ^ 8 - 1).
Definition as_u16 : SqlCell -> option Z := as_int 0 (2 ^ 16 - 1).
Definition as_u32_cell : SqlCell -> option Z := as_int 0 (2 ^ 32 - 1).
Definition as_f32 (c : SqlCell) : option spec_float := match c with SqlCell.Float32 f => Some f | _ => None end.
Definition as_f64 (c : SqlCell) : option spec_float := match c with SqlCell.Float64 f => Some f | _ => None end.
Definition as_decimal (c : SqlCell) : option Decimal := match c with SqlCell.Decimal d => Some d | _ => None end.
Definition as_time (c : SqlCell) : option NaiveTime := match c with SqlCell.Time t => Some t | _ => None end.
Definition as_time_tz (c : SqlCell) : option (NaiveTime * FixedOffset) :=
  match c with SqlCell.TimeTz t o => Some (t, o) | _ => None end.
Definition as_interval (c : SqlCell) : option (Z * Z * Z) :=
  match c with SqlCell.Interval m d us => Some (m, d, us) | _ => None end.
Definition as_bytes (c : SqlCell) : option (list ascii) := match c with SqlCell.Bytes l => Some l | _ => None end.
Definition as_uuid (c : SqlCell) : option Uuid := match c with SqlCell.Uuid u => Some u | _ => None end.
Definition as_text (c : SqlCell) : option string := match c with SqlCell.Text s => Some s | _ => None end.
End Inlined.

(** ** Encoders and decoders of leaves

    The methods [encode_bool], [encode_i8], ... are one function of the data type,
    whose values they take; so are [decode_bool], [decode_i8], ... *)

Class TypeEncoder `{External} : Type := {
  encode : DataType -> option Value -> SqlCell;
  encode_text : option string -> SqlCell;
}.
Class TypeDecoder `{External} : Type := {
  decode : DataType -> SqlCell -> result (option Value);
  decode_text : SqlCell -> result (option string);
}.

Section Dialects.
Context `{EXT : External} `{ENG : !RegexEngine} `{SCALARS : !Scalars} `{CHRONO : !Chrono}.

(** [value.map(|v| ...)] *)
Definition bind_option {A} (make : A -> SqlCell) (o : option A) : SqlCell := match o with Some a => make a | None => SqlCell.Null end.

(** [value.map(literals::parse).transpose()?.flatten()] *)
Definition parse_cell (d : DataType) (cell : SqlCell) : result (option Value) :=
  text ← try_get as_text cell;
  match text with Some s => ValueOps.parse d s | None => mret None end.
Definition native {A} (from : SqlCell -> option A) (make : A -> Value) (cell : SqlCell) : result (option Value) :=
  v ← try_get from cell; mret (option_map make v).

(** A value as itself; a leaf of another type is not bound by this. *)
Definition bind_sqlite (v : Value) : SqlCell :=
  match v with
  | Value.Boolean b => SqlCell.Boolean b
  | Value.Int8 z | Value.Int16 z | Value.Int32 z | Value.Int64 z
  | Value.UInt8 z | Value.UInt16 z | Value.UInt32 z => SqlCell.Int z
  | Value.Blob b => SqlCell.Bytes b
  | v => SqlCell.Text (ValueOps.to_string v)
  end.

(** [impl TypeEncoder for SqliteDialect]: nulls of the types stored as text are the text [NULL]. *)
Definition sqlite_encoder : TypeEncoder := {|
  encode d value :=
    match d with
    | DataType.Boolean | DataType.Int8 | DataType.Int16 | DataType.Int32 | DataType.Int64
    | DataType.UInt8 | DataType.UInt16 | DataType.UInt32 | DataType.Blob => bind_option bind_sqlite value
    | _ => SqlCell.Text (ValueOps.to_string_opt value)
    end;
  encode_text := bind_option SqlCell.Text;
|}.
Definition sqlite_decoder : TypeDecoder := {|
  decode d :=
    match d with
    | DataType.Boolean => native as_bool Value.Boolean
    | DataType.Int8 => native as_i8 Value.Int8
    | DataType.Int16 => native as_i16 Value.Int16
    | DataType.Int32 => native as_i32_cell Value.Int32
    | DataType.Int64 => native as_i64 Value.Int64
    | DataType.UInt8 => native as_u8 Value.UInt8
    | DataType.UInt16 => native as_u16 Value.UInt16
    | DataType.UInt32 => native as_u32_cell Value.UInt32
    | DataType.Blob => native as_bytes Value.Blob
    | d => parse_cell d
    end;
  decode_text := try_get as_text;
|}.

Definition bind_postgres (v : Value) : SqlCell :=
  match v with
  | Value.Boolean b => SqlCell.Boolean b
  | Value.Int8 z | Value.Int16 z | Value.Int32 z | Value.Int64 z
  | Value.UInt8 z | Value.UInt16 z | Value.UInt32 z => SqlCell.Int z
  | Value.Float32 f => SqlCell.Float32 f
  | Value.Float64 f => SqlCell.Float64 f
  | Value.Decimal d => SqlCell.Decimal d
  | Value.Time t => SqlCell.Time t
  | Value.TimeTz t => SqlCell.TimeTz (TimeWithTimezone.time t) (TimeWithTimezone.offset t)
  | Value.Interval i =>
      SqlCell.Interval (as_i32 (as_u32 (Interval.months i))) 0 (default 0%Z (num_microseconds (Interval.delta i)))
  | Value.Varchar s | Value.Json s => SqlCell.Bytes (chars s)
  | Value.Blob b => SqlCell.Bytes b
  | Value.Uuid u => SqlCell.Uuid u
  | v => SqlCell.Text (ValueOps.to_string v)
  end.

(** [impl TypeEncoder for PostgresDialect] *)
Definition postgres_encoder : TypeEncoder := {|
  encode d value :=
    match d with
    | DataType.Int128 | DataType.UInt64 | DataType.UInt128 | DataType.Date | DataType.Timestamp _
    | DataType.TimestampTz => SqlCell.Text (ValueOps.to_string_opt value)
    | _ => bind_option bind_postgres value
    end;
  encode_text := bind_option SqlCell.Text;
|}.
Definition postgres_decoder : TypeDecoder := {|
  decode d :=
    match d with
    | DataType.Boolean => native as_bool Value.Boolean
    | DataType.Int8 => native as_i16 (fun v => Value.Int8 (as_signed 8 v))
    | DataType.Int16 => native as_i16 Value.Int16
    | DataType.Int32 => native as_i32_cell Value.Int32
    | DataType.Int64 => native as_i64 Value.Int64
    | DataType.UInt8 => native as_i32_cell (fun v => Value.UInt8 (v mod 2 ^ 8)%Z)
    | DataType.UInt16 => native as_i32_cell (fun v => Value.UInt16 (v mod 2 ^ 16)%Z)
    | DataType.UInt32 => native as_i64 (fun v => Value.UInt32 (v mod 2 ^ 32)%Z)
    | DataType.Float32 => native as_f32 Value.Float32
    | DataType.Float64 => native as_f64 Value.Float64
    | DataType.Decimal _ _ => native as_decimal Value.Decimal
    | DataType.Time => native as_time Value.Time
    | DataType.TimeTz => native as_time_tz (fun v => Value.TimeTz (TimeWithTimezone.mk v.1 v.2))
    | DataType.Interval =>
        native as_interval (fun '(m, _, us) =>
          Value.Interval (Interval.mk (Months_new (cast_u32 m)) (microseconds us)))
    | DataType.Varchar => native as_bytes (fun b => Value.Varchar (of_chars b))
    | DataType.Json => native as_bytes (fun b => Value.Json (of_chars b))
    | DataType.Blob => native as_bytes Value.Blob
    | DataType.Uuid => native as_uuid Value.Uuid
    | d => parse_cell d
    end;
  decode_text := try_get as_text;
|}.
End Dialects.

(** ** Physical scalars of leaf arrays *)

Module Scalar.
Inductive t : Type :=
  | Boolean (b : bool)
  | Int (z : Z)
  | Float (f : spec_float)
  | String (s : string)
  | Bytes (l : list Z)
  | Interval (i : MonthDayNano.t).

Section Scalar.
Context `{EXT : External} `{CHRONO : !Chrono} `{INSTANTS : !Instants}.

Definition ascii_bytes (l : list ascii) : list Z := (fun c => Z.of_N (N_of_ascii c)) <$> l.

(** [into_logical] of the extractor of a data type; [type] is that of its array. *)
Definition into_logical (d : DataType) (type : ArrowType) (s : t) : result Value :=
  match d, s with
  | DataType.Boolean, Boolean b => Ok (Value.Boolean b)
  | DataType.Int8, Int z => Ok (Value.Int8 z)
  | DataType.Int16, Int z => Ok (Value.Int16 z)
  | DataType.Int32, Int z => Ok (Value.Int32 z)
  | DataType.Int64, Int z => Ok (Value.Int64 z)
  | DataType.UInt8, Int z => Ok (Value.UInt8 z)
  | DataType.UInt16, Int z => Ok (Value.UInt16 z)
  | DataType.UInt32, Int z => Ok (Value.UInt32 z)
  | DataType.UInt64, Int z => Ok (Value.UInt64 z)
  | DataType.Int128, Bytes l => Value.Int128 <$> physical.i128_from_physical l
  | DataType.UInt128, Bytes l => Value.UInt128 <$> physical.u128_from_physical l
  | DataType.Float32, Float f => Ok (Value.Float32 f)
  | DataType.Float64, Float f => Ok (Value.Float64 f)
  | DataType.Decimal _ scale, Int z => Value.Decimal <$> physical.decimal_from_physical z scale
  | DataType.Time, Int z =>
      Value.Time <$> physical.time_from_physical match type with ArrowType.Time64 u => u | _ => Microsecond end z
  | DataType.TimeTz, Bytes l => Value.TimeTz <$> physical.time_tz_from_physical l
  | DataType.Date, Int z => Value.Date <$> physical.date_from_physical z
  | DataType.Timestamp p, Int z => Value.Timestamp <$> physical.timestamp_from_physical (ArrowSchema.time_unit p) z
  | DataType.TimestampTz, Int z => Value.TimestampTz <$> physical.timestamp_tz_from_physical z
  | DataType.Interval, Interval i => Ok (Value.Interval (physical.interval_from_physical i))
  | DataType.Varchar, String s => Ok (Value.Varchar s)
  | DataType.Json, String s => Ok (Value.Json s)
  | DataType.Blob, Bytes l => Ok (Value.Blob (aggregate.bytes_of l))
  | DataType.Uuid, Bytes l => Value.Uuid <$> physical.uuid_from_physical l
  | _, _ => Panic
  end.

(** [into_physical] of the appender of a data type *)
Definition into_physical (d : DataType) (v : Value) : result t :=
  match d, v with
  | DataType.Boolean, Value.Boolean b => Ok (Boolean b)
  | DataType.Int8, Value.Int8 z | DataType.Int16, Value.Int16 z | DataType.Int32, Value.Int32 z
  | DataType.Int64, Value.Int64 z | DataType.UInt8, Value.UInt8 z | DataType.UInt16, Value.UInt16 z
  | DataType.UInt32, Value.UInt32 z | DataType.UInt64, Value.UInt64 z => Ok (Int z)
  | DataType.Int128, Value.Int128 z => Ok (Bytes (physical.i128_into_physical z))
  | DataType.UInt128, Value.UInt128 z => Ok (Bytes (physical.u128_into_physical z))
  | DataType.Float32, Value.Float32 f | DataType.Float64, Value.Float64 f => Ok (Float f)
  | DataType.Decimal _ _, Value.Decimal x => Ok (Int (physical.decimal_into_physical x))
  | DataType.Time, Value.Time x => Ok (Int (physical.time_into_physical x))
  | DataType.TimeTz, Value.TimeTz x => Ok (Bytes (physical.time_tz_into_physical x))
  | DataType.Date, Value.Date x => Ok (Int (physical.date_into_physical x))
  | DataType.Timestamp p, Value.Timestamp x =>
      Int <$> physical.timestamp_into_physical (ArrowSchema.time_unit p) x
  | DataType.TimestampTz, Value.TimestampTz x => Ok (Int (physical.timestamp_tz_into_physical x))
  | DataType.Interval, Value.Interval i => Ok (Interval (physical.interval_into_physical i))
  | DataType.Varchar, Value.Varchar s | DataType.Json, Value.Json s => Ok (String s)
  | DataType.Blob, Value.Blob l => Ok (Bytes (ascii_bytes l))
  | DataType.Uuid, Value.Uuid u => Ok (Bytes (physical.uuid_into_physical u))
  | _, _ => Panic
  end.
End Scalar.
End Scalar.

(** ** Leaf arrays *)

Module leaf.
Section leaf.
Context `{EXT : External} `{CHRONO : !Chrono} `{INSTANTS : !Instants}.

(** The array an extractor is downcast to *)
Definition is_downcast (d : DataType) (array : Array) : bool :=
  match d, array with
  | DataType.Boolean, Array.Booleans _
  | DataType.Int8, Array.Ints ArrowType.Int8 _
  | DataType.Int16, Array.Ints ArrowType.Int16 _
  | DataType.Int32, Array.Ints ArrowType.Int32 _
  | DataType.Int64, Array.Ints ArrowType.Int64 _
  | DataType.UInt8, Array.Ints ArrowType.UInt8 _
  | DataType.UInt16, Array.Ints ArrowType.UInt16 _
  | DataType.UInt32, Array.Ints ArrowType.UInt32 _
  | DataType.UInt64, Array.Ints ArrowType.UInt64 _
  | DataType.Float32, Array.Floats ArrowType.Float32 _
  | DataType.Float64, Array.Floats ArrowType.Float64 _
  | DataType.Decimal _ _, Array.Ints (ArrowType.Decimal128 _ _) _
  | DataType.Date, Array.Ints ArrowType.Date32 _
  | DataType.Time, Array.Ints (ArrowType.Time64 (Microsecond | Nanosecond)) _
  | DataType.TimestampTz, Array.Ints (ArrowType.Timestamp Microsecond _) _
  | DataType.Interval, Array.Intervals _
  | (DataType.Varchar | DataType.Json), Array.Strings ArrowType.Utf8View _
  | DataType.Blob, Array.Bytes ArrowType.LargeBinary _
  | (DataType.Int128 | DataType.UInt128 | DataType.TimeTz | DataType.Uuid), Array.Bytes (ArrowType.FixedSizeBinary _) _
      => true
  | DataType.Timestamp p, Array.Ints (ArrowType.Timestamp unit _) _ => bool_decide (unit = ArrowSchema.time_unit p)
  | _, _ => false
  end.

Definition array_type (array : Array) : ArrowType :=
  match array with
  | Array.Ints t _ | Array.Floats t _ | Array.Strings t _ | Array.Bytes t _ => t
  | _ => ArrowType.Boolean
  end.

(** The scalars of a leaf array *)
Definition scalars (array : Array) : option (list (option Scalar.t)) :=
  match array with
  | Array.Booleans l => Some (fmap (M := option) Scalar.Boolean <$> l)
  | Array.Ints _ l => Some (fmap (M := option) Scalar.Int <$> l)
  | Array.Floats _ l => Some (fmap (M := option) Scalar.Float <$> l)
  | Array.Strings _ l => Some (fmap (M := option) Scalar.String <$> l)
  | Array.Bytes _ l => Some (fmap (M := option) Scalar.Bytes <$> l)
  | Array.Intervals l => Some (fmap (M := option) Scalar.Interval <$> l)
  | _ => None
  end.

(** [option_value]: out of bounds is a panic. *)
Definition option_value (d : DataType) (array : Array) (row : nat) : result (option Value) :=
  l ← unwrap (scalars array);
  o ← unwrap (l !! row);
  option_outcome (Scalar.into_logical d (array_type array)) o.

(** The empty builder; precision and scale are checked by [arrow]. *)
Definition new_builder (d : DataType) : result Array :=
  match d with
  | DataType.Boolean => Ok (Array.Booleans [])
  | DataType.Int8 => Ok (Array.Ints ArrowType.Int8 [])
  | DataType.Int16 => Ok (Array.Ints ArrowType.Int16 [])
  | DataType.Int32 => Ok (Array.Ints ArrowType.Int32 [])
  | DataType.Int64 => Ok (Array.Ints ArrowType.Int64 [])
  | DataType.UInt8 => Ok (Array.Ints ArrowType.UInt8 [])
  | DataType.UInt16 => Ok (Array.Ints ArrowType.UInt16 [])
  | DataType.UInt32 => Ok (Array.Ints ArrowType.UInt32 [])
  | DataType.UInt64 => Ok (Array.Ints ArrowType.UInt64 [])
  | DataType.Float32 => Ok (Array.Floats ArrowType.Float32 [])
  | DataType.Float64 => Ok (Array.Floats ArrowType.Float64 [])
  | DataType.Decimal precision scale =>
      if decide (1 <= precision <= 38 /\ u8_as_i8 scale <= precision)%Z
      then Ok (Array.Ints (ArrowType.Decimal128 precision (u8_as_i8 scale)) [])
      else Err (Types.Arrow "invalid precision or scale")
  | DataType.Date => Ok (Array.Ints ArrowType.Date32 [])
  | DataType.Time => Ok (Array.Ints (ArrowType.Time64 Microsecond) [])
  | DataType.Timestamp p => Ok (Array.Ints (ArrowType.Timestamp (ArrowSchema.time_unit p) None) [])
  | DataType.TimestampTz => Ok (Array.Ints (ArrowType.Timestamp Microsecond (Some "UTC")) [])
  | DataType.Interval => Ok (Array.Intervals [])
  | DataType.Varchar | DataType.Json => Ok (Array.Strings ArrowType.Utf8View [])
  | DataType.Blob => Ok (Array.Bytes ArrowType.LargeBinary [])
  | DataType.Int128 | DataType.UInt128 | DataType.Uuid => Ok (Array.Bytes (ArrowType.FixedSizeBinary 16) [])
  | DataType.TimeTz => Ok (Array.Bytes (ArrowType.FixedSizeBinary 8) [])
  | _ => Panic
  end.

Definition push (o : option Scalar.t) (builder : Array) : result Array :=
  match builder, o with
  | Array.Booleans l, None => Ok (Array.Booleans (l ++ [None]))
  | Array.Booleans l, Some (Scalar.Boolean b) => Ok (Array.Booleans (l ++ [Some b]))
  | Array.Ints t l, None => Ok (Array.Ints t (l ++ [None]))
  | Array.Ints t l, Some (Scalar.Int z) => Ok (Array.Ints t (l ++ [Some z]))
  | Array.Floats t l, None => Ok (Array.Floats t (l ++ [None]))
  | Array.Floats t l, Some (Scalar.Float f) => Ok (Array.Floats t (l ++ [Some f]))
  | Array.Strings t l, None => Ok (Array.Strings t (l ++ [None]))
  | Array.Strings t l, Some (Scalar.String s) => Ok (Array.Strings t (l ++ [Some s]))
  | Array.Bytes t l, None => Ok (Array.Bytes t (l ++ [None]))
  | Array.Bytes (ArrowType.FixedSizeBinary n) l, Some (Scalar.Bytes b) =>
      if decide (Z.of_nat (length b) = n) then Ok (Array.Bytes (ArrowType.FixedSizeBinary n) (l ++ [Some b])) else Panic
  | Array.Bytes t l, Some (Scalar.Bytes b) => Ok (Array.Bytes t (l ++ [Some b]))
  | Array.Intervals l, None => Ok (Array.Intervals (l ++ [None]))
  | Array.Intervals l, Some (Scalar.Interval i) => Ok (Array.Intervals (l ++ [Some i]))
  | _, _ => Panic
  end.

(** [append_option] *)
Definition append_option (d : DataType) (value : option Value) (builder : Array) : result Array :=
  o ← option_outcome (Scalar.into_physical d) value; push o builder.
End leaf.
End leaf.

(** The nesting of a field: enough fuel for the factories *)
Fixpoint field_depth (f : Field) : nat :=
  match f with
  | ArrowType.mk_Field _ data_type _ _ =>
      S match data_type with
        | ArrowType.List inner | ArrowType.LargeList inner | ArrowType.Map inner _ => field_depth inner
        | ArrowType.Struct fields =>
            (fix go (fields : list Field) : nat :=
               match fields with [] => 0 | f :: fields => Nat.max (field_depth f) (go fields) end) fields
        | _ => 0
        end
  end.

Section Factories.
Context `{EXT : External}.

Definition not_inlined {A} (d : DataType) : result A :=
  Err (UnsupportedArrowDataType (DataTypeOps.to_string d +:+ " inline data")).

(** Whether the [match] of a factory ends in a leaf *)
Definition is_leaf (d : DataType) : bool :=
  match d with
  | DataType.Variant | DataType.Geometry | DataType.List _ | DataType.Struct _ | DataType.Map _ _ => false
  | _ => true
  end.
End Factories.

(** ** From arrays to arguments ([encoding/]) *)

Module encoding.
Inductive Extractor `{External} : Type :=
  | Leaf (d : DataType) (array : Array)
  | LargeList (offsets : list nat) (valid : list bool) (inner : Extractor)
  | Struct (valid : list bool) (children : list (string * Extractor))
  | Map (offsets : list nat) (valid : list bool) (key value : Extractor).

Section encoding.
Context `{EXT : External} `{ENG : !RegexEngine} `{SCALARS : !Scalars} `{CHRONO : !Chrono} `{INSTANTS : !Instants}.
Context `{EXTENSIONS : !Extensions} {ENC : TypeEncoder}.

(** [make_column_encoder]: arrays that are not the expected ones are panics. *)
Fixpoint make_column_encoder_go (fuel : nat) (field : Field) (array : Array) : result Extractor :=
  match fuel with
  | 0 => Panic
  | S fuel =>
      column ← ArrowSchema.try_from field;
      match Column.dtype column with
      | (DataType.Variant | DataType.Geometry) as d => not_inlined d
      | DataType.List inner =>
          match array with
          | Array.List offsets valid values =>
              inner ← make_column_encoder_go fuel (ArrowSchema.to_arrow_field inner) values;
              mret (LargeList offsets valid inner)
          | _ => Panic
          end
      | DataType.Struct fields =>
          match array with
          | Array.Struct valid columns =>
              children ← map_outcome (fun '(i, f) =>
                column ← unwrap (columns !! i);
                enc ← make_column_encoder_go fuel f column;
                mret (Field.name f, enc)) (imap pair (ArrowSchema.to_arrow_field <$> fields));
              mret (Struct valid children)
          | _ => Panic
          end
      | DataType.Map key value =>
          match array with
          | Array.Map offsets valid keys values =>
              key ← make_column_encoder_go fuel (ArrowSchema.to_arrow_field key) keys;
              value ← make_column_encoder_go fuel (ArrowSchema.to_arrow_field value) values;
              mret (Map offsets valid key value)
          | _ => Panic
          end
      | d => if leaf.is_downcast d array then Ok (Leaf d array) else Panic
      end
  end.
Definition make_column_encoder (field : Field) (array : Array) : result Extractor :=
  make_column_encoder_go (field_depth field) field array.

(** [is_null] *)
Definition is_null (valid : list bool) (row : nat) : result bool := negb <$> unwrap (valid !! row).
(** The range of a row between its offsets *)
Definition range (offsets : list nat) (row : nat) : result (list nat) :=
  start ← unwrap (offsets !! row);
  stop ← unwrap (offsets !! S row);
  mret (seq start (stop - start)).

Definition items (extract_text : nat -> result string) (offsets : list nat) (valid : list bool) (row : nat)
    : result (option (list string)) :=
  null ← is_null valid row;
  if (null : bool) then mret None
  else r ← range offsets row; elements ← map_outcome extract_text r; mret (Some elements).

(** The texts by name; [IndexMap] *)
Definition entries (children : list (string * (nat -> result string))) (valid : list bool) (row : nat)
    : result (option (list (string * string))) :=
  null ← is_null valid row;
  if (null : bool) then mret None
  else
    l ← map_outcome (fun '(name, extract_text) => text ← extract_text row; mret (name, text)) children;
    mret (Some (IndexMap.from_iter l)).

Definition formatted (key value : nat -> result string) (offsets : list nat) (valid : list bool) (row : nat)
    : result (option (list (string * string))) :=
  null ← is_null valid row;
  if (null : bool) then mret None
  else
    r ← range offsets row;
    l ← map_outcome (fun i => k ← key i; v ← value i; mret (k, v)) r;
    mret (Some l).

Fixpoint extract_text (self : Extractor) (row : nat) {struct self} : result string :=
  match self with
  | Leaf d array => v ← leaf.option_value d array row; mret (ValueOps.to_string_opt v)
  | LargeList offsets valid inner =>
      l ← items (extract_text inner) offsets valid row; mret (literals.format literals.list_literal l)
  | Struct valid children =>
      m ← entries (map (fun '(name, child) => (name, extract_text child)) children) valid row;
      mret (literals.format literals.struct_literal m)
  | Map offsets valid key value =>
      m ← formatted (extract_text key) (extract_text value) offsets valid row;
      mret (literals.format literals.map_literal m)
  end.

Definition extract (self : Extractor) (row : nat) : result SqlCell :=
  let text {A} (L : Literal A) (r : result (option A)) : result SqlCell :=
    v ← r; mret (encode_text ((fun v => literals.format L (Some v)) <$> v)) in
  match self with
  | Leaf d array => v ← leaf.option_value d array row; mret (encode d v)
  | LargeList offsets valid inner => text literals.list_literal (items (extract_text inner) offsets valid row)
  | Struct valid children =>
      text literals.struct_literal
        (entries ((fun '(name, child) => (name, extract_text child)) <$> children) valid row)
  | Map offsets valid key value =>
      text literals.map_literal (formatted (extract_text key) (extract_text value) offsets valid row)
  end.

(** [encode_record_batch]: the arguments row by row *)
Definition encode_record_batch (fields : list Field) (columns : list Array) (num_rows : nat) : result (list SqlCell) :=
  extractors ← map_outcome (fun '(field, array) => make_column_encoder field array) (zip fields columns);
  rows ← map_outcome (fun r => map_outcome (fun ext => extract ext r) extractors) (seq 0 num_rows);
  mret (concat rows).
End encoding.
End encoding.

(** ** From rows to arrays ([decoding/])

    The structure of an appender is fixed, its builders are arrays that grow. *)

Module decoding.
Inductive Appender `{External} : Type :=
  | Leaf (d : DataType)
  | LargeList (inner : Appender)
  | Struct (children : list (string * Appender))
  | Map (key value : Appender).

(** The columns of a row by name *)
Definition Row `{External} : Type := list (string * SqlCell).

Section decoding.
Context `{EXT : External} `{ENG : !RegexEngine} `{SCALARS : !Scalars} `{CHRONO : !Chrono} `{INSTANTS : !Instants}.
Context `{EXTENSIONS : !Extensions} {DEC : TypeDecoder}.

(** [MapArrayAppender::new]: the entries must be a struct of the key and the value. *)
Definition new_map (make : Field -> result (Appender * Array)) (entries_field : Field) : result (Appender * Array) :=
  match Field.data_type entries_field with
  | ArrowType.Struct fields =>
      key ← unwrap (fields !! 0);
      value ← unwrap (fields !! 1);
      '(key, keys) ← make key;
      '(value, values) ← make value;
      mret (Map key value, Array.Map [0] [] keys values)
  | _ => Panic
  end.

(** [make_array_appender]: the appender and its empty builder *)
Fixpoint make_array_appender_go (fuel : nat) (field : Field) : result (Appender * Array) :=
  match fuel with
  | 0 => Panic
  | S fuel =>
      column ← ArrowSchema.try_from field;
      match Column.dtype column with
      | (DataType.Variant | DataType.Geometry) as d => not_inlined d
      | DataType.List inner =>
          '(inner, values) ← make_array_appender_go fuel (ArrowSchema.to_arrow_field inner);
          mret (LargeList inner, Array.List [0] [] values)
      | DataType.Struct fields =>
          l ← map_outcome (fun f => '(a, b) ← make_array_appender_go fuel f; mret (Field.name f, a, b))
                (ArrowSchema.to_arrow_field <$> fields);
          mret (Struct l.*1, Array.Struct [] l.*2)
      | DataType.Map _ _ => new_map (make_array_appender_go fuel) (ArrowSchema.to_arrow_field column)
      | d => builder ← leaf.new_builder d; mret (Leaf d, builder)
      end
  end.
Definition make_array_appender (field : Field) : result (Appender * Array) :=
  make_array_appender_go (field_depth field) field.

Fixpoint append_null (builder : Array) : Array :=
  match builder with
  | Array.Booleans l => Array.Booleans (l ++ [None])
  | Array.Ints t l => Array.Ints t (l ++ [None])
  | Array.Floats t l => Array.Floats t (l ++ [None])
  | Array.Strings t l => Array.Strings t (l ++ [None])
  | Array.Bytes t l => Array.Bytes t (l ++ [None])
  | Array.Intervals l => Array.Intervals (l ++ [None])
  | Array.List offsets valid values => Array.List (offsets ++ [Array.len values]) (valid ++ [false]) values
  | Array.Struct valid fields => Array.Struct (valid ++ [false]) (map append_null fields)
  | Array.Map offsets valid key value => Array.Map (offsets ++ [Array.len key]) (valid ++ [false]) key value
  end.

(** [field_indices]: of equal names the last one *)
Definition field_index (names : list string) (name : string) : option nat :=
  match List.find (fun e => bool_decide (e.2 = name)) (reverse (imap pair names)) with
  | Some (i, _) => Some i
  | None => None
  end.

(** One entry of a struct goes to the builder of its field. *)
Definition append_entry (appends : list (string * (string -> Array -> result Array))) (entry : string * string)
    (fields : list Array) : result (list Array) :=
  i ← unwrap (field_index appends.*1 entry.1);
  append ← unwrap (appends !! i);
  builder ← unwrap (fields !! i);
  builder ← append.2 entry.2 builder;
  mret (<[i := builder]> fields).

Fixpoint append_text (self : Appender) (text : string) (builder : Array) {struct self} : result Array :=
  match self with
  | Leaf d => v ← ValueOps.parse d text; leaf.append_option d v builder
  | LargeList inner =>
      match builder with
      | Array.List offsets valid values =>
          l ← literals.parse literals.list_literal text;
          match l with
          | Some elements =>
              values ← fold_outcome (fun b elem => append_text inner elem b) values elements;
              mret (Array.List (offsets ++ [Array.len values]) (valid ++ [true]) values)
          | None => mret (append_null builder)
          end
      | _ => Panic
      end
  | Struct children =>
      match builder with
      | Array.Struct valid fields =>
          m ← literals.parse literals.struct_literal text;
          match m with
          | Some entries =>
              let appends := map (fun '(name, child) => (name, append_text child)) children in
              fields ← fold_outcome (fun fields entry => append_entry appends entry fields) fields entries;
              mret (Array.Struct (valid ++ [true]) fields)
          | None => mret (append_null builder)
          end
      | _ => Panic
      end
  | Map key value =>
      match builder with
      | Array.Map offsets valid keys values =>
          m ← literals.parse literals.map_literal text;
          match m with
          | Some entries =>
              '(keys, values) ← fold_outcome (fun '(keys, values) entry =>
                keys ← append_text key entry.1 keys;
                values ← append_text value entry.2 values;
                mret (keys, values)) (keys, values) entries;
              mret (Array.Map (offsets ++ [Array.len keys]) (valid ++ [true]) keys values)
          | None => mret (append_null builder)
          end
      | _ => Panic
      end
  end.

(** [append]: leaves are decoded, nested values are text. *)
Definition append (self : Appender) (cell : SqlCell) (builder : Array) : result Array :=
  match self with
  | Leaf d => v ← decode d cell; leaf.append_option d v builder
  | _ =>
      text ← decode_text cell;
      match text with
      | Some text => append_text self text builder
      | None => mret (append_null builder)
      end
  end.

(** [finish]: the fields of a struct must have its length. *)
Fixpoint finish (builder : Array) : result Array :=
  match builder with
  | Array.List offsets valid values => values ← finish values; mret (Array.List offsets valid values)
  | Array.Struct valid fields =>
      if forallb (fun f => bool_decide (Array.len f = length valid)) fields then
        fields ← (fix go (fields : list Array) : result (list Array) :=
          match fields with [] => Ok [] | f :: fields => f ← finish f; fs ← go fields; mret (f :: fs) end) fields;
        mret (Array.Struct valid fields)
      else Panic
  | Array.Map offsets valid keys values =>
      keys ← finish keys; values ← finish values; mret (Array.Map offsets valid keys values)
  | leaf => Ok leaf
  end.

(** [RecordBatch::try_new]: there is a column, columns have equal lengths, and those that are not nullable
    have no nulls. *)
Definition try_new (fields : list Field) (columns : list Array) : result (list Array) :=
  match columns with
  | [] => Err (Types.Arrow "must either specify a row count or at least one column")
  | first :: _ =>
      if forallb (fun c => bool_decide (Array.len c = Array.len first)) columns then
        if existsb (fun '(f, c) => negb (Field.is_nullable f) && negb (bool_decide (Array.null_count c = 0)))
             (zip fields columns)
        then Err (Types.Arrow "declared as non-nullable but contains null values")
        else Ok columns
      else Err (Types.Arrow "all columns in a record batch must have the same length")
  end.

(** A row goes to the builders of the fields. *)
Definition append_row (fields : list Field) (appenders : list Appender) (builders : list Array) (row : Row)
    : result (list Array) :=
  map_outcome (fun '(field, (appender, builder)) =>
    cell ← ok_or (Database false false "ColumnNotFound") (IndexMap.get (Field.name field) row);
    append appender cell builder) (zip fields (zip appenders builders)).

Definition decode_rows (rows : list Row) (fields : list Field) : result (list Array) :=
  appenders ← map_outcome make_array_appender fields;
  builders ← fold_outcome (append_row fields appenders.*1) appenders.*2 rows;
  arrays ← map_outcome finish builders;
  try_new fields arrays.
End decoding.
End decoding.

(** ** The dialects ([db/mod.rs]) *)

Module Inlined.
Section Inlined.
Context `{EXT : External} `{ENG : !RegexEngine} `{SCALARS : !Scalars} `{CHRONO : !Chrono} `{INSTANTS : !Instants}.
Context `{EXTENSIONS : !Extensions}.

(** [insert_all_arrow]: the arguments of the insertion, if there is one *)
Definition insert_all_arrow (dialect : Dialect) (fields : list Field) (columns : list Array) (num_rows : nat)
    : result (option (list SqlCell)) :=
  if decide (num_rows = 0 \/ columns = []) then mret None
  else
    Some <$> match dialect with
             | Dialect.Postgres => encoding.encode_record_batch (ENC := postgres_encoder) fields columns num_rows
             | Dialect.MySql => Panic
             | Dialect.Sqlite => encoding.encode_record_batch (ENC := sqlite_encoder) fields columns num_rows
             end.

(** [fetch_all_arrow]: the arrays of the rows of a query *)
Definition fetch_all_arrow (dialect : Dialect) (rows : list decoding.Row) (fields : list Field) : result (list Array) :=
  match dialect with
  | Dialect.Postgres => decoding.decode_rows (DEC := postgres_decoder) rows fields
  | Dialect.MySql => Panic
  | Dialect.Sqlite => decoding.decode_rows (DEC := sqlite_decoder) rows fields
  end.

(** The rows a table has of an insertion: the arguments row by row, under the names of the fields *)
Fixpoint table_rows (names : list string) (num_rows : nat) (cells : list SqlCell) : list decoding.Row :=
  match num_rows with
  | 0 => []
  | S n => zip names (take (length names) cells) :: table_rows names n (drop (length names) cells)
  end.
End Inlined.
End Inlined.
