(* ===== verification/InlinedFacts.v ===== *)
(** * Inlined rows are read back ([db/arrow/])

    Arrays are written as the texts of their values and read again as arrays of
    the same values; columns of maps can be written but not be read. *)

From S2P Require Import Prelude Text Regex Identifier Types Instances Literals LiteralFacts Values ValueFacts ValueTyping.
From S2P Require Import IntervalFacts Dialect Arrow ArrowFacts Physical Arrays ArraysFacts Inlined.

(** ** Fields of columns *)

Section Fields.
Context `{EXT : External} `{EXTENSIONS : !Extensions}.

Definition arrow_dtype (d : DataType) : DataType := Column.dtype (arrow_column (Column.new "" d)).

Lemma dtype_arrow c : Column.dtype (arrow_column c) = arrow_dtype (Column.dtype c).
Proof. by destruct c as [? d ? ? ? ? ?]; destruct d. Qed.
Lemma arrow_dtype_struct fields : arrow_dtype (DataType.Struct fields) = DataType.Struct (arrow_column <$> fields).
Proof.
  unfold arrow_dtype. cbn. f_equal. all: induction fields as [|f fields IH]; [done|]; cbn; by f_equal.
Qed.
Lemma name_arrow c : Column.name (arrow_column c) = Column.name c.
Proof. by destruct c. Qed.
Lemma field_name c : Field.name (ArrowSchema.to_arrow_field c) = Column.name c.
Proof. destruct c. cbn [ArrowSchema.to_arrow_field]. by rewrite field_shape. Qed.
Lemma field_nullable c : Field.is_nullable (ArrowSchema.to_arrow_field c) = Column.nullable c.
Proof. destruct c. cbn [ArrowSchema.to_arrow_field]. by rewrite field_shape. Qed.

(** The depth of the fields of nested columns *)
Definition depth (c : Column) : nat := field_depth (ArrowSchema.to_arrow_field c).
Definition inner_depth (d : DataType) : nat :=
  match d with
  | DataType.List inner => depth inner
  | DataType.Struct fields => foldr (fun c n => Nat.max (depth c) n) 0 fields
  | DataType.Map key value => S (Nat.max (depth key) (depth value))
  | _ => 0
  end.
Lemma depth_inner c : inner_depth (Column.dtype c) < depth c.
Proof.
  destruct c as [name d nullable tags initial default field_id]. unfold depth. cbn [ArrowSchema.to_arrow_field].
  rewrite field_shape. cbn [Column.dtype].
  destruct d as [| | | | | | | | | | | | |p q| | | |pr| | | | | | | | |inner|fields|key val]; cbn [inner_depth field_depth]; try lia.
  - unfold depth; lia.
  - enough (foldr (fun c n => Nat.max (depth c) n) 0 fields <=
      (fix go (fields : list Field) : nat :=
         match fields with [] => 0 | f :: fields => Nat.max (field_depth f) (go fields) end)
      ((fix go (fields : list Column) : list Field :=
          match fields with [] => [] | f :: fields => ArrowSchema.to_arrow_field f :: go fields end) fields)) by lia.
    induction fields as [|f fields IH]; cbn [foldr]; [lia|]. unfold depth in *; lia.
  - cbn. unfold depth. lia.
Qed.

Lemma fields_depth fields c : c ∈ fields -> depth c <= inner_depth (DataType.Struct fields).
Proof. cbn. induction fields as [|f fields IH]; [set_solver|]. intros [->|Hc]%elem_of_cons; cbn; [lia|]. specialize (IH Hc). lia. Qed.

Lemma machine_fields fields :
  (fix go (fields : list Column) : Prop :=
     match fields with [] => True | f :: fields => machine_column f /\ go fields end) fields <->
  Forall machine_column fields.
Proof. induction fields as [|f fields IH]; [by split|]. rewrite Forall_cons. tauto. Qed.
Lemma arrow_fields fields :
  (fix go (fields : list Column) : list Column :=
     match fields with [] => [] | f :: fields => arrow_column f :: go fields end) fields = arrow_column <$> fields.
Proof. induction fields as [|f fields IH]; [done|]. cbn. by f_equal. Qed.

(** What is kept by Arrow is a column of the same depth. *)
Lemma arrow_keeps c : machine_column c -> machine_column (arrow_column c) /\ depth (arrow_column c) = depth c.
Proof.
  revert c. fix IH 1. intros [name d nullable tags initial default field_id].
  assert (forall f, depth (Column.with_name "element" f) = depth f) as Hname.
  { intros []. unfold depth, Column.with_name. cbn [ArrowSchema.to_arrow_field]. by rewrite !field_shape. }
  assert (forall f, machine_column f -> machine_column (Column.with_name "element" f)) as Hm by (by intros []).
  unfold depth in *. destruct d as [| | | | | | | | | | | | |p q| | | |pr| | | | | | | | |inner|fields|key val];
    try (intros H; split; [exact H|]; cbn [arrow_column ArrowSchema.to_arrow_field]; by rewrite !field_shape).
  - intros [Hid Hi]. cbn [arrow_column ArrowSchema.to_arrow_field machine_column]. rewrite !field_shape.
    destruct (IH inner Hi) as [Hm1 Hd]. split; [split; [done|by apply Hm]|]. cbn [field_depth]. by rewrite Hname, Hd.
  - intros [Hid Hi]. cbn [arrow_column ArrowSchema.to_arrow_field machine_column]. rewrite !field_shape. cbn [field_depth].
    enough ((fix go (fields : list Column) : Prop :=
       match fields with [] => True | f :: fields => machine_column f /\ go fields end)
       ((fix go (fields : list Column) : list Column :=
         match fields with [] => [] | f :: fields => arrow_column f :: go fields end) fields) /\
      (fix go (fields : list Field) : nat :=
         match fields with [] => 0 | f :: fields => Nat.max (field_depth f) (go fields) end)
      ((fix go (fields : list Column) : list Field :=
          match fields with [] => [] | f :: fields => ArrowSchema.to_arrow_field f :: go fields end)
        ((fix go (fields : list Column) : list Column :=
          match fields with [] => [] | f :: fields => arrow_column f :: go fields end) fields)) =
      (fix go (fields : list Field) : nat :=
         match fields with [] => 0 | f :: fields => Nat.max (field_depth f) (go fields) end)
      ((fix go (fields : list Column) : list Field :=
          match fields with [] => [] | f :: fields => ArrowSchema.to_arrow_field f :: go fields end) fields)) as [? ->]
      by done.
    clear Hid. revert Hi. induction fields as [|f fields IHf]; [done|]. intros [Hf Hl].
    destruct (IH f Hf) as [? ->]. destruct (IHf Hl) as [? ->]. done.
  - intros [Hid [Hk Hv]]. cbn [arrow_column ArrowSchema.to_arrow_field machine_column]. rewrite !field_shape.
    destruct (IH key Hk) as [? Hdk]. destruct (IH val Hv) as [? Hdv]. split; [done|]. cbn. by rewrite Hdk, Hdv.
Qed.

(** The children of a nested column, as the factories see them *)
Definition children (d : DataType) : list Column :=
  match d with
  | DataType.List inner => [inner]
  | DataType.Struct fields => fields
  | DataType.Map key value => [key; value]
  | _ => []
  end.
Lemma seen_children c n c' : machine_column c -> depth c <= S n -> c' ∈ children (Column.dtype (arrow_column c)) ->
  machine_column c' /\ depth c' <= n.
Proof.
  intros Hm Hn Hin. destruct (arrow_keeps c Hm) as [Hm' Hd]. rewrite <-Hd in Hn. clear Hm Hd.
  pose proof (depth_inner (arrow_column c)) as Hdi. revert Hm' Hn Hin Hdi. generalize (arrow_column c). clear c.
  intros [name d nullable tags initial default field_id] [_ Hm] Hn Hin Hdi. cbn [Column.dtype] in *.
  assert (inner_depth d <= n) as Hi by lia. clear Hn Hdi.
  destruct d as [| | | | | | | | | | | | |p q| | | |pr| | | | | | | | |inner|fields|key val];
    cbn [children] in Hin; try by apply not_elem_of_nil in Hin.
  - apply list_elem_of_singleton in Hin as ->. by split.
  - rewrite machine_fields, Forall_forall in Hm. split; [by apply Hm|]. etrans; [by eapply fields_depth|done].
  - cbn [inner_depth] in Hi. destruct Hm. apply elem_of_cons in Hin as [?|Hin%list_elem_of_singleton]; subst; split; done || lia.
Qed.
End Fields.

(** ** The values of an array *)

Section Values.
Context `{EXT : External} `{ENG : !RegexEngine} `{SCALARS : !Scalars} `{CHRONO : !Chrono} `{INSTANTS : !Instants}.

Definition row_or_null (ws : list (option Value)) (i : nat) : option Value := default None (ws !! i).
Definition window_of (offsets : list nat) (i : nat) : list nat := seq (offsets !!! i) (offsets !!! S i - offsets !!! i).
Definition list_row (ws : list (option Value)) (offsets : list nat) (i : nat) (valid : bool) : option Value :=
  if valid then Some (Value.List (row_or_null ws <$> window_of offsets i)) else None.
Definition struct_row (names : list string) (cols : list (list (option Value))) (i : nat) (valid : bool) : option Value :=
  if valid then Some (Value.Struct (zip names ((fun col => row_or_null col i) <$> cols))) else None.
Definition map_row (ks : list Value) (ws : list (option Value)) (offsets : list nat) (i : nat) (valid : bool) : option Value :=
  if valid
  then Some (Value.Map ((fun j => (default (Value.Boolean false) (ks !! j), row_or_null ws j)) <$> window_of offsets i))
  else None.

Definition well_offset (offsets : list nat) (valid : list bool) (len : nat) : Prop :=
  length offsets = S (length valid) /\ Forall (fun o => o <= len) offsets.

(** [represents d a vs]: the array [a] of the data type [d] holds the values [vs]. *)
Inductive represents : DataType -> Array -> list (option Value) -> Prop :=
  | represents_leaf d array l vs :
      is_leaf d = true -> leaf.is_downcast d array = true -> leaf.scalars array = Some l ->
      map_outcome (option_outcome (Scalar.into_logical d (leaf.array_type array))) l = Ok vs ->
      represents d array vs
  | represents_list c offsets valid values ws :
      represents (Column.dtype c) values ws -> well_offset offsets valid (length ws) ->
      represents (DataType.List c) (Array.List offsets valid values) (imap (list_row ws offsets) valid)
  | represents_struct fields valid columns cols :
      represents_all fields columns cols -> Forall (fun col => length col = length valid) cols ->
      NoDup (Column.name <$> fields) ->
      represents (DataType.Struct fields) (Array.Struct valid columns)
        (imap (struct_row (Column.name <$> fields) cols) valid)
  | represents_map key value offsets valid keys values ks ws :
      represents (Column.dtype key) keys (Some <$> ks) -> represents (Column.dtype value) values ws ->
      well_offset offsets valid (length ks) -> length ws = length ks ->
      represents (DataType.Map key value) (Array.Map offsets valid keys values) (imap (map_row ks ws offsets) valid)
with represents_all : list Column -> list Array -> list (list (option Value)) -> Prop :=
  | represents_nil : represents_all [] [] []
  | represents_cons c a vs fields columns cols :
      represents (Column.dtype c) a vs -> represents_all fields columns cols ->
      represents_all (c :: fields) (a :: columns) (vs :: cols).
Scheme represents_mut := Induction for represents Sort Prop
  with represents_all_mut := Induction for represents_all Sort Prop.
#[local] Hint Constructors represents represents_all : core.

Lemma represents_arrow d a vs : represents d a vs -> represents (arrow_dtype d) a vs.
Proof.
  revert d a vs. apply (represents_mut (fun d a vs _ => represents (arrow_dtype d) a vs)
    (fun fields columns cols _ => represents_all (arrow_column <$> fields) columns cols)).
  - intros d array l vs Hd Ha Hl Hvs. destruct d; try discriminate Hd; by eapply represents_leaf.
  - intros c offsets valid values ws _ IH Ho.
    change (arrow_dtype (DataType.List c)) with (DataType.List (Column.with_name "element" (arrow_column c))).
    apply represents_list; [|done].
    rewrite <-dtype_arrow in IH. revert IH. by destruct (arrow_column c).
  - intros fields valid columns cols _ IH Hlen Hnd. rewrite arrow_dtype_struct.
    assert (Column.name <$> (arrow_column <$> fields) = Column.name <$> fields) as Hn.
    { rewrite <-list_fmap_compose. apply list_fmap_ext. intros ? c ?. apply name_arrow. }
    rewrite <-Hn in Hnd |- *. by apply represents_struct.
  - intros key value offsets valid keys values ks ws _ IHk _ IHv Ho Hlen.
    change (represents (DataType.Map (arrow_column key) (arrow_column value)) (Array.Map offsets valid keys values)
      (imap (map_row ks ws offsets) valid)).
    apply represents_map; [by rewrite dtype_arrow|by rewrite dtype_arrow|done|done].
  - done.
  - intros c a vs fields columns cols _ IHc _ IH. cbn. constructor; [by rewrite dtype_arrow|done].
Qed.

Lemma length_scalars a l : leaf.scalars a = Some l -> length l = Array.len a.
Proof. destruct a; cbn; intros [= <-]; by rewrite length_fmap. Qed.
Lemma map_outcome_length {A B} (f : A -> result B) l l' : map_outcome f l = Ok l' -> length l' = length l.
Proof. intros H%map_outcome_Forall2. by apply Forall2_length in H. Qed.

Lemma represents_length d a vs : represents d a vs -> length vs = Array.len a.
Proof.
  destruct 1 as [d array l vs ?? Hl Hvs| | |]; [|by rewrite length_imap..].
  by rewrite (map_outcome_length _ _ _ Hvs), <-(length_scalars _ _ Hl).
Qed.

Lemma represents_all_length fields columns cols : represents_all fields columns cols ->
  length fields = length cols /\ length columns = length cols.
Proof. induction 1 as [|c a vs fields columns cols _ _ [IH1 IH2]]; [done|]. cbn. by rewrite IH1, IH2. Qed.

(** ** Texts of values *)

Context `{EXTENSIONS : !Extensions} {ENC : TypeEncoder}.
Import encoding.

Lemma offsets_range offsets valid len i b : well_offset offsets valid len -> valid !! i = Some b ->
  range offsets i = Ok (window_of offsets i) /\ (offsets !!! i <= len /\ offsets !!! S i <= len).
Proof.
  intros [Hlen Hall] Hi%lookup_lt_Some. unfold range, window_of. rewrite Forall_lookup in Hall.
  destruct (lookup_lt_is_Some_2 offsets i) as [a Ha]; [lia|].
  destruct (lookup_lt_is_Some_2 offsets (S i)) as [z Hz]; [lia|].
  rewrite Ha, Hz. cbn. rewrite !list_lookup_total_alt, Ha, Hz. cbn. split; [done|]. eauto.
Qed.

Lemma window_lt offsets valid len i b j : well_offset offsets valid len -> valid !! i = Some b ->
  j ∈ window_of offsets i -> j < len.
Proof. intros Ho Hi Hj%elem_of_seq. destruct (offsets_range _ _ _ _ _ Ho Hi) as [_ []]. lia. Qed.

(** The texts an extractor gives *)
Definition gives (x : Extractor) (vs : list (option Value)) : Prop :=
  forall i v, vs !! i = Some v -> extract_text x i = Ok (ValueOps.to_string_opt v).

Lemma gives_row x vs i : gives x vs -> i < length vs -> extract_text x i = Ok (ValueOps.to_string_opt (row_or_null vs i)).
Proof. intros Hx Hi. destruct (lookup_lt_is_Some_2 vs i Hi) as [v Hv]. unfold row_or_null. rewrite Hv. by apply Hx. Qed.

Definition format_struct (m : list (string * option Value)) : list (string * string) :=
  (fun e => (e.1, ValueOps.to_string_opt e.2)) <$> m.
Definition format_map (m : list (Value * option Value)) : list (string * string) :=
  (fun e => (ValueOps.to_string e.1, ValueOps.to_string_opt e.2)) <$> m.

Lemma format_struct_keys m : (format_struct m).*1 = m.*1.
Proof. unfold format_struct. by rewrite <-list_fmap_compose. Qed.
Lemma to_string_struct m : ValueOps.to_string (Value.Struct m) = literals.format literals.struct_literal (Some (format_struct m)).
Proof. cbn [ValueOps.to_string]. do 2 f_equal. induction m as [|[k o] m IH]; [done|]. cbn. by f_equal. Qed.
Lemma to_string_map m : ValueOps.to_string (Value.Map m) = literals.format literals.map_literal (Some (format_map m)).
Proof. cbn [ValueOps.to_string]. do 2 f_equal. induction m as [|[k o] m IH]; [done|]. cbn. by f_equal. Qed.

Lemma map_outcome_lookup {A B} (f : A -> result B) (P : nat -> B -> Prop) l :
  (forall i x, l !! i = Some x -> exists y, f x = Ok y /\ P i y) ->
  exists ys, map_outcome f l = Ok ys /\ length ys = length l /\ forall i y, ys !! i = Some y -> P i y.
Proof.
  revert P. induction l as [|x l IH]; intros P Hf; [by exists []|].
  destruct (Hf 0 x eq_refl) as (y & Hy & Hp). destruct (IH (fun i => P (S i))) as (ys & Hys & Hlen & Hall).
  { intros i. apply (Hf (S i)). }
  exists (y :: ys). cbn. rewrite Hy. cbn. rewrite Hys. split; [done|]. split; [by rewrite Hlen|].
  intros [|i] z; [by intros [= <-]|apply Hall].
Qed.

Lemma map_outcome_pure {A B} (f : A -> result B) (g : A -> B) l :
  (forall x, x ∈ l -> f x = Ok (g x)) -> map_outcome f l = Ok (g <$> l).
Proof.
  induction l as [|x l IH]; intros Hf; [done|]. cbn. rewrite (Hf x) by left. cbn. rewrite IH; [done|].
  intros y Hy. apply Hf. by right.
Qed.

Lemma represents_all_lookup fields columns cols i c : represents_all fields columns cols -> fields !! i = Some c ->
  exists a vs, columns !! i = Some a /\ cols !! i = Some vs /\ represents (Column.dtype c) a vs.
Proof.
  intros H. revert i. induction H as [|c' a vs fields columns cols Hr _ IH]; [done|].
  intros [|i]; cbn; [|apply IH]. intros [= ->]. eauto.
Qed.

Lemma items_give x ws offsets valid i (b : bool) : gives x ws -> well_offset offsets valid (length ws) -> valid !! i = Some b ->
  items (extract_text x) offsets valid i =
    Ok (if b then Some (ValueOps.to_string_opt <$> (row_or_null ws <$> window_of offsets i)) else None).
Proof.
  intros Hx Ho Hi. unfold items, is_null. rewrite Hi. cbn. destruct b; [|done]. cbn.
  destruct (offsets_range _ _ _ _ _ Ho Hi) as [-> _]. cbn.
  rewrite (map_outcome_pure _ (fun j => ValueOps.to_string_opt (row_or_null ws j))).
  - cbn. by rewrite <-list_fmap_compose.
  - intros j Hj. apply gives_row; [done|]. by eapply window_lt.
Qed.

Lemma formatted_give xk xv ks ws offsets valid i (b : bool) : gives xk (Some <$> ks) -> gives xv ws ->
  well_offset offsets valid (length ks) -> length ws = length ks -> valid !! i = Some b ->
  formatted (extract_text xk) (extract_text xv) offsets valid i =
    Ok (if b then Some (format_map ((fun j => (default (Value.Boolean false) (ks !! j), row_or_null ws j)) <$>
                          window_of offsets i)) else None).
Proof.
  intros Hk Hv Ho Hlen Hi. unfold formatted, is_null. rewrite Hi. cbn. destruct b; [|done]. cbn.
  destruct (offsets_range _ _ _ _ _ Ho Hi) as [-> _]. cbn.
  rewrite (map_outcome_pure _ (fun j => (ValueOps.to_string (default (Value.Boolean false) (ks !! j)),
    ValueOps.to_string_opt (row_or_null ws j)))).
  - cbn. unfold format_map. by rewrite <-list_fmap_compose.
  - intros j Hj. assert (j < length ks) as Hlt by (by eapply window_lt).
    destruct (lookup_lt_is_Some_2 ks j Hlt) as [k Hkj].
    rewrite (Hk j (Some k)) by (by rewrite list_lookup_fmap, Hkj). cbn.
    rewrite (gives_row xv ws j) by (done || lia). cbn. by rewrite Hkj.
Qed.

Definition child_texts (children : list (string * Extractor)) : list (string * (nat -> result string)) :=
  (fun '(name, child) => (name, extract_text child)) <$> children.

Definition entry_text (i : nat) (e : string * (nat -> result string)) : result (string * string) :=
  let '(name, extract_text) := e in text ← extract_text i; mret (name, text).

Lemma entries_give children names cols valid i (b : bool) :
  NoDup names -> length children = length names -> length cols = length names ->
  (forall j e, children !! j = Some e -> names !! j = Some e.1 /\ forall col, cols !! j = Some col ->
     gives e.2 col) ->
  Forall (fun col => length col = length valid) cols -> valid !! i = Some b ->
  entries (child_texts children) valid i =
    Ok (if b then Some (format_struct (zip names ((fun col => row_or_null col i) <$> cols))) else None).
Proof.
  intros Hnd Hlen Hcols Hchild Hv Hi. destruct b; [|unfold entries, is_null; by rewrite Hi].
  trans (l ← map_outcome (entry_text i) (child_texts children); mret (Some (IndexMap.from_iter l)) : result _).
  { unfold entries, is_null. by rewrite Hi. }
  assert (map_outcome (entry_text i) (child_texts children) =
    Ok (format_struct (zip names ((fun col => row_or_null col i) <$> cols)))) as ->.
  { clear Hnd. revert names cols Hlen Hcols Hchild Hv. induction children as [|[name x] children IH];
      intros [|n names] [|col cols] [=] [=] Hchild Hv; [done|].
    apply Forall_cons in Hv as [Hc Hv]. destruct (Hchild 0 _ eq_refl) as [[= ->] Hx]. specialize (Hx col eq_refl).
    cbn. cbn in Hx. rewrite (gives_row x col i); [|done|rewrite Hc; by eapply lookup_lt_Some]. cbn.
    fold (child_texts children). erewrite IH; [done|done|done| |done]. intros j e Hj. by apply (Hchild (S j)). }
  cbn. rewrite IndexMap.from_iter_NoDup; [done|].
  rewrite format_struct_keys, fst_zip; [done|]. rewrite length_fmap. lia.
Qed.

(** What is bound for a value *)
Definition cell_of (d : DataType) (v : option Value) : SqlCell :=
  if is_leaf d then encode d v else encode_text (ValueOps.to_string <$> v).

Lemma leaf_value d array l vs i v : leaf.scalars array = Some l ->
  map_outcome (option_outcome (Scalar.into_logical d (leaf.array_type array))) l = Ok vs ->
  vs !! i = Some v -> leaf.option_value d array i = Ok v.
Proof.
  intros Hl Hvs%map_outcome_Forall2 Hi. unfold leaf.option_value. rewrite Hl. cbn.
  eapply Forall2_lookup_r in Hvs as (o & Ho & Hlog); [|exact Hi]. by rewrite Ho.
Qed.


(** The factory builds an extractor of the texts of an array. *)
Definition extracts (n : nat) (f : Field) (d : DataType) (array : Array) (vs : list (option Value)) : Prop :=
  exists x, make_column_encoder_go n f array = Ok x /\ gives x vs /\
    forall i v, vs !! i = Some v -> extract x i = Ok (cell_of d v).

Lemma imap_Some {A B} (f : nat -> A -> B) l i y : imap f l !! i = Some y -> exists x, l !! i = Some x /\ y = f i x.
Proof. rewrite list_lookup_imap. intros (x & Hx & ->)%fmap_Some. by exists x. Qed.

Ltac nested_row := intros i v (b & Hb & ->)%imap_Some; cbn [extract_text extract].

Lemma encoder_step n f column array vs : ArrowSchema.try_from f = Ok column ->
  represents (Column.dtype column) array vs ->
  (forall c a ws, c ∈ children (Column.dtype column) -> represents (Column.dtype c) a ws ->
     exists x, make_column_encoder_go n (ArrowSchema.to_arrow_field c) a = Ok x /\ gives x ws) ->
  extracts (S n) f (Column.dtype column) array vs.
Proof.
  unfold extracts. cbn [make_column_encoder_go]. intros -> Hr Hchild. cbn [mbind outcome_bind].
  destruct Hr as [d array l vs Hd Ha Hl Hvs|c offsets valid values ws Hr Ho|fields valid columns cols Hr Hlen Hnd|
    key value offsets valid keys values ks ws Hk Hv Ho Hlen].
  - exists (Leaf d array). split; [destruct d; try discriminate Hd; by rewrite Ha|].
    split; intros i v Hi; cbn; rewrite (leaf_value d array l vs i v) by done; [done|].
    cbn. unfold cell_of. by rewrite Hd.
  - destruct (Hchild c values ws) as (x & -> & Hx); [cbn; by left|done|]. cbn.
    exists (LargeList offsets valid x). split; [done|].
    split; nested_row; rewrite (items_give x ws offsets valid i b Hx Ho Hb); by destruct b.
  - destruct (map_outcome_lookup (fun '(i, f) => column ← unwrap (columns !! i);
        enc ← make_column_encoder_go n f column; mret (Field.name f, enc))
      (fun i e => (Column.name <$> fields) !! i = Some e.1 /\ forall col, cols !! i = Some col -> gives e.2 col)
      (imap pair (ArrowSchema.to_arrow_field <$> fields))) as (xs & -> & Hxlen & Hxs).
    { intros i [j g] (f' & Hf' & [= -> ->])%imap_Some. apply list_lookup_fmap_Some in Hf' as (c & -> & Hc).
      destruct (represents_all_lookup _ _ _ _ _ Hr Hc) as (a & ws & Ha & Hws & Hrc).
      destruct (Hchild c a ws) as (x & Hx & Hgives); [cbn; by eapply list_elem_of_lookup_2|done|].
      exists (Column.name c, x). rewrite Ha. cbn. rewrite Hx. cbn. rewrite field_name, list_lookup_fmap, Hc.
      split; [done|]. split; [done|]. intros col. rewrite Hws. by intros [= <-]. }
    destruct (represents_all_length _ _ _ Hr) as [Hlf _].
    rewrite length_imap, length_fmap in Hxlen. cbn.
    exists (Struct valid xs). split; [done|].
    assert (forall i (b : bool), valid !! i = Some b -> entries (child_texts xs) valid i =
      Ok (if b then Some (format_struct (zip (Column.name <$> fields) ((fun col => row_or_null col i) <$> cols))) else None))
      as Hent.
    { intros i b. apply entries_give; rewrite ?length_fmap; done || congruence. }
    split; nested_row; change (entries _ valid i) with (entries (child_texts xs) valid i); rewrite (Hent i b Hb).
    all: destruct b; [|done]; unfold struct_row, cell_of; cbn [is_leaf ValueOps.to_string_opt fmap option_fmap option_map];
      by rewrite to_string_struct.
  - destruct (Hchild key keys (Some <$> ks)) as (xk & -> & Hxk); [cbn; by left|done|]. cbn.
    destruct (Hchild value values ws) as (xv & -> & Hxv); [cbn; by right; left|done|]. cbn.
    exists (Map offsets valid xk xv). split; [done|].
    split; nested_row; rewrite (formatted_give xk xv ks ws offsets valid i b Hxk Hxv Ho Hlen Hb).
    all: destruct b; [|done]; unfold map_row, cell_of; cbn [is_leaf ValueOps.to_string_opt fmap option_fmap option_map];
      by rewrite to_string_map.
Qed.

(** An array is written as the texts of its values, at the top as their cells. *)
Lemma arrays_extract n c array vs : machine_column c -> depth c <= n -> represents (Column.dtype c) array vs ->
  extracts n (ArrowSchema.to_arrow_field c) (arrow_dtype (Column.dtype c)) array vs.
Proof.
  revert c array vs. induction n as [|n IH]; intros c array vs Hm Hn Hr; [pose proof (depth_inner c); lia|].
  apply represents_arrow in Hr. rewrite <-dtype_arrow in Hr |- *.
  apply encoder_step; [by apply all_survive|done|]. intros c' a ws Hin Hr'.
  destruct (seen_children c n c' Hm Hn Hin) as [Hm' Hn'].
  destruct (IH c' a ws Hm' Hn' Hr') as (x & Hx & Hg & _). by exists x.
Qed.
End Values.

(** ** Building arrays *)

Section Builders.
Context `{EXT : External} `{ENG : !RegexEngine} `{SCALARS : !Scalars} `{CHRONO : !Chrono} `{INSTANTS : !Instants}.
Context `{EXTENSIONS : !Extensions}.
Import decoding.

(** Builders of one leaf type *)
Definition same_kind (b b' : Array) : Prop :=
  match b, b' with
  | Array.Booleans _, Array.Booleans _ | Array.Intervals _, Array.Intervals _ => True
  | Array.Ints t _, Array.Ints t' _ | Array.Floats t _, Array.Floats t' _
  | Array.Strings t _, Array.Strings t' _ | Array.Bytes t _, Array.Bytes t' _ => t = t'
  | _, _ => False
  end.

Lemma push_kind b0 b p b0' l : same_kind b0 b -> leaf.push p b0 = Ok b0' -> leaf.scalars b = Some l ->
  exists b', leaf.push p b = Ok b' /\ same_kind b0 b' /\ leaf.scalars b' = Some (l ++ [p]).
Proof.
  intros Hk Hp Hl. destruct b0, b; cbn in Hk; try done; subst; cbn in Hl; injection Hl as <-; destruct p as [[]|]; try done;
    cbn in Hp |- *.
  all: try (destruct data_type0; try discriminate Hp; try case_decide; try discriminate Hp).
  all: eexists; split; [reflexivity|]; split; [done|]; cbn; by rewrite fmap_app.
Qed.
Lemma push_null b0 b l : same_kind b0 b -> leaf.scalars b = Some l ->
  leaf.push None b = Ok (append_null b) /\ same_kind b0 (append_null b) /\ leaf.scalars (append_null b) = Some (l ++ [None]).
Proof.
  intros Hk Hl. destruct b0, b; cbn in Hk; try done; subst; cbn in Hl; injection Hl as <-;
    cbn; rewrite ?fmap_app; try done; by destruct data_type0.
Qed.

Lemma new_builder_leaf d b : leaf.new_builder d = Ok b ->
  is_leaf d = true /\ leaf.is_downcast d b = true /\ leaf.scalars b = Some [].
Proof.
  destruct d; cbn; try discriminate; try case_decide; try discriminate; intros [= <-]; try done.
  by rewrite bool_decide_eq_true_2.
Qed.
Lemma kind_downcast d b0 b : same_kind b0 b -> leaf.is_downcast d b0 = true ->
  leaf.is_downcast d b = true /\ leaf.array_type b = leaf.array_type b0.
Proof. destruct b0, b; cbn; try done; intros <-; destruct d; done. Qed.

(** [builds d x b vs]: the appender [x] of [d] has put the values [vs] into [b]. *)
Inductive builds : DataType -> Appender -> Array -> list (option Value) -> Prop :=
  | builds_leaf d b0 b l vs :
      leaf.new_builder d = Ok b0 -> same_kind b0 b -> leaf.scalars b = Some l ->
      map_outcome (option_outcome (Scalar.into_logical d (leaf.array_type b0))) l = Ok vs ->
      builds d (Leaf d) b vs
  | builds_list c x offsets valid values ws :
      builds (Column.dtype c) x values ws -> well_offset offsets valid (length ws) -> last offsets = Some (length ws) ->
      builds (DataType.List c) (LargeList x) (Array.List offsets valid values) (imap (list_row ws offsets) valid)
  | builds_struct fields xs valid columns cols :
      builds_all fields xs columns cols -> Forall (fun col => length col = length valid) cols ->
      NoDup (Column.name <$> fields) ->
      builds (DataType.Struct fields) (Struct xs) (Array.Struct valid columns)
        (imap (struct_row (Column.name <$> fields) cols) valid)
with builds_all : list Column -> list (string * Appender) -> list Array -> list (list (option Value)) -> Prop :=
  | builds_nil : builds_all [] [] [] []
  | builds_cons c x a vs fields xs columns cols :
      builds (Column.dtype c) x a vs -> builds_all fields xs columns cols ->
      builds_all (c :: fields) ((Column.name c, x) :: xs) (a :: columns) (vs :: cols).
Scheme builds_mut := Induction for builds Sort Prop
  with builds_all_mut := Induction for builds_all Sort Prop.

Lemma builds_represents d x b vs : builds d x b vs -> represents d b vs.
Proof.
  revert d x b vs. apply (builds_mut (fun d x b vs _ => represents d b vs)
    (fun fields xs columns cols _ => represents_all fields columns cols)); intros; try by constructor.
  match goal with H : leaf.new_builder _ = Ok _ |- _ => destruct (new_builder_leaf _ _ H) as (? & Hdown & _) end.
  match goal with H : same_kind _ _ |- _ => destruct (kind_downcast _ _ _ H Hdown) as [? Ht] end.
  eapply represents_leaf; [done|done|done|by rewrite Ht].
Qed.

Lemma builds_all_length fields xs columns cols : builds_all fields xs columns cols ->
  length xs = length fields /\ length columns = length fields /\ length cols = length fields.
Proof. induction 1 as [|???????? _ _ (IH1 & IH2 & IH3)]; [done|]. cbn. lia. Qed.
Lemma builds_all_names fields xs columns cols : builds_all fields xs columns cols -> xs.*1 = Column.name <$> fields.
Proof. induction 1 as [|???????? _ _ IH]; [done|]. cbn. by f_equal. Qed.

(** *** Rows that are added *)

Lemma row_or_null_app ws es i : i < length ws -> row_or_null (ws ++ es) i = row_or_null ws i.
Proof. intros Hi. unfold row_or_null. by rewrite lookup_app_l. Qed.
Lemma imap_snoc {A B} (f g : nat -> A -> B) l x : (forall i a, l !! i = Some a -> f i a = g i a) ->
  imap f (l ++ [x]) = imap g l ++ [f (length l) x].
Proof.
  intros Hfg. rewrite imap_app. cbn. rewrite Nat.add_0_r. f_equal. apply list_eq. intros i. rewrite !list_lookup_imap.
  destruct (l !! i) as [a|] eqn:Ha; [|done]. cbn. f_equal. by apply Hfg.
Qed.

Lemma window_snoc offsets valid len o i b : well_offset offsets valid len -> valid !! i = Some b ->
  window_of (offsets ++ [o]) i = window_of offsets i.
Proof.
  intros [Hlen _] Hi%lookup_lt_Some. unfold window_of. rewrite !list_lookup_total_alt, !lookup_app_l by lia. done.
Qed.

Lemma list_rows_snoc ws es offsets valid b : well_offset offsets valid (length ws) -> last offsets = Some (length ws) ->
  imap (list_row (ws ++ es) (offsets ++ [length (ws ++ es)])) (valid ++ [b]) =
  imap (list_row ws offsets) valid ++ [if b : bool then Some (Value.List es) else None].
Proof.
  intros Ho Hlast. rewrite (imap_snoc _ (list_row ws offsets)).
  - do 2 f_equal. unfold list_row. destruct b; [|done]. do 2 f_equal. destruct Ho as [Hlen _].
    unfold window_of. rewrite !list_lookup_total_alt.
    rewrite lookup_app_l, lookup_app_r by lia. rewrite last_lookup in Hlast.
    replace (pred (length offsets)) with (length valid) in Hlast by lia. rewrite Hlast.
    replace (S (length valid) - length offsets) with 0 by lia. cbn. rewrite length_app.
    replace (length ws + length es - length ws) with (length es) by lia.
    apply list_eq. intros j. rewrite list_lookup_fmap. destruct (decide (j < length es)) as [Hj|Hj].
    + rewrite lookup_seq_lt by done. cbn. unfold row_or_null. rewrite lookup_app_r by lia.
      replace (length ws + j - length ws) with j by lia. by destruct (lookup_lt_is_Some_2 es j Hj) as [v ->].
    + rewrite lookup_seq_ge, lookup_ge_None_2 by lia. done.
  - intros i a Hi. unfold list_row. destruct a; [|done]. do 2 f_equal. rewrite (window_snoc _ _ _ _ _ _ Ho Hi).
    apply list_fmap_ext. intros k j Hj. apply row_or_null_app. eapply window_lt; [done..|]. by eapply list_elem_of_lookup_2.
Qed.

Lemma well_offset_snoc offsets valid len len' b : well_offset offsets valid len -> len <= len' ->
  well_offset (offsets ++ [len']) (valid ++ [b]) len'.
Proof.
  intros [Hlen Hall] Hle. split; [rewrite !length_app; cbn; lia|]. apply Forall_app. split; [|by repeat constructor].
  eapply Forall_impl; [exact Hall|]. cbn. lia.
Qed.

Definition snoc_rows (cols : list (list (option Value))) (row : list (option Value)) : list (list (option Value)) :=
  zip_with (fun col o => col ++ [o]) cols row.

Lemma struct_rows_snoc names cols row valid b : Forall (fun col => length col = length valid) cols ->
  length row = length cols ->
  imap (struct_row names (snoc_rows cols row)) (valid ++ [b]) =
  imap (struct_row names cols) valid ++ [if b : bool then Some (Value.Struct (zip names row)) else None].
Proof.
  intros Hlen Hrow. rewrite (imap_snoc _ (struct_row names cols)).
  - do 2 f_equal. unfold struct_row. destruct b; [|done]. do 3 f_equal. revert cols Hlen Hrow.
    induction row as [|o row IH]; intros [|col cols] Hlen [=]; [done|]. apply Forall_cons in Hlen as [Hc Hlen].
    cbn. f_equal; [|by apply IH]. unfold row_or_null. by rewrite lookup_app_r, Hc, Nat.sub_diag by lia.
  - intros i a Hi%lookup_lt_Some. unfold struct_row. destruct a; [|done]. do 3 f_equal. revert row Hrow.
    induction Hlen as [|col cols Hc Hlen IH]; intros [|o row] [=]; [done|]. cbn. f_equal; [|by apply IH].
    apply row_or_null_app. by rewrite Hc.
Qed.
Lemma snoc_lengths cols row n : Forall (fun col => length col = n) cols -> length row = length cols ->
  Forall (fun col => length col = S n) (snoc_rows cols row).
Proof.
  intros Hlen. revert row. induction Hlen as [|col cols Hc Hlen IH]; intros [|o row] [=]; constructor; [|by apply IH].
  rewrite length_app. cbn. lia.
Qed.

Lemma builds_length d x b vs : builds d x b vs -> length vs = Array.len b.
Proof. intros H%builds_represents. by eapply represents_length. Qed.

Lemma logical_snoc d t l vs p v : map_outcome (option_outcome (Scalar.into_logical d t)) l = Ok vs ->
  option_outcome (Scalar.into_logical d t) p = Ok v ->
  map_outcome (option_outcome (Scalar.into_logical d t)) (l ++ [p]) = Ok (vs ++ [v]).
Proof.
  intros Hl Hp. revert vs Hl. induction l as [|o l IH]; cbn [app map_outcome]; intros vs Hl.
  - injection Hl as <-. by rewrite Hp.
  - destruct (option_outcome _ o) as [w| |]; cbn [mbind outcome_bind] in *; [|discriminate..].
    destruct (map_outcome _ l) as [ws| |]; cbn [mbind outcome_bind] in *; [|discriminate..].
    injection Hl as <-. by rewrite (IH _ eq_refl).
Qed.

(** A null is added to every builder. *)
Lemma append_null_builds d x b vs : builds d x b vs -> builds d x (append_null b) (vs ++ [None]).
Proof.
  revert d x b vs. apply (builds_mut (fun d x b vs _ => builds d x (append_null b) (vs ++ [None]))
    (fun fields xs columns cols _ =>
      builds_all fields xs (map append_null columns) (snoc_rows cols (replicate (length fields) None)))).
  - intros d b0 b l vs Hb0 Hk Hl Hvs. destruct (push_null _ _ _ Hk Hl) as (_ & Hk' & Hl').
    eapply builds_leaf; [done..|]. by apply logical_snoc.
  - intros c x offsets valid values ws Hb _ Ho Hlast. cbn [append_null]. rewrite <-(builds_length _ _ _ _ Hb).
    pose proof (list_rows_snoc ws [] offsets valid false Ho Hlast) as Hrows. rewrite app_nil_r in Hrows. rewrite <-Hrows.
    apply builds_list; [done|by eapply well_offset_snoc|by rewrite last_snoc].
  - intros fields xs valid columns cols Hb IH Hlen Hnd. destruct (builds_all_length _ _ _ _ Hb) as (_ & _ & Hcols).
    cbn [append_null]. rewrite <-(struct_rows_snoc _ _ (replicate (length fields) None) _ false Hlen)
      by (rewrite length_replicate; lia).
    apply builds_struct; [done| |done]. rewrite length_app, Nat.add_1_r.
    apply snoc_lengths; [done|rewrite length_replicate; lia].
  - constructor.
  - intros c x a vs fields xs columns cols _ IHc _ IH. by constructor.
Qed.

Lemma builds_finish d x b vs : builds d x b vs -> finish b = Ok b.
Proof.
  revert d x b vs. apply (builds_mut (fun d x b vs _ => finish b = Ok b)
    (fun fields xs columns cols _ => Forall (fun b => finish b = Ok b) columns)).
  - intros d b0 b l vs _ Hk _ _. by destruct b0, b.
  - intros c x offsets valid values ws _ IH _ _. cbn [finish]. by rewrite IH.
  - intros fields xs valid columns cols Hb IH Hlen _. cbn [finish].
    match goal with |- (if _ then mbind _ ?m else _) = _ => assert (m = Ok columns) as -> end.
    { clear Hlen Hb. induction IH as [|b columns Hb' _ IH]; [done|]. rewrite Hb'. cbn [mbind outcome_bind]. by rewrite IH. }
    cbn [mbind outcome_bind mret outcome_ret].
    assert (forallb (fun f => bool_decide (Array.len f = length valid)) columns = true) as ->; [|done].
    clear IH. revert Hlen. induction Hb as [|c x a vs fields xs columns cols Hc _ IH]; [done|].
    intros [Hl Hlen]%Forall_cons. cbn. rewrite bool_decide_eq_true_2; [by apply IH|]. by rewrite <-(builds_length _ _ _ _ Hc).
  - constructor.
  - by constructor.
Qed.

(** ** What can be stored as text *)

(** The physical value of the builder of [d] for [v] is read as [v]. *)
Definition carried (d : DataType) (v : Value) : Prop :=
  exists b p, leaf.new_builder d = Ok b /\ Scalar.into_physical d v = Ok p /\
    (exists b', leaf.push (Some p) b = Ok b') /\ Scalar.into_logical d (leaf.array_type b) p = Ok v.

(** Printable values of types that can be built, whose leaves have a physical
    value and whose structs have a value for each of their fields. *)
Fixpoint fits (d : DataType) (v : Value) : Prop :=
  match d with
  | DataType.List (DataType.mk_Column _ inner _ _ _ _ _) =>
      match v with Value.List l => printable d v /\ Forall (nullable (fits inner)) l | _ => False end
  | DataType.Struct fields =>
      match v with
      | Value.Struct m =>
          printable d v /\
          (fix go (fields : list Column) (m : list (string * option Value)) : Prop :=
             match fields, m with
             | [], [] => True
             | DataType.mk_Column name dtype _ _ _ _ _ :: fields, (k, o) :: m =>
                 k = name /\ nullable (fits dtype) o /\ go fields m
             | _, _ => False
             end) fields m
      | _ => False
      end
  | DataType.Map _ _ => False
  | d => printable d v /\ carried d v
  end.

Lemma fits_fields fields m :
  (fix go (fields : list Column) (m : list (string * option Value)) : Prop :=
     match fields, m with
     | [], [] => True
     | DataType.mk_Column name dtype _ _ _ _ _ :: fields, (k, o) :: m => k = name /\ nullable (fits dtype) o /\ go fields m
     | _, _ => False
     end) fields m ->
  Forall2 (fun c e => e.1 = Column.name c /\ nullable (fits (Column.dtype c)) e.2) fields m.
Proof.
  revert m. induction fields as [|[] fields IH]; intros [|[k o] m]; try done.
  intros (-> & Ho & Hgo). constructor; [by split|by apply IH].
Qed.

(** ** Texts that are appended *)

Definition appends (d : DataType) : Prop := forall x b vs o, builds d x b vs -> nullable (fits d) o ->
  exists b', append_text x (ValueOps.to_string_opt o) b = Ok b' /\ builds d x b' (vs ++ [o]).

Lemma append_text_null d x b vs : builds d x b vs -> append_text x NULL_STRING b = Ok (append_null b).
Proof.
  intros H. destruct H as [d b0 b l vs _ Hk Hl _| |]; [|done..].
  cbn [append_text]. rewrite parse_null. cbn [mbind outcome_bind]. by destruct (push_null _ _ _ Hk Hl) as (? & _).
Qed.

Lemma appends_of d : (forall x b vs v, builds d x b vs -> fits d v ->
    exists b', append_text x (ValueOps.to_string v) b = Ok b' /\ builds d x b' (vs ++ [Some v])) -> appends d.
Proof.
  intros Hd x b vs [v|] Hb Hv; [by apply Hd|]. exists (append_null b).
  split; [by eapply append_text_null|by apply append_null_builds].
Qed.

Lemma append_leaf d x b vs v : builds d x b vs -> is_leaf d = true -> carried d v ->
  exists b', x = Leaf d /\ leaf.append_option d (Some v) b = Ok b' /\ builds d x b' (vs ++ [Some v]).
Proof.
  intros Hb Hd (b0 & p & Hb0 & Hp & (b1 & Hpush) & Hlog).
  destruct Hb as [d b0' b l vs Hb0' Hk Hl Hvs| |]; [|done..]. rewrite Hb0 in Hb0'. injection Hb0' as <-.
  destruct (push_kind _ _ _ _ _ Hk Hpush Hl) as (b' & Hb' & Hk' & Hl').
  exists b'. split; [done|]. split; [unfold leaf.append_option; cbn; rewrite Hp; exact Hb'|].
  eapply builds_leaf; [done..|]. apply logical_snoc; [done|]. cbn. by rewrite Hlog.
Qed.

Lemma appends_leaf d : is_leaf d = true -> (forall v, fits d v -> printable d v /\ carried d v) -> appends d.
Proof.
  intros Hd Hfits. apply appends_of. intros x b vs v Hb Hv. destruct (Hfits v Hv) as [Hprint Hcarry].
  destruct (append_leaf _ _ _ _ _ Hb Hd Hcarry) as (b' & -> & Happ & Hb'). exists b'. split; [|done].
  cbn [append_text]. by rewrite reads_all.
Qed.

Lemma literal_reads {A} (L : Literal A) a : reads_back L a -> literals.parse L (literals.format L (Some a)) = Ok (Some a).
Proof. intros [Hp Hn]. unfold literals.parse, literals.format. rewrite decide_False by done. by rewrite Hp. Qed.

Lemma append_elements d x : appends d -> forall l b vs, builds d x b vs -> Forall (nullable (fits d)) l ->
  exists b', fold_outcome (fun b elem => append_text x elem b) b (ValueOps.to_string_opt <$> l) = Ok b' /\
    builds d x b' (vs ++ l).
Proof.
  intros Hd l. induction l as [|o l IH]; intros b vs Hb Hl; [exists b; by rewrite app_nil_r|].
  apply Forall_cons in Hl as [Ho Hl]. destruct (Hd x b vs o Hb Ho) as (b1 & Hb1 & Hbuild).
  destruct (IH b1 _ Hbuild Hl) as (b' & Hb' & Hbuild'). exists b'. cbn [fmap list_fmap fold_outcome]. rewrite Hb1.
  split; [done|]. by rewrite <-app_assoc in Hbuild'.
Qed.

Lemma appends_list c : appends (Column.dtype c) -> appends (DataType.List c).
Proof.
  intros Hc. apply appends_of. intros x b vs v Hb Hv. destruct c as [name inner n t i df fid]; cbn [Column.dtype] in Hc.
  destruct v; try done. destruct Hv as [(_ & Hs & Hne) Hl].
  remember (DataType.List _) as d eqn:Hd. destruct Hb as [?? ??? Hb0 _ _ _|c x offsets valid values ws Hb Ho Hlast|]; try discriminate.
  { subst d. discriminate Hb0. }
  injection Hd as ->. destruct (append_elements _ _ Hc _ _ _ Hb Hl) as (b' & Hb' & Hbuild).
  eexists. cbn [append_text]. change (ValueOps.to_string (Value.List l)) with
    (literals.format literals.list_literal (Some (ValueOps.to_string_opt <$> l))).
  rewrite literal_reads by by apply list_reads_back. cbn [mbind outcome_bind]. cbn [mbind outcome_bind] in Hb'. rewrite Hb'.
  split; [reflexivity|]. rewrite <-(builds_length _ _ _ _ Hbuild).
  rewrite <-(list_rows_snoc ws l offsets valid true Ho Hlast).
  apply builds_list; [done| |by rewrite last_snoc]. apply (well_offset_snoc _ _ (length ws)); [done|]. rewrite length_app. lia.
Qed.

Lemma imap_pair_app {A} (l1 : list A) x l2 : imap pair (l1 ++ x :: l2) =
  imap pair l1 ++ (length l1, x) :: imap (fun i y => (S (length l1) + i, y)) l2.
Proof.
  rewrite imap_app. f_equal. cbn. rewrite Nat.add_0_r. f_equal. apply imap_ext. intros i y _. cbn. f_equal. lia.
Qed.

(** Names are distinct, so the entry of a field goes to its builder. *)
Lemma field_index_app names1 name names2 : NoDup (names1 ++ name :: names2) ->
  field_index (names1 ++ name :: names2) name = Some (length names1).
Proof.
  intros Hnd. unfold field_index. rewrite imap_pair_app, reverse_app, reverse_cons, <-app_assoc.
  assert (forall l : list (nat * string), name ∉ l.*2 -> forall r,
    List.find (fun e : nat * string => bool_decide (e.2 = name)) (l ++ r) = List.find (fun e => bool_decide (e.2 = name)) r) as Hskip.
  { intros l. induction l as [|[j n] l IH]; [done|]. cbn. intros [Hn Hl]%not_elem_of_cons r.
    rewrite bool_decide_eq_false_2 by done. by apply IH. }
  rewrite Hskip.
  - cbn. by rewrite bool_decide_eq_true_2.
  - apply NoDup_app in Hnd as (_ & _ & [Hn _]%NoDup_cons). intros Hin. apply Hn.
    apply list_elem_of_fmap in Hin as ([j n] & -> & Hin). rewrite elem_of_reverse in Hin. cbn.
    apply list_elem_of_lookup in Hin as [k (y & Hk & Heq)%imap_Some]. injection Heq as _ ->. by eapply list_elem_of_lookup_2.
Qed.

Definition text_appends (xs : list (string * Appender)) : list (string * (string -> Array -> result Array)) :=
  (fun '(name, child) => (name, append_text child)) <$> xs.
Lemma text_appends_names xs : (text_appends xs).*1 = xs.*1.
Proof. unfold text_appends. rewrite <-list_fmap_compose. apply list_fmap_ext. by intros ? [] ?. Qed.

Lemma append_entries fields xs columns cols m : builds_all fields xs columns cols ->
  Forall (fun c => appends (Column.dtype c)) fields ->
  Forall2 (fun c e => e.1 = Column.name c /\ nullable (fits (Column.dtype c)) e.2) fields m ->
  forall before bs, length bs = length before -> NoDup (before.*1 ++ (Column.name <$> fields)) ->
  exists columns', fold_outcome (fun fields entry => append_entry (before ++ text_appends xs) entry fields)
      (bs ++ columns) (format_struct m) = Ok (bs ++ columns') /\
    builds_all fields xs columns' (snoc_rows cols m.*2).
Proof.
  intros Hb. revert m. induction Hb as [|c x b vs fields xs columns cols Hb Hbs IH]; intros m Happ Hm before bs Hlen Hnd.
  { inversion Hm; subst. exists []. split; [done|constructor]. }
  apply Forall_cons in Happ as [Hc Happ].
  destruct m as [|[k o] m']; [by inversion Hm|]. apply Forall2_cons in Hm as [[Hk Ho] Hm']. cbn in Hk, Ho. subst k.
  destruct (Hc x b vs o Hb Ho) as (b' & Hb' & Hbuild).
  destruct (IH m' Happ Hm' (before ++ [(Column.name c, append_text x)]) (bs ++ [b'])) as (columns' & Hrun & Hall).
  { rewrite !length_app. cbn. lia. }
  { rewrite fmap_app. cbn. by rewrite <-app_assoc. }
  exists (b' :: columns'). split; [|by constructor]. rewrite <-!app_assoc in Hrun. cbn [app] in Hrun.
  unfold format_struct. cbn [fmap list_fmap fold_outcome fst snd]. fold (format_struct m').
  change (text_appends ((Column.name c, x) :: xs)) with ((Column.name c, append_text x) :: text_appends xs).
  assert (append_entry (before ++ (Column.name c, append_text x) :: text_appends xs)
    (Column.name c, ValueOps.to_string_opt o) (bs ++ b :: columns) = Ok (bs ++ b' :: columns)) as ->; [|exact Hrun].
  unfold append_entry. cbn [fst snd].
  assert (field_index (before ++ (Column.name c, append_text x) :: text_appends xs).*1 (Column.name c) = Some (length before)) as ->.
  { rewrite fmap_app. cbn [fmap list_fmap fst]. rewrite <-(length_fmap fst before). apply field_index_app.
    by rewrite text_appends_names, (builds_all_names _ _ _ _ Hbs). }
  cbn [unwrap mbind outcome_bind]. rewrite list_lookup_middle by done. cbn [unwrap mbind outcome_bind].
  rewrite list_lookup_middle by done. cbn [unwrap mbind outcome_bind snd]. rewrite Hb'. cbn [mbind outcome_bind].
  rewrite <-Hlen, insert_app_r_alt, Nat.sub_diag by done. done.
Qed.

Lemma appends_struct fields : Forall (fun c => appends (Column.dtype c)) fields -> appends (DataType.Struct fields).
Proof.
  intros Hfields. apply appends_of. intros x b vs v Hb Hv.
  destruct v as [| | | | | | | | | | | | | | | | | | | | | | | | |m|]; try done. destruct Hv as [[Hnd Hm] Hgo%fits_fields].
  remember (DataType.Struct _) as d eqn:Hd. destruct Hb as [?? ??? Hb0 _ _ _| |fields' xs valid columns cols Hb Hlen Hnames];
    try discriminate. { subst d. discriminate Hb0. }
  injection Hd as ->. destruct (append_entries _ _ _ _ _ Hb Hfields Hgo [] []) as (columns' & Hrun & Hall); [done..|].
  eexists. cbn [append_text]. rewrite to_string_struct, literal_reads.
  2: { apply struct_reads_back; [|by rewrite format_struct_keys].
       unfold format_struct. apply Forall_fmap. eapply Forall_impl; [exact Hm|]. by intros [k o] (? & ? & _). }
  cbn [mbind outcome_bind app] in *. fold (text_appends xs).
  change (map _ xs) with (text_appends xs). rewrite Hrun. split; [reflexivity|].
  destruct (builds_all_length _ _ _ _ Hb) as (_ & _ & Hcols).
  assert (length m.*2 = length cols) as Hm2 by (rewrite length_fmap, Hcols; symmetry; by eapply Forall2_length).
  assert (Some (Value.Struct m) = if true then Some (Value.Struct (zip (Column.name <$> fields) m.*2)) else None) as ->.
  { do 2 f_equal. clear -Hgo. induction Hgo as [|c [k o] fields m [Hk _] _ IH]; [done|]. cbn in *. subst k. by f_equal. }
  rewrite <-(struct_rows_snoc _ _ _ _ true Hlen Hm2). apply builds_struct; [done| |done].
  rewrite length_app, Nat.add_1_r. by apply snoc_lengths.
Qed.

Lemma appends_all d : appends d.
Proof.
  revert d. fix IH 1. intros d.
  destruct d as [| | | | | | | | | | | | |p q| | | |pr| | | | | | | | |c|fields|key val].
  27: apply appends_list; destruct c; apply IH.
  27: apply appends_struct; induction fields as [|[] fields IHf]; constructor; [apply IH|exact IHf].
  27: intros x b vs o Hb; inversion Hb; subst; discriminate.
  all: try (apply appends_leaf; [done|by intros v]).
  all: intros x b vs o Hb; inversion Hb; subst; discriminate.
Qed.

(** ** Columns that can be read *)

Fixpoint decodable (d : DataType) : Prop :=
  match d with
  | DataType.Variant | DataType.Geometry | DataType.Map _ _ => False
  | DataType.List (DataType.mk_Column _ inner _ _ _ _ _) => decodable inner
  | DataType.Struct fields =>
      NoDup (Column.name <$> fields) /\
      (fix go (fields : list Column) : Prop :=
         match fields with [] => True | DataType.mk_Column _ d _ _ _ _ _ :: fields => decodable d /\ go fields end) fields
  | d => exists b, leaf.new_builder d = Ok b
  end.
Lemma decodable_fields fields :
  (fix go (fields : list Column) : Prop :=
     match fields with [] => True | DataType.mk_Column _ d _ _ _ _ _ :: fields => decodable d /\ go fields end) fields <->
  Forall (fun c => decodable (Column.dtype c)) fields.
Proof. induction fields as [|[] fields IH]; [by split|]. rewrite Forall_cons. cbn. tauto. Qed.

Lemma arrow_names (fields : list Column) : Column.name <$> (arrow_column <$> fields) = Column.name <$> fields.
Proof. rewrite <-list_fmap_compose. apply list_fmap_ext. intros ? c ?. apply name_arrow. Qed.
Lemma decodable_list c : decodable (DataType.List c) = decodable (Column.dtype c).
Proof. by destruct c. Qed.
Lemma arrow_dtype_list c : exists c', arrow_dtype (DataType.List c) = DataType.List c' /\
  Column.dtype c' = arrow_dtype (Column.dtype c).
Proof.
  exists (Column.with_name "element" (arrow_column c)). split; [done|]. rewrite <-dtype_arrow. by destruct (arrow_column c).
Qed.

Lemma decodable_arrow d : decodable d -> decodable (arrow_dtype d).
Proof.
  revert d. fix IH 1. intros d Hd.
  destruct d as [| | | | | | | | | | | | |p q| | | |pr| | | | | | | | |c|fields|key val]; try exact Hd.
  - destruct (arrow_dtype_list c) as (c' & -> & Hc'). rewrite decodable_list in Hd |- *. rewrite Hc'. destruct c. by apply IH.
  - rewrite arrow_dtype_struct. destruct Hd as [Hnd Hd]. split; [by rewrite arrow_names|]. apply decodable_fields.
    clear Hnd. induction fields as [|[name d n t i df fid] fields IHf]; [constructor|]. destruct Hd as [Hd Hl].
    constructor; [rewrite dtype_arrow; by apply IH|by apply IHf].
Qed.

Lemma builds_unarrow d x b vs : builds (arrow_dtype d) x b vs -> builds d x b vs.
Proof.
  revert d x b vs. fix IH 1. intros d x b vs Hb.
  destruct d as [| | | | | | | | | | | | |p q| | | |pr| | | | | | | | |c|fields|key val]; try exact Hb.
  - destruct (arrow_dtype_list c) as (c' & Harrow & Hc'). rewrite Harrow in Hb. clear Harrow.
    inversion Hb as [????? Hb0|?????? Hin Ho Hl|]; subst; [discriminate Hb0|].
    apply builds_list; [|done..]. rewrite Hc' in Hin. destruct c. by apply IH.
  - rewrite arrow_dtype_struct in Hb. inversion Hb as [????? Hb0| |????? Hall Hlen Hnd]; subst; [discriminate Hb0|].
    rewrite arrow_names. rewrite arrow_names in Hnd. apply builds_struct; [|done..]. clear Hb Hlen Hnd.
    revert xs columns cols Hall. induction fields as [|[name d n t i df fid] fields IHf]; intros xs columns cols Hall.
    + inversion Hall; subst. constructor.
    + cbn [fmap list_fmap] in Hall. inversion Hall; subst.
      apply (builds_cons (DataType.mk_Column name d n t i df fid)); [|by apply IHf].
      by apply IH.
  - exfalso. inversion Hb; subst. discriminate.
Qed.

(** The factory makes an empty builder. *)
Definition makes (n : nat) (f : Field) (d : DataType) : Prop :=
  exists x b, make_array_appender_go n f = Ok (x, b) /\ builds d x b [].

Lemma decoder_step n f column : ArrowSchema.try_from f = Ok column -> decodable (Column.dtype column) ->
  (forall c, c ∈ children (Column.dtype column) -> decodable (Column.dtype c) ->
     makes n (ArrowSchema.to_arrow_field c) (Column.dtype c)) ->
  makes (S n) f (Column.dtype column).
Proof.
  unfold makes. cbn [make_array_appender_go]. intros -> Hd Hchild. cbn [mbind outcome_bind].
  revert Hd Hchild. generalize (Column.dtype column) as d. intros d Hd Hchild.
  destruct d as [| | | | | | | | | | | | |p q| | | |pr| | | | | | | | |c|fields|key val]; try done.
  all: try (destruct Hd as [b Hb]; eexists (Leaf _), b; rewrite Hb; split; [reflexivity|];
    eapply builds_leaf; [exact Hb|..];
    [revert Hb; cbn; try case_decide; by intros [= <-]|apply new_builder_leaf in Hb as (_ & _ & Hb); exact Hb|done]).
  - rewrite decodable_list in Hd. destruct (Hchild c) as (x & b & -> & Hb); [cbn; by left|done|].
    exists (LargeList x), (Array.List [0] [] b). split; [done|].
    apply (builds_list c x [0] [] b []); [done|split; [done|by repeat constructor]|done].
  - destruct Hd as [Hnd Hd%decodable_fields]. cbn [children] in Hchild.
    assert (exists l, map_outcome (fun f => '(a, b) ← make_array_appender_go n f; mret (Field.name f, a, b))
        (ArrowSchema.to_arrow_field <$> fields) = Ok l /\
      builds_all fields l.*1 l.*2 (replicate (length fields) [])) as (l & -> & Hl).
    { clear Hnd. induction fields as [|c fields IH]; [exists []; split; [done|constructor]|].
      apply Forall_cons in Hd as [Hc Hd]. destruct (Hchild c) as (x & b & Hx & Hb); [by left|done|].
      destruct IH as (l & Hl & Hall); [done|intros c' Hin; apply Hchild; by right|].
      exists ((Column.name c, x, b) :: l). cbn [fmap list_fmap map_outcome]. rewrite Hx. cbn [mbind outcome_bind mret outcome_ret].
      cbn [mbind outcome_bind mret outcome_ret] in Hl. rewrite Hl, field_name. split; [done|by constructor]. }
    exists (Struct l.*1), (Array.Struct [] l.*2). split; [done|].
    apply (builds_struct fields l.*1 [] l.*2 (replicate (length fields) [])); [done| |done].
    by apply Forall_replicate.
Qed.

Lemma appenders_made n c : machine_column c -> depth c <= n -> decodable (Column.dtype c) ->
  makes n (ArrowSchema.to_arrow_field c) (Column.dtype c).
Proof.
  intros Hm Hn Hd. enough (makes n (ArrowSchema.to_arrow_field c) (arrow_dtype (Column.dtype c))) as (x & b & Hx & Hb).
  { exists x, b. split; [done|]. by apply builds_unarrow. }
  apply decodable_arrow in Hd. revert c Hm Hn Hd.
  induction n as [|n IH]; intros c Hm Hn Hd; [pose proof (depth_inner c); lia|].
  rewrite <-dtype_arrow in Hd |- *. apply decoder_step; [by apply all_survive|done|].
  intros c' Hin Hd'. destruct (seen_children c n c' Hm Hn Hin) as [Hm' Hn'].
  destruct (IH c' Hm' Hn') as (x & b & Hx & Hb); [by apply decodable_arrow|].
  exists x, b. split; [done|]. by apply builds_unarrow.
Qed.
End Builders.

(** ** Rows *)

Section Rows.
Context `{EXT : External} `{ENG : !RegexEngine} `{SCALARS : !Scalars} `{CHRONO : !Chrono} `{INSTANTS : !Instants}.
Context `{EXTENSIONS : !Extensions} (ENC : TypeEncoder) (DEC : TypeDecoder).
Context (Htext : forall t, decode_text (encode_text t) = Ok t).
Import encoding decoding.

(** A value that survives its cell and its physical form *)
Definition readable (d : DataType) (o : option Value) : Prop :=
  if is_leaf d then decode d (encode d o) = Ok o /\ nullable (carried d) o else nullable (fits d) o.

Lemma push_none d x b vs : builds d x b vs -> is_leaf d = true -> leaf.append_option d None b = Ok (append_null b).
Proof. intros [??? l ? _ Hk Hl _| |] Hd; [|done..]. by destruct (push_null _ _ _ Hk Hl) as (? & _). Qed.

Lemma append_cell d x b vs o : builds d x b vs -> readable d o ->
  exists b', append x (cell_of d o) b = Ok b' /\ builds d x b' (vs ++ [o]).
Proof.
  intros Hb Ho. unfold cell_of, readable in *. destruct (is_leaf d) eqn:Hd.
  - destruct Ho as [Hcell Ho]. destruct o as [v|].
    + destruct (append_leaf _ _ _ _ _ Hb Hd Ho) as (b' & -> & Happ & Hb'). exists b'. split; [|done].
      cbn [append]. by rewrite Hcell.
    + exists (append_null b). split; [|by apply append_null_builds].
      assert (x = Leaf d) as -> by (by destruct Hb). cbn [append]. rewrite Hcell. cbn [mbind outcome_bind].
      by eapply push_none.
  - destruct (appends_all d x b vs o Hb Ho) as (b' & Happ & Hb').
    assert (append x (encode_text (ValueOps.to_string <$> o)) b =
      match ValueOps.to_string <$> o with Some text => append_text x text b | None => Ok (append_null b) end) as ->.
    { destruct x; cbn [append]; rewrite ?Htext; try by destruct o.
      exfalso. inversion Hb as [????? Hb0| |]; subst. apply new_builder_leaf in Hb0 as (? & _). congruence. }
    destruct o as [v|]; [by exists b'|]. exists (append_null b). split; [done|]. by apply append_null_builds.
Qed.

Lemma append_row_builds row fields xs columns cols os : builds_all fields xs columns cols ->
  Forall2 (fun c o => IndexMap.get (Column.name c) row = Some (cell_of (Column.dtype c) o) /\
    readable (Column.dtype c) o) fields os ->
  exists columns', append_row (ArrowSchema.to_arrow_field <$> fields) xs.*2 columns row = Ok columns' /\
    builds_all fields xs columns' (snoc_rows cols os).
Proof.
  unfold append_row. intros Hb. revert os. induction Hb as [|c x b vs fields xs columns cols Hb _ IH]; intros os Hos.
  { exists []. split; [done|]. inversion Hos; subst. constructor. }
  destruct os as [|o os]; [by inversion Hos|]. apply Forall2_cons in Hos as [[Hget Ho] Hos].
  destruct (append_cell _ _ _ _ _ Hb Ho) as (b' & Hb' & Hbuild). destruct (IH os Hos) as (columns' & Hrun & Hall).
  exists (b' :: columns'). cbn [fmap list_fmap zip_with map_outcome snd]. rewrite field_name, Hget.
  cbn [ok_or mbind outcome_bind]. rewrite Hb'. cbn [mbind outcome_bind].
  cbn [fmap list_fmap mbind outcome_bind] in Hrun. rewrite Hrun. split; [done|by constructor].
Qed.

Lemma get_zip {V} (names : list string) (l : list V) i n v : NoDup names -> names !! i = Some n -> l !! i = Some v ->
  IndexMap.get n (zip names l) = Some v.
Proof.
  revert l i. induction names as [|n' names IH]; intros [|v' l] i Hnd Hn Hv; try done.
  apply NoDup_cons in Hnd as [Hnot Hnd]. destruct i as [|i]; cbn in *.
  - injection Hn as ->. injection Hv as ->. by rewrite decide_True.
  - rewrite decide_False; [by eapply IH|]. intros ->. apply Hnot. by eapply list_elem_of_lookup_2.
Qed.

(** A row of values and its cells *)
Definition row_at (cols : list (list (option Value))) (i : nat) : list (option Value) := (fun col => row_or_null col i) <$> cols.
Definition row_cells (fields : list Column) (os : list (option Value)) : list SqlCell :=
  zip_with (fun c o => cell_of (Column.dtype c) o) fields os.

Lemma snoc_take cols i : Forall (fun col => i < length col) cols ->
  snoc_rows (take i <$> cols) (row_at cols i) = take (S i) <$> cols.
Proof.
  induction 1 as [|col cols Hi _ IH]; [done|]. unfold row_at, snoc_rows in *. cbn. f_equal; [|done].
  unfold row_or_null. destruct (lookup_lt_is_Some_2 col i Hi) as [v Hv]. rewrite Hv. cbn. symmetry. by apply take_S_r.
Qed.

Lemma append_rows_build (fields : list Column) xs cols n rows : NoDup (Column.name <$> fields) ->
  length cols = length fields -> Forall (fun col => n <= length col) cols ->
  rows = (fun i => zip (Column.name <$> fields) (row_cells fields (row_at cols i))) <$> seq 0 n ->
  (forall i, i < n -> Forall2 (fun c o => readable (Column.dtype c) o) fields (row_at cols i)) ->
  forall columns, builds_all fields xs columns (replicate (length fields) []) ->
  exists columns', fold_outcome (append_row (ArrowSchema.to_arrow_field <$> fields) xs.*2) columns rows = Ok columns' /\
    builds_all fields xs columns' (take n <$> cols).
Proof.
  intros Hnd Hlen Hn -> Hread columns Hb.
  assert (forall k i columns, i + k = n -> builds_all fields xs columns (take i <$> cols) ->
    exists columns', fold_outcome (append_row (ArrowSchema.to_arrow_field <$> fields) xs.*2) columns
      ((fun i => zip (Column.name <$> fields) (row_cells fields (row_at cols i))) <$> seq i k) = Ok columns' /\
    builds_all fields xs columns' (take n <$> cols)) as Hgo.
  { intros k. induction k as [|k IH]; intros i columns1 Hi Hb1.
    { replace n with i by lia. by exists columns1. }
    destruct (append_row_builds (zip (Column.name <$> fields) (row_cells fields (row_at cols i))) fields xs columns1
      (take i <$> cols) (row_at cols i) Hb1) as (columns2 & Hrun & Hb2).
    { apply Forall2_same_length_lookup. split; [unfold row_at; by rewrite length_fmap|]. intros j c o Hc Ho.
      split; [|by eapply (Forall2_lookup_lr _ _ _ _ _ _ (Hread i ltac:(lia)))].
      apply (get_zip _ _ j); [done|by rewrite list_lookup_fmap, Hc|].
      unfold row_cells. by rewrite lookup_zip_with, Hc, Ho. }
    rewrite snoc_take in Hb2 by (eapply Forall_impl; [exact Hn|]; cbn; lia).
    destruct (IH (S i) columns2) as (columns' & Hrun' & Hb'); [lia|done|].
    exists columns'. cbn [seq fmap list_fmap fold_outcome]. rewrite Hrun. split; [exact Hrun'|done]. }
  apply (Hgo n 0); [done|]. replace (take 0 <$> cols) with (replicate (length fields) (@nil (option Value))); [done|].
  rewrite <-Hlen. clear. induction cols as [|col cols IH]; [done|]. cbn. by f_equal.
Qed.

Lemma cell_of_arrow d o : cell_of (arrow_dtype d) o = cell_of d o.
Proof. by destruct d. Qed.

Lemma encoders_extract cs arrays cols n : represents_all cs arrays cols -> Forall machine_column cs ->
  Forall (fun col => length col = n) cols ->
  exists exts, map_outcome (fun '(field, array) => make_column_encoder field array)
      (zip (ArrowSchema.to_arrow_field <$> cs) arrays) = Ok exts /\
    forall i, i < n -> map_outcome (fun ext => extract ext i) exts = Ok (row_cells cs (row_at cols i)).
Proof.
  induction 1 as [|c a vs fields columns cols Hr _ IH]; intros Hm Hlen; [by exists []|].
  apply Forall_cons in Hm as [Hc Hm]. apply Forall_cons in Hlen as [Hvs Hlen].
  destruct (arrays_extract (depth c) c a vs Hc (Nat.le_refl _) Hr) as (x & Hx & _ & Hex).
  destruct (IH Hm Hlen) as (exts & Hexts & Hrows). exists (x :: exts).
  cbn [fmap list_fmap zip_with map_outcome]. change (make_column_encoder (ArrowSchema.to_arrow_field c) a) with
    (make_column_encoder_go (depth c) (ArrowSchema.to_arrow_field c) a). rewrite Hx.
  cbn [mbind outcome_bind]. cbn [fmap list_fmap] in Hexts. rewrite Hexts. split; [done|]. intros i Hi.
  destruct (lookup_lt_is_Some_2 vs i ltac:(lia)) as [v Hv]. cbn [map_outcome]. rewrite (Hex i v Hv).
  cbn [mbind outcome_bind]. rewrite (Hrows i Hi). cbn [mbind outcome_bind]. unfold row_at, row_cells.
  cbn [fmap list_fmap zip_with]. unfold row_or_null at 2. by rewrite Hv, cell_of_arrow.
Qed.

Definition rows_cells (cs : list Column) (cols : list (list (option Value))) (n : nat) : list (list SqlCell) :=
  (fun i => row_cells cs (row_at cols i)) <$> seq 0 n.

Lemma batch_encodes cs arrays cols n : represents_all cs arrays cols -> Forall machine_column cs ->
  Forall (fun col => length col = n) cols ->
  encode_record_batch (ArrowSchema.to_arrow_field <$> cs) arrays n = Ok (concat (rows_cells cs cols n)).
Proof.
  intros Hr Hm Hlen. destruct (encoders_extract cs arrays cols n Hr Hm Hlen) as (exts & Hexts & Hrows).
  unfold encode_record_batch. rewrite Hexts. cbn [mbind outcome_bind].
  rewrite (map_outcome_pure _ (fun i => row_cells cs (row_at cols i))); [done|].
  intros i Hi%elem_of_seq. apply Hrows. lia.
Qed.

Lemma table_rows_concat names n cells : Forall (fun row => length row = length names) cells -> length cells = n ->
  Inlined.table_rows names n (concat cells) = zip names <$> cells.
Proof.
  intros Hlen <-. induction Hlen as [|row cells Hrow _ IH]; [done|]. cbn [length Inlined.table_rows concat fmap list_fmap].
  by rewrite take_app_length', drop_app_length', IH.
Qed.

Lemma null_count_zero d a vs : represents d a vs -> None ∉ vs -> Array.null_count a = 0.
Proof.
  assert (forall (f : nat -> bool -> option Value) valid, (forall i, f i false = None) -> None ∉ imap f valid ->
    length (List.filter negb valid) = 0) as Hvalid.
  { intros f valid Hf. revert f Hf. induction valid as [|b valid IH]; intros f Hf; [done|]. cbn.
    intros [Hb Hl]%not_elem_of_cons. destruct b; [|rewrite Hf in Hb; by destruct Hb]. cbn. apply (IH (f ∘ S)); [intros i; apply Hf|done]. }
  assert (forall A (l : list (option A)) (g : A -> Scalar.t) (h : option Scalar.t -> result (option Value)) vs,
    h None = Ok None -> map_outcome h (fmap (M := option) g <$> l) = Ok vs -> None ∉ vs -> Array.count_none l = 0) as Hleaf.
  { intros A l g h vs' Hh Hm%map_outcome_Forall2 Hn. unfold Array.count_none.
    revert vs' Hm Hn. induction l as [|o l IH]; intros vs' Hm Hn; [done|]. inversion Hm as [|? v ? vs'' Hv Hl]; subst.
    apply not_elem_of_cons in Hn as [Hne Hn]. cbn [List.filter]. destruct o as [x|].
    - rewrite bool_decide_eq_true_2 by done. cbn [negb]. by eapply IH.
    - cbn in Hv. rewrite Hh in Hv. injection Hv as <-. by destruct Hne. }
  destruct 1 as [d array l vs _ _ Hl Hvs|? ? ? ? ? _ _|? ? ? ? _ _ _|? ? ? ? ? ? ? ? _ _ _ _]; intros Hn.
  - destruct array; cbn in Hl; try discriminate; injection Hl as <-; cbn [Array.null_count]; (eapply Hleaf; [|exact Hvs|exact Hn]; done).
  - eapply Hvalid; [|exact Hn]; done.
  - eapply Hvalid; [|exact Hn]; done.
  - eapply Hvalid; [|exact Hn]; done.
Qed.

Lemma make_all cs : Forall machine_column cs -> Forall (fun c => decodable (Column.dtype c)) cs ->
  exists l xs, map_outcome make_array_appender (ArrowSchema.to_arrow_field <$> cs) = Ok l /\ xs.*2 = l.*1 /\
    builds_all cs xs l.*2 (replicate (length cs) []).
Proof.
  induction 1 as [|c cs Hc _ IH]; intros Hd; [exists [], []; repeat split; constructor|].
  apply Forall_cons in Hd as [Hdc Hd]. destruct (IH Hd) as (l & xs & Hl & Hxs & Hb).
  destruct (appenders_made (depth c) c Hc (Nat.le_refl _) Hdc) as (x & b & Hx & Hbx).
  exists ((x, b) :: l), ((Column.name c, x) :: xs). cbn [fmap list_fmap map_outcome].
  change (make_array_appender (ArrowSchema.to_arrow_field c)) with
    (make_array_appender_go (depth c) (ArrowSchema.to_arrow_field c)). rewrite Hx. cbn [mbind outcome_bind].
  cbn [fmap list_fmap] in Hl. rewrite Hl. split; [done|]. split; [cbn; by f_equal|by constructor].
Qed.

Lemma finish_all fields xs columns cols : builds_all fields xs columns cols -> map_outcome finish columns = Ok columns.
Proof.
  induction 1 as [|c x b vs fields xs columns cols Hb _ IH]; [done|]. cbn [map_outcome].
  rewrite (builds_finish _ _ _ _ Hb). cbn [mbind outcome_bind]. by rewrite IH.
Qed.

Lemma try_new_ok fields xs columns cols n : builds_all fields xs columns cols -> fields <> [] ->
  Forall (fun col => length col = n) cols ->
  Forall2 (fun c col => Column.nullable c = false -> None ∉ col) fields cols ->
  try_new (ArrowSchema.to_arrow_field <$> fields) columns = Ok columns.
Proof.
  intros Hb Hne Hlen Hnull. assert (Forall (fun a => Array.len a = n) columns) as Hcols.
  { clear Hne Hnull. revert Hlen. induction Hb as [|c x b vs fields xs columns cols Hb _ IH]; [constructor|].
    intros [Hvs Hlen]%Forall_cons. constructor; [|by apply IH]. by rewrite <-(builds_length _ _ _ _ Hb). }
  unfold try_new. destruct columns as [|first columns]; [by inversion Hb; subst|].
  pose proof (proj1 (Forall_cons _ _ _) Hcols) as [Hfirst _].
  assert (forallb (fun c => bool_decide (Array.len c = Array.len first)) (first :: columns) = true) as ->.
  { apply forallb_forall. intros a Ha%list_elem_of_In. rewrite Forall_forall in Hcols. apply bool_decide_eq_true.
    by rewrite Hfirst, Hcols. }
  clear Hne Hcols Hlen Hfirst. revert Hb. generalize (first :: columns) as all. intros all Hb.
  assert (existsb (fun '(f, c) => negb (Field.is_nullable f) && negb (bool_decide (Array.null_count c = 0)))
    (zip (ArrowSchema.to_arrow_field <$> fields) all) = false) as ->; [|done].
  induction Hb as [|c x b vs fields xs all cols Hb _ IH]; [done|].
  apply Forall2_cons in Hnull as [Hc Hnull]. cbn. rewrite field_nullable, (IH Hnull), orb_false_r.
  destruct (Column.nullable c); [done|]. rewrite bool_decide_eq_true_2; [done|].
  eapply null_count_zero; [by eapply builds_represents|by apply Hc].
Qed.

(** The rows of an insertion are read as arrays of the same values. *)
Lemma rows_read_back cs arrays cols n : Forall machine_column cs -> Forall (fun c => decodable (Column.dtype c)) cs ->
  NoDup (Column.name <$> cs) -> cs <> [] -> represents_all cs arrays cols -> Forall (fun col => length col = n) cols ->
  Forall2 (fun c col => Forall (readable (Column.dtype c)) col) cs cols ->
  Forall2 (fun c col => Column.nullable c = false -> None ∉ col) cs cols ->
  exists cells arrays', encode_record_batch (ArrowSchema.to_arrow_field <$> cs) arrays n = Ok cells /\
    decode_rows (Inlined.table_rows (Column.name <$> cs) n cells) (ArrowSchema.to_arrow_field <$> cs) = Ok arrays' /\
    represents_all cs arrays' cols.
Proof.
  intros Hm Hd Hnd Hne Hr Hlen Hread Hnull. destruct (represents_all_length _ _ _ Hr) as [Hcs _].
  exists (concat (rows_cells cs cols n)). destruct (make_all cs Hm Hd) as (l & xs & Hl & Hxs & Hb).
  destruct (append_rows_build cs xs cols n (zip (Column.name <$> cs) <$> rows_cells cs cols n) Hnd) with (columns := l.*2)
    as (columns' & Hrun & Hb'); [done| | | |done|].
  { eapply Forall_impl; [exact Hlen|]. cbn. lia. }
  { unfold rows_cells. by rewrite <-list_fmap_compose. }
  { intros i Hi. apply Forall2_same_length_lookup. split; [unfold row_at; by rewrite length_fmap|].
    intros j c o Hc (col & -> & Hcol)%list_lookup_fmap_Some.
    pose proof (Forall2_lookup_lr _ _ _ _ _ _ Hread Hc Hcol) as Hall. rewrite Forall_lookup in Hall.
    rewrite Forall_lookup in Hlen. specialize (Hlen j col Hcol). unfold row_or_null.
    destruct (lookup_lt_is_Some_2 col i ltac:(lia)) as [v Hv]. rewrite Hv. by eapply Hall. }
  assert (take n <$> cols = cols) as Htake.
  { clear -Hlen. induction Hlen as [|col cols Hc _ IH]; [done|]. cbn. rewrite IH, firstn_all2 by lia. done. }
  rewrite Htake in Hb'. exists columns'. split; [by apply batch_encodes|]. split.
  - rewrite table_rows_concat.
    + unfold decode_rows. rewrite Hl. cbn [mbind outcome_bind]. rewrite <-Hxs, Hrun. cbn [mbind outcome_bind].
      rewrite (finish_all _ _ _ _ Hb'). cbn [mbind outcome_bind]. by eapply try_new_ok.
    + unfold rows_cells. apply Forall_fmap, Forall_forall. intros i _. cbn. unfold row_cells, row_at.
      rewrite length_zip_with, !length_fmap. lia.
    + unfold rows_cells. by rewrite length_fmap, length_seq.
  - clear -Hb'. induction Hb' as [|c x b vs fields xs columns cols Hb _ IH]; constructor; [by eapply builds_represents|done].
Qed.
End Rows.

(** ** The dialects *)

Section Dialects.
Context `{EXT : External} `{ENG : !RegexEngine} `{SCALARS : !Scalars} `{CHRONO : !Chrono} `{INSTANTS : !Instants}.
Context `{EXTENSIONS : !Extensions} `{LAWS : !IntervalFacts.ChronoLaws}.

(** The leaves PostgreSQL stores as text must be printable; intervals are months and microseconds. *)
Definition reads_postgres (d : DataType) (v : Value) : Prop :=
  match d, v with
  | (DataType.Int128 | DataType.UInt64 | DataType.UInt128 | DataType.Date | DataType.Timestamp _ | DataType.TimestampTz), v =>
      printable d v
  | DataType.Interval, Value.Interval i =>
      exists m us, i = Interval.mk (Months_new m) (microseconds us) /\ (0 <= m < 2 ^ 32)%Z /\ in_i64 us
  | d, v => has_type d v
  end.
Definition reads_leaf (dialect : Dialect) (d : DataType) (v : Value) : Prop :=
  match dialect with
  | Dialect.Sqlite => printable d v
  | Dialect.Postgres => reads_postgres d v
  | Dialect.MySql => False
  end.

(** A value that a dialect stores without loss *)
Definition storable (dialect : Dialect) (d : DataType) (o : option Value) : Prop :=
  if is_leaf d then nullable (fun v => reads_leaf dialect d v /\ carried d v) o else nullable (fits d) o.

Lemma parse_text d (o : option Value) : nullable (printable d) o -> parse_cell d (SqlCell.Text (ValueOps.to_string_opt o)) = Ok o.
Proof.
  intros Ho. unfold parse_cell. cbn [try_get ok_or as_text mbind outcome_bind mret outcome_ret].
  destruct o as [v|]; [by apply reads_all|apply parse_null].
Qed.

Lemma as_int_in min max z : (min <= z <= max)%Z -> as_int min max (SqlCell.Int z) = Some z.
Proof. intros Hz. cbn. by rewrite decide_True. Qed.

Lemma sqlite_reads d o : is_leaf d = true -> nullable (printable d) o ->
  decode (TypeDecoder := sqlite_decoder) d (encode (TypeEncoder := sqlite_encoder) d o) = Ok o.
Proof.
  intros Hd Ho. destruct d; try discriminate Hd; cbn [decode encode sqlite_decoder sqlite_encoder];
    try by apply parse_text.
  all: destruct o as [v|]; [|done]; destruct v; try done; cbn [nullable printable] in Ho.
  all: cbn [bind_option bind_sqlite]; unfold native; cbn [try_get]; unfold as_i8, as_i16, as_i32_cell, as_i64, as_u8, as_u16, as_u32_cell.
  all: try (rewrite as_int_in by done); done.
Qed.

Lemma postgres_reads d o : is_leaf d = true -> nullable (reads_postgres d) o ->
  decode (TypeDecoder := postgres_decoder) d (encode (TypeEncoder := postgres_encoder) d o) = Ok o.
Proof.
  intros Hd Ho. destruct d; try discriminate Hd; cbn [decode encode postgres_decoder postgres_encoder];
    try by apply parse_text.
  all: destruct o as [v|]; [|done]; destruct v; try done; cbn [nullable reads_postgres has_type] in Ho.
  all: cbn [bind_option bind_postgres]; unfold native; cbn [try_get]; unfold as_i8, as_i16, as_i32_cell, as_i64, as_u8, as_u16, as_u32_cell.
  all: try (rewrite as_int_in by (unfold i64_min, i64_max in *; lia)); cbn [ok_or mbind outcome_bind mret outcome_ret option_map].
  all: try (rewrite Z.mod_small by lia); try done.
  - by rewrite as_signed_id by lia.
  - match goal with |- context [TimeWithTimezone.time ?t] => by destruct t end.
  - destruct Ho as (m & us & -> & Hm & Hus). cbn [Interval.months Interval.delta as_interval ok_or mbind outcome_bind mret outcome_ret option_map].
    rewrite IntervalFacts.as_u32_new, IntervalFacts.num_microseconds_of by done.
    assert (cast_u32 (as_i32 m) = m) as ->; [|done]. unfold cast_u32, as_i32, as_signed. rewrite Zminus_mod_idemp_l.
    replace (m + 2 ^ (32 - 1) - 2 ^ (32 - 1))%Z with m by lia. by apply Z.mod_small.
  - cbn [as_bytes ok_or mbind outcome_bind mret outcome_ret option_map]. by rewrite of_chars_chars.
  - cbn [as_bytes ok_or mbind outcome_bind mret outcome_ret option_map]. by rewrite of_chars_chars.
Qed.

Lemma storable_readable dialect d o : dialect <> Dialect.MySql -> storable dialect d o ->
  match dialect with
  | Dialect.Sqlite => readable sqlite_encoder sqlite_decoder d o
  | _ => readable postgres_encoder postgres_decoder d o
  end.
Proof.
  intros Hne. unfold storable, readable. destruct dialect, (is_leaf d) eqn:Hd; try done; intros Ho; (split; [|by destruct o as [v|]; [destruct Ho|]]).
  - apply postgres_reads; [done|]. destruct o as [v|]; [by destruct Ho|done].
  - apply sqlite_reads; [done|]. destruct o as [v|]; [by destruct Ho|done].
Qed.

Lemma text_reads {D : TypeDecoder} {E : TypeEncoder} : @decode_text _ D = try_get as_text -> @encode_text _ E = bind_option SqlCell.Text ->
  forall t, @decode_text _ D (@encode_text _ E t) = Ok t.
Proof. intros -> -> t. by destruct t. Qed.

(** C37: inlined rows are read back. If the arrays of a batch hold the values of its
    columns, the values of columns without nulls are not null, leaves are stored
    without loss by the dialect, and nested values are printable, then the insertion
    binds the values, and the rows the table then has are decoded to arrays that hold
    the same values - lists with their elements, structs with their fields, nulls at
    every level - in both databases that store rows. Columns
    with maps are not part of the statement. *)
Theorem inlined_rows_read_back (dialect : Dialect) (cs : list Column) (arrays : list Array)
    (cols : list (list (option Value))) (n : nat)
    (Hdialect : dialect <> Dialect.MySql) (Hne : cs <> []) (Hn : 0 < n)
    (Hmachine : Forall machine_column cs) (Hdecodable : Forall (fun c => decodable (Column.dtype c)) cs)
    (Hnames : NoDup (Column.name <$> cs))
    (Harrays : represents_all cs arrays cols) (Hrows : Forall (fun col => length col = n) cols)
    (Hstorable : Forall2 (fun c col => Forall (storable dialect (Column.dtype c)) col) cs cols)
    (Hnull : Forall2 (fun c col => Column.nullable c = false -> None ∉ col) cs cols) :
  let fields := ArrowSchema.to_arrow_field <$> cs in
  exists cells arrays', Inlined.insert_all_arrow dialect fields arrays n = Ok (Some cells) /\
    Inlined.fetch_all_arrow dialect (Inlined.table_rows (Column.name <$> cs) n cells) fields = Ok arrays' /\
    represents_all cs arrays' cols.
Proof.
  intros fields. unfold Inlined.insert_all_arrow. rewrite decide_False.
  2: { intros [?| ->]; [lia|]. by destruct (represents_all_length _ _ _ Harrays), cs, cols. }
  assert (Forall2 (fun c col => Forall (fun o => match dialect with
    | Dialect.Sqlite => readable sqlite_encoder sqlite_decoder (Column.dtype c) o
    | _ => readable postgres_encoder postgres_decoder (Column.dtype c) o end) col) cs cols) as Hread.
  { eapply Forall2_impl; [exact Hstorable|]. intros c col Hcol. eapply Forall_impl; [exact Hcol|].
    intros o. by apply storable_readable. }
  destruct dialect; [| by destruct Hdialect |].
  - destruct (rows_read_back postgres_encoder postgres_decoder (text_reads (D := postgres_decoder) (E := postgres_encoder) eq_refl eq_refl) cs arrays cols n)
      as (cells & arrays' & Henc & Hdec & Hr); [done..|]. exists cells, arrays'. unfold fields. by rewrite Henc.
  - destruct (rows_read_back sqlite_encoder sqlite_decoder (text_reads (D := sqlite_decoder) (E := sqlite_encoder) eq_refl eq_refl) cs arrays cols n)
      as (cells & arrays' & Henc & Hdec & Hr); [done..|]. exists cells, arrays'. unfold fields. by rewrite Henc.
Qed.

Lemma map_cannot_be_made c key value : machine_column c -> Column.dtype c = DataType.Map key value ->
  decoding.make_array_appender (ArrowSchema.to_arrow_field c) = Panic.
Proof.
  intros Hm Hd. unfold decoding.make_array_appender. fold (depth c). pose proof (depth_inner c) as Hdepth.
  destruct (depth c) as [|n]; [lia|]. cbn [decoding.make_array_appender_go]. rewrite all_survive by done.
  cbn [mbind outcome_bind]. destruct c as [name d nullable tags initial default field_id]. cbn in Hd. subst d.
  cbn [arrow_column Column.dtype]. unfold decoding.new_map. cbn [ArrowSchema.to_arrow_field]. by rewrite field_shape.
Qed.

Lemma map_outcome_panics {A B} (f : A -> result B) l x l' : Forall (fun a => exists b, f a = Ok b) l -> f x = Panic ->
  map_outcome f (l ++ x :: l') = Panic.
Proof.
  intros Hl Hx. induction Hl as [|a l [b Hb] _ IH]; cbn [app map_outcome]; [by rewrite Hx|]. rewrite Hb.
  cbn [mbind outcome_bind]. by rewrite IH.
Qed.

(** Inlined maps cannot be read. Rows of a table with a column of maps are
    inserted like any other, but reading any rows of it panics: the reader takes the
    field of the column for that of the entries of the maps. *)
Theorem inlined_maps_cannot_be_read (dialect : Dialect) (before : list Column) (c key value : Column)
    (after : list Column) (arrays : list Array) (cols : list (list (option Value))) (n : nat)
    (Hdialect : dialect <> Dialect.MySql) (Hn : 0 < n) (Hmap : Column.dtype c = DataType.Map key value)
    (Hmachine : Forall machine_column (before ++ c :: after))
    (Hdecodable : Forall (fun c => decodable (Column.dtype c)) before)
    (Harrays : represents_all (before ++ c :: after) arrays cols) (Hrows : Forall (fun col => length col = n) cols) :
  let fields := ArrowSchema.to_arrow_field <$> (before ++ c :: after) in
  (exists cells, Inlined.insert_all_arrow dialect fields arrays n = Ok (Some cells)) /\
  forall rows, Inlined.fetch_all_arrow dialect rows fields = Panic.
Proof.
  intros fields. split.
  - unfold Inlined.insert_all_arrow. rewrite decide_False.
    2: { intros [?| ->]; [lia|]. destruct (represents_all_length _ _ _ Harrays) as [H1 H2]. rewrite length_app in H1. cbn in H1, H2. lia. }
    destruct dialect; [|done|]; unfold fields.
    all: rewrite (batch_encodes _ _ _ cols) by done; by eexists.
  - intros rows. assert (map_outcome decoding.make_array_appender fields = Panic) as Hpanic.
    { unfold fields. rewrite fmap_app. cbn [fmap list_fmap]. apply Forall_app in Hmachine as [Hbefore [Hc _]%Forall_cons].
      apply map_outcome_panics; [|by eapply map_cannot_be_made]. apply Forall_fmap, Forall_forall. intros c' Hin.
      rewrite Forall_forall in Hbefore, Hdecodable.
      destruct (appenders_made (depth c') c' (Hbefore _ Hin) (Nat.le_refl _) (Hdecodable _ Hin)) as (x & b & Hx & _).
      by eexists. }
    destruct dialect; [|done|]; unfold Inlined.fetch_all_arrow, decoding.decode_rows; by rewrite Hpanic.
Qed.
End Dialects.

(** ** Two rows of a number and a list *)

Definition demo_columns : list Column :=
  [Column.new "id" DataType.Int64; Column.new "names" (DataType.List (Column.new "element" DataType.Varchar))].
Definition demo_arrays : list Array :=
  [Array.Ints ArrowType.Int64 [Some 5%Z; None];
   Array.List [0; 2; 2] [true; false] (Array.Strings ArrowType.Utf8View [Some "x"; None])].
Definition demo_values : list (list (option Value)) :=
  [[Some (Value.Int64 5); None]; [Some (Value.List [Some (Value.Varchar "x"); None]); None]].

Lemma demo_represented : represents_all demo_columns demo_arrays demo_values.
Proof.
  apply represents_cons; [by eapply represents_leaf|]. apply represents_cons; [|constructor].
  change [Some (Value.List [Some (Value.Varchar "x"); None]); None] with
    (imap (list_row [Some (Value.Varchar "x"); None] [0; 2; 2]) [true; false]).
  apply (represents_list (Column.new "element" DataType.Varchar)); [by eapply represents_leaf|].
  split; [done|]. repeat constructor; cbn; lia.
Qed.

Lemma demo_list_fits : fits (DataType.List (Column.new "element" DataType.Varchar))
  (Value.List [Some (Value.Varchar "x"); None]).
Proof.
  split; [split; [|split; [|done]]|].
  - by repeat (apply Forall_cons; split).
  - repeat (apply Forall_cons; split); [by_survives|by_survives|constructor].
  - repeat (apply Forall_cons; split); [|done|constructor]. split; [done|].
    exists (Array.Strings ArrowType.Utf8View []), (Scalar.String "x"). by split_and!; [..|eexists|].
Qed.

Lemma demo_storable : Forall2 (fun c col => Forall (storable Dialect.Postgres (Column.dtype c)) col) demo_columns demo_values.
Proof.
  repeat (apply Forall2_cons; split); [..|constructor]; repeat (apply Forall_cons; split); try constructor; try done.
  - exists (Array.Ints ArrowType.Int64 []), (Scalar.Int 5). by split_and!; [..|eexists|].
  - exact (proj1 demo_list_fits).
  - exact (proj2 demo_list_fits).
Qed.

Lemma inlined_rows_read_back_witness :
  let fields := ArrowSchema.to_arrow_field <$> demo_columns in
  exists cells arrays', Inlined.insert_all_arrow Dialect.Postgres fields demo_arrays 2 = Ok (Some cells) /\
    Inlined.fetch_all_arrow Dialect.Postgres (Inlined.table_rows ["id"; "names"] 2 cells) fields = Ok arrays' /\
    represents_all demo_columns arrays' demo_values.
Proof.
  apply (inlined_rows_read_back Dialect.Postgres demo_columns demo_arrays demo_values 2).
  - done.
  - done.
  - lia.
  - by repeat constructor.
  - by repeat constructor; eexists.
  - by apply (bool_decide_unpack _); vm_compute.
  - exact demo_represented.
  - by repeat constructor.
  - exact demo_storable.
  - by repeat constructor.
Defined.

(** One row with a map of a number *)
Definition map_column : Column :=
  Column.new "m" (DataType.Map (Column.new "key" DataType.Varchar) (Column.new "value" DataType.Int64)).
Definition map_array : Array :=
  Array.Map [0; 1] [true] (Array.Strings ArrowType.Utf8View [Some "a"]) (Array.Ints ArrowType.Int64 [Some 1%Z]).

Lemma map_represented : represents_all [map_column] [map_array]
  [[Some (Value.Map [(Value.Varchar "a", Some (Value.Int64 1))])]].
Proof.
  apply represents_cons; [|constructor].
  change [Some (Value.Map [(Value.Varchar "a", Some (Value.Int64 1))])] with
    (imap (map_row [Value.Varchar "a"] [Some (Value.Int64 1)] [0; 1]) [true]).
  apply (represents_map (Column.new "key" DataType.Varchar) (Column.new "value" DataType.Int64));
    [by eapply represents_leaf|by eapply represents_leaf|split; [done|]|done]. repeat constructor.
Qed.

Lemma inlined_maps_cannot_be_read_witness :
  let fields := [ArrowSchema.to_arrow_field map_column] in
  DataTypeOps.supports_data_inlining (Column.dtype map_column) = true /\
  Inlined.insert_all_arrow Dialect.Sqlite fields [map_array] 1 = Ok (Some [SqlCell.Text "{a=1}"]) /\
  (exists cells, Inlined.insert_all_arrow Dialect.Sqlite fields [map_array] 1 = Ok (Some cells)) /\
  forall rows, Inlined.fetch_all_arrow Dialect.Sqlite rows fields = Panic.
Proof.
  split; [reflexivity|]. split; [vm_compute; reflexivity|].
  apply (inlined_maps_cannot_be_read Dialect.Sqlite [] map_column (Column.new "key" DataType.Varchar)
    (Column.new "value" DataType.Int64) [] [map_array] [[Some (Value.Map [(Value.Varchar "a", Some (Value.Int64 1))])]] 1).
  - done.
  - lia.
  - done.
  - by repeat constructor.
  - constructor.
  - exact map_represented.
  - by repeat constructor.
Defined.
