(* ===== verification/Matching.v ===== *)
(** * Matching batches to a schema ([io/arrow/schema.rs], [typedefs/value/arrow.rs])

    A batch is written with the columns of the table and read with those of a later
    schema: columns are found by their name or their field ID, converted where the
    data type was promoted, and filled with their default where they are missing. *)

From Stdlib Require Import SpecFloat.
From S2P Require Import Prelude Text Regex Identifier Types Literals Values TableStats Transactions.
From S2P Require Import Arrow Physical Arrays Inlined.

(** ** The equality of Arrow data types ([derive(PartialEq)]) *)

Definition TimeUnit_eqb (a b : TimeUnit) : bool := bool_decide (a = b).
Definition IntervalUnit_eqb (a b : IntervalUnit) : bool :=
  match a, b with
  | YearMonth, YearMonth | DayTime, DayTime | MonthDayNano, MonthDayNano => true
  | _, _ => false
  end.

Fixpoint ArrowType_eqb (a b : ArrowType) {struct a} : bool :=
  match a, b with
  | ArrowType.Null, ArrowType.Null | ArrowType.Boolean, ArrowType.Boolean
  | ArrowType.Int8, ArrowType.Int8 | ArrowType.Int16, ArrowType.Int16
  | ArrowType.Int32, ArrowType.Int32 | ArrowType.Int64, ArrowType.Int64
  | ArrowType.UInt8, ArrowType.UInt8 | ArrowType.UInt16, ArrowType.UInt16
  | ArrowType.UInt32, ArrowType.UInt32 | ArrowType.UInt64, ArrowType.UInt64
  | ArrowType.Float32, ArrowType.Float32 | ArrowType.Float64, ArrowType.Float64
  | ArrowType.Date32, ArrowType.Date32
  | ArrowType.Utf8, ArrowType.Utf8 | ArrowType.LargeUtf8, ArrowType.LargeUtf8
  | ArrowType.Utf8View, ArrowType.Utf8View | ArrowType.Binary, ArrowType.Binary
  | ArrowType.LargeBinary, ArrowType.LargeBinary | ArrowType.BinaryView, ArrowType.BinaryView => true
  | ArrowType.Decimal128 p s, ArrowType.Decimal128 p' s' => Z.eqb p p' && Z.eqb s s'
  | ArrowType.Time64 u, ArrowType.Time64 u' => TimeUnit_eqb u u'
  | ArrowType.Timestamp u z, ArrowType.Timestamp u' z' => TimeUnit_eqb u u' && bool_decide (z = z')
  | ArrowType.Interval u, ArrowType.Interval u' => IntervalUnit_eqb u u'
  | ArrowType.FixedSizeBinary n, ArrowType.FixedSizeBinary n' => Z.eqb n n'
  | ArrowType.List f, ArrowType.List f' | ArrowType.LargeList f, ArrowType.LargeList f' => Field_eqb f f'
  | ArrowType.Struct l, ArrowType.Struct l' =>
      (fix go (l l' : list Field) : bool :=
         match l, l' with
         | [], [] => true
         | f :: l, f' :: l' => Field_eqb f f' && go l l'
         | _, _ => false
         end) l l'
  | ArrowType.Map f s, ArrowType.Map f' s' => Field_eqb f f' && Bool.eqb s s'
  | ArrowType.FixedSizeList f n, ArrowType.FixedSizeList f' n' => Field_eqb f f' && Z.eqb n n'
  | ArrowType.ListView f, ArrowType.ListView f' | ArrowType.LargeListView f, ArrowType.LargeListView f' => Field_eqb f f'
  | ArrowType.Dictionary k v, ArrowType.Dictionary k' v' => ArrowType_eqb k k' && ArrowType_eqb v v'
  | ArrowType.Other d, ArrowType.Other d' => bool_decide (d = d')
  | _, _ => false
  end
with Field_eqb (a b : Field) {struct a} : bool :=
  match a, b with
  | ArrowType.mk_Field n d nl m, ArrowType.mk_Field n' d' nl' m' =>
      bool_decide (n = n') && ArrowType_eqb d d' && Bool.eqb nl nl' && bool_decide (m = m')
  end.

(** ** Arrays with their data type

    The data type of a nested array names the fields of its children. An array of
    the data type [Null] has nothing but its length. *)
Module ArrayRef.
Record t : Type := mk { data_type : ArrowType; data : Array }.

Definition len (a : t) : nat := Array.len (data a).
Definition none {A} (o : option A) : bool := match o with None => true | _ => false end.
(** [logical_nulls]: which rows are null *)
Definition nulls_of (a : Array) : list bool :=
  match a with
  | Array.Booleans l => none <$> l
  | Array.Ints _ l => none <$> l
  | Array.Floats _ l => none <$> l
  | Array.Strings _ l => none <$> l
  | Array.Bytes _ l => none <$> l
  | Array.Intervals l => none <$> l
  | Array.List _ valid _ | Array.Struct valid _ | Array.Map _ valid _ _ => negb <$> valid
  end.
Definition nulls (a : t) : list bool := nulls_of (data a).
(** The columns of an array of structs with the fields *)
Definition columns (fields : list Field) (arrays : list Array) : list t :=
  zip_with (fun f a => mk (Field.data_type f) a) fields arrays.
Definition null_data (len : nat) : Array := Array.Struct (replicate len false) [].
End ArrayRef.
Abbreviation ArrayRef := ArrayRef.t.

(** [arrow_array::RecordBatch] *)
Module Batch.
Record t : Type := mk { fields : list Field; columns : list ArrayRef; num_rows : nat }.
End Batch.

(** The compute kernels and the checking constructors of the [arrow] crates, and
    decimals *)
Class Kernels `{External} : Type := {
  decimal_scale : Decimal -> Z;
  with_precision_and_scale : list (option Z) -> Z -> Z -> result ArrayRef;
  cast (safe : bool) : ArrayRef -> ArrowType -> result ArrayRef;
  take : ArrayRef -> list nat -> result ArrayRef;
  new_null_array : ArrowType -> nat -> ArrayRef;
  struct_try_new : list Field -> list ArrayRef -> list bool -> nat -> result ArrayRef;
  list_try_new : Field -> list nat -> ArrayRef -> list bool -> result ArrayRef;
  map_try_new : Field -> list nat -> ArrayRef -> list bool -> bool -> result ArrayRef;
  batch_try_new : list Field -> list ArrayRef -> nat -> result Batch.t;
}.

(** ** Values as arrays ([typedefs/value/arrow.rs]) *)

Module broadcast.
Section broadcast.
Context `{EXT : External} `{CHRONO : !Chrono} `{INSTANTS : !Instants} `{EXTENSIONS : !Extensions}
  `{KERNELS : !Kernels}.

(** The array with the value as its only row *)
Definition scalar (v : Value) (dtype : DataType) : result ArrayRef :=
  let ints d z := Ok (ArrayRef.mk d (Array.Ints d [Some z])) in
  let floats d f := Ok (ArrayRef.mk d (Array.Floats d [Some f])) in
  let strings s := Ok (ArrayRef.mk ArrowType.Utf8View (Array.Strings ArrowType.Utf8View [Some s])) in
  let bytes d b := Ok (ArrayRef.mk d (Array.Bytes d [Some b])) in
  match v with
  | Value.Boolean b => Ok (ArrayRef.mk ArrowType.Boolean (Array.Booleans [Some b]))
  | Value.Int8 z => ints ArrowType.Int8 z
  | Value.Int16 z => ints ArrowType.Int16 z
  | Value.Int32 z => ints ArrowType.Int32 z
  | Value.Int64 z => ints ArrowType.Int64 z
  | Value.UInt8 z => ints ArrowType.UInt8 z
  | Value.UInt16 z => ints ArrowType.UInt16 z
  | Value.UInt32 z => ints ArrowType.UInt32 z
  | Value.UInt64 z => ints ArrowType.UInt64 z
  | Value.Float32 f => floats ArrowType.Float32 f
  | Value.Float64 f => floats ArrowType.Float64 f
  | Value.Int128 z => bytes (ArrowType.FixedSizeBinary 16) (physical.i128_into_physical z)
  | Value.UInt128 z => bytes (ArrowType.FixedSizeBinary 16) (physical.u128_into_physical z)
  | Value.TimeTz t => bytes (ArrowType.FixedSizeBinary 8) (physical.time_tz_into_physical t)
  | Value.Uuid u => bytes (ArrowType.FixedSizeBinary 16) (physical.uuid_into_physical u)
  | Value.Decimal d => with_precision_and_scale [Some (mantissa d)] 38 (u8_as_i8 (decimal_scale d mod 256))
  | Value.Date d => ints ArrowType.Date32 (physical.date_into_physical d)
  | Value.Time t => ints (ArrowType.Time64 Microsecond) (physical.time_into_physical t)
  | Value.Timestamp t =>
      match dtype with
      | DataType.Timestamp precision =>
          z ← physical.timestamp_into_physical (ArrowSchema.time_unit precision) t;
          ints ArrowType.Int64 z
      | _ => Err (SchemaError "timestamp default requires a timestamp column")
      end
  | Value.TimestampTz t =>
      ints (ArrowType.Timestamp Microsecond (Some "UTC")) (physical.timestamp_tz_into_physical t)
  | Value.Interval i =>
      Ok (ArrayRef.mk (ArrowType.Interval MonthDayNano) (Array.Intervals [Some (physical.interval_into_physical i)]))
  | Value.Varchar s | Value.Json s => strings s
  | Value.Blob b => bytes ArrowType.LargeBinary (Scalar.ascii_bytes b)
  | Value.List _ | Value.Struct _ | Value.Map _ => Err (SchemaError "nested literal defaults are unsupported")
  end.

Definition broadcast (v : Value) (dtype : DataType) (len : nat) : result ArrayRef :=
  scalar ← scalar v dtype;
  let field := ArrowSchema.to_arrow_field (Column.new "" dtype) in
  scalar ← cast false scalar (Field.data_type field);
  take scalar (replicate len 0).
End broadcast.
End broadcast.

(** ** Matching ([io/arrow/schema.rs]) *)

Inductive Defaults : Type := InitialDefault | DefaultValue.

Module matching.
Section matching.
Context `{EXT : External} `{CHRONO : !Chrono} `{INSTANTS : !Instants} `{EXTENSIONS : !Extensions}
  `{KERNELS : !Kernels}.

(** [parent_nulls.contains(&nulls)]: every null is a null of the parent. *)
Definition contains (parent_nulls nulls : list bool) : bool :=
  forallb (fun '(p, n) => p || negb n) (zip parent_nulls nulls).

Definition check_nullability (column : Column) (array : ArrayRef) (parent : option (list bool)) : result () :=
  if negb (Column.nullable column) && existsb id (ArrayRef.nulls array) &&
     negb (match parent with Some parent_nulls => contains parent_nulls (ArrayRef.nulls array) | None => false end)
  then Err (InvalidNullValue (Column.name column))
  else Ok ().

Fixpoint check_all (columns : list Column) (arrays : list ArrayRef) (parent : option (list bool)) : result () :=
  match columns, arrays with
  | column :: columns, array :: arrays =>
      _ ← check_nullability column array parent; check_all columns arrays parent
  | _, _ => Ok ()
  end.

(** A column without a value in the source *)
Definition generate_column (column : Column) (len : nat) (defaults : Defaults) : result ArrayRef :=
  value ← match defaults with
          | InitialDefault => Ok (Column.initial_default column)
          | DefaultValue =>
              match Column.default_value column with
              | ColumnDefault.Literal value => Ok value
              | ColumnDefault.Expression _ _ =>
                  Err (SchemaError ("expression default for '" +:+ Column.name column +:+ "' is unsupported"))
              end
          end;
  match value with
  | Some value => broadcast.broadcast value (Column.dtype column) len
  | None => Ok (new_null_array (Field.data_type (ArrowSchema.to_arrow_field column)) len)
  end.

Definition field_key (defaults : Defaults) (field : Field) : option string :=
  match defaults with
  | InitialDefault => Field.metadata field !! ArrowSchema.PARQUET_FIELD_ID_KEY
  | DefaultValue => Some (Field.name field)
  end.
Definition column_key (defaults : Defaults) (column : Column) : option string :=
  match defaults with
  | InitialDefault => i64_to_string <$> Column.field_id column
  | DefaultValue => Some (Column.name column)
  end.

Definition source_fields (defaults : Defaults) (fields : list Field) (arrays : list ArrayRef)
    : result (gmap string (Field * ArrayRef)) :=
  fold_outcome (fun source '(field, array) =>
    match field_key defaults field with
    | Some key =>
        match source !! key with
        | Some _ => Err (SchemaError ("duplicate field: " +:+ key))
        | None => Ok (<[key := (field, array)]> source)
        end
    | None => Ok source
    end) ∅ (zip fields arrays).

Section Columns.
Context (match_column : Field -> ArrayRef -> Column -> result ArrayRef).

(** The columns in order; each takes its source. *)
Definition match_columns (len : nat) (defaults : Defaults)
    : list Column -> gmap string (Field * ArrayRef) -> result (list ArrayRef * gmap string (Field * ArrayRef)) :=
  fix go columns source :=
    match columns with
    | [] => Ok ([], source)
    | column :: columns =>
        let taken := key ← column_key defaults column; source !! key in
        let source := match column_key defaults column with Some key => delete key source | None => source end in
        array ← match taken with
                | Some (field, array) => match_column field array column
                | None => generate_column column len defaults
                end;
        '(arrays, source) ← go columns source;
        mret (array :: arrays, source)
    end.

Definition match_fields (fields : list Field) (arrays : list ArrayRef) (columns : list Column) (len : nat)
    (defaults : Defaults) : result (list ArrayRef) :=
  source ← source_fields defaults fields arrays;
  '(result, source) ← match_columns len defaults columns source;
  match defaults with
  | DefaultValue =>
      if decide (source = ∅) then Ok result else Err (SchemaError "unexpected columns in inline data")
  | InitialDefault => Ok result
  end.

Definition match_child (field : Field) (array : ArrayRef) (column : Column) (defaults : Defaults)
    : result ArrayRef :=
  match defaults with
  | InitialDefault =>
      if decide ((id ← Field.metadata field !! ArrowSchema.PARQUET_FIELD_ID_KEY; i64_from_str id)
                 <> Column.field_id column)
      then generate_column column (ArrayRef.len array) defaults
      else match_column field array column
  | DefaultValue => match_column field array column
  end.
End Columns.

(** The last arm of [match_column]: the data type of the field must be that of the
    column or one that can be promoted to it. *)
Definition convert (field : Field) (array : ArrayRef) (dtype : DataType) (target : ArrowType) : result ArrayRef :=
  source ← ArrowSchema.try_from field;
  if DataType_eqb (Column.dtype source) dtype || DataTypeOps.can_promote_to (Column.dtype source) dtype ||
     match Column.dtype source, dtype with DataType.Varchar, DataType.Json => true | _, _ => false end
  then if ArrowType_eqb (ArrayRef.data_type array) target then Ok array else cast true array target
  else Err (InvalidCast (Column.dtype source) dtype).

Definition is_kept (source target : ArrowType) : bool :=
  match source with
  | ArrowType.Struct _ | ArrowType.LargeList _ | ArrowType.Map _ _ => ArrowType_eqb source target
  | _ => false
  end.

Fixpoint match_column (defaults : Defaults) (field : Field) (array : ArrayRef) (column : Column) {struct column}
    : result ArrayRef :=
  let target := Field.data_type (ArrowSchema.to_arrow_field column) in
  if is_kept (ArrayRef.data_type array) target then Ok array
  else
    match column with
    | DataType.mk_Column _ dtype _ _ _ _ _ =>
        match ArrayRef.data_type array, dtype with
        | ArrowType.Struct source_fields, DataType.Struct columns =>
            match ArrayRef.data array, target with
            | Array.Struct valid source, ArrowType.Struct fields =>
                arrays ← match_fields (match_column defaults) source_fields (ArrayRef.columns source_fields source)
                           columns (length valid) defaults;
                _ ← check_all columns arrays (Some (negb <$> valid));
                struct_try_new fields arrays valid (length valid)
            | _, _ => Panic
            end
        | (ArrowType.List inner | ArrowType.LargeList inner), DataType.List column =>
            array ← cast true array (ArrowType.LargeList inner);
            match ArrayRef.data array with
            | Array.List offsets valid values =>
                values ← match_child (match_column defaults) inner
                           (ArrayRef.mk (Field.data_type inner) values) column defaults;
                _ ← check_nullability column values None;
                list_try_new (ArrowSchema.to_arrow_field column) offsets values valid
            | _ => Panic
            end
        | ArrowType.Map entries _, DataType.Map key value =>
            match Field.data_type entries, ArrayRef.data array, target with
            | ArrowType.Struct (key_field :: value_field :: _), Array.Map offsets valid keys values,
              ArrowType.Map target_entries sorted =>
                keys ← match_child (match_column defaults) key_field
                         (ArrayRef.mk (Field.data_type key_field) keys) key defaults;
                values ← match_child (match_column defaults) value_field
                           (ArrayRef.mk (Field.data_type value_field) values) value defaults;
                _ ← check_nullability key keys None;
                _ ← check_nullability value values None;
                match Field.data_type target_entries with
                | ArrowType.Struct target_fields =>
                    entries ← struct_try_new target_fields [keys; values]
                                (replicate (ArrayRef.len keys) true) (ArrayRef.len keys);
                    map_try_new target_entries offsets entries valid sorted
                | _ => Panic
                end
            | _, _, _ => Panic
            end
        | ArrowType.Null, _ => Ok (new_null_array target (ArrayRef.len array))
        | _, _ => convert field array dtype target
        end
    end.

Definition match_to_schema (batch : Batch.t) (schema : Schema) (defaults : Defaults) : result Batch.t :=
  arrays ← match_fields (match_column defaults) (Batch.fields batch) (Batch.columns batch)
             (Schema.columns schema).*2 (Batch.num_rows batch) defaults;
  _ ← check_all (Schema.columns schema).*2 arrays None;
  batch_try_new (ArrowSchema.to_arrow schema) arrays (Batch.num_rows batch).
End matching.
End matching.
