(* ===== verification/MatchingFacts.v ===== *)
(** * What matching batches guarantees ([io/arrow/schema.rs])

    A matched batch has the schema, at every level of nesting; columns follow their
    key, and a batch that has the schema is returned as it is. *)

From Stdlib Require Import SpecFloat.
From S2P Require Import Prelude Text Regex Identifier Types Instances Literals Values ValueFacts TableStats Transactions.
From S2P Require Import Arrow ArrowFacts Physical Arrays ArraysFacts Inlined Matching.

(** ** Equality of Arrow data types *)

Ltac eqb_split := repeat match goal with
  | H : _ && _ = true |- _ => apply andb_prop in H as [? ?]
  | H : bool_decide _ = true |- _ => apply bool_decide_eq_true in H
  | H : Bool.eqb _ _ = true |- _ => apply eqb_prop in H
  | H : Z.eqb _ _ = true |- _ => apply Z.eqb_eq in H
  | H : TimeUnit_eqb _ _ = true |- _ => unfold TimeUnit_eqb in H
  end; subst.

Lemma ArrowType_eqb_eq : forall a b, ArrowType_eqb a b = true -> a = b
with Field_eqb_eq : forall a b, Field_eqb a b = true -> a = b.
Proof.
  - intros a b. destruct a as [| | | | | | | | | | | | | | |u tz|i| | | | | | |size|f|f|l|f s|f n|f|f|k v|o],
      b as [| | | | | | | | | | | | | | |u' tz'|i'| | | | | | |size'|f'|f'|l'|f' s'|f' n'|f'|f'|k' v'|o']; cbn; try discriminate; intros H; try reflexivity;
      try (eqb_split; reflexivity).
    + destruct i, i'; done.
    + by rewrite (Field_eqb_eq f f' H).
    + by rewrite (Field_eqb_eq f f' H).
    + f_equal. revert l' H. induction l as [|f l IH]; intros [|f' l'] H; try discriminate; [done|].
      apply andb_prop in H as [H1 H2]. f_equal; [by apply Field_eqb_eq|by apply IH].
    + apply andb_prop in H as [H1 H2]. rewrite (Field_eqb_eq f f' H1). by eqb_split.
    + apply andb_prop in H as [H1 H2]. rewrite (Field_eqb_eq f f' H1). by eqb_split.
    + by rewrite (Field_eqb_eq f f' H).
    + by rewrite (Field_eqb_eq f f' H).
    + apply andb_prop in H as [H1 H2]. by rewrite (ArrowType_eqb_eq k k' H1), (ArrowType_eqb_eq v v' H2).
  - intros [n d nl m] [n' d' nl' m']. cbn. intros H. apply andb_prop in H as [H ?]. apply andb_prop in H as [H ?].
    apply andb_prop in H as [? H]. rewrite (ArrowType_eqb_eq d d' H). by eqb_split.
Qed.

Lemma ArrowType_eqb_refl : forall a, ArrowType_eqb a a = true
with Field_eqb_refl : forall a, Field_eqb a a = true.
Proof.
  - intros [| | | | | | | | | | | | | | |u tz|i| | | | | | |size|f|f|l|f s|f n|f|f|k v|o]; cbn; try reflexivity;
      rewrite ?Z.eqb_refl; unfold TimeUnit_eqb; rewrite ?bool_decide_true by done; try reflexivity.
    + by destruct i.
    + apply Field_eqb_refl.
    + apply Field_eqb_refl.
    + induction l as [|f l IH]; [done|]. by rewrite Field_eqb_refl, IH.
    + by rewrite Field_eqb_refl, eqb_reflx.
    + by rewrite Field_eqb_refl.
    + apply Field_eqb_refl.
    + apply Field_eqb_refl.
    + by rewrite !ArrowType_eqb_refl.
  - intros [n d nl m]. cbn. by rewrite ArrowType_eqb_refl, eqb_reflx, !bool_decide_true by done.
Qed.

Lemma is_kept_eq source target : matching.is_kept source target = true -> source = target.
Proof. unfold matching.is_kept. destruct source; try done; apply ArrowType_eqb_eq. Qed.

(** ** Well-formed arrays *)

Definition leaf_type (a : Array) : option ArrowType :=
  match a with
  | Array.Booleans _ => Some ArrowType.Boolean
  | Array.Ints d _ =>
      match d with
      | ArrowType.Int8 | ArrowType.Int16 | ArrowType.Int32 | ArrowType.Int64
      | ArrowType.UInt8 | ArrowType.UInt16 | ArrowType.UInt32 | ArrowType.UInt64
      | ArrowType.Decimal128 _ _ | ArrowType.Date32 | ArrowType.Time64 _ | ArrowType.Timestamp _ _ => Some d
      | _ => None
      end
  | Array.Floats d _ => match d with ArrowType.Float32 | ArrowType.Float64 => Some d | _ => None end
  | Array.Strings d _ =>
      match d with ArrowType.Utf8 | ArrowType.LargeUtf8 | ArrowType.Utf8View => Some d | _ => None end
  | Array.Bytes d _ =>
      match d with
      | ArrowType.Binary | ArrowType.LargeBinary | ArrowType.BinaryView | ArrowType.FixedSizeBinary _ => Some d
      | _ => None
      end
  | Array.Intervals _ => Some (ArrowType.Interval MonthDayNano)
  | _ => None
  end.

(** Where the column is null, so is its parent. *)
Definition masked (parent : list bool) (nulls : list bool) : Prop :=
  Forall2 (fun p n => n = true -> p = true) parent nulls.
Definition no_nulls (nulls : list bool) : Prop := Forall (eq false) nulls.

(** What the [arrow] crate guarantees of an array of the data type: the data type of
    its children, their lengths, and that a child that is not nullable has no nulls
    but under a null of its parent. *)
Fixpoint typed (d : ArrowType) (a : Array) {struct d} : Prop :=
  match d with
  | ArrowType.Null => a = ArrayRef.null_data (Array.len a)
  | ArrowType.Struct fields =>
      match a with
      | Array.Struct valid columns =>
          (fix go (fields : list Field) (columns : list Array) : Prop :=
             match fields, columns with
             | [], [] => True
             | ArrowType.mk_Field _ d nullable _ :: fields, c :: columns =>
                 (typed d c /\ Array.len c = length valid /\
                  (nullable = false -> masked (negb <$> valid) (ArrayRef.nulls_of c))) /\ go fields columns
             | _, _ => False
             end) fields columns
      | _ => False
      end
  | ArrowType.List (ArrowType.mk_Field _ d nullable _) | ArrowType.LargeList (ArrowType.mk_Field _ d nullable _) =>
      match a with
      | Array.List offsets valid values =>
          length offsets = S (length valid) /\ Forall (fun o => o <= Array.len values) offsets /\
          typed d values /\ (nullable = false -> no_nulls (ArrayRef.nulls_of values))
      | _ => False
      end
  | ArrowType.Map (ArrowType.mk_Field _ entries _ _) _ =>
      match entries, a with
      | ArrowType.Struct [ArrowType.mk_Field _ dk nk _; ArrowType.mk_Field _ dv nv _], Array.Map offsets valid keys values =>
          length offsets = S (length valid) /\ Forall (fun o => o <= Array.len keys) offsets /\
          Array.len values = Array.len keys /\
          (typed dk keys /\ (nk = false -> no_nulls (ArrayRef.nulls_of keys))) /\
          (typed dv values /\ (nv = false -> no_nulls (ArrayRef.nulls_of values)))
      | _, _ => False
      end
  | ArrowType.FixedSizeList _ _ | ArrowType.ListView _ | ArrowType.LargeListView _ | ArrowType.Dictionary _ _
  | ArrowType.Other _ => True
  | d => leaf_type a = Some d
  end.

(** An array of the data type with [n] rows *)
Definition array_of (d : ArrowType) (n : nat) (r : ArrayRef) : Prop :=
  ArrayRef.data_type r = d /\ typed d (ArrayRef.data r) /\ ArrayRef.len r = n.

Definition field_of (parent : list bool) (f : Field) (r : ArrayRef) : Prop :=
  array_of (Field.data_type f) (length parent) r /\
  (Field.is_nullable f = false -> masked parent (ArrayRef.nulls r)).

(** A column of a batch with [n] rows *)
Definition conforms (n : nat) (f : Field) (r : ArrayRef) : Prop :=
  array_of (Field.data_type f) n r /\ (Field.is_nullable f = false -> no_nulls (ArrayRef.nulls r)).
Definition valid_batch (b : Batch.t) : Prop :=
  Forall2 (conforms (Batch.num_rows b)) (Batch.fields b) (Batch.columns b).

Lemma list_array_typed f a : typed (ArrowType.LargeList f) a -> exists offsets valid values,
  a = Array.List offsets valid values /\ length offsets = S (length valid) /\
  Forall (fun o => o <= Array.len values) offsets /\ typed (Field.data_type f) values /\
  (Field.is_nullable f = false -> no_nulls (ArrayRef.nulls_of values)).
Proof. destruct f. cbn. destruct a; try done. intros H. by eexists _, _, _. Qed.
Lemma struct_array_typed fields a : typed (ArrowType.Struct fields) a -> exists valid columns,
  a = Array.Struct valid columns /\
  Forall2 (fun f c => field_of (negb <$> valid) f (ArrayRef.mk (Field.data_type f) c)) fields columns.
Proof.
  cbn. destruct a as [| | | | | | |valid columns|]; try done. intros H. exists valid, columns. split; [done|].
  revert columns H. induction fields as [|[n d nl m] fields IH]; intros [|c columns] H; try done.
  destruct H as [(Hd & Hl & Hn) H]. constructor; [|by apply IH]. split; [|done].
  split; [done|]. split; [done|]. by rewrite length_fmap.
Qed.
Lemma struct_typed fields valid arrays : Forall2 (field_of (negb <$> valid)) fields arrays ->
  typed (ArrowType.Struct fields) (Array.Struct valid (ArrayRef.data <$> arrays)).
Proof.
  intros H. cbn. induction H as [|[n d nl m] r fields arrays [(_ & Hd & Hl) Hn] H IH]; [done|].
  cbn. split; [|exact IH]. split_and!; [done| |done]. by rewrite length_fmap in Hl.
Qed.
Lemma map_array_typed f s a : typed (ArrowType.Map f s) a -> exists kf vf,
  Field.data_type f = ArrowType.Struct [kf; vf] /\ exists offsets valid keys values,
  a = Array.Map offsets valid keys values /\ length offsets = S (length valid) /\
  Forall (fun o => o <= Array.len keys) offsets /\ Array.len values = Array.len keys /\
  (typed (Field.data_type kf) keys /\ (Field.is_nullable kf = false -> no_nulls (ArrayRef.nulls_of keys))) /\
  (typed (Field.data_type vf) values /\ (Field.is_nullable vf = false -> no_nulls (ArrayRef.nulls_of values))).
Proof.
  destruct f as [n d nl m]. cbn. destruct d as [| | | | | | | | | | | | | | | | | | | | | | | | | |l| | | | | |]; try done.
  destruct l as [|[nk dk nlk mk] [|[nv dv nlv mv] [|? ?]]]; try done. destruct a as [| | | | | | | |? ? keys values]; try done.
  intros H. exists (ArrowType.mk_Field nk dk nlk mk), (ArrowType.mk_Field nv dv nlv mv). split; [done|]. by eexists _, _, _, _.
Qed.

Lemma map_typed name kf vf nullable metadata s offsets valid keys values :
  length offsets = S (length valid) -> Forall (fun o => o <= Array.len keys) offsets ->
  Array.len values = Array.len keys ->
  typed (Field.data_type kf) keys -> (Field.is_nullable kf = false -> no_nulls (ArrayRef.nulls_of keys)) ->
  typed (Field.data_type vf) values -> (Field.is_nullable vf = false -> no_nulls (ArrayRef.nulls_of values)) ->
  typed (ArrowType.Map (ArrowType.mk_Field name (ArrowType.Struct [kf; vf]) nullable metadata) s)
    (Array.Map offsets valid keys values).
Proof. destruct kf, vf. cbn. intros. by split_and!. Qed.

(** The first row of a leaf array, again and again *)
Definition repeat_first (n : nat) (a : Array) : Array :=
  let rep {A} (l : list (option A)) := replicate n (default None (head l)) in
  match a with
  | Array.Booleans l => Array.Booleans (rep l)
  | Array.Ints d l => Array.Ints d (rep l)
  | Array.Floats d l => Array.Floats d (rep l)
  | Array.Strings d l => Array.Strings d (rep l)
  | Array.Bytes d l => Array.Bytes d (rep l)
  | Array.Intervals l => Array.Intervals (rep l)
  | a => a
  end.

(** What the [arrow] crates document: kernels return arrays of the data type and
    length - [take] panics for an index out of bounds -, integers cast to timestamps
    are their units, decimals cast to a larger scale are multiplied by the power of
    ten (or refused), and constructors accept arrays that fit. *)
Class KernelLaws `{External} `{!Kernels} `{!Extensions} : Prop := {
  cast_array_of safe a d : typed (ArrayRef.data_type a) (ArrayRef.data a) ->
    match cast safe a d with Ok r => array_of d (ArrayRef.len a) r | Err _ => True | Panic => False end;
  cast_same safe a : cast safe a (ArrayRef.data_type a) = Ok a;
  cast_timestamp safe l unit zone r :
    cast safe (ArrayRef.mk ArrowType.Int64 (Array.Ints ArrowType.Int64 l)) (ArrowType.Timestamp unit zone) = Ok r ->
    r = ArrayRef.mk (ArrowType.Timestamp unit zone) (Array.Ints (ArrowType.Timestamp unit zone) l);
  cast_decimal l p s p' s' r : (s <= s')%Z ->
    cast false (ArrayRef.mk (ArrowType.Decimal128 p s) (Array.Ints (ArrowType.Decimal128 p s) l))
      (ArrowType.Decimal128 p' s') = Ok r ->
    r = ArrayRef.mk (ArrowType.Decimal128 p' s')
          (Array.Ints (ArrowType.Decimal128 p' s') (fmap (M := option) (fun z => z * 10 ^ (s' - s))%Z <$> l));
  take_array_of a indices : typed (ArrayRef.data_type a) (ArrayRef.data a) ->
    Forall (fun i => i < ArrayRef.len a) indices ->
    match take a indices with
    | Ok r => array_of (ArrayRef.data_type a) (length indices) r | Err _ => True | Panic => False
    end;
  take_repeats a n : is_Some (leaf_type (ArrayRef.data a)) -> ArrayRef.len a = 1 ->
    take a (replicate n 0) = Ok (ArrayRef.mk (ArrayRef.data_type a) (repeat_first n (ArrayRef.data a)));
  decimal_array l p s :
    match with_precision_and_scale l p s with
    | Ok r => r = ArrayRef.mk (ArrowType.Decimal128 p s) (Array.Ints (ArrowType.Decimal128 p s) l)
    | Err _ => True | Panic => False
    end;
  new_null_array_of c n (d := Field.data_type (ArrowSchema.to_arrow_field c)) :
    array_of d n (new_null_array d n) /\ ArrayRef.nulls (new_null_array d n) = replicate n true;
  struct_try_new_spec fields arrays valid :
    Forall2 (field_of (negb <$> valid)) fields arrays ->
    struct_try_new fields arrays valid (length valid) =
      Ok (ArrayRef.mk (ArrowType.Struct fields) (Array.Struct valid (ArrayRef.data <$> arrays)));
  list_try_new_spec f offsets values valid :
    conforms (ArrayRef.len values) f values ->
    length offsets = S (length valid) -> Forall (fun o => o <= ArrayRef.len values) offsets ->
    list_try_new f offsets values valid =
      Ok (ArrayRef.mk (ArrowType.LargeList f) (Array.List offsets valid (ArrayRef.data values)));
  map_try_new_spec name fields nullable metadata offsets n keys values valid sorted :
    length fields = 2 -> length offsets = S (length valid) ->
    Forall (fun o => o <= n) offsets -> Array.len keys = n -> Array.len values = n ->
    map_try_new (ArrowType.mk_Field name (ArrowType.Struct fields) nullable metadata) offsets
      (ArrayRef.mk (ArrowType.Struct fields) (Array.Struct (replicate n true) [keys; values])) valid sorted =
      Ok (ArrayRef.mk (ArrowType.Map (ArrowType.mk_Field name (ArrowType.Struct fields) nullable metadata) sorted)
            (Array.Map offsets valid keys values));
  batch_try_new_spec fields arrays n :
    Forall2 (conforms n) fields arrays -> batch_try_new fields arrays n = Ok (Batch.mk fields arrays n);
}.

Section MatchingFacts.
Context `{EXT : External} `{CHRONO : !Chrono} `{INSTANTS : !Instants} `{EXTENSIONS : !Extensions}
  `{KERNELS : !Kernels} `{LAWS : !KernelLaws}.

(** ** Outcomes *)

(** The errors of the matching itself, and those of the kernels it calls *)
Definition own_error (e : DucklakeError) : Prop :=
  match e with
  | SchemaError _ | InvalidNullValue _ | InvalidCast _ _ | UnsupportedArrowDataType _ => True
  | _ => False
  end.
Definition kernel_error (e : DucklakeError) : Prop :=
  (exists safe a d, typed (ArrayRef.data_type a) (ArrayRef.data a) /\ cast safe a d = Err e) \/
  (exists a n, typed (ArrayRef.data_type a) (ArrayRef.data a) /\ ArrayRef.len a = 1 /\
     take a (replicate n 0) = Err e) \/
  (exists m s, with_precision_and_scale [Some m] 38 s = Err e).

(** The default of a column, or of one nested in it, is an instant that has no
    number of nanoseconds. *)
Definition default_of (defaults : Defaults) (c : Column) : option Value :=
  match defaults, Column.default_value c with
  | InitialDefault, _ => Column.initial_default c
  | DefaultValue, ColumnDefault.Literal v => v
  | DefaultValue, ColumnDefault.Expression _ _ => None
  end.
Definition beyond_nanoseconds (dtype : DataType) (v : option Value) : Prop :=
  match dtype, v with
  | DataType.Timestamp Nanoseconds, Some (Value.Timestamp t) => timestamp_nanos_opt (and_utc t) = None
  | _, _ => False
  end.
Fixpoint overflows (defaults : Defaults) (c : Column) {struct c} : Prop :=
  beyond_nanoseconds (Column.dtype c) (default_of defaults c) \/
  match c with
  | DataType.mk_Column _ dtype _ _ _ _ _ =>
      match dtype with
      | DataType.List inner => overflows defaults inner
      | DataType.Struct fields =>
          (fix any (fields : list Column) : Prop :=
             match fields with [] => False | f :: fields => overflows defaults f \/ any fields end) fields
      | DataType.Map key value => overflows defaults key \/ overflows defaults value
      | _ => False
      end
  end.

Definition ends {A} (Q : A -> Prop) (panics : Prop) (m : result A) : Prop :=
  match m with Ok a => Q a | Err e => own_error e \/ kernel_error e | Panic => panics end.

Lemma ends_bind {A B} (P : A -> Prop) (Q : B -> Prop) (p q : Prop) (m : result A) (f : A -> result B) :
  ends P p m -> (p -> q) -> (forall a, P a -> ends Q q (f a)) -> ends Q q (m ≫= f).
Proof. intros Hm Hp Hf. destruct m; cbn in *; auto. Qed.
Lemma ends_weaken {A} (P Q : A -> Prop) (p q : Prop) (m : result A) :
  ends P p m -> (p -> q) -> (forall a, P a -> Q a) -> ends Q q m.
Proof. intros Hm Hp Hf. destruct m; cbn in *; auto. Qed.
Lemma ends_own {A} (Q : A -> Prop) p e : own_error e -> ends Q p (Err e).
Proof. by left. Qed.

Lemma cast_ends safe a d : typed (ArrayRef.data_type a) (ArrayRef.data a) ->
  ends (array_of d (ArrayRef.len a)) False (cast safe a d).
Proof.
  intros Ha. pose proof (cast_array_of safe a d Ha) as H. destruct (cast safe a d) eqn:E; cbn; [done| |done].
  right. left. eauto.
Qed.
Lemma take_ends a n : typed (ArrayRef.data_type a) (ArrayRef.data a) -> ArrayRef.len a = 1 ->
  ends (array_of (ArrayRef.data_type a) n) False (take a (replicate n 0)).
Proof.
  intros Ha Hlen. pose proof (take_array_of a (replicate n 0) Ha) as H. rewrite length_replicate in H.
  specialize (H ltac:(apply Forall_replicate; lia)). destruct (take a _) eqn:E; cbn; [done| |done].
  right. right. left. eauto.
Qed.

Definition single (r : ArrayRef) : Prop := typed (ArrayRef.data_type r) (ArrayRef.data r) /\ ArrayRef.len r = 1.

Lemma scalar_ends v dtype : ends single (beyond_nanoseconds dtype (Some v)) (broadcast.scalar v dtype).
Proof.
  destruct v; cbn [broadcast.scalar]; try (by split); try (by left).
  - pose proof (decimal_array [Some (mantissa d)] 38 (u8_as_i8 (decimal_scale d mod 256))) as H.
    destruct (with_precision_and_scale _ _ _) eqn:E; cbn; [|right; right; right; eauto|done]. by subst.
  - destruct dtype; try (by left). destruct precision; cbn; try by split.
    unfold unwrap. destruct (timestamp_nanos_opt _); cbn; by split || done.
Qed.

Lemma broadcast_ends v dtype n :
  ends (array_of (Field.data_type (ArrowSchema.to_arrow_field (Column.new "" dtype))) n)
    (beyond_nanoseconds dtype (Some v)) (broadcast.broadcast v dtype n).
Proof.
  unfold broadcast.broadcast. eapply ends_bind; [apply scalar_ends|done|]. intros a [Ha Hlen].
  eapply ends_bind; [by apply cast_ends|done|]. intros b (Hd & Hb & Hl).
  eapply ends_weaken; [apply take_ends; by rewrite ?Hd, ?Hl|done|]. intros r. by rewrite Hd.
Qed.

(** The data type of a field does not depend on the rest of the column. *)
Definition target (c : Column) : ArrowType := Field.data_type (ArrowSchema.to_arrow_field c).
Lemma field_data_type id dtype name d nullable :
  Field.data_type (ArrowSchema.with_field_id id (ArrowSchema.extend dtype (Field.new name d nullable))) = d.
Proof. by rewrite field_shape. Qed.
Lemma arrow_field_nullable c : Field.is_nullable (ArrowSchema.to_arrow_field c) = Column.nullable c.
Proof. destruct c. cbn [ArrowSchema.to_arrow_field]. by rewrite field_shape. Qed.
Lemma target_new dtype c : Column.dtype c = dtype ->
  Field.data_type (ArrowSchema.to_arrow_field (Column.new "" dtype)) = target c.
Proof.
  intros <-. unfold target. destruct c. cbn [ArrowSchema.to_arrow_field Column.new Column.dtype].
  by rewrite !field_data_type.
Qed.

Lemma generate_ends c n defaults :
  ends (array_of (target c) n) (overflows defaults c) (matching.generate_column c n defaults).
Proof.
  assert (beyond_nanoseconds (Column.dtype c) (default_of defaults c) -> overflows defaults c) as Ho.
  { destruct c. by left. }
  unfold matching.generate_column.
  eapply (ends_bind (fun v => v = default_of defaults c) _ False); [|done|].
  - unfold default_of. destruct defaults; [done|]. destruct (Column.default_value c); [done|by left].
  - intros v ->. destruct (default_of defaults c) as [v|]; [|apply new_null_array_of].
    rewrite <-(target_new (Column.dtype c) c) by done. eapply ends_weaken; [apply broadcast_ends|done|done].
Qed.

(** ** Fields of well-formed arrays can be read *)

Lemma try_from_ends f a : typed (Field.data_type f) a -> ends (fun _ => True) False (ArrowSchema.try_from f).
Proof.
  revert a. revert f. fix IH 1. intros [name d nl m] a. cbn [Field.data_type]. intros Ha.
  cbn [ArrowSchema.try_from]. eapply (ends_bind (fun _ => True)); [|done|done].
  destruct d as [| | | | | | | | | | | | | | |u tz|i| | | | | | |size|f|f|l|f s|f n|f|f|k v|o]; cbn [ArrowSchema.try_from];
    try exact I; try (by left).
  - destruct unit; done || by left.
  - destruct tz, u; done || by left.
  - repeat case_match; done || by left.
  - apply list_array_typed in Ha as (? & ? & values & _ & _ & _ & Ha & _). eapply ends_bind; [apply (IH f values Ha)|done|done].
  - apply (list_array_typed f) in Ha as (? & ? & values & _ & _ & _ & Ha & _). eapply ends_bind; [apply (IH f values Ha)|done|done].
  - case_match; [done|]. match goal with H : Field.has_extension _ _ = false |- _ => clear H end.
    eapply (ends_bind (fun _ => True)); [|done|done]. apply struct_array_typed in Ha as (valid & columns & _ & Ha).
    revert columns Ha. induction l as [|f l IHl]; intros columns Ha; [done|]. destruct columns as [|c columns]; [by inv Ha|].
    apply Forall2_cons_1 in Ha as [((_ & Hf & _) & _) Ha].
    eapply ends_bind; [apply (IH f c Hf)|done|]. intros ? _. eapply ends_bind; [apply (IHl columns Ha)|done|done].
  - apply map_array_typed in Ha as (kf & vf & Hd & offsets & valid & keys & values & _ & _ & _ & _ & [Hk _] & [Hv _]).
    destruct f as [n d nl' m']. cbn in Hd. destruct d as [| | | | | | | | | | | | | | | | | | | | | | | | | |l| | | | | |]; try done.
    destruct l as [|k [|v l]]; try done. assert (k = kf /\ v = vf) as [Hkf Hvf] by by injection Hd.
    rewrite <-Hkf in Hk. rewrite <-Hvf in Hv. clear Hd.
    eapply ends_bind; [apply (IH k keys Hk)|done|]. intros ? _.
    eapply ends_bind; [apply (IH v values Hv)|done|done].
Qed.

(** ** Nullability *)

Lemma length_nulls a : length (ArrayRef.nulls a) = ArrayRef.len a.
Proof. unfold ArrayRef.nulls, ArrayRef.len. destruct (ArrayRef.data a); cbn; by rewrite length_fmap. Qed.

Definition covered (parent : option (list bool)) (nulls : list bool) : Prop :=
  match parent with Some p => masked p nulls | None => no_nulls nulls end.

Lemma no_nulls_spec nulls : existsb id nulls = false -> no_nulls nulls.
Proof.
  intros H. apply Forall_forall. intros b Hb. destruct b; [|done]. apply not_true_iff_false in H.
  destruct H. apply existsb_exists. exists true. by rewrite <-list_elem_of_In.
Qed.
Lemma no_nulls_masked p nulls : length p = length nulls -> no_nulls nulls -> masked p nulls.
Proof.
  intros Hl H. revert p Hl. induction H as [|b nulls Hb H IH]; intros [|a p] Hl; try done; [constructor|].
  constructor; [by subst|]. apply IH. by injection Hl.
Qed.
Lemma contains_spec p nulls : length p = length nulls -> matching.contains p nulls = true -> masked p nulls.
Proof.
  unfold matching.contains. revert nulls. induction p as [|a p IH]; intros [|b nulls] Hl H; try done; [constructor|].
  cbn in H. apply andb_prop in H as [H1 H2]. constructor; [destruct a, b; done|]. apply IH; [by injection Hl|done].
Qed.

Lemma check_ends c a parent : (match parent with Some p => length p = ArrayRef.len a | None => True end) ->
  ends (fun _ => Column.nullable c = false -> covered parent (ArrayRef.nulls a)) False
    (matching.check_nullability c a parent).
Proof.
  intros Hp. unfold matching.check_nullability. destruct (Column.nullable c); [done|]. cbn [negb andb].
  destruct (existsb id (ArrayRef.nulls a)) eqn:E; cbn [andb].
  - destruct parent as [p|]; [|by left]. destruct (matching.contains _ _) eqn:Hc; [|by left].
    intros _. apply contains_spec; [by rewrite length_nulls|done].
  - intros _. apply no_nulls_spec in E. destruct parent as [p|]; [|done].
    apply no_nulls_masked; [by rewrite length_nulls|done].
Qed.
Lemma check_all_ends n cs arrays parent : (match parent with Some p => length p = n | None => True end) ->
  Forall2 (fun c => array_of (target c) n) cs arrays ->
  ends (fun _ => Forall2 (fun c a => array_of (target c) n a /\
    (Column.nullable c = false -> covered parent (ArrayRef.nulls a))) cs arrays) False
    (matching.check_all cs arrays parent).
Proof.
  intros Hp H. induction H as [|c a cs arrays Ha H IH]; [constructor|]. cbn [matching.check_all].
  eapply ends_bind; [apply check_ends|done|].
  - destruct parent; [|done]. destruct Ha as (_ & _ & ->). done.
  - intros [] Hc. eapply ends_weaken; [exact IH|done|]. intros [] ?. by constructor.
Qed.

(** ** Columns *)

Definition sound (defaults : Defaults) (mc : Field -> ArrayRef -> Column -> result ArrayRef) (c : Column) : Prop :=
  forall f a, array_of (Field.data_type f) (ArrayRef.len a) a ->
    ends (array_of (target c) (ArrayRef.len a)) (overflows defaults c) (mc f a c).

Lemma source_ends defaults n fields arrays : Forall2 (fun f => array_of (Field.data_type f) n) fields arrays ->
  ends (fun source : gmap string (Field * ArrayRef) =>
    forall k f a, source !! k = Some (f, a) -> array_of (Field.data_type f) n a) False
    (matching.source_fields defaults fields arrays).
Proof.
  intros H. unfold matching.source_fields.
  assert (forall k f a, (∅ : gmap string (Field * ArrayRef)) !! k = Some (f, a) -> array_of (Field.data_type f) n a) as Hs.
  { intros k f a. by rewrite lookup_empty. }
  revert Hs. generalize (∅ : gmap string (Field * ArrayRef)). induction H as [|f a fields arrays Ha H IH]; intros source Hs; [exact Hs|].
  cbn [zip_with fold_outcome]. destruct (matching.field_key defaults f) as [k|]; [|by apply IH].
  destruct (source !! k); [by left|]. cbn [mbind outcome_bind]. apply IH. intros k' f' a'.
  destruct (decide (k = k')) as [->|Hk]; [rewrite lookup_insert_eq; by intros [= <- <-]|].
  rewrite lookup_insert_ne by done. apply Hs.
Qed.

Lemma match_columns_ends defaults n mc columns source :
  Forall (sound defaults mc) columns ->
  (forall k f a, source !! k = Some (f, a) -> array_of (Field.data_type f) n a) ->
  ends (fun '(arrays, _) => Forall2 (fun c => array_of (target c) n) columns arrays)
    (Exists (overflows defaults) columns) (matching.match_columns mc n defaults columns source).
Proof.
  intros Hsound. revert source. induction Hsound as [|c columns Hc Hsound IH]; intros source Hs; [constructor|].
  cbn [matching.match_columns]. cbv zeta.
  eapply (ends_bind (array_of (target c) n) _ (overflows defaults c)); [|by left|].
  - match goal with |- ends _ _ (match ?o with Some _ => _ | None => _ end) =>
      destruct o as [[f a]|] eqn:E end; [|apply generate_ends].
    destruct (matching.column_key defaults c) as [k|]; [|done]. cbn in E. apply Hs in E as Ha.
    destruct Ha as (? & ? & Hlen). rewrite <-Hlen. by apply Hc.
  - intros a Ha. eapply ends_bind; [apply IH|by right|].
    + destruct (matching.column_key defaults c) as [k|]; [|done]. intros k' f' a'.
      destruct (decide (k = k')) as [->|Hk]; [by rewrite lookup_delete_eq|]. rewrite lookup_delete_ne by done. apply Hs.
    + intros [arrays s] Harrays. by constructor.
Qed.

Lemma match_fields_ends defaults n mc fields arrays columns :
  Forall (sound defaults mc) columns -> Forall2 (fun f => array_of (Field.data_type f) n) fields arrays ->
  ends (fun rs => Forall2 (fun c => array_of (target c) n) columns rs) (Exists (overflows defaults) columns)
    (matching.match_fields mc fields arrays columns n defaults).
Proof.
  intros Hc Hf. unfold matching.match_fields. eapply ends_bind; [by apply (source_ends _ n)|done|]. intros source Hs.
  eapply ends_bind; [by apply match_columns_ends|done|]. intros [rs source'] Hrs.
  destruct defaults; [done|]. case_decide; [done|by left].
Qed.

Lemma match_child_ends defaults mc f a c : sound defaults mc c -> array_of (Field.data_type f) (ArrayRef.len a) a ->
  ends (array_of (target c) (ArrayRef.len a)) (overflows defaults c) (matching.match_child mc f a c defaults).
Proof.
  intros Hc Ha. unfold matching.match_child. destruct defaults; [|by apply Hc].
  case_decide; [apply generate_ends|by apply Hc].
Qed.

Lemma convert_ends f a dtype d : array_of (Field.data_type f) (ArrayRef.len a) a ->
  ends (array_of d (ArrayRef.len a)) False (matching.convert f a dtype d).
Proof.
  intros (Hd & Ha & _). unfold matching.convert. eapply ends_bind; [by eapply try_from_ends|done|]. intros source _.
  case_match; [|by left]. destruct (ArrowType_eqb _ d) eqn:E.
  - apply ArrowType_eqb_eq in E. cbn. split_and!; [done| |done]. by rewrite <-E, Hd.
  - apply cast_ends. by rewrite Hd.
Qed.

(** ** The data types of nested columns *)

Lemma target_list name inner nl ts i v id :
  target (DataType.mk_Column name (DataType.List inner) nl ts i v id) = ArrowType.LargeList (ArrowSchema.to_arrow_field inner).
Proof. unfold target. cbn [ArrowSchema.to_arrow_field]. by rewrite field_data_type. Qed.
Lemma target_struct name columns nl ts i v id :
  target (DataType.mk_Column name (DataType.Struct columns) nl ts i v id) =
    ArrowType.Struct (ArrowSchema.to_arrow_field <$> columns).
Proof. unfold target. cbn [ArrowSchema.to_arrow_field]. by rewrite field_data_type. Qed.
Lemma target_map name key val nl ts i v id :
  target (DataType.mk_Column name (DataType.Map key val) nl ts i v id) =
    ArrowType.Map (Field.new_struct "entries" [ArrowSchema.to_arrow_field key; ArrowSchema.to_arrow_field val] false) false.
Proof. unfold target. cbn [ArrowSchema.to_arrow_field]. by rewrite field_data_type. Qed.

Lemma any_overflows defaults columns :
  Exists (overflows defaults) columns ->
  (fix any (fields : list Column) : Prop :=
     match fields with [] => False | f :: fields => overflows defaults f \/ any fields end) columns.
Proof. induction 1; cbn; auto. Qed.

Lemma fields_of parent n columns arrays : n = length parent ->
  Forall2 (fun c a => array_of (target c) n a /\
    (Column.nullable c = false -> covered (Some parent) (ArrayRef.nulls a))) columns arrays ->
  Forall2 (field_of parent) (ArrowSchema.to_arrow_field <$> columns) arrays.
Proof.
  intros -> H. apply Forall2_fmap_l. eapply Forall2_impl; [exact H|]. intros c a [Ha Hn]. split; [done|]. by rewrite arrow_field_nullable.
Qed.

(** ** Every column is matched to its data type *)

(** The constructors of a map accept keys and values of one length. *)
Lemma map_built key val rk rv offsets valid sorted name nullable metadata :
  let fields := [ArrowSchema.to_arrow_field key; ArrowSchema.to_arrow_field val] in
  let entries := ArrowType.mk_Field name (ArrowType.Struct fields) nullable metadata in
  array_of (target key) (ArrayRef.len rk) rk -> array_of (target val) (ArrayRef.len rv) rv ->
  ArrayRef.len rv = ArrayRef.len rk ->
  (Column.nullable key = false -> no_nulls (ArrayRef.nulls rk)) ->
  (Column.nullable val = false -> no_nulls (ArrayRef.nulls rv)) ->
  length offsets = S (length valid) -> Forall (fun o => o <= ArrayRef.len rk) offsets ->
  (array ← struct_try_new fields [rk; rv] (replicate (ArrayRef.len rk) true) (ArrayRef.len rk);
   map_try_new entries offsets array valid sorted) =
    Ok (ArrayRef.mk (ArrowType.Map entries sorted) (Array.Map offsets valid (ArrayRef.data rk) (ArrayRef.data rv))).
Proof.
  intros fields entries Hk Hv Hl Hnk Hnv Ho Hb. set (n := ArrayRef.len rk) in *.
  assert (Forall2 (field_of (negb <$> replicate n true)) fields [rk; rv]) as Hf.
  { apply (fields_of (negb <$> replicate n true) n [key; val]); [by rewrite length_fmap, length_replicate|].
    assert (forall c r, array_of (target c) n r -> (Column.nullable c = false -> no_nulls (ArrayRef.nulls r)) ->
      array_of (target c) n r /\ (Column.nullable c = false -> covered (Some (negb <$> replicate n true)) (ArrayRef.nulls r))) as H.
    { intros c r Hr Hn. split; [done|]. intros Hc. apply no_nulls_masked; [|by apply Hn].
      rewrite length_fmap, length_replicate, length_nulls. by destruct Hr as (_ & _ & ->). }
    constructor; [by apply H|]. constructor; [|constructor]. apply H; [|done]. by rewrite <-Hl. }
  rewrite <-(length_replicate n true) at 2. rewrite struct_try_new_spec by done. cbn [mbind outcome_bind fmap list_fmap].
  unfold entries. by rewrite (map_try_new_spec _ _ _ _ _ n) by done.
Qed.

Lemma kept_sound array c p m : array_of (ArrayRef.data_type array) (ArrayRef.len array) array ->
  (matching.is_kept (ArrayRef.data_type array) (target c) = false -> ends (array_of (target c) (ArrayRef.len array)) p m) ->
  ends (array_of (target c) (ArrayRef.len array)) p
    (if matching.is_kept (ArrayRef.data_type array) (target c) then Ok array else m).
Proof.
  intros Ha Hm. destruct (matching.is_kept _ _) eqn:E; [|by apply Hm]. apply is_kept_eq in E. by rewrite <-E.
Qed.

Section Nested.
Context (defaults : Defaults) (name : string) (nl : bool) (ts : Tags) (i : option Value) (v : ColumnDefault) (id : option Z).
Abbreviation column dtype := (DataType.mk_Column name dtype nl ts i v id).

Lemma match_struct_sound source_fields columns field array :
  Forall (sound defaults (matching.match_column defaults)) columns ->
  ArrayRef.data_type array = ArrowType.Struct source_fields ->
  array_of (ArrayRef.data_type array) (ArrayRef.len array) array ->
  ends (array_of (target (column (DataType.Struct columns))) (ArrayRef.len array)) (overflows defaults (column (DataType.Struct columns)))
    (matching.match_column defaults field array (column (DataType.Struct columns))).
Proof.
  intros IH Hd Ha. cbn [matching.match_column].
  change (Field.data_type (ArrowSchema.to_arrow_field (column (DataType.Struct columns)))) with (target (column (DataType.Struct columns))).
  apply kept_sound; [done|intros _]. destruct array as [d a], Ha as (_ & Ht & _). cbn in Hd. subst d.
  cbn [ArrayRef.data_type ArrayRef.data] in *.
  apply struct_array_typed in Ht as (valid & source & -> & Hs). rewrite target_struct.
  change (ArrayRef.len _) with (length valid).
  eapply ends_bind; [eapply (match_fields_ends _ (length valid)); [exact IH|]|intros H; right; by apply any_overflows|].
  - unfold ArrayRef.columns. clear -Hs. induction Hs as [|f c fields source [Ha _] Hs IH]; [constructor|].
    constructor; [|exact IH]. by rewrite length_fmap in Ha.
  - intros rs Hrs. eapply ends_bind; [eapply check_all_ends; [|exact Hrs]; by rewrite length_fmap|done|].
    intros [] Hc. apply (fields_of (negb <$> valid)) in Hc; [|by rewrite length_fmap].
    rewrite struct_try_new_spec by done. split; [done|]. split; [by apply struct_typed|done].
Qed.

(** What the arm for lists does with the widened array *)
Lemma list_arm_sound inner element array n :
  sound defaults (matching.match_column defaults) element -> array_of (ArrowType.LargeList inner) n array ->
  ends (array_of (ArrowType.LargeList (ArrowSchema.to_arrow_field element)) n) (overflows defaults element)
    (match ArrayRef.data array with
     | Array.List offsets valid values =>
         values ← matching.match_child (matching.match_column defaults) inner
                    (ArrayRef.mk (Field.data_type inner) values) element defaults;
         _ ← matching.check_nullability element values None;
         list_try_new (ArrowSchema.to_arrow_field element) offsets values valid
     | _ => Panic
     end).
Proof.
  intros IH (Hd & Ht & Hlen). destruct array as [d a]. cbn in Hd. subst d. cbn [ArrayRef.data] in *.
  apply list_array_typed in Ht as (offsets & valid & values & -> & Ho & Hb & Hv & _).
  eapply ends_bind; [apply match_child_ends; [exact IH|done]|done|]. intros r (Hd & Hr & Hl).
  eapply ends_bind; [by apply check_ends|done|]. intros [] Hn. cbn in Hl.
  rewrite list_try_new_spec by (rewrite ?Hl; first [done | split; [by split_and!|by rewrite arrow_field_nullable]]).
  destruct (ArrowSchema.to_arrow_field element) as [n' d' nl' m'] eqn:Ef. split_and!; [done| |done].
  cbn. split_and!; [done| | |].
  - eapply Forall_impl; [exact Hb|]. intros o ?. change (Array.len (ArrayRef.data r)) with (ArrayRef.len r). by rewrite Hl.
  - unfold target in Hr. by rewrite Ef in Hr.
  - intros ->. apply Hn. by rewrite <-arrow_field_nullable, Ef.
Qed.

Lemma match_list_sound inner element field array :
  sound defaults (matching.match_column defaults) element ->
  ArrayRef.data_type array = ArrowType.List inner \/ ArrayRef.data_type array = ArrowType.LargeList inner ->
  array_of (ArrayRef.data_type array) (ArrayRef.len array) array ->
  ends (array_of (target (column (DataType.List element))) (ArrayRef.len array)) (overflows defaults (column (DataType.List element)))
    (matching.match_column defaults field array (column (DataType.List element))).
Proof.
  intros IH Hd Ha. cbn [matching.match_column].
  change (Field.data_type (ArrowSchema.to_arrow_field (column (DataType.List element)))) with (target (column (DataType.List element))).
  apply kept_sound; [done|intros _]. rewrite target_list.
  assert (ends (array_of (ArrowType.LargeList inner) (ArrayRef.len array)) False (cast true array (ArrowType.LargeList inner))) as Hcast.
  { apply cast_ends. apply Ha. }
  destruct Hd as [-> | ->]; (eapply ends_bind; [exact Hcast|done|]; intros b Hb;
    eapply ends_weaken; [by apply list_arm_sound|by right|done]).
Qed.

Lemma match_map_sound entries s key val field array :
  sound defaults (matching.match_column defaults) key -> sound defaults (matching.match_column defaults) val ->
  ArrayRef.data_type array = ArrowType.Map entries s ->
  array_of (ArrayRef.data_type array) (ArrayRef.len array) array ->
  ends (array_of (target (column (DataType.Map key val))) (ArrayRef.len array)) (overflows defaults (column (DataType.Map key val)))
    (matching.match_column defaults field array (column (DataType.Map key val))).
Proof.
  intros IHk IHv Hd Ha. cbn [matching.match_column].
  change (Field.data_type (ArrowSchema.to_arrow_field (column (DataType.Map key val)))) with (target (column (DataType.Map key val))).
  apply kept_sound; [done|intros _]. destruct array as [d a], Ha as (_ & Ht & _). cbn in Hd. subst d.
  cbn [ArrayRef.data_type ArrayRef.data] in *. rewrite target_map.
  apply map_array_typed in Ht as (kf & vf & -> & offsets & valid & keys & values & -> & Ho & Hb & Hl & [Hk _] & [Hv _]).
  change (ArrayRef.len (ArrayRef.mk _ (Array.Map offsets valid keys values))) with (length valid).
  eapply ends_bind; [apply match_child_ends; [exact IHk|done]|intros H; right; by left|]. intros rk (Hdk & Htk & Hlk).
  eapply ends_bind; [apply match_child_ends; [exact IHv|done]|intros H; right; by right|]. intros rv (Hdv & Htv & Hlv).
  eapply ends_bind; [by apply check_ends|done|]. intros [] Hnk.
  eapply ends_bind; [by apply check_ends|done|]. intros [] Hnv.
  cbn in Hlk, Hlv. assert (ArrayRef.len rv = ArrayRef.len rk) as Hn by (etrans; [exact Hlv|]; etrans; [exact Hl|by symmetry]).
  cbn [Field.data_type Field.new_struct Field.new]. unfold Field.new_struct, Field.new.
  rewrite map_built by (first [done | by rewrite Hlk]).
  split_and!; [done| |done]. apply map_typed; rewrite ?arrow_field_nullable; try done.
  change (Array.len (ArrayRef.data rk)) with (ArrayRef.len rk). by rewrite Hlk.
Qed.

Lemma match_leaf_sound dtype field array :
  match ArrayRef.data_type array, dtype with
  | ArrowType.Struct _, DataType.Struct _ | (ArrowType.List _ | ArrowType.LargeList _), DataType.List _
  | ArrowType.Map _ _, DataType.Map _ _ => False
  | _, _ => True
  end ->
  array_of (Field.data_type field) (ArrayRef.len array) array ->
  ends (array_of (target (column dtype)) (ArrayRef.len array)) (overflows defaults (column dtype))
    (matching.match_column defaults field array (column dtype)).
Proof.
  intros Hd Ha. cbn [matching.match_column].
  change (Field.data_type (ArrowSchema.to_arrow_field (column dtype))) with (target (column dtype)).
  apply kept_sound; [destruct Ha as (Hf & Ht & ?); split_and!; by rewrite ?Hf|intros _].
  assert (ends (array_of (target (column dtype)) (ArrayRef.len array)) (overflows defaults (column dtype))
    (matching.convert field array dtype (target (column dtype)))) as Hc by (by eapply ends_weaken; [by apply convert_ends| |]).
  destruct (ArrayRef.data_type array); try exact Hc; [apply new_null_array_of|..]; destruct dtype; try exact Hc; done.
Qed.
End Nested.

Lemma match_column_sound defaults c : sound defaults (matching.match_column defaults) c.
Proof.
  revert c. fix IH 1. intros [name dtype nl ts i v id] field array Ha.
  assert (array_of (ArrayRef.data_type array) (ArrayRef.len array) array) as Ha'.
  { destruct Ha as (Hd & Ht & ?). split_and!; by rewrite ?Hd. }
  destruct dtype as [| | | | | | | | | | | | |p q| | | |pr| | | | | | | | |inner|columns|key val];
    try (apply match_leaf_sound; [by destruct (ArrayRef.data_type array)|done]).
  - destruct (ArrayRef.data_type array) eqn:Hd;
      try (apply match_leaf_sound; [by rewrite Hd|done]);
      (eapply match_list_sound; [exact (IH inner)|eauto|by rewrite Hd]).
  - assert (Forall (sound defaults (matching.match_column defaults)) columns) as Hcs.
    { clear -IH LAWS. induction columns as [|c columns IHc]; constructor; [exact (IH c)|exact IHc]. }
    destruct (ArrayRef.data_type array) eqn:Hd;
      try (apply match_leaf_sound; [by rewrite Hd|done]).
    eapply match_struct_sound; [exact Hcs|exact Hd|by rewrite Hd].
  - destruct (ArrayRef.data_type array) eqn:Hd;
      try (apply match_leaf_sound; [by rewrite Hd|done]).
    eapply match_map_sound; [exact (IH key)|exact (IH val)|exact Hd|by rewrite Hd].
Qed.

Lemma match_to_schema_ends batch schema defaults : valid_batch batch ->
  ends (fun matched => Batch.fields matched = ArrowSchema.to_arrow schema /\
      Batch.num_rows matched = Batch.num_rows batch /\ valid_batch matched /\
      matching.match_fields (matching.match_column defaults) (Batch.fields batch) (Batch.columns batch)
        (Schema.columns schema).*2 (Batch.num_rows batch) defaults = Ok (Batch.columns matched))
    (Exists (overflows defaults) (Schema.columns schema).*2) (matching.match_to_schema batch schema defaults).
Proof.
  intros Hbatch. unfold matching.match_to_schema.
  assert (ends (Forall2 (fun c => array_of (target c) (Batch.num_rows batch)) (Schema.columns schema).*2)
    (Exists (overflows defaults) (Schema.columns schema).*2)
    (matching.match_fields (matching.match_column defaults) (Batch.fields batch) (Batch.columns batch)
        (Schema.columns schema).*2 (Batch.num_rows batch) defaults)) as Hm.
  { eapply match_fields_ends.
    - apply Forall_forall. intros c _. apply match_column_sound.
    - eapply Forall2_impl; [exact Hbatch|]. by intros f a [? _]. }
  destruct (matching.match_fields _ _ _ _ _ _) as [arrays| |]; [|exact Hm..]. cbn [mbind outcome_bind].
  eapply ends_bind; [by eapply (check_all_ends _ _ _ None)|done|]. intros [] Hc.
  assert (Forall2 (conforms (Batch.num_rows batch)) (ArrowSchema.to_arrow schema) arrays) as Hv.
  { unfold ArrowSchema.to_arrow. apply Forall2_fmap_l in Hc. apply Forall2_fmap_l. eapply Forall2_impl; [exact Hc|].
    intros c a [Hca Hn]. split; [done|]. by rewrite arrow_field_nullable. }
  by rewrite batch_try_new_spec.
Qed.

(** ** The constructors of arrays never refuse

    The kernels with the constructors that build without a check: the matching does
    the same with them. *)

Definition unchecked : Kernels := {|
  decimal_scale := decimal_scale;
  with_precision_and_scale := with_precision_and_scale;
  cast := cast;
  take := take;
  new_null_array := new_null_array;
  struct_try_new fields arrays valid _ :=
    Ok (ArrayRef.mk (ArrowType.Struct fields) (Array.Struct valid (ArrayRef.data <$> arrays)));
  list_try_new f offsets values valid :=
    Ok (ArrayRef.mk (ArrowType.LargeList f) (Array.List offsets valid (ArrayRef.data values)));
  map_try_new f offsets entries valid sorted :=
    match ArrayRef.data entries with
    | Array.Struct _ [keys; values] => Ok (ArrayRef.mk (ArrowType.Map f sorted) (Array.Map offsets valid keys values))
    | _ => Panic
    end;
  batch_try_new fields arrays n := Ok (Batch.mk fields arrays n);
|}.
Abbreviation match_unchecked := (matching.match_column (KERNELS := unchecked)).

Lemma ends_same {A B} (P : A -> Prop) p (m : result A) (f g : A -> result B) :
  ends P p m -> (forall a, P a -> f a = g a) -> m ≫= f = m ≫= g.
Proof. intros Hm Hf. destruct m; cbn in *; auto. Qed.

Definition agrees (defaults : Defaults) (c : Column) : Prop :=
  forall f a, array_of (Field.data_type f) (ArrayRef.len a) a ->
    match_unchecked defaults f a c = matching.match_column defaults f a c.

Lemma match_columns_same defaults n columns source : Forall (agrees defaults) columns ->
  (forall k f a, source !! k = Some (f, a) -> array_of (Field.data_type f) n a) ->
  matching.match_columns (KERNELS := unchecked) (match_unchecked defaults) n defaults columns source =
    matching.match_columns (matching.match_column defaults) n defaults columns source.
Proof.
  intros Hc. revert source. induction Hc as [|c columns Hc _ IH]; intros source Hs; [done|].
  cbn [matching.match_columns]. cbv zeta. rewrite IH.
  - match goal with |- (match ?o with Some _ => _ | None => _ end ≫= _) = _ => destruct o as [[f a]|] eqn:E end; [|done].
    destruct (matching.column_key defaults c) as [k|]; [|done]. cbn in E. apply Hs in E as Ha. f_equal.
    destruct Ha as (? & ? & Hlen). rewrite <-Hlen in *. by apply Hc.
  - destruct (matching.column_key defaults c) as [k|]; [|done]. intros k' f' a'.
    destruct (decide (k = k')) as [->|Hk]; [by rewrite lookup_delete_eq|]. rewrite lookup_delete_ne by done. apply Hs.
Qed.

Lemma match_fields_same defaults n fields arrays columns : Forall (agrees defaults) columns ->
  Forall2 (fun f => array_of (Field.data_type f) n) fields arrays ->
  matching.match_fields (KERNELS := unchecked) (match_unchecked defaults) fields arrays columns n defaults =
    matching.match_fields (matching.match_column defaults) fields arrays columns n defaults.
Proof.
  intros Hc Hf. unfold matching.match_fields. eapply ends_same; [by apply (source_ends _ n)|]. intros source Hs.
  by rewrite match_columns_same.
Qed.

Lemma match_child_same defaults f a c : agrees defaults c -> array_of (Field.data_type f) (ArrayRef.len a) a ->
  matching.match_child (KERNELS := unchecked) (match_unchecked defaults) f a c defaults =
    matching.match_child (matching.match_column defaults) f a c defaults.
Proof. intros Hc Ha. unfold matching.match_child. destruct defaults; [case_decide; [done|]|]; by apply Hc. Qed.

Section Agreement.
Context (defaults : Defaults) (name : string) (nl : bool) (ts : Tags) (i : option Value) (v : ColumnDefault) (id : option Z).
Abbreviation column dtype := (DataType.mk_Column name dtype nl ts i v id).

Lemma match_struct_same columns field array source_fields : Forall (agrees defaults) columns ->
  ArrayRef.data_type array = ArrowType.Struct source_fields ->
  typed (ArrayRef.data_type array) (ArrayRef.data array) ->
  match_unchecked defaults field array (column (DataType.Struct columns)) =
    matching.match_column defaults field array (column (DataType.Struct columns)).
Proof.
  intros IH Hd Ht. cbn [matching.match_column].
  change (Field.data_type (ArrowSchema.to_arrow_field (column (DataType.Struct columns)))) with (target (column (DataType.Struct columns))).
  destruct (matching.is_kept _ _); [done|]. destruct array as [d a]. cbn in Hd. subst d.
  cbn [ArrayRef.data_type ArrayRef.data] in *.
  apply struct_array_typed in Ht as (valid & source & -> & Hs). rewrite target_struct.
  assert (Forall2 (fun f => array_of (Field.data_type f) (length valid)) source_fields (ArrayRef.columns source_fields source)) as Hf.
  { unfold ArrayRef.columns. clear -Hs. induction Hs as [|f c fields source [Ha _] Hs IH]; [constructor|].
    constructor; [|exact IH]. by rewrite length_fmap in Ha. }
  rewrite (match_fields_same _ (length valid)) by done.
  eapply ends_same; [eapply (match_fields_ends _ (length valid)); [|exact Hf]; apply Forall_forall; intros; apply match_column_sound|].
  intros rs Hrs. eapply ends_same; [eapply check_all_ends; [|exact Hrs]; by rewrite length_fmap|].
  intros [] Hc. apply (fields_of (negb <$> valid)) in Hc; [|by rewrite length_fmap]. by rewrite (@struct_try_new_spec _ _ _ LAWS).
Qed.

Lemma match_list_same inner element field array : agrees defaults element ->
  ArrayRef.data_type array = ArrowType.List inner \/ ArrayRef.data_type array = ArrowType.LargeList inner ->
  typed (ArrayRef.data_type array) (ArrayRef.data array) ->
  match_unchecked defaults field array (column (DataType.List element)) =
    matching.match_column defaults field array (column (DataType.List element)).
Proof.
  intros IH Hd Ha. cbn [matching.match_column].
  change (Field.data_type (ArrowSchema.to_arrow_field (column (DataType.List element)))) with (target (column (DataType.List element))).
  destruct (matching.is_kept _ _); [done|].
  pose proof (cast_ends true array (ArrowType.LargeList inner) Ha) as Hcast.
  assert (forall b, array_of (ArrowType.LargeList inner) (ArrayRef.len array) b ->
    match ArrayRef.data b with
    | Array.List offsets valid values =>
        values ← matching.match_child (KERNELS := unchecked) (match_unchecked defaults) inner
                   (ArrayRef.mk (Field.data_type inner) values) element defaults;
        _ ← matching.check_nullability element values None;
        list_try_new (Kernels := unchecked) (ArrowSchema.to_arrow_field element) offsets values valid
    | _ => Panic
    end = match ArrayRef.data b with
    | Array.List offsets valid values =>
        values ← matching.match_child (matching.match_column defaults) inner
                   (ArrayRef.mk (Field.data_type inner) values) element defaults;
        _ ← matching.check_nullability element values None;
        list_try_new (ArrowSchema.to_arrow_field element) offsets values valid
    | _ => Panic
    end) as Harm.
  { intros [d b] (Hdb & Ht & Hlen). cbn in Hdb. subst d. cbn [ArrayRef.data ArrayRef.data_type] in *.
    apply list_array_typed in Ht as (offsets & valid & values & -> & Ho & Hb & Hv & _).
    rewrite match_child_same by done.
    eapply ends_same; [apply match_child_ends; [apply match_column_sound|done]|]. intros r (Hdr & Hr & Hl).
    eapply ends_same; [by apply check_ends|]. intros [] Hn. cbn in Hl.
    by rewrite (@list_try_new_spec _ _ _ LAWS) by (rewrite ?Hl; first [done | split; [by split_and!|by rewrite arrow_field_nullable]]). }
  destruct Hd as [-> | ->]; (eapply ends_same; [exact Hcast|exact Harm]).
Qed.

Lemma match_map_same entries s key val field array : agrees defaults key -> agrees defaults val ->
  ArrayRef.data_type array = ArrowType.Map entries s ->
  typed (ArrayRef.data_type array) (ArrayRef.data array) ->
  match_unchecked defaults field array (column (DataType.Map key val)) =
    matching.match_column defaults field array (column (DataType.Map key val)).
Proof.
  intros IHk IHv Hd Ht. cbn [matching.match_column].
  change (Field.data_type (ArrowSchema.to_arrow_field (column (DataType.Map key val)))) with (target (column (DataType.Map key val))).
  destruct (matching.is_kept _ _); [done|]. destruct array as [d a]. cbn in Hd. subst d.
  cbn [ArrayRef.data_type ArrayRef.data] in *. rewrite target_map.
  apply map_array_typed in Ht as (kf & vf & -> & offsets & valid & keys & values & -> & Ho & Hb & Hl & [Hk _] & [Hv _]).
  rewrite !match_child_same by done.
  eapply ends_same; [apply match_child_ends; [apply match_column_sound|done]|]. intros rk (Hdk & Htk & Hlk).
  eapply ends_same; [apply match_child_ends; [apply match_column_sound|done]|]. intros rv (Hdv & Htv & Hlv).
  eapply ends_same; [by apply check_ends|]. intros [] Hnk.
  eapply ends_same; [by apply check_ends|]. intros [] Hnv.
  cbn in Hlk, Hlv. assert (ArrayRef.len rv = ArrayRef.len rk) as Hn by (etrans; [exact Hlv|]; etrans; [exact Hl|by symmetry]).
  cbn [Field.data_type Field.new_struct Field.new]. unfold Field.new_struct, Field.new.
  by rewrite map_built by (first [done | by rewrite Hlk]).
Qed.

Lemma match_leaf_same dtype field array :
  match ArrayRef.data_type array, dtype with
  | ArrowType.Struct _, DataType.Struct _ | (ArrowType.List _ | ArrowType.LargeList _), DataType.List _
  | ArrowType.Map _ _, DataType.Map _ _ => False
  | _, _ => True
  end ->
  match_unchecked defaults field array (column dtype) = matching.match_column defaults field array (column dtype).
Proof.
  intros Hd. cbn [matching.match_column].
  set (type := Field.data_type (ArrowSchema.to_arrow_field (column dtype))).
  assert (matching.convert (KERNELS := unchecked) field array dtype type = matching.convert field array dtype type) as Hc by reflexivity.
  assert (new_null_array (Kernels := unchecked) type (ArrayRef.len array) = new_null_array type (ArrayRef.len array)) as Hn by reflexivity.
  clearbody type. destruct (matching.is_kept _ _); [reflexivity|].
  destruct (ArrayRef.data_type array); try exact Hc; [by rewrite Hn|..]; destruct dtype; first [exact Hc | destruct Hd].
Qed.
End Agreement.

Lemma match_column_same defaults c : agrees defaults c.
Proof.
  revert c. fix IH 1. intros [name dtype nl ts i v id] field array (Hd & Ht & _). rewrite <-Hd in Ht.
  destruct dtype as [| | | | | | | | | | | | |p q| | | |pr| | | | | | | | |inner|columns|key val];
    try (apply match_leaf_same; by destruct (ArrayRef.data_type array)).
  - destruct (ArrayRef.data_type array) eqn:E; try (apply match_leaf_same; by rewrite E);
      (eapply match_list_same; [exact (IH inner)|eauto|by rewrite E]).
  - assert (Forall (agrees defaults) columns) as Hcs.
    { clear -IH LAWS. induction columns as [|c columns IHc]; constructor; [exact (IH c)|exact IHc]. }
    destruct (ArrayRef.data_type array) eqn:E; try (apply match_leaf_same; by rewrite E).
    eapply match_struct_same; [exact Hcs|exact E|by rewrite E].
  - destruct (ArrayRef.data_type array) eqn:E; try (apply match_leaf_same; by rewrite E).
    eapply match_map_same; [exact (IH key)|exact (IH val)|exact E|by rewrite E].
Qed.

Lemma match_to_schema_same batch schema defaults : valid_batch batch ->
  matching.match_to_schema (KERNELS := unchecked) batch schema defaults = matching.match_to_schema batch schema defaults.
Proof.
  intros Hbatch. unfold matching.match_to_schema.
  assert (Forall2 (fun f => array_of (Field.data_type f) (Batch.num_rows batch)) (Batch.fields batch) (Batch.columns batch)) as Hf.
  { eapply Forall2_impl; [exact Hbatch|]. by intros f a [? _]. }
  rewrite match_fields_same; [|apply Forall_forall; intros; apply match_column_same|done].
  eapply ends_same; [eapply match_fields_ends; [apply Forall_forall; intros; apply match_column_sound|exact Hf]|].
  intros arrays Hm. eapply ends_same; [by eapply (check_all_ends _ _ _ None)|]. intros [] Hc.
  rewrite (@batch_try_new_spec _ _ _ LAWS); [done|]. unfold ArrowSchema.to_arrow. apply Forall2_fmap_l in Hc. apply Forall2_fmap_l.
  eapply Forall2_impl; [exact Hc|]. intros c a [Hca Hn]. split; [done|]. by rewrite arrow_field_nullable.
Qed.

(** C38: what matching a batch gives. A batch that is returned has the Arrow schema of
    the table and its own number of rows: every column, at every level of nesting,
    has the data type of its field, one value per row, and no null where the schema
    has none. The only errors are the matching's own (unknown or duplicate fields,
    nulls, casts that are not promotions, unsupported defaults), those of casting an
    array that is well formed, of repeating an array of one row and of the decimal of
    a default; with constructors of arrays, structs, maps and batches that check
    nothing the outcome is the same, so theirs never refuse. It panics only for a
    default that is an instant beyond the range of nanoseconds. *)
Theorem matched_batches_conform (batch : Batch.t) (schema : Schema) (defaults : Defaults)
    (Hbatch : valid_batch batch) :
  matching.match_to_schema (KERNELS := unchecked) batch schema defaults =
    matching.match_to_schema batch schema defaults /\
  match matching.match_to_schema batch schema defaults with
  | Ok matched =>
      Batch.fields matched = ArrowSchema.to_arrow schema /\ Batch.num_rows matched = Batch.num_rows batch /\
      valid_batch matched
  | Err e => own_error e \/ kernel_error e
  | Panic => Exists (overflows defaults) (Schema.columns schema).*2
  end.
Proof.
  split; [by apply match_to_schema_same|].
  pose proof (match_to_schema_ends batch schema defaults Hbatch) as H.
  destruct (matching.match_to_schema batch schema defaults); [|exact H..]. by destruct H as (? & ? & ? & _).
Qed.

(** ** Where the columns come from *)

Definition source_of (defaults : Defaults) (batch : Batch.t) (c : Column) : option (Field * ArrayRef) :=
  key ← matching.column_key defaults c;
  List.find (fun fa => bool_decide (matching.field_key defaults fa.1 = Some key))
    (zip (Batch.fields batch) (Batch.columns batch)).

Lemma source_lookup defaults fields arrays source : matching.source_fields defaults fields arrays = Ok source ->
  forall k, source !! k = List.find (fun fa => bool_decide (matching.field_key defaults fa.1 = Some k)) (zip fields arrays).
Proof.
  unfold matching.source_fields. generalize (zip fields arrays) as l. intros l.
  assert (forall acc : gmap string (Field * ArrayRef), fold_outcome (fun source '(field, array) =>
    match matching.field_key defaults field with
    | Some key =>
        match source !! key with
        | Some _ => Err (SchemaError ("duplicate field: " +:+ key))
        | None => Ok (<[key := (field, array)]> source)
        end
    | None => Ok source
    end) acc l = Ok source ->
    forall k, source !! k = match acc !! k with
      | Some x => Some x
      | None => List.find (fun fa => bool_decide (matching.field_key defaults fa.1 = Some k)) l
      end) as H.
  { induction l as [|[f a] l IH]; intros acc; cbn [fold_outcome List.find fst].
    { intros [= ->] k. by destruct (source !! k). }
    destruct (matching.field_key defaults f) as [key|]; [|intros H k; rewrite (IH _ H); by rewrite bool_decide_false].
    destruct (acc !! key) eqn:Hacc; [done|]. cbn [mbind outcome_bind]. intros H k. rewrite (IH _ H k).
    destruct (decide (key = k)) as [->|Hk].
    - by rewrite lookup_insert_eq, Hacc, bool_decide_true.
    - rewrite lookup_insert_ne by done. rewrite bool_decide_false by congruence. done. }
  intros Hs k. by rewrite (H _ Hs k), lookup_empty.
Qed.

Definition taken (defaults : Defaults) (mc : Field -> ArrayRef -> Column -> result ArrayRef) (n : nat)
    (source : gmap string (Field * ArrayRef)) (c : Column) : result ArrayRef :=
  match (key ← matching.column_key defaults c; source !! key) with
  | Some (f, a) => mc f a c
  | None => matching.generate_column c n defaults
  end.

Lemma match_columns_lookup defaults mc n columns source arrays rest :
  matching.match_columns mc n defaults columns source = Ok (arrays, rest) ->
  NoDup (omap (matching.column_key defaults) columns) ->
  Forall2 (fun c r => taken defaults mc n source c = Ok r) columns arrays /\
  forall k, rest !! k = if decide (k ∈ omap (matching.column_key defaults) columns) then None else source !! k.
Proof.
  revert source arrays rest. induction columns as [|c columns IH]; intros source arrays rest.
  { intros [= <- <-] _. split; [constructor|done]. }
  cbn [matching.match_columns]. cbv zeta. fold (taken defaults mc n source c).
  destruct (taken defaults mc n source c) as [a| |] eqn:Ha; [|done..]. cbn [mbind outcome_bind].
  destruct (matching.match_columns mc n defaults columns _) as [[rs rest']| |] eqn:E; [|done..].
  intros [= <- <-] HN. cbn in HN |- *. destruct (matching.column_key defaults c) as [key|] eqn:Hkey.
  - apply NoDup_cons in HN as [Hfresh HN]. destruct (IH _ _ _ E HN) as [Hall Hrest]. split.
    + constructor; [done|]. eapply Forall2_impl; [|intros c' r H'; exact H']. clear -Hall Hfresh.
      induction Hall as [|c' r columns rs Hr Hall IH]; constructor.
      * rewrite <-Hr. unfold taken. destruct (matching.column_key defaults c') as [key'|] eqn:Hk'; [|done].
        cbn in Hfresh |- *. rewrite Hk' in Hfresh. rewrite lookup_delete_ne by set_solver. done.
      * apply IH. cbn in Hfresh. destruct (matching.column_key defaults c'); set_solver.
    + intros k. rewrite Hrest. destruct (decide (k = key)) as [->|Hne].
      * rewrite decide_False by done. rewrite lookup_delete_eq. by rewrite decide_True by set_solver.
      * rewrite lookup_delete_ne by done. by repeat case_decide; try set_solver.
  - destruct (IH _ _ _ E HN) as [Hall Hrest]. split; [by constructor|done].
Qed.

Definition matches_source (defaults : Defaults) (mc : Field -> ArrayRef -> Column -> result ArrayRef) (n : nat)
    (source : Column -> option (Field * ArrayRef)) (c : Column) (r : ArrayRef) : Prop :=
  match source c with
  | Some (f, a) => mc f a c = Ok r
  | None => matching.generate_column c n defaults = Ok r
  end.

Lemma match_fields_lookup defaults mc batch columns arrays :
  matching.match_fields mc (Batch.fields batch) (Batch.columns batch) columns (Batch.num_rows batch) defaults = Ok arrays ->
  NoDup (omap (matching.column_key defaults) columns) ->
  length (Batch.fields batch) = length (Batch.columns batch) ->
  Forall2 (matches_source defaults mc (Batch.num_rows batch) (source_of defaults batch)) columns arrays /\
  (defaults = DefaultValue -> Forall (fun f => Field.name f ∈ Column.name <$> columns) (Batch.fields batch)).
Proof.
  unfold matching.match_fields. destruct (matching.source_fields _ _ _) as [source| |] eqn:Hs; [|done..].
  cbn [mbind outcome_bind]. pose proof (source_lookup _ _ _ _ Hs) as Hl.
  destruct (matching.match_columns _ _ _ _ _) as [[rs rest]| |] eqn:Hm; [|done..]. intros Hend HN Hlen.
  apply match_columns_lookup in Hm as [Hall Hrest]; [|done].
  assert (rs = arrays) as -> by (destruct defaults; cbn in Hend; [by injection Hend|]; case_decide; [by injection Hend|done]).
  split.
  - eapply Forall2_impl; [exact Hall|]. intros c r. unfold taken, matches_source, source_of.
    destruct (matching.column_key defaults c) as [k|]; [|done]. cbn. rewrite Hl. by destruct (List.find _ _) as [[? ?]|].
  - intros ->. cbn in Hend. case_decide as Hempty; [|done]. apply Forall_forall. intros f Hf.
    destruct (decide (Field.name f ∈ Column.name <$> columns)) as [|Hn]; [done|exfalso].
    assert (omap (matching.column_key DefaultValue) columns = Column.name <$> columns) as Hnames.
    { clear. induction columns as [|c columns IH]; [done|]. cbn. by rewrite <-IH. }
    specialize (Hrest (Field.name f)). rewrite Hnames, decide_False, Hempty, lookup_empty, Hl in Hrest by done.
    apply list_elem_of_lookup in Hf as [i Hf]. destruct (lookup_lt_is_Some_2 (Batch.columns batch) i) as [a Ha].
    { rewrite <-Hlen. by eapply lookup_lt_Some. }
    assert ((f, a) ∈ zip (Batch.fields batch) (Batch.columns batch)) as Hin.
    { apply list_elem_of_lookup. exists i. apply lookup_zip_with_Some. by exists f, a. }
    symmetry in Hrest. eapply find_none in Hrest; [|by apply list_elem_of_In]. cbn in Hrest. by rewrite bool_decide_true in Hrest.
Qed.

(** What a column of the data type holds for the value: decimals take the scale of
    the column where it is not smaller, other values are held where their own
    physical form reads back. *)
Definition held (dtype : DataType) (type : ArrowType) (v held : Value) : Prop :=
  match dtype, v with
  | DataType.Decimal _ scale, Value.Decimal d =>
      (0 <= decimal_scale d <= scale)%Z /\ (scale < 128)%Z /\
      exists d', from_i128_with_scale (mantissa d * 10 ^ (scale - decimal_scale d)) scale = Some d' /\
        held = Value.Decimal d'
  | _, _ => held = v /\ exists p, Scalar.into_physical dtype v = Ok p /\ Scalar.into_logical dtype type p = Ok v
  end.

(** The rows of a column that is missing in the batch, as the reader of its data
    type gives them *)
Definition filled (defaults : Defaults) (n : nat) (c : Column) (r : ArrayRef) : Prop :=
  array_of (target c) n r /\
  match default_of defaults c with
  | None => ArrayRef.nulls r = replicate n true
  | Some v => forall v', held (Column.dtype c) (target c) v v' ->
      forall i, i < n -> leaf.option_value (Column.dtype c) (ArrayRef.data r) i = Ok (Some v')
  end.

Lemma scalar_leaf v dtype s : broadcast.scalar v dtype = Ok s -> is_Some (leaf_type (ArrayRef.data s)) /\ ArrayRef.len s = 1.
Proof.
  destruct v; cbn [broadcast.scalar]; try (intros [= <-]; by split); try done.
  - pose proof (decimal_array [Some (mantissa d)] 38 (u8_as_i8 (decimal_scale d mod 256))) as H. intros Hs.
    rewrite Hs in H. subst s. split; [by eexists|done].
  - destruct dtype; try done. destruct (physical.timestamp_into_physical _ _); try done. intros [= <-]. by split.
Qed.

(** A row of a leaf array that is repeated *)
Lemma repeated_value d a n p v i : leaf.scalars a = Some [Some p] ->
  Scalar.into_logical d (leaf.array_type a) p = Ok v -> i < n ->
  leaf.option_value d (repeat_first n a) i = Ok (Some v).
Proof.
  intros Ha Hv Hi.
  assert (leaf.scalars (repeat_first n a) = Some (replicate n (Some p)) /\
    leaf.array_type (repeat_first n a) = leaf.array_type a) as [Hs Ht].
  { destruct a as [l|? l|? l|? l|? l|l| | |]; try done; destruct l as [|[x|] [|? ?]]; try done;
      cbn in Ha |- *; injection Ha as <-; by rewrite fmap_replicate. }
  unfold leaf.option_value. rewrite Hs, Ht. cbn [unwrap mbind outcome_bind].
  rewrite lookup_replicate_2 by done. cbn. by rewrite Hv.
Qed.

(** The array a default becomes before it is repeated *)
Lemma scalar_held c v v' s b : held (Column.dtype c) (target c) v v' ->
  broadcast.scalar v (Column.dtype c) = Ok s -> cast false s (target c) = Ok b ->
  is_Some (leaf_type (ArrayRef.data b)) /\ exists p, leaf.scalars (ArrayRef.data b) = Some [Some p] /\
    Scalar.into_logical (Column.dtype c) (leaf.array_type (ArrayRef.data b)) p = Ok v'.
Proof.
  assert (forall s p, broadcast.scalar v (Column.dtype c) = Ok s -> ArrayRef.data_type s = target c ->
    leaf.scalars (ArrayRef.data s) = Some [Some p] ->
    Scalar.into_logical (Column.dtype c) (leaf.array_type (ArrayRef.data s)) p = Ok v' ->
    cast false s (target c) = Ok b -> is_Some (leaf_type (ArrayRef.data b)) /\
      exists p, leaf.scalars (ArrayRef.data b) = Some [Some p] /\
      Scalar.into_logical (Column.dtype c) (leaf.array_type (ArrayRef.data b)) p = Ok v') as Hsame.
  { intros s' p Hs' Hd Hs Hl Hc. rewrite <-Hd, cast_same in Hc. injection Hc as <-.
    split; [by eapply scalar_leaf|by exists p]. }
  unfold target in *. destruct c as [name dtype nl ts i dv id].
  cbn [ArrowSchema.to_arrow_field Column.dtype] in *. rewrite field_data_type in *.
  intros Hheld Hs Hcast.
  destruct dtype as [| | | | | | | | | | | | |prec scale| | | |unit| | | | | | | | |inner|columns|key val]; destruct v;
    cbn in Hheld; try (destruct Hheld as (_ & p & Hp & _); discriminate Hp).
  all: try (destruct Hheld as (-> & p & [= <-] & Hl); injection Hs as <-;
    eapply Hsame; [reflexivity|reflexivity|reflexivity|exact Hl|exact Hcast]).
  - destruct Hheld as (Hscale & Hmax & d' & Hd' & ->).
    assert (forall z, (0 <= z < 128)%Z -> u8_as_i8 z = z) as Hi8 by (intros z Hz; unfold u8_as_i8; case_decide; lia).
    pose proof (decimal_array [Some (mantissa d)] 38 (u8_as_i8 (decimal_scale d mod 256))) as H.
    cbn [broadcast.scalar] in Hs. rewrite Hs in H. subst s. cbn in Hcast.
    rewrite Z.mod_small, !Hi8 in Hcast by lia. apply cast_decimal in Hcast as ->; [|lia]. cbn.
    split; [by eexists|]. eexists. split; [reflexivity|]. cbn. unfold physical.decimal_from_physical. by rewrite Hd'.
  - destruct Hheld as (-> & p & Hp & Hl). cbn in Hs, Hp, Hl.
    destruct (physical.timestamp_into_physical _ _) as [z| |]; [|done..]. injection Hs as <-. injection Hp as <-.
    apply cast_timestamp in Hcast as ->. split; by eexists.
Qed.

Lemma generate_filled defaults n c r : matching.generate_column c n defaults = Ok r -> filled defaults n c r.
Proof.
  intros Hr. pose proof (generate_ends c n defaults) as Hends. rewrite Hr in Hends. split; [exact Hends|].
  assert (match default_of defaults c with
    | Some value => broadcast.broadcast value (Column.dtype c) n
    | None => Ok (new_null_array (Field.data_type (ArrowSchema.to_arrow_field c)) n)
    end = Ok r) as H.
  { revert Hr. unfold matching.generate_column, default_of. destruct defaults; [done|]. by destruct (Column.default_value c). }
  destruct (default_of defaults c) as [v|]; [|injection H as <-; apply new_null_array_of].
  intros v' Hheld i Hi. unfold broadcast.broadcast in H. rewrite (target_new (Column.dtype c) c) in H by done.
  destruct (broadcast.scalar v (Column.dtype c)) as [s| |] eqn:Hs; [|done..]. cbn [mbind outcome_bind] in H.
  destruct (cast false s (target c)) as [b| |] eqn:Hb; [|done..]. cbn [mbind outcome_bind] in H.
  destruct (scalar_held _ _ _ _ _ Hheld Hs Hb) as (Hleaf & p & Hp & Hl).
  rewrite take_repeats in H.
  - injection H as <-. by eapply repeated_value.
  - exact Hleaf.
  - unfold ArrayRef.len. destruct (ArrayRef.data b) as [l|? l|? l|? l|? l|l| | |]; try done;
      destruct l as [|? [|? ?]]; done.
Qed.

Lemma convert_same f a dtype r : matching.convert f a dtype (ArrayRef.data_type a) = Ok r -> r = a.
Proof.
  unfold matching.convert. destruct (ArrowSchema.try_from f); [|done..]. cbn [mbind outcome_bind].
  case_match; [|done]. rewrite ArrowType_eqb_refl. by intros [= <-].
Qed.

Lemma same_type_kept defaults f a c r : matching.match_column defaults f a c = Ok r ->
  ArrayRef.data_type a = target c -> r = a.
Proof.
  destruct c as [name dtype nl ts i v id]. cbn [matching.match_column].
  change (Field.data_type (ArrowSchema.to_arrow_field (DataType.mk_Column name dtype nl ts i v id)))
    with (target (DataType.mk_Column name dtype nl ts i v id)).
  intros H Hd. rewrite <-Hd in H. destruct (matching.is_kept _ _) eqn:Hk; [by injection H|].
  assert (matching.convert f a dtype (ArrayRef.data_type a) = Ok r) as Hc; [|by apply convert_same in Hc].
  rewrite Hd in *. unfold target in *. cbn [ArrowSchema.to_arrow_field] in *. rewrite field_data_type in *.
  destruct dtype; try exact H; cbn [matching.is_kept] in Hk; by rewrite ArrowType_eqb_refl in Hk.
Qed.

(** ** Batches that have the schema *)

Lemma own_field_key defaults c key : matching.column_key defaults c = Some key ->
  matching.field_key defaults (ArrowSchema.to_arrow_field c) = Some key.
Proof.
  destruct c as [name dtype nl ts i v id]. cbn [ArrowSchema.to_arrow_field]. rewrite field_shape.
  destruct defaults; cbn; [|done]. destruct id; [|done]. cbn. intros [= <-]. by rewrite lookup_insert_eq.
Qed.

Lemma source_exists defaults fields arrays :
  NoDup (omap (matching.field_key defaults) fields) -> exists source, matching.source_fields defaults fields arrays = Ok source.
Proof.
  unfold matching.source_fields. intros HN.
  assert (forall k, k ∈ omap (matching.field_key defaults) fields -> (∅ : gmap string (Field * ArrayRef)) !! k = None) as Hfree.
  { intros k _. apply lookup_empty. }
  revert Hfree. generalize (∅ : gmap string (Field * ArrayRef)) as acc. revert arrays HN.
  induction fields as [|f fields IH]; intros arrays HN acc Hfree; [by exists acc|].
  destruct arrays as [|a arrays]; [by exists acc|]. cbn [zip_with fold_outcome].
  cbn in HN, Hfree. destruct (matching.field_key defaults f) as [key|]; [|by apply IH].
  rewrite (Hfree key) by set_solver. cbn [mbind outcome_bind]. apply NoDup_cons in HN as [Hk HN]. apply IH; [done|].
  intros k Hin. rewrite lookup_insert_ne by set_solver. apply Hfree. set_solver.
Qed.

(** An array of the data type of the column is kept. *)
Lemma own_array_kept defaults c a : machine_column c -> ArrayRef.data_type a = target c ->
  matching.match_column defaults (ArrowSchema.to_arrow_field c) a c = Ok a.
Proof.
  intros Hc Hd. destruct c as [name dtype nl ts i v id]. cbn [matching.match_column].
  change (Field.data_type (ArrowSchema.to_arrow_field (DataType.mk_Column name dtype nl ts i v id)))
    with (target (DataType.mk_Column name dtype nl ts i v id)).
  rewrite <-Hd. destruct (matching.is_kept _ _) eqn:Hk; [done|].
  assert (DataTypeOps.is_nested dtype = false ->
    matching.convert (ArrowSchema.to_arrow_field (DataType.mk_Column name dtype nl ts i v id)) a dtype (ArrayRef.data_type a) = Ok a) as Hconv.
  { intros Hleaf. unfold matching.convert. rewrite all_survive by done. cbn [mbind outcome_bind]. rewrite ArrowType_eqb_refl.
    assert (DataType_eqb (Column.dtype (arrow_column (DataType.mk_Column name dtype nl ts i v id))) dtype = true) as ->; [|done].
    destruct dtype; try done; cbn; [by rewrite !Z.eqb_refl|by destruct precision]. }
  rewrite Hd in *. unfold target in *. cbn [ArrowSchema.to_arrow_field] in *. rewrite field_data_type in *.
  destruct dtype; try exact (Hconv eq_refl); cbn [matching.is_kept] in Hk; by rewrite ArrowType_eqb_refl in Hk.
Qed.

Lemma no_nulls_checked c a parent : (Column.nullable c = false -> no_nulls (ArrayRef.nulls a)) ->
  matching.check_nullability c a parent = Ok ().
Proof.
  intros Hn. unfold matching.check_nullability. destruct (Column.nullable c); [done|]. cbn [negb andb].
  replace (existsb id (ArrayRef.nulls a)) with false; [done|]. symmetry.
  specialize (Hn eq_refl). induction Hn as [|b l Hb Hn IH]; [done|]. by subst.
Qed.

Lemma match_columns_own defaults n columns arrays source :
  Forall machine_column columns -> Forall (fun c => is_Some (matching.column_key defaults c)) columns ->
  NoDup (omap (matching.column_key defaults) columns) ->
  Forall2 (fun c a => ArrayRef.data_type a = target c /\
    forall key, matching.column_key defaults c = Some key -> source !! key = Some (ArrowSchema.to_arrow_field c, a)) columns arrays ->
  exists rest, matching.match_columns (matching.match_column defaults) n defaults columns source = Ok (arrays, rest).
Proof.
  intros Hm Hk HN Ha. revert arrays source HN Ha. induction Hm as [|c columns Hc Hm IH]; intros arrays source HN Ha.
  { inv Ha. by exists source. }
  apply Forall2_cons_inv_l in Ha as (a & arrays' & [Hd Hs] & Ha & ->). apply Forall_cons in Hk as [[key Hkey] Hk].
  cbn [matching.match_columns]. cbv zeta. cbn in HN. rewrite Hkey in *. cbn [mbind option_bind].
  rewrite (Hs key) by done. rewrite own_array_kept by done. cbn [mbind outcome_bind].
  apply NoDup_cons in HN as [Hfresh HN].
  destruct (IH Hk arrays' (delete key source) HN) as [rest ->]; [|by exists rest].
  clear -Ha Hfresh. induction Ha as [|c a columns arrays [Hd Hs] Ha IH]; constructor.
  - split; [done|]. intros key' Hkey'. rewrite lookup_delete_ne; [by apply Hs|]. intros ->. cbn in Hfresh. rewrite Hkey' in Hfresh. set_solver.
  - apply IH. cbn in Hfresh. destruct (matching.column_key defaults c); set_solver.
Qed.

Lemma find_own defaults (columns : list Column) (arrays : list ArrayRef) i (c : Column) (a : ArrayRef) key :
  NoDup (omap (matching.column_key defaults) columns) -> Forall (fun c => is_Some (matching.column_key defaults c)) columns ->
  columns !! i = Some c -> arrays !! i = Some a -> matching.column_key defaults c = Some key ->
  List.find (fun fa => bool_decide (matching.field_key defaults fa.1 = Some key))
    (zip (ArrowSchema.to_arrow_field <$> columns) arrays) = Some (ArrowSchema.to_arrow_field c, a).
Proof.
  revert arrays i. induction columns as [|c0 columns IH]; intros [|a0 arrays] i HN Hk Hc Ha Hkey; [done..|].
  apply Forall_cons in Hk as [[k0 Hk0] Hk]. cbn in HN. rewrite Hk0 in HN. apply NoDup_cons in HN as [Hfresh HN].
  cbn [fmap list_fmap zip_with List.find fst]. rewrite (own_field_key _ _ _ Hk0). destruct i as [|i].
  - injection Hc as ->. injection Ha as ->. rewrite Hkey in Hk0. injection Hk0 as ->. by rewrite bool_decide_true.
  - rewrite bool_decide_false; [by apply (IH _ i)|]. intros [= ->]. apply Hfresh. apply list_elem_of_omap. exists c.
    split; [by eapply list_elem_of_lookup_2|done].
Qed.

Lemma own_keys defaults columns : Forall (fun c => is_Some (matching.column_key defaults c)) columns ->
  omap (matching.field_key defaults) (ArrowSchema.to_arrow_field <$> columns) = omap (matching.column_key defaults) columns.
Proof.
  induction 1 as [|c columns [k Hk] H IH]; [done|]. cbn. rewrite Hk, (own_field_key _ _ _ Hk). by rewrite <-IH.
Qed.

Lemma match_fields_own defaults n columns arrays :
  Forall machine_column columns -> Forall (fun c => is_Some (matching.column_key defaults c)) columns ->
  NoDup (omap (matching.column_key defaults) columns) ->
  Forall2 (fun c a => ArrayRef.data_type a = target c) columns arrays ->
  matching.match_fields (matching.match_column defaults) (ArrowSchema.to_arrow_field <$> columns) arrays columns n defaults = Ok arrays.
Proof.
  intros Hm Hk HN Ha. unfold matching.match_fields.
  destruct (source_exists defaults (ArrowSchema.to_arrow_field <$> columns) arrays) as [source Hs]; [by rewrite own_keys|].
  rewrite Hs. cbn [mbind outcome_bind]. pose proof (source_lookup _ _ _ _ Hs) as Hl.
  destruct (match_columns_own defaults n columns arrays source) as [rest Hr]; [done..| |].
  { apply Forall2_same_length_lookup_2; [by eapply Forall2_length|]. intros i c a Hc Hai. split; [by eapply Forall2_lookup_lr in Ha|].
    intros key Hkey. rewrite Hl. by eapply find_own. }
  rewrite Hr. cbn [mbind outcome_bind]. destruct defaults; [done|]. rewrite decide_True; [done|].
  apply match_columns_lookup in Hr as [_ Hrest]; [|done]. apply map_eq. intros k. rewrite lookup_empty, Hrest.
  case_decide as Hin; [done|]. rewrite Hl. destruct (List.find _ _) as [[f a]|] eqn:Hf; [|done]. exfalso.
  apply find_some in Hf as [Hf Hkf]. apply bool_decide_eq_true in Hkf. cbn [fst] in Hkf. apply Hin.
  rewrite <-own_keys by done. apply list_elem_of_omap. exists f. split; [|done].
  apply list_elem_of_In, list_elem_of_lookup in Hf as [i Hf]. apply lookup_zip_with_Some in Hf as (f' & a' & [= <- <-] & Hf & _).
  by eapply list_elem_of_lookup_2.
Qed.

(** C40: a batch that has the schema is returned as it is: reading what was written
    with the current schema, or writing a batch with the columns of the table,
    neither converts, reorders nor copies a row. Every column has a key - field IDs
    when data is read - and the keys are distinct. *)
Theorem own_batches_are_unchanged (batch : Batch.t) (schema : Schema) (defaults : Defaults)
    (Hbatch : valid_batch batch) (Hfields : Batch.fields batch = ArrowSchema.to_arrow schema)
    (Hmachine : Forall machine_column (Schema.columns schema).*2)
    (Hkeys : Forall (fun c => is_Some (matching.column_key defaults c)) (Schema.columns schema).*2)
    (HN : NoDup (omap (matching.column_key defaults) (Schema.columns schema).*2)) :
  matching.match_to_schema batch schema defaults = Ok batch.
Proof.
  unfold matching.match_to_schema.
  assert (Batch.fields batch = ArrowSchema.to_arrow_field <$> (Schema.columns schema).*2) as Hf.
  { rewrite Hfields. unfold ArrowSchema.to_arrow. by rewrite <-list_fmap_compose. }
  assert (Forall2 (fun c => conforms (Batch.num_rows batch) (ArrowSchema.to_arrow_field c)) (Schema.columns schema).*2 (Batch.columns batch)) as Hc.
  { unfold valid_batch in Hbatch. rewrite Hf in Hbatch. exact (proj1 (Forall2_fmap_l _ _ _ _) Hbatch). }
  rewrite Hf, match_fields_own; [|done..|]; cbn [mbind outcome_bind].
  - assert (matching.check_all (Schema.columns schema).*2 (Batch.columns batch) None = Ok ()) as ->.
    { clear -Hc. induction Hc as [|c a columns arrays [_ Hn] Hc IH]; [done|]. cbn [matching.check_all].
      rewrite no_nulls_checked by by rewrite <-arrow_field_nullable. exact IH. }
    cbn [mbind outcome_bind]. rewrite <-Hfields, batch_try_new_spec by done. by destruct batch.
  - eapply Forall2_impl; [exact Hc|]. by intros c a [(? & _) _].
Qed.

(** C39: columns follow their key, the field ID when data is read and the name when it
    is written. In a matched batch each column of the schema holds the rows of the
    field with its key, converted by [match_column] - unchanged when the data type
    is the same, so that a renamed or moved column keeps its data. A column without
    such a field has its data type and holds its default in every row - what the
    reader of the data type gives is the default, for instants of every precision and
    decimals scaled to the column too ([held]) - or nulls without a default. Nothing
    that is written is dropped: every field of the batch is a column of the schema.
    The keys of the columns are distinct. *)
Theorem columns_follow_their_key (batch : Batch.t) (schema : Schema) (defaults : Defaults) (matched : Batch.t)
    (Hbatch : valid_batch batch)
    (Hkeys : NoDup (omap (matching.column_key defaults) (Schema.columns schema).*2))
    (Hmatched : matching.match_to_schema batch schema defaults = Ok matched) :
  Forall2 (fun c r =>
    match source_of defaults batch c with
    | Some (f, a) =>
        matching.match_column defaults f a c = Ok r /\ (ArrayRef.data_type a = target c -> r = a)
    | None => filled defaults (Batch.num_rows batch) c r
    end) (Schema.columns schema).*2 (Batch.columns matched) /\
  (defaults = DefaultValue ->
   Forall (fun f => Field.name f ∈ Column.name <$> (Schema.columns schema).*2) (Batch.fields batch)).
Proof.
  pose proof (match_to_schema_ends batch schema defaults Hbatch) as Hok. rewrite Hmatched in Hok.
  destruct Hok as (_ & _ & _ & Hfields). apply match_fields_lookup in Hfields as [Hall Hused]; [|done|by apply Forall2_length in Hbatch].
  split; [|exact Hused]. eapply Forall2_impl; [exact Hall|]. intros c r Hr. unfold matches_source in Hr.
  destruct (source_of defaults batch c) as [[f a]|] eqn:E.
  - split; [done|]. by eapply same_type_kept.
  - by apply generate_filled.
Qed.
End MatchingFacts.

(** ** Kernels that satisfy the laws: arrays are gathered, 32-bit integers widened *)

Module demo_kernels.
Definition gather (indices : list nat) (a : Array) : result Array :=
  let at_indices {A} (l : list (option A)) : list (option A) := (fun i => default None (l !! i)) <$> indices in
  match a with
  | Array.Booleans l => Ok (Array.Booleans (at_indices l))
  | Array.Ints d l => Ok (Array.Ints d (at_indices l))
  | Array.Floats d l => Ok (Array.Floats d (at_indices l))
  | Array.Strings d l => Ok (Array.Strings d (at_indices l))
  | Array.Bytes d l => Ok (Array.Bytes d (at_indices l))
  | Array.Intervals l => Ok (Array.Intervals (at_indices l))
  | _ => Err (Arrow "nested arrays are not gathered")
  end.

Definition convert (a : ArrayRef) (d : ArrowType) : result ArrayRef :=
  if ArrowType_eqb (ArrayRef.data_type a) d then Ok a
  else
    match ArrayRef.data_type a, d, ArrayRef.data a with
    | ArrowType.Int32, ArrowType.Int64, Array.Ints ArrowType.Int32 l =>
        Ok (ArrayRef.mk ArrowType.Int64 (Array.Ints ArrowType.Int64 l))
    | ArrowType.Int64, ArrowType.Timestamp _ _, Array.Ints ArrowType.Int64 l => Ok (ArrayRef.mk d (Array.Ints d l))
    | ArrowType.Decimal128 _ s, ArrowType.Decimal128 _ s', Array.Ints (ArrowType.Decimal128 _ _) l =>
        if decide (s <= s')%Z
        then Ok (ArrayRef.mk d (Array.Ints d (fmap (M := option) (fun z => z * 10 ^ (s' - s))%Z <$> l)))
        else Err (Arrow "unsupported cast")
    | _, _, _ => Err (Arrow "unsupported cast")
    end.

Fixpoint null_array (d : ArrowType) (n : nat) {struct d} : Array :=
  match d with
  | ArrowType.Boolean => Array.Booleans (replicate n None)
  | ArrowType.Float32 | ArrowType.Float64 => Array.Floats d (replicate n None)
  | ArrowType.Utf8 | ArrowType.LargeUtf8 | ArrowType.Utf8View => Array.Strings d (replicate n None)
  | ArrowType.Binary | ArrowType.LargeBinary | ArrowType.BinaryView | ArrowType.FixedSizeBinary _ =>
      Array.Bytes d (replicate n None)
  | ArrowType.Interval _ => Array.Intervals (replicate n None)
  | ArrowType.Null | ArrowType.Other _ => ArrayRef.null_data n
  | ArrowType.Struct fields =>
      Array.Struct (replicate n false)
        ((fix go (fields : list Field) : list Array :=
            match fields with [] => [] | ArrowType.mk_Field _ d _ _ :: fields => null_array d n :: go fields end) fields)
  | ArrowType.List (ArrowType.mk_Field _ d _ _) | ArrowType.LargeList (ArrowType.mk_Field _ d _ _) =>
      Array.List (replicate (S n) 0) (replicate n false) (null_array d 0)
  | ArrowType.Map (ArrowType.mk_Field _ entries _ _) _ =>
      match entries with
      | ArrowType.Struct [ArrowType.mk_Field _ dk _ _; ArrowType.mk_Field _ dv _ _] =>
          Array.Map (replicate (S n) 0) (replicate n false) (null_array dk 0) (null_array dv 0)
      | _ => ArrayRef.null_data n
      end
  | d => Array.Ints d (replicate n None)
  end.
End demo_kernels.

#[export] Instance demo_kernels : Kernels := {|
  decimal_scale _ := 0%Z;
  with_precision_and_scale l p s := Ok (ArrayRef.mk (ArrowType.Decimal128 p s) (Array.Ints (ArrowType.Decimal128 p s) l));
  cast _ := demo_kernels.convert;
  take a indices :=
    if decide (Forall (fun i => i < ArrayRef.len a) indices)
    then ArrayRef.mk (ArrayRef.data_type a) <$> demo_kernels.gather indices (ArrayRef.data a)
    else Panic;
  new_null_array d n := ArrayRef.mk d (demo_kernels.null_array d n);
  struct_try_new fields arrays valid _ := Ok (ArrayRef.mk (ArrowType.Struct fields) (Array.Struct valid (ArrayRef.data <$> arrays)));
  list_try_new f offsets values valid := Ok (ArrayRef.mk (ArrowType.LargeList f) (Array.List offsets valid (ArrayRef.data values)));
  map_try_new f offsets entries valid sorted :=
    match ArrayRef.data entries with
    | Array.Struct _ [keys; values] => Ok (ArrayRef.mk (ArrowType.Map f sorted) (Array.Map offsets valid keys values))
    | _ => Err (Arrow "entries of a map are pairs")
    end;
  batch_try_new fields arrays n := Ok (Batch.mk fields arrays n);
|}.

Lemma gather_type indices a b : demo_kernels.gather indices a = Ok b -> leaf_type b = leaf_type a /\ Array.len b = length indices.
Proof. destruct a; cbn; try done; intros [= <-]; split; try done; apply length_fmap. Qed.

Lemma typed_leaf d a b : leaf_type b = leaf_type a -> (exists indices, demo_kernels.gather indices a = Ok b) -> typed d a -> typed d b.
Proof.
  intros Hl [indices Hg]. destruct d; cbn [typed]; rewrite ?Hl; try done.
  - by destruct a.
  - destruct inner. by destruct a.
  - destruct inner. by destruct a.
  - by destruct a.
  - destruct entries as [n d nl m]. destruct d; try done. destruct fields as [|[] [|[] [|? ?]]]; try done. by destruct a.
Qed.

Lemma null_array_len d n : Array.len (demo_kernels.null_array d n) = n /\
  ArrayRef.nulls_of (demo_kernels.null_array d n) = replicate n true.
Proof.
  assert (forall A, (ArrayRef.none (A := A)) <$> replicate n None = replicate n true) as H1 by (intros A; by rewrite fmap_replicate).
  assert (negb <$> replicate n false = replicate n true) as H2 by by rewrite fmap_replicate.
  destruct d as [| | | | | | | | | | | | | | |u tz|i| | | | | | |size|f|f|l|f s|f m|f|f|k v|o]; cbn [demo_kernels.null_array]; try (destruct f as [? d ? ?]);
    try (cbn; rewrite ?length_replicate; by rewrite ?H1, ?H2).
  destruct d as [| | | | | | | | | | | | | | | | | | | | | | | | | |l| | | | | |]; try (cbn; rewrite ?length_replicate; by rewrite ?H1, ?H2).
  destruct l as [|[] [|[] [|? ?]]]; cbn; rewrite ?length_replicate; by rewrite ?H1, ?H2.
Qed.

Lemma null_struct fields n : demo_kernels.null_array (ArrowType.Struct fields) n =
  Array.Struct (replicate n false) (ArrayRef.data <$>
    ((fun f => ArrayRef.mk (Field.data_type f) (demo_kernels.null_array (Field.data_type f) n)) <$> fields)).
Proof. cbn. f_equal. induction fields as [|[? d ? ?] fields IH]; [done|]. cbn. by rewrite <-IH. Qed.

Lemma null_struct_typed fields n :
  Forall (fun f => typed (Field.data_type f) (demo_kernels.null_array (Field.data_type f) n)) fields ->
  typed (ArrowType.Struct fields) (demo_kernels.null_array (ArrowType.Struct fields) n).
Proof.
  intros H. rewrite null_struct. apply struct_typed. induction H as [|f fields Hf H IH]; constructor; [|exact IH].
  destruct (null_array_len (Field.data_type f) n) as [Hlen Hnulls]. split.
  - split_and!; [done|done|]. etrans; [exact Hlen|]. by rewrite length_fmap, length_replicate.
  - intros _. unfold ArrayRef.nulls. cbn [ArrayRef.data]. rewrite Hnulls, fmap_replicate. apply Forall2_replicate. by intros _.
Qed.

Lemma null_array_typed c n :
  typed (target (EXT := demo_external) (EXTENSIONS := demo_extensions) c) (demo_kernels.null_array (target c) n).
Proof.
  revert c n. fix IH 1. intros [name dtype nl ts i v id] n.
  destruct dtype as [| | | | | | | | | | | | |p q| | | |pr| | | | | | | | |inner|columns|key val];
    try (unfold target; cbn [ArrowSchema.to_arrow_field]; rewrite field_data_type; reflexivity).
  - unfold target. cbn [ArrowSchema.to_arrow_field]. rewrite field_data_type. apply null_struct_typed. by repeat constructor.
  - rewrite target_list. pose proof (IH inner 0) as Hin. unfold target in Hin.
    destruct (null_array_len (target inner) 0) as [_ Hnulls]. unfold target in Hnulls.
    destruct (ArrowSchema.to_arrow_field inner) as [? d ? ?]. cbn [Field.data_type] in *. cbn. split_and!; [by rewrite !length_replicate| |done|].
    + constructor; [lia|]. apply Forall_replicate. lia.
    + intros _. rewrite Hnulls. constructor.
  - rewrite target_struct. apply null_struct_typed. apply Forall_fmap. induction columns as [|c columns IHc]; constructor; [exact (IH c n)|exact IHc].
  - rewrite target_map. pose proof (IH key 0) as Hk. pose proof (IH val 0) as Hv. unfold target in Hk, Hv.
    destruct (null_array_len (target key) 0) as [Hlk Hnk]. destruct (null_array_len (target val) 0) as [Hlv Hnv]. unfold target in *.
    destruct (ArrowSchema.to_arrow_field key) as [? dk ? ?], (ArrowSchema.to_arrow_field val) as [? dv ? ?].
    cbn [Field.data_type] in *. cbn. split_and!; [by rewrite !length_replicate| |by rewrite Hlk, Hlv|done| |done|].
    + constructor; [lia|]. apply Forall_replicate. lia.
    + intros _. rewrite Hnk. constructor.
    + intros _. rewrite Hnv. constructor.
Qed.

#[export] Instance demo_kernel_laws : KernelLaws (H := demo_external).
Proof.
  split.
  - intros safe a d Ha. cbn [cast demo_kernels]. unfold demo_kernels.convert.
    destruct (ArrowType_eqb _ d) eqn:E; [apply ArrowType_eqb_eq in E; subst; by split_and!|].
    destruct a as [d0 a]. cbn [ArrayRef.data_type ArrayRef.data] in *.
    destruct d0; try done; destruct d; try done; destruct a as [|d l| | | | | | |]; try done; try (by destruct d).
    destruct d; try done. case_decide; [|done]. split_and!; [done..|]. apply length_fmap.
  - intros safe a. cbn [cast demo_kernels]. unfold demo_kernels.convert. by rewrite ArrowType_eqb_refl.
  - intros safe l unit zone r. cbn. by intros [= <-].
  - intros l p s p' s' r Hs. cbn [cast demo_kernels]. unfold demo_kernels.convert. cbn [ArrayRef.data_type ArrayRef.data].
    destruct (ArrowType_eqb _ _) eqn:E.
    + apply ArrowType_eqb_eq in E as [= -> ->]. intros [= <-]. f_equal. f_equal. rewrite Z.sub_diag.
      rewrite <-(list_fmap_id l) at 1. apply list_fmap_ext. intros _ [z|] _; [|done]. cbn. f_equal. lia.
    + rewrite decide_True by done. by intros [= <-].
  - intros a indices Ha Hindices. cbn [take demo_kernels]. rewrite decide_True by done. destruct (demo_kernels.gather _ _) as [b| |] eqn:E; [|done|by destruct (ArrayRef.data a)].
    cbn. destruct (gather_type _ _ _ E) as [Hl Hlen]. split_and!; [done| |done]. cbn. by eapply typed_leaf; eauto.
  - intros a n Hleaf Hlen. cbn [take demo_kernels]. rewrite decide_True by (rewrite Hlen; apply Forall_replicate; lia).
    destruct a as [d a]. cbn [ArrayRef.data_type ArrayRef.data] in *.
    destruct a as [l|? l|? l|? l|? l|l| | |]; try (by destruct Hleaf); destruct l as [|x [|? ?]]; try done; cbn; by rewrite fmap_replicate.
  - done.
  - intros c n d. destruct (null_array_len d n) as [H1 H2]. split; [split_and!; [done|apply null_array_typed|done]|done].
  - done.
  - done.
  - intros. cbn. by subst.
  - done.
Qed.

(** ** A table whose columns were renamed, moved, promoted and added *)

Module evolution.
Definition column (name : string) (dtype : DataType) (nullable : bool) (initial : option Value) (id : Z) : Column :=
  DataType.mk_Column name dtype nullable ∅ initial (ColumnDefault.Literal initial) (Some id).
Definition schema (columns : list Column) : Schema := Schema.mk ((fun c => (Column.name c, c)) <$> columns).

Definition written : Schema := schema
  [column "a" DataType.Int32 false None 1;
   column "s" (DataType.Struct [column "b" DataType.Varchar true None 3]) true None 2].
Definition current : Schema := schema
  [column "t" (DataType.Struct [column "n" DataType.Int64 true None 5; column "c" DataType.Varchar true None 3]) true None 2;
   column "a" DataType.Int64 false None 1;
   column "d" DataType.Int64 true (Some (Value.Int64 42)) 4;
   column "at" (DataType.Timestamp Seconds) true (Some (Value.Timestamp (5000000000%Z : NaiveDateTime))) 6;
   column "price" (DataType.Decimal 10 2) true (Some (Value.Decimal (3%Z : Decimal))) 7].

Definition batch : Batch.t := Batch.mk (ArrowSchema.to_arrow written)
  [ArrayRef.mk ArrowType.Int32 (Array.Ints ArrowType.Int32 [Some 7; Some 8]%Z);
   ArrayRef.mk (target (column "s" (DataType.Struct [column "b" DataType.Varchar true None 3]) true None 2))
     (Array.Struct [true; false] [Array.Strings ArrowType.Utf8View [Some "x"; None]])] 2.
Definition read : Batch.t := Batch.mk (ArrowSchema.to_arrow current)
  [ArrayRef.mk (target (column "t" (DataType.Struct [column "n" DataType.Int64 true None 5; column "c" DataType.Varchar true None 3]) true None 2))
     (Array.Struct [true; false] [Array.Ints ArrowType.Int64 [None; None]; Array.Strings ArrowType.Utf8View [Some "x"; None]]);
   ArrayRef.mk ArrowType.Int64 (Array.Ints ArrowType.Int64 [Some 7; Some 8]%Z);
   ArrayRef.mk ArrowType.Int64 (Array.Ints ArrowType.Int64 [Some 42; Some 42]%Z);
   ArrayRef.mk (ArrowType.Timestamp Second None) (Array.Ints (ArrowType.Timestamp Second None) [Some 5; Some 5]%Z);
   ArrayRef.mk (ArrowType.Decimal128 10 2) (Array.Ints (ArrowType.Decimal128 10 2) [Some 300; Some 300]%Z)] 2.

Lemma batch_valid : valid_batch batch.
Proof. repeat first [done | constructor | intros ?]. Qed.

Lemma written_machine : Forall machine_column (Schema.columns written).*2.
Proof. repeat apply Forall_cons_2; [..|constructor]; cbn; repeat split; vm_compute; discriminate. Qed.

(** The defaults of the columns that were added are held, the price in cents. *)
Lemma defaults_held :
  held (DataType.Timestamp Seconds) (ArrowType.Timestamp Second None)
    (Value.Timestamp (5000000000%Z : NaiveDateTime)) (Value.Timestamp (5000000000%Z : NaiveDateTime)) /\
  held (DataType.Decimal 10 2) (ArrowType.Decimal128 10 2)
    (Value.Decimal (3%Z : Decimal)) (Value.Decimal (300%Z : Decimal)).
Proof. split; [split; [done|]; by eexists|]. split_and!; [done..|]. by eexists. Qed.

Lemma batch_read : matching.match_to_schema batch current InitialDefault = Ok read.
Proof. vm_compute. reflexivity. Qed.
End evolution.

Lemma matched_batches_conform_witness :
  matching.match_to_schema evolution.batch evolution.current InitialDefault = Ok evolution.read /\ valid_batch evolution.read.
Proof.
  pose proof (proj2 (matched_batches_conform evolution.batch evolution.current InitialDefault evolution.batch_valid)) as H.
  rewrite evolution.batch_read in H. by destruct H as (_ & _ & ?).
Defined.

Lemma columns_follow_their_key_witness :
  length (Batch.columns evolution.read) = 5 /\
  Forall2 (fun c r =>
    match source_of InitialDefault evolution.batch c with
    | Some (f, a) => matching.match_column InitialDefault f a c = Ok r /\ (ArrayRef.data_type a = target c -> r = a)
    | None => filled InitialDefault 2 c r
    end) (Schema.columns evolution.current).*2 (Batch.columns evolution.read).
Proof.
  split; [done|].
  refine (proj1 (columns_follow_their_key evolution.batch evolution.current InitialDefault evolution.read
    evolution.batch_valid _ evolution.batch_read)).
  apply (bool_decide_unpack _). vm_compute. exact I.
Defined.

Lemma own_batches_are_unchanged_witness :
  matching.match_to_schema evolution.batch evolution.written InitialDefault = Ok evolution.batch /\
  matching.match_to_schema evolution.batch evolution.written DefaultValue = Ok evolution.batch.
Proof.
  split; (apply own_batches_are_unchanged;
    [exact evolution.batch_valid|reflexivity|exact evolution.written_machine|repeat constructor; by eexists|
     apply (bool_decide_unpack _); vm_compute; exact I]).
Defined.
