(* ===== verification/Paths.v ===== *)
(** * Paths of files and their object stores ([io/path.rs])

    A path is resolved to a place in a file system or a bucket; the object stores
    of the places are built once per process and configuration. *)

From S2P Require Import Prelude Text Regex Identifier Types Instances.

(** [url], the object store's own paths, the working directory and the configuration
    keys of the providers *)
Inductive Provider : Type := S3 | GCS | Azure.
#[export] Instance Provider_eq_dec : EqDecision Provider.
Proof. solve_decision. Defined.

(** What is set on the builder of a store, in order *)
Inductive Setting : Type :=
  | ClientOptions (timeout_secs : Z) (allow_http : bool)
  | BucketName (name : string)
  | ContainerName (name : string)
  | AllowHttp (b : bool)
  | Config (key value : string).

Class StoreEnvironment `{External} : Type := {
  url_scheme : Url -> string;
  url_host_str : Url -> option string;
  url_to_file_path : Url -> option string;
  current_dir : option string;
  ObjectStorePath : Type;
  object_store_path_text : ObjectStorePath -> string;
  from_absolute_path : string -> option ObjectStorePath;
  object_store_path_parse : string -> option ObjectStorePath;
  to_lowercase : string -> string;
  config_key : Provider -> string -> option string;
  ObjectStore : Type;
  local_file_system : ObjectStore;
  build_store : Provider -> list Setting -> option ObjectStore;
}.

Module Path.
Section Path.
Context `{EXT : External} `{STORES : !StoreEnvironment}.

Inductive t : Type :=
  | Local (path : string)
  | S3 (bucket path : string)
  | GCS (bucket path : string)
  | Azure (container path : string).

Definition new (url : Url) : result t :=
  if decide (url_scheme url = "file") then Local <$> unwrap (url_to_file_path url)
  else if decide (url_scheme url = "s3") then
    bucket ← unwrap (url_host_str url); mret (S3 bucket (url_path url))
  else if decide (url_scheme url = "gs") then
    bucket ← unwrap (url_host_str url); mret (GCS bucket (url_path url))
  else if decide (url_scheme url = "az" \/ url_scheme url = "abfs") then
    container ← unwrap (url_host_str url); mret (Azure container (url_path url))
  else Err (UnsupportedUrlScheme (url_scheme url)).

(** [DucklakePath::resolve] *)
Definition resolve (p : DucklakePath) : result t :=
  url ← match p with
        | DucklakePath.Absolute url => Ok url
        | DucklakePath.Relative path =>
            unwrap (url_from_file_path (default "" current_dir +:+ "/" +:+ path))
        end;
  new url.

Definition path (self : t) : result ObjectStorePath :=
  match self with
  | Local path => unwrap (from_absolute_path path)
  | S3 _ path | GCS _ path | Azure _ path => unwrap (object_store_path_parse path)
  end.

Definition display_location (self : t) (location : ObjectStorePath) : string :=
  match self with
  | Local _ => "/" +:+ object_store_path_text location
  | S3 bucket _ => "s3://" +:+ bucket +:+ "/" +:+ object_store_path_text location
  | GCS bucket _ => "gs://" +:+ bucket +:+ "/" +:+ object_store_path_text location
  | Azure container _ => "az://" +:+ container +:+ "/" +:+ object_store_path_text location
  end.
End Path.
End Path.

(** Options whose key is no configuration key of the provider are discarded. *)
Definition parse_config_options `{StoreEnvironment} (provider : Provider) (options : option (list (string * string)))
    : list (string * string) :=
  match options with
  | Some options => omap (fun '(key, value) => (fun k => (k, value)) <$> config_key provider (to_lowercase key)) options
  | None => []
  end.

(** ** The cache of object stores: a process-wide map behind a mutex, which is
    poisoned by a panic while it is held *)

Module ObjectStoreCacheKey.
Inductive t : Type :=
  | Local
  | S3 (bucket : string) (options : list (string * string))
  | GCS (bucket : string) (options : list (string * string))
  | Azure (container : string) (options : list (string * string)).
#[export] Instance eq_dec : EqDecision t.
Proof. solve_decision. Defined.
End ObjectStoreCacheKey.
#[export] Existing Instance ObjectStoreCacheKey.eq_dec.
Abbreviation ObjectStoreCacheKey := ObjectStoreCacheKey.t.

Module StoreCache.
Section StoreCache.
Context `{EXT : External} `{STORES : !StoreEnvironment}.

Record t : Type := mk { poisoned : bool; stores : list (ObjectStoreCacheKey * ObjectStore) }.

Definition build (key : ObjectStoreCacheKey) : option ObjectStore :=
  let configs options := (fun '(k, v) => Config k v) <$> options in
  match key with
  | ObjectStoreCacheKey.Local => Some local_file_system
  | ObjectStoreCacheKey.S3 bucket options =>
      build_store S3 ([ClientOptions 300 false; BucketName bucket; AllowHttp true] ++ configs options)
  | ObjectStoreCacheKey.GCS bucket options =>
      build_store GCS ([ClientOptions 300 true; BucketName bucket] ++ configs options)
  | ObjectStoreCacheKey.Azure container options =>
      build_store Azure ([ClientOptions 300 false; ContainerName container; AllowHttp true] ++ configs options)
  end.

(** The lock is taken first and held until the store is built. *)
Definition get_cached_object_store (key : ObjectStoreCacheKey) : method t ObjectStore := fun cache =>
  if poisoned cache then (Panic, cache)
  else
    match IndexMap.get key (stores cache) with
    | Some store => (Ok store, cache)
    | None =>
        match build key with
        | Some store => (Ok store, mk false (IndexMap.insert key store (stores cache)))
        | None => (Panic, mk true (stores cache))
        end
    end.

Definition cache_key (path : Path.t) (options : option (list (string * string))) : ObjectStoreCacheKey :=
  match path with
  | Path.Local _ => ObjectStoreCacheKey.Local
  | Path.S3 bucket _ => ObjectStoreCacheKey.S3 bucket (parse_config_options S3 options)
  | Path.GCS bucket _ => ObjectStoreCacheKey.GCS bucket (parse_config_options GCS options)
  | Path.Azure container _ => ObjectStoreCacheKey.Azure container (parse_config_options Azure options)
  end.

(** [Path::object_store] *)
Definition object_store (path : Path.t) (options : option (list (string * string))) : method t ObjectStore :=
  get_cached_object_store (cache_key path options).
End StoreCache.
End StoreCache.

(** ** What the cache guarantees *)

Section Facts.
Context `{EXT : External} `{STORES : !StoreEnvironment}.

(** Requests of the process, one after the other *)
Fixpoint serve (keys : list ObjectStoreCacheKey) (cache : StoreCache.t) : list (result ObjectStore) * StoreCache.t :=
  match keys with
  | [] => ([], cache)
  | key :: keys =>
      let '(r, cache) := StoreCache.get_cached_object_store key cache in
      let '(rs, cache) := serve keys cache in (r :: rs, cache)
  end.

Definition one_store_per_key (cache : StoreCache.t) : Prop := NoDup (StoreCache.stores cache).*1.

(** What a request leaves: the result is the cached store, or the lock is poisoned. *)
Definition answered (cache : StoreCache.t) (key : ObjectStoreCacheKey) (r : result ObjectStore) : Prop :=
  match r with
  | Ok store => IndexMap.get key (StoreCache.stores cache) = Some store
  | Err _ => False
  | Panic => StoreCache.poisoned cache = true
  end.
Definition grown (before after : StoreCache.t) : Prop :=
  (exists added, StoreCache.stores after = StoreCache.stores before ++ added) /\
  (StoreCache.poisoned before = true -> StoreCache.poisoned after = true).

#[export] Instance grown_trans : Transitive grown.
Proof.
  intros a b c [[l Hl] H1] [[l' Hl'] H2]. split; [|auto]. exists (l ++ l'). by rewrite Hl', Hl, app_assoc.
Qed.

Lemma get_cached_spec key cache : one_store_per_key cache ->
  let '(r, cache') := StoreCache.get_cached_object_store key cache in
  one_store_per_key cache' /\ grown cache cache' /\ answered cache' key r.
Proof.
  intros Hc. unfold StoreCache.get_cached_object_store. destruct (StoreCache.poisoned cache) eqn:Hp.
  { split; [done|]. split; [split; [by exists []; rewrite app_nil_r|done]|done]. }
  destruct (IndexMap.get key (StoreCache.stores cache)) as [store|] eqn:Hget.
  { split; [done|]. split; [split; [by exists []; rewrite app_nil_r|by rewrite Hp]|done]. }
  assert (key ∉ (StoreCache.stores cache).*1) as Hfresh by by apply IndexMap.get_None.
  destruct (StoreCache.build key) as [store|].
  - unfold one_store_per_key, grown, answered. cbn. rewrite IndexMap.insert_fresh by done. split.
    + rewrite fmap_app. apply NoDup_app. split; [done|]. split; [set_solver|apply NoDup_singleton].
    + split; [split; [by eexists|by rewrite Hp]|]. rewrite IndexMap.get_app, Hget. cbn. by rewrite decide_True.
  - split; [done|]. split; [split; [by exists []; rewrite app_nil_r|done]|done].
Qed.

Lemma answered_grown before after key r : grown before after -> answered before key r -> answered after key r.
Proof.
  intros [[added Hs] Hp]. destruct r; cbn; [|done|done]. intros Hget. by rewrite Hs, IndexMap.get_app, Hget.
Qed.

Lemma serve_poisoned keys cache : StoreCache.poisoned cache = true -> (serve keys cache).1 = replicate (length keys) Panic.
Proof.
  intros Hp. induction keys as [|key keys IH]; [done|]. cbn. unfold StoreCache.get_cached_object_store. rewrite Hp.
  destruct (serve keys cache) as [rs cache'] eqn:E. cbn in *. by rewrite IH.
Qed.

(** Object stores are shared. However many paths a process opens, it has one
    object store per bucket and configuration: stores are only added to the cache,
    never replaced, and every request is answered with the cached store of its key.
    The exception is a store that cannot be built: that request panics while it
    holds the lock, and every request after it panics as well. *)
Theorem object_stores_are_shared (keys : list ObjectStoreCacheKey) (cache : StoreCache.t)
    (Hcache : one_store_per_key cache) :
  let '(rs, cache') := serve keys cache in
  one_store_per_key cache' /\ grown cache cache' /\ Forall2 (answered cache') keys rs /\
  (StoreCache.poisoned cache = true -> rs = replicate (length keys) Panic).
Proof.
  pose proof (serve_poisoned keys cache) as Hpoisoned. revert cache Hcache Hpoisoned.
  induction keys as [|key keys IH]; intros cache Hcache Hpoisoned.
  { cbn. split; [done|]. split; [|by split; [constructor|]]. split; [by exists []; rewrite app_nil_r|done]. }
  cbn in Hpoisoned |- *. pose proof (get_cached_spec key cache Hcache) as Hstep.
  destruct (StoreCache.get_cached_object_store key cache) as [r cache1]. destruct Hstep as (H1 & Hg1 & Ha).
  specialize (IH cache1 H1 (serve_poisoned keys cache1)). destruct (serve keys cache1) as [rs cache2].
  destruct IH as (H2 & Hg2 & Hall & _). split; [done|]. split; [by etrans|]. split; [|done].
  constructor; [by eapply answered_grown|done].
Qed.

(** A store that cannot be built takes every other down, that of local files included. *)
Theorem failed_store_poisons (key : ObjectStoreCacheKey) (keys : list ObjectStoreCacheKey) (stores : list (ObjectStoreCacheKey * ObjectStore)) :
  IndexMap.get key stores = None -> StoreCache.build key = None ->
  (serve (key :: keys) (StoreCache.mk false stores)).1 = Panic :: replicate (length keys) Panic.
Proof.
  intros Hget Hb. cbn. unfold StoreCache.get_cached_object_store. cbn. rewrite Hget, Hb.
  pose proof (serve_poisoned keys (StoreCache.mk true stores) eq_refl) as H.
  destruct (serve keys _) as [rs cache]. cbn in *. by rewrite H.
Qed.

(** A URL of any other scheme is an error. *)
Theorem unsupported_schemes_are_refused (url : Url) :
  url_scheme url ∉ ["file"; "s3"; "gs"; "az"; "abfs"] ->
  Path.new url = Err (UnsupportedUrlScheme (url_scheme url)).
Proof. intros H. unfold Path.new. rewrite !decide_False; [done|..]; set_solver. Qed.
End Facts.

(** ** A process that opens local files, a bucket and a container without an account *)

#[export] Instance demo_store_environment : StoreEnvironment (H := demo_external) := {|
  url_scheme _ := "s3";
  url_host_str _ := Some "bucket";
  url_to_file_path _ := None;
  current_dir := None;
  ObjectStorePath := string;
  object_store_path_text s := s;
  from_absolute_path s := Some s;
  object_store_path_parse s := Some s;
  to_lowercase := to_ascii_lowercase;
  config_key _ key := if decide (key = "region") then Some key else None;
  ObjectStore := list Setting;
  local_file_system := [];
  build_store provider settings := match provider with Azure => None | _ => Some settings end;
|}.

Lemma object_stores_are_shared_witness :
  let bucket := StoreCache.cache_key (Path.S3 "bucket" "a") (Some [("Region", "eu"); ("unknown", "x")]) in
  let keys := [bucket; ObjectStoreCacheKey.Local; bucket; ObjectStoreCacheKey.Azure "c" []; ObjectStoreCacheKey.Local] in
  let cache := StoreCache.mk false [] in
  (serve keys cache).1 =
    [Ok [ClientOptions 300 false; BucketName "bucket"; AllowHttp true; Config "region" "eu"]; Ok [];
     Ok [ClientOptions 300 false; BucketName "bucket"; AllowHttp true; Config "region" "eu"]; Panic; Panic] /\
  one_store_per_key (serve keys cache).2.
Proof.
  intros bucket keys cache. split; [reflexivity|].
  pose proof (object_stores_are_shared keys cache ltac:(constructor)) as H.
  destruct (serve keys cache) as [rs cache']. apply H.
Defined.
