(* ===== verification/Parquet.v ===== *)
(** * Statistics of Parquet files ([io/parquet/])

    What is registered for a file that was written elsewhere: the statistics in its
    footer, by field ID. The Parquet format is read by a third-party crate. *)

From S2P Require Import Prelude Text Regex Identifier Types Instances Literals Values ValueFacts TableStats Transactions.
From S2P Require Import Arrow ArrowFacts Physical Arrays ArraysFacts Paths.

(** ** The [parquet] crate *)

Class ParquetLibrary `{External} `{!StoreEnvironment} : Type := {
  base64_decode : string -> option (list Z);
  (* [ArrowReaderOptions] with or without the properties of a key *)
  ReaderOptions : Type;
  default_options : ReaderOptions;
  with_decryption_key : list Z -> ReaderOptions -> result ReaderOptions;
  (* [FooterTail::try_from(bytes)] and its [metadata_length()] *)
  footer_tail : list Z -> option Z;
  head : ObjectStore -> ObjectStorePath -> result Z;
  get_range : ObjectStore -> ObjectStorePath -> Z * Z -> result (list Z);
  (* [ParquetMetaDataReader::load_and_finish] reads through the reader it is given. *)
  ParquetMetaData : Type;
  load_and_finish {S} : (Z * Z -> method S (list Z)) -> ReaderOptions -> Z -> method S ParquetMetaData;
  ColumnDescriptor : Type;
  basic_id : ColumnDescriptor -> option Z;
  path_parts : ColumnDescriptor -> list string;
  descriptor_name : ColumnDescriptor -> string;
  SchemaDescriptor : Type;
  descriptor_columns : SchemaDescriptor -> list ColumnDescriptor;
  flat_descriptor : ColumnDescriptor -> result SchemaDescriptor;
  ColumnChunk : Type;
  compressed_size : ColumnChunk -> Z;
  RowGroup : Type;
  row_group_num_rows : RowGroup -> Z;
  row_group_column : RowGroup -> nat -> option ColumnChunk;
  row_group_build : SchemaDescriptor -> Z -> list ColumnChunk -> result RowGroup;
  row_groups : ParquetMetaData -> list RowGroup;
  file_num_rows : ParquetMetaData -> Z;
  schema_descr : ParquetMetaData -> SchemaDescriptor;
  parquet_to_arrow_schema : ParquetMetaData -> result (list Field);
  (* [StatisticsConverter]: one row per row group, null where it has no statistics *)
  Converter : Type;
  converter_try_new : string -> list Field -> SchemaDescriptor -> result Converter;
  row_group_mins : Converter -> list RowGroup -> result Array;
  row_group_maxes : Converter -> list RowGroup -> result Array;
  row_group_null_counts : Converter -> list RowGroup -> result (list (option Z));
}.

(** ** The reader ([io/parquet/async_reader.rs]) *)

Module ObjectStoreReader.
Section ObjectStoreReader.
Context `{EXT : External} `{STORES : !StoreEnvironment} `{PARQUET : !ParquetLibrary}.

Record t : Type := mk {
  store : ObjectStore; path : ObjectStorePath; file_size : Z; footer_size : option Z;
}.
Definition new (store : ObjectStore) (path : ObjectStorePath) (file_size : Z) : t := mk store path file_size None.
Definition with_footer_size (n : option Z) (self : t) : t := mk (store self) (path self) (file_size self) n.

Definition FOOTER_SIZE : nat := 8.
Definition record_footer_size (bytes : list Z) (self : t) : t :=
  if decide (FOOTER_SIZE <= length bytes) then
    match footer_tail (drop (length bytes - FOOTER_SIZE) bytes) with
    | Some n => with_footer_size (Some n) self
    | None => self
    end
  else self.

Definition get_bytes (range : Z * Z) : method t (list Z) := fun self =>
  match get_range (store self) (path self) range with
  | Ok bytes =>
      (Ok bytes,
       if decide (range.2 = file_size self /\ footer_size self = None) then record_footer_size bytes self else self)
  | Err e => (Err e, self)
  | Panic => (Panic, self)
  end.

Definition get_metadata (options : ReaderOptions) : method t ParquetMetaData := fun self =>
  load_and_finish get_bytes options (file_size self) self.
End ObjectStoreReader.
End ObjectStoreReader.

(** ** Statistics ([io/parquet/statistics.rs]) *)

Module parquet.
Section parquet.
Context `{EXT : External} `{CHRONO : !Chrono} `{INSTANTS : !Instants} `{EXTENSIONS : !Extensions}
  `{STORES : !StoreEnvironment} `{PARQUET : !ParquetLibrary} `{ARITH : ArrowArith}.

(** The leaves by their ID *)
Fixpoint walk (field : Field) (out : gmap Z Field) {struct field} : gmap Z Field :=
  match field with
  | ArrowType.mk_Field _ data_type _ metadata =>
      match data_type with
      | ArrowType.Struct fields =>
          (fix go (fields : list Field) (out : gmap Z Field) : gmap Z Field :=
             match fields with [] => out | f :: fields => go fields (walk f out) end) fields out
      | ArrowType.List f | ArrowType.LargeList f | ArrowType.FixedSizeList f _ | ArrowType.ListView f
      | ArrowType.LargeListView f | ArrowType.Map f _ => walk f out
      | _ =>
          match (s ← metadata !! ArrowSchema.PARQUET_FIELD_ID_KEY; i64_from_str s) with
          | Some id => <[id := field]> out
          | None => out
          end
      end
  end.
Definition fields_by_id (schema : list Field) : gmap Z Field := foldl (fun out f => walk f out) ∅ schema.

Definition to_usize (z : Z) : Z := (z mod 2 ^ 64)%Z.

(** [result.ok()] *)
Definition to_option {A} (m : result A) : result (option A) :=
  match m with Ok a => Ok (Some a) | Err _ => Ok None | Panic => Panic end.
Definition bound_of (m : result Array) (find : Array -> result (option Value)) : result (option Value) :=
  o ← to_option m; match o with Some array => find array | None => Ok None end.

(** A dictionary is treated like its values. *)
Definition logical_field (field : Field) : Field :=
  match Field.data_type field with
  | ArrowType.Dictionary _ value_type =>
      ArrowType.mk_Field (Field.name field) value_type (Field.is_nullable field) (Field.metadata field)
  | _ => field
  end.

Definition derive_column_stats (field : Field) (converter : Converter) (groups : list RowGroup)
    (metadata : ParquetMetaData) (column_index : nat) : result FileColumnStats.t :=
  size_bytes ← fold_outcome (fun acc rg =>
    chunk ← unwrap (row_group_column rg column_index); mret (i64_add acc (compressed_size chunk)))
    0%Z (row_groups metadata);
  column ← ArrowSchema.try_from (logical_field field);
  let data_type := Column.dtype column in
  min_value ← bound_of (row_group_mins converter groups) (aggregate.find_min data_type);
  max_value ← bound_of (row_group_maxes converter groups) (aggregate.find_max data_type);
  counts ← to_option (row_group_null_counts converter groups);
  mret (FileColumnStats.mk (Some (to_usize size_bytes)) min_value max_value
    (counts ← counts; to_usize <$> sum_u64 counts) None).

(** A leaf column of the file: its statistics, when its ID is that of a field *)
Definition column_statistics (metadata : ParquetMetaData) (arrow_schema : list Field) (by_id : gmap Z Field)
    (col_idx : nat) (col_desc : ColumnDescriptor) (stats : gmap Z FileColumnStats.t)
    : result (gmap Z FileColumnStats.t) :=
  match basic_id col_desc with
  | None => Ok stats
  | Some field_id =>
      match by_id !! field_id with
      | None => Ok stats
      | Some field =>
          s ← (if decide (length (path_parts col_desc) = 1) then
                 converter ← converter_try_new (descriptor_name col_desc) arrow_schema (schema_descr metadata);
                 derive_column_stats field converter (row_groups metadata) metadata col_idx
               else
                 let fake_schema :=
                   [ArrowType.mk_Field "c" (Field.data_type field) (Field.is_nullable field) (Field.metadata field)] in
                 descr ← flat_descriptor col_desc;
                 converter ← converter_try_new "c" fake_schema descr;
                 groups ← map_outcome (fun rg =>
                   chunk ← unwrap (row_group_column rg col_idx);
                   row_group_build descr (row_group_num_rows rg) [chunk]) (row_groups metadata);
                 derive_column_stats field converter groups metadata col_idx);
          mret (<[field_id := s]> stats)
      end
  end.

Fixpoint columns_statistics (metadata : ParquetMetaData) (arrow_schema : list Field) (by_id : gmap Z Field)
    (col_idx : nat) (columns : list ColumnDescriptor) (stats : gmap Z FileColumnStats.t)
    : result (gmap Z FileColumnStats.t) :=
  match columns with
  | [] => Ok stats
  | col_desc :: columns =>
      stats ← column_statistics metadata arrow_schema by_id col_idx col_desc stats;
      columns_statistics metadata arrow_schema by_id (S col_idx) columns stats
  end.

Definition reader_options (encryption_key : option string) : result ReaderOptions :=
  match encryption_key with
  | Some key => key ← ok_or InvalidEncryptionKey (base64_decode key); with_decryption_key key default_options
  | None => Ok default_options
  end.

(** [read_file_statistics], on the cache of object stores *)
Definition read_file_statistics (path : Path.t) (io_options : option (list (string * string)))
    (encryption_key : option string) : method StoreCache.t DataFileStatistics.t :=
  options ← st_lift (reader_options encryption_key);
  store ← StoreCache.object_store path io_options;
  st_lift (
    object_path ← Path.path path;
    file_size ← head store object_path;
    let '(metadata, reader) :=
      ObjectStoreReader.get_metadata options (ObjectStoreReader.new store object_path file_size) in
    metadata ← metadata;
    arrow_schema ← parquet_to_arrow_schema metadata;
    column_stats ← columns_statistics metadata arrow_schema (fields_by_id arrow_schema) 0
                     (descriptor_columns (schema_descr metadata)) ∅;
    mret (DataFileStatistics.mk (to_usize (file_num_rows metadata)) (Some (to_usize file_size))
            (ObjectStoreReader.footer_size reader) column_stats)).
End parquet.
End parquet.

(** ** Bounds of files *)

Section Facts.
Context `{EXT : External} `{CHRONO : !Chrono} `{INSTANTS : !Instants} `{EXTENSIONS : !Extensions}
  `{STORES : !StoreEnvironment} `{PARQUET : !ParquetLibrary} `{ARITH : ArrowArith}.

(** The integers of a data type as values *)
Definition integer (d : DataType) (t : ArrowType) (make : Z -> Value) : Prop :=
  (forall a b, Value.partial_cmp (make a) (make b) = Some (Z.compare a b)) /\
  forall better l, l <> [] -> aggregate.find_extremum better d (Array.Ints t l) = Ok (make <$> extremum Z.compare better l).

Lemma integer_types : integer DataType.Int8 ArrowType.Int8 Value.Int8 /\ integer DataType.Int16 ArrowType.Int16 Value.Int16 /\
  integer DataType.Int32 ArrowType.Int32 Value.Int32 /\ integer DataType.Int64 ArrowType.Int64 Value.Int64 /\
  integer DataType.UInt8 ArrowType.UInt8 Value.UInt8 /\ integer DataType.UInt16 ArrowType.UInt16 Value.UInt16 /\
  integer DataType.UInt32 ArrowType.UInt32 Value.UInt32 /\ integer DataType.UInt64 ArrowType.UInt64 Value.UInt64.
Proof.
  split_and!; (split; [done|]; intros better l Hl; unfold aggregate.find_extremum, aggregate.aggregate; cbn;
    destruct l as [|o l]; [done|]; cbn [length]; by destruct (extremum Z.compare better (o :: l))).
Qed.

(** What the statistics of row groups say of their rows: [m] is a bound of the values;
    a row group without a bound has no values. *)
Definition bounds_group (le : Z -> Z -> Prop) (rows : list (option Z)) (m : option Z) : Prop :=
  match m with
  | Some m => forall z, Some z ∈ rows -> le m z
  | None => Forall (eq None) rows
  end.

Lemma extremum_bounds (better : comparison) (le : Z -> Z -> Prop) groups (bounds : list (option Z)) z rows :
  better <> Eq -> (forall a b c, a = b \/ Z.compare b a <> better -> le b c -> le a c) ->
  Forall2 (bounds_group le) groups bounds -> rows ∈ groups -> Some z ∈ rows ->
  exists m, extremum Z.compare better bounds = Some m /\ le m z.
Proof.
  intros Hb Hle Hgroups Hrows Hz. pose proof (extremum_best Z.compare better bounds _ Hb) as Hspec.
  apply list_elem_of_lookup in Hrows as [i Hi]. destruct (Forall2_lookup_l _ _ _ _ _ Hgroups Hi) as (o & Ho & Hbound).
  destruct o as [b|]; cbn in Hbound; [|rewrite Forall_forall in Hbound; by specialize (Hbound _ Hz)].
  apply list_elem_of_lookup_2 in Ho. destruct (extremum Z.compare better bounds) as [m|]; cbn in Hspec.
  - destruct Hspec as [_ Hbest]. exists m. split; [done|]. apply (Hle m b z); [|by apply Hbound]. right. by apply Hbest.
  - rewrite Forall_forall in Hspec. by specialize (Hspec _ Ho).
Qed.

Lemma derived_bounds d t make field converter parts metadata i stats mins maxes :
  integer d t make -> Column.dtype <$> ArrowSchema.try_from (parquet.logical_field field) = Ok d ->
  row_group_mins converter parts = Ok (Array.Ints t mins) -> row_group_maxes converter parts = Ok (Array.Ints t maxes) ->
  mins <> [] -> maxes <> [] ->
  parquet.derive_column_stats field converter parts metadata i = Ok stats ->
  FileColumnStats.min_value stats = make <$> extremum Z.compare Lt mins /\
  FileColumnStats.max_value stats = make <$> extremum Z.compare Gt maxes.
Proof.
  intros [_ Hfind] Hd Hmins Hmaxes H1 H2. unfold parquet.derive_column_stats.
  destruct (fold_outcome _ 0%Z _) as [size| |]; [|done..]. cbn [mbind outcome_bind].
  destruct (ArrowSchema.try_from _) as [c| |]; [|done..]. cbn [fmap outcome_fmap] in Hd. injection Hd as Hd.
  cbn [mbind outcome_bind]. rewrite Hmins, Hmaxes, Hd. unfold parquet.bound_of, parquet.to_option.
  cbn [mbind outcome_bind]. unfold aggregate.find_min, aggregate.find_max. rewrite !Hfind by done. cbn [mbind outcome_bind].
  destruct (row_group_null_counts _ _); cbn [mbind outcome_bind mret outcome_ret]; try done; intros H; injection H as <-; by split.
Qed.

(** When every row group with values has bounds, those of the file are bounds of
    every value in it. *)
Theorem file_bounds_cover (d : DataType) (t : ArrowType) (make : Z -> Value) (field : Field) (converter : Converter)
    (parts : list RowGroup) (metadata : ParquetMetaData) (i : nat) (stats : FileColumnStats.t)
    (mins maxes : list (option Z)) (groups : list (list (option Z))) :
  integer d t make -> Column.dtype <$> ArrowSchema.try_from (parquet.logical_field field) = Ok d ->
  row_group_mins converter parts = Ok (Array.Ints t mins) -> row_group_maxes converter parts = Ok (Array.Ints t maxes) ->
  Forall2 (bounds_group Z.le) groups mins -> Forall2 (bounds_group (fun m z => z <= m)%Z) groups maxes ->
  parquet.derive_column_stats field converter parts metadata i = Ok stats ->
  forall rows z, rows ∈ groups -> Some z ∈ rows -> exists lo hi,
    FileColumnStats.min_value stats = Some (make lo) /\ FileColumnStats.max_value stats = Some (make hi) /\
    (lo <= z <= hi)%Z.
Proof.
  intros Hint Hd Hmins Hmaxes Hlo Hhi Hstats rows z Hrows Hz.
  destruct (extremum_bounds Lt Z.le groups mins z rows) as (lo & Hl & ?); try done.
  { intros a b c [-> | Hab] Hbc; [done|]. rewrite Z.compare_lt_iff in Hab. lia. }
  destruct (extremum_bounds Gt (fun m z => z <= m)%Z groups maxes z rows) as (hi & Hh & ?); try done.
  { intros a b c [-> | Hab] Hbc; [done|]. rewrite Z.compare_gt_iff in Hab. lia. }
  destruct (derived_bounds d t make field converter parts metadata i stats mins maxes) as [Hmin Hmax]; try done.
  - intros ->. inv Hlo; set_solver.
  - intros ->. inv Hhi; set_solver.
  - exists lo, hi. rewrite Hmin, Hmax, Hl, Hh. split; [done|]. split; [done|]. lia.
Qed.

Lemma extremum_single better z : better <> Eq -> extremum Z.compare better [Some z; None] = Some z.
Proof.
  intros Hb. pose proof (extremum_best Z.compare better [Some z; None] _ Hb) as H.
  destruct (extremum _ _ _) as [m|]; cbn in H; [|by inv H].
  destruct H as [[[= ->]|[[=]|[]%elem_of_nil]%elem_of_cons]%elem_of_cons _]. done.
Qed.

(** Row groups without bounds do not count: the bounds of the file are those of the
    row groups that have some, whatever rows the others hold. *)
Theorem groups_without_bounds_are_ignored (d : DataType) (t : ArrowType) (make : Z -> Value) (field : Field)
    (converter : Converter) (parts : list RowGroup) (metadata : ParquetMetaData) (i : nat) (stats : FileColumnStats.t)
    (lo hi : Z) :
  integer d t make -> Column.dtype <$> ArrowSchema.try_from (parquet.logical_field field) = Ok d ->
  row_group_mins converter parts = Ok (Array.Ints t [Some lo; None]) ->
  row_group_maxes converter parts = Ok (Array.Ints t [Some hi; None]) ->
  parquet.derive_column_stats field converter parts metadata i = Ok stats ->
  FileColumnStats.min_value stats = Some (make lo) /\ FileColumnStats.max_value stats = Some (make hi).
Proof.
  intros Hint Hd Hmins Hmaxes Hstats.
  destruct (derived_bounds d t make field converter parts metadata i stats _ _ Hint Hd Hmins Hmaxes) as [-> ->]; try done.
  by rewrite !extremum_single.
Qed.

(** When every row group counts its nulls, the file has as many as they have
    together, as long as the count fits 64 bits. *)
Theorem file_null_count_adds_up (field : Field) (converter : Converter) (parts : list RowGroup)
    (metadata : ParquetMetaData) (i : nat) (stats : FileColumnStats.t) (counts : list Z) :
  row_group_null_counts converter parts = Ok (Some <$> counts) -> counts <> [] ->
  (0 <= foldr Z.add 0 counts < 2 ^ 64)%Z ->
  parquet.derive_column_stats field converter parts metadata i = Ok stats ->
  FileColumnStats.null_count stats = Some (foldr Z.add 0 counts)%Z.
Proof.
  intros Hcounts Hne Hrange. unfold parquet.derive_column_stats.
  destruct (fold_outcome _ 0%Z _) as [size| |]; [|done..]. cbn [mbind outcome_bind].
  destruct (ArrowSchema.try_from _) as [c| |]; [|done..]. cbn [mbind outcome_bind].
  destruct (parquet.bound_of (row_group_mins _ _) _) as [lo| |]; [|done..]. cbn [mbind outcome_bind].
  destruct (parquet.bound_of (row_group_maxes _ _) _) as [hi| |]; [|done..]. cbn [mbind outcome_bind].
  rewrite Hcounts. cbn. intros [= <-]. cbn. rewrite sum_u64_some.
  - cbn. unfold parquet.to_usize.
    assert (foldr (fun o s => default 0%Z o + s)%Z 0%Z (Some <$> counts) = foldr Z.add 0%Z counts) as ->.
    { clear. induction counts as [|z l IH]; [done|]. cbn. by rewrite IH. }
    by rewrite Z.mod_mod, Z.mod_small by lia.
  - destruct counts as [|z l]; [done|]. cbn. by intros [? _]%Forall_cons.
Qed.
End Facts.
